(* ===== verification/_CoqProject ===== *)
-Q . S2P
Prelude.v
Memory.v
Arrow.v
Json.v
Crypto.v
IdentityInternal.v
Grants.v
Errors.v
Session.v
SessionThreads.v
PeerIdentity.v
FloatText.v
ProxyProof.v
ProxyProtocol.v
ExternalUrl.v
Shm.v
ShmPointer.v
Wire.v
TokenIdentity.v
Calls.v
ClientExternal.v
External.v
RequestParams.v
ProtocolHash.v
Reflection.v
Server.v
HttpRoute.v
HttpAuth.v
HttpReply.v
CallState.v
Dispatch.v
Demo.v
Serving.v
Streams.v
Admission.v
Requests.v
IdentityServer.v
Client.v
ClientCalls.v
ClientStreams.v
ClientDescription.v
Tables.v
ClientReflection.v
AccessLog.v
HttpTurn.v
HttpRpc.v
HttpEntry.v
HttpDemo.v
HttpLaws.v
HttpCalls.v
HttpStreams.v
HttpClient.v
HttpSticky.v
HttpClientCalls.v
HttpTransport.v
HttpPost.v
HttpSessions.v
HttpSessionLaws.v
