(* ===== verification/Prelude.v ===== *)
(** * vgi-rpc C++: a verification development

    vgi-rpc is an RPC framework over Apache Arrow IPC.  A worker process builds a
    server from protocols (named groups of unary methods and streams), then
    serves one request after another on a connection, or behind HTTP; large
    batches may travel through a shared-memory segment or an object store, errors
    travel as zero-row batches with structured metadata, sessions and grants are
    sealed tokens.  This library models the server, from the bytes of its tokens up to the
    loop of [Server::run] and the handlers of HTTP requests, and its clients, over a
    connection and over HTTP, and proves what they promise, alone and to each other.

    ** The parts and the files

    Foundations.
    - [Prelude]: bytes, machine integers with their wrap-around, little-endian
      words, decimal text, the result type [res] of fallible code, generic lemmas.
    - [Memory]: a mapping as a finite map from addresses to bytes, with memcpy and
      memmove.
    - [Arrow]: record batches, schemas and key-value metadata (metadata.cpp).
      Arrow is third-party code: a class of operations with their documented laws.
    - [Json]: nlohmann's values; parsing and dumping are a class with its law.
    - [FloatText]: [std::stod] and the decimal forms of doubles on binary64.

    Tokens, identities and their checks.
    - [Crypto] (crypto.cpp): base64url, hex, the AEAD envelope; libsodium is a
      class with its laws.
    - [IdentityInternal] (identity_provider_internal.h): UTF-8 and bounded JSON.
    - [Grants] (grants.cpp): sealed grants and their key rotation.
    - [Session], [SessionThreads] (session.cpp): the sticky-session registry, one
      operation at a time and under interleaving threads.
    - [ProxyProof] (proxy_proof.cpp): HMAC proofs with a replay cache.
    - [PeerIdentity] (identity.cpp): evidence of the peer, the policies over it and
      the digest that binds a session to it.
    - [TokenIdentity] (token_identity.cpp): the guards of the identity protocol and
      its sealed grants.

    Errors: [Errors] (errors.cpp, make_error_metadata of result.cpp).

    Shared memory: [Shm] (the allocator of shm.cpp on the bytes of the header) and
    [ShmPointer] (pointer batches).

    External payloads: [ExternalUrl] (URLs and the address policy of
    client_external.cpp), [ClientExternal] (fetching, resolving and uploading),
    [External] (external.cpp: uploads, published references).

    The server.
    - [Wire] (wire.cpp): a connection as two sequences of IPC messages, read and
      written through the state monad [M]; the descriptor loops.
    - [Calls] (log.cpp, log_sink.cpp, output_collector.cpp, result.cpp, stream.h):
      what a handler sees and leaves; [RequestParams] (request.cpp): how it reads
      its parameters.
    - [ProtocolHash] (type_tokens.cpp, protocol_hash.cpp), [Reflection]
      (reflection.cpp): how a server describes itself.
    - [Server] (server.cpp): the builders, [build], the version gate.
    - [Dispatch] (pipe_transport.cpp, request_contract.h): [serve_one] and [run].
    - [IdentityServer] (token_identity.cpp): the methods of the identity protocol
      behind the interfaces of [Server] and [Dispatch].
    - [CallState] (call_context.cpp): the sticky-session operations of a call.
    - [ProxyProtocol] (proxy_protocol_v2.cpp): the PROXY header of a connection.
    - [Demo]: a server built over toy instances of the interfaces, on which the
      properties of dispatch are instantiated.
    - [Serving], [Streams], [Requests], [Admission]: the theorems of dispatch.
    - [AccessLog] (access_log.cpp): the line of a call, its members and its short form.

    The client on a connection.
    - [Client] (client.cpp): requests and their metadata, responses, streams, pointer
      batches, closing.  [ClientCalls], [ClientStreams]: its theorems, with the server of
      [Dispatch] at the other end.
    - [ClientDescription] (client_description.cpp): the decoders of reflection replies and
      the calls that use them; [ClientReflection] proves them against [Reflection], over
      the arrays of [Tables], an Arrow of tables.

    HTTP (http_transport.cpp, http_config.h).
    - [HttpRoute]: paths to routes, the request's own headers, the choice of codec.
    - [HttpAuth]: configuration, who calls (proof, peer evidence, bearers).
    - [HttpReply]: the response's headers and body, refusals, health.
    - [HttpTurn], [HttpRpc]: [handle_rpc], from the headers to the response, with
      the registry of streams, the record of a turn and the sticky slot; the
      deletion of a session.  The body is built by the same [Dispatch] functions
      as on the pipe, on a buffer in place of the connection.
    - [HttpEntry]: the handlers that [run] registers, body reader and assets
      included.
    - [HttpDemo]: an HTTP server over toy instances, on which requests evaluate.
    - [HttpLaws]: what each step of a request keeps, and that responses are
      complete; [HttpCalls], [HttpStreams]: the theorems of dispatch over HTTP.

    The client over HTTP (http_client.cpp, iroh_client.cpp).
    - [HttpClient]: what a request carries, what is taken from the headers of a response,
      the decoder of bodies; [HttpSticky]: the session state of a view.
    - [HttpTransport]: limits, headers, one request and its answer, retries, discovery,
      [post], over a world of network, clock and stop token.
    - [HttpSessions]: calls, reflection, exchange sessions and stream sessions.
    - [HttpClientCalls]: the decoder against the server's unary responses; [HttpPost],
      [HttpSessionLaws]: the theorems of requests and of sessions.

    State and operations keep the names of the code (a C++ member [x_] is a
    record field [x_]; a method is a function of the record, and the state monad
    [M] where it throws).  An exception is a value: [Throw] in [res], [Raised] in
    [M], where [try_catch] is the catch clause and the state is kept.

    ** What the theorems show

    - A connection: every request is answered by complete streams, whatever the
      application does; refused requests get the error of the first condition, in
      order, that refuses them; a unary call gets its log messages and its result; a
      stream does what an abstract stream says; application code runs only when the
      request, a resolved pointer included, meets the method's contract.  A transfer
      over a descriptor loses no byte, and completes on one that keeps taking some.
    - A server that [build] returns is well formed (distinct, valid, unreserved
      names, parsed versions, methods under their own names), and its version gate
      accepts exactly equal major and minor versions.
    - Encodings and tokens: round trips, the exact acceptance conditions of grant,
      session and proof tokens, and what their associated data binds.
    - Shared memory: the allocator on bytes refines a first-fit allocator on a list
      of regions, regions are disjoint and inside the segment, a pointer batch
      resolves to what was written, reads stay in bounds.
    - Sessions: under every interleaving each session is closed exactly once, and
      the dispatch lock gives a session to one thread at a time; what a handler
      opens is bound to its caller.
    - Identity: the hooks of the identity protocol run only behind their guards, a
      policy accepts a caller only on verified evidence, an issued grant is a
      bearer credential of its caller and of nobody else.
    - HTTP: the routes are exactly those of a path grammar; a caller is
      authenticated only by a configured credential; refusals for want of a proxy
      proof are uniform; a unary call gets the stream the pipe answers with; a
      stream is continued only by the caller that opened it, and its records say
      that a token went out exactly when it can be continued.
    - The client: a unary call gives the caller the logs and the result, or the error, of
      the handler (a log of level EXCEPTION takes the result's place); a stream is read as
      the response that was written, and what is left of it is read by closing it; a
      connection that lost its place is never used again; the metadata of a request is the client's own;
      a description is what the server hosts.  Over HTTP: the decoder gives what the
      handler did; a call that may not be replayed is dispatched at most once, a turn of
      an exchange too, whatever is lost; a producer's batches come all and in order;
      responses stay within the advertised limit, whatever their encoding; what is
      echoed for a sticky session is always safe to send.
    - The access log: every call is one line with the members of its record.
    - External payloads: a fetch never leaves the address policy, ends, and stays
      within its caps; a resolved pointer is the payload with the call's metadata.
    - Errors: codes and details survive the wire.

    Where a theorem has hypotheses it is followed by a witness, a concrete input at
    which they hold.

    ** Bounds and fuel

    [Server::run], the stream loop and the reading loops consume at least one
    message of the finite input in every round, so the number of messages, plus
    one, is enough fuel: [Admission.run_terminates] states it for [run], and
    [stream_loop] is called with that fuel by [serve_turns]; a read that fails ends these
    loops, and handlers are functions, so that they return is part of the model.  A
    fetch takes a number of rounds, and [ClientExternal.fetch_stays_in_policy] says that
    its guard on redirects bounds the requests whatever their number, and how many are
    enough; the decoder's loop is bounded by its output limit and the input that is left
    ([HttpPost.zstd_bodies_end]).
    The loop of [HttpStreamSession::tick] goes on as long as the server answers without a
    batch, so it takes a number of rounds, and [HttpSessionLaws.producer_delivered] says how
    many are enough; retries are bounded by the policy.  Loops over a
    descriptor take a schedule of system calls instead: [None] is a call that
    still blocks, and [Wire.fd_transfer_complete] says when none does.  Loops over bytes and lists are structural.

    ** Not modelled

    Arrow, libsodium, nlohmann::json, zstd, zlib, cpp-httplib, POSIX and the clock:
    parameters, with the behaviour relied on as laws of a class, each with a toy
    instance.  Flush (a no-op on these streams), warnings on stderr, durations in
    the access log.  HTTP requests are served one at a time; what others did
    while one waited for its stream's lock is an input ([he_waited]), and a client is used
    by one call at a time: its locks, and the token of a view that is being used and
    closed at once, are left out.  Upload URLs of the HTTP client are a parameter of
    [post]; its builder's setters, TLS options and the DELETE of a closed session are
    left out.  The listening sockets of both transports, the processes, sockets and
    SOCKS proxies of the clients (client_transport.cpp, http_socks5h.cpp), the gzip loop,
    the iroh bindings, the storage backends and the identity providers that query
    daemons are glue around the operating system and third-party code. *)

From Stdlib Require Export ZArith Lia.
From Stdlib Require Export Strings.Byte.
From Stdlib Require Strings.String.
From stdpp Require Export base tactics decidable countable option list strings gmap.

#[global] Open Scope Z_scope.

(** ** Bytes: [std::string], [std::vector<uint8_t>] and [std::span<const uint8_t>] *)

Abbreviation bytes := (list byte).

#[export] Instance byte_eq_decision : EqDecision byte := byte_eq_dec.

#[export] Program Instance byte_countable : Countable byte :=
  inj_countable Byte.to_N Byte.of_N Byte.of_to_N.

#[export] Instance byte_inhabited : Inhabited byte := populate x00.

(** The value of a byte as [uint8_t] and the conversion [static_cast<uint8_t>]. *)
Definition b2z (b : byte) : Z := Z.of_N (Byte.to_N b).

Definition z2b (z : Z) : byte := default x00 (Byte.of_N (Z.to_N (z mod 256))).

(** A C++ string literal. *)
Definition str (s : string) : bytes := String.list_byte_of_string s.

(** A C++ character literal. *)
Definition chr (s : string) : byte := default x00 (head (str s)).

Lemma byte_eqb_eq b1 b2 : Byte.eqb b1 b2 = true <-> b1 = b2.
Proof. split; [apply Byte.byte_dec_bl|apply Byte.byte_dec_lb]. Qed.

Lemma byte_eqb_refl b : Byte.eqb b b = true.
Proof. by apply byte_eqb_eq. Qed.

Lemma byte_eqb_neq b1 b2 : Byte.eqb b1 b2 = false <-> b1 <> b2.
Proof. rewrite <- byte_eqb_eq. by destruct (Byte.eqb b1 b2). Qed.

Lemma b2z_range b : 0 <= b2z b < 256.
Proof.
  unfold b2z. pose proof (Byte.to_N_bounded b). lia.
Qed.

Lemma b2z_inj b1 b2 : b2z b1 = b2z b2 -> b1 = b2.
Proof.
  unfold b2z. intros H%N2Z.inj.
  pose proof (Byte.of_to_N b1) as E1. pose proof (Byte.of_to_N b2) as E2.
  rewrite H in E1. congruence.
Qed.

Lemma b2z_z2b z : b2z (z2b z) = z mod 256.
Proof.
  unfold b2z, z2b.
  pose proof (Z.mod_pos_bound z 256 eq_refl) as Hb.
  destruct (Byte.of_N (Z.to_N (z mod 256))) as [b|] eqn:E; simpl.
  - apply Byte.to_of_N in E. rewrite E. lia.
  - apply Byte.of_N_None_iff in E. lia.
Qed.

Lemma b2z_z2b_small z : 0 <= z < 256 -> b2z (z2b z) = z.
Proof. intros. rewrite b2z_z2b. by apply Z.mod_small. Qed.

Lemma z2b_b2z b : z2b (b2z b) = b.
Proof.
  apply b2z_inj. rewrite b2z_z2b. apply Z.mod_small, b2z_range.
Qed.

Lemma z2b_eq z b : z mod 256 = b2z b -> z2b z = b.
Proof. intros H. apply b2z_inj. by rewrite b2z_z2b. Qed.

Lemma z2b_mod z : z2b (z mod 256) = z2b z.
Proof. apply b2z_inj. rewrite !b2z_z2b. by rewrite Z.mod_mod. Qed.

(** ** Machine integers *)

(** [static_cast<uint32_t>], [static_cast<uint64_t>] and [static_cast<int64_t>]
    (two's complement, as C++20 fixes it). *)
Definition u16 (z : Z) : Z := z mod 2 ^ 16.
Definition u32 (z : Z) : Z := z mod 2 ^ 32.
Definition u64 (z : Z) : Z := z mod 2 ^ 64.
Definition i64 (z : Z) : Z := (z + 2 ^ 63) mod 2 ^ 64 - 2 ^ 63.

Definition in_u32 (z : Z) : Prop := 0 <= z < 2 ^ 32.
Definition in_u64 (z : Z) : Prop := 0 <= z < 2 ^ 64.
Definition in_i64 (z : Z) : Prop := - 2 ^ 63 <= z < 2 ^ 63.

Lemma u64_range z : in_u64 (u64 z).
Proof. unfold in_u64, u64. by apply Z.mod_pos_bound. Qed.

Lemma u32_range z : in_u32 (u32 z).
Proof. unfold in_u32, u32. by apply Z.mod_pos_bound. Qed.

Lemma i64_range z : in_i64 (i64 z).
Proof.
  unfold in_i64, i64. pose proof (Z.mod_pos_bound (z + 2 ^ 63) (2 ^ 64) eq_refl). lia.
Qed.

Lemma u64_small z : in_u64 z -> u64 z = z.
Proof. unfold in_u64, u64. apply Z.mod_small. Qed.

Lemma u32_small z : in_u32 z -> u32 z = z.
Proof. unfold in_u32, u32. apply Z.mod_small. Qed.

Lemma i64_small z : in_i64 z -> i64 z = z.
Proof. unfold in_i64, i64. intros. rewrite Z.mod_small; lia. Qed.

(** Reading an [int64_t] back from its [uint64_t] image loses nothing. *)
Lemma i64_u64 z : in_i64 z -> i64 (u64 z) = z.
Proof.
  unfold in_i64, i64, u64. intros.
  rewrite Zplus_mod_idemp_l. rewrite Z.mod_small; lia.
Qed.

Lemma u64_i64 z : in_u64 z -> u64 (i64 z) = z.
Proof.
  unfold in_u64, u64, i64. intros.
  destruct (Z.lt_ge_cases z (2 ^ 63)).
  - rewrite (Z.mod_small (z + 2 ^ 63)) by lia. rewrite Z.mod_small; lia.
  - replace (z + 2 ^ 63) with (z - 2 ^ 63 + 1 * 2 ^ 64) by lia.
    rewrite Z.mod_add, (Z.mod_small (z - 2 ^ 63)) by lia.
    replace (z - 2 ^ 63 - 2 ^ 63) with (z + (-1) * 2 ^ 64) by lia.
    rewrite Z.mod_add by lia. apply Z.mod_small. lia.
Qed.

(** ** Bit operations the codecs use, in arithmetic form *)

Lemma lor_shiftl_add a b n :
  0 <= n -> 0 <= a < 2 ^ n -> Z.lor a (Z.shiftl b n) = a + b * 2 ^ n.
Proof.
  intros Hn Ha. pose proof (Z.add_lor_land a (Z.shiftl b n)) as Hadd.
  rewrite <- Z.shiftl_mul_pow2 by done.
  enough (Z.land a (Z.shiftl b n) = 0) as E by lia. clear Hadd.
  apply Z.bits_inj'. intros i Hi.
  rewrite Z.land_spec, Z.shiftl_spec, Z.bits_0 by done.
  destruct (decide (i < n)).
  - rewrite (Z.testbit_neg_r b) by lia. by rewrite andb_false_r.
  - destruct (decide (a = 0)) as [->|]; [by rewrite Z.testbit_0_l|].
    rewrite (Z.bits_above_log2 a); [done|lia|].
    assert (Z.log2 a < n) by (apply Z.log2_lt_pow2; lia). lia.
Qed.

Lemma shiftl_lor_add a b n :
  0 <= n -> 0 <= b < 2 ^ n -> Z.lor (Z.shiftl a n) b = a * 2 ^ n + b.
Proof. intros. rewrite Z.lor_comm, lor_shiftl_add by done. lia. Qed.

Lemma land_ones_mod a n : 0 <= n -> Z.land a (2 ^ n - 1) = a mod 2 ^ n.
Proof.
  intros. rewrite <- Z.land_ones by done. f_equal. rewrite Z.ones_equiv. lia.
Qed.

(** ** Little-endian integers *)

Fixpoint le_encode (n : nat) (z : Z) : bytes :=
  match n with
  | O => []
  | S n' => z2b z :: le_encode n' (z / 256)
  end.

Fixpoint le_decode (bs : bytes) : Z :=
  match bs with
  | [] => 0
  | b :: bs' => b2z b + 256 * le_decode bs'
  end.

Lemma le_encode_length n z : length (le_encode n z) = n.
Proof. revert z; induction n as [|n IH]; intros z; simpl; [done|by rewrite IH]. Qed.

Lemma pow_256_S n : 2 ^ (8 * Z.of_nat (S n)) = 256 * 2 ^ (8 * Z.of_nat n).
Proof.
  replace (8 * Z.of_nat (S n)) with (8 + 8 * Z.of_nat n) by lia.
  rewrite Z.pow_add_r by lia. done.
Qed.

Lemma le_decode_encode n z :
  le_decode (le_encode n z) = z mod 2 ^ (8 * Z.of_nat n).
Proof.
  revert z; induction n as [|n IH]; intros z; cbn [le_encode le_decode].
  - by rewrite Z.mod_1_r.
  - rewrite IH, b2z_z2b, pow_256_S.
    rewrite (Z.rem_mul_r z 256); [lia|lia|]. apply Z.pow_pos_nonneg; lia.
Qed.

Lemma le_decode_range bs : 0 <= le_decode bs < 2 ^ (8 * Z.of_nat (length bs)).
Proof.
  induction bs as [|b bs IH]; simpl length; [simpl; lia|].
  rewrite pow_256_S. cbn [le_decode]. pose proof (b2z_range b). lia.
Qed.

Lemma le_encode_decode bs : le_encode (length bs) (le_decode bs) = bs.
Proof.
  induction bs as [|b bs IH]; [done|].
  cbn [length le_encode le_decode]. pose proof (b2z_range b).
  f_equal.
  - apply b2z_inj. rewrite b2z_z2b.
    rewrite (Z.mul_comm 256), Z.mod_add by lia. by apply Z.mod_small.
  - rewrite (Z.mul_comm 256), Z.div_add, Z.div_small by lia. exact IH.
Qed.

Lemma le_decode_encode_u64 z : in_u64 z -> le_decode (le_encode 8 z) = z.
Proof. intros. rewrite le_decode_encode. by apply Z.mod_small. Qed.

Lemma le_decode_encode_u32 z : in_u32 z -> le_decode (le_encode 4 z) = z.
Proof. intros. rewrite le_decode_encode. by apply Z.mod_small. Qed.

(** ** Exceptions

    The C++ classes the modelled code throws, with the [what()] text. *)
Inductive exn :=
  | InvalidArgument (what : bytes)
  | RuntimeError (what : bytes)
  | LogicError (what : bytes)
  | GrantInvalidError (what : bytes) (expired : bool)
  | ProxyProtocolV2Error (what : bytes)
  | PeerIdentityRejected (what : bytes)
  | PeerIdentityUnavailable (what : bytes)
  | ProtocolError (what : bytes)
  | ExternalHttpError (what : bytes).

#[export] Instance exn_eq_decision : EqDecision exn.
Proof. solve_decision. Defined.

(** A C++ function that returns an [A] or throws. *)
Inductive res (A : Type) :=
  | Ok (a : A)
  | Throw (e : exn).
Arguments Ok {A} a.
Arguments Throw {A} e.

#[export] Instance res_ret : MRet res := fun A a => Ok a.
#[export] Instance res_bind : MBind res := fun A B f m =>
  match m with Ok a => f a | Throw e => Throw e end.

(** [if (c) throw e;] *)
Definition throw_if (c : bool) (e : exn) : res unit :=
  if c then Throw e else Ok tt.

Definition is_ok {A} (r : res A) : bool :=
  match r with Ok _ => true | Throw _ => false end.

Lemma res_bind_ok {A B} (m : res A) (f : A -> res B) b :
  (m ≫= f) = Ok b <-> exists a, m = Ok a /\ f a = Ok b.
Proof.
  destruct m as [a|e]; simpl; split.
  - eauto.
  - by intros (a' & [= ->] & ?).
  - done.
  - by intros (? & ? & _).
Qed.

Lemma throw_if_ok c e u : throw_if c e = Ok u <-> c = false.
Proof. destruct u, c; simpl; split; done. Qed.

(** A guard followed by the rest of the function. *)
Lemma throw_if_then {A} c e (k : res A) a :
  (throw_if c e ≫= fun _ => k) = Ok a <-> c = false /\ k = Ok a.
Proof. destruct c; simpl; [by split; [|intros (?&_)]|by split; [|intros (_&?)]]. Qed.

(** ** Tactics *)

(** Splits every successful monadic sequence in the context into its steps. *)
Ltac inv_res :=
  repeat match goal with
  | H : (_ ≫= _) = Ok _ |- _ =>
      apply res_bind_ok in H; destruct H as (? & ? & ?)
  | H : throw_if _ _ = Ok _ |- _ => apply throw_if_ok in H
  | H : Ok _ = Ok _ |- _ => injection H as H
  | H : Throw _ = Ok _ |- _ => discriminate H
  | H : mret _ = Ok _ |- _ => injection H as H
  end.

(** Boolean conditions of the code as propositions. *)
Ltac bool_to_prop :=
  repeat match goal with
  | H : andb _ _ = true |- _ => apply andb_true_iff in H; destruct H
  | H : orb _ _ = false |- _ => apply orb_false_iff in H; destruct H
  | H : negb _ = true |- _ => apply negb_true_iff in H
  | H : negb _ = false |- _ => apply negb_false_iff in H
  | H : bool_decide _ = true |- _ => apply bool_decide_eq_true in H
  | H : bool_decide _ = false |- _ => apply bool_decide_eq_false in H
  | H : Z.ltb _ _ = true |- _ => apply Z.ltb_lt in H
  | H : Z.ltb _ _ = false |- _ => apply Z.ltb_ge in H
  | H : Z.leb _ _ = true |- _ => apply Z.leb_le in H
  | H : Z.leb _ _ = false |- _ => apply Z.leb_gt in H
  | H : Z.eqb _ _ = true |- _ => apply Z.eqb_eq in H
  | H : Z.eqb _ _ = false |- _ => apply Z.eqb_neq in H
  | H : Byte.eqb _ _ = true |- _ => apply byte_eqb_eq in H
  | H : Byte.eqb _ _ = false |- _ => apply byte_eqb_neq in H
  | H : Nat.eqb _ _ = true |- _ => apply Nat.eqb_eq in H
  | H : Nat.eqb _ _ = false |- _ => apply Nat.eqb_neq in H
  | H : Nat.ltb _ _ = true |- _ => apply Nat.ltb_lt in H
  | H : Nat.ltb _ _ = false |- _ => apply Nat.ltb_ge in H
  end.

(** ** Lists *)

Abbreviation blen l := (Z.of_nat (length l)).

Lemma take_app_exact {A} (l1 l2 : list A) n : n = length l1 -> take n (l1 ++ l2) = l1.
Proof. intros ->. by rewrite take_app_length. Qed.

Lemma drop_app_exact {A} (l1 l2 : list A) n : n = length l1 -> drop n (l1 ++ l2) = l2.
Proof. intros ->. by rewrite drop_app_length. Qed.

Create HintDb vgi discriminated.
#[export] Hint Resolve b2z_range u64_range u32_range i64_range : vgi.
#[export] Hint Resolve le_decode_range : vgi.

Create Rewrite HintDb vgi_codec.
#[export] Hint Rewrite le_encode_length z2b_b2z le_encode_decode : vgi_codec.

(** [while (!s.empty() && p(s.back())) s.pop_back();] *)
Fixpoint pop_back_while {A} (p : A -> bool) (l : list A) : list A :=
  match l with
  | [] => []
  | x :: l' =>
      match pop_back_while p l' with
      | [] => if p x then [] else [x]
      | r => x :: r
      end
  end.

(** [s.erase(0, s.find_first_not_of(p))]: the suffix from the first character
    outside the class. *)
Fixpoint drop_while {A} (p : A -> bool) (l : list A) : list A :=
  match l with
  | [] => []
  | x :: l' => if p x then drop_while p l' else l
  end.

Lemma pop_back_while_id {A} (p : A -> bool) l :
  Forall (fun x => p x = false) l -> pop_back_while p l = l.
Proof.
  induction 1 as [|x l Hx _ IH]; simpl; [done|].
  rewrite IH, Hx. by destruct l.
Qed.

Lemma pop_back_while_app {A} (p : A -> bool) (l l' : list A) :
  Forall (fun x => p x = true) l' -> pop_back_while p (l ++ l') = pop_back_while p l.
Proof.
  intros Hl'. assert (pop_back_while p l' = []) as E.
  { induction Hl' as [|x l' Hx _ IH]; simpl; [done|]. by rewrite IH, Hx. }
  induction l as [|x l IH]; simpl; [done|]. by rewrite IH.
Qed.

Lemma Forall_lookup_total_byte (P : byte -> Prop) (l : bytes) (i : nat) :
  (i < length l)%nat -> Forall P l -> P (l !!! i).
Proof.
  intros Hi HP. destruct (lookup_lt_is_Some_2 l i Hi) as [x Hx].
  rewrite (list_lookup_total_correct _ _ _ Hx). by eapply Forall_lookup_1.
Qed.

(** ** The C++ standard library on decimal text *)

Definition is_digit (c : byte) : bool := (48 <=? b2z c) && (b2z c <=? 57).

(** [std::isspace] in the C locale: space, [\t \n \v \f \r]. *)
Definition isspace (c : byte) : bool :=
  (b2z c =? 32) || ((9 <=? b2z c) && (b2z c <=? 13)).

(** The longest digit prefix: its value and its length. *)
Fixpoint parse_dec (acc : Z) (n : nat) (s : bytes) : Z * nat :=
  match s with
  | c :: s' =>
      if is_digit c then parse_dec (acc * 10 + (b2z c - 48)) (S n) s' else (acc, n)
  | [] => (acc, n)
  end.

(** [std::stoll(s, &consumed)]: the value and [consumed], or [None] when it
    throws ([std::invalid_argument] without a digit, [std::out_of_range] past
    the type). *)
Definition stoll (s : bytes) : option (Z * nat) :=
  let s1 := drop_while isspace s in
  let '(neg, s2) :=
    match s1 with
    | c :: r => if Byte.eqb c "-" then (true, r) else if Byte.eqb c "+" then (false, r)
                else (false, s1)
    | [] => (false, [])
    end in
  let '(v, n) := parse_dec 0 0 s2 in
  let v := if (neg : bool) then - v else v in
  if (n =? 0)%nat then None
  else if (- 2 ^ 63 <=? v) && (v <? 2 ^ 63) then Some (v, (length s - length s2 + n)%nat)
  else None.

(** [std::stoull(s)]: a minus sign negates modulo 2^64. *)
Definition stoull (s : bytes) : option Z :=
  let s1 := drop_while isspace s in
  let '(neg, s2) :=
    match s1 with
    | c :: r => if Byte.eqb c "-" then (true, r) else if Byte.eqb c "+" then (false, r)
                else (false, s1)
    | [] => (false, [])
    end in
  let '(v, n) := parse_dec 0 0 s2 in
  if (n =? 0)%nat then None
  else if v <? 2 ^ 64 then Some (if (neg : bool) then u64 (- v) else v)
  else None.

(** [std::to_string] of a 64-bit integer; 20 digits are enough for any of them. *)
Fixpoint dec_digits (fuel : nat) (n : Z) (acc : bytes) : bytes :=
  match fuel with
  | O => acc
  | S fuel' =>
      let acc := z2b (48 + n mod 10) :: acc in
      if n / 10 =? 0 then acc else dec_digits fuel' (n / 10) acc
  end.

Definition to_string (z : Z) : bytes :=
  if z <? 0 then "-"%byte :: dec_digits 20 (- z) [] else dec_digits 20 z [].

(** [s.find(c)] splitting: the pieces between the separators, at least one. *)
Fixpoint split_on (sep : byte) (s : bytes) : list bytes :=
  match s with
  | [] => [[]]
  | c :: s' =>
      if Byte.eqb c sep then [] :: split_on sep s'
      else match split_on sep s' with
           | piece :: rest => (c :: piece) :: rest
           | [] => [[c]]
           end
  end.

(** The pieces with the separator between them. *)
Fixpoint join_with (sep : byte) (pieces : list bytes) : bytes :=
  match pieces with
  | [] => []
  | [p] => p
  | p :: ps => p ++ sep :: join_with sep ps
  end.

Lemma split_on_nonempty sep s : split_on sep s <> [].
Proof.
  destruct s as [|c s]; simpl; [done|]. destruct (Byte.eqb c sep); [done|].
  by destruct (split_on sep s).
Qed.

Lemma split_on_app sep p s :
  sep ∉ p -> split_on sep (p ++ sep :: s) = p :: split_on sep s.
Proof.
  induction p as [|c p IH]; intros Hp; cbn [app split_on].
  - by rewrite byte_eqb_refl.
  - rewrite not_elem_of_cons in Hp. destruct Hp as [Hc Hp].
    rewrite (proj2 (byte_eqb_neq c sep)) by congruence. by rewrite IH.
Qed.

Lemma split_on_none sep p : sep ∉ p -> split_on sep p = [p].
Proof.
  induction p as [|c p IH]; intros Hp; cbn [split_on]; [done|].
  rewrite not_elem_of_cons in Hp. destruct Hp as [Hc Hp].
  rewrite (proj2 (byte_eqb_neq c sep)) by congruence. by rewrite IH.
Qed.

Lemma split_on_join sep ps :
  ps <> [] -> Forall (fun p => sep ∉ p) ps -> split_on sep (join_with sep ps) = ps.
Proof.
  intros Hne HF. induction HF as [|p ps Hp HF IH]; [done|]. destruct ps as [|p' ps].
  - by apply split_on_none.
  - change (join_with sep (p :: p' :: ps)) with (p ++ sep :: join_with sep (p' :: ps)).
    rewrite split_on_app by done. by rewrite IH.
Qed.

Lemma join_split_on sep s :
  join_with sep (split_on sep s) = s /\ Forall (fun p => sep ∉ p) (split_on sep s).
Proof.
  induction s as [|c s [IH1 IH2]]; cbn [split_on].
  - split; [done|]. constructor; [apply not_elem_of_nil|done].
  - pose proof (split_on_nonempty sep s) as Hne.
    destruct (Byte.eqb c sep) eqn:E.
    + apply byte_eqb_eq in E as ->. destruct (split_on sep s) as [|p ps]; [done|]. split.
      * cbn [join_with app]. by rewrite <- IH1.
      * constructor; [apply not_elem_of_nil|done].
    + apply byte_eqb_neq in E. destruct (split_on sep s) as [|p ps]; [done|].
      apply Forall_cons in IH2 as [Hp IH2]. split.
      * rewrite <- IH1. by destruct ps.
      * constructor; [|done]. rewrite not_elem_of_cons. split; [congruence|done].
Qed.

(** Joining two texts with a byte neither contains is injective. *)
Lemma app_sep_inj (sep : byte) (a b a' b' : bytes) :
  sep ∉ a -> sep ∉ a' -> a ++ sep :: b = a' ++ sep :: b' -> a = a' /\ b = b'.
Proof.
  revert a'; induction a as [|x a IH]; intros [|x' a'] Ha Ha' E; cbn in E.
  - by injection E as <-.
  - injection E as <- _. exfalso. apply Ha'. by left.
  - injection E as -> _. exfalso. apply Ha. by left.
  - injection E as <- E. rewrite not_elem_of_cons in Ha, Ha'.
    destruct (IH a') as [<- <-]; tauto.
Qed.

Lemma digit_char d : 0 <= d < 10 ->
  is_digit (z2b (48 + d)) = true /\ b2z (z2b (48 + d)) - 48 = d.
Proof.
  intros. unfold is_digit. rewrite b2z_z2b_small by lia.
  split; [|lia]. apply andb_true_iff. split; apply Z.leb_le; lia.
Qed.

(** The printed digits are digits, at least one, and parse back. *)
Lemma dec_digits_spec fuel n acc :
  (1 <= fuel)%nat -> 0 <= n < 10 ^ Z.of_nat fuel ->
  exists ds, dec_digits fuel n acc = ds ++ acc /\ (1 <= length ds)%nat /\
    Forall (fun c => is_digit c = true) ds /\
    forall a k rest, parse_dec a k (ds ++ rest) =
      parse_dec (a * 10 ^ blen ds + n) (k + length ds) rest.
Proof.
  revert n acc; induction fuel as [|fuel IH]; intros n acc Hf Hn; [lia|].
  cbn [dec_digits].
  destruct (digit_char (n mod 10)) as [Hd Hv]; [by apply Z.mod_pos_bound|].
  destruct (Z.eqb_spec (n / 10) 0) as [E|E].
  - exists [z2b (48 + n mod 10)]. split; [done|]. split; [simpl; lia|].
    split; [by repeat constructor|]. intros a k rest. cbn [app parse_dec]. rewrite Hd, Hv.
    f_equal; [|simpl; lia]. simpl. rewrite (Z.mod_small n 10); [lia|].
    pose proof (Z.div_mod n 10). pose proof (Z.mod_pos_bound n 10). lia.
  - assert (1 <= fuel)%nat as Hf'.
    { destruct fuel; [|lia]. exfalso. apply E. simpl in Hn. apply Z.div_small. lia. }
    destruct (IH (n / 10) (z2b (48 + n mod 10) :: acc) Hf') as (ds & -> & Hlen & Hall & Hp).
    { replace (Z.of_nat (S fuel)) with (1 + Z.of_nat fuel) in Hn by lia.
      rewrite Z.pow_add_r in Hn by lia. split; [apply Z.div_pos; lia|].
      apply Z.div_lt_upper_bound; lia. }
    exists (ds ++ [z2b (48 + n mod 10)]). rewrite <- app_assoc. split; [done|].
    rewrite length_app. split; [lia|]. split; [apply Forall_app; by repeat constructor|].
    intros a k rest. rewrite <- app_assoc, Hp. cbn [app parse_dec]. rewrite Hd, Hv.
    f_equal; [|simpl; lia]. simpl.
    replace (Z.of_nat (length ds + 1)) with (blen ds + 1) by lia.
    rewrite Z.pow_add_r by lia. pose proof (Z.div_mod n 10). lia.
Qed.

Lemma parse_dec_nonneg a k s : 0 <= a -> 0 <= (parse_dec a k s).1.
Proof.
  revert a k; induction s as [|c s IH]; intros a k Ha; cbn [parse_dec]; [done|].
  unfold is_digit. destruct (Z.leb_spec 48 (b2z c)); [|done].
  destruct (b2z c <=? 57); [|done]. cbn [andb]. apply IH. lia.
Qed.

Lemma stoull_range s v : stoull s = Some v -> in_u64 v.
Proof.
  unfold stoull. destruct (match drop_while isspace s with [] => _ | _ => _ end) as [neg s2].
  pose proof (parse_dec_nonneg 0 0 s2 (Z.le_refl 0)) as Hp.
  destruct (parse_dec 0 0 s2) as [w n]. destruct (n =? 0)%nat; [done|].
  destruct (Z.ltb_spec w (2 ^ 64)); [|done]. destruct neg; intros [= <-]; [apply u64_range|].
  unfold in_u64. cbn in Hp. lia.
Qed.

Lemma stoll_digits ds v :
  Forall (fun c => is_digit c = true) ds -> (1 <= length ds)%nat ->
  parse_dec 0 0 ds = (v, length ds) -> 0 <= v < 2 ^ 63 ->
  stoll ds = Some (v, length ds) /\
  (- 2 ^ 63 <= - v -> stoll ("-"%byte :: ds) = Some (- v, S (length ds))).
Proof.
  intros Hds Hlen Hp Hv. unfold stoll.
  destruct ds as [|d ds']; [simpl in Hlen; lia|].
  apply Forall_cons in Hds as [Hd _]. unfold is_digit in Hd. bool_to_prop.
  assert (isspace d = false) as Hsp.
  { unfold isspace. destruct (Z.eqb_spec (b2z d) 32), (Z.leb_spec 9 (b2z d)),
      (Z.leb_spec (b2z d) 13); cbn; try done; lia. }
  assert (forall c, b2z c < 48 -> Byte.eqb d c = false) as Hne.
  { intros c Hc. apply byte_eqb_neq. intros ->. lia. }
  split.
  - cbn [drop_while]. rewrite Hsp, !Hne by (vm_compute; reflexivity).
    cbv beta iota zeta. rewrite Hp. cbn [length Nat.eqb]. rewrite (proj2 (Z.leb_le _ _)) by lia.
    rewrite (proj2 (Z.ltb_lt _ _)) by lia. cbn [andb]. do 2 f_equal. lia.
  - intros _. cbn [drop_while]. change (isspace "-") with false.
    cbv beta iota zeta. rewrite byte_eqb_refl, Hp. cbn [length Nat.eqb].
    rewrite (proj2 (Z.leb_le _ _)) by lia.
    rewrite (proj2 (Z.ltb_lt _ _)) by lia. cbn [andb]. do 2 f_equal. lia.
Qed.

(** Printing then parsing a 64-bit integer returns it and consumes the text. *)
Lemma stoll_to_string z :
  - 2 ^ 63 < z < 2 ^ 63 -> stoll (to_string z) = Some (z, length (to_string z)).
Proof.
  intros Hz. unfold to_string.
  destruct (dec_digits_spec 20 (Z.abs z) []) as (ds & E & Hlen & Hall & Hp); [lia|lia|].
  rewrite app_nil_r in E. specialize (Hp 0 0%nat []). rewrite app_nil_r in Hp.
  cbn [parse_dec] in Hp.
  replace (0 * 10 ^ blen ds + Z.abs z) with (Z.abs z) in Hp by lia.
  destruct (stoll_digits ds (Z.abs z) Hall Hlen Hp) as [Hpos Hneg]; [lia|].
  destruct (Z.ltb_spec z 0).
  - replace (- z) with (Z.abs z) by lia. rewrite E, Hneg by lia. cbn [length]. do 2 f_equal. lia.
  - replace z with (Z.abs z) at 1 2 3 by lia. rewrite E. rewrite Hpos. done.
Qed.
