(* ===== verification/Memory.v ===== *)
(** * Byte memory: mappings, [memcpy] and [memmove]

    A mapping is a finite map from addresses to bytes, zero-filled where
    nothing was written.  [load_u32] and the like read the little-endian layout
    of the platforms the shared-memory channel runs on. *)

From S2P Require Import Prelude.

Abbreviation memory := (gmap Z byte).

(** A byte of a mapping; a fresh mapping is zero-filled. *)
Definition peek (m : memory) (a : Z) : byte := default x00 (m !! a).

Definition read_mem (m : memory) (a : Z) (n : nat) : bytes :=
  map (fun i => peek m (a + Z.of_nat i)) (seq 0 n).

Fixpoint write_mem (m : memory) (a : Z) (bs : bytes) : memory :=
  match bs with
  | [] => m
  | b :: bs' => write_mem (<[a := b]> m) (a + 1) bs'
  end.

Definition load_u32 (m : memory) (a : Z) : Z := le_decode (read_mem m a 4).
Definition load_u64 (m : memory) (a : Z) : Z := le_decode (read_mem m a 8).
Definition store_u32 (m : memory) (a v : Z) : memory := write_mem m a (le_encode 4 v).
Definition store_u64 (m : memory) (a v : Z) : memory := write_mem m a (le_encode 8 v).

(** [std::memmove]: the source is read before the destination is written. *)
Definition memmove (m : memory) (dst src n : Z) : memory :=
  write_mem m dst (read_mem m src (Z.to_nat n)).

(** ** What each access sees *)

Lemma read_mem_length m a n : length (read_mem m a n) = n.
Proof. unfold read_mem. by rewrite length_map, length_seq. Qed.

Lemma read_mem_lookup m a n i :
  (i < n)%nat -> read_mem m a n !! i = Some (peek m (a + Z.of_nat i)).
Proof.
  intros Hi. unfold read_mem. rewrite list_lookup_fmap, lookup_seq_lt by done. done.
Qed.

Lemma read_mem_ext m m' a a' n :
  (forall i, 0 <= i < Z.of_nat n -> peek m (a + i) = peek m' (a' + i)) ->
  read_mem m a n = read_mem m' a' n.
Proof.
  intros H. unfold read_mem. apply map_ext_in. intros i Hi%in_seq. apply H. lia.
Qed.

Lemma peek_write_out bs m a x :
  x < a \/ a + blen bs <= x -> peek (write_mem m a bs) x = peek m x.
Proof.
  revert m a; induction bs as [|b bs IH]; intros m a Hx; cbn [write_mem]; [done|].
  cbn [length] in Hx. rewrite IH by lia. unfold peek. by rewrite lookup_insert_ne by lia.
Qed.

Lemma peek_write_in bs m a x :
  a <= x < a + blen bs -> peek (write_mem m a bs) x = bs !!! Z.to_nat (x - a).
Proof.
  revert m a; induction bs as [|b bs IH]; intros m a Hx; cbn [write_mem length] in *; [lia|].
  destruct (decide (x = a)) as [->|].
  - rewrite peek_write_out by lia. unfold peek. rewrite lookup_insert_eq, Z.sub_diag. done.
  - rewrite IH by lia. replace (Z.to_nat (x - a)) with (S (Z.to_nat (x - (a + 1)))) by lia. done.
Qed.

(** What was written is read back. *)
Lemma read_write_same m a bs : read_mem (write_mem m a bs) a (length bs) = bs.
Proof.
  apply list_eq_same_length with (length bs); [done|apply read_mem_length|].
  intros i x y Hi Hx Hy. rewrite read_mem_lookup in Hx by done. injection Hx as <-.
  rewrite peek_write_in by lia. replace (Z.to_nat (a + Z.of_nat i - a)) with i by lia.
  by apply list_lookup_total_correct.
Qed.

Lemma read_write_out m a bs b n :
  b + Z.of_nat n <= a \/ a + blen bs <= b ->
  read_mem (write_mem m a bs) b n = read_mem m b n.
Proof. intros H. apply read_mem_ext. intros i Hi. apply peek_write_out. lia. Qed.

Lemma read_mem_app m a n1 n2 :
  read_mem m a (n1 + n2) = read_mem m a n1 ++ read_mem m (a + Z.of_nat n1) n2.
Proof.
  unfold read_mem. rewrite seq_app, map_app. f_equal.
  change (0 + n1)%nat with n1.
  replace n1 with (n1 + 0)%nat at 1 by lia. rewrite <- fmap_add_seq, map_map.
  apply map_ext. intros i. f_equal. lia.
Qed.

Lemma write_mem_app m a b1 b2 :
  write_mem m a (b1 ++ b2) = write_mem (write_mem m a b1) (a + blen b1) b2.
Proof.
  revert m a; induction b1 as [|b b1 IH]; intros m a; cbn [app write_mem length].
  - by rewrite Z.add_0_r.
  - rewrite IH. f_equal. lia.
Qed.

Lemma peek_memmove_in m dst src n x :
  dst <= x < dst + n -> peek (memmove m dst src n) x = peek m (x - dst + src).
Proof.
  intros Hx. unfold memmove. rewrite peek_write_in by (rewrite read_mem_length; lia).
  apply list_lookup_total_correct. rewrite read_mem_lookup by lia. do 2 f_equal. lia.
Qed.

Lemma peek_memmove_out m dst src n x :
  x < dst \/ dst + n <= x -> peek (memmove m dst src n) x = peek m x.
Proof.
  intros Hx. unfold memmove. apply peek_write_out. rewrite read_mem_length. lia.
Qed.

Lemma load_u64_range m a : in_u64 (load_u64 m a).
Proof.
  unfold load_u64, in_u64. pose proof (le_decode_range (read_mem m a 8)) as H.
  by rewrite read_mem_length in H.
Qed.

Lemma load_u32_range m a : in_u32 (load_u32 m a).
Proof.
  unfold load_u32, in_u32. pose proof (le_decode_range (read_mem m a 4)) as H.
  by rewrite read_mem_length in H.
Qed.

Lemma load_u64_ext m m' a a' :
  (forall i, 0 <= i < 8 -> peek m (a + i) = peek m' (a' + i)) ->
  load_u64 m a = load_u64 m' a'.
Proof. intros H. unfold load_u64. f_equal. by apply read_mem_ext. Qed.

Lemma load_u32_ext m m' a a' :
  (forall i, 0 <= i < 4 -> peek m (a + i) = peek m' (a' + i)) ->
  load_u32 m a = load_u32 m' a'.
Proof. intros H. unfold load_u32. f_equal. by apply read_mem_ext. Qed.

Lemma load_store_u64 m a v : in_u64 v -> load_u64 (store_u64 m a v) a = v.
Proof.
  intros. unfold load_u64, store_u64.
  pose proof (read_write_same m a (le_encode 8 v)) as E. rewrite le_encode_length in E.
  rewrite E. by apply le_decode_encode_u64.
Qed.

Lemma load_store_u32 m a v : in_u32 v -> load_u32 (store_u32 m a v) a = v.
Proof.
  intros. unfold load_u32, store_u32.
  pose proof (read_write_same m a (le_encode 4 v)) as E. rewrite le_encode_length in E.
  rewrite E. by apply le_decode_encode_u32.
Qed.

Lemma peek_store_u64 m a v x : x < a \/ a + 8 <= x -> peek (store_u64 m a v) x = peek m x.
Proof. intros. apply peek_write_out. rewrite le_encode_length. lia. Qed.

Lemma peek_store_u32 m a v x : x < a \/ a + 4 <= x -> peek (store_u32 m a v) x = peek m x.
Proof. intros. apply peek_write_out. rewrite le_encode_length. lia. Qed.

Lemma load_u64_store_u32_out m a v b :
  b + 8 <= a \/ a + 4 <= b -> load_u64 (store_u32 m a v) b = load_u64 m b.
Proof. intros. apply load_u64_ext. intros. apply peek_store_u32. lia. Qed.

Lemma load_u64_store_u64_out m a v b :
  b + 8 <= a \/ a + 8 <= b -> load_u64 (store_u64 m a v) b = load_u64 m b.
Proof. intros. apply load_u64_ext. intros. apply peek_store_u64. lia. Qed.

Lemma load_u32_store_u64_out m a v b :
  b + 4 <= a \/ a + 8 <= b -> load_u32 (store_u64 m a v) b = load_u32 m b.
Proof. intros. apply load_u32_ext. intros. apply peek_store_u64. lia. Qed.

Lemma load_u32_store_u32_out m a v b :
  b + 4 <= a \/ a + 4 <= b -> load_u32 (store_u32 m a v) b = load_u32 m b.
Proof. intros. apply load_u32_ext. intros. apply peek_store_u32. lia. Qed.

Lemma load_u64_memmove_in m dst src n a :
  dst <= a -> a + 8 <= dst + n -> load_u64 (memmove m dst src n) a = load_u64 m (a - dst + src).
Proof.
  intros. apply load_u64_ext. intros. rewrite peek_memmove_in by lia. f_equal. lia.
Qed.

Lemma load_u64_memmove_out m dst src n a :
  a + 8 <= dst \/ dst + n <= a -> load_u64 (memmove m dst src n) a = load_u64 m a.
Proof. intros. apply load_u64_ext. intros. apply peek_memmove_out. lia. Qed.

Lemma load_u32_memmove_out m dst src n a :
  a + 4 <= dst \/ dst + n <= a -> load_u32 (memmove m dst src n) a = load_u32 m a.
Proof. intros. apply load_u32_ext. intros. apply peek_memmove_out. lia. Qed.

(** Accesses at addresses known to be apart. *)
Create Rewrite HintDb memory.
#[export] Hint Rewrite load_store_u64 load_store_u32 load_u64_store_u32_out
  load_u64_store_u64_out load_u32_store_u64_out load_u32_store_u32_out
  load_u64_memmove_out load_u32_memmove_out peek_store_u64 peek_store_u32
  peek_memmove_out peek_write_out
  using lia : memory.
