(* ===== verification/Arrow.v ===== *)
(** * What the program uses of Apache Arrow, and its key-value metadata

    Arrow is not part of the repository.  The classes below are the operations
    the modelled code calls; the [...Laws] classes state the documented
    behaviour the theorems rely on; module [ToyArrow] is an instance of
    everything, which shows the laws can hold.  The file also models
    src/src/metadata.cpp and the key names of src/include/vgi_rpc/metadata.h. *)

From S2P Require Import Prelude.

(** ** Key-value metadata

    [std::shared_ptr<arrow::KeyValueMetadata>] is an [option] of the list of
    pairs in insertion order; [Append] adds at the end. *)

Abbreviation kv_list := (list (bytes * bytes)).
Abbreviation metadata := (option kv_list).

Class KeyValueMetadata := { FindKey : kv_list -> bytes -> Z }.

Class KeyValueMetadataLaws `{KeyValueMetadata} := {
  FindKey_absent md key : FindKey md key < 0 <-> key ∉ md.*1;
  FindKey_present md key :
    0 <= FindKey md key ->
    exists v, md !! Z.to_nat (FindKey md key) = Some (key, v);
}.

Definition Append (md : kv_list) (key value : bytes) : kv_list := md ++ [(key, value)].

Definition get_metadata_value `{KeyValueMetadata} (md : metadata) (key default_value : bytes)
    : bytes :=
  match md with
  | None => default_value
  | Some m =>
      let idx := FindKey m key in
      if idx <? 0 then default_value else (m !!! Z.to_nat idx).2
  end.

Definition METHOD : bytes := str "vgi_rpc.method".
Definition PROTOCOL : bytes := str "vgi_rpc.protocol".
Definition REQUEST_VERSION : bytes := str "vgi_rpc.request_version".
Definition PROTOCOL_VERSION : bytes := str "vgi_rpc.protocol_version".
Definition LOG_LEVEL : bytes := str "vgi_rpc.log_level".
Definition LOG_MESSAGE : bytes := str "vgi_rpc.log_message".
Definition LOG_EXTRA : bytes := str "vgi_rpc.log_extra".
Definition SERVER_ID : bytes := str "vgi_rpc.server_id".
Definition REQUEST_ID : bytes := str "vgi_rpc.request_id".
Definition STREAM_STATE : bytes := str "vgi_rpc.stream_state".
Definition STATE_B64 : bytes := str "vgi_rpc.stream_state#b64".
Definition CALL_STATE_B64 : bytes := str "vgi_rpc.call_state#b64".
Definition LOCATION : bytes := str "vgi_rpc.location".
Definition CANCEL : bytes := str "vgi_rpc.cancel".
Definition ERROR_KIND : bytes := str "vgi_rpc.error_kind".
Definition ERROR_CODE : bytes := str "vgi_rpc.error_code".
Definition ERROR_DETAILS : bytes := str "vgi_rpc.error_details".
Definition SHM_SEGMENT_NAME : bytes := str "vgi_rpc.shm_segment_name".
Definition SHM_SEGMENT_SIZE : bytes := str "vgi_rpc.shm_segment_size".
Definition SHM_OFFSET : bytes := str "vgi_rpc.shm_offset".
Definition SHM_LENGTH : bytes := str "vgi_rpc.shm_length".
Definition SHM_SOURCE : bytes := str "vgi_rpc.shm_source".

(** The value of a key that occurs once. *)
Lemma get_metadata_value_unique `{KeyValueMetadataLaws} m1 m2 key v dflt :
  key ∉ m1.*1 -> key ∉ m2.*1 -> get_metadata_value (Some (m1 ++ (key, v) :: m2)) key dflt = v.
Proof.
  intros H1 H2. cbn [get_metadata_value].
  destruct (Z.ltb_spec (FindKey (m1 ++ (key, v) :: m2) key) 0) as [E|E].
  - apply FindKey_absent in E. exfalso. apply E. rewrite fmap_app, fmap_cons. set_solver.
  - destruct (FindKey_present _ _ E) as [v' Hv']. rewrite (list_lookup_total_correct _ _ _ Hv').
    cbn [snd]. apply list_elem_of_lookup_2 in Hv'.
    apply elem_of_app in Hv' as [Hin|[Hin|Hin]%elem_of_cons].
    + exfalso. apply H1. apply list_elem_of_fmap. by exists (key, v').
    + congruence.
    + exfalso. apply H2. apply list_elem_of_fmap. by exists (key, v').
Qed.

(** [int idx = md->FindKey(key); idx < 0 ? nullopt : md->value(idx)]. *)
Definition find_value `{KeyValueMetadata} (md : kv_list) (key : bytes) : option bytes :=
  let idx := FindKey md key in
  if idx <? 0 then None else Some (md !!! Z.to_nat idx).2.

Fixpoint assoc (md : kv_list) (key : bytes) : option bytes :=
  match md with
  | [] => None
  | (k, v) :: md' => if decide (k = key) then Some v else assoc md' key
  end.

Lemma assoc_none md key : assoc md key = None <-> key ∉ md.*1.
Proof.
  induction md as [|[k v] md IH]; cbn [assoc].
  - split; [|done]. intros _ H. by apply not_elem_of_nil in H.
  - rewrite fmap_cons, not_elem_of_cons. cbn [fst]. destruct (decide (k = key)) as [->|].
    + split; [done|]. by intros [? _].
    + rewrite IH. split; [intros ?; split; congruence|by intros [_ ?]].
Qed.

Lemma assoc_some md key v : NoDup md.*1 -> (key, v) ∈ md -> assoc md key = Some v.
Proof.
  induction md as [|[k v'] md IH]; cbn [assoc]; intros Hnd Hin; [by apply not_elem_of_nil in Hin|].
  rewrite fmap_cons, NoDup_cons in Hnd. destruct Hnd as [Hk Hnd]. cbn [fst] in *.
  apply elem_of_cons in Hin as [[= <- <-]|Hin]; [by rewrite decide_True|].
  destruct (decide (k = key)) as [->|]; [|by apply IH].
  exfalso. apply Hk. apply list_elem_of_fmap. by exists (key, v).
Qed.

(** Metadata without repeated keys is a finite map, whatever [FindKey] does. *)
Lemma find_value_assoc `{KeyValueMetadataLaws} md key :
  NoDup md.*1 -> find_value md key = assoc md key.
Proof.
  intros Hnd. unfold find_value. destruct (Z.ltb_spec (FindKey md key) 0) as [Hn|Hn].
  - symmetry. by apply assoc_none, FindKey_absent.
  - destruct (FindKey_present md key Hn) as [v Hv].
    rewrite (list_lookup_total_correct _ _ _ Hv). cbn [snd]. symmetry.
    apply assoc_some; [done|]. by apply list_elem_of_lookup_2 in Hv.
Qed.

Lemma get_metadata_value_find `{KeyValueMetadata} md key dflt :
  get_metadata_value (Some md) key dflt = default dflt (find_value md key).
Proof. unfold find_value. cbn. by destruct (_ <? 0). Qed.

(** ** Schemas, batches and the IPC stream format *)

Class Arrow := {
  DataType : Type;
  Schema : Type;
  Array : Type;
  RecordBatch : Type;
  Message : Type;
  is_dictionary : DataType -> bool;
  field_types : Schema -> list DataType;
  schema : RecordBatch -> Schema;
  num_rows : RecordBatch -> Z;
  column_buffers : RecordBatch -> list (list (option Z));
  MakeArrayOfNull : DataType -> Z -> res Array;
  RecordBatch_Make : Schema -> Z -> list Array -> RecordBatch;
  (** [MakeStreamWriter], [WriteRecordBatch] and [Close] over a sink: the writes
      attempted while the sink accepts them, and whether the writer itself
      reports success. *)
  stream_writes : RecordBatch -> list bytes * bool;
  (** The same over a growing buffer, as [unwrap] sees it. *)
  stream_to_buffer : RecordBatch -> res bytes;
  (** A stream that is opened and closed with no batch. *)
  empty_stream : Schema -> res bytes;
  GetRecordBatchSize : RecordBatch -> option Z;
  (** [MessageReader::ReadNextMessage]: the message and the rest of the input,
      or the end of the stream. *)
  ReadNextMessage : bytes -> res (option (Message * bytes));
  SerializeTo : Message -> res bytes;
  (** [RecordBatchStreamReader::Open] and one [Next]. *)
  read_stream : bytes -> res (option RecordBatch);
}.

(** The end-of-stream marker. *)
Definition kIpcEos : bytes := [xff; xff; xff; xff; x00; x00; x00; x00].

Class ArrowLaws `{Arrow} := {
  num_rows_nonneg b : 0 <= num_rows b;
  Make_num_rows s n a : 0 <= n -> num_rows (RecordBatch_Make s n a) = n;
  Make_schema s n a : schema (RecordBatch_Make s n a) = s;
  (** A writer sends the same bytes to every sink. *)
  stream_writes_buffer b chunks :
    stream_writes b = (chunks, true) -> stream_to_buffer b = Ok (concat chunks);
  (** A stream is the schema message, the other messages and the marker. *)
  stream_format b s :
    stream_to_buffer b = Ok s ->
    exists sm hdr ms parts,
      SerializeTo sm = Ok hdr /\ Forall2 (fun m p => SerializeTo m = Ok p) ms parts /\
      s = hdr ++ concat parts ++ kIpcEos /\ empty_stream (schema b) = Ok (hdr ++ kIpcEos);
  read_message m p rest :
    SerializeTo m = Ok p -> p <> [] /\ ReadNextMessage (p ++ rest) = Ok (Some (m, rest));
  read_eos : ReadNextMessage kIpcEos = Ok None;
  (** Reading a written stream yields the batch. *)
  read_stream_written b s : stream_to_buffer b = Ok s -> read_stream s = Ok (Some b);
}.

Section arrow.
Context `{Arrow}.

(** [for (i ...) arrays.push_back(unwrap(MakeArrayOfNull(type, 0)))]. *)
Fixpoint null_arrays (ts : list DataType) : res (list Array) :=
  match ts with
  | [] => Ok []
  | t :: ts' => a ← MakeArrayOfNull t 0; arrays ← null_arrays ts'; Ok (a :: arrays)
  end.

Definition make_empty_batch (s : Schema) : res RecordBatch :=
  arrays ← null_arrays (field_types s); Ok (RecordBatch_Make s 0 arrays).

Lemma make_empty_batch_ok `{!ArrowLaws} s b :
  make_empty_batch s = Ok b -> num_rows b = 0 /\ schema b = s.
Proof.
  unfold make_empty_batch. intros E. inv_res. subst.
  split; [by apply Make_num_rows|apply Make_schema].
Qed.
End arrow.

(** ** Fields and columns

    [GetColumnByName] finds nothing when no field or more than one field has
    the name. *)

Record Field `{Arrow} := { field_name : bytes; field_type : DataType; field_nullable : bool }.

Class ArrowFields `{Arrow} := {
  fields : Schema -> list Field;
  type_equal : DataType -> DataType -> bool;
  Field_ToString : Field -> bytes;
  Schema_ToString : Schema -> bytes;
  DataType_ToString : DataType -> bytes;
  GetColumnByName : RecordBatch -> bytes -> option Array;
  array_type : Array -> DataType;
  Cast : Array -> DataType -> option Array;
}.

Class ArrowFieldsLaws `{ArrowFields} := {
  column_has_field b name c :
    GetColumnByName b name = Some c -> exists f, f ∈ fields (schema b) /\ field_name f = name;
}.

(** ** An instance *)

Module ToyArrow.

Fixpoint find_key (md : kv_list) (key : bytes) (i : Z) : Z :=
  match md with
  | [] => -1
  | (k, _) :: md' => if decide (k = key) then i else find_key md' key (i + 1)
  end.

#[export] Instance toy_metadata : KeyValueMetadata := {| FindKey md key := find_key md key 0 |}.

Lemma find_key_spec md key i :
  0 <= i ->
  (find_key md key i < 0 <-> key ∉ md.*1) /\
  (0 <= find_key md key i -> i <= find_key md key i /\
   exists v, md !! Z.to_nat (find_key md key i - i) = Some (key, v)).
Proof.
  revert i; induction md as [|[k v] md IH]; intros i Hi; cbn [find_key].
  - split; [split; [set_solver|lia]|lia].
  - rewrite fmap_cons. cbn [fst]. destruct (decide (k = key)) as [->|Hne].
    + split; [split; [lia|by rewrite not_elem_of_cons; intros []]|]. intros. split; [lia|].
      rewrite Z.sub_diag. by exists v.
    + destruct (IH (i + 1) ltac:(lia)) as [IH1 IH2]. split; [rewrite IH1, not_elem_of_cons; naive_solver|].
      intros H0. destruct (IH2 H0) as (Hle & v' & Hv'). split; [lia|]. exists v'.
      by replace (Z.to_nat (find_key md key (i + 1) - i))
        with (S (Z.to_nat (find_key md key (i + 1) - (i + 1)))) by lia.
Qed.

#[export] Instance toy_metadata_laws : KeyValueMetadataLaws.
Proof.
  split; intros md key.
  - apply (find_key_spec md key 0); lia.
  - intros Hf. destruct (proj2 (find_key_spec md key 0 ltac:(lia)) Hf) as (_ & v & Hv).
    exists v. by rewrite Z.sub_0_r in Hv.
Qed.

(** One byte column, dictionary-encoded or not; every message carries one byte. *)
Record toy_batch := { toy_dictionary : bool; toy_data : bytes }.

Definition toy_bool (b : bool) : byte := if b then x01 else x00.
Definition toy_message (b : byte) : bytes := [x01; b].

Definition toy_stream (b : toy_batch) : bytes :=
  toy_message (toy_bool (toy_dictionary b)) ++ concat (map toy_message (toy_data b)) ++ kIpcEos.

Definition toy_next (s : bytes) : res (option (byte * bytes)) :=
  match s with
  | x01 :: b :: rest => Ok (Some (b, rest))
  | xff :: _ => Ok None
  | _ => Throw (RuntimeError (str "toy"))
  end.

Fixpoint toy_read (s : bytes) : bytes :=
  match s with
  | x01 :: b :: rest => b :: toy_read rest
  | _ => []
  end.

#[export] Instance toy_arrow : Arrow := {|
  DataType := bool; Schema := bool; Array := unit; RecordBatch := toy_batch; Message := byte;
  is_dictionary t := t;
  field_types s := [s];
  schema := toy_dictionary;
  num_rows b := blen (toy_data b);
  column_buffers b := [[None; Some (blen (toy_data b))]];
  MakeArrayOfNull _ _ := Ok tt;
  RecordBatch_Make s n _ := {| toy_dictionary := s; toy_data := replicate (Z.to_nat n) x00 |};
  stream_writes b := ([toy_stream b], true);
  stream_to_buffer b := Ok (toy_stream b);
  empty_stream s := Ok (toy_message (toy_bool s) ++ kIpcEos);
  GetRecordBatchSize b := Some (2 * blen (toy_data b));
  ReadNextMessage := toy_next;
  SerializeTo m := Ok (toy_message m);
  read_stream s :=
    match s with
    | x01 :: b :: rest =>
        Ok (Some {| toy_dictionary := Byte.eqb b x01; toy_data := toy_read rest |})
    | _ => Throw (RuntimeError (str "toy"))
    end;
|}.

Lemma toy_read_stream l : toy_read (concat (map toy_message l) ++ kIpcEos) = l.
Proof. induction l as [|b l IH]; [done|]. cbn. by rewrite IH. Qed.

#[export] Instance toy_arrow_laws : ArrowLaws.
Proof.
  split.
  - intros b. cbn. lia.
  - intros s n a Hn. cbn. rewrite length_replicate. lia.
  - done.
  - intros b chunks [= <-]. cbn. by rewrite app_nil_r.
  - intros b s [= <-]. exists (toy_bool (toy_dictionary b)), (toy_message (toy_bool (toy_dictionary b))),
      (toy_data b), (map toy_message (toy_data b)). split_and!; [done| |done|done].
    induction (toy_data b); constructor; done.
  - intros m p rest [= <-]. done.
  - done.
  - intros [d l] s [= <-]. cbn. rewrite toy_read_stream. by destruct d.
Qed.

#[export] Instance toy_fields : ArrowFields := {|
  fields s := [{| field_name := str "data"; field_type := s; field_nullable := false |}];
  type_equal := Bool.eqb;
  Field_ToString _ := str "data";
  Schema_ToString _ := str "data";
  DataType_ToString t := if t then str "dictionary" else str "uint8";
  GetColumnByName b name := if decide (name = str "data") then Some tt else None;
  array_type _ := false;
  Cast _ _ := Some tt;
|}.

#[export] Instance toy_fields_laws : ArrowFieldsLaws.
Proof.
  split. intros b name c E. cbn in E. case_decide as Hn; [|done]. subst name.
  eexists. split; [apply list_elem_of_here|done].
Qed.
End ToyArrow.
