(* ===== verification/Json.v ===== *)
(** * JSON values

    [nlohmann::json] as the modelled code uses it: the value type, member
    lookup, object construction, and the text functions [dump] and [parse],
    which are the library's and so a class with documented laws.

    An object is a [std::map]: its members are in key order and keys are
    unique.  [jobject] builds such objects; [canonical] says a value has them
    throughout. *)

From Stdlib Require Import Floats.SpecFloat.
From stdpp Require Import sorting.
From S2P Require Import Prelude.

(** ** Numbers

    [double] is the Standard Library's executable IEEE binary64; [dbl_of_Z] is
    [static_cast<double>] of an integer. *)
Definition binary64 := spec_float.
Definition dbl_of_Z (z : Z) : binary64 := binary_normalize 53 1024 z 0 false.

(** [std::isfinite]. *)
Definition isfinite (f : spec_float) : bool :=
  match f with S754_infinity _ | S754_nan => false | _ => true end.

(** A parsed JSON document, objects in document order with their duplicates. *)
#[warnings="-register-all"]
Inductive json :=
  | JNull
  | JBool (b : bool)
  | JInteger (z : Z)
  | JFloat (f : spec_float)
  | JString (s : bytes)
  | JArray (items : list json)
  | JObject (members : list (bytes * json)).

Section JsonInd.
Context (P : json -> Prop)
  (Hnull : P JNull) (Hbool : forall b, P (JBool b)) (Hint : forall z, P (JInteger z))
  (Hfloat : forall f, P (JFloat f)) (Hstring : forall s, P (JString s))
  (Harray : forall items, Forall P items -> P (JArray items))
  (Hobject : forall members, Forall (fun m => P m.2) members -> P (JObject members)).

(** Induction on documents, with the hypothesis for every element. *)
Fixpoint json_nested_ind (v : json) : P v :=
  match v with
  | JNull => Hnull
  | JBool b => Hbool b
  | JInteger z => Hint z
  | JFloat f => Hfloat f
  | JString s => Hstring s
  | JArray items =>
      Harray items
        ((fix go l : Forall P l :=
            match l with [] => Forall_nil_2 _ | x :: l' => Forall_cons_2 _ _ _ (json_nested_ind x) (go l') end)
           items)
  | JObject members =>
      Hobject members
        ((fix go l : Forall (fun m => P m.2) l :=
            match l with
            | [] => Forall_nil_2 _
            | m :: l' => Forall_cons_2 _ _ _ (json_nested_ind m.2) (go l')
            end)
           members)
  end.
End JsonInd.


(** ** Byte order of keys *)

Fixpoint bytes_ltb (a b : bytes) : bool :=
  match a, b with
  | _, [] => false
  | [], _ :: _ => true
  | x :: a', y :: b' => (b2z x <? b2z y) || ((b2z x =? b2z y) && bytes_ltb a' b')
  end.

Definition bytes_lt (a b : bytes) : Prop := bytes_ltb a b = true.

#[export] Instance bytes_lt_strict : StrictOrder bytes_lt.
Proof.
  split.
  - intros s. unfold complement, bytes_lt. induction s as [|x s IH]; cbn [bytes_ltb]; [done|].
    by rewrite Z.ltb_irrefl, Z.eqb_refl.
  - unfold bytes_lt. intros a b; revert a. induction b as [|y b IH]; intros [|x a] [|z c];
      cbn [bytes_ltb]; try done.
    rewrite !orb_true_iff, !andb_true_iff, !Z.ltb_lt, !Z.eqb_eq.
    intros [|[? ?]] [|[? ?]]; (left; lia) || (right; split; [lia|by eapply IH]).
Qed.

Lemma bytes_lt_total a b : bytes_lt a b \/ a = b \/ bytes_lt b a.
Proof.
  unfold bytes_lt. revert b; induction a as [|x a IH]; intros [|y b]; cbn [bytes_ltb]; auto.
  destruct (Z.lt_trichotomy (b2z x) (b2z y)) as [Hlt|[Heq|Hgt]].
  - left. by rewrite (proj2 (Z.ltb_lt _ _) Hlt).
  - rewrite Heq, Z.ltb_irrefl, Z.eqb_refl. apply b2z_inj in Heq as ->. cbn.
    destruct (IH b) as [?|[->|?]]; auto.
  - right; right. by rewrite (proj2 (Z.ltb_lt _ _) Hgt).
Qed.

(** ** Members *)

Abbreviation members := (list (bytes * json)).

(** [obj.find(key)] on the members of an object. *)
Fixpoint find_member (ms : members) (key : bytes) : option json :=
  match ms with
  | [] => None
  | (k, v) :: ms' => if decide (k = key) then Some v else find_member ms' key
  end.

(** [j.find(key)]; on a value that is not an object it finds nothing. *)
Definition jfind (v : json) (key : bytes) : option json :=
  match v with JObject ms => find_member ms key | _ => None end.

Definition is_string (v : json) : bool := match v with JString _ => true | _ => false end.
Definition is_object (v : json) : bool := match v with JObject _ => true | _ => false end.
Definition is_array (v : json) : bool := match v with JArray _ => true | _ => false end.

(** Insertion in a [std::map]: an existing key keeps its value, as an
    initializer list of pairs does. *)
Fixpoint place_member (k : bytes) (v : json) (ms : members) : members :=
  match ms with
  | [] => [(k, v)]
  | (k', v') :: ms' =>
      if bytes_ltb k k' then (k, v) :: ms else (k', v') :: place_member k v ms'
  end.

Definition insert_member (k : bytes) (v : json) (ms : members) : members :=
  match find_member ms k with Some _ => ms | None => place_member k v ms end.

Definition sort_members (ms : members) : members :=
  foldl (fun acc m => insert_member m.1 m.2 acc) [] ms.

Definition jobject (ms : members) : json := JObject (sort_members ms).

Lemma find_member_none ms k : find_member ms k = None <-> k ∉ ms.*1.
Proof.
  induction ms as [|[k' v'] ms IH]; cbn [find_member].
  - split; [|done]. intros _ Hin. by apply not_elem_of_nil in Hin.
  - rewrite fmap_cons, not_elem_of_cons. cbn [fst]. destruct (decide (k' = k)) as [->|].
    + split; [done|]. by intros [? _].
    + rewrite IH. split; [intros ?; split; congruence|by intros [_ ?]].
Qed.

Lemma place_member_find k v ms key :
  find_member ms k = None ->
  find_member (place_member k v ms) key =
    if decide (k = key) then Some v else find_member ms key.
Proof.
  induction ms as [|[k' v'] ms IH]; cbn [place_member find_member]; [done|].
  destruct (decide (k' = k)) as [|Hne]; [done|]. intros Hk.
  destruct (bytes_ltb k k'); cbn [find_member]; [done|].
  rewrite IH by done. destruct (decide (k' = key)), (decide (k = key)); congruence.
Qed.

Lemma insert_member_find k v ms key :
  find_member (insert_member k v ms) key =
    match find_member ms key with
    | Some x => Some x
    | None => if decide (k = key) then Some v else None
    end.
Proof.
  unfold insert_member. destruct (find_member ms k) as [x|] eqn:E.
  - destruct (find_member ms key) eqn:E'; [done|]. destruct (decide (k = key)); congruence.
  - rewrite place_member_find by done. destruct (decide (k = key)) as [->|].
    + by rewrite E.
    + by destruct (find_member ms key).
Qed.

Lemma foldl_insert_find ms acc key :
  find_member (foldl (fun acc m => insert_member m.1 m.2 acc) acc ms) key =
    match find_member acc key with Some x => Some x | None => find_member ms key end.
Proof.
  revert acc; induction ms as [|[k v] ms IH]; intros acc; cbn [foldl find_member].
  - by destruct (find_member acc key).
  - rewrite IH, insert_member_find. cbn [fst snd]. destruct (find_member acc key); [done|].
    by destruct (decide (k = key)).
Qed.

(** Looking up in a constructed object finds the first pair with the key. *)
Lemma jobject_find ms key : jfind (jobject ms) key = find_member ms key.
Proof. unfold jobject, sort_members. cbn [jfind]. by rewrite foldl_insert_find. Qed.

Lemma place_member_perm k v ms : place_member k v ms ≡ₚ (k, v) :: ms.
Proof.
  induction ms as [|[k' v'] ms IH]; cbn [place_member]; [done|].
  destruct (bytes_ltb k k'); [done|]. rewrite IH. apply Permutation_swap.
Qed.

(** Pairs with distinct keys are all kept. *)
Lemma sort_members_perm ms : NoDup ms.*1 -> sort_members ms ≡ₚ ms.
Proof.
  intros Hnd. unfold sort_members.
  assert (forall ms acc, NoDup (acc ++ ms).*1 ->
    foldl (fun acc m => insert_member m.1 m.2 acc) acc ms ≡ₚ acc ++ ms) as Hgen.
  { clear. induction ms as [|[k v] ms IH]; intros acc Hnd; cbn [foldl].
    - by rewrite app_nil_r.
    - rewrite fmap_app, fmap_cons, NoDup_app, NoDup_cons in Hnd. cbn [fst] in Hnd.
      destruct Hnd as (Hacc & Hdisj & Hk & Hms).
      assert (k ∉ acc.*1) as Hka by (intros Hin; apply (Hdisj k Hin); by left).
      unfold insert_member. cbn [fst snd]. rewrite (proj2 (find_member_none acc k) Hka).
      rewrite IH.
      + rewrite place_member_perm. cbn [app]. apply Permutation_middle.
      + assert ((place_member k v acc).*1 ≡ₚ k :: acc.*1) as Hp by by rewrite place_member_perm.
        rewrite fmap_app, NoDup_app. split; [rewrite Hp; by apply NoDup_cons|]. split; [|done].
        intros x Hx. rewrite Hp in Hx. apply elem_of_cons in Hx as [->|Hx]; [done|]. intros Hin. apply (Hdisj x Hx). by right. }
  by rewrite Hgen.
Qed.

(** Members in the order of their keys, without repetition. *)
Definition members_sorted (ms : members) : Prop := StronglySorted bytes_lt ms.*1.

Lemma bytes_ltb_flip a b : bytes_ltb a b = false -> a <> b -> bytes_lt b a.
Proof. intros H Hne. destruct (bytes_lt_total a b) as [Hlt|[->|?]]; [|done|done]. congruence. Qed.

Lemma place_member_sorted k v ms :
  members_sorted ms -> find_member ms k = None -> members_sorted (place_member k v ms).
Proof.
  unfold members_sorted. induction ms as [|[k' v'] ms IH]; intros Hs Hf.
  { constructor; constructor. }
  cbn [place_member find_member] in *. destruct (decide (k' = k)) as [|Hne]; [done|].
  rewrite fmap_cons in Hs. inversion Hs as [|? ? Hms Hall]; subst. cbn [fst] in *.
  destruct (bytes_ltb k k') eqn:E; rewrite !fmap_cons; cbn [fst].
  - constructor; [done|]. constructor; [done|]. eapply Forall_impl; [exact Hall|]. intros x Hx.
    by transitivity k'.
  - constructor; [by apply IH|]. rewrite place_member_perm, fmap_cons. constructor; [|done].
    cbn [fst]. apply bytes_ltb_flip; [exact E|by intros ->].
Qed.

Lemma sort_members_sorted ms : members_sorted (sort_members ms).
Proof.
  unfold sort_members. assert (members_sorted []) as Hs by constructor. revert Hs. generalize (@nil (bytes * json)).
  induction ms as [|[k v] ms IH]; intros acc Hs; cbn [foldl]; [done|]. apply IH.
  unfold insert_member. cbn [fst snd]. destruct (find_member acc k) eqn:E; [done|]. by apply place_member_sorted.
Qed.

Lemma place_member_last k v ms :
  Forall (fun k' => bytes_lt k' k) ms.*1 -> place_member k v ms = ms ++ [(k, v)].
Proof.
  induction ms as [|[k' v'] ms IH]; intros Hall; [done|]. rewrite fmap_cons in Hall.
  inversion Hall as [|? ? Hlt Hms]; subst. cbn [fst place_member app] in *.
  destruct (bytes_ltb k k') eqn:E; [|by rewrite IH].
  exfalso. apply (irreflexivity bytes_lt k). by transitivity k'.
Qed.

Lemma sort_members_id ms : members_sorted ms -> sort_members ms = ms.
Proof.
  unfold sort_members, members_sorted.
  assert (forall ms acc, StronglySorted bytes_lt (acc ++ ms).*1 ->
    foldl (fun acc m => insert_member m.1 m.2 acc) acc ms = acc ++ ms) as H; [|apply (H ms [])].
  clear. induction ms as [|[k v] ms IH]; intros acc Hs; cbn [foldl fst snd]; [by rewrite app_nil_r|].
  assert (Forall (fun k' => bytes_lt k' k) acc.*1) as Hlt.
  { rewrite fmap_app, fmap_cons in Hs. apply Forall_forall. intros x Hx. cbn [fst] in Hs.
    apply (StronglySorted_app_1_elem_of _ _ _ x k Hs Hx). by left. }
  unfold insert_member. rewrite (proj2 (find_member_none acc k)).
  - rewrite place_member_last by done. rewrite IH; by rewrite <- app_assoc.
  - intros Hin. rewrite Forall_forall in Hlt. exact (irreflexivity bytes_lt k (Hlt k Hin)).
Qed.

(** ** Text *)

(** [dump] throws on text that is not UTF-8; with the [replace] handler it does
    not.  [parse_text] is [None] when [parse] throws. *)
Class JsonText := {
  json_dump : json -> option bytes;
  json_dump_replace : json -> bytes;
  parse_text : bytes -> option json;
}.

(** Numbers are finite and objects are maps. *)
Fixpoint canonical_json (v : json) : Prop :=
  match v with
  | JFloat f => isfinite f = true
  | JArray items => fold_right (fun v P => canonical_json v /\ P) True items
  | JObject ms => sort_members ms = ms /\ fold_right (fun m P => canonical_json m.2 /\ P) True ms
  | _ => True
  end.

(** An object built from distinct canonical members is canonical. *)
Lemma jobject_canonical ms :
  NoDup ms.*1 -> Forall (fun m => canonical_json m.2) ms -> canonical_json (jobject ms).
Proof.
  intros Hnd Hall. unfold jobject. cbn [canonical_json].
  split; [apply sort_members_id, sort_members_sorted|].
  assert (Forall (fun m => canonical_json m.2) (sort_members ms)) as Hs by (by rewrite sort_members_perm).
  clear -Hs. induction Hs as [|m l Hm _ IH]; cbn; [done|by split].
Qed.

Class JsonTextLaws `{JsonText} := {
  parse_dump v t : canonical_json v -> json_dump v = Some t -> parse_text t = Some v;
  parse_empty : parse_text [] = None;
}.

(** Every string and key of a document. *)
Fixpoint json_strings (P : bytes -> Prop) (v : json) : Prop :=
  match v with
  | JString s => P s
  | JArray items => fold_right (fun v Q => json_strings P v /\ Q) True items
  | JObject ms => fold_right (fun m Q => (P m.1 /\ json_strings P m.2) /\ Q) True ms
  | _ => True
  end.

(** When the text functions give a text.  [text_ok] is the library's notion of
    valid UTF-8: [dump] throws on any other string or key, and with the
    [replace] handler every string becomes a valid one, and every document a
    text that parses. *)
Class JsonTextTotal `{JsonText} := {
  text_ok : bytes -> Prop;
  text_ok_ascii s : Forall (fun c => b2z c < 128) s -> text_ok s;
  replace_text s :
    exists t, parse_text (json_dump_replace (JString s)) = Some (JString t) /\ text_ok t;
  replace_parses v : is_Some (parse_text (json_dump_replace v));
  dump_text v : is_Some (json_dump v) <-> json_strings text_ok v;
}.

(** ** An instance

    A document is written as the number of a tree, in binary; every string is
    text. *)

Module ToyJson.

Definition leaf : Type := (bool + Z) + ((nat * bool * positive * Z) + bytes).

Definition float_leaf (f : spec_float) : nat * bool * positive * Z :=
  match f with
  | S754_zero s => (0%nat, s, 1%positive, 0)
  | S754_infinity s => (1%nat, s, 1%positive, 0)
  | S754_nan => (2%nat, false, 1%positive, 0)
  | S754_finite s m e => (3%nat, s, m, e)
  end.

Definition leaf_float (l : nat * bool * positive * Z) : spec_float :=
  match l with
  | (0%nat, s, _, _) => S754_zero s
  | (1%nat, s, _, _) => S754_infinity s
  | (2%nat, _, _, _) => S754_nan
  | (_, s, m, e) => S754_finite s m e
  end.

Fixpoint to_tree (v : json) : gen_tree leaf :=
  match v with
  | JNull => GenNode 0 []
  | JBool b => GenLeaf (inl (inl b))
  | JInteger z => GenLeaf (inl (inr z))
  | JFloat f => GenLeaf (inr (inl (float_leaf f)))
  | JString s => GenLeaf (inr (inr s))
  | JArray items => GenNode 1 (map to_tree items)
  | JObject ms => GenNode 2 (map (fun m => GenNode 3 [GenLeaf (inr (inr m.1)); to_tree m.2]) ms)
  end.

Fixpoint of_tree (t : gen_tree leaf) : json :=
  match t with
  | GenLeaf (inl (inl b)) => JBool b
  | GenLeaf (inl (inr z)) => JInteger z
  | GenLeaf (inr (inl f)) => JFloat (leaf_float f)
  | GenLeaf (inr (inr s)) => JString s
  | GenNode 1 ts => JArray (map of_tree ts)
  | GenNode 2 ts =>
      JObject (map (fun t => match t with
                             | GenNode _ [GenLeaf (inr (inr k)); x] => (k, of_tree x)
                             | _ => ([], JNull)
                             end) ts)
  | GenNode _ _ => JNull
  end.

Lemma of_to_tree v : of_tree (to_tree v) = v.
Proof.
  induction v as [|b|z|f|s|items IH|ms IH] using json_nested_ind; cbn [to_tree of_tree]; try done.
  - by destruct f.
  - f_equal. induction IH as [|x l Hx _ IHl]; cbn [map]; [done|]. by rewrite Hx, IHl.
  - f_equal. induction IH as [|[k x] l Hx _ IHl]; cbn [map fst snd]; [done|]. cbn in Hx.
    by rewrite Hx, IHl.
Qed.

Fixpoint pos_text (p : positive) : bytes :=
  match p with xH => [] | xO p' => "0"%byte :: pos_text p' | xI p' => "1"%byte :: pos_text p' end.

Fixpoint text_pos (t : bytes) : positive :=
  match t with
  | [] => xH
  | c :: t' => if Byte.eqb c "1" then xI (text_pos t') else xO (text_pos t')
  end.

Lemma text_pos_text p : text_pos (pos_text p) = p.
Proof. induction p as [p IH|p IH|]; cbn; by rewrite ?IH. Qed.

Definition toy_text (v : json) : bytes := "J"%byte :: pos_text (encode (to_tree v)).

#[export] Instance toy_json : JsonText := {|
  json_dump v := Some (toy_text v);
  json_dump_replace v := toy_text v;
  parse_text t := match t with [] => None | _ :: t' => option_map of_tree (decode (text_pos t')) end;
|}.

Lemma toy_parse v : parse_text (toy_text v) = Some v.
Proof. cbn. rewrite text_pos_text, decode_encode. cbn. by rewrite of_to_tree. Qed.

#[export] Instance toy_json_laws : JsonTextLaws.
Proof. split; [|done]. intros v t _ [= <-]. apply toy_parse. Qed.

#[export] Program Instance toy_json_total : JsonTextTotal := {| text_ok _ := True |}.
Next Obligation. done. Qed.
Next Obligation. intros s. exists s. split; [apply toy_parse|done]. Qed.
Next Obligation. intros v. exists v. apply toy_parse. Qed.
Next Obligation.
  intros v. split; [intros _|intros _; by eexists].
  induction v as [|b|z|f|s|items IH|ms IH] using json_nested_ind; try done.
  - induction IH; cbn; [done|by split].
  - induction IH as [|[k x] l Hx _ IHl]; cbn; [done|]. by split.
Qed.
End ToyJson.
