(* ===== verification/Crypto.v ===== *)
(** * Encodings and the AEAD envelope (src/src/crypto.cpp)

    The text encodings of the wire (unpadded base64url, hex), the constant-time
    comparison and the [nonce || ciphertext || tag] envelope around libsodium's
    XChaCha20-Poly1305.  The primitives themselves (the AEAD, SHA-256, HMAC) are
    libsodium's: they are the operations of the classes below, with the laws
    their documentation states. *)

From S2P Require Import Prelude.

(** ** base64url *)

Definition kB64Url : bytes :=
  str "ABCDEFGHIJKLMNOPQRSTUVWXYZabcdefghijklmnopqrstuvwxyz0123456789-_".

(** [kB64Url[i]]. *)
Definition b64_char (alphabet : bytes) (i : Z) : byte := alphabet !!! Z.to_nat i.

(** [c >= lo && c <= hi].  The bounds the code uses are ASCII, so the sign of
    [char] does not matter: a byte above 0x7f is outside every range. *)
Definition in_range (c lo hi : byte) : bool :=
  (b2z lo <=? b2z c) && (b2z c <=? b2z hi).

Definition b64url_value (c : byte) : Z :=
  if in_range c "A" "Z" then b2z c - b2z "A"
  else if in_range c "a" "z" then b2z c - b2z "a" + 26
  else if in_range c "0" "9" then b2z c - b2z "0" + 52
  else if Byte.eqb c "-" then 62
  else if Byte.eqb c "_" then 63
  else -1.

(** The loop over whole triples and the two tails. *)
Fixpoint base64url_encode (data : bytes) : bytes :=
  match data with
  | d0 :: d1 :: d2 :: rest =>
      let n := Z.lor (Z.lor (Z.shiftl (b2z d0) 16) (Z.shiftl (b2z d1) 8)) (b2z d2) in
      b64_char kB64Url (Z.land (Z.shiftr n 18) 63)
      :: b64_char kB64Url (Z.land (Z.shiftr n 12) 63)
      :: b64_char kB64Url (Z.land (Z.shiftr n 6) 63)
      :: b64_char kB64Url (Z.land n 63)
      :: base64url_encode rest
  | [d0] =>
      let n := Z.shiftl (b2z d0) 16 in
      [b64_char kB64Url (Z.land (Z.shiftr n 18) 63);
       b64_char kB64Url (Z.land (Z.shiftr n 12) 63)]
  | [d0; d1] =>
      let n := Z.lor (Z.shiftl (b2z d0) 16) (Z.shiftl (b2z d1) 8) in
      [b64_char kB64Url (Z.land (Z.shiftr n 18) 63);
       b64_char kB64Url (Z.land (Z.shiftr n 12) 63);
       b64_char kB64Url (Z.land (Z.shiftr n 6) 63)]
  | [] => []
  end.

(** The bit accumulator of both base64 decoders: [acc] is a [uint32_t] whose
    high bits fall off, [bits] the number of pending bits. *)
Fixpoint b64_decode_loop (value : byte -> Z) (input : bytes) (acc bits : Z)
    (out : bytes) : option bytes :=
  match input with
  | [] => Some out
  | c :: input' =>
      let v := value c in
      if v <? 0 then None
      else
        let acc := u32 (Z.lor (Z.shiftl acc 6) v) in
        let bits := bits + 6 in
        if 8 <=? bits then
          let bits := bits - 8 in
          b64_decode_loop value input' acc bits
            (out ++ [z2b (Z.land (Z.shiftr acc bits) 255)])
        else b64_decode_loop value input' acc bits out
  end.

Definition base64url_decode (s : bytes) : option bytes :=
  let input := pop_back_while (fun c => Byte.eqb c "=") s in
  if (length input mod 4 =? 1)%nat then None
  else b64_decode_loop b64url_value input 0 0 [].

(** ** Hex *)

Definition hex_digits : bytes := str "0123456789abcdef".

Definition hex_encode (data : bytes) : bytes :=
  data ≫= (fun d => [b64_char hex_digits (Z.shiftr (b2z d) 4);
                     b64_char hex_digits (Z.land (b2z d) 15)]).

Definition nibble (c : byte) : Z :=
  if in_range c "0" "9" then b2z c - b2z "0"
  else if in_range c "a" "f" then b2z c - b2z "a" + 10
  else if in_range c "A" "F" then b2z c - b2z "A" + 10
  else -1.

Fixpoint hex_decode_loop (s : bytes) : option bytes :=
  match s with
  | c0 :: c1 :: rest =>
      let hi := nibble c0 in
      let lo := nibble c1 in
      if (hi <? 0) || (lo <? 0) then None
      else out ← hex_decode_loop rest; Some (z2b (Z.lor (Z.shiftl hi 4) lo) :: out)
  | _ => Some []
  end.

Definition hex_decode (s : bytes) : option bytes :=
  if negb (length s mod 2 =? 0)%nat then None else hex_decode_loop s.

(** ** Constant-time comparison

    [sodium_memcmp] compares all the bytes; its result is equality. *)
Definition sodium_memcmp (a b : bytes) : Z := if decide (a = b) then 0 else -1.

Definition constant_time_equal (a b : bytes) : bool :=
  if negb (length a =? length b)%nat then false
  else match a with
       | [] => true
       | _ => sodium_memcmp a b =? 0
       end.

(** ** Lemmas on the alphabets *)

(** A statement about the 64 symbols is a finite check. *)
Lemma sextet_cases (P : Z -> bool) v :
  0 <= v < 64 -> forallb P (map Z.of_nat (List.seq 0 64)) = true -> P v = true.
Proof.
  intros Hv Hall. rewrite List.forallb_forall in Hall. apply Hall.
  apply List.in_map_iff. exists (Z.to_nat v). split; [lia|].
  apply List.in_seq. lia.
Qed.

Lemma b64url_value_char v : 0 <= v < 64 -> b64url_value (b64_char kB64Url v) = v.
Proof.
  intros Hv. apply Z.eqb_eq.
  by apply (sextet_cases (fun v => b64url_value (b64_char kB64Url v) =? v)).
Qed.

Lemma b64_char_not_pad v :
  0 <= v < 64 -> Byte.eqb (b64_char kB64Url v) "=" = false.
Proof.
  intros Hv. apply negb_true_iff.
  by apply (sextet_cases (fun v => negb (Byte.eqb (b64_char kB64Url v) "="))).
Qed.

Lemma b64url_value_range c : b64url_value c < 64.
Proof. destruct c; vm_compute; reflexivity. Qed.

(** The character with a given value is unique. *)
Lemma b64url_char_value c :
  0 <= b64url_value c -> b64_char kB64Url (b64url_value c) = c.
Proof. destruct c; vm_compute; congruence. Qed.

(** ** The sextets of a triple, arithmetically *)

(** [land] with a mask and shifts by constants, as division and remainder. *)
Ltac bits_to_arith :=
  repeat match goal with
  | |- context [Z.land ?a 63] => change (Z.land a 63) with (Z.land a (2 ^ 6 - 1));
      rewrite (land_ones_mod a 6) by lia
  | |- context [Z.land ?a 255] => change (Z.land a 255) with (Z.land a (2 ^ 8 - 1));
      rewrite (land_ones_mod a 8) by lia
  | |- context [Z.land ?a 15] => change (Z.land a 15) with (Z.land a (2 ^ 4 - 1));
      rewrite (land_ones_mod a 4) by lia
  end;
  rewrite ?Z.shiftr_div_pow2, ?Z.shiftl_mul_pow2 by lia.

Lemma triple_value a b c :
  0 <= a < 256 -> 0 <= b < 256 -> 0 <= c < 256 ->
  Z.lor (Z.lor (Z.shiftl a 16) (Z.shiftl b 8)) c = a * 65536 + b * 256 + c.
Proof.
  intros. rewrite (Z.shiftl_mul_pow2 b) by lia.
  rewrite (shiftl_lor_add a (b * 2 ^ 8) 16) by lia.
  replace (a * 2 ^ 16 + b * 2 ^ 8) with (Z.shiftl (a * 256 + b) 8)
    by (rewrite Z.shiftl_mul_pow2; lia).
  rewrite shiftl_lor_add by lia. lia.
Qed.

Lemma pair_value a b :
  0 <= a < 256 -> 0 <= b < 256 ->
  Z.lor (Z.shiftl a 16) (Z.shiftl b 8) = a * 65536 + b * 256.
Proof.
  intros. rewrite (Z.shiftl_mul_pow2 b) by lia.
  rewrite (shiftl_lor_add a (b * 2 ^ 8) 16) by lia. lia.
Qed.

(** The sextets, with the shifts and masks of the code resolved. *)
Definition sextets3 (a b c : Z) : list Z :=
  [a / 4; (a mod 4) * 16 + b / 16; (b mod 16) * 4 + c / 64; c mod 64].
Definition sextets2 (a b : Z) : list Z :=
  [a / 4; (a mod 4) * 16 + b / 16; (b mod 16) * 4].
Definition sextets1 (a : Z) : list Z := [a / 4; (a mod 4) * 16].

Fixpoint sextets (data : bytes) : list Z :=
  match data with
  | d0 :: d1 :: d2 :: rest => sextets3 (b2z d0) (b2z d1) (b2z d2) ++ sextets rest
  | [d0] => sextets1 (b2z d0)
  | [d0; d1] => sextets2 (b2z d0) (b2z d1)
  | [] => []
  end.

(** Induction by triples, with the two tails. *)
Lemma triples_ind (P : bytes -> Prop) :
  P [] -> (forall a, P [a]) -> (forall a b, P [a; b]) ->
  (forall a b c l, P l -> P (a :: b :: c :: l)) -> forall l, P l.
Proof.
  intros H0 H1 H2 H3.
  fix IH 1. intros [|a [|b [|c l]]]; [exact H0|apply H1|apply H2|].
  apply H3, IH.
Qed.

(** Equal symbol lists, symbol by symbol. *)
Ltac sextet_eq :=
  repeat match goal with
  | |- b64_char _ ?x :: _ = b64_char _ ?y :: _ =>
      replace x with y by (Z.to_euclidean_division_equations; lia);
      apply (f_equal (cons _))
  end; try reflexivity.

Lemma encode_sextets data :
  base64url_encode data = map (b64_char kB64Url) (sextets data).
Proof.
  induction data as [|a|a b|a b c l IH] using triples_ind; cbn [base64url_encode sextets].
  - done.
  - pose proof (b2z_range a). unfold sextets1. cbn [map]. bits_to_arith.
    sextet_eq.
  - pose proof (b2z_range a). pose proof (b2z_range b).
    rewrite pair_value by lia. unfold sextets2. cbn [map]. bits_to_arith.
    sextet_eq.
  - pose proof (b2z_range a). pose proof (b2z_range b). pose proof (b2z_range c).
    rewrite triple_value, IH by lia. unfold sextets3. cbn [map app]. bits_to_arith.
    sextet_eq.
Qed.

Lemma sextets_range data : Forall (fun v => 0 <= v < 64) (sextets data).
Proof.
  induction data as [|a|a b|a b c l IH] using triples_ind; cbn [sextets];
    rewrite ?Forall_app; unfold sextets1, sextets2, sextets3;
    repeat match goal with x : byte |- _ =>
      unless (0 <= b2z x < 256) by done; pose proof (b2z_range x) end;
    repeat constructor; try done; Z.to_euclidean_division_equations; lia.
Qed.

(** ** Decoding what the encoder wrote *)

(** Shifting six bits into the 32-bit accumulator keeps the low 14 bits, which
    are all the loop ever reads. *)
Lemma acc_step acc v :
  0 <= v < 64 ->
  u32 (Z.lor (Z.shiftl acc 6) v) mod 2 ^ 14 = ((acc mod 2 ^ 8) * 64 + v) mod 2 ^ 14.
Proof.
  intros. rewrite (shiftl_lor_add acc v 6) by lia. unfold u32.
  change (2 ^ 6) with 64. change (2 ^ 32) with 4294967296.
  change (2 ^ 14) with 16384. change (2 ^ 8) with 256.
  Z.to_euclidean_division_equations; lia.
Qed.

(** The byte the loop emits only depends on those low bits. *)
Lemma acc_emit acc bits :
  0 <= bits <= 6 ->
  Z.land (Z.shiftr acc bits) 255 = (acc mod 2 ^ 14) / 2 ^ bits mod 256.
Proof.
  intros. bits_to_arith. change (2 ^ 8) with 256.
  replace (2 ^ 14) with (2 ^ bits * (256 * 2 ^ (6 - bits))).
  2: { change 256 with (2 ^ 8). rewrite <- !Z.pow_add_r by lia. f_equal. lia. }
  assert (0 < 2 ^ bits) by (apply Z.pow_pos_nonneg; lia).
  assert (0 < 2 ^ (6 - bits)) by (apply Z.pow_pos_nonneg; lia).
  set (m := 2 ^ bits) in *. set (k := 2 ^ (6 - bits)) in *.
  rewrite (Z.rem_mul_r acc m) by lia.
  rewrite (Z.mul_comm m (acc / m mod (256 * k))), Z.div_add by lia.
  rewrite (Z.div_small (acc mod m)) by (apply Z.mod_pos_bound; lia).
  rewrite Z.add_0_l, (Z.rem_mul_r (acc / m) 256) by lia.
  rewrite (Z.mul_comm 256 (acc / m / 256 mod k)), Z.mod_add by lia.
  by rewrite Z.mod_mod by lia.
Qed.

Lemma loop_emit value c input acc bits out v :
  value c = v -> 0 <= v < 64 -> 2 <= bits <= 6 ->
  b64_decode_loop value (c :: input) acc bits out =
  b64_decode_loop value input (u32 (Z.lor (Z.shiftl acc 6) v)) (bits - 2)
    (out ++ [z2b (((acc mod 2 ^ 8) * 64 + v) mod 2 ^ 14 / 2 ^ (bits - 2) mod 256)]).
Proof.
  intros Hv Hr Hb. cbn [b64_decode_loop]. rewrite Hv.
  rewrite (proj2 (Z.ltb_ge v 0)) by lia.
  rewrite (proj2 (Z.leb_le 8 (bits + 6))) by lia.
  replace (bits + 6 - 8) with (bits - 2) by lia.
  by rewrite acc_emit, acc_step by lia.
Qed.

Lemma loop_shift value c input acc out v :
  value c = v -> 0 <= v < 64 ->
  b64_decode_loop value (c :: input) acc 0 out =
  b64_decode_loop value input (u32 (Z.lor (Z.shiftl acc 6) v)) 6 out.
Proof.
  intros Hv Hr. cbn [b64_decode_loop]. rewrite Hv.
  by rewrite (proj2 (Z.ltb_ge v 0)) by lia.
Qed.

Lemma acc_step_8 acc v :
  0 <= v < 64 -> u32 (Z.lor (Z.shiftl acc 6) v) mod 2 ^ 8 = (acc * 64 + v) mod 2 ^ 8.
Proof.
  intros. rewrite (shiftl_lor_add acc v 6) by lia. unfold u32.
  change (2 ^ 6) with 64. change (2 ^ 32) with 4294967296. change (2 ^ 8) with 256.
  Z.to_euclidean_division_equations; lia.
Qed.

Ltac emit_byte :=
  erewrite loop_emit; [|apply b64url_value_char|..];
  [|Z.to_euclidean_division_equations; lia..].

Ltac arith_byte :=
  change (2 ^ 14) with 16384; change (2 ^ 8) with 256; change (2 ^ (6 - 2)) with 16;
  change (2 ^ (6 - 2 - 2)) with 4; change (2 ^ (6 - 2 - 2 - 2)) with 1;
  Z.to_euclidean_division_equations; lia.

(** Equality of two emitted byte lists, byte by byte. *)
Ltac emitted :=
  apply (f_equal Some), (f_equal (app _));
  repeat match goal with
  | |- _ :: _ = _ :: _ => apply (f_equal2 cons); [apply z2b_eq; arith_byte|]
  end; try reflexivity.

Lemma decode_triple a b c vs acc out :
  0 <= a < 256 -> 0 <= b < 256 -> 0 <= c < 256 ->
  exists acc',
    b64_decode_loop b64url_value (map (b64_char kB64Url) (sextets3 a b c ++ vs)) acc 0 out =
    b64_decode_loop b64url_value (map (b64_char kB64Url) vs) acc' 0
      (out ++ [z2b a; z2b b; z2b c]).
Proof.
  intros. unfold sextets3. cbn [map app]. eexists.
  erewrite loop_shift; [|apply b64url_value_char|];
    [|Z.to_euclidean_division_equations; lia..].
  do 3 emit_byte.
  rewrite !acc_step_8 by (Z.to_euclidean_division_equations; lia).
  rewrite <- !app_assoc. cbn [app]. change (6 - 2 - 2 - 2) with 0.
  f_equal. f_equal. f_equal; [f_equal; arith_byte|].
  f_equal; [f_equal; arith_byte|]. f_equal; f_equal; arith_byte.
Qed.

Lemma decode_sextets data acc out :
  b64_decode_loop b64url_value (map (b64_char kB64Url) (sextets data)) acc 0 out =
  Some (out ++ data).
Proof.
  revert acc out.
  induction data as [|a|a b|a b c l IH] using triples_ind; intros acc out; cbn [sextets].
  - by rewrite app_nil_r.
  - pose proof (b2z_range a). unfold sextets1. cbn [map].
    erewrite loop_shift; [|apply b64url_value_char|];
      [|Z.to_euclidean_division_equations; lia..].
    emit_byte. rewrite acc_step_8 by (Z.to_euclidean_division_equations; lia).
    cbn [b64_decode_loop]. emitted.
  - pose proof (b2z_range a). pose proof (b2z_range b). unfold sextets2. cbn [map].
    erewrite loop_shift; [|apply b64url_value_char|];
      [|Z.to_euclidean_division_equations; lia..].
    do 2 emit_byte. rewrite !acc_step_8 by (Z.to_euclidean_division_equations; lia).
    cbn [b64_decode_loop]. rewrite <- app_assoc. cbn [app]. emitted.
  - pose proof (b2z_range a). pose proof (b2z_range b). pose proof (b2z_range c).
    destruct (decode_triple (b2z a) (b2z b) (b2z c) (sextets l) acc out) as [acc' ->];
      [lia..|].
    rewrite IH, !z2b_b2z, <- app_assoc. done.
Qed.

Lemma sextets_length data : (length (sextets data) mod 4 =? 1)%nat = false.
Proof.
  induction data as [|a|a b|a b c l IH] using triples_ind; [done..|].
  cbn [sextets]. unfold sextets3. cbn [app length].
  replace (S (S (S (S (length (sextets l)))))) with (length (sextets l) + 1 * 4)%nat by lia.
  by rewrite Nat.Div0.mod_add.
Qed.

Lemma encode_no_pad data :
  Forall (fun c => Byte.eqb c "=" = false) (base64url_encode data).
Proof.
  rewrite encode_sextets. apply Forall_map.
  eapply Forall_impl; [apply sextets_range|]. intros v Hv. by apply b64_char_not_pad.
Qed.

(** The decoder inverts the encoder on every byte string. *)
Lemma b64_decode_encode data : base64url_decode (base64url_encode data) = Some data.
Proof.
  unfold base64url_decode. rewrite pop_back_while_id by apply encode_no_pad.
  rewrite encode_sextets, length_map, sextets_length. apply decode_sextets.
Qed.

Lemma b64_encode_inj d1 d2 : base64url_encode d1 = base64url_encode d2 -> d1 = d2.
Proof.
  intros H. apply (f_equal base64url_decode) in H. rewrite !b64_decode_encode in H.
  congruence.
Qed.

Lemma b64_decode_padded data n :
  base64url_decode (base64url_encode data ++ replicate n "="%byte) = Some data.
Proof.
  unfold base64url_decode. rewrite pop_back_while_app.
  2: { apply Forall_replicate. apply byte_eqb_refl. }
  apply b64_decode_encode.
Qed.

Lemma b64_encode_length data :
  length (base64url_encode data) = ((length data * 4 + 2) / 3)%nat.
Proof.
  rewrite encode_sextets, length_map.
  induction data as [|a|a b|a b c l IH] using triples_ind; [done..|].
  cbn [sextets]. unfold sextets3. cbn [app length]. rewrite IH.
  replace (S (S (S (length l))) * 4 + 2)%nat with (length l * 4 + 2 + 4 * 3)%nat by lia.
  rewrite Nat.div_add by lia. lia.
Qed.

(** Every symbol the encoder writes is in the alphabet. *)
Lemma b64_encode_alphabet data :
  Forall (fun c => 0 <= b64url_value c) (base64url_encode data).
Proof.
  rewrite encode_sextets. apply Forall_map.
  eapply Forall_impl; [apply sextets_range|]. intros v Hv.
  cbn beta in Hv |- *. rewrite b64url_value_char; lia.
Qed.

(** A character outside the alphabet makes the decoder fail: nothing is skipped. *)
Lemma b64_decode_loop_strict value input acc bits out r :
  b64_decode_loop value input acc bits out = Some r ->
  Forall (fun c => 0 <= value c) input.
Proof.
  revert acc bits out; induction input as [|c input IH]; intros acc bits out; simpl.
  - constructor.
  - destruct (value c <? 0) eqn:E; [done|]. apply Z.ltb_ge in E.
    destruct (8 <=? bits + 6); intros H; constructor; eauto.
Qed.

(** ** Hex round trip *)

Lemma nibble_hex v : 0 <= v < 16 -> nibble (b64_char hex_digits v) = v.
Proof.
  intros Hv. apply Z.eqb_eq.
  assert (forall P : Z -> bool, forallb P (map Z.of_nat (List.seq 0 16)) = true -> P v = true)
    as Hall.
  { intros P HP. rewrite List.forallb_forall in HP. apply HP.
    apply List.in_map_iff. exists (Z.to_nat v). split; [lia|]. apply List.in_seq. lia. }
  by apply (Hall (fun v => nibble (b64_char hex_digits v) =? v)).
Qed.

Lemma hex_encode_cons d data :
  hex_encode (d :: data) =
  b64_char hex_digits (b2z d / 16) :: b64_char hex_digits (b2z d mod 16) :: hex_encode data.
Proof.
  unfold hex_encode. cbn [mbind list_bind app].
  f_equal; [f_equal|f_equal; f_equal]; bits_to_arith; done.
Qed.

Lemma hex_encode_length data : length (hex_encode data) = (2 * length data)%nat.
Proof.
  induction data as [|d data IH]; [done|]. rewrite hex_encode_cons. cbn [length]. lia.
Qed.

Lemma hex_decode_encode data : hex_decode (hex_encode data) = Some data.
Proof.
  unfold hex_decode. rewrite hex_encode_length, Nat.mul_comm, Nat.Div0.mod_mul. cbn.
  induction data as [|d data IH]; [done|].
  rewrite hex_encode_cons. cbn [hex_decode_loop].
  pose proof (b2z_range d).
  rewrite !nibble_hex by (Z.to_euclidean_division_equations; lia).
  rewrite (proj2 (Z.ltb_ge _ 0)) by (Z.to_euclidean_division_equations; lia).
  rewrite (proj2 (Z.ltb_ge _ 0)) by (Z.to_euclidean_division_equations; lia).
  cbn [orb]. rewrite IH. cbn.
  rewrite shiftl_lor_add by (Z.to_euclidean_division_equations; lia).
  do 2 f_equal. apply z2b_eq. change (2 ^ 4) with 16.
  Z.to_euclidean_division_equations; lia.
Qed.

(** The comparison is byte equality, whatever the two lengths. *)
Lemma constant_time_equal_spec a b : constant_time_equal a b = true <-> a = b.
Proof.
  unfold constant_time_equal, sodium_memcmp.
  destruct (length a =? length b)%nat eqn:E; simpl.
  - destruct a as [|x a]; [by destruct b|]. by case_decide.
  - split; [done|]. intros ->. by rewrite Nat.eqb_refl in E.
Qed.

(** ** AEAD envelope

    [Aead] is libsodium's [crypto_aead_xchacha20poly1305_ietf]: the detached
    parts (key, 24-byte nonce, associated data) are arguments, the ciphertext
    carries its 16-byte tag at the end.  The laws are the documented behaviour:
    decryption undoes encryption, the ciphertext is 16 bytes longer than the
    plaintext, and decryption accepts nothing but the encryption of what it
    returns (the tag is recomputed and compared). *)
Class Aead := {
  aead_encrypt : bytes -> bytes -> bytes -> bytes -> bytes;
  aead_decrypt : bytes -> bytes -> bytes -> bytes -> option bytes;
}.

Class AeadLaws (A : Aead) : Prop := {
  aead_encrypt_length k n p a : length (aead_encrypt k n p a) = (length p + 16)%nat;
  aead_decrypt_encrypt k n p a : aead_decrypt k n (aead_encrypt k n p a) a = Some p;
  aead_decrypt_sound k n c a p :
    aead_decrypt k n c a = Some p -> c = aead_encrypt k n p a;
}.

Definition kAeadKeyBytes : nat := 32.
Definition kAeadNonceBytes : nat := 24.
Definition kAeadTagBytes : nat := 16.

Section Envelope.
Context `{AeadLaws}.

Definition aead_seal_with_nonce (key plaintext aad nonce : bytes) : bytes :=
  nonce ++ aead_encrypt key nonce plaintext aad.

(** [aead_seal] draws the nonce from [randombytes_buf]; the drawn bytes are an
    argument here. *)
Definition aead_seal (random_nonce key plaintext aad : bytes) : bytes :=
  aead_seal_with_nonce key plaintext aad random_nonce.

Definition aead_open (key sealed aad : bytes) : option bytes :=
  if (length sealed <? kAeadNonceBytes + kAeadTagBytes)%nat then None
  else
    aead_decrypt key (take kAeadNonceBytes sealed) (drop kAeadNonceBytes sealed) aad.

Lemma aead_open_seal key plaintext aad nonce :
  length nonce = kAeadNonceBytes ->
  aead_open key (aead_seal_with_nonce key plaintext aad nonce) aad = Some plaintext.
Proof.
  intros Hn. unfold aead_open, aead_seal_with_nonce.
  rewrite length_app, aead_encrypt_length, Hn.
  replace (_ <? _)%nat with false
    by (symmetry; apply Nat.ltb_ge; unfold kAeadTagBytes; lia).
  rewrite take_app_exact, drop_app_exact by done.
  apply aead_decrypt_encrypt.
Qed.

Lemma aead_open_inv key sealed aad plaintext :
  aead_open key sealed aad = Some plaintext ->
  sealed = aead_seal_with_nonce key plaintext aad (take kAeadNonceBytes sealed) /\
  length sealed = (kAeadNonceBytes + length plaintext + kAeadTagBytes)%nat.
Proof.
  unfold aead_open. destruct (_ <? _)%nat eqn:E; [done|]. apply Nat.ltb_ge in E.
  intros Hd. apply aead_decrypt_sound in Hd. unfold aead_seal_with_nonce.
  rewrite <- Hd, take_drop. split; [done|].
  rewrite <- (take_drop kAeadNonceBytes sealed) at 1.
  rewrite Hd, length_app, aead_encrypt_length, length_take.
  unfold kAeadNonceBytes, kAeadTagBytes in *. lia.
Qed.
End Envelope.

(** ** Digests

    [crypto_hash_sha256] and [crypto_auth_hmacsha256]: functions to 32 bytes.
    [Sha256::update] calls are modelled by concatenating their arguments. *)
Class Digests := {
  sha256 : bytes -> bytes;
  hmac_sha256 : bytes -> bytes -> bytes;
}.

Class DigestLaws (D : Digests) : Prop := {
  sha256_length m : length (sha256 m) = 32%nat;
  hmac_sha256_length k m : length (hmac_sha256 k m) = 32%nat;
}.

(** [Sha256::hex_digest]. *)
Definition hex_digest `{Digests} (message : bytes) : bytes := hex_encode (sha256 message).

(** ** Concrete primitives for examples

    An insecure stand-in with the laws of the classes, used to evaluate the
    definitions on concrete inputs. *)
Module Toy.
Definition mix (m : bytes) : Z :=
  fold_left (fun acc b => (acc * 257 + b2z b + 1) mod 2 ^ 61) m 7.

Definition tag (k n p a : bytes) : bytes :=
  le_encode 16 (mix k + 3 * mix n + 5 * mix p + 11 * mix a).

Definition encrypt (k n p a : bytes) : bytes := p ++ tag k n p a.

Definition decrypt (k n c a : bytes) : option bytes :=
  if (length c <? 16)%nat then None
  else
    let p := take (length c - 16) c in
    if decide (drop (length c - 16) c = tag k n p a) then Some p else None.

#[export] Instance aead : Aead := {| aead_encrypt := encrypt; aead_decrypt := decrypt |}.

#[export] Instance aead_laws : AeadLaws aead.
Proof.
  split; simpl.
  - intros. unfold encrypt, tag. by rewrite length_app, le_encode_length.
  - intros. unfold decrypt, encrypt, tag. rewrite length_app, le_encode_length.
    replace (_ <? 16)%nat with false by (symmetry; apply Nat.ltb_ge; lia).
    rewrite take_app_exact, drop_app_exact by lia. by rewrite decide_True.
  - intros k n c a p. unfold decrypt, encrypt.
    destruct (_ <? 16)%nat; [done|]. case_decide as E; [|done].
    intros [= <-]. by rewrite <- E, take_drop.
Qed.

#[export] Instance digests : Digests :=
  {| sha256 m := le_encode 32 (mix m);
     hmac_sha256 k m := le_encode 32 (mix k * 1000003 + mix m) |}.

#[export] Instance digest_laws : DigestLaws digests.
Proof. split; intros; apply le_encode_length. Qed.
End Toy.

(** ** Properties *)

(** Base64url round trip.  Decoding what [base64url_encode] wrote returns
    the bytes, with any amount of [=] padding appended; the encoder writes
    [ceil(4n/3)] symbols, all in the alphabet. *)
Theorem base64url_roundtrip (data : bytes) (padding : nat) :
  base64url_decode (base64url_encode data ++ replicate padding "="%byte) = Some data /\
  length (base64url_encode data) = ((length data * 4 + 2) / 3)%nat /\
  Forall (fun c => 0 <= b64url_value c) (base64url_encode data).
Proof.
  split; [apply b64_decode_padded|].
  split; [apply b64_encode_length|apply b64_encode_alphabet].
Qed.
