(* ===== verification/IdentityInternal.v ===== *)
(** * Shared validation helpers (src/src/identity_provider_internal.h)

    UTF-8 validation, control characters, ASCII lower-casing, HTTP header
    names, and the bounded SAX validator every identity document passes
    through.  [inet_pton] and the JSON tokenizer are library code: the first is
    a parameter, the second is seen through the SAX events it calls back with. *)

From Stdlib Require Import Floats.SpecFloat.
From S2P Require Import Prelude Json Crypto.

(** ** UTF-8 *)

(** The inner loop over the continuation bytes: [None] is [return false]. *)
Fixpoint utf8_continuation (n : nat) (code : Z) (s : bytes) : option (Z * bytes) :=
  match n with
  | O => Some (code, s)
  | S n' =>
      match s with
      | [] => None
      | byte :: s' =>
          if negb (Z.land (b2z byte) 0xc0 =? 0x80) then None
          else utf8_continuation n' (u32 (Z.lor (Z.shiftl code 6) (Z.land (b2z byte) 0x3f))) s'
      end
  end.

(** The lead byte: number of continuation bytes and the payload bits. *)
Definition utf8_lead (first : Z) : option (nat * Z) :=
  if Z.land first 0xe0 =? 0xc0 then Some (1%nat, Z.land first 0x1f)
  else if Z.land first 0xf0 =? 0xe0 then Some (2%nat, Z.land first 0x0f)
  else if Z.land first 0xf8 =? 0xf0 then Some (3%nat, Z.land first 0x07)
  else None.

(** Overlong forms, out-of-range values and surrogates. *)
Definition utf8_code_refused (continuation : nat) (code : Z) : bool :=
  ((continuation =? 1)%nat && (code <? 0x80))
  || ((continuation =? 2)%nat && (code <? 0x800))
  || ((continuation =? 3)%nat && (code <? 0x10000))
  || (0x10ffff <? code)
  || ((0xd800 <=? code) && (code <=? 0xdfff)).

Fixpoint valid_utf8_loop (fuel : nat) (s : bytes) : bool :=
  match fuel with
  | O => false
  | S fuel' =>
      match s with
      | [] => true
      | first :: rest =>
          if b2z first <? 0x80 then valid_utf8_loop fuel' rest
          else
            match utf8_lead (b2z first) with
            | None => false
            | Some (continuation, code) =>
                if (length rest <? continuation)%nat then false
                else
                  match utf8_continuation continuation code rest with
                  | None => false
                  | Some (code, rest') =>
                      if utf8_code_refused continuation code then false
                      else valid_utf8_loop fuel' rest'
                  end
            end
      end
  end.

(** Every iteration consumes a byte, so [length s + 1] rounds are enough. *)
Definition valid_utf8 (s : bytes) : bool := valid_utf8_loop (S (length s)) s.

(** *** The Unicode definition, for reference *)

Definition scalar_value (c : Z) : Prop :=
  0 <= c <= 0x10ffff /\ ~ (0xd800 <= c <= 0xdfff).

Definition utf8_encode (c : Z) : bytes :=
  if c <? 0x80 then [z2b c]
  else if c <? 0x800 then [z2b (0xc0 + c / 64); z2b (0x80 + c mod 64)]
  else if c <? 0x10000 then
    [z2b (0xe0 + c / 4096); z2b (0x80 + c / 64 mod 64); z2b (0x80 + c mod 64)]
  else
    [z2b (0xf0 + c / 262144); z2b (0x80 + c / 4096 mod 64);
     z2b (0x80 + c / 64 mod 64); z2b (0x80 + c mod 64)].

(** A byte string is UTF-8 when it is the encoding of scalar values. *)
Definition well_formed_utf8 (s : bytes) : Prop :=
  exists cs, Forall scalar_value cs /\ s = concat (map utf8_encode cs).

(** *** Masks as ranges *)

(** A fact about one byte, by enumeration. *)
Lemma byte_cases (P : Z -> bool) z :
  0 <= z < 256 -> forallb P (map Z.of_nat (List.seq 0 256)) = true -> P z = true.
Proof.
  intros Hz Hall. rewrite List.forallb_forall in Hall. apply Hall.
  apply List.in_map_iff. exists (Z.to_nat z). split; [lia|].
  apply List.in_seq. lia.
Qed.

Ltac by_byte_cases z :=
  match goal with |- ?l = ?r =>
    apply (proj1 (Bool.eqb_true_iff l r)); pattern z;
    match goal with |- ?P z => apply (byte_cases (fun z => ltac:(let e := eval cbv beta in (P z) in
      match e with ?b = true => exact b end)) z) end; [lia|vm_compute; reflexivity] end.

Lemma mask_continuation z :
  0 <= z < 256 -> (Z.land z 0xc0 =? 0x80) = ((0x80 <=? z) && (z <? 0xc0)).
Proof. intros. by_byte_cases z. Qed.

Lemma mask_lead2 z :
  0 <= z < 256 -> (Z.land z 0xe0 =? 0xc0) = ((0xc0 <=? z) && (z <? 0xe0)).
Proof. intros. by_byte_cases z. Qed.

Lemma mask_lead3 z :
  0 <= z < 256 -> (Z.land z 0xf0 =? 0xe0) = ((0xe0 <=? z) && (z <? 0xf0)).
Proof. intros. by_byte_cases z. Qed.

Lemma mask_lead4 z :
  0 <= z < 256 -> (Z.land z 0xf8 =? 0xf0) = ((0xf0 <=? z) && (z <? 0xf8)).
Proof. intros. by_byte_cases z. Qed.

Lemma payload_bits z n : 0 <= n -> Z.land z (2 ^ n - 1) = z mod 2 ^ n.
Proof. apply land_ones_mod. Qed.

(** One continuation byte extends the code by six bits. *)
Lemma utf8_continuation_cons n code b s :
  0 <= code < 2 ^ 20 -> 0x80 <= b2z b < 0xc0 ->
  utf8_continuation (S n) code (b :: s) =
  utf8_continuation n (code * 64 + (b2z b - 0x80)) s.
Proof.
  intros Hc Hb. cbn [utf8_continuation]. rewrite mask_continuation by apply b2z_range.
  replace ((0x80 <=? b2z b) && (b2z b <? 0xc0)) with true
    by (symmetry; apply andb_true_iff; split; [apply Z.leb_le|apply Z.ltb_lt]; lia).
  cbn [negb]. f_equal. change 0x3f with (2 ^ 6 - 1). rewrite payload_bits by lia.
  change (2 ^ 6) with 64.
  rewrite (shiftl_lor_add code _ 6) by (change (2 ^ 6) with 64; first [lia|apply Z.mod_pos_bound; lia]).
  change (2 ^ 6) with 64. rewrite u32_small; unfold in_u32;
    Z.to_euclidean_division_equations; lia.
Qed.

Lemma utf8_continuation_inv n code s r :
  0 <= code < 2 ^ 20 -> utf8_continuation (S n) code s = Some r ->
  exists b s', s = b :: s' /\ 0x80 <= b2z b < 0xc0 /\
    utf8_continuation n (code * 64 + (b2z b - 0x80)) s' = Some r.
Proof.
  intros Hc H. destruct s as [|b s']; [done|]. exists b, s'.
  assert (0x80 <= b2z b < 0xc0) as Hb.
  { cbn [utf8_continuation] in H. rewrite mask_continuation in H by apply b2z_range.
    destruct (0x80 <=? b2z b) eqn:E1, (b2z b <? 0xc0) eqn:E2; try done.
    bool_to_prop; lia. }
  by rewrite utf8_continuation_cons in H.
Qed.

Lemma utf8_lead_range z n code :
  0 <= z < 256 -> utf8_lead z = Some (n, code) ->
  (n = 1%nat /\ 0xc0 <= z < 0xe0 /\ code = z - 0xc0) \/
  (n = 2%nat /\ 0xe0 <= z < 0xf0 /\ code = z - 0xe0) \/
  (n = 3%nat /\ 0xf0 <= z < 0xf8 /\ code = z - 0xf0).
Proof.
  intros Hz. unfold utf8_lead.
  rewrite mask_lead2, mask_lead3, mask_lead4 by done.
  change 0x1f with (2 ^ 5 - 1). change 0x0f with (2 ^ 4 - 1). change 0x07 with (2 ^ 3 - 1).
  rewrite !payload_bits by lia.
  destruct ((0xc0 <=? z) && (z <? 0xe0)) eqn:E1.
  { bool_to_prop. intros [= <- <-]. left. repeat split; try lia.
    Z.to_euclidean_division_equations; lia. }
  destruct ((0xe0 <=? z) && (z <? 0xf0)) eqn:E2.
  { bool_to_prop. intros [= <- <-]. right; left. repeat split; try lia.
    Z.to_euclidean_division_equations; lia. }
  destruct ((0xf0 <=? z) && (z <? 0xf8)) eqn:E3; [|done].
  bool_to_prop. intros [= <- <-]. right; right. repeat split; try lia.
  Z.to_euclidean_division_equations; lia.
Qed.

Lemma utf8_lead_compute z :
  0xc0 <= z < 0xf8 ->
  utf8_lead z = Some (if z <? 0xe0 then (1%nat, z - 0xc0)
                      else if z <? 0xf0 then (2%nat, z - 0xe0) else (3%nat, z - 0xf0)).
Proof.
  intros Hz. destruct (utf8_lead z) as [[n code]|] eqn:E.
  - apply utf8_lead_range in E; [|lia].
    destruct (Z.ltb_spec z 0xe0), (Z.ltb_spec z 0xf0);
      destruct E as [(->&?&->)|[(->&?&->)|(->&?&->)]]; try done; lia.
  - exfalso. unfold utf8_lead in E.
    rewrite mask_lead2, mask_lead3, mask_lead4 in E by lia.
    repeat case_match; try done; bool_to_prop.
    rewrite !andb_false_iff, !Z.leb_gt, !Z.ltb_ge in *. lia.
Qed.

(** What the range test lets through is a scalar value in its shortest form. *)
Lemma utf8_code_accepted n code :
  0 <= code -> utf8_code_refused n code = false ->
  scalar_value code /\
  (n = 1%nat -> 0x80 <= code) /\ (n = 2%nat -> 0x800 <= code) /\ (n = 3%nat -> 0x10000 <= code).
Proof.
  unfold utf8_code_refused, scalar_value. intros H0 H.
  repeat rewrite orb_false_iff in H. rewrite !andb_false_iff in H.
  rewrite !Nat.eqb_neq, !Z.ltb_ge, !Z.leb_gt in H. lia.
Qed.

(** *** Soundness and completeness of the validator *)

Ltac solve_encode :=
  match goal with |- context [concat ?l] => generalize (concat l); intros end;
  unfold utf8_encode;
  repeat match goal with |- context [?a <? ?b] =>
    destruct (Z.ltb_spec a b); [try (exfalso; lia)|try (exfalso; lia)] end;
  cbn [app]; repeat (apply (f_equal2 cons);
    [symmetry; apply z2b_eq; Z.to_euclidean_division_equations; lia|]);
  try done.

Lemma valid_utf8_loop_sound fuel s :
  valid_utf8_loop fuel s = true -> well_formed_utf8 s.
Proof.
  revert s; induction fuel as [|fuel IH]; intros s; cbn [valid_utf8_loop]; [done|].
  destruct s as [|b s]; [by exists []|]. pose proof (b2z_range b).
  destruct (b2z b <? 0x80) eqn:E.
  { intros (cs & Hcs & ->)%IH. apply Z.ltb_lt in E. exists (b2z b :: cs). split.
    - constructor; [unfold scalar_value; lia|done].
    - cbn [map concat]. unfold utf8_encode. rewrite (proj2 (Z.ltb_lt _ _)) by lia.
      by rewrite z2b_b2z. }
  destruct (utf8_lead (b2z b)) as [[n code]|] eqn:El; [|done].
  destruct (_ <? n)%nat; [done|].
  destruct (utf8_continuation n code s) as [[code' s']|] eqn:Ec; [|done].
  destruct (utf8_code_refused n code') eqn:Er; [done|].
  intros (cs & Hcs & ->)%IH. exists (code' :: cs).
  cbn [map concat].
  apply utf8_lead_range in El; [|done].
  destruct El as [(->&?&->)|[(->&?&->)|(->&?&->)]];
    repeat match goal with Hc : utf8_continuation (S _) _ _ = Some _ |- _ =>
      apply utf8_continuation_inv in Hc as (?b & ?s & -> & ? & Hc); [|lia] end;
    match goal with Hc : utf8_continuation 0 _ _ = Some _ |- _ =>
      cbn [utf8_continuation] in Hc; injection Hc as <- -> end;
    apply utf8_code_accepted in Er as (Hsc & Hn1 & Hn2 & Hn3); try lia;
    (split; [by constructor|]).
  - specialize (Hn1 eq_refl). solve_encode.
  - specialize (Hn2 eq_refl). unfold scalar_value in Hsc. solve_encode.
  - specialize (Hn3 eq_refl). unfold scalar_value in Hsc. solve_encode.
Qed.

Lemma valid_utf8_loop_multi fuel b n code s r c :
  0x80 <= b2z b -> utf8_lead (b2z b) = Some (n, code) -> length s = n ->
  utf8_continuation n code (s ++ r) = Some (c, r) -> utf8_code_refused n c = false ->
  valid_utf8_loop (S fuel) ((b :: s) ++ r) = valid_utf8_loop fuel r.
Proof.
  intros Hb Hl Hn Hc Hr. cbn [valid_utf8_loop app].
  rewrite (proj2 (Z.ltb_ge _ 0x80)), Hl by lia.
  rewrite length_app, (proj2 (Nat.ltb_ge _ _)) by lia. by rewrite Hc, Hr.
Qed.

Lemma utf8_code_accept n c :
  scalar_value c -> (n = 1%nat -> 0x80 <= c) -> (n = 2%nat -> 0x800 <= c) ->
  (n = 3%nat -> 0x10000 <= c) -> utf8_code_refused n c = false.
Proof.
  unfold scalar_value, utf8_code_refused. intros.
  repeat rewrite orb_false_iff. rewrite !andb_false_iff.
  rewrite !Nat.eqb_neq, !Z.ltb_ge, !Z.leb_gt. lia.
Qed.

Ltac euclid := Z.to_euclidean_division_equations; lia.

(** Discharges the side conditions of [valid_utf8_loop_multi] for one range of
    code points. *)
Ltac multi_byte c :=
  eapply (valid_utf8_loop_multi _ _ _ _ _ _ c);
  [ rewrite b2z_z2b_small; euclid
  | rewrite b2z_z2b_small, utf8_lead_compute by euclid;
    repeat match goal with |- context [?a <? ?b] =>
      destruct (Z.ltb_spec a b); [try (exfalso; euclid)|try (exfalso; euclid)] end;
    reflexivity
  | reflexivity
  | cbn [app];
    repeat (rewrite utf8_continuation_cons;
      [rewrite b2z_z2b_small by euclid|euclid|rewrite b2z_z2b_small; euclid]);
    cbn [utf8_continuation]; do 2 f_equal; euclid
  | apply utf8_code_accept; [done|..]; intros; first [done|lia] ].

Lemma valid_utf8_loop_encode fuel c r :
  scalar_value c -> valid_utf8_loop (S fuel) (utf8_encode c ++ r) = valid_utf8_loop fuel r.
Proof.
  intros Hsc. pose proof Hsc as [Hc _]. unfold utf8_encode.
  destruct (Z.ltb_spec c 0x80).
  { cbn [app valid_utf8_loop]. rewrite b2z_z2b_small by lia.
    by rewrite (proj2 (Z.ltb_lt c 0x80)) by lia. }
  destruct (Z.ltb_spec c 0x800); [multi_byte c|].
  destruct (Z.ltb_spec c 0x10000); multi_byte c.
Qed.

Lemma utf8_encode_nonempty c : (1 <= length (utf8_encode c))%nat.
Proof. unfold utf8_encode. repeat case_match; simpl; lia. Qed.

Lemma valid_utf8_loop_complete fuel cs :
  Forall scalar_value cs -> (length (concat (map utf8_encode cs)) < fuel)%nat ->
  valid_utf8_loop fuel (concat (map utf8_encode cs)) = true.
Proof.
  intros Hcs. revert fuel; induction Hcs as [|c cs Hc _ IH]; intros fuel Hf;
    (destruct fuel as [|fuel]; [lia|]); [done|].
  cbn [map concat] in *. rewrite length_app in Hf. pose proof (utf8_encode_nonempty c).
  rewrite valid_utf8_loop_encode by done. apply IH. lia.
Qed.

Lemma valid_utf8_spec s : valid_utf8 s = true <-> well_formed_utf8 s.
Proof.
  split; [apply valid_utf8_loop_sound|].
  intros (cs & Hcs & ->). apply valid_utf8_loop_complete; [done|lia].
Qed.

Lemma well_formed_utf8_app s1 s2 :
  well_formed_utf8 s1 -> well_formed_utf8 s2 -> well_formed_utf8 (s1 ++ s2).
Proof.
  intros (c1 & H1 & ->) (c2 & H2 & ->). exists (c1 ++ c2).
  rewrite map_app, concat_app. split; [by apply Forall_app|done].
Qed.

(** ** Character classes *)

Definition has_control (s : bytes) : bool :=
  existsb (fun c => (b2z c <? 0x20) || (b2z c =? 0x7f)) s.

(** [std::tolower] in the C locale. *)
Definition tolower (c : byte) : byte :=
  if in_range c "A" "Z" then z2b (b2z c + 32) else c.

Definition lower_ascii (s : bytes) : bytes := map tolower s.

(** [std::isalnum] in the C locale. *)
Definition isalnum (c : byte) : bool :=
  in_range c "0" "9" || in_range c "A" "Z" || in_range c "a" "z".

Definition header_punctuation : bytes := str "!#$%&'*+-.^_`|~".

Definition valid_header_name (s : bytes) : bool :=
  match s with
  | [] => false
  | _ => forallb (fun c => isalnum c || existsb (Byte.eqb c) header_punctuation) s
  end.

(** ** Exact IP addresses *)

Inductive address_family := AF_INET | AF_INET6.

Record IpAddress := { ip_family : address_family; ip_bytes : bytes }.

(** [inet_pton] for the two families: the address bytes when the text parses. *)
Class InetPton := {
  inet_pton4 : bytes -> option bytes;
  inet_pton6 : bytes -> option bytes;
}.

Definition mapped_prefix : bytes :=
  replicate 10 x00 ++ [xff; xff].

(** [std::copy_n] of [n] bytes into a zeroed 16-byte array. *)
Definition copy_n (n : nat) (src : bytes) : bytes := take n src ++ replicate (16 - n) x00.

Definition parse_exact_ip `{InetPton} (text : bytes) : option IpAddress :=
  match inet_pton4 text with
  | Some v4 => Some {| ip_family := AF_INET; ip_bytes := copy_n 4 v4 |}
  | None =>
      match inet_pton6 text with
      | None => None
      | Some raw =>
          if bool_decide (take 12 raw = mapped_prefix) then
            Some {| ip_family := AF_INET; ip_bytes := copy_n 4 (drop 12 raw) |}
          else Some {| ip_family := AF_INET6; ip_bytes := copy_n 16 raw |}
      end
  end.

(** ** The bounded SAX validator *)

(** The callbacks of [nlohmann::json_sax]. *)
Inductive sax_event :=
  | Ev_null
  | Ev_boolean (b : bool)
  | Ev_number_integer (z : Z)
  | Ev_number_float (f : spec_float)
  | Ev_string (s : bytes)
  | Ev_binary
  | Ev_start_object
  | Ev_key (s : bytes)
  | Ev_end_object
  | Ev_start_array
  | Ev_end_array
  | Ev_parse_error.

(** [values_] and [stack_]: an object frame holds the keys seen, an array frame
    is [nullopt]. *)
Record BoundedJsonSax := {
  values_ : Z;
  stack_ : list (option (gset bytes));
}.

Definition sax_init : BoundedJsonSax := {| values_ := 0; stack_ := [] |}.

Section BoundedSax.
Context (max_depth max_values : Z).

(** [++values_ <= max_values_]. *)
Definition sax_value (st : BoundedJsonSax) : option BoundedJsonSax :=
  let st' := {| values_ := values_ st + 1; stack_ := stack_ st |} in
  if values_ st' <=? max_values then Some st' else None.

Definition sax_open (frame : option (gset bytes)) (st : BoundedJsonSax) :
    option BoundedJsonSax :=
  st ← sax_value st;
  if max_depth <? blen (stack_ st) + 1 then None
  else Some {| values_ := values_ st; stack_ := frame :: stack_ st |}.

(** One callback; [None] when it returns [false], which stops the parser. *)
Definition sax_step (st : BoundedJsonSax) (ev : sax_event) : option BoundedJsonSax :=
  match ev with
  | Ev_null | Ev_boolean _ | Ev_number_integer _ => sax_value st
  | Ev_number_float f => if isfinite f then sax_value st else None
  | Ev_string s => if valid_utf8 s then sax_value st else None
  | Ev_binary | Ev_parse_error => None
  | Ev_start_object => sax_open (Some ∅) st
  | Ev_start_array => sax_open None st
  | Ev_key s =>
      if valid_utf8 s then
        match stack_ st with
        | Some keys :: rest =>
            if decide (s ∈ keys) then None
            else Some {| values_ := values_ st; stack_ := Some ({[s]} ∪ keys) :: rest |}
        | _ => None
        end
      else None
  | Ev_end_object | Ev_end_array =>
      match stack_ st with
      | [] => None
      | _ :: rest => Some {| values_ := values_ st; stack_ := rest |}
      end
  end.

Fixpoint sax_run (st : BoundedJsonSax) (evs : list sax_event) : option BoundedJsonSax :=
  match evs with
  | [] => Some st
  | ev :: evs' => st' ← sax_step st ev; sax_run st' evs'
  end.
End BoundedSax.

(** The events a document produces. *)
Fixpoint sax_events (v : json) : list sax_event :=
  match v with
  | JNull => [Ev_null]
  | JBool b => [Ev_boolean b]
  | JInteger z => [Ev_number_integer z]
  | JFloat f => [Ev_number_float f]
  | JString s => [Ev_string s]
  | JArray items =>
      Ev_start_array :: concat (map sax_events items) ++ [Ev_end_array]
  | JObject members =>
      Ev_start_object
      :: concat (map (fun '(k, item) => Ev_key k :: sax_events item) members)
      ++ [Ev_end_object]
  end.

(** *** What the validator accepts *)

Fixpoint sum_Z (l : list Z) : Z := match l with [] => 0 | z :: l' => z + sum_Z l' end.
Fixpoint max_Z (l : list Z) : Z := match l with [] => 0 | z :: l' => Z.max z (max_Z l') end.
Fixpoint all_of (l : list Prop) : Prop := match l with [] => True | p :: l' => p /\ all_of l' end.

(** Number of values, keys not counted. *)
Fixpoint json_count (v : json) : Z :=
  match v with
  | JArray items => 1 + sum_Z (map json_count items)
  | JObject members => 1 + sum_Z (map (fun m => json_count m.2) members)
  | _ => 1
  end.

(** Nesting of containers. *)
Fixpoint json_depth (v : json) : Z :=
  match v with
  | JArray items => 1 + max_Z (map json_depth items)
  | JObject members => 1 + max_Z (map (fun m => json_depth m.2) members)
  | _ => 0
  end.

(** Text is UTF-8, numbers are finite, and no object repeats a key. *)
Fixpoint json_clean (v : json) : Prop :=
  match v with
  | JFloat f => isfinite f = true
  | JString s => well_formed_utf8 s
  | JArray items => all_of (map json_clean items)
  | JObject members =>
      NoDup (map fst members) /\ Forall well_formed_utf8 (map fst members) /\
      all_of (map (fun m => json_clean m.2) members)
  | _ => True
  end.

Lemma sum_Z_nonneg l : Forall (Z.le 0) l -> 0 <= sum_Z l.
Proof. induction 1; cbn; lia. Qed.

Lemma max_Z_nonneg l : 0 <= max_Z l.
Proof. induction l; cbn; lia. Qed.

Lemma json_count_pos v : 1 <= json_count v.
Proof.
  induction v as [| | | | |items IH|members IH] using json_nested_ind; cbn; try lia.
  - enough (0 <= sum_Z (map json_count items)) by lia. apply sum_Z_nonneg, Forall_map.
    eapply Forall_impl; [exact IH|]. intros ? H. cbn beta in H. cbn. lia.
  - enough (0 <= sum_Z (map (fun m => json_count m.2) members)) by lia.
    apply sum_Z_nonneg, Forall_map. eapply Forall_impl; [exact IH|].
    intros ? H. cbn beta in H. cbn. lia.
Qed.

Lemma json_depth_nonneg v : 0 <= json_depth v.
Proof.
  destruct v; cbn; try lia.
  - pose proof (max_Z_nonneg (map json_depth items)). lia.
  - pose proof (max_Z_nonneg (map (fun m => json_depth m.2) members)). lia.
Qed.

Lemma json_counts_nonneg items : 0 <= sum_Z (map json_count items).
Proof.
  apply sum_Z_nonneg, Forall_map, Forall_true. intros v.
  pose proof (json_count_pos v). cbn. lia.
Qed.

Lemma member_counts_nonneg (members : list (bytes * json)) :
  0 <= sum_Z (map (fun m => json_count m.2) members).
Proof.
  apply sum_Z_nonneg, Forall_map, Forall_true. intros m.
  pose proof (json_count_pos m.2). cbn. lia.
Qed.

Section BoundedSaxProofs.
Context (max_depth max_values : Z).

Lemma sax_run_app st a b :
  sax_run max_depth max_values st (a ++ b) =
  (st' ← sax_run max_depth max_values st a; sax_run max_depth max_values st' b).
Proof.
  revert st; induction a as [|ev a IH]; intros st; [done|].
  cbn [app sax_run]. destruct (sax_step max_depth max_values st ev); cbn; [apply IH|done].
Qed.

Lemma sax_run_app_Some st a b st' :
  sax_run max_depth max_values st (a ++ b) = Some st' <->
  exists st1, sax_run max_depth max_values st a = Some st1 /\
              sax_run max_depth max_values st1 b = Some st'.
Proof.
  rewrite sax_run_app. destruct (sax_run max_depth max_values st a) as [st1|]; cbn; split.
  - eauto.
  - by intros (? & [= ->] & ?).
  - done.
  - by intros (? & ? & _).
Qed.

Definition sax_state (n : Z) (stack : list (option (gset bytes))) : BoundedJsonSax :=
  {| values_ := n; stack_ := stack |}.

(** The effect of one document on the validator, in a state within limits. *)
Definition sax_accepts (v : json) : Prop :=
  forall n stack st',
    blen stack <= max_depth ->
    sax_run max_depth max_values (sax_state n stack) (sax_events v) = Some st' <->
    json_clean v /\ n + json_count v <= max_values /\
    blen stack + json_depth v <= max_depth /\ st' = sax_state (n + json_count v) stack.

Lemma sax_value_Some n stack st' :
  sax_value max_values (sax_state n stack) = Some st' <->
  n + 1 <= max_values /\ st' = sax_state (n + 1) stack.
Proof.
  unfold sax_value, sax_state. cbn.
  destruct (Z.leb_spec (n + 1) max_values); split; [by intros [= <-]| |done|lia].
  by intros [_ ->].
Qed.

Lemma sax_open_Some frame n stack st' :
  sax_open max_depth max_values frame (sax_state n stack) = Some st' <->
  n + 1 <= max_values /\ blen stack + 1 <= max_depth /\
  st' = sax_state (n + 1) (frame :: stack).
Proof.
  unfold sax_open. split.
  - intros Hb. apply bind_Some in Hb as (st1 & [Hn ->]%sax_value_Some & Hb).
    cbn in Hb. destruct (Z.ltb_spec max_depth (blen stack + 1)); [done|].
    injection Hb as <-. split; [done|]. split; [lia|done].
  - intros (Hn & Hd & ->). assert (sax_value max_values (sax_state n stack) =
      Some (sax_state (n + 1) stack)) as -> by by apply sax_value_Some.
    cbn. by rewrite (proj2 (Z.ltb_ge _ _)) by lia.
Qed.

Lemma sax_items_accepts items :
  Forall sax_accepts items ->
  forall n stack st',
    blen stack <= max_depth ->
    n <= max_values ->
    sax_run max_depth max_values (sax_state n stack) (concat (map sax_events items)) = Some st' <->
    all_of (map json_clean items) /\ n + sum_Z (map json_count items) <= max_values /\
    blen stack + max_Z (map json_depth items) <= max_depth /\
    st' = sax_state (n + sum_Z (map json_count items)) stack.
Proof.
  induction 1 as [|v items Hv _ IH]; intros n stack st' Hd Hn; cbn [map concat all_of sum_Z max_Z].
  - cbn [sax_run]. replace (n + 0) with n by lia. split; [|by intros (_&_&_&->)].
    intros [= <-]. repeat split; lia.
  - rewrite sax_run_app_Some. rewrite Z.add_assoc.
    pose proof (json_counts_nonneg items).
    pose proof (max_Z_nonneg (map json_depth items)).
    split.
    + intros (st1 & (Hc & Hm & Hdep & ->)%Hv & Hrest); [|done].
      apply IH in Hrest as (? & ? & ? & ->); [|lia..]. repeat split; try done; lia.
    + intros ([Hc Hcs] & Hm & Hdep & ->).
      exists (sax_state (n + json_count v) stack). split.
      * apply Hv; [done|]. repeat split; try done; lia.
      * apply IH; [lia|lia|]. repeat split; try done; lia.
Qed.

Lemma sax_key_Some k keys n stack st' :
  sax_step max_depth max_values (sax_state n (Some keys :: stack)) (Ev_key k) = Some st' <->
  well_formed_utf8 k /\ ~ (k ∈ keys) /\ st' = sax_state n (Some ({[k]} ∪ keys) :: stack).
Proof.
  rewrite <- valid_utf8_spec. cbn [sax_step sax_state stack_ values_].
  destruct (valid_utf8 k); [|by split; [|intros (?&_)]].
  case_decide; split; [done|by intros (_&?&_)| |by intros (_&_&->)].
  by intros [= <-].
Qed.

Definition member_events (m : bytes * json) : list sax_event :=
  Ev_key m.1 :: sax_events m.2.

Lemma sax_members_accepts members :
  Forall (fun m => sax_accepts m.2) members ->
  forall n keys stack st',
    blen stack + 1 <= max_depth -> n <= max_values ->
    sax_run max_depth max_values (sax_state n (Some keys :: stack))
      (concat (map member_events members)) = Some st' <->
    (NoDup (map fst members) /\ Forall (fun k => ~ (k ∈ keys)) (map fst members) /\
     Forall well_formed_utf8 (map fst members)) /\
    all_of (map (fun m => json_clean m.2) members) /\
    n + sum_Z (map (fun m => json_count m.2) members) <= max_values /\
    blen stack + 1 + max_Z (map (fun m => json_depth m.2) members) <= max_depth /\
    st' = sax_state (n + sum_Z (map (fun m => json_count m.2) members))
            (Some (list_to_set (rev (map fst members)) ∪ keys) :: stack).
Proof.
  induction 1 as [|[k v] members Hv _ IH]; intros n keys stack st' Hd Hn.
  - cbn [map concat all_of sum_Z max_Z sax_run rev list_to_set].
    replace (n + 0) with n by lia. rewrite union_empty_l_L. split.
    + intros [= <-]. repeat split; try constructor; lia.
    + by intros (_&_&_&_&->).
  - pose proof (max_Z_nonneg (map (fun m => json_depth m.2) members)).
    pose proof (member_counts_nonneg members). cbn [snd] in Hv.
    cbn [map concat all_of sum_Z max_Z fst snd rev]. rewrite Z.add_assoc.
    unfold member_events at 1. cbn [fst snd app sax_run].
    replace (list_to_set (rev (map fst members) ++ [k]) ∪ keys)
      with (list_to_set (rev (map fst members)) ∪ ({[k]} ∪ keys) : gset bytes)
      by (rewrite list_to_set_app_L; cbn; by rewrite union_empty_r_L, (assoc_L (∪))).
    rewrite Forall_cons, Forall_cons, NoDup_cons. split.
    + intros (st1 & (Hk & Hnk & ->)%sax_key_Some & Hrest)%bind_Some.
      apply sax_run_app_Some in Hrest as (st2 & (Hc & Hm & Hdep & ->)%Hv & Hrest);
        [|cbn [length]; lia]. cbn [length] in Hdep.
      apply IH in Hrest as ((Hnd & Hks & Hwf) & Hcs & Hm2 & Hdep2 & ->); [|lia..].
      repeat split; try done; try lia.
      * intros Hin. rewrite Forall_forall in Hks. specialize (Hks _ Hin).
        apply Hks, elem_of_union_l, elem_of_singleton_2. done.
      * eapply Forall_impl; [exact Hks|]. intros x Hx Hin.
        by apply Hx, elem_of_union_r.
    + intros (([Hnin Hnd] & [Hnk Hks] & Hk & Hwf) & [Hc Hcs] & Hm & Hdep & ->).
      apply bind_Some. exists (sax_state n (Some ({[k]} ∪ keys) :: stack)).
      split; [by apply sax_key_Some|]. apply sax_run_app_Some.
      exists (sax_state (n + json_count v) (Some ({[k]} ∪ keys) :: stack)). split.
      * apply Hv; [cbn [length]; lia|]. cbn [length]. repeat split; try done; lia.
      * apply IH; [lia|lia|]. repeat split; try done; try lia.
        rewrite Forall_forall in Hks |- *. intros x Hx.
        rewrite elem_of_union, elem_of_singleton. intros [->|Hin]; [done|].
        by apply (Hks x Hx).
Qed.

Lemma sax_array_accepts items : Forall sax_accepts items -> sax_accepts (JArray items).
Proof.
  intros IH n stack st' Hd. cbn [sax_events json_clean json_count json_depth sax_run sax_step].
  pose proof (max_Z_nonneg (map json_depth items)). pose proof (json_counts_nonneg items).
  rewrite bind_Some, !Z.add_assoc. split.
  - intros (st1 & (H1 & H2 & ->)%sax_open_Some & Hrest).
    apply sax_run_app_Some in Hrest as (st2 & Hitems & Hend).
    apply sax_items_accepts in Hitems as (Hc & Hm & Hdep & ->); [|done|cbn [length]; lia|lia].
    cbn in Hend. injection Hend as <-. cbn [length] in Hdep. repeat split; try done; lia.
  - intros (Hc & Hm & Hdep & ->). exists (sax_state (n + 1) (None :: stack)).
    split; [apply sax_open_Some; repeat split; lia|].
    apply sax_run_app_Some.
    exists (sax_state (n + 1 + sum_Z (map json_count items)) (None :: stack)).
    split; [|done]. apply sax_items_accepts; [done|cbn [length]; lia|lia|].
    cbn [length]. repeat split; try done; lia.
Qed.

Lemma sax_object_accepts members :
  Forall (fun m => sax_accepts m.2) members -> sax_accepts (JObject members).
Proof.
  intros IH n stack st' Hd. cbn [sax_events json_clean json_count json_depth sax_run sax_step].
  pose proof (max_Z_nonneg (map (fun m => json_depth m.2) members)).
  pose proof (member_counts_nonneg members).
  replace (concat _) with (concat (map member_events members))
    by (f_equal; apply map_ext; by intros []).
  rewrite bind_Some, !Z.add_assoc. split.
  - intros (st1 & (H1 & H2 & ->)%sax_open_Some & Hrest).
    apply sax_run_app_Some in Hrest as (st2 & Hitems & Hend).
    apply sax_members_accepts in Hitems as ((Hnd & _ & Hwf) & Hc & Hm & Hdep & ->);
      [|done|lia|lia].
    cbn in Hend. injection Hend as <-. repeat split; try done; lia.
  - intros ((Hnd & Hwf & Hc) & Hm & Hdep & ->). exists (sax_state (n + 1) (Some ∅ :: stack)).
    split; [apply sax_open_Some; repeat split; lia|].
    apply sax_run_app_Some. eexists. split.
    + apply sax_members_accepts; [done|lia|lia|]. repeat split; try done; try lia.
      apply Forall_true. intros k. apply not_elem_of_empty.
    + done.
Qed.

(** A document is accepted exactly when it is clean and within both limits. *)
Lemma sax_events_accepts v : sax_accepts v.
Proof.
  induction v as [| | |f|s|items IH|members IH] using json_nested_ind;
    [| | | | |by apply sax_array_accepts|by apply sax_object_accepts];
    intros n stack st' Hd; cbn [sax_events json_clean json_count json_depth sax_run sax_step];
    [| | |destruct (isfinite f); [|by split; [|intros (?&_)]]
         |rewrite <- valid_utf8_spec; destruct (valid_utf8 s); [|by split; [|intros (?&_)]]];
    rewrite bind_Some;
    (split; [intros (? & [? ->]%sax_value_Some & [= <-]); repeat split; lia|]);
    intros (_ & ? & _ & ->); eexists; (split; [by apply sax_value_Some|done]).
Qed.
End BoundedSaxProofs.

Lemma sax_init_accepts max_depth max_values v :
  0 <= max_depth ->
  is_Some (sax_run max_depth max_values sax_init (sax_events v)) <->
  json_clean v /\ json_count v <= max_values /\ json_depth v <= max_depth.
Proof.
  intros Hd. change sax_init with (sax_state 0 []). split.
  - intros [st Hst]. apply sax_events_accepts in Hst; [|done].
    destruct Hst as (? & ? & ? & _). by cbn in *.
  - intros (? & ? & ?). exists (sax_state (0 + json_count v) []).
    by apply sax_events_accepts.
Qed.

(** ** [parse_bounded_json]

    The tokenizer and the DOM parser are nlohmann's: [json_sax] gives the
    callbacks a text causes, [json_parse] the document.  Documented behaviour:
    a text that parses produces the callbacks of its document, one that does not
    reports a parse error. *)
Class JsonParser := {
  json_sax : bytes -> list sax_event;
  json_parse : bytes -> option json;
}.

Class JsonParserLaws (J : JsonParser) : Prop := {
  json_sax_parse text v : json_parse text = Some v -> json_sax text = sax_events v;
  json_sax_error text : json_parse text = None -> Ev_parse_error ∈ json_sax text;
}.

Definition parse_bounded_json `{JsonParser} (text : bytes)
    (max_bytes max_depth max_values : Z) : res json :=
  if (max_bytes <? blen text) || negb (valid_utf8 text) then
    Throw (InvalidArgument (str "invalid or oversized JSON"))
  else
    match sax_run max_depth max_values sax_init (json_sax text) with
    | None => Throw (InvalidArgument (str "invalid, duplicate-key, or over-complex JSON"))
    | Some _ =>
        match json_parse text with
        | Some v => Ok v
        | None => Throw (InvalidArgument (str "parse_error"))
        end
    end.

Lemma sax_run_error max_depth max_values st evs :
  Ev_parse_error ∈ evs -> sax_run max_depth max_values st evs = None.
Proof.
  rewrite list_elem_of_In. revert st.
  induction evs as [|ev evs IH]; intros st; [done|]. intros [->|Hin]; [done|].
  cbn [sax_run]. destruct (sax_step max_depth max_values st ev); [by apply IH|done].
Qed.

(** ** Properties *)

(** [valid_utf8] accepts exactly the encodings of sequences of Unicode
    scalar values: no overlong form, surrogate, out-of-range value or truncated
    sequence passes, and every well-formed text does.  The loop always ends. *)
Theorem valid_utf8_iff_encoding (s : bytes) :
  valid_utf8 s = true <->
  exists cs, Forall scalar_value cs /\ s = concat (map utf8_encode cs).
Proof. exact (valid_utf8_spec s). Qed.

(** [parse_bounded_json] returns a document exactly when the text is within
    the byte limit, is UTF-8, parses to that document, and the document is clean
    (UTF-8 text, finite numbers, no duplicate key at any level) with at most
    [max_values] values nested at most [max_depth] containers deep. *)
Theorem parse_bounded_json_ok `{JsonParserLaws} (text : bytes)
    (max_bytes max_depth max_values : Z) (Hd : 0 <= max_depth) (v : json) :
  parse_bounded_json text max_bytes max_depth max_values = Ok v <->
  blen text <= max_bytes /\ well_formed_utf8 text /\ json_parse text = Some v /\
  json_clean v /\ json_count v <= max_values /\ json_depth v <= max_depth.
Proof.
  unfold parse_bounded_json. rewrite <- valid_utf8_spec.
  destruct (Z.ltb_spec max_bytes (blen text)); cbn [orb]; [split; [done|lia]|].
  destruct (valid_utf8 text) eqn:Hutf; cbn [negb]; [|by split; [|intros (_&?&_)]].
  destruct (json_parse text) as [v'|] eqn:Hp.
  - rewrite (json_sax_parse _ _ Hp).
    pose proof (sax_init_accepts max_depth max_values v' Hd) as Hacc.
    destruct (sax_run _ _ _ _) as [st|] eqn:Hrun; split.
    + intros [= ->]. apply proj1 in Hacc. by destruct Hacc as (?&?&?); [eexists|].
    + by intros (_ & _ & [= ->] & _).
    + done.
    + intros (_ & _ & [= ->] & Hc). by apply proj2 in Hacc as [st ?].
  - rewrite sax_run_error by by apply json_sax_error. split; [done|].
    by intros (_&_&?&_).
Qed.

(** A parser of one document, for examples. *)
Module ToyJson.
Definition text : bytes := str "[null]".
Definition doc : json := JArray [JNull].

#[export] Instance parser : JsonParser := {|
  json_sax t := if decide (t = text) then sax_events doc else [Ev_parse_error];
  json_parse t := if decide (t = text) then Some doc else None |}.

#[export] Instance parser_laws : JsonParserLaws parser.
Proof.
  split; intros t; simpl; case_decide; try done.
  - by intros v [= <-].
  - intros _. by apply list_elem_of_singleton.
Qed.
End ToyJson.

Import ToyJson.

Lemma parse_bounded_json_ok_witness :
  0 <= 16 /\
  (parse_bounded_json ToyJson.text 100 16 4096 = Ok ToyJson.doc <->
   blen ToyJson.text <= 100 /\ well_formed_utf8 ToyJson.text /\
   json_parse ToyJson.text = Some ToyJson.doc /\ json_clean ToyJson.doc /\
   json_count ToyJson.doc <= 4096 /\ json_depth ToyJson.doc <= 16) /\
  parse_bounded_json ToyJson.text 100 16 4096 = Ok ToyJson.doc.
Proof.
  split; [lia|]. split; [|vm_compute; reflexivity].
  apply parse_bounded_json_ok. lia.
Defined.
