(* ===== verification/Grants.v ===== *)
(** * Sealed grant tokens (src/src/grants.cpp, src/include/vgi_rpc/grants.h)

    Key parsing and validation, the grant payload codec, minting and
    verification.  The AEAD and the digest are the classes of [Crypto]; the
    clocks are arguments.  Verification compares times as IEEE doubles, as the
    code does: [binary64] below is the Standard Library's executable
    specification of that format. *)

From Stdlib Require Import Floats.SpecFloat.
From S2P Require Import Prelude Json Crypto IdentityInternal.

(** ** Constants and data *)

Definition kKidBytes : nat := 8.
Definition kEnvelopeVersion : Z := 1.
Definition kMaxField : Z := 0xFFFF.
Definition kKidDomain : bytes := str "vgi_rpc.grant.kid.v1" ++ [x00].
Definition kAadDomain : bytes := str "vgi_rpc.grant.v1" ++ [x00].
Definition kGrantTokenPrefix : bytes := str "vgig1.".
Definition kGrantKeysEnv : bytes := str "VGI_RPC_GRANT_KEYS".
Definition kGrantAudienceEnv : bytes := str "VGI_RPC_GRANT_AUDIENCE".
Definition kGrantMaxTtlEnv : bytes := str "VGI_RPC_GRANT_MAX_TTL_SECONDS".
Definition kDefaultGrantMaxTtlSeconds : Z := 7 * 24 * 3600.
Definition kDefaultGrantClockSkewSeconds : Z := 60.
Definition kMaxGrantTokenChars : Z := 4096.

Record GrantKeys := {
  gk_keys : list bytes;
  gk_audience : bytes;
  gk_max_ttl_seconds : Z;
  gk_clock_skew_seconds : Z;
}.

Record GrantClaims := {
  principal : bytes;
  scopes : list bytes;
  purpose : bytes;
  grant_id : bytes;
  issued_at : Z;
  expires_at : Z;
}.

Record GrantMintOverrides := {
  ov_now : option Z;
  ov_grant_id : option bytes;
  ov_nonce : option bytes;
}.

Record MintedGrantToken := { mt_token : bytes; mt_claims : GrantClaims }.

(** [throw GrantInvalidError(detail)] and [throw std::invalid_argument(what)]. *)
Definition grant_invalid {A} (detail : string) : res A :=
  Throw (GrantInvalidError (str detail) false).
Definition invalid_argument {A} (what : bytes) : res A := Throw (InvalidArgument what).

(** ** Text decoding *)

(** The characters [" \t\r\n\f\v"]. *)
Definition trim (text : bytes) : bytes := pop_back_while isspace (drop_while isspace text).

Definition standard_b64_value (c : byte) : Z :=
  if in_range c "A" "Z" then b2z c - b2z "A"
  else if in_range c "a" "z" then b2z c - b2z "a" + 26
  else if in_range c "0" "9" then b2z c - b2z "0" + 52
  else if Byte.eqb c "+" then 62
  else if Byte.eqb c "/" then 63
  else -1.

Definition decode_standard_base64 (text : bytes) : option bytes :=
  let stripped := pop_back_while (fun c => Byte.eqb c "=") text in
  let padding := (length text - length stripped)%nat in
  if (length stripped mod 4 =? 1)%nat || (2 <? padding)%nat then None
  else if negb (padding =? 0)%nat && negb ((length stripped + padding) mod 4 =? 0)%nat then None
  else b64_decode_loop standard_b64_value stripped 0 0 [].

Definition is_b64url_char (c : byte) : bool :=
  in_range c "A" "Z" || in_range c "a" "z" || in_range c "0" "9"
  || Byte.eqb c "-" || Byte.eqb c "_".

Definition b64url_strict (text : bytes) : res bytes :=
  if (length text =? 0)%nat || negb (forallb is_b64url_char text)
     || (length text mod 4 =? 1)%nat then
    grant_invalid "grant token is not unpadded base64url"
  else
    match base64url_decode text with
    | None => grant_invalid "grant token is not unpadded base64url"
    | Some raw =>
        if negb (bool_decide (base64url_encode raw = text)) then
          grant_invalid "grant token is not canonical base64url"
        else Ok raw
    end.

(** ** Payload writer *)

Definition put_u16 (out : bytes) (value : Z) : bytes :=
  out ++ [z2b (Z.land value 0xFF); z2b (Z.land (Z.shiftr value 8) 0xFF)].

(** [for (shift = 0; shift < 64; shift += 8)]. *)
Definition put_i64 (out : bytes) (value : Z) : bytes :=
  let bits := u64 value in
  out ++ map (fun i => z2b (Z.land (Z.shiftr bits (8 * Z.of_nat i)) 0xFF)) (seq 0 8).

Definition put_text (out value : bytes) : res bytes :=
  if kMaxField <? blen value then
    invalid_argument (str "grant field longer than 65535 bytes")
  else Ok (put_u16 out (blen value) ++ value).

Fixpoint put_texts (out : bytes) (values : list bytes) : res bytes :=
  match values with
  | [] => Ok out
  | value :: values' => out' ← put_text out value; put_texts out' values'
  end.

Definition encode_grant_payload (claims : GrantClaims) : res bytes :=
  if kMaxField <? blen (scopes claims) then invalid_argument (str "too many scopes")
  else
    let out := put_i64 (put_i64 [] (issued_at claims)) (expires_at claims) in
    out ← put_text out (grant_id claims);
    out ← put_text out (principal claims);
    out ← put_text out (purpose claims);
    put_texts (put_u16 out (blen (scopes claims))) (scopes claims).

(** ** [PayloadReader] *)

(** The methods of the reader over [payload_]: [pos_] is threaded. *)
Definition reader (A : Type) : Type := nat -> res (A * nat).

#[export] Instance reader_ret : MRet reader := fun A a pos => Ok (a, pos).
#[export] Instance reader_bind : MBind reader := fun A B f m pos =>
  match m pos with Ok (a, pos') => f a pos' | Throw e => Throw e end.

Definition reader_throw_if (c : bool) (e : exn) : reader unit := fun pos =>
  if c then Throw e else Ok (tt, pos).

Section PayloadReader.
Context (payload : bytes).

Definition reader_take (n : nat) : reader bytes := fun pos =>
  if (length payload - pos <? n)%nat then grant_invalid "grant payload is truncated"
  else Ok (take n (drop pos payload), (pos + n)%nat).

Definition reader_u16 : reader Z :=
  raw ← reader_take 2;
  mret (Z.lor (b2z (raw !!! 0%nat)) (Z.shiftl (b2z (raw !!! 1%nat)) 8)).

(** [for (i = 7; i >= 0; --i) bits = (bits << 8) | raw[i]]. *)
Definition reader_i64 : reader Z :=
  raw ← reader_take 8;
  mret (i64 (fold_left
               (fun bits i => u64 (Z.lor (Z.shiftl bits 8) (b2z (raw !!! i))))
               (rev (seq 0 8)) 0)).

Definition reader_text : reader bytes :=
  length ← reader_u16;
  value ← reader_take (Z.to_nat length);
  reader_throw_if (negb (valid_utf8 value))
    (GrantInvalidError (str "grant payload is not UTF-8") false) ≫= fun _ =>
  mret value.

Fixpoint reader_texts (count : nat) : reader (list bytes) :=
  match count with
  | O => mret []
  | S count' =>
      value ← reader_text;
      values ← reader_texts count';
      mret (value :: values)
  end.

Definition reader_done (pos : nat) : bool := (pos =? length payload)%nat.

(** The field reads of [decode_grant_payload], in the format's order. *)
Definition read_claims : reader GrantClaims :=
  iat ← reader_i64;
  exp ← reader_i64;
  gid ← reader_text;
  prin ← reader_text;
  purp ← reader_text;
  count ← reader_u16;
  scs ← reader_texts (Z.to_nat count);
  mret {| principal := prin; scopes := scs; purpose := purp; grant_id := gid;
          issued_at := iat; expires_at := exp |}.
End PayloadReader.

Definition decode_grant_payload (payload : bytes) : res GrantClaims :=
  match read_claims payload 0%nat with
  | Throw e => Throw e
  | Ok (claims, pos) =>
      if negb (reader_done payload pos) then grant_invalid "grant payload has trailing bytes"
      else Ok claims
  end.

(** ** Key configuration *)

Section GrantKeyOps.
Context `{Digests}.

(** The first [kKidBytes] of the digest of the domain and the key. *)
Definition grant_key_id (key : bytes) : bytes :=
  take kKidBytes (sha256 (kKidDomain ++ key)).

Definition GrantKeys_validate (self : GrantKeys) : res unit :=
  let ids : gset bytes := list_to_set (map grant_key_id (gk_keys self)) in
  _ ← throw_if (length (gk_keys self) =? 0)%nat
        (InvalidArgument (str "grant configuration needs at least one key"));
  _ ← throw_if (negb (size ids =? length (gk_keys self))%nat)
        (InvalidArgument (str "grant keys must be distinct"));
  _ ← throw_if (gk_max_ttl_seconds self <=? 0)
        (InvalidArgument (str "max_ttl_seconds must be positive"));
  _ ← throw_if (gk_clock_skew_seconds self <? 0)
        (InvalidArgument (str "clock_skew_seconds must not be negative"));
  throw_if (kMaxField <? blen (gk_audience self))
    (InvalidArgument (str "audience is too long")).

(** The loop over the encoded keys; [index] counts from zero. *)
Fixpoint parse_keys (index : Z) (encoded : list bytes) : res (list bytes) :=
  match encoded with
  | [] => Ok []
  | e :: encoded' =>
      let ordinal := str "grant key #" ++ to_string (index + 1) in
      match decode_standard_base64 (trim e) with
      | None => invalid_argument (ordinal ++ str " is not valid base64")
      | Some key =>
          if negb (length key =? kAeadKeyBytes)%nat then
            invalid_argument (ordinal ++ str " decodes to " ++ to_string (blen key)
                              ++ str " bytes; exactly 32 are required")
          else
            keys ← parse_keys (index + 1) encoded';
            Ok (key :: keys)
      end
  end.

Definition GrantKeys_parse (encoded : list bytes) (audience : bytes)
    (max_ttl_seconds clock_skew_seconds : Z) : res GrantKeys :=
  keys ← parse_keys 0 encoded;
  let config := {| gk_keys := keys; gk_audience := audience;
                   gk_max_ttl_seconds := max_ttl_seconds;
                   gk_clock_skew_seconds := clock_skew_seconds |} in
  _ ← GrantKeys_validate config;
  Ok config.

(** [env] is the [getenv] the caller supplies or the process environment. *)
Definition GrantKeys_from_env (env : bytes -> option bytes) : res (option GrantKeys) :=
  let raw := trim (default [] (env kGrantKeysEnv)) in
  match raw with
  | [] => Ok None
  | _ =>
      let ttl_raw := trim (default [] (env kGrantMaxTtlEnv)) in
      max_ttl ←
        match ttl_raw with
        | [] => Ok kDefaultGrantMaxTtlSeconds
        | _ =>
            let '(v, consumed) :=
              default (kDefaultGrantMaxTtlSeconds, 0%nat) (stoll ttl_raw) in
            if negb (consumed =? length ttl_raw)%nat then
              invalid_argument (kGrantMaxTtlEnv ++ str "='" ++ ttl_raw
                                ++ str "' is not an integer")
            else Ok v
        end;
      let parts :=
        filter (fun part => negb (length (trim part) =? 0)%nat)
          (split_on "," raw) in
      config ← GrantKeys_parse parts (default [] (env kGrantAudienceEnv)) max_ttl
                 kDefaultGrantClockSkewSeconds;
      Ok (Some config)
  end.

Definition GrantKeys_aad (self : GrantKeys) (kid : bytes) : bytes :=
  kAadDomain ++ kid ++ gk_audience self.
End GrantKeyOps.

(** ** Doubles

    [static_cast<double>], [+] and the comparisons of IEEE binary64. *)
Definition dbl_add : binary64 -> binary64 -> binary64 := SFadd 53 1024.
Definition dbl_gt (a b : binary64) : bool := SFltb b a.
Definition dbl_ge (a b : binary64) : bool := SFleb b a.

(** ** Minting and verification *)

Section GrantTokens.
Context `{Aead} `{Digests}.

(** The randomness ([random_bytes(16)], the AEAD nonce) and the wall clock are
    arguments. *)
Definition mint_grant_token (random_id random_nonce : bytes) (wall_clock : Z)
    (keys : GrantKeys) (principal : bytes) (scopes : list bytes) (purpose : bytes)
    (ttl_seconds : Z) (overrides : GrantMintOverrides) : res MintedGrantToken :=
  if ttl_seconds <=? 0 then invalid_argument (str "ttl_seconds must be positive")
  else
    match gk_keys keys with
    | [] => invalid_argument (str "grant configuration needs at least one key")
    | key :: _ =>
        let issued := default wall_clock (ov_now overrides) in
        let claims := {|
          principal := principal; scopes := scopes; purpose := purpose;
          grant_id := default (hex_encode random_id) (ov_grant_id overrides);
          issued_at := issued;
          expires_at := issued + Z.min ttl_seconds (gk_max_ttl_seconds keys) |} in
        let kid := grant_key_id key in
        payload ← encode_grant_payload claims;
        let aad := GrantKeys_aad keys kid in
        let sealed :=
          match ov_nonce overrides with
          | Some nonce => aead_seal_with_nonce key payload aad nonce
          | None => aead_seal random_nonce key payload aad
          end in
        let raw := kid ++ [z2b kEnvelopeVersion] ++ sealed in
        Ok {| mt_token := kGrantTokenPrefix ++ base64url_encode raw; mt_claims := claims |}
    end.

(** The loop that selects the key by id. *)
Definition find_key (keys : GrantKeys) (kid : bytes) : option bytes :=
  find (fun candidate => bool_decide (grant_key_id candidate = kid)) (gk_keys keys).

(** The lifetime test: [u64] arithmetic after the ordering check. *)
Definition lifetime_refused (keys : GrantKeys) (claims : GrantClaims) : bool :=
  (expires_at claims <=? issued_at claims)
  || (u64 (gk_max_ttl_seconds keys) <?
      u64 (u64 (expires_at claims) - u64 (issued_at claims))).

Definition not_yet_valid (keys : GrantKeys) (claims : GrantClaims) (current : binary64) : bool :=
  dbl_gt (dbl_of_Z (issued_at claims))
    (dbl_add current (dbl_of_Z (gk_clock_skew_seconds keys))).

Definition has_expired (keys : GrantKeys) (claims : GrantClaims) (current : binary64) : bool :=
  dbl_ge current
    (dbl_add (dbl_of_Z (expires_at claims)) (dbl_of_Z (gk_clock_skew_seconds keys))).

Definition verify_grant_token (wall_clock : binary64) (keys : GrantKeys) (token : bytes)
    (now : option binary64) : res GrantClaims :=
  if negb (bool_decide (take (length kGrantTokenPrefix) token = kGrantTokenPrefix)) then
    grant_invalid "not a sealed grant"
  else if kMaxGrantTokenChars <? blen token then grant_invalid "grant token is too long"
  else
    raw ← b64url_strict (drop (length kGrantTokenPrefix) token);
    let kid := take (Nat.min (length raw) kKidBytes) raw in
    let envelope := if (kKidBytes <? length raw)%nat then drop kKidBytes raw else [] in
    match find_key keys kid with
    | None => grant_invalid "grant was sealed with a key this deployment does not hold"
    | Some key =>
        match envelope with
        | [] => grant_invalid "grant failed verification"
        | version :: sealed =>
            if negb (b2z version =? kEnvelopeVersion) then
              grant_invalid "grant failed verification"
            else
              match aead_open key sealed (GrantKeys_aad keys kid) with
              | None => grant_invalid "grant failed verification"
              | Some payload =>
                  claims ← decode_grant_payload payload;
                  let current := default wall_clock now in
                  if (length (principal claims) =? 0)%nat then
                    grant_invalid "grant names no principal"
                  else if lifetime_refused keys claims then
                    grant_invalid "grant lifetime exceeds this deployment's maximum"
                  else if not_yet_valid keys claims current then
                    Throw (GrantInvalidError (str "grant is not yet valid") true)
                  else if has_expired keys claims current then
                    Throw (GrantInvalidError (str "grant has expired") true)
                  else Ok claims
              end
        end
    end.
End GrantTokens.

(** ** The payload format *)

(** [pos .. pos'] of the payload holds exactly the bytes [chunk]. *)
Definition chunk_at (payload : bytes) (pos : nat) (chunk : bytes) (pos' : nat) : Prop :=
  drop pos payload = chunk ++ drop pos' payload /\
  pos' = (pos + length chunk)%nat /\ (pos' <= length payload)%nat.

Lemma chunk_at_nil payload pos pos' :
  (pos <= length payload)%nat -> chunk_at payload pos [] pos' <-> pos' = pos.
Proof.
  intros Hp. split.
  - intros (_ & -> & _). simpl. lia.
  - intros ->. split; [done|]. split; simpl; lia.
Qed.

Lemma chunk_at_app payload pos c1 c2 pos'' :
  chunk_at payload pos (c1 ++ c2) pos'' <->
  exists pos', chunk_at payload pos c1 pos' /\ chunk_at payload pos' c2 pos''.
Proof.
  unfold chunk_at. rewrite length_app. split.
  - intros (Hd & Hp & Hl). exists (pos + length c1)%nat. rewrite <- app_assoc in Hd.
    assert (drop (pos + length c1) payload = c2 ++ drop pos'' payload) as E.
    { rewrite <- drop_drop, Hd. by apply drop_app_exact. }
    rewrite E. repeat split; try done; lia.
  - intros (pos' & (Hd1 & -> & Hl1) & (Hd2 & -> & Hl2)).
    rewrite Hd1, Hd2, <- app_assoc. repeat split; lia.
Qed.

Lemma chunk_at_bound payload pos chunk pos' :
  chunk_at payload pos chunk pos' -> (pos' <= length payload)%nat.
Proof. by intros (_ & _ & ?). Qed.

Lemma chunk_at_all payload chunk :
  chunk_at payload 0 chunk (length payload) <-> payload = chunk.
Proof.
  unfold chunk_at. rewrite drop_0, drop_all, app_nil_r. split; [by intros (? & _)|].
  intros <-. repeat split; lia.
Qed.

Lemma reader_take_iff payload n pos c pos' :
  (pos <= length payload)%nat ->
  reader_take payload n pos = Ok (c, pos') <->
  length c = n /\ chunk_at payload pos c pos'.
Proof.
  intros Hp. unfold reader_take, chunk_at, grant_invalid.
  destruct (Nat.ltb_spec (length payload - pos) n); split; try done.
  - intros (? & _ & ? & ?). lia.
  - intros [= <- <-]. rewrite length_take, length_drop.
    split; [lia|]. split; [|lia].
    rewrite <- drop_drop. by rewrite take_drop.
  - intros (Hn & Hd & -> & Hl). rewrite Hd, take_app_exact by done. by rewrite Hn.
Qed.

Lemma reader_bind_ok {A B} (m : reader A) (f : A -> reader B) pos b pos' :
  (m ≫= f) pos = Ok (b, pos') <->
  exists a pos1, m pos = Ok (a, pos1) /\ f a pos1 = Ok (b, pos').
Proof.
  unfold mbind, reader_bind. destruct (m pos) as [[a pos1]|e]; split.
  - eauto.
  - by intros (? & ? & [= -> ->] & ?).
  - done.
  - by intros (? & ? & ? & _).
Qed.

Lemma reader_ret_ok {A} (a b : A) pos pos' :
  (mret a : reader A) pos = Ok (b, pos') <-> b = a /\ pos' = pos.
Proof. unfold mret, reader_ret. split; [by intros [= <- <-]|by intros [-> ->]]. Qed.

(** Two bytes as the reader assembles them. *)
Lemma u16_of_bytes (raw : bytes) :
  length raw = 2%nat ->
  Z.lor (b2z (raw !!! 0%nat)) (Z.shiftl (b2z (raw !!! 1%nat)) 8) = le_decode raw.
Proof.
  destruct raw as [|b0 [|b1 [|]]]; try done. intros _. cbn.
  pose proof (b2z_range b0). rewrite (lor_shiftl_add _ _ 8) by lia. lia.
Qed.

Lemma shift_in_byte acc b n :
  0 <= acc < 2 ^ n -> 0 <= n <= 56 -> u64 (Z.lor (Z.shiftl acc 8) (b2z b)) = acc * 256 + b2z b.
Proof.
  intros Ha Hn. pose proof (b2z_range b). rewrite (shiftl_lor_add acc _ 8) by lia.
  apply u64_small. unfold in_u64. split; [lia|].
  assert (acc * 256 + 256 <= 2 ^ n * 256) by nia.
  assert (2 ^ n * 256 = 2 ^ (n + 8)) by (rewrite Z.pow_add_r by lia; lia).
  assert (2 ^ (n + 8) <= 2 ^ 64) by (apply Z.pow_le_mono_r; lia). lia.
Qed.

Lemma i64_of_bytes (raw : bytes) :
  length raw = 8%nat ->
  fold_left (fun bits i => u64 (Z.lor (Z.shiftl bits 8) (b2z (raw !!! i)))) (rev (seq 0 8)) 0
  = le_decode raw.
Proof.
  destruct raw as [|b0 [|b1 [|b2 [|b3 [|b4 [|b5 [|b6 [|b7 [|]]]]]]]]]; try done. intros _.
  cbn [seq rev app fold_left lookup_total list_lookup_total le_decode].
  repeat match goal with |- context [b2z ?x] =>
    unless (0 <= b2z x < 256) by assumption; pose proof (b2z_range x) end.
  rewrite (shift_in_byte 0 b7 0) by lia.
  rewrite (shift_in_byte _ b6 8) by lia. rewrite (shift_in_byte _ b5 16) by lia.
  rewrite (shift_in_byte _ b4 24) by lia. rewrite (shift_in_byte _ b3 32) by lia.
  rewrite (shift_in_byte _ b2 40) by lia. rewrite (shift_in_byte _ b1 48) by lia.
  rewrite (shift_in_byte _ b0 56) by lia. lia.
Qed.

Lemma reader_u16_iff payload pos v pos' :
  (pos <= length payload)%nat ->
  reader_u16 payload pos = Ok (v, pos') <->
  0 <= v < 65536 /\ chunk_at payload pos (le_encode 2 v) pos'.
Proof.
  intros Hp. unfold reader_u16. rewrite reader_bind_ok. split.
  - intros (raw & p1 & [Hlen Hc]%reader_take_iff & [-> ->]%reader_ret_ok); [|done].
    rewrite u16_of_bytes by done. pose proof (le_decode_range raw) as Hr. rewrite Hlen in Hr.
    split; [exact Hr|]. rewrite <- Hlen at 1. by rewrite le_encode_decode.
  - intros [Hv Hc]. exists (le_encode 2 v), pos'.
    rewrite reader_take_iff, reader_ret_ok, u16_of_bytes, le_decode_encode by done.
    rewrite Z.mod_small by (simpl; lia). done.
Qed.

Lemma reader_i64_iff payload pos v pos' :
  (pos <= length payload)%nat ->
  reader_i64 payload pos = Ok (v, pos') <->
  in_i64 v /\ chunk_at payload pos (le_encode 8 (u64 v)) pos'.
Proof.
  intros Hp. unfold reader_i64. rewrite reader_bind_ok. split.
  - intros (raw & p1 & [Hlen Hc]%reader_take_iff & [-> ->]%reader_ret_ok); [|done].
    rewrite i64_of_bytes by done. pose proof (le_decode_range raw) as Hr. rewrite Hlen in Hr.
    split; [apply i64_range|]. rewrite u64_i64 by exact Hr.
    rewrite <- Hlen at 1. by rewrite le_encode_decode.
  - intros [Hv Hc]. exists (le_encode 8 (u64 v)), pos'.
    rewrite reader_take_iff, reader_ret_ok, i64_of_bytes by done.
    rewrite le_decode_encode_u64 by apply u64_range. by rewrite i64_u64.
Qed.

(** A length-prefixed text field. *)
Definition text_chunk (s : bytes) : bytes := le_encode 2 (blen s) ++ s.

(** The layout of a payload. *)
Definition payload_layout (c : GrantClaims) : bytes :=
  le_encode 8 (u64 (issued_at c)) ++ le_encode 8 (u64 (expires_at c)) ++
  text_chunk (grant_id c) ++ text_chunk (principal c) ++ text_chunk (purpose c) ++
  le_encode 2 (blen (scopes c)) ++ concat (map text_chunk (scopes c)).

Definition text_ok (s : bytes) : Prop := blen s <= 65535 /\ valid_utf8 s = true.

(** The claims a payload can carry. *)
Definition claims_ok (c : GrantClaims) : Prop :=
  in_i64 (issued_at c) /\ in_i64 (expires_at c) /\
  text_ok (grant_id c) /\ text_ok (principal c) /\ text_ok (purpose c) /\
  blen (scopes c) <= 65535 /\ Forall text_ok (scopes c).

Lemma reader_text_iff payload pos s pos' :
  (pos <= length payload)%nat ->
  reader_text payload pos = Ok (s, pos') <->
  text_ok s /\ chunk_at payload pos (text_chunk s) pos'.
Proof.
  intros Hp. unfold reader_text, text_chunk, text_ok, reader_throw_if.
  rewrite reader_bind_ok, chunk_at_app. split.
  - intros (n & p1 & [Hn Hc1]%reader_u16_iff & H); [|done].
    pose proof (chunk_at_bound _ _ _ _ Hc1).
    apply reader_bind_ok in H as (v & p2 & [Hlen Hc2]%reader_take_iff & H); [|done].
    apply reader_bind_ok in H as (u & p3 & Hu & [-> ->]%reader_ret_ok).
    destruct (valid_utf8 v) eqn:Hv; cbn in Hu; [|done]. injection Hu as _ ->.
    assert (blen v = n) as E by lia. split; [split; [lia|done]|]. rewrite E. eauto.
  - intros ([Hlen Hv] & p1 & Hc1 & Hc2). pose proof (chunk_at_bound _ _ _ _ Hc1).
    exists (blen s), p1. rewrite reader_u16_iff by done. split; [split; [lia|done]|].
    apply reader_bind_ok. exists s, pos'. rewrite reader_take_iff by done.
    split; [split; [lia|done]|]. apply reader_bind_ok. exists tt, pos'.
    rewrite Hv. split; [done|]. by apply reader_ret_ok.
Qed.

Lemma reader_texts_iff payload n pos l pos' :
  (pos <= length payload)%nat ->
  reader_texts payload n pos = Ok (l, pos') <->
  length l = n /\ Forall text_ok l /\ chunk_at payload pos (concat (map text_chunk l)) pos'.
Proof.
  revert pos l pos'; induction n as [|n IH]; intros pos l pos' Hp; cbn [reader_texts].
  - rewrite reader_ret_ok. split.
    + intros [-> ->]. split; [done|]. split; [done|]. by apply chunk_at_nil.
    + destruct l; [|by intros (? & _)]. intros (_ & _ & Hc).
      by apply chunk_at_nil in Hc as ->.
  - rewrite reader_bind_ok. split.
    + intros (s & p1 & [Hs Hc1]%reader_text_iff & H); [|done].
      pose proof (chunk_at_bound _ _ _ _ Hc1).
      apply reader_bind_ok in H as (l' & p2 & (Hl & Hall & Hc2)%IH & [-> ->]%reader_ret_ok);
        [|done].
      cbn [map concat length]. rewrite Forall_cons, chunk_at_app. eauto 10.
    + intros (Hl & Hall & Hc). destruct l as [|s l]; [done|].
      apply Forall_cons in Hall as [Hs Hall]. cbn [map concat] in Hc.
      apply chunk_at_app in Hc as (p1 & Hc1 & Hc2). pose proof (chunk_at_bound _ _ _ _ Hc1).
      exists s, p1. rewrite reader_text_iff by done. split; [done|].
      apply reader_bind_ok. exists l, pos'. rewrite IH, reader_ret_ok by done.
      injection Hl as Hl. done.
Qed.

(** A reader that accepts the encodings [enc a] of the [a] with [P a], and only
    them. *)
Definition reads {A} (payload : bytes) (m : reader A) (P : A -> Prop) (enc : A -> bytes) : Prop :=
  forall pos a pos', (pos <= length payload)%nat ->
    m pos = Ok (a, pos') <-> P a /\ chunk_at payload pos (enc a) pos'.

Lemma reads_bind {A B} payload (m : reader A) P enc (f : A -> reader B) pos b pos' :
  reads payload m P enc -> (pos <= length payload)%nat ->
  (m ≫= f) pos = Ok (b, pos') <->
  exists a pos1, P a /\ chunk_at payload pos (enc a) pos1 /\
    (pos1 <= length payload)%nat /\ f a pos1 = Ok (b, pos').
Proof.
  intros Hm Hp. rewrite reader_bind_ok. split.
  - intros (a & p1 & H & Hf). apply Hm in H as [Ha Hc]; [|done].
    pose proof (chunk_at_bound _ _ _ _ Hc). eauto 10.
  - intros (a & p1 & Ha & Hc & _ & Hf). exists a, p1. by rewrite (Hm pos a p1 Hp).
Qed.

Lemma reads_i64 payload :
  reads payload (reader_i64 payload) in_i64 (fun v => le_encode 8 (u64 v)).
Proof. intros pos a pos'. apply reader_i64_iff. Qed.

Lemma reads_u16 payload :
  reads payload (reader_u16 payload) (fun v => 0 <= v < 65536) (le_encode 2).
Proof. intros pos a pos'. apply reader_u16_iff. Qed.

Lemma reads_text payload : reads payload (reader_text payload) text_ok text_chunk.
Proof. intros pos a pos'. apply reader_text_iff. Qed.

Lemma reads_texts payload n :
  reads payload (reader_texts payload n) (fun l => length l = n /\ Forall text_ok l)
    (fun l => concat (map text_chunk l)).
Proof. intros pos a pos' Hp. rewrite reader_texts_iff by done. by rewrite (assoc and). Qed.

(** Supplies the next field to the reader. *)
Ltac next_field lem :=
  apply (reads_bind _ _ _ _ _ _ _ _ lem);
  [first [assumption|eapply chunk_at_bound; eassumption]|];
  do 2 eexists; split; [|split; [eassumption|split; [eapply chunk_at_bound; eassumption|]]].

Lemma read_claims_iff payload pos c pos' :
  (pos <= length payload)%nat ->
  read_claims payload pos = Ok (c, pos') <->
  claims_ok c /\ chunk_at payload pos (payload_layout c) pos'.
Proof.
  intros Hp. unfold read_claims, payload_layout, claims_ok. split.
  - intros H.
    apply (reads_bind _ _ _ _ _ _ _ _ (reads_i64 payload)) in H as (i & ? & ? & ? & ? & H); [|done].
    apply (reads_bind _ _ _ _ _ _ _ _ (reads_i64 payload)) in H as (e & ? & ? & ? & ? & H); [|done].
    apply (reads_bind _ _ _ _ _ _ _ _ (reads_text payload)) in H as (g & ? & ? & ? & ? & H); [|done].
    apply (reads_bind _ _ _ _ _ _ _ _ (reads_text payload)) in H as (p & ? & ? & ? & ? & H); [|done].
    apply (reads_bind _ _ _ _ _ _ _ _ (reads_text payload)) in H as (u & ? & ? & ? & ? & H); [|done].
    apply (reads_bind _ _ _ _ _ _ _ _ (reads_u16 payload)) in H as (n & ? & ? & ? & ? & H); [|done].
    apply (reads_bind _ _ _ _ _ _ _ _ (reads_texts payload _)) in H
      as (l & ? & [Hl ?] & ? & ? & [-> ->]%reader_ret_ok); [|done].
    cbn [issued_at expires_at grant_id principal purpose scopes].
    cbn beta in *. assert (blen l = n) as -> by lia.
    split; [split_and!; try done; lia|].
    repeat (apply chunk_at_app; eexists; split; [eassumption|]). done.
  - intros ((Hi & He & Hg & Hpr & Hu & Hn & Hs) & Hc).
    repeat (apply chunk_at_app in Hc as (? & ? & Hc)).
    next_field (reads_i64 payload); [done|]. next_field (reads_i64 payload); [done|].
    next_field (reads_text payload); [done|]. next_field (reads_text payload); [done|].
    next_field (reads_text payload); [done|]. next_field (reads_u16 payload); [lia|].
    next_field (reads_texts payload (Z.to_nat (blen (scopes c)))).
    { split; [lia|done]. }
    apply reader_ret_ok. by destruct c.
Qed.

Lemma put_u16_le out v : 0 <= v < 65536 -> put_u16 out v = out ++ le_encode 2 v.
Proof.
  intros Hv. unfold put_u16. f_equal. cbn [le_encode]. rewrite Z.shiftr_div_pow2 by lia.
  change 0xFF with (2 ^ 8 - 1). rewrite !land_ones_mod by lia.
  change (2 ^ 8) with 256. by rewrite !z2b_mod.
Qed.

Lemma put_i64_le out v : put_i64 out v = out ++ le_encode 8 (u64 v).
Proof.
  unfold put_i64. f_equal. set (b := u64 v). cbn [seq map le_encode].
  assert (forall n, 0 <= n -> z2b (Z.land (Z.shiftr b n) 0xFF) = z2b (b / 2 ^ n)) as E.
  { intros n Hn. change 0xFF with (2 ^ 8 - 1). rewrite land_ones_mod by lia.
    change (2 ^ 8) with 256. by rewrite z2b_mod, Z.shiftr_div_pow2. }
  rewrite !E by lia. rewrite !Z.div_div by lia. cbn. by rewrite Z.div_1_r.
Qed.

Lemma put_text_ok out s :
  blen s <= 65535 -> put_text out s = Ok (out ++ text_chunk s).
Proof.
  intros Hs. unfold put_text, kMaxField, text_chunk.
  rewrite (proj2 (Z.ltb_ge _ _)) by lia. rewrite put_u16_le by lia. by rewrite <- app_assoc.
Qed.

Lemma put_texts_ok out l :
  Forall text_ok l -> put_texts out l = Ok (out ++ concat (map text_chunk l)).
Proof.
  intros Hl. revert out; induction Hl as [|s l [Hs _] _ IH]; intros out; cbn [put_texts map concat].
  - by rewrite app_nil_r.
  - rewrite put_text_ok by done. cbn. by rewrite IH, <- app_assoc.
Qed.

Lemma encode_grant_payload_ok c :
  claims_ok c -> encode_grant_payload c = Ok (payload_layout c).
Proof.
  intros (_ & _ & [Hg _] & [Hp _] & [Hu _] & Hn & Hs).
  unfold encode_grant_payload, kMaxField, payload_layout.
  rewrite (proj2 (Z.ltb_ge _ _)) by lia.
  rewrite put_text_ok by done. cbn [mbind res_bind]. rewrite put_text_ok by done. cbn [mbind res_bind].
  rewrite put_text_ok by done. cbn [mbind res_bind].
  rewrite put_texts_ok, put_u16_le, !put_i64_le by (done || lia).
  by rewrite app_nil_l, <- !app_assoc.
Qed.

Lemma decode_grant_payload_iff payload c :
  decode_grant_payload payload = Ok c <-> claims_ok c /\ payload = payload_layout c.
Proof.
  unfold decode_grant_payload, reader_done, grant_invalid.
  assert (forall pos', read_claims payload 0%nat = Ok (c, pos') <->
    claims_ok c /\ chunk_at payload 0 (payload_layout c) pos') as Hiff
    by (intros; apply read_claims_iff; lia).
  rewrite <- chunk_at_all. split.
  - destruct (read_claims payload 0%nat) as [[c' pos']|e] eqn:E; [|done].
    destruct (Nat.eqb_spec pos' (length payload)) as [->|]; cbn; [|done].
    intros [= ->]. by apply Hiff.
  - intros H. apply Hiff in H as ->. by rewrite Nat.eqb_refl.
Qed.

(** ** Token text *)

Lemma is_b64url_char_value c : is_b64url_char c = true <-> 0 <= b64url_value c.
Proof. destruct c; vm_compute; split; congruence. Qed.

Lemma b64_encode_length_mod data : (length (base64url_encode data) mod 4 =? 1)%nat = false.
Proof. rewrite encode_sextets, length_map. apply sextets_length. Qed.

Lemma b64_encode_nil data : base64url_encode data = [] <-> data = [].
Proof.
  split; [|by intros ->]. intros H. apply (f_equal base64url_decode) in H.
  rewrite b64_decode_encode in H. by injection H.
Qed.

(** The strict decoder accepts the encoder's output and nothing else. *)
Lemma b64url_strict_iff text raw :
  b64url_strict text = Ok raw <-> text = base64url_encode raw /\ raw <> [].
Proof.
  unfold b64url_strict, grant_invalid. split.
  - destruct (_ || _ || _) eqn:E; [done|]. bool_to_prop.
    destruct (base64url_decode text) as [r|] eqn:Ed; [|done].
    case_bool_decide as Hr; cbn; [|done]. intros [= ->]. split; [done|].
    intros ->. by subst text.
  - intros [-> Hne].
    destruct (Nat.eqb_spec (length (base64url_encode raw)) 0) as [E|_].
    { apply length_zero_iff_nil in E. by apply (proj1 (b64_encode_nil raw)) in E. }
    rewrite b64_encode_length_mod, b64_decode_encode, bool_decide_true by done.
    rewrite (proj2 (List.forallb_forall _ _)); [done|].
    intros c Hc. pose proof (b64_encode_alphabet raw) as Ha. rewrite List.Forall_forall in Ha.
    by apply is_b64url_char_value, Ha.
Qed.

(** The lifetime test does not overflow: it is the comparison on integers. *)
Lemma lifetime_refused_iff keys claims :
  in_i64 (issued_at claims) -> in_i64 (expires_at claims) ->
  0 <= gk_max_ttl_seconds keys < 2 ^ 63 ->
  lifetime_refused keys claims = false <->
  issued_at claims < expires_at claims /\
  expires_at claims - issued_at claims <= gk_max_ttl_seconds keys.
Proof.
  unfold lifetime_refused, in_i64. intros Hi He Hm. rewrite orb_false_iff, Z.leb_gt, Z.ltb_ge.
  rewrite (u64_small (gk_max_ttl_seconds keys)) by (unfold in_u64; lia).
  assert (issued_at claims < expires_at claims ->
    u64 (u64 (expires_at claims) - u64 (issued_at claims)) =
    expires_at claims - issued_at claims) as E.
  { intros. unfold u64. rewrite <- Zminus_mod. apply Z.mod_small. lia. }
  split; intros [H1 H2]; (split; [done|]); rewrite E in *; done.
Qed.

Section TokenProofs.
Context `{AeadLaws} `{DigestLaws}.

(** The text of a token sealed with [key]. *)
Definition sealed_token (keys : GrantKeys) (key nonce payload : bytes) : bytes :=
  let kid := grant_key_id key in
  kGrantTokenPrefix ++ base64url_encode
    (kid ++ [z2b kEnvelopeVersion] ++
     aead_seal_with_nonce key payload (GrantKeys_aad keys kid) nonce).

Lemma grant_key_id_length key : length (grant_key_id key) = kKidBytes.
Proof. unfold grant_key_id. rewrite length_take, sha256_length. done. Qed.

Lemma find_key_id keys kid key : find_key keys kid = Some key -> grant_key_id key = kid.
Proof.
  unfold find_key. intros E. apply List.find_some in E as [_ E]. by bool_to_prop.
Qed.

Lemma find_key_in keys kid key : find_key keys kid = Some key -> In key (gk_keys keys).
Proof. unfold find_key. intros E. by apply List.find_some in E as [? _]. Qed.

(** What verification demands of the claims and the clock. *)
Definition claims_accepted (keys : GrantKeys) (current : binary64) (c : GrantClaims) : Prop :=
  principal c <> [] /\ issued_at c < expires_at c /\
  expires_at c - issued_at c <= gk_max_ttl_seconds keys /\
  not_yet_valid keys c current = false /\ has_expired keys c current = false.

Definition check_claims (keys : GrantKeys) (current : binary64) (c : GrantClaims) :
    res GrantClaims :=
  if (length (principal c) =? 0)%nat then grant_invalid "grant names no principal"
  else if lifetime_refused keys c then
    grant_invalid "grant lifetime exceeds this deployment's maximum"
  else if not_yet_valid keys c current then
    Throw (GrantInvalidError (str "grant is not yet valid") true)
  else if has_expired keys c current then
    Throw (GrantInvalidError (str "grant has expired") true)
  else Ok c.

Lemma check_claims_iff keys current c c' :
  0 <= gk_max_ttl_seconds keys < 2 ^ 63 -> claims_ok c ->
  check_claims keys current c = Ok c' <-> c' = c /\ claims_accepted keys current c.
Proof.
  intros Hm (Hi & He & _). unfold check_claims, claims_accepted, grant_invalid.
  pose proof (lifetime_refused_iff keys c Hi He Hm) as Hl.
  destruct (Nat.eqb_spec (length (principal c)) 0) as [E|E].
  { apply length_zero_iff_nil in E. by split; [|intros (_&?&_)]. }
  assert (principal c <> []) by (by intros E'; rewrite E' in E).
  destruct (lifetime_refused keys c).
  { split; [done|]. intros (_ & _ & H2 & H3 & _). by assert (true = false) by by apply Hl. }
  destruct Hl as [Hl _]. destruct (Hl eq_refl).
  destruct (not_yet_valid keys c current); [by split; [|intros (_&_&_&_&?&_)]|].
  destruct (has_expired keys c current); [by split; [|intros (_&_&_&_&_&?)]|].
  split; [intros [= <-]; done|by intros [-> _]].
Qed.

Lemma take_prefix_iff (p t : bytes) : take (length p) t = p <-> exists r, t = p ++ r.
Proof.
  split.
  - intros E. exists (drop (length p) t). by rewrite <- E at 1; rewrite take_drop.
  - intros [r ->]. by apply take_app_exact.
Qed.

(** Splitting the decoded bytes as verification does. *)
Lemma split_raw (raw : bytes) key v sealed :
  grant_key_id key = take (Nat.min (length raw) kKidBytes) raw ->
  (if (kKidBytes <? length raw)%nat then drop kKidBytes raw else []) = v :: sealed ->
  raw = grant_key_id key ++ v :: sealed.
Proof.
  destruct (Nat.ltb_spec kKidBytes (length raw)); [|done].
  rewrite Nat.min_r by lia. intros -> <-. by rewrite take_drop.
Qed.

Lemma join_raw key (env : bytes) :
  env <> [] ->
  let raw := grant_key_id key ++ env in
  take (Nat.min (length raw) kKidBytes) raw = grant_key_id key /\
  (if (kKidBytes <? length raw)%nat then drop kKidBytes raw else []) = env.
Proof.
  intros Henv raw. subst raw. rewrite length_app, grant_key_id_length.
  assert (length env <> 0)%nat by (by intros E%length_zero_iff_nil).
  rewrite Nat.min_r by lia. rewrite (proj2 (Nat.ltb_lt _ _)) by lia.
  by rewrite take_app_exact, drop_app_exact by by rewrite grant_key_id_length.
Qed.

Lemma verify_grant_token_iff keys token now wall c :
  0 <= gk_max_ttl_seconds keys < 2 ^ 63 ->
  verify_grant_token wall keys token now = Ok c <->
  exists key nonce,
    find_key keys (grant_key_id key) = Some key /\ length nonce = kAeadNonceBytes /\
    token = sealed_token keys key nonce (payload_layout c) /\
    blen token <= kMaxGrantTokenChars /\ claims_ok c /\
    claims_accepted keys (default wall now) c.
Proof.
  intros Hm. unfold verify_grant_token. unfold grant_invalid at 1 2. split.
  - case_bool_decide as Hpre; cbn [negb]; [|done].
    destruct (Z.ltb_spec kMaxGrantTokenChars (blen token)); [done|].
    apply take_prefix_iff in Hpre as [r ->]. rewrite drop_app_exact by done.
    intros (raw & [-> Hne]%b64url_strict_iff & Hv)%res_bind_ok.
    set (kid := take (Nat.min (length raw) kKidBytes) raw) in *.
    destruct (find_key keys kid) as [key|] eqn:Hfind; [|done].
    pose proof (find_key_id _ _ _ Hfind) as Hid.
    destruct (if (kKidBytes <? length raw)%nat then _ else _) as [|v sealed] eqn:Henv; [done|].
    apply (split_raw _ key) in Henv; [|done].
    destruct (Z.eqb_spec (b2z v) kEnvelopeVersion) as [Hver|]; cbn [negb] in Hv; [|done].
    destruct (aead_open key sealed (GrantKeys_aad keys kid)) as [payload|] eqn:Hopen; [|done].
    apply res_bind_ok in Hv as (c' & [Hok ->]%decode_grant_payload_iff & Hc).
    apply (check_claims_iff _ _ _ _ Hm Hok) in Hc as [-> Hacc].
    apply aead_open_inv in Hopen as [Hseal Hlen].
    exists key, (take kAeadNonceBytes sealed). rewrite Hid. split; [done|].
    split; [rewrite length_take; unfold kAeadNonceBytes, kAeadTagBytes in *; lia|].
    split; [|done]. unfold sealed_token. rewrite Hid, <- Hseal.
    rewrite <- Hver, z2b_b2z. cbn [app]. by rewrite Henv, Hid at 1.
  - intros (key & nonce & Hfind & Hn & -> & Hlen & Hok & Hacc).
    unfold sealed_token in *. rewrite take_app_exact, bool_decide_true by done. cbn [negb].
    rewrite (proj2 (Z.ltb_ge _ _)) by done. rewrite drop_app_exact by done.
    apply res_bind_ok. eexists. split; [apply b64url_strict_iff; split; [done|]|].
    { intros E. apply (f_equal length) in E. rewrite length_app, grant_key_id_length in E.
      unfold kKidBytes in E. simpl in E. lia. }
    destruct (join_raw key ([z2b kEnvelopeVersion] ++
      aead_seal_with_nonce key (payload_layout c) (GrantKeys_aad keys (grant_key_id key)) nonce))
      as [E1 E2]; [done|]. cbv zeta. rewrite E1, E2, Hfind. cbn [app].
    rewrite aead_open_seal by done. apply res_bind_ok. exists c.
    split; [by apply decode_grant_payload_iff|]. by apply (check_claims_iff keys _ c c Hm Hok).
Qed.

Lemma find_key_front keys key rest :
  gk_keys keys = key :: rest -> find_key keys (grant_key_id key) = Some key.
Proof. intros E. unfold find_key. rewrite E. cbn. by rewrite bool_decide_true. Qed.

(** What minting returns when it returns. *)
Lemma mint_grant_token_inv rid rnonce wall keys prin scps purp ttl ov minted :
  mint_grant_token rid rnonce wall keys prin scps purp ttl ov = Ok minted ->
  claims_ok (mt_claims minted) ->
  exists key rest,
    gk_keys keys = key :: rest /\ 0 < ttl /\
    mt_token minted = sealed_token keys key (default rnonce (ov_nonce ov))
                        (payload_layout (mt_claims minted)) /\
    principal (mt_claims minted) = prin /\
    expires_at (mt_claims minted) =
      issued_at (mt_claims minted) + Z.min ttl (gk_max_ttl_seconds keys).
Proof.
  unfold mint_grant_token, invalid_argument.
  destruct (Z.leb_spec ttl 0); [done|].
  destruct (gk_keys keys) as [|key rest] eqn:Hk; [done|].
  intros (payload & Hp & Hm)%res_bind_ok Hok. injection Hm as <-. cbn in Hok.
  rewrite encode_grant_payload_ok in Hp by done. injection Hp as <-.
  exists key, rest. split; [done|]. split; [done|]. cbn. unfold sealed_token.
  by destruct (ov_nonce ov).
Qed.
End TokenProofs.

(** ** Configuration *)

Section ConfigProofs.
Context `{Digests}.

Lemma parse_keys_length i encoded keys :
  parse_keys i encoded = Ok keys ->
  length keys = length encoded /\ Forall (fun k => length k = kAeadKeyBytes) keys.
Proof.
  revert i keys; induction encoded as [|e encoded IH]; intros i keys; cbn [parse_keys].
  - intros [= <-]. by split.
  - unfold invalid_argument. destruct (decode_standard_base64 (trim e)) as [key|]; [|done].
    destruct (Nat.eqb_spec (length key) kAeadKeyBytes); cbn [negb]; [|done].
    intros (keys' & Hk & [= <-])%res_bind_ok. apply IH in Hk as [Hl Hf].
    split; [cbn; by rewrite Hl|by constructor].
Qed.

Lemma GrantKeys_validate_iff self :
  GrantKeys_validate self = Ok tt <->
  gk_keys self <> [] /\ NoDup (map grant_key_id (gk_keys self)) /\
  0 < gk_max_ttl_seconds self /\ 0 <= gk_clock_skew_seconds self /\
  blen (gk_audience self) <= kMaxField.
Proof.
  unfold GrantKeys_validate. rewrite !throw_if_then, throw_if_ok.
  assert (size (list_to_set (map grant_key_id (gk_keys self)) : gset bytes) =
    length (gk_keys self) <-> NoDup (map grant_key_id (gk_keys self))) as Hnd.
  { rewrite <- (length_map grant_key_id (gk_keys self)). split.
    - intros E. apply NoDup_ListNoDup.
      apply (List.NoDup_incl_NoDup
        (l := elements (list_to_set (map grant_key_id (gk_keys self)) : gset bytes))).
      + apply NoDup_ListNoDup, NoDup_elements.
      + unfold size, set_size in E. cbn in E. lia.
      + intros x. rewrite <- !list_elem_of_In, elem_of_elements, elem_of_list_to_set. done.
    - intros Hn. by rewrite size_list_to_set. }
  rewrite negb_false_iff, !Nat.eqb_eq, Hnd.
  rewrite Nat.eqb_neq, Z.leb_gt, !Z.ltb_ge, length_zero_iff_nil. done.
Qed.
End ConfigProofs.

(** ** Properties *)

(** The grant payload codec.  A payload decodes to claims exactly when the
    claims are representable (64-bit times, UTF-8 fields and scopes of at most
    65535 bytes, at most 65535 scopes) and encoding them gives back that very
    payload: every claim round trips and every payload has one spelling. *)
Theorem grant_payload_codec (payload : bytes) (c : GrantClaims) :
  decode_grant_payload payload = Ok c <->
  claims_ok c /\ encode_grant_payload c = Ok payload.
Proof.
  rewrite decode_grant_payload_iff. split; intros [Hok E]; split; try done.
  - by rewrite encode_grant_payload_ok, E.
  - rewrite encode_grant_payload_ok in E by done. by injection E.
Qed.

(** C40: what verification accepts.  [verify_grant_token] returns claims exactly
    when the token is the canonical text of those claims sealed under a key the
    configuration selects by its id, with the audience bound in, is at most 4096
    characters, and the claims name a principal, have a positive lifetime of at
    most [max_ttl_seconds] (computed without overflow) and hold at the given
    time within the skew. *)
Theorem verify_grant_token_accepts `{AeadLaws} `{DigestLaws}
    (keys : GrantKeys) (token : bytes) (now : option binary64) (wall : binary64)
    (c : GrantClaims) (Hm : 0 <= gk_max_ttl_seconds keys < 2 ^ 63) :
  verify_grant_token wall keys token now = Ok c <->
  exists key nonce payload,
    find_key keys (grant_key_id key) = Some key /\ length nonce = kAeadNonceBytes /\
    token = sealed_token keys key nonce payload /\ encode_grant_payload c = Ok payload /\
    blen token <= kMaxGrantTokenChars /\ claims_ok c /\
    claims_accepted keys (default wall now) c.
Proof.
  rewrite verify_grant_token_iff by done. split.
  - intros (key & nonce & ? & ? & ? & ? & Hok & ?).
    exists key, nonce, (payload_layout c). by rewrite encode_grant_payload_ok.
  - intros (key & nonce & payload & ? & ? & Ht & He & ? & Hok & ?).
    rewrite encode_grant_payload_ok in He by done. injection He as <-. eauto 10.
Qed.

(** Minting then verifying returns the minted claims, for every key set whose
    first key mints, any principal, scopes and purpose that are UTF-8, while the
    clock is inside the grant's window and the text fits. *)
Theorem mint_then_verify `{AeadLaws} `{DigestLaws}
    (rid rnonce : bytes) (wall : Z) (keys : GrantKeys) (prin : bytes) (scps : list bytes)
    (purp : bytes) (ttl : Z) (ov : GrantMintOverrides) (minted : MintedGrantToken)
    (wall' : binary64) (now : option binary64)
    (Hmint : mint_grant_token rid rnonce wall keys prin scps purp ttl ov = Ok minted)
    (Hnonce : length (default rnonce (ov_nonce ov)) = kAeadNonceBytes)
    (Hok : claims_ok (mt_claims minted)) (Hprin : prin <> [])
    (Hm : 0 < gk_max_ttl_seconds keys < 2 ^ 63)
    (Hlen : blen (mt_token minted) <= kMaxGrantTokenChars)
    (Hny : not_yet_valid keys (mt_claims minted) (default wall' now) = false)
    (Hex : has_expired keys (mt_claims minted) (default wall' now) = false) :
  verify_grant_token wall' keys (mt_token minted) now = Ok (mt_claims minted).
Proof.
  destruct (mint_grant_token_inv _ _ _ _ _ _ _ _ _ _ Hmint Hok)
    as (key & rest & Hk & Httl & Htok & Hp & He).
  apply verify_grant_token_iff; [lia|].
  exists key, (default rnonce (ov_nonce ov)).
  split; [by eapply find_key_front|]. do 4 (split; [done|]).
  unfold claims_accepted. rewrite Hp. split_and!; try done; lia.
Qed.

(** A parsed key configuration is valid: at least one key, as many as were
    given, each of 32 bytes, with distinct key ids, a positive maximum lifetime,
    a non-negative skew and an audience of at most 65535 bytes. *)
Theorem grant_keys_parse_valid `{Digests} (encoded : list bytes) (audience : bytes)
    (ttl skew : Z) (config : GrantKeys)
    (Hparse : GrantKeys_parse encoded audience ttl skew = Ok config) :
  gk_keys config <> [] /\ length (gk_keys config) = length encoded /\
  Forall (fun k => length k = kAeadKeyBytes) (gk_keys config) /\
  NoDup (map grant_key_id (gk_keys config)) /\ NoDup (gk_keys config) /\
  0 < gk_max_ttl_seconds config /\ 0 <= gk_clock_skew_seconds config /\
  blen (gk_audience config) <= kMaxField.
Proof.
  unfold GrantKeys_parse in Hparse. inv_res. subst config.
  match goal with H : parse_keys _ _ = Ok _ |- _ => apply parse_keys_length in H as [Hl Hf] end.
  match goal with u : unit |- _ => destruct u end.
  match goal with H : GrantKeys_validate _ = Ok tt |- _ =>
    apply GrantKeys_validate_iff in H as (Hne & Hnd & ? & ? & ?) end.
  cbn in *. split_and!; try done. by apply NoDup_fmap_1 in Hnd.
Qed.

(** *** Concrete runs *)

Import Toy.

Definition example_keys : GrantKeys := {|
  gk_keys := [replicate 32 x01; replicate 32 x02]; gk_audience := str "aud";
  gk_max_ttl_seconds := 3600; gk_clock_skew_seconds := 60 |}.

Definition example_claims : GrantClaims := {|
  principal := str "alice"; scopes := [str "read"]; purpose := str "p";
  grant_id := str "g1"; issued_at := 1000; expires_at := 1300 |}.

Definition example_overrides : GrantMintOverrides := {|
  ov_now := Some 1000; ov_grant_id := Some (str "g1"); ov_nonce := Some (replicate 24 x07) |}.

Definition example_token : bytes :=
  Eval vm_compute in sealed_token example_keys (replicate 32 x01) (replicate 24 x07)
                       (payload_layout example_claims).

Ltac concrete_text := split; [vm_compute; congruence|vm_compute; reflexivity].

Lemma example_claims_ok : claims_ok example_claims.
Proof.
  unfold claims_ok. split_and!; try (unfold in_i64; cbn; lia); try concrete_text.
  apply Forall_singleton. concrete_text.
Qed.

Lemma example_verifies :
  verify_grant_token (dbl_of_Z 0) example_keys example_token (Some (dbl_of_Z 1000)) =
  Ok example_claims.
Proof. vm_compute. reflexivity. Qed.

Lemma verify_grant_token_accepts_witness :
  0 <= gk_max_ttl_seconds example_keys < 2 ^ 63 /\
  exists key nonce payload,
    find_key example_keys (grant_key_id key) = Some key /\ length nonce = kAeadNonceBytes /\
    example_token = sealed_token example_keys key nonce payload /\
    encode_grant_payload example_claims = Ok payload /\
    blen example_token <= kMaxGrantTokenChars /\ claims_ok example_claims /\
    claims_accepted example_keys (dbl_of_Z 1000) example_claims.
Proof.
  split; [split; [vm_compute; congruence|vm_compute; reflexivity]|].
  apply (verify_grant_token_accepts example_keys example_token (Some (dbl_of_Z 1000)) (dbl_of_Z 0)).
  - split; [vm_compute; congruence|vm_compute; reflexivity].
  - apply example_verifies.
Defined.

Definition example_minted : MintedGrantToken :=
  {| mt_token := example_token; mt_claims := example_claims |}.

Lemma mint_then_verify_witness :
  mint_grant_token [] [] 0 example_keys (str "alice") [str "read"] (str "p") 300
    example_overrides = Ok example_minted /\
  verify_grant_token (dbl_of_Z 0) example_keys example_token (Some (dbl_of_Z 1000)) =
    Ok example_claims.
Proof.
  assert (mint_grant_token [] [] 0 example_keys (str "alice") [str "read"] (str "p") 300
    example_overrides = Ok example_minted) as Hm by (vm_compute; reflexivity).
  split; [exact Hm|].
  apply (mint_then_verify [] [] 0 example_keys (str "alice") [str "read"] (str "p") 300
    example_overrides example_minted (dbl_of_Z 0) (Some (dbl_of_Z 1000)) Hm).
  - vm_compute; reflexivity.
  - apply example_claims_ok.
  - discriminate.
  - split; [vm_compute; reflexivity|vm_compute; reflexivity].
  - vm_compute; congruence.
  - vm_compute; reflexivity.
  - vm_compute; reflexivity.
Defined.

(** The standard base64 of 32 zero bytes. *)
Definition example_encoded_key : bytes := replicate 43 "A"%byte ++ [("="%byte)].

Lemma grant_keys_parse_valid_witness :
  exists config,
    GrantKeys_parse [example_encoded_key] (str "aud") 3600 60 = Ok config /\
    gk_keys config <> [] /\ length (gk_keys config) = 1%nat /\
    Forall (fun k => length k = kAeadKeyBytes) (gk_keys config) /\
    NoDup (map grant_key_id (gk_keys config)) /\ NoDup (gk_keys config) /\
    0 < gk_max_ttl_seconds config /\ 0 <= gk_clock_skew_seconds config /\
    blen (gk_audience config) <= kMaxField.
Proof.
  assert (GrantKeys_parse [example_encoded_key] (str "aud") 3600 60 =
    Ok {| gk_keys := [replicate 32 x00]; gk_audience := str "aud";
          gk_max_ttl_seconds := 3600; gk_clock_skew_seconds := 60 |}) as Hp
    by (vm_compute; reflexivity).
  eexists. split; [exact Hp|]. exact (grant_keys_parse_valid _ _ _ _ _ Hp).
Defined.
