(* ===== verification/Errors.v ===== *)
(** * The error model (src/src/errors.cpp, make_error_metadata of src/src/result.cpp)

    Codes, the detail catalog and its JSON, the exceptions that carry the
    model, the metadata of an EXCEPTION batch as a server builds it, and the
    model as a client reads it off that metadata. *)

From Stdlib Require Import Floats.SpecFloat.
From S2P Require Import Prelude Json Arrow.

(** ** Codes *)

Inductive Code :=
  | CANCELLED | UNKNOWN | INVALID_ARGUMENT | DEADLINE_EXCEEDED | NOT_FOUND | ALREADY_EXISTS
  | PERMISSION_DENIED | RESOURCE_EXHAUSTED | FAILED_PRECONDITION | ABORTED | OUT_OF_RANGE
  | UNIMPLEMENTED | INTERNAL | UNAVAILABLE | DATA_LOSS | UNAUTHENTICATED.

#[export] Instance Code_eq_decision : EqDecision Code.
Proof. solve_decision. Defined.

Definition kCodes : list (Code * bytes) :=
  [ (CANCELLED, str "CANCELLED"); (UNKNOWN, str "UNKNOWN");
    (INVALID_ARGUMENT, str "INVALID_ARGUMENT"); (DEADLINE_EXCEEDED, str "DEADLINE_EXCEEDED");
    (NOT_FOUND, str "NOT_FOUND"); (ALREADY_EXISTS, str "ALREADY_EXISTS");
    (PERMISSION_DENIED, str "PERMISSION_DENIED"); (RESOURCE_EXHAUSTED, str "RESOURCE_EXHAUSTED");
    (FAILED_PRECONDITION, str "FAILED_PRECONDITION"); (ABORTED, str "ABORTED");
    (OUT_OF_RANGE, str "OUT_OF_RANGE"); (UNIMPLEMENTED, str "UNIMPLEMENTED");
    (INTERNAL, str "INTERNAL"); (UNAVAILABLE, str "UNAVAILABLE"); (DATA_LOSS, str "DATA_LOSS");
    (UNAUTHENTICATED, str "UNAUTHENTICATED") ].

Definition code_name (code : Code) : bytes :=
  match List.find (fun entry => bool_decide (entry.1 = code)) kCodes with
  | Some entry => entry.2
  | None => str "UNKNOWN"
  end.

Definition code_from_name (name : bytes) : option Code :=
  option_map fst (List.find (fun entry => bool_decide (name = entry.2)) kCodes).

Definition parse_code (name : bytes) : Code := default UNKNOWN (code_from_name name).

Definition kKinds : list (bytes * Code) :=
  [ (str "method_not_implemented", UNIMPLEMENTED); (str "protocol_not_supported", UNIMPLEMENTED);
    (str "protocol_not_specified", INVALID_ARGUMENT);
    (str "protocol_version_mismatch", FAILED_PRECONDITION); (str "session_lost", ABORTED);
    (str "server_draining", UNAVAILABLE); (str "identity_unavailable", UNAVAILABLE);
    (str "stale_auth", UNAUTHENTICATED); (str "introspection_refused", PERMISSION_DENIED);
    (str "grant_refused", PERMISSION_DENIED); (str "token_unresolved", NOT_FOUND) ].

Definition default_error_code (exception_type kind : bytes) : Code :=
  if negb (length kind =? 0)%nat then
    match List.find (fun entry => bool_decide (kind = entry.1)) kKinds with
    | Some entry => entry.2
    | None => UNKNOWN
    end
  else if bool_decide (exception_type = str "ResponseTooLargeError") then RESOURCE_EXHAUSTED
  else if bool_decide (exception_type = str "AuthUnavailableError") then UNAVAILABLE
  else UNKNOWN.

(** ** The detail catalog *)

Record FieldViolation := { fv_field : bytes; fv_description : bytes }.
Record PreconditionViolation :=
  { pv_type : bytes; pv_subject : bytes; pv_description : bytes }.
Record QuotaViolation := { qv_subject : bytes; qv_description : bytes }.
Record HelpLink := { hl_description : bytes; hl_url : bytes }.

Inductive ErrorDetail :=
  | ErrorInfo (metadata : gmap bytes bytes)
  | RetryInfo (retry_delay_seconds : binary64)
  | BadRequest (field_violations : list FieldViolation)
  | PreconditionFailure (violations : list PreconditionViolation)
  | QuotaFailure (violations : list QuotaViolation)
  | ResourceInfo (resource_type resource_name owner description : bytes)
  | Help (links : list HelpLink)
  | LocalizedMessage (locale message : bytes).

Definition TYPE (d : ErrorDetail) : bytes :=
  match d with
  | ErrorInfo _ => str "vgi_rpc.ErrorInfo"
  | RetryInfo _ => str "vgi_rpc.RetryInfo"
  | BadRequest _ => str "vgi_rpc.BadRequest"
  | PreconditionFailure _ => str "vgi_rpc.PreconditionFailure"
  | QuotaFailure _ => str "vgi_rpc.QuotaFailure"
  | ResourceInfo _ _ _ _ => str "vgi_rpc.ResourceInfo"
  | Help _ => str "vgi_rpc.Help"
  | LocalizedMessage _ _ => str "vgi_rpc.LocalizedMessage"
  end.

(** [None] is [return false]. *)
Definition read_str (obj : json) (key : bytes) : option bytes :=
  match jfind obj key with
  | None => Some []
  | Some (JString s) => Some s
  | Some _ => None
  end.

Definition read_objects (obj : json) (key : bytes) : option (list json) :=
  match jfind obj key with
  | None => Some []
  | Some (JArray items) => if forallb is_object items then Some items else None
  | Some _ => None
  end.

(** The value of a finite [double] with no fractional part: [floor(x) == x]. *)
Definition integral_value (f : binary64) : option Z :=
  match f with
  | S754_zero _ => Some 0
  | S754_finite s m e =>
      let v :=
        if 0 <=? e then Some (Z.pos m * 2 ^ e)
        else if Z.pos m mod 2 ^ (- e) =? 0 then Some (Z.pos m / 2 ^ (- e)) else None in
      option_map (fun v => if (s : bool) then - v else v) v
  | _ => None
  end.

Definition delay_value (seconds : binary64) : json :=
  match integral_value seconds with
  | Some v => if Z.abs v <? 9 * 10 ^ 15 then JInteger v else JFloat seconds
  | None => JFloat seconds
  end.

Definition typed (d : ErrorDetail) (ms : members) : json :=
  jobject ((str "@type", JString (TYPE d)) :: ms).

(** [to_json] of each catalog type. *)
Definition detail_to_json (d : ErrorDetail) : json :=
  match d with
  | ErrorInfo metadata =>
      typed d [(str "metadata",
                jobject (map (fun kv => (kv.1, JString kv.2)) (map_to_list metadata)))]
  | RetryInfo seconds => typed d [(str "retry_delay_seconds", delay_value seconds)]
  | BadRequest field_violations =>
      typed d [(str "field_violations", JArray (map (fun v =>
        jobject [(str "field", JString (fv_field v));
                 (str "description", JString (fv_description v))]) field_violations))]
  | PreconditionFailure violations =>
      typed d [(str "violations", JArray (map (fun v =>
        jobject [(str "type", JString (pv_type v)); (str "subject", JString (pv_subject v));
                 (str "description", JString (pv_description v))]) violations))]
  | QuotaFailure violations =>
      typed d [(str "violations", JArray (map (fun v =>
        jobject [(str "subject", JString (qv_subject v));
                 (str "description", JString (qv_description v))]) violations))]
  | ResourceInfo resource_type resource_name owner description =>
      typed d [(str "resource_type", JString resource_type);
               (str "resource_name", JString resource_name); (str "owner", JString owner);
               (str "description", JString description)]
  | Help links =>
      typed d [(str "links", JArray (map (fun v =>
        jobject [(str "description", JString (hl_description v)); (str "url", JString (hl_url v))])
        links))]
  | LocalizedMessage locale message =>
      typed d [(str "locale", JString locale); (str "message", JString message)]
  end.

(** The loop over [it->items()] in [ErrorInfo::from_json]. *)
Fixpoint read_string_members (ms : members) (out : gmap bytes bytes) : option (gmap bytes bytes) :=
  match ms with
  | [] => Some out
  | (k, JString v) :: ms' => read_string_members ms' (<[k := v]> out)
  | _ => None
  end.

(** A loop that reads one record from each item. *)
Fixpoint read_all {X} (read : json -> option X) (items : list json) : option (list X) :=
  match items with
  | [] => Some []
  | item :: items' => x ← read item; xs ← read_all read items'; Some (x :: xs)
  end.

Definition ErrorInfo_from_json (obj : json) : option ErrorDetail :=
  match jfind obj (str "metadata") with
  | None => Some (ErrorInfo ∅)
  | Some (JObject ms) => option_map ErrorInfo (read_string_members ms ∅)
  | Some _ => None
  end.

Definition RetryInfo_from_json (obj : json) : option ErrorDetail :=
  value ← match jfind obj (str "retry_delay_seconds") with
          | Some (JInteger z) => Some (dbl_of_Z z)
          | Some (JFloat f) => Some f
          | _ => None
          end;
  if negb (isfinite value) || SFltb value (S754_zero false) then None else Some (RetryInfo value).

Definition BadRequest_from_json (obj : json) : option ErrorDetail :=
  items ← read_objects obj (str "field_violations");
  vs ← read_all (fun item =>
    f ← read_str item (str "field"); d ← read_str item (str "description");
    Some {| fv_field := f; fv_description := d |}) items;
  Some (BadRequest vs).

Definition PreconditionFailure_from_json (obj : json) : option ErrorDetail :=
  items ← read_objects obj (str "violations");
  vs ← read_all (fun item =>
    t ← read_str item (str "type"); s ← read_str item (str "subject");
    d ← read_str item (str "description");
    Some {| pv_type := t; pv_subject := s; pv_description := d |}) items;
  Some (PreconditionFailure vs).

Definition QuotaFailure_from_json (obj : json) : option ErrorDetail :=
  items ← read_objects obj (str "violations");
  vs ← read_all (fun item =>
    s ← read_str item (str "subject"); d ← read_str item (str "description");
    Some {| qv_subject := s; qv_description := d |}) items;
  Some (QuotaFailure vs).

Definition ResourceInfo_from_json (obj : json) : option ErrorDetail :=
  t ← read_str obj (str "resource_type"); n ← read_str obj (str "resource_name");
  o ← read_str obj (str "owner"); d ← read_str obj (str "description");
  Some (ResourceInfo t n o d).

Definition Help_from_json (obj : json) : option ErrorDetail :=
  items ← read_objects obj (str "links");
  vs ← read_all (fun item =>
    d ← read_str item (str "description"); u ← read_str item (str "url");
    Some {| hl_description := d; hl_url := u |}) items;
  Some (Help vs).

Definition LocalizedMessage_from_json (obj : json) : option ErrorDetail :=
  l ← read_str obj (str "locale"); m ← read_str obj (str "message");
  Some (LocalizedMessage l m).

Definition in_catalog (type : bytes) : bool :=
  bool_decide (type = str "vgi_rpc.ErrorInfo") || bool_decide (type = str "vgi_rpc.RetryInfo")
  || bool_decide (type = str "vgi_rpc.BadRequest")
  || bool_decide (type = str "vgi_rpc.PreconditionFailure")
  || bool_decide (type = str "vgi_rpc.QuotaFailure")
  || bool_decide (type = str "vgi_rpc.ResourceInfo") || bool_decide (type = str "vgi_rpc.Help")
  || bool_decide (type = str "vgi_rpc.LocalizedMessage").

Definition parse_error_detail (obj : json) : option ErrorDetail :=
  if negb (is_object obj) then None
  else
    match jfind obj (str "@type") with
    | Some (JString type) =>
        if bool_decide (type = str "vgi_rpc.ErrorInfo") then ErrorInfo_from_json obj
        else if bool_decide (type = str "vgi_rpc.RetryInfo") then RetryInfo_from_json obj
        else if bool_decide (type = str "vgi_rpc.BadRequest") then BadRequest_from_json obj
        else if bool_decide (type = str "vgi_rpc.PreconditionFailure") then
          PreconditionFailure_from_json obj
        else if bool_decide (type = str "vgi_rpc.QuotaFailure") then QuotaFailure_from_json obj
        else if bool_decide (type = str "vgi_rpc.ResourceInfo") then ResourceInfo_from_json obj
        else if bool_decide (type = str "vgi_rpc.Help") then Help_from_json obj
        else if bool_decide (type = str "vgi_rpc.LocalizedMessage") then
          LocalizedMessage_from_json obj
        else None
    | _ => None
    end.

(** ** Detail arrays *)

Definition kReservedProtocolPrefix : bytes := str "vgi_rpc.".
Definition kMaxErrorDetailsBytes : Z := 4096.

(** [s.rfind(prefix, 0) == 0]. *)
Definition starts_with (prefix s : bytes) : bool :=
  bool_decide (take (length prefix) s = prefix).

(** The loop of [error_details_valid] over the elements; [seen] is the set. *)
Fixpoint details_loop (seen : gset bytes) (details : list json) : bool :=
  match details with
  | [] => true
  | obj :: details' =>
      if negb (is_object obj) then false
      else
        match jfind obj (str "@type") with
        | Some (JString type) =>
            if (length type =? 0)%nat then false
            else if bool_decide (type ∈ seen) then false
            else if starts_with kReservedProtocolPrefix type && negb (in_catalog type) then false
            else if negb (bool_decide ("."%byte ∈ type)) then false
            else details_loop ({[type]} ∪ seen) details'
        | _ => false
        end
  end.

Definition error_details_valid (details : json) : bool :=
  match details with JArray items => details_loop ∅ items | _ => false end.

Section text.
Context {J : JsonText}.

Definition encode_error_details (details : json) : option bytes :=
  match details with
  | JArray (_ :: _) =>
      if negb (error_details_valid details) then None
      else
        match json_dump details with
        | None => None
        | Some text => if kMaxErrorDetailsBytes <? blen text then None else Some text
        end
  | _ => None
  end.

Definition decode_error_details (raw : bytes) : json :=
  match parse_text raw with
  | Some (JArray items) => JArray (List.filter is_object items)
  | _ => JArray []
  end.

Definition is_retry_info (d : option ErrorDetail) : bool :=
  match d with Some (RetryInfo _) => true | _ => false end.

Definition is_retryable (code : bytes) (details : json) : bool :=
  let parsed := parse_code code in
  if bool_decide (parsed = UNAVAILABLE) then true
  else if bool_decide (parsed = RESOURCE_EXHAUSTED) then
    match details with
    | JArray items => existsb (fun obj => is_retry_info (parse_error_detail obj)) items
    | _ => false
    end
  else false.

(** ** Exceptions

    The classes a handler can throw, as [exception_type_of] tells them apart:
    [EKinded] is any [KindedError], [EOther] any other [std::exception]. *)

Inductive exception :=
  | EKinded (kind type what : bytes) (code : Code) (details : json)
  | EInvalidArgument (what : bytes)
  | EOutOfRange (what : bytes)
  | ELogicError (what : bytes)
  | EOther (what : bytes).

Definition ex_what (e : exception) : bytes :=
  match e with
  | EKinded _ _ what _ _ | EInvalidArgument what | EOutOfRange what | ELogicError what
  | EOther what => what
  end.

(** The two constructors of [KindedError]. *)
Definition KindedError_full (kind type what : bytes) (code : Code) (details : json) : exception :=
  EKinded kind type what code (match details with JArray _ => details | _ => JArray [] end).
Definition KindedError (kind type what : bytes) : exception :=
  KindedError_full kind type what (default_error_code type kind) (JArray []).

Definition validated (details : json) : res json :=
  match details with
  | JArray _ =>
      if negb (error_details_valid details) then
        Throw (InvalidArgument (str "error details break a catalog rule: every detail must name a qualified '@type', each type may appear once, and the reserved 'vgi_rpc.' prefix holds only the catalog (a protocol-defined type lives under its own protocol's name)"))
      else Ok details
  | _ => Throw (InvalidArgument (str "error details must be a JSON array of objects"))
  end.

Definition details_json (details : list ErrorDetail) : json := JArray (map detail_to_json details).

Definition StatusError (message : bytes) (code : Code) (kind : bytes) (details : json)
    : res exception :=
  d ← validated details; Ok (KindedError_full kind (str "StatusError") message code d).

Definition AuthUnavailableError (detail : bytes) (retry_after : Z) : exception :=
  KindedError_full [] (str "AuthUnavailableError")
    (match detail with [] => str "authentication service unavailable" | _ => detail end)
    UNAVAILABLE (JArray [detail_to_json (RetryInfo (dbl_of_Z retry_after))]).

(** [PeerIdentityUnavailable] of identity.h, derived from it, with the default hint. *)
Definition PeerIdentityUnavailableError (what : bytes) : exception :=
  KindedError_full [] (str "PeerIdentityUnavailable")
    (match what with [] => str "authentication service unavailable" | _ => what end)
    UNAVAILABLE (JArray [detail_to_json (RetryInfo (dbl_of_Z 5))]).

Definition ProtocolError (what : bytes) : exception := KindedError [] (str "ProtocolError") what.
Definition SessionLostError (what : bytes) : exception :=
  KindedError (str "session_lost") (str "SessionLostError") what.
Definition ServerDrainingError (what : bytes) (retry_after : binary64) : exception :=
  KindedError_full (str "server_draining") (str "ServerDrainingError") what UNAVAILABLE
    (JArray [detail_to_json (RetryInfo retry_after)]).

Definition exception_type_of (e : exception) : bytes :=
  match e with
  | EKinded _ type _ _ _ => type
  | EInvalidArgument _ => str "ValueError"
  | EOutOfRange _ => str "IndexError"
  | ELogicError _ => str "TypeError"
  | EOther _ => str "RuntimeError"
  end.

Definition error_kind_of (e : exception) : bytes :=
  match e with EKinded kind _ _ _ _ => kind | _ => [] end.

Definition error_code_of (e : exception) : Code :=
  match e with EKinded _ _ _ code _ => code | _ => UNKNOWN end.

Definition error_details_of (e : exception) : json :=
  match e with EKinded _ _ _ _ details => details | _ => JArray [] end.

Record ErrorExtras := { ee_code : bytes; ee_details : json; ee_traceback : bytes }.

Definition no_extras : ErrorExtras := {| ee_code := []; ee_details := JArray []; ee_traceback := [] |}.

Definition error_extras_of (e : exception) (traceback : bytes) : ErrorExtras :=
  {| ee_code := code_name (error_code_of e); ee_details := error_details_of e;
     ee_traceback := traceback |}.

Definition newline : byte := x0a.

Definition cpp_traceback (exception_type message where_ : bytes) : bytes :=
  str "Traceback (C++ exception; no stack captured):" ++ [newline]
  ++ (match where_ with [] => [] | _ => str "  in " ++ where_ ++ [newline] end)
  ++ exception_type ++ str ": " ++ message.

(** ** The metadata of an EXCEPTION batch *)

(** [json::parse] and [get] throw classes that are none of the above. *)
Definition json_error {X} : res X := Throw (RuntimeError (str "json")).

Definition wire_safe_text (text : bytes) : res bytes :=
  match parse_text (json_dump_replace (JString text)) with
  | Some (JString s) => Ok s
  | _ => json_error
  end.

(** [detail::TracebackScope]: [include] and [where]. *)
Record TracebackScope := { ts_include : bool; ts_where : bytes }.

Definition synthesized_traceback (scope : option TracebackScope)
    (exception_type message traceback : bytes) : bytes :=
  match traceback with
  | [] =>
      match scope with
      | Some sc => if ts_include sc then cpp_traceback exception_type message (ts_where sc) else []
      | None => []
      end
  | _ => traceback
  end.

Definition nonempty (s : bytes) : bool := negb (length s =? 0)%nat.

Definition append_if (c : bool) (md : kv_list) (key value : bytes) : kv_list :=
  if c then Append md key value else md.

(** The [log_extra] object. *)
Definition error_extra (safe_type safe_message code safe_kind : bytes) (details : option json)
    (traceback : option bytes) : json :=
  jobject ([(str "exception_type", JString safe_type);
            (str "exception_message", JString safe_message);
            (str "error_code", JString code)]
           ++ (if nonempty safe_kind then [(str "error_kind", JString safe_kind)] else [])
           ++ (match details with Some d => [(str "error_details", d)] | None => [] end)
           ++ (match traceback with Some t => [(str "traceback", JString t)] | None => [] end)).

(** [code_name] is settled first, from the explicit code or the table. *)
Definition error_code_text (exception_type error_kind : bytes) (extras : ErrorExtras) : bytes :=
  if nonempty (ee_code extras) then code_name (parse_code (ee_code extras))
  else code_name (default_error_code exception_type error_kind).

(** The metadata, with the object whose text is its [log_extra]. *)
Definition build_error_metadata (scope : option TracebackScope)
    (exception_type message server_id request_id error_kind : bytes) (extras : ErrorExtras)
    : res (kv_list * json) :=
  safe_exception_type ← wire_safe_text exception_type;
  safe_message ← wire_safe_text message;
  safe_kind ← wire_safe_text error_kind;
  let code := error_code_text exception_type error_kind extras in
  let details := encode_error_details (ee_details extras) in
  let md := Append [] LOG_LEVEL (str "EXCEPTION") in
  let md := Append md LOG_MESSAGE safe_message in
  let traceback := synthesized_traceback scope exception_type message (ee_traceback extras) in
  safe_traceback ← (if nonempty traceback then t ← wire_safe_text traceback; Ok (Some t)
                    else Ok None);
  let extra := error_extra safe_exception_type safe_message code safe_kind
                 (option_map (fun _ => ee_details extras) details) safe_traceback in
  match json_dump extra with
  | None => json_error
  | Some extra_text =>
      let md := Append md LOG_EXTRA extra_text in
      let md := append_if (nonempty server_id) md SERVER_ID server_id in
      let md := append_if (nonempty request_id) md REQUEST_ID request_id in
      let md := Append md ERROR_CODE code in
      let md := append_if (nonempty safe_kind) md ERROR_KIND safe_kind in
      let md := match details with Some d => Append md ERROR_DETAILS d | None => md end in
      Ok (md, extra)
  end.

Definition make_error_metadata (scope : option TracebackScope)
    (exception_type message server_id request_id error_kind : bytes) (extras : ErrorExtras)
    : res kv_list :=
  '(md, _) ← build_error_metadata scope exception_type message server_id request_id error_kind extras;
  Ok md.

Definition make_exception_metadata (scope : option TracebackScope) (e : exception)
    (server_id request_id traceback : bytes) : res kv_list :=
  make_error_metadata scope (exception_type_of e) (ex_what e) server_id request_id
    (error_kind_of e) (error_extras_of e traceback).

(** ** The client side *)

Record RemoteStatus := {
  rs_error_code : bytes;
  rs_error_kind : bytes;
  rs_error_details : json;
  rs_traceback : bytes;
}.

Definition new_RemoteStatus (code kind : bytes) (details : json) (traceback : bytes) : RemoteStatus :=
  {| rs_error_code := code; rs_error_kind := kind;
     rs_error_details := match details with JArray _ => details | _ => JArray [] end;
     rs_traceback := traceback |}.

Definition mirrored (extra : json) (key : bytes) : bytes :=
  match jfind extra key with Some (JString s) => s | _ => [] end.

Definition decode_remote_status `{KeyValueMetadata} (metadata : metadata) (extra : json)
    : RemoteStatus :=
  let top key := match metadata with None => None | Some md => find_value md key end in
  let code := default (mirrored extra (str "error_code")) (top ERROR_CODE) in
  let kind := default (mirrored extra (str "error_kind")) (top ERROR_KIND) in
  let details :=
    match top ERROR_DETAILS with
    | Some raw => decode_error_details raw
    | None =>
        match jfind extra (str "error_details") with
        | Some (JArray items) => JArray (List.filter is_object items)
        | _ => JArray []
        end
    end in
  new_RemoteStatus code kind details (mirrored extra (str "traceback")).

(** [RemoteStatus::details]. *)
Definition RemoteStatus_details (s : RemoteStatus) : list ErrorDetail :=
  match rs_error_details s with
  | JArray items => omap parse_error_detail items
  | _ => []
  end.

(** [RemoteStatus::first<T>], with the alternative as a test. *)
Definition first_detail (is_T : ErrorDetail -> bool) (s : RemoteStatus) : option ErrorDetail :=
  match rs_error_details s with
  | JArray items =>
      (fix go items :=
         match items with
         | [] => None
         | obj :: items' =>
             match parse_error_detail obj with
             | Some d => if is_T d then Some d else go items'
             | None => go items'
             end
         end) items
  | _ => None
  end.

Definition RemoteStatus_code (s : RemoteStatus) : Code := parse_code (rs_error_code s).
Definition RemoteStatus_is_retryable (s : RemoteStatus) : bool :=
  is_retryable (rs_error_code s) (rs_error_details s).
End text.

(** ** Lemmas *)

Lemma code_from_code_name c : code_from_name (code_name c) = Some c.
Proof. by destruct c. Qed.

Lemma parse_code_name c : parse_code (code_name c) = c.
Proof. unfold parse_code. by rewrite code_from_code_name. Qed.

Lemma find_member_eq k v ms : find_member ((k, v) :: ms) k = Some v.
Proof. cbn [find_member]. by rewrite decide_True. Qed.

Lemma find_member_ne k v ms k' : k <> k' -> find_member ((k, v) :: ms) k' = find_member ms k'.
Proof. intros. cbn [find_member]. by rewrite decide_False. Qed.

Lemma find_member_nil k : find_member [] k = None.
Proof. done. Qed.

Create Rewrite HintDb json.
#[export] Hint Rewrite jobject_find find_member_eq find_member_nil : json.
#[export] Hint Rewrite find_member_ne using discriminate : json.

Lemma read_str_obj ms key s :
  find_member ms key = Some (JString s) -> read_str (jobject ms) key = Some s.
Proof. intros E. unfold read_str. by rewrite jobject_find, E. Qed.

Lemma read_objects_obj {X} ms key (f : X -> members) xs :
  find_member ms key = Some (JArray (map (fun x => jobject (f x)) xs)) ->
  read_objects (jobject ms) key = Some (map (fun x => jobject (f x)) xs).
Proof.
  intros E. unfold read_objects. rewrite jobject_find, E.
  assert (forallb is_object (map (fun x => jobject (f x)) xs) = true) as ->; [|done].
  clear E. induction xs as [|x xs IH]; [done|]. exact IH.
Qed.

Lemma read_all_map {X} (f : X -> json) (read : json -> option X) xs :
  (forall x, read (f x) = Some x) -> read_all read (map f xs) = Some xs.
Proof.
  intros H. induction xs as [|x xs IH]; cbn [map read_all]; [done|]. by rewrite H, IH.
Qed.

(** Reading an object of strings back into a map. *)
Lemma read_string_members_map l out :
  read_string_members (map (fun kv => (kv.1, JString kv.2)) l) out =
    Some (foldl (fun m kv => <[kv.1 := kv.2]> m) out l).
Proof. revert out; induction l as [|[k v] l IH]; intros out; [done|]. apply IH. Qed.

Lemma foldl_insert_union (l : list (bytes * bytes)) (out : gmap bytes bytes) :
  NoDup l.*1 -> foldl (fun m kv => <[kv.1 := kv.2]> m) out l = list_to_map l ∪ out.
Proof.
  revert out; induction l as [|[k v] l IH]; intros out Hnd; cbn [foldl].
  - by rewrite list_to_map_nil, (left_id_L ∅ (∪)).
  - rewrite fmap_cons, NoDup_cons in Hnd. destruct Hnd as [Hk Hnd]. cbn [fst snd] in *.
    rewrite IH by done. rewrite list_to_map_cons, <- insert_union_l, <- insert_union_r; [done|].
    by apply not_elem_of_list_to_map_1.
Qed.

Lemma read_string_members_sorted (m : gmap bytes bytes) :
  read_string_members (sort_members (map (fun kv => (kv.1, JString kv.2)) (map_to_list m))) ∅ =
    Some m.
Proof.
  set (g := fun kv : bytes * bytes => (kv.1, JString kv.2)).
  assert (forall l : list (bytes * bytes), (map g l).*1 = l.*1) as Hkeys.
  { intros l. change (map g l) with (g <$> l). rewrite <- list_fmap_compose. done. }
  assert (NoDup (map_to_list m).*1) as Hnd by apply NoDup_fst_map_to_list.
  assert (sort_members (map g (map_to_list m)) ≡ₚ map g (map_to_list m)) as Hp
    by (apply sort_members_perm; by rewrite Hkeys).
  apply Permutation_map_inv in Hp as (l & -> & Hl).
  rewrite read_string_members_map, foldl_insert_union, (right_id_L ∅ (∪)).
  - f_equal. rewrite <- (list_to_map_to_list m). apply list_to_map_proper; [by rewrite <- Hl|done].
  - by rewrite <- Hl.
Qed.

(** A delay a client accepts, after its trip as a JSON number. *)
Definition delay_read (f : binary64) : binary64 :=
  match delay_value f with JInteger z => dbl_of_Z z | _ => f end.

Definition detail_ok (d : ErrorDetail) : Prop :=
  match d with
  | RetryInfo f => isfinite (delay_read f) = true /\ SFltb (delay_read f) (S754_zero false) = false
  | _ => True
  end.

Definition detail_read (d : ErrorDetail) : ErrorDetail :=
  match d with RetryInfo f => RetryInfo (delay_read f) | _ => d end.

Lemma delay_value_number f : (exists z, delay_value f = JInteger z) \/ delay_value f = JFloat f.
Proof.
  unfold delay_value. destruct (integral_value f) as [z|]; [|by right].
  destruct (_ <? _); [left; eauto|by right].
Qed.

Lemma parse_detail_type d ms :
  parse_error_detail (typed d ms) =
    match d with
    | ErrorInfo _ => ErrorInfo_from_json (typed d ms)
    | RetryInfo _ => RetryInfo_from_json (typed d ms)
    | BadRequest _ => BadRequest_from_json (typed d ms)
    | PreconditionFailure _ => PreconditionFailure_from_json (typed d ms)
    | QuotaFailure _ => QuotaFailure_from_json (typed d ms)
    | ResourceInfo _ _ _ _ => ResourceInfo_from_json (typed d ms)
    | Help _ => Help_from_json (typed d ms)
    | LocalizedMessage _ _ => LocalizedMessage_from_json (typed d ms)
    end.
Proof.
  unfold parse_error_detail, typed. cbn [is_object jobject negb].
  rewrite jobject_find, find_member_eq. destruct d; reflexivity.
Qed.

Ltac json_find :=
  repeat first [rewrite find_member_eq | rewrite find_member_ne by discriminate
               | rewrite find_member_nil].

(** What a server writes for a catalog detail, a client reads back. *)
Lemma detail_roundtrip_lemma d :
  detail_ok d -> parse_error_detail (detail_to_json d) = Some (detail_read d).
Proof.
  destruct d as [m|f|vs|vs|vs|t n o ds|ls|l m]; intros Hok; unfold detail_to_json;
    rewrite parse_detail_type; unfold typed.
  - unfold ErrorInfo_from_json. rewrite jobject_find. json_find. cbn [jobject].
    by rewrite read_string_members_sorted.
  - unfold RetryInfo_from_json. rewrite jobject_find. json_find. destruct Hok as [Hf Hn].
    unfold delay_read in *. destruct (delay_value_number f) as [[z E]|E]; rewrite E in *;
      cbn [mbind option_bind detail_read]; rewrite Hf, Hn; unfold delay_read; rewrite E; done.
  - unfold BadRequest_from_json. erewrite read_objects_obj by (json_find; reflexivity).
    cbn [mbind option_bind]. rewrite read_all_map; [done|]. intros [fd de].
    rewrite (read_str_obj _ (str "field") fd) by (json_find; reflexivity). cbn [mbind option_bind].
    by rewrite (read_str_obj _ (str "description") de) by (json_find; reflexivity).
  - unfold PreconditionFailure_from_json. erewrite read_objects_obj by (json_find; reflexivity).
    cbn [mbind option_bind]. rewrite read_all_map; [done|]. intros [ty su de].
    rewrite (read_str_obj _ (str "type") ty) by (json_find; reflexivity). cbn [mbind option_bind].
    rewrite (read_str_obj _ (str "subject") su) by (json_find; reflexivity). cbn [mbind option_bind].
    by rewrite (read_str_obj _ (str "description") de) by (json_find; reflexivity).
  - unfold QuotaFailure_from_json. erewrite read_objects_obj by (json_find; reflexivity).
    cbn [mbind option_bind]. rewrite read_all_map; [done|]. intros [su de].
    rewrite (read_str_obj _ (str "subject") su) by (json_find; reflexivity). cbn [mbind option_bind].
    by rewrite (read_str_obj _ (str "description") de) by (json_find; reflexivity).
  - unfold ResourceInfo_from_json.
    rewrite (read_str_obj _ (str "resource_type") t) by (json_find; reflexivity). cbn [mbind option_bind].
    rewrite (read_str_obj _ (str "resource_name") n) by (json_find; reflexivity). cbn [mbind option_bind].
    rewrite (read_str_obj _ (str "owner") o) by (json_find; reflexivity). cbn [mbind option_bind].
    by rewrite (read_str_obj _ (str "description") ds) by (json_find; reflexivity).
  - unfold Help_from_json. erewrite read_objects_obj by (json_find; reflexivity).
    cbn [mbind option_bind]. rewrite read_all_map; [done|]. intros [de ur].
    rewrite (read_str_obj _ (str "description") de) by (json_find; reflexivity). cbn [mbind option_bind].
    by rewrite (read_str_obj _ (str "url") ur) by (json_find; reflexivity).
  - unfold LocalizedMessage_from_json.
    rewrite (read_str_obj _ (str "locale") l) by (json_find; reflexivity). cbn [mbind option_bind].
    by rewrite (read_str_obj _ (str "message") m) by (json_find; reflexivity).
Qed.

(** ** The EXCEPTION batch, from server to client *)

Section wire.
Context {J : JsonText} {jlaws : JsonTextLaws} {K : KeyValueMetadata} {klaws : KeyValueMetadataLaws}.

(** The parts of the metadata, in the order they are appended. *)
Definition error_md (safe_message extra_text server_id request_id code safe_kind : bytes)
    (details : option bytes) : kv_list :=
  [(LOG_LEVEL, str "EXCEPTION"); (LOG_MESSAGE, safe_message); (LOG_EXTRA, extra_text)]
  ++ (if nonempty server_id then [(SERVER_ID, server_id)] else [])
  ++ (if nonempty request_id then [(REQUEST_ID, request_id)] else [])
  ++ [(ERROR_CODE, code)]
  ++ (if nonempty safe_kind then [(ERROR_KIND, safe_kind)] else [])
  ++ (match details with Some d => [(ERROR_DETAILS, d)] | None => [] end).

Lemma append_if_app c md key value :
  append_if c md key value = md ++ (if c then [(key, value)] else []).
Proof. destruct c; [done|]. cbn. by rewrite app_nil_r. Qed.

Lemma build_error_metadata_ok scope type message sid rid kind extras md extra :
  build_error_metadata scope type message sid rid kind extras = Ok (md, extra) ->
  exists safe_type safe_message safe_kind safe_traceback extra_text,
    wire_safe_text type = Ok safe_type /\ wire_safe_text message = Ok safe_message /\
    wire_safe_text kind = Ok safe_kind /\
    (if nonempty (synthesized_traceback scope type message (ee_traceback extras)) then
       exists t, safe_traceback = Some t /\
         wire_safe_text (synthesized_traceback scope type message (ee_traceback extras)) = Ok t
     else safe_traceback = None) /\
    extra = error_extra safe_type safe_message (error_code_text type kind extras) safe_kind
      (option_map (fun _ => ee_details extras) (encode_error_details (ee_details extras)))
      safe_traceback /\
    json_dump extra = Some extra_text /\
    md = error_md safe_message extra_text sid rid (error_code_text type kind extras) safe_kind
      (encode_error_details (ee_details extras)).
Proof.
  unfold build_error_metadata. intros E.
  apply res_bind_ok in E as (st & E1 & E). apply res_bind_ok in E as (sm & E2 & E).
  apply res_bind_ok in E as (sk & E3 & E). cbv zeta in E.
  apply res_bind_ok in E as (stb & E4 & E).
  destruct (json_dump _) as [txt|] eqn:Ed; [|done]. injection E as <- <-.
  exists st, sm, sk, stb, txt. split_and!; try done.
  - destruct (nonempty (synthesized_traceback _ _ _ _)).
    + apply res_bind_ok in E4 as (t & Et & [= <-]). eauto.
    + by injection E4 as <-.
  - unfold error_md. rewrite !append_if_app. unfold Append.
    destruct (encode_error_details _); rewrite ?app_nil_r, <- ?app_assoc; done.
Qed.

Lemma error_md_NoDup m x sid rid c k d : NoDup (error_md m x sid rid c k d).*1.
Proof.
  unfold error_md. destruct (nonempty sid), (nonempty rid), (nonempty k), d;
    refine (bool_decide_unpack _ _); vm_compute; exact I.
Qed.

(** What a reader finds in it. *)
Lemma error_md_extra m x sid rid c k d : find_value (error_md m x sid rid c k d) LOG_EXTRA = Some x.
Proof. by rewrite find_value_assoc by apply error_md_NoDup. Qed.

Lemma error_md_level m x sid rid c k d :
  find_value (error_md m x sid rid c k d) LOG_LEVEL = Some (str "EXCEPTION").
Proof. by rewrite find_value_assoc by apply error_md_NoDup. Qed.

Lemma error_md_message m x sid rid c k d : find_value (error_md m x sid rid c k d) LOG_MESSAGE = Some m.
Proof. by rewrite find_value_assoc by apply error_md_NoDup. Qed.

Lemma error_md_ids m x sid rid c k d :
  find_value (error_md m x sid rid c k d) SERVER_ID = (if nonempty sid then Some sid else None) /\
  find_value (error_md m x sid rid c k d) REQUEST_ID = (if nonempty rid then Some rid else None).
Proof.
  rewrite !find_value_assoc by apply error_md_NoDup. unfold error_md.
  by destruct (nonempty sid), (nonempty rid), (nonempty k), d.
Qed.

Lemma error_md_code m x sid rid c k d : find_value (error_md m x sid rid c k d) ERROR_CODE = Some c.
Proof.
  rewrite find_value_assoc by apply error_md_NoDup. unfold error_md.
  by destruct (nonempty sid), (nonempty rid).
Qed.

Lemma error_md_kind m x sid rid c k d :
  find_value (error_md m x sid rid c k d) ERROR_KIND = if nonempty k then Some k else None.
Proof.
  rewrite find_value_assoc by apply error_md_NoDup. unfold error_md.
  by destruct (nonempty sid), (nonempty rid), (nonempty k), d.
Qed.

Lemma error_md_details m x sid rid c k d :
  find_value (error_md m x sid rid c k d) ERROR_DETAILS = d.
Proof.
  rewrite find_value_assoc by apply error_md_NoDup. unfold error_md.
  by destruct (nonempty sid), (nonempty rid), (nonempty k), d.
Qed.

Lemma encode_error_details_ok details raw :
  encode_error_details details = Some raw ->
  exists items, details = JArray items /\ items <> [] /\ error_details_valid details = true /\
    json_dump details = Some raw /\ blen raw <= 4096.
Proof.
  unfold encode_error_details. destruct details as [| | | | |[|i items]|]; try done.
  destruct (error_details_valid _) eqn:Ev; [|done]. cbn [negb].
  destruct (json_dump _) as [t|]; [|done]. unfold kMaxErrorDetailsBytes.
  destruct (Z.ltb_spec 4096 (blen t)); [done|]. intros [= ->]. exists (i :: items). split_and!; try done.
Qed.

Lemma details_loop_objects seen items :
  details_loop seen items = true -> List.filter is_object items = items.
Proof.
  revert seen; induction items as [|obj items IH]; intros seen; cbn [details_loop List.filter]; [done|].
  destruct (is_object obj); [|done]. cbn [negb]. destruct (jfind obj _) as [[]|]; try done.
  destruct (_ =? 0)%nat; [done|]. destruct (bool_decide (_ ∈ seen)); [done|].
  destruct (_ && _); [done|]. destruct (negb _); [done|]. intros H%IH. by rewrite H.
Qed.

(** A valid array survives the wire. *)
Lemma decode_encode_details details raw :
  canonical_json details -> encode_error_details details = Some raw ->
  decode_error_details raw = details.
Proof.
  intros Hc (items & -> & _ & Hv & Hd & _)%encode_error_details_ok.
  unfold decode_error_details. rewrite (parse_dump _ _ Hc Hd).
  by rewrite (details_loop_objects ∅).
Qed.

Lemma nonempty_false s : nonempty s = false -> s = [].
Proof. by destruct s. Qed.
(** The object written for an error. *)
Definition extra_of (st sm sk : bytes) (stb : option bytes) (type kind : bytes) (extras : ErrorExtras) : json :=
  error_extra st sm (error_code_text type kind extras) sk
    (option_map (fun _ => ee_details extras) (encode_error_details (ee_details extras))) stb.

Lemma make_error_metadata_parts scope type message sid rid kind extras md :
  make_error_metadata scope type message sid rid kind extras = Ok md ->
  let traceback := synthesized_traceback scope type message (ee_traceback extras) in
  exists st sm sk stb txt,
    wire_safe_text type = Ok st /\ wire_safe_text message = Ok sm /\ wire_safe_text kind = Ok sk /\
    (if nonempty traceback then exists t, stb = Some t /\ wire_safe_text traceback = Ok t else stb = None) /\
    json_dump (extra_of st sm sk stb type kind extras) = Some txt /\
    md = error_md sm txt sid rid (error_code_text type kind extras) sk (encode_error_details (ee_details extras)).
Proof.
  unfold make_error_metadata. intros ([md' extra] & E & [= <-])%res_bind_ok.
  destruct (build_error_metadata_ok _ _ _ _ _ _ _ _ _ E)
    as (st & sm & sk & stb & txt & E1 & E2 & E3 & E4 & -> & Ed & ->). by exists st, sm, sk, stb, txt.
Qed.

(** What a client decodes from it. *)
Lemma error_status_decoded st sm sk stb txt sid rid type kind extras traceback :
  canonical_json (ee_details extras) ->
  (if nonempty traceback then exists t, stb = Some t /\ wire_safe_text traceback = Ok t else stb = None) ->
  let status := decode_remote_status
    (Some (error_md sm txt sid rid (error_code_text type kind extras) sk (encode_error_details (ee_details extras))))
    (extra_of st sm sk stb type kind extras) in
  rs_error_code status = error_code_text type kind extras /\
  RemoteStatus_code status =
    (if nonempty (ee_code extras) then parse_code (ee_code extras) else default_error_code type kind) /\
  rs_error_kind status = sk /\
  rs_error_details status =
    match encode_error_details (ee_details extras) with Some _ => ee_details extras | None => JArray [] end /\
  (if nonempty traceback then wire_safe_text traceback = Ok (rs_traceback status) else rs_traceback status = []).
Proof.
  intros Hc E4. unfold decode_remote_status, extra_of. rewrite error_md_code, error_md_kind, error_md_details.
  cbv zeta. cbn [rs_error_code rs_error_kind rs_error_details rs_traceback new_RemoteStatus default].
  split; [done|]. split; [|split; [|split]].
  - unfold RemoteStatus_code. cbn [rs_error_code]. unfold error_code_text.
    destruct (nonempty (ee_code extras)); apply parse_code_name.
  - destruct (nonempty sk) eqn:Esk; [done|]. apply nonempty_false in Esk as ->.
    unfold mirrored, error_extra. rewrite jobject_find.
    destruct (encode_error_details _), stb; cbn [option_map nonempty length Nat.eqb negb app];
      by json_find.
  - destruct (encode_error_details (ee_details extras)) as [raw|] eqn:Ee.
    + rewrite (decode_encode_details _ _ Hc Ee).
      by destruct (encode_error_details_ok _ _ Ee) as (items & -> & _).
    + unfold error_extra. rewrite jobject_find.
      destruct (nonempty sk), stb; cbn [option_map app]; by json_find.
  - unfold mirrored, error_extra. rewrite jobject_find.
    destruct (nonempty traceback).
    + destruct E4 as (t & -> & Et). rewrite Et.
      destruct (nonempty sk), (encode_error_details _); cbn [option_map app]; by json_find.
    + subst stb. destruct (nonempty sk), (encode_error_details _); cbn [option_map app]; by json_find.
Qed.

(** Its object is read back as it was written. *)
Lemma error_extra_parses st sm sk stb type kind extras txt :
  canonical_json (ee_details extras) -> json_dump (extra_of st sm sk stb type kind extras) = Some txt ->
  parse_text txt = Some (extra_of st sm sk stb type kind extras) /\ txt <> [] /\
  jfind (extra_of st sm sk stb type kind extras) (str "exception_type") = Some (JString st).
Proof.
  intros Hc Ed.
  assert (parse_text txt = Some (extra_of st sm sk stb type kind extras)) as Hp.
  { apply parse_dump; [|exact Ed]. unfold extra_of, error_extra. apply jobject_canonical.
    - destruct (nonempty sk), (encode_error_details _), stb; refine (bool_decide_unpack _ _); vm_compute; exact I.
    - destruct (nonempty sk), (encode_error_details _), stb; cbn [app option_map]; repeat constructor; exact Hc. }
  split; [exact Hp|]. split; [intros ->; by rewrite parse_empty in Hp|].
  unfold extra_of, error_extra. rewrite jobject_find. cbn [app]. by json_find.
Qed.
End wire.

(** ** Error metadata can always be made *)

Lemma wire_safe_text_total `{JsonTextTotal} s : exists t, wire_safe_text s = Ok t /\ text_ok t.
Proof. unfold wire_safe_text. destruct (replace_text s) as (t & -> & Ht). eauto. Qed.

Lemma code_name_ascii c : Forall (fun b => b2z b < 128) (code_name c).
Proof. refine (bool_decide_unpack _ _). by destruct c; vm_compute. Qed.

(** Members in any order. *)
Lemma members_text_ok `{JsonTextTotal} ms :
  NoDup ms.*1 -> Forall (fun m => text_ok m.1 /\ json_strings text_ok m.2) ms ->
  json_strings text_ok (jobject ms).
Proof.
  intros Hnd Hall. unfold jobject. cbn [json_strings].
  assert (Forall (fun m => text_ok m.1 /\ json_strings text_ok m.2) (sort_members ms)) as Hs
    by (by rewrite sort_members_perm).
  clear -Hs. induction Hs as [|m l Hm _ IH]; cbn; [done|by split].
Qed.

Lemma encode_error_details_text `{JsonTextTotal} details raw :
  encode_error_details details = Some raw -> json_strings text_ok details.
Proof.
  intros (items & -> & _ & _ & Hd & _)%encode_error_details_ok. apply dump_text. by eexists.
Qed.

Lemma make_error_metadata_total `{JsonTextTotal} scope type message sid rid kind extras :
  exists md, make_error_metadata scope type message sid rid kind extras = Ok md.
Proof.
  unfold make_error_metadata, build_error_metadata.
  destruct (wire_safe_text_total type) as (t & -> & Ht).
  destruct (wire_safe_text_total message) as (m & -> & Hm).
  destruct (wire_safe_text_total kind) as (k & -> & Hk). cbn [mbind res_bind]. cbv zeta.
  set (traceback := synthesized_traceback _ _ _ _).
  assert (exists tb, (if nonempty traceback then t ← wire_safe_text traceback; Ok (Some t) else Ok None)
    = Ok tb /\ (forall x, tb = Some x -> text_ok x)) as (tb & -> & Htb).
  { destruct (nonempty traceback); [|by exists None].
    destruct (wire_safe_text_total traceback) as (x & -> & Hx). exists (Some x).
    split; [done|]. by intros ? [= <-]. }
  cbn [mbind res_bind].
  set (details := encode_error_details (ee_details extras)).
  assert (is_Some (json_dump (error_extra t m (error_code_text type kind extras) k
    (option_map (fun _ => ee_details extras) details) tb))) as [x ->]; [|eauto].
  apply dump_text. unfold error_extra. apply members_text_ok.
  { destruct (nonempty k), details, tb; refine (bool_decide_unpack _ _); vm_compute; exact I. }
  assert (forall s, Forall (fun b => b2z b < 128) (str s) -> text_ok (str s)) as Ha
    by (intros; by apply text_ok_ascii).
  assert (text_ok (error_code_text type kind extras)) as Hcode.
  { apply text_ok_ascii. unfold error_code_text. destruct (nonempty _); apply code_name_ascii. }
  apply Forall_app. split; [|apply Forall_app; split; [|apply Forall_app; split]].
  - repeat constructor; try done; apply Ha; refine (bool_decide_unpack _ _); vm_compute; exact I.
  - destruct (nonempty k); repeat constructor; try done.
    apply Ha; refine (bool_decide_unpack _ _); vm_compute; exact I.
  - subst details. destruct (encode_error_details (ee_details extras)) as [raw|] eqn:E;
      repeat constructor; cbn [option_map fst snd].
    + apply Ha; refine (bool_decide_unpack _ _); vm_compute; exact I.
    + by eapply encode_error_details_text.
  - destruct tb as [x|]; repeat constructor; [|by apply Htb].
    apply Ha; refine (bool_decide_unpack _ _); vm_compute; exact I.
Qed.

(** ** Properties *)

(** The typed details survive JSON.  Whatever catalog detail a server
    writes, [parse_error_detail] reads back the same one, field by field; a
    retry delay comes back as the [double] its JSON number denotes, provided
    that is finite and not negative. *)
Theorem error_detail_roundtrip d :
  detail_ok d -> parse_error_detail (detail_to_json d) = Some (detail_read d).
Proof. apply detail_roundtrip_lemma. Qed.

(** Code names are a bijection with the sixteen codes, and a client reads
    every other text as UNKNOWN. *)
Theorem code_names_bijective name c :
  (code_from_name name = Some c <-> name = code_name c) /\
  parse_code (code_name c) = c /\
  ((forall c', name <> code_name c') -> parse_code name = UNKNOWN).
Proof.
  assert (forall c', code_from_name name = Some c' -> name = code_name c') as Hinv.
  { intros c'. unfold code_from_name.
    destruct (List.find _ kCodes) as [[c0 n0]|] eqn:E; [|done]. cbn. intros [= <-].
    apply List.find_some in E as [Hin Hb]. apply bool_decide_eq_true in Hb. cbn in Hb. subst name.
    unfold kCodes in Hin. cbn [In] in Hin.
    repeat (destruct Hin as [Hin|Hin]; [by injection Hin as <- <-|]). done. }
  split; [split; [apply Hinv|intros ->; apply code_from_code_name]|]. split.
  - apply parse_code_name.
  - intros Hno. unfold parse_code. destruct (code_from_name name) as [c'|] eqn:E; [|done].
    by specialize (Hno c' (Hinv c' eq_refl)).
Qed.

(** The error model survives the wire.  When a server builds the metadata
    of an EXCEPTION batch, a client that decodes it, with the [log_extra]
    object the server serialized, reads the code the server settled on, the
    kind, the traceback, and exactly the details the server sent, or none when
    they broke a rule or the 4 KiB cap. *)
Theorem error_model_roundtrip
    `{JsonTextLaws} `{KeyValueMetadataLaws}
    scope type message server_id request_id kind extras md :
  canonical_json (ee_details extras) ->
  make_error_metadata scope type message server_id request_id kind extras = Ok md ->
  let traceback := synthesized_traceback scope type message (ee_traceback extras) in
  exists extra extra_text safe_kind,
    find_value md LOG_EXTRA = Some extra_text /\ json_dump extra = Some extra_text /\
    wire_safe_text kind = Ok safe_kind /\
    let status := decode_remote_status (Some md) extra in
    rs_error_code status = error_code_text type kind extras /\
    RemoteStatus_code status =
      (if nonempty (ee_code extras) then parse_code (ee_code extras)
       else default_error_code type kind) /\
    rs_error_kind status = safe_kind /\
    rs_error_details status =
      match encode_error_details (ee_details extras) with
      | Some _ => ee_details extras
      | None => JArray []
      end /\
    (if nonempty traceback then wire_safe_text traceback = Ok (rs_traceback status)
     else rs_traceback status = []).
Proof.
  intros Hc E traceback.
  destruct (make_error_metadata_parts _ _ _ _ _ _ _ _ E) as (st & sm & sk & stb & txt & _ & _ & E3 & E4 & Ed & ->).
  fold traceback in E4. do 3 eexists. split; [apply error_md_extra|]. split; [exact Ed|]. split; [exact E3|].
  by apply error_status_decoded.
Qed.

(** ** Witnesses *)

(** An error with one detail. *)
Module ToyErrors.
Definition demo_details : json := JArray [detail_to_json (RetryInfo (dbl_of_Z 30))].

Definition demo_extras : ErrorExtras :=
  {| ee_code := str "UNAVAILABLE"; ee_details := demo_details; ee_traceback := [] |}.
End ToyErrors.

Import ToyJson.
Import ToyErrors.
Import ToyArrow.

Lemma error_detail_roundtrip_witness :
  parse_error_detail (detail_to_json (RetryInfo (dbl_of_Z 30))) = Some (RetryInfo (dbl_of_Z 30)).
Proof. apply (error_detail_roundtrip (RetryInfo (dbl_of_Z 30))). vm_compute. done. Defined.

Lemma error_model_roundtrip_witness :
  exists md extra,
    make_error_metadata None (str "StatusError") (str "busy") (str "srv") (str "r1") [] demo_extras
      = Ok md /\
    rs_error_details (decode_remote_status (Some md) extra) = demo_details /\
    RemoteStatus_code (decode_remote_status (Some md) extra) = UNAVAILABLE.
Proof.
  destruct (make_error_metadata None (str "StatusError") (str "busy") (str "srv") (str "r1") []
    demo_extras) as [md|e] eqn:E; [|exfalso; by vm_compute in E].
  destruct (error_model_roundtrip None (str "StatusError") (str "busy") (str "srv") (str "r1") []
    demo_extras md) as (extra & txt & sk & H1 & H2 & H3 & H4 & H5 & H6 & H7 & H8).
  - vm_compute. intuition.
  - exact E.
  - exists md, extra. split; [done|]. split; [rewrite H7; by vm_compute|].
    rewrite H5. by vm_compute.
Defined.
