(* ===== verification/Session.v ===== *)
(** * Sticky sessions: the registry and its tokens (src/src/session.cpp)

    Tokens, their frame and the sealing identity; the registry's operations,
    each as the sequence of its critical sections.  The interleaving of several
    threads over those sections is in [SessionThreads].

    Clocks and random bytes are arguments: [wall] is [unix_now()] and [steady]
    the steady clock in nanoseconds.  A [std::shared_ptr<Entry>] is a reference
    into the heap of entries, so that the code's identity tests
    ([it->second != entry]) are tests on references. *)

From S2P Require Import Prelude Crypto.

(** ** Tokens *)

Definition kAadPrefix : bytes := str "vgi_rpc.state.v4".

(** [for (i = 0; i < 8; ++i) out.push_back(static_cast<char>(v >> (i * 8)))]. *)
Definition put_u64_le (out : bytes) (v : Z) : bytes :=
  out ++ map (fun i => z2b (Z.shiftr v (Z.of_nat i * 8))) (seq 0 8).

Definition take_u64_le (inp : bytes) (off : nat) : option (Z * nat) :=
  if (length inp - off <? 8)%nat then None
  else Some (fold_left (fun v i => Z.lor v (Z.shiftl (b2z (inp !!! (off + i)%nat))
                                              (Z.of_nat i * 8))) (seq 0 8) 0,
             (off + 8)%nat).

Definition session_aad (domain principal : bytes) (authenticated : bool) : bytes :=
  let aad := kAadPrefix ++ [x00] in
  if authenticated then aad ++ [x01] ++ domain ++ [x00] ++ principal
  else aad ++ [x00] ++ str "anonymous".

Inductive SessionLookup := OK | NOT_PRESENTED | UNSEALABLE | WRONG_WORKER | MISSING | EXPIRED.

#[export] Instance SessionLookup_eq_decision : EqDecision SessionLookup.
Proof. solve_decision. Defined.

(** ** The registry *)

(** [state] is the identity of the [SessionState] object, [None] a null pointer. *)
Record Entry := { state : option nat; expires_at : Z }.

Record SessionRegistry := {
  key_ : bytes;
  server_id_ : bytes;
  default_ttl_seconds_ : Z;
  draining_ : bool;
  entries_ : gmap bytes nat;
  heap_ : gmap nat Entry;
}.

Definition new_registry (key server_id : bytes) (default_ttl_seconds : Z) : SessionRegistry :=
  {| key_ := key; server_id_ := server_id;
     default_ttl_seconds_ := if 0 <? default_ttl_seconds then default_ttl_seconds else 300;
     draining_ := false; entries_ := ∅; heap_ := ∅ |}.

Definition set_entries (r : SessionRegistry) (es : gmap bytes nat) : SessionRegistry :=
  {| key_ := key_ r; server_id_ := server_id_ r; default_ttl_seconds_ := default_ttl_seconds_ r;
     draining_ := draining_ r; entries_ := es; heap_ := heap_ r |}.

Definition set_draining (r : SessionRegistry) (b : bool) : SessionRegistry :=
  {| key_ := key_ r; server_id_ := server_id_ r; default_ttl_seconds_ := default_ttl_seconds_ r;
     draining_ := b; entries_ := entries_ r; heap_ := heap_ r |}.

Definition drain (r : SessionRegistry) : SessionRegistry := set_draining r true.
Definition undrain (r : SessionRegistry) : SessionRegistry := set_draining r false.

(** [std::make_shared<Entry>]. *)
Definition add_entry (r : SessionRegistry) (sid : bytes) (ref : nat) (e : Entry) : SessionRegistry :=
  {| key_ := key_ r; server_id_ := server_id_ r; default_ttl_seconds_ := default_ttl_seconds_ r;
     draining_ := draining_ r; entries_ := <[sid := ref]> (entries_ r);
     heap_ := <[ref := e]> (heap_ r) |}.

Definition fresh_ref (r : SessionRegistry) : nat := fresh (dom (heap_ r)).

Definition entry_at (r : SessionRegistry) (ref : nat) : Entry :=
  default {| state := None; expires_at := 0 |} (heap_ r !! ref).

(** The steady clock counts nanoseconds. *)
Definition seconds (n : Z) : Z := n * 10 ^ 9.

Section registry.
Context {A : Aead}.

(** The frame of a token: created_at, server_id_len, server_id, session_id,
    expires_at. *)
Definition token_frame (r : SessionRegistry) (sid : bytes) (now ttl : Z) : bytes :=
  let frame := put_u64_le [] now in
  let frame := frame ++ [z2b (Z.land (blen (server_id_ r)) 0xFF)] in
  let frame := frame ++ server_id_ r in
  let frame := frame ++ sid in
  put_u64_le frame (u64 (now + u64 ttl)).

Definition open (random_id nonce : bytes) (wall steady : Z) (r : SessionRegistry)
    (st : option nat) (aad : bytes) (ttl_seconds : option Z) : SessionRegistry * bytes :=
  let ttl := default (default_ttl_seconds_ r) ttl_seconds in
  let session_id := hex_encode random_id in
  let frame := token_frame r session_id wall ttl in
  let entry := {| state := st; expires_at := steady + seconds ttl |} in
  let r' := add_entry r session_id (fresh_ref r) entry in
  let sealed := aead_seal nonce (key_ r) frame aad in
  let envelope := [x01] ++ sealed in
  (r', base64url_encode envelope).

(** [*out_session_id] is written only on [OK]. *)
Definition unseal (wall : Z) (r : SessionRegistry) (token aad : bytes) : SessionLookup * bytes :=
  match token with
  | [] => (NOT_PRESENTED, [])
  | _ =>
      match base64url_decode token with
      | None => (UNSEALABLE, [])
      | Some raw =>
          if (length raw <? 2)%nat || negb (Byte.eqb (raw !!! 0%nat) x01) then (UNSEALABLE, [])
          else
            match aead_open (key_ r) (drop 1 raw) aad with
            | None => (UNSEALABLE, [])
            | Some frame =>
                match take_u64_le frame 0 with
                | None => (UNSEALABLE, [])
                | Some (created_at, off) =>
                    if (length frame - off <? 1)%nat then (UNSEALABLE, [])
                    else
                      let id_len := Z.to_nat (b2z (frame !!! off)) in
                      let off := S off in
                      if (length frame - off <? id_len + 24 + 8)%nat then (UNSEALABLE, [])
                      else
                        let minted_by := take id_len (drop off frame) in
                        let off := (off + id_len)%nat in
                        let session_id := take 24 (drop off frame) in
                        let off := (off + 24)%nat in
                        match take_u64_le frame off with
                        | None => (UNSEALABLE, [])
                        | Some (expires_at, _) =>
                            if negb (bool_decide (minted_by = server_id_ r)) then (WRONG_WORKER, [])
                            else if expires_at <? wall then (EXPIRED, [])
                            else (OK, session_id)
                        end
                end
            end
      end
  end.

(** ** Critical sections

    Each function below is one scope of [std::lock_guard lock(mutex_)]. *)

(** The first scope of [resolve] and of [close]. *)
Definition find_entry (r : SessionRegistry) (sid : bytes) : option nat := entries_ r !! sid.

Inductive check_result := Gone | Live | Erased.

(** The second scope of [resolve], under the dispatch lock. *)
Definition resolve_check (steady : Z) (r : SessionRegistry) (sid : bytes) (ref : nat)
    : SessionRegistry * check_result :=
  match entries_ r !! sid with
  | None => (r, Gone)
  | Some ref' =>
      if negb (ref' =? ref)%nat then (r, Gone)
      else if expires_at (entry_at r ref) <? steady then
        (set_entries r (delete sid (entries_ r)), Erased)
      else (r, Live)
  end.

(** The second scope of [close]. *)
Definition close_check (r : SessionRegistry) (sid : bytes) (ref : nat)
    : SessionRegistry * check_result :=
  match entries_ r !! sid with
  | None => (r, Gone)
  | Some ref' =>
      if negb (ref' =? ref)%nat then (r, Gone)
      else (set_entries r (delete sid (entries_ r)), Erased)
  end.

(** The first scope of [sweep]; the order of an [unordered_map] is unspecified. *)
Definition sweep_candidates (steady : Z) (r : SessionRegistry) : list (bytes * nat) :=
  List.filter (fun c => expires_at (entry_at r c.2) <? steady) (map_to_list (entries_ r)).

(** The scope inside the loop of [sweep]. *)
Definition sweep_check (steady : Z) (r : SessionRegistry) (sid : bytes) (ref : nat)
    : SessionRegistry * check_result :=
  match entries_ r !! sid with
  | None => (r, Gone)
  | Some ref' =>
      if (ref' =? ref)%nat && (expires_at (entry_at r ref) <? steady) then
        (set_entries r (delete sid (entries_ r)), Erased)
      else (r, Gone)
  end.

(** The scope of [shutdown]. *)
Definition shutdown_take (r : SessionRegistry) : SessionRegistry * list nat :=
  (set_entries r ∅, (map_to_list (entries_ r)).*2).

(** [if (entry->state) entry->state->close();] adds to the log of close hooks. *)
Definition close_hook (r : SessionRegistry) (ref : nat) (hooks : list nat) : list nat :=
  match state (entry_at r ref) with Some st => hooks ++ [st] | None => hooks end.

(** ** The operations of one thread *)

Definition resolve (wall steady : Z) (r : SessionRegistry) (token aad : bytes)
    : SessionRegistry * (SessionLookup * option (option nat * bytes) * list nat) :=
  match unseal wall r token aad with
  | (OK, sid) =>
      match find_entry r sid with
      | None => (r, (MISSING, None, []))
      | Some ref =>
          match resolve_check steady r sid ref with
          | (r, Gone) => (r, (MISSING, None, []))
          | (r, Live) => (r, (OK, Some (state (entry_at r ref), sid), []))
          | (r, Erased) => (r, (EXPIRED, None, close_hook r ref []))
          end
      end
  | (status, _) => (r, (status, None, []))
  end.

Definition close (wall : Z) (r : SessionRegistry) (token aad : bytes)
    : SessionRegistry * (bool * list nat) :=
  match unseal wall r token aad with
  | (OK, sid) =>
      match find_entry r sid with
      | None => (r, (false, []))
      | Some ref =>
          match close_check r sid ref with
          | (r, Erased) => (r, (true, close_hook r ref []))
          | (r, _) => (r, (false, []))
          end
      end
  | _ => (r, (false, []))
  end.

(** [clock k] is the steady clock at the k-th candidate. *)
Fixpoint sweep_loop (clock : nat -> Z) (k : nat) (r : SessionRegistry) (cs : list (bytes * nat))
    (hooks : list nat) : SessionRegistry * list nat :=
  match cs with
  | [] => (r, hooks)
  | (sid, ref) :: cs' =>
      match sweep_check (clock k) r sid ref with
      | (r, Erased) => sweep_loop clock (S k) r cs' (close_hook r ref hooks)
      | (r, _) => sweep_loop clock (S k) r cs' hooks
      end
  end.

Definition sweep (now : Z) (clock : nat -> Z) (r : SessionRegistry) : SessionRegistry * list nat :=
  sweep_loop clock 0 r (sweep_candidates now r) [].

Definition shutdown (r : SessionRegistry) : SessionRegistry * list nat :=
  let '(r, live) := shutdown_take r in
  (r, foldl (fun hooks ref => close_hook r ref hooks) [] live).
End registry.

(** ** The frame codec *)

Lemma put_u64_le_spec out v : put_u64_le out v = out ++ le_encode 8 v.
Proof.
  unfold put_u64_le. f_equal. cbn [seq map le_encode].
  rewrite !Z.shiftr_div_pow2 by lia. rewrite !Z.div_div by lia. cbn. by rewrite Z.div_1_r.
Qed.

Lemma u64_of_bytes (raw : bytes) :
  length raw = 8%nat ->
  fold_left (fun v i => Z.lor v (Z.shiftl (b2z (raw !!! i)) (Z.of_nat i * 8))) (seq 0 8) 0
  = le_decode raw.
Proof.
  destruct raw as [|b0 [|b1 [|b2 [|b3 [|b4 [|b5 [|b6 [|b7 [|]]]]]]]]]; try done. intros _.
  cbn [seq fold_left lookup_total list_lookup_total le_decode].
  repeat match goal with |- context [b2z ?x] =>
    unless (0 <= b2z x < 256) by assumption; pose proof (b2z_range x) end.
  change (Z.of_nat 0 * 8) with 0; change (Z.of_nat 1 * 8) with 8;
  change (Z.of_nat 2 * 8) with 16; change (Z.of_nat 3 * 8) with 24;
  change (Z.of_nat 4 * 8) with 32; change (Z.of_nat 5 * 8) with 40;
  change (Z.of_nat 6 * 8) with 48; change (Z.of_nat 7 * 8) with 56.
  rewrite (lor_shiftl_add 0 (b2z b0) 0), (lor_shiftl_add _ (b2z b1) 8),
    (lor_shiftl_add _ (b2z b2) 16), (lor_shiftl_add _ (b2z b3) 24),
    (lor_shiftl_add _ (b2z b4) 32), (lor_shiftl_add _ (b2z b5) 40),
    (lor_shiftl_add _ (b2z b6) 48), (lor_shiftl_add _ (b2z b7) 56) by lia.
  lia.
Qed.

Lemma take_u64_le_spec inp off :
  take_u64_le inp off =
    if (length inp - off <? 8)%nat then None
    else Some (le_decode (take 8 (drop off inp)), (off + 8)%nat).
Proof.
  unfold take_u64_le. destruct (Nat.ltb_spec (length inp - off) 8); [done|].
  rewrite <- u64_of_bytes by (rewrite length_take, length_drop; lia).
  assert (forall i, (i < 8)%nat -> take 8 (drop off inp) !!! i = inp !!! (off + i)%nat) as E.
  { intros i Hi. by rewrite !list_lookup_total_alt, lookup_take_lt, lookup_drop. }
  cbn [seq fold_left]. by rewrite !E by lia.
Qed.

Lemma take_u64_le_app pre v rest :
  in_u64 v -> take_u64_le (pre ++ le_encode 8 v ++ rest) (length pre) = Some (v, (length pre + 8)%nat).
Proof.
  intros Hv. rewrite take_u64_le_spec, !length_app, le_encode_length.
  rewrite (proj2 (Nat.ltb_ge _ _)) by lia.
  rewrite drop_app_exact, take_app_exact by (rewrite ?le_encode_length; done).
  by rewrite le_decode_encode_u64.
Qed.

Lemma take_u64_le_inv inp off v off' :
  take_u64_le inp off = Some (v, off') ->
  off' = (off + 8)%nat /\ (off + 8 <= length inp)%nat /\ in_u64 v /\
  drop off inp = le_encode 8 v ++ drop off' inp.
Proof.
  rewrite take_u64_le_spec. destruct (Nat.ltb_spec (length inp - off) 8); [done|].
  intros [= <- <-]. split; [done|]. split; [lia|].
  assert (length (take 8 (drop off inp)) = 8%nat) as Hl by (rewrite length_take, length_drop; lia).
  pose proof (le_decode_range (take 8 (drop off inp))) as Hr. rewrite Hl in Hr. split; [exact Hr|].
  rewrite <- Hl at 1. rewrite le_encode_decode, <- drop_drop. by rewrite take_drop.
Qed.

(** The frame as bytes; [trailing] is what a reader ignores. *)
Definition frame_layout (created : Z) (server_id sid : bytes) (expires : Z) (trailing : bytes) : bytes :=
  le_encode 8 created ++ [z2b (blen server_id)] ++ server_id ++ sid ++ le_encode 8 expires ++ trailing.

Lemma token_frame_layout r sid now ttl :
  token_frame r sid now ttl = frame_layout now (server_id_ r) sid (u64 (now + u64 ttl)) [].
Proof.
  unfold token_frame, frame_layout. rewrite !put_u64_le_spec, <- !app_assoc, app_nil_r.
  change 0xFF with (2 ^ 8 - 1). rewrite land_ones_mod by lia.
  change (2 ^ 8) with 256. by rewrite z2b_mod.
Qed.

Section unsealing.
Context `{AeadLaws}.

(** Splitting a frame the way [unseal] does. *)
Lemma frame_split frame server_id sid expires :
  (exists created trailing,
     frame = frame_layout created server_id sid expires trailing /\
     in_u64 created /\ in_u64 expires /\ length sid = 24%nat /\ blen server_id <= 255) <->
  exists created off',
    take_u64_le frame 0 = Some (created, 8%nat) /\
    (1 <= length frame - 8)%nat /\
    let id_len := Z.to_nat (b2z (frame !!! 8%nat)) in
    (id_len + 32 <= length frame - 9)%nat /\
    take id_len (drop 9 frame) = server_id /\
    take 24 (drop (9 + id_len) frame) = sid /\
    take_u64_le frame (9 + id_len + 24) = Some (expires, off').
Proof.
  split.
  - intros (created & trailing & -> & Hc & He & Hs & Hid).
    unfold frame_layout.
    assert (b2z ((le_encode 8 created ++ [z2b (blen server_id)] ++ server_id ++ sid ++
      le_encode 8 expires ++ trailing) !!! 8%nat) = blen server_id) as Eid.
    { rewrite list_lookup_total_alt, lookup_app_r by (rewrite le_encode_length; lia).
      rewrite le_encode_length. cbn. rewrite b2z_z2b_small; [done|lia]. }
    exists created, (9 + length server_id + 24 + 8)%nat. rewrite Eid, Nat2Z.id.
    rewrite !length_app, !le_encode_length. cbn [length].
    split; [apply (take_u64_le_app [] created); done|]. split; [lia|]. split; [lia|].
    assert (drop 9 (le_encode 8 created ++ [z2b (blen server_id)] ++ server_id ++ sid ++
      le_encode 8 expires ++ trailing) = server_id ++ sid ++ le_encode 8 expires ++ trailing) as E9.
    { rewrite (app_assoc (le_encode 8 created)). apply drop_app_exact.
      by rewrite length_app, le_encode_length. }
    rewrite E9, take_app_exact by done. split; [done|].
    rewrite <- drop_drop, E9, drop_app_exact, take_app_exact by done. split; [done|].
    rewrite !app_assoc. rewrite <- (app_assoc _ (le_encode 8 expires)).
    replace (9 + length server_id + 24)%nat
      with (length (((le_encode 8 created ++ [z2b (blen server_id)]) ++ server_id) ++ sid)).
    + rewrite take_u64_le_app by done. do 2 f_equal;
      rewrite !length_app, le_encode_length, Hs; cbn [length]; lia.
    + rewrite !length_app, le_encode_length, Hs. cbn [length]. lia.
  - intros (created & off' & H1 & H2 & H3 & H4 & H5 & H6).
    set (id_len := Z.to_nat (b2z (frame !!! 8%nat))) in *.
    destruct (take_u64_le_inv _ _ _ _ H1) as (_ & _ & Hc & E1). rewrite drop_0 in E1.
    destruct (take_u64_le_inv _ _ _ _ H6) as (-> & Hlen & He & E6).
    exists created, (drop (9 + id_len + 24 + 8) frame).
    assert (drop 8 frame = (frame !!! 8%nat) :: drop 9 frame) as E8.
    { apply drop_S. apply list_lookup_lookup_total_lt. lia. }
    assert (length server_id = id_len) as Hid by (rewrite <- H4, length_take, length_drop; lia).
    pose proof (b2z_range (frame !!! 8%nat)).
    split; [|split; [done|split; [done|split]]].
    + unfold frame_layout. rewrite E1 at 1. f_equal. rewrite E8. cbn [app].
      apply (f_equal2 cons).
      * symmetry. apply z2b_eq. rewrite Hid. subst id_len. rewrite Z2Nat.id by lia.
        apply Z.mod_small. lia.
      * rewrite <- (take_drop id_len (drop 9 frame)) at 1. rewrite H4, drop_drop. f_equal.
        rewrite <- (take_drop 24 (drop (9 + id_len) frame)) at 1. rewrite H5, drop_drop.
        by f_equal.
    + rewrite <- H5, length_take, length_drop. lia.
    + rewrite Hid. subst id_len. lia.
Qed.

(** What a token that [unseal] accepts is made of. *)
Definition token_for (r : SessionRegistry) (token aad sid : bytes) (expires : Z) : Prop :=
  exists nonce created trailing,
    base64url_decode token =
      Some ([x01] ++ aead_seal nonce (key_ r)
              (frame_layout created (server_id_ r) sid expires trailing) aad) /\
    length nonce = kAeadNonceBytes /\
    in_u64 created /\ in_u64 expires /\ length sid = 24%nat /\ blen (server_id_ r) <= 255.

(** A token that is made so is accepted until it expires. *)
Lemma unseal_token wall r token aad sid expires :
  token_for r token aad sid expires ->
  unseal wall r token aad = if expires <? wall then (EXPIRED, []) else (OK, sid).
Proof.
  intros (nonce & created & tr & Edec & Hn & Hc & He & Hs & Hid). unfold unseal.
  destruct token as [|c token'] eqn:Etok; [done|]. rewrite <- Etok in *. clear c token' Etok.
  rewrite Edec. set (frame := frame_layout _ _ _ _ _) in *. cbn [app length drop].
  rewrite (proj2 (Nat.ltb_ge _ _)) by
    (unfold aead_seal, aead_seal_with_nonce; rewrite length_app, Hn; unfold kAeadNonceBytes; lia).
  cbn [orb negb lookup_total list_lookup_total Byte.eqb].
  unfold aead_seal. rewrite drop_0, aead_open_seal by done.
  destruct (proj1 (frame_split frame (server_id_ r) sid expires))
    as (cr & off' & F1 & F2 & F3 & F4 & F5 & F6); [by exists created, tr|]. cbv zeta in *.
  rewrite F1. rewrite (proj2 (Nat.ltb_ge _ _)) by lia.
  rewrite (proj2 (Nat.ltb_ge _ _)) by lia. cbn [Nat.add] in F4, F5, F6 |- *.
  by rewrite F4, F5, F6, bool_decide_eq_true_2 by done.
Qed.

Lemma unseal_ok_iff wall r token aad sid :
  unseal wall r token aad = (OK, sid) <->
  exists expires, token_for r token aad sid expires /\ wall <= expires.
Proof.
  split; [|intros (expires & Ht & Hw); rewrite (unseal_token _ _ _ _ _ _ Ht);
            by rewrite (proj2 (Z.ltb_ge _ _)) by lia].
  unfold unseal, token_for. destruct token as [|c token'] eqn:Etok; [done|].
  rewrite <- Etok. clear c token' Etok.
  destruct (base64url_decode token) as [raw|]; [|done].
  destruct ((length raw <? 2)%nat || _) eqn:Eraw; [done|]. bool_to_prop.
  destruct (aead_open _ _ _) as [frame|] eqn:Eopen; [|done].
  destruct (take_u64_le frame 0) as [[created off]|] eqn:E1; [|done].
  destruct (take_u64_le_inv _ _ _ _ E1) as (-> & _).
  change (0 + 8)%nat with 8%nat in *.
  destruct (Nat.ltb_spec (length frame - 8) 1); [done|].
  destruct (Nat.ltb_spec (length frame - 9) (Z.to_nat (b2z (frame !!! 8%nat)) + 24 + 8)); [done|].
  destruct (take_u64_le frame (_ + _)) as [[expires off']|] eqn:E2; [|done].
  case_bool_decide as Eid; [|done]. cbn [negb].
  destruct (Z.ltb_spec expires wall); [done|]. intros [= <-].
  apply aead_open_inv in Eopen as [Eopen Elen].
  destruct (proj2 (frame_split frame (server_id_ r)
    (take 24 (drop (9 + Z.to_nat (b2z (frame !!! 8%nat))) frame)) expires))
    as (cr & tr & Ef & Hcr & Hex & Hs & Hid).
  { exists created, off'. cbv zeta. split_and!; try done; lia. }
  exists expires. split; [|done]. exists (take kAeadNonceBytes (drop 1 raw)), cr, tr.
  destruct raw as [|c raw]; [simpl in *; lia|]. cbn [drop] in *.
  rewrite Ef in Eopen. split; [|split_and!; try done].
  - cbn in *. subst c. by rewrite <- Eopen.
  - rewrite length_take. apply (f_equal length) in Eopen. cbn [drop]. lia.
Qed.
End unsealing.

(** What [open] registers. *)
Lemma open_ok `{Aead} rid nonce wall steady r st aad ttl r' token :
  open rid nonce wall steady r st aad ttl = (r', token) ->
  entries_ r' = <[hex_encode rid := fresh_ref r]> (entries_ r) /\
  entry_at r' (fresh_ref r) =
    {| state := st; expires_at := steady + seconds (default (default_ttl_seconds_ r) ttl) |} /\
  key_ r' = key_ r /\ server_id_ r' = server_id_ r.
Proof.
  intros [= <- <-]. split_and!; try done. unfold entry_at, add_entry. cbn.
  by rewrite lookup_insert_eq.
Qed.

(** The token [open] mints is one [unseal] accepts until its expiry. *)
Lemma open_token_for `{AeadLaws} rid nonce wall steady r st aad ttl r' token :
  open rid nonce wall steady r st aad ttl = (r', token) ->
  length rid = 12%nat -> length nonce = kAeadNonceBytes -> in_u64 wall ->
  blen (server_id_ r) <= 255 ->
  token_for r' token aad (hex_encode rid)
    (u64 (wall + u64 (default (default_ttl_seconds_ r) ttl))).
Proof.
  intros E Hrid Hn Hw Hid. unfold open in E. apply pair_equal_spec in E as [<- <-]. exists nonce, wall, []. cbn [key_ server_id_ add_entry].
  rewrite b64_decode_encode, token_frame_layout.
  split_and!; try done; [apply u64_range..|rewrite hex_encode_length; lia].
Qed.


(** ** Properties *)

(** What a session token is worth.  [unseal] answers [OK] exactly for a
    token whose envelope decrypts, under this registry's key and the presented
    identity, to a frame minted by this very server and not yet expired; the
    session id is the frame's. *)
Theorem session_token_accepts `{AeadLaws} wall r token aad sid :
  unseal wall r token aad = (OK, sid) <->
  exists nonce created expires trailing,
    base64url_decode token =
      Some ([x01] ++ aead_seal nonce (key_ r)
              (frame_layout created (server_id_ r) sid expires trailing) aad) /\
    length nonce = kAeadNonceBytes /\ in_u64 created /\ in_u64 expires /\
    length sid = 24%nat /\ blen (server_id_ r) <= 255 /\ wall <= expires.
Proof.
  rewrite unseal_ok_iff. unfold token_for. split.
  - intros (e & (n & c & t & ?) & ?). exists n, c, e, t. tauto.
  - intros (n & c & e & t & ?). exists e. split; [exists n, c, t|]; tauto.
Qed.

(** The life of a session.  A session opened under an identity resolves
    under it to its state until either clock passes its expiry, then not at
    all (running the close hook when it is the steady clock that found it);
    closing it runs the hook exactly once, and nothing resolves afterwards. *)
Theorem session_lifecycle `{AeadLaws} rid nonce wall steady r st aad ttl r' token :
  open rid nonce wall steady r (Some st) aad ttl = (r', token) ->
  length rid = 12%nat -> length nonce = kAeadNonceBytes -> blen (server_id_ r) <= 255 ->
  let life := default (default_ttl_seconds_ r) ttl in
  0 <= wall -> 0 <= life -> wall + life < 2 ^ 64 ->
  forall wall' steady',
  let r'' := set_entries r' (delete (hex_encode rid) (entries_ r')) in
  resolve wall' steady' r' token aad =
    (if wall + life <? wall' then (r', (EXPIRED, None, []))
     else if steady + seconds life <? steady' then (r'', (EXPIRED, None, [st]))
     else (r', (OK, Some (Some st, hex_encode rid), []))) /\
  (wall' <= wall + life ->
   close wall' r' token aad = (r'', (true, [st])) /\
   resolve wall' steady' r'' token aad = (r'', (MISSING, None, [])) /\
   close wall' r'' token aad = (r'', (false, []))).
Proof.
  intros Eo Hrid Hn Hid life Hw0 Hl0 Hmax wall' steady' r''.
  pose proof (open_token_for _ _ _ _ _ _ _ _ _ _ Eo Hrid Hn ltac:(unfold in_u64; lia) Hid) as Ht.
  destruct (open_ok _ _ _ _ _ _ _ _ _ _ Eo) as (Ees & Eent & Ek & Esid).
  fold life in Ht, Eent. rewrite (u64_small life), u64_small in Ht by (unfold in_u64; lia).
  assert (entries_ r' !! hex_encode rid = Some (fresh_ref r)) as El
    by (rewrite Ees; apply lookup_insert_eq).
  assert (entries_ r'' !! hex_encode rid = None) as Ed by apply lookup_delete_eq.
  assert (token_for r'' token aad (hex_encode rid) (wall + life)) as Ht'' by exact Ht.
  split.
  - unfold resolve. rewrite (unseal_token _ _ _ _ _ _ Ht).
    destruct (wall + life <? wall'); [done|]. unfold find_entry, resolve_check.
    rewrite El, Nat.eqb_refl, Eent. cbn [negb expires_at].
    destruct (_ <? steady'); [|by rewrite Eent].
    unfold close_hook. change (entry_at (set_entries _ _) (fresh_ref r)) with (entry_at r' (fresh_ref r)).
    by rewrite Eent.
  - intros Hle. unfold close, resolve. rewrite (unseal_token _ _ _ _ _ _ Ht), (unseal_token _ _ _ _ _ _ Ht'').
    rewrite (proj2 (Z.ltb_ge _ _)) by lia. unfold find_entry, close_check.
    rewrite Ed, El, Nat.eqb_refl. cbn [negb]. unfold close_hook.
    change (entry_at (set_entries _ _) (fresh_ref r)) with (entry_at r' (fresh_ref r)).
    by rewrite Eent.
Qed.

(** The identity bound into a token.  Two identities give the same
    associated data only when both are anonymous, or both authenticated with
    the same domain and principal (domains carry no NUL byte). *)
Theorem session_aad_injective d p b d' p' b' :
  x00 ∉ d -> x00 ∉ d' ->
  session_aad d p b = session_aad d' p' b' ->
  b = b' /\ (b = true -> d = d' /\ p = p').
Proof.
  intros Hd Hd' E. unfold session_aad in E. destruct b, b'.
  - apply app_inv_head in E. injection E as E. apply app_sep_inj in E; tauto.
  - apply app_inv_head in E. discriminate E.
  - apply app_inv_head in E. discriminate E.
  - done.
Qed.

(** The frame holds the length of the server id in one byte.  A registry
    whose server id is longer than 255 bytes mints tokens, but accepts none. *)
Theorem long_server_id_accepts_no_token `{AeadLaws} r :
  255 < blen (server_id_ r) ->
  forall wall token aad, (unseal wall r token aad).1 <> OK.
Proof.
  intros Hlong wall token aad E. destruct (unseal wall r token aad) as [s sid] eqn:Eu.
  cbn in E. subst s. apply unseal_ok_iff in Eu as (e & (n & c & t & ?) & _). lia.
Qed.

(** ** Witnesses *)

Import Toy.

Definition demo_registry : SessionRegistry := new_registry (replicate 32 x01) (str "worker-1") 0.

Definition demo_aad : bytes := session_aad (str "example.org") (str "alice") true.

Definition demo_open : SessionRegistry * bytes :=
  open (replicate 12 x07) (replicate 24 x02) 1000 5 demo_registry (Some 42%nat) demo_aad None.

Lemma session_token_accepts_witness :
  exists sid, unseal 1200 demo_open.1 demo_open.2 demo_aad = (OK, sid).
Proof.
  eexists. apply (session_token_accepts 1200 demo_open.1 demo_open.2 demo_aad (hex_encode (replicate 12 x07))).
  exists (replicate 24 x02), 1000, 1300, []. split_and!; vm_compute; done.
Defined.

Lemma session_lifecycle_witness :
  resolve 1300 (5 + seconds 300) demo_open.1 demo_open.2 demo_aad =
    (demo_open.1, (OK, Some (Some 42%nat, hex_encode (replicate 12 x07)), [])) /\
  (resolve 1000 (6 + seconds 300) demo_open.1 demo_open.2 demo_aad).2 = (EXPIRED, None, [42%nat]).
Proof.
  assert (demo_open = (demo_open.1, demo_open.2)) as E by by destruct demo_open.
  pose proof (session_lifecycle (replicate 12 x07) (replicate 24 x02) 1000 5 demo_registry 42
    demo_aad None demo_open.1 demo_open.2 E eq_refl eq_refl ltac:(done) ltac:(done) ltac:(done)
    ltac:(done)) as L.
  split.
  - exact (proj1 (L 1300 (5 + seconds 300))).
  - exact (f_equal snd (proj1 (L 1000 (6 + seconds 300)))).
Defined.

Lemma session_aad_injective_witness :
  session_aad (str "a") (str "bc") true <> session_aad (str "ab") (str "c") true.
Proof.
  intros E.
  destruct (session_aad_injective (str "a") (str "bc") true (str "ab") (str "c") true) as [_ H];
    [vm_compute; set_solver|vm_compute; set_solver|exact E|].
  destruct (H eq_refl) as [H1 _]. vm_compute in H1. discriminate H1.
Defined.

(** A token that a registry with a 256-byte server id has just minted. *)
Definition long_id_open : SessionRegistry * bytes :=
  open (replicate 12 x07) (replicate 24 x02) 1000 5
    (new_registry (replicate 32 x01) (replicate 256 "s"%byte) 0) (Some 42%nat) demo_aad None.

Lemma long_server_id_accepts_no_token_witness :
  (unseal 1001 long_id_open.1 long_id_open.2 demo_aad).1 <> OK.
Proof. apply long_server_id_accepts_no_token. vm_compute. done. Defined.
