(* ===== verification/SessionThreads.v ===== *)
(** * Sticky sessions under concurrency (src/src/session.cpp)

    Threads interleave at the critical sections of [Session]: every scope of
    [std::lock_guard lock(mutex_)] and every acquisition of a per-session
    dispatch mutex is one step of one thread.  A schedule is any list of
    (thread, action) pairs; a step that cannot happen (a thread waiting for a
    mutex another one holds) leaves the system as it is.  The theorems hold for
    every schedule. *)

From S2P Require Import Prelude Crypto Session.

(** ** Threads *)

(** Where a thread is inside an operation of the registry; an absent thread is
    outside all of them. *)
Inductive pc :=
  | RWait (sid : bytes) (ref : nat)      (* resolve: about to lock the session *)
  | RHeld (sid : bytes) (ref : nat)      (* resolve: holds the dispatch mutex *)
  | RClosing (ref : nat)                 (* resolve: erased an expired entry *)
  | CWait (sid : bytes) (ref : nat)
  | CHeld (sid : bytes) (ref : nat)
  | CClosing (ref : nat)
  | SLoop (todo : list (bytes * nat))    (* sweep: before the next candidate *)
  | SHeld (sid : bytes) (ref : nat) (todo : list (bytes * nat))
  | SClosing (ref : nat) (todo : list (bytes * nat))
  | DLoop (todo : list nat)              (* shutdown: before the next entry *)
  | DHeld (ref : nat) (todo : list nat).

(** [closed] is the log of entries whose close hook ran. [locks] maps an entry
    to the owner and depth of its recursive dispatch mutex. *)
Record system := {
  reg : SessionRegistry;
  locks : gmap nat (nat * nat);
  threads : gmap nat pc;
  closed : list nat;
}.

Definition with_reg (s : system) (r : SessionRegistry) : system :=
  {| reg := r; locks := locks s; threads := threads s; closed := closed s |}.
Definition with_locks (s : system) (l : gmap nat (nat * nat)) : system :=
  {| reg := reg s; locks := l; threads := threads s; closed := closed s |}.
Definition goto (s : system) (t : nat) (p : pc) : system :=
  {| reg := reg s; locks := locks s; threads := <[t := p]> (threads s); closed := closed s |}.
Definition leave (s : system) (t : nat) : system :=
  {| reg := reg s; locks := locks s; threads := delete t (threads s); closed := closed s |}.
Definition log_close (s : system) (ref : nat) : system :=
  {| reg := reg s; locks := locks s; threads := threads s; closed := closed s ++ [ref] |}.

(** [std::recursive_mutex]. *)
Definition acquire (t ref : nat) (l : gmap nat (nat * nat)) : option (gmap nat (nat * nat)) :=
  match l !! ref with
  | None => Some (<[ref := (t, 1%nat)]> l)
  | Some (owner, n) => if (owner =? t)%nat then Some (<[ref := (t, S n)]> l) else None
  end.

Definition unlock (ref : nat) (l : gmap nat (nat * nat)) : gmap nat (nat * nat) :=
  match l !! ref with
  | Some (owner, S (S n)) => <[ref := (owner, S n)]> l
  | _ => delete ref l
  end.

Definition lock_then (s : system) (t ref : nat) (p : pc) : option system :=
  l ← acquire t ref (locks s); Some (goto (with_locks s l) t p).

Definition unlocked (s : system) (ref : nat) : system := with_locks s (unlock ref (locks s)).

Inductive action :=
  | ActOpen (random_id nonce : bytes) (wall steady : Z) (st : option nat) (aad : bytes)
            (ttl : option Z)
  | ActResolve (wall : Z) (token aad : bytes)
  | ActClose (wall : Z) (token aad : bytes)
  | ActSweep (now : Z)
  | ActShutdown
  | ActRelease (ref : nat)   (* the caller's [out_dispatch_lock] goes away *)
  | ActNext (steady : Z).    (* continue the operation the thread is in *)

Section step.
Context {A : Aead}.

(** Calls made by a thread that is outside the registry. *)
Definition start (s : system) (t : nat) (a : action) : option system :=
  match a with
  | ActOpen rid nonce wall steady st aad ttl =>
      (* 96 random bits: an id in use is not drawn again *)
      if decide (entries_ (reg s) !! hex_encode rid = None) then
        Some (with_reg s (open rid nonce wall steady (reg s) st aad ttl).1)
      else None
  | ActResolve wall token aad =>
      match unseal wall (reg s) token aad with
      | (OK, sid) => ref ← find_entry (reg s) sid; Some (goto s t (RWait sid ref))
      | _ => Some s
      end
  | ActClose wall token aad =>
      match unseal wall (reg s) token aad with
      | (OK, sid) => ref ← find_entry (reg s) sid; Some (goto s t (CWait sid ref))
      | _ => Some s
      end
  | ActSweep now => Some (goto s t (SLoop (sweep_candidates now (reg s))))
  | ActShutdown =>
      let '(r, live) := shutdown_take (reg s) in Some (goto (with_reg s r) t (DLoop live))
  | ActRelease ref =>
      match locks s !! ref with
      | Some (owner, _) => if (owner =? t)%nat then Some (unlocked s ref) else None
      | None => None
      end
  | ActNext _ => None
  end.

Definition continue (s : system) (t : nat) (p : pc) (steady : Z) : option system :=
  match p with
  | RWait sid ref => lock_then s t ref (RHeld sid ref)
  | RHeld sid ref =>
      match resolve_check steady (reg s) sid ref with
      | (r, Gone) => Some (leave (unlocked (with_reg s r) ref) t)
      | (r, Live) => Some (leave (with_reg s r) t)
      | (r, Erased) => Some (goto (with_reg s r) t (RClosing ref))
      end
  | RClosing ref => Some (leave (unlocked (log_close s ref) ref) t)
  | CWait sid ref => lock_then s t ref (CHeld sid ref)
  | CHeld sid ref =>
      match close_check (reg s) sid ref with
      | (r, Erased) => Some (goto (with_reg s r) t (CClosing ref))
      | (r, _) => Some (leave (unlocked (with_reg s r) ref) t)
      end
  | CClosing ref => Some (leave (unlocked (log_close s ref) ref) t)
  | SLoop [] => Some (leave s t)
  | SLoop ((sid, ref) :: todo) => lock_then s t ref (SHeld sid ref todo)
  | SHeld sid ref todo =>
      match sweep_check steady (reg s) sid ref with
      | (r, Erased) => Some (goto (with_reg s r) t (SClosing ref todo))
      | (r, _) => Some (goto (unlocked (with_reg s r) ref) t (SLoop todo))
      end
  | SClosing ref todo => Some (goto (unlocked (log_close s ref) ref) t (SLoop todo))
  | DLoop [] => Some (leave s t)
  | DLoop (ref :: todo) => lock_then s t ref (DHeld ref todo)
  | DHeld ref todo => Some (goto (unlocked (log_close s ref) ref) t (DLoop todo))
  end.

(** A thread inside an operation continues it; one outside may call. *)
Definition thread_step (s : system) (t : nat) (a : action) : option system :=
  match threads s !! t with
  | None => start s t a
  | Some p => match a with ActNext steady => continue s t p steady | _ => None end
  end.

Definition run (s : system) (schedule : list (nat * action)) : system :=
  foldl (fun s '(t, a) => default s (thread_step s t a)) s schedule.
End step.

Definition initial (r : SessionRegistry) : system :=
  {| reg := r; locks := ∅; threads := ∅; closed := [] |}.

(** ** Where an entry is *)

(** Entries a thread has taken out of the map and must still close. *)
Definition pending (p : pc) : list nat :=
  match p with
  | RClosing ref | CClosing ref | SClosing ref _ => [ref]
  | DLoop todo => todo
  | DHeld ref todo => ref :: todo
  | _ => []
  end.

(** The dispatch mutex the current operation of a thread holds. *)
Definition frame_lock (p : pc) : option nat :=
  match p with
  | RHeld _ ref | RClosing ref | CHeld _ ref | CClosing ref
  | SHeld _ ref _ | SClosing ref _ | DHeld ref _ => Some ref
  | _ => None
  end.

Inductive place := InMap (sid : bytes) | Taken (t : nat) | Closed.

(** Entries [D], the map [m], what each thread has taken [P] and the log [C]. *)
Definition at_place (m : gmap bytes nat) (P : nat -> list nat) (C : list nat)
    (ref : nat) (q : place) : Prop :=
  match q with
  | InMap sid => m !! sid = Some ref
  | Taken t => ref ∈ P t
  | Closed => ref ∈ C
  end.

(** Every entry is in exactly one place, once. *)
Record placed (D : gset nat) (m : gmap bytes nat) (P : nat -> list nat) (C : list nat) : Prop := {
  placed_some ref : ref ∈ D -> exists q, at_place m P C ref q;
  placed_known ref q : at_place m P C ref q -> ref ∈ D;
  placed_one ref q q' : at_place m P C ref q -> at_place m P C ref q' -> q = q';
  placed_closed : NoDup C;
  placed_pending t : NoDup (P t);
}.

Definition upd (P : nat -> list nat) (t : nat) (l : list nat) : nat -> list nat :=
  fun t' => if (t' =? t)%nat then l else P t'.

Lemma upd_eq P t l : upd P t l t = l.
Proof. unfold upd. by rewrite Nat.eqb_refl. Qed.

Lemma upd_ne P t l t' : t' <> t -> upd P t l t' = P t'.
Proof. intros. unfold upd. by rewrite (proj2 (Nat.eqb_neq _ _)). Qed.

Lemma upd_pending P t l t' : NoDup l -> (forall t, NoDup (P t)) -> NoDup (upd P t l t').
Proof. intros. unfold upd. by destruct (t' =? t)%nat. Qed.

(** One entry goes to one place; nothing else moves. *)
Lemma placed_move D m P C D' m' P' C' ref q0 :
  placed D m P C ->
  (forall x q, at_place m' P' C' x q <-> (x = ref /\ q = q0) \/ (x <> ref /\ at_place m P C x q)) ->
  D' = {[ref]} ∪ D -> NoDup C' -> (forall t, NoDup (P' t)) ->
  placed D' m' P' C'.
Proof.
  intros [H1 H2 H3 H4 H5] E -> HC HP. split; try done.
  - intros x Hx. destruct (decide (x = ref)) as [->|Hne].
    + exists q0. apply E. by left.
    + apply elem_of_union in Hx as [?%elem_of_singleton|Hx]; [done|].
      destruct (H1 x Hx) as [q Hq]. exists q. apply E. by right.
  - intros x q [[-> _]|[_ Hq]]%E; [by apply elem_of_union_l, elem_of_singleton|].
    apply elem_of_union_r. by apply (H2 x q).
  - intros x q q' [[-> ->]|[Hn Hq]]%E [[Hx ->]|[Hn' Hq']]%E; try done. by apply (H3 x).
Qed.

Lemma placed_open D m P C sid ref :
  placed D m P C -> m !! sid = None -> ref ∉ D ->
  placed ({[ref]} ∪ D) (<[sid := ref]> m) P C.
Proof.
  intros HP Hsid Href. apply (placed_move D m P C _ _ _ _ ref (InMap sid) HP); try done;
    [|by apply (placed_closed _ _ _ _ HP)|apply (placed_pending _ _ _ _ HP)].
  intros x q. assert (x <> ref \/ forall q, ~ at_place m P C x q) as Hnew.
  { destruct (decide (x = ref)) as [->|]; [|by left]. right. intros q0 Hq0.
    apply Href. by apply (placed_known _ _ _ _ HP _ q0). }
  destruct q as [sid'|t|]; cbn [at_place] in *.
  - destruct (decide (sid' = sid)) as [->|Hne].
    + rewrite lookup_insert_eq. split; [intros [= ->]; by left|].
      intros [[-> _]|[_ E]]; [done|congruence].
    + rewrite lookup_insert_ne by congruence. split.
      * intros E. right. split; [|done]. destruct Hnew as [|Hnew]; [done|].
        by destruct (Hnew (InMap sid')).
      * intros [[_ [= ->]]|[_ E]]; done.
  - split; [|by intros [[_ ?]|[_ ?]]]. intros E. right. split; [|done].
    destruct Hnew as [|Hnew]; [done|]. by destruct (Hnew (Taken t)).
  - split; [|by intros [[_ ?]|[_ ?]]]. intros E. right. split; [|done].
    destruct Hnew as [|Hnew]; [done|]. by destruct (Hnew Closed).
Qed.

Lemma placed_take D m P C sid ref t :
  placed D m P C -> m !! sid = Some ref -> P t = [] ->
  placed D (delete sid m) (upd P t [ref]) C.
Proof.
  intros HP Hsid Ht. assert (forall q, at_place m P C ref q -> q = InMap sid) as Hone.
  { intros q Hq. by apply (placed_one _ _ _ _ HP ref). }
  apply (placed_move D m P C _ _ _ _ ref (Taken t) HP);
    [| |apply (placed_closed _ _ _ _ HP)|
       intros t'; apply upd_pending; [apply NoDup_singleton|apply (placed_pending _ _ _ _ HP)]].
  2: { assert (ref ∈ D) by by apply (placed_known _ _ _ _ HP ref (InMap sid)). set_solver. }
  intros x q. destruct q as [sid'|t'|]; cbn [at_place].
  - destruct (decide (sid' = sid)) as [->|Hne].
    + rewrite lookup_delete_eq. split; [done|]. intros [[_ ?]|[Hx E]]; [done|congruence].
    + rewrite lookup_delete_ne by congruence. split; [|by intros [[_ ?]|[_ ?]]].
      intros E. right. split; [|done]. intros ->. specialize (Hone (InMap sid') E). congruence.
  - destruct (decide (t' = t)) as [->|Hne].
    + rewrite upd_eq, Ht, list_elem_of_singleton. split; [by left|].
      intros [[-> _]|[_ Hin]]; [done|by apply not_elem_of_nil in Hin].
    + rewrite upd_ne by done. split; [|by intros [[_ [= ->]]|[_ ?]]].
      intros E. right. split; [|done]. intros ->. by specialize (Hone (Taken t') E).
  - split; [|by intros [[_ ?]|[_ ?]]].
    intros E. right. split; [|done]. intros ->. by specialize (Hone Closed E).
Qed.

Lemma placed_close D m P C ref rest t :
  placed D m P C -> P t = ref :: rest -> placed D m (upd P t rest) (C ++ [ref]).
Proof.
  intros HP Ht. pose proof (placed_pending _ _ _ _ HP t) as Hnd. rewrite Ht in Hnd.
  apply NoDup_cons in Hnd as [Hnin Hnd].
  assert (at_place m P C ref (Taken t)) as Hat by (cbn; rewrite Ht; by left).
  assert (forall q, at_place m P C ref q -> q = Taken t) as Hone.
  { intros q Hq. by apply (placed_one _ _ _ _ HP ref). }
  apply (placed_move D m P C _ _ _ _ ref Closed HP).
  - intros x q. destruct q as [sid'|t'|]; cbn [at_place].
    + split; [|by intros [[_ ?]|[_ ?]]]. intros E. right. split; [|done]. intros ->.
      by specialize (Hone (InMap sid') E).
    + destruct (decide (t' = t)) as [->|Hne].
      * rewrite upd_eq, Ht, elem_of_cons. split.
        { intros Hin. right. split; [by intros ->|by right]. }
        by intros [[_ ?]|[Hx [?|?]]].
      * rewrite upd_ne by done. split; [|by intros [[_ ?]|[_ ?]]].
        intros E. right. split; [|done]. intros ->. specialize (Hone (Taken t') E). congruence.
    + rewrite elem_of_app, list_elem_of_singleton. split.
      * intros [E| ->]; [|by left]. right. split; [|done]. intros ->. by specialize (Hone Closed E).
      * intros [[-> _]|[_ E]]; [by right|by left].
  - pose proof (placed_known _ _ _ _ HP ref _ Hat). set_solver.
  - apply NoDup_app. split; [apply (placed_closed _ _ _ _ HP)|]. split; [|apply NoDup_singleton].
    intros x Hx ->%list_elem_of_singleton. by specialize (Hone Closed Hx).
  - intros t'. by apply upd_pending; [|apply (placed_pending _ _ _ _ HP)].
Qed.

Lemma placed_take_all D m P C t :
  placed D m P C -> P t = [] -> placed D ∅ (upd P t (map_to_list m).*2) C.
Proof.
  intros HP Ht.
  assert (forall x, x ∈ (map_to_list m).*2 <-> exists sid, m !! sid = Some x) as Hin.
  { intros x. rewrite list_elem_of_fmap. split.
    - intros ([sid y] & -> & Hy%elem_of_map_to_list). by exists sid.
    - intros (sid & Hs). exists (sid, x). split; [done|]. by apply elem_of_map_to_list. }
  assert (forall x q, at_place ∅ (upd P t (map_to_list m).*2) C x q <->
    (q = Taken t /\ exists sid, at_place m P C x (InMap sid)) \/
    ((forall sid, q <> InMap sid) /\ at_place m P C x q)) as E.
  { intros x q. destruct q as [sid'|t'|]; cbn [at_place].
    - rewrite lookup_empty. split; [done|]. intros [[? _]|[Hq _]]; [done|]. by specialize (Hq sid').
    - destruct (decide (t' = t)) as [->|Hne].
      + rewrite upd_eq, Hin, Ht. split; [by left|].
        intros [[_ ?]|[_ Hx]]; [done|by apply not_elem_of_nil in Hx].
      + rewrite upd_ne by done. split; [by right|]. intros [[[= ->] _]|[_ ?]]; done.
    - split; [by right|]. by intros [[? _]|[_ ?]]. }
  destruct HP as [H1 H2 H3 H4 H5]. split; try done.
  - intros x Hx. destruct (H1 x Hx) as [q Hq]. destruct q as [sid|t'|].
    + exists (Taken t). apply E. left. eauto.
    + exists (Taken t'). apply E. by right.
    + exists Closed. apply E. by right.
  - intros x q [[_ [sid Hs]]|[_ Hq]]%E; eauto.
  - intros x q q' [[-> [sid Hs]]|[Hn Hq]]%E [[-> [sid' Hs']]|[Hn' Hq']]%E.
    + done.
    + exfalso. by apply (Hn' sid), (H3 x).
    + exfalso. by apply (Hn sid'), (H3 x).
    + by apply (H3 x).
  - intros t'. apply upd_pending; [|done]. apply NoDup_fmap_2_strong; [|apply NoDup_map_to_list].
    intros [s1 x1] [s2 x2] ?%elem_of_map_to_list ?%elem_of_map_to_list. cbn. intros ->.
    assert (InMap s1 = InMap s2) as [= ->] by by apply (H3 x2).
    done.
Qed.

Lemma placed_ext D m P P' C : (forall t, P' t = P t) -> placed D m P C -> placed D m P' C.
Proof.
  intros E [H1 H2 H3 H4 H5].
  assert (forall x q, at_place m P' C x q <-> at_place m P C x q) as EA
    by (intros x [?|t|]; cbn; by rewrite ?E).
  split; try done.
  - intros x Hx. destruct (H1 _ Hx) as [q ?]. exists q. by apply EA.
  - intros x q Hq%EA. by eapply H2.
  - intros x q q' Hq%EA Hq'%EA. by eapply H3.
  - intros t. by rewrite E.
Qed.

(** ** The invariant of the system *)

Definition pend (s : system) (t : nat) : list nat :=
  match threads s !! t with Some p => pending p | None => [] end.

Definition lock_ok (s : system) : Prop :=
  forall t p ref, threads s !! t = Some p -> frame_lock p = Some ref ->
  exists n, locks s !! ref = Some (t, S n).

Definition inv (s : system) : Prop :=
  placed (dom (heap_ (reg s))) (entries_ (reg s)) (pend s) (closed s) /\ lock_ok s.

Lemma pend_goto s t p t' : pend (goto s t p) t' = upd (pend s) t (pending p) t'.
Proof.
  unfold pend, upd, goto. cbn. destruct (Nat.eqb_spec t' t) as [->|].
  - by rewrite lookup_insert_eq.
  - by rewrite lookup_insert_ne.
Qed.

Lemma pend_leave s t t' : pend (leave s t) t' = upd (pend s) t [] t'.
Proof.
  unfold pend, upd, leave. cbn. destruct (Nat.eqb_spec t' t) as [->|].
  - by rewrite lookup_delete_eq.
  - by rewrite lookup_delete_ne.
Qed.

(** Moving thread [t] without moving entries. *)
Lemma placed_goto s t p D m C :
  placed D m (pend s) C -> pend s t = pending p -> placed D m (pend (goto s t p)) C.
Proof.
  intros HP Hp. apply placed_ext with (pend s); [|done]. intros t'. rewrite pend_goto. unfold upd.
  destruct (Nat.eqb_spec t' t) as [->|]; done.
Qed.

Lemma placed_leave s t D m C :
  placed D m (pend s) C -> pend s t = [] -> placed D m (pend (leave s t)) C.
Proof.
  intros HP Hp. apply placed_ext with (pend s); [|done]. intros t'. rewrite pend_leave. unfold upd.
  destruct (Nat.eqb_spec t' t) as [->|]; done.
Qed.

(** ** Dispatch mutexes *)

(** Steps of thread [t] never touch a mutex another thread owns. *)
Definition locks_respect (t : nat) (l l' : gmap nat (nat * nat)) : Prop :=
  forall ref owner n, l !! ref = Some (owner, n) -> owner <> t -> l' !! ref = Some (owner, n).

Lemma acquire_spec t ref l l' :
  acquire t ref l = Some l' -> locks_respect t l l' /\ exists n, l' !! ref = Some (t, S n).
Proof.
  unfold acquire. intros E. destruct (l !! ref) as [[o n]|] eqn:El.
  - destruct (Nat.eqb_spec o t) as [->|]; [|done]. injection E as <-. split.
    + intros r' o' n' H Hne. destruct (decide (r' = ref)) as [->|].
      * rewrite El in H. by injection H as -> _.
      * by rewrite lookup_insert_ne.
    + exists n. by rewrite lookup_insert_eq.
  - injection E as <-. split.
    + intros r' o' n' H Hne. destruct (decide (r' = ref)) as [->|]; [congruence|].
      by rewrite lookup_insert_ne.
    + exists 0%nat. by rewrite lookup_insert_eq.
Qed.

Lemma unlock_spec t ref l n :
  l !! ref = Some (t, n) -> locks_respect t l (unlock ref l).
Proof.
  intros El r' o' n' H Hne. unfold unlock. rewrite El.
  destruct (decide (r' = ref)) as [->|].
  - rewrite El in H. by injection H as -> _.
  - destruct n as [|[|n]]; rewrite ?lookup_delete_ne, ?lookup_insert_ne by congruence; done.
Qed.

Lemma locks_respect_refl t l : locks_respect t l l.
Proof. by intros ref owner n. Qed.
#[local] Hint Resolve locks_respect_refl : core.

(** The locks of a system after thread [t] moved to [q]. *)
Lemma lock_ok_step s s' t q :
  lock_ok s ->
  (forall t', threads s' !! t' = if (t' =? t)%nat then q else threads s !! t') ->
  locks_respect t (locks s) (locks s') ->
  (forall ref, q ≫= frame_lock = Some ref -> exists n, locks s' !! ref = Some (t, S n)) ->
  lock_ok s'.
Proof.
  intros Hok Hth Hresp Hq t' p ref Hp Hf. rewrite Hth in Hp.
  destruct (Nat.eqb_spec t' t) as [->|Hne].
  - subst q. by apply Hq.
  - destruct (Hok t' p ref Hp Hf) as [n Hn]. exists n. by eapply Hresp.
Qed.

Lemma threads_goto (s : system) t p t' :
  threads (goto s t p) !! t' = if (t' =? t)%nat then Some p else threads s !! t'.
Proof.
  cbn. destruct (Nat.eqb_spec t' t) as [->|]; [by rewrite lookup_insert_eq|by rewrite lookup_insert_ne].
Qed.

Lemma threads_leave (s : system) t t' :
  threads (leave s t) !! t' = if (t' =? t)%nat then None else threads s !! t'.
Proof.
  cbn. destruct (Nat.eqb_spec t' t) as [->|]; [by rewrite lookup_delete_eq|by rewrite lookup_delete_ne].
Qed.

(** ** Every step keeps the invariant *)

Section steps.
Context {A : Aead}.

Lemma resolve_check_cases steady r sid ref r' res :
  resolve_check steady r sid ref = (r', res) ->
  heap_ r' = heap_ r /\
  match res with
  | Erased => entries_ r !! sid = Some ref /\ entries_ r' = delete sid (entries_ r)
  | Live => r' = r /\ entries_ r !! sid = Some ref
  | Gone => r' = r
  end.
Proof.
  unfold resolve_check. destruct (entries_ r !! sid) as [ref'|]; [|by intros [= <- <-]].
  destruct (Nat.eqb_spec ref' ref) as [->|]; cbn [negb]; [|by intros [= <- <-]].
  destruct (_ <? _); by intros [= <- <-].
Qed.

Lemma close_check_cases r sid ref r' res :
  close_check r sid ref = (r', res) ->
  heap_ r' = heap_ r /\
  match res with
  | Erased => entries_ r !! sid = Some ref /\ entries_ r' = delete sid (entries_ r)
  | _ => r' = r
  end.
Proof.
  unfold close_check. destruct (entries_ r !! sid) as [ref'|]; [|by intros [= <- <-]].
  destruct (Nat.eqb_spec ref' ref) as [->|]; cbn [negb]; by intros [= <- <-].
Qed.

Lemma sweep_check_cases steady r sid ref r' res :
  sweep_check steady r sid ref = (r', res) ->
  heap_ r' = heap_ r /\
  match res with
  | Erased => entries_ r !! sid = Some ref /\ entries_ r' = delete sid (entries_ r)
  | _ => r' = r
  end.
Proof.
  unfold sweep_check. destruct (entries_ r !! sid) as [ref'|]; [|by intros [= <- <-]].
  destruct (Nat.eqb_spec ref' ref) as [->|]; cbn [andb]; [|by intros [= <- <-]].
  destruct (_ <? _); by intros [= <- <-].
Qed.

(** The five shapes a step has. *)
Lemma inv_lock_then s t ref p s' p0 :
  inv s -> threads s !! t = Some p0 -> pending p0 = pending p ->
  frame_lock p = Some ref -> lock_then s t ref p = Some s' -> inv s'.
Proof.
  intros [HP HL] Ht Hpend Hf E. unfold lock_then in E.
  destruct (acquire t ref (locks s)) as [l|] eqn:El; [|done]. cbn in E. injection E as <-.
  apply acquire_spec in El as [Hresp Hown]. split.
  - apply placed_goto; [exact HP|]. unfold pend. cbn. by rewrite Ht.
  - apply (lock_ok_step s _ t (Some p)); [done|intros t'; by rewrite threads_goto|done|].
    cbn. rewrite Hf. by intros ? [= <-].
Qed.

Lemma inv_move s s' t q :
  inv s -> reg s' = reg s -> closed s' = closed s ->
  (forall t', threads s' !! t' = if (t' =? t)%nat then q else threads s !! t') ->
  pend s t = from_option pending [] q ->
  q ≫= frame_lock = None -> locks_respect t (locks s) (locks s') -> inv s'.
Proof.
  intros [HP HL] Er Ec Hth Hp Hf Hresp. split.
  - rewrite Er, Ec. apply placed_ext with (pend s); [|done]. intros t'. unfold pend at 1.
    rewrite Hth. destruct (Nat.eqb_spec t' t) as [->|]; [|done]. rewrite Hp. by destruct q.
  - apply (lock_ok_step s _ t q); try done. rewrite Hf. done.
Qed.

(** An entry leaves the map and belongs to the thread, which keeps the lock. *)
Lemma inv_erase s t sid ref r' p p0 :
  inv s -> threads s !! t = Some p0 -> pending p0 = [] -> frame_lock p0 = Some ref ->
  heap_ r' = heap_ (reg s) -> entries_ (reg s) !! sid = Some ref ->
  entries_ r' = delete sid (entries_ (reg s)) ->
  pending p = [ref] -> frame_lock p = Some ref -> inv (goto (with_reg s r') t p).
Proof.
  intros [HP HL] Ht Hp0 Hf0 Eh Hsid Ees Hp Hf. split.
  - cbn. rewrite Eh, Ees.
    apply placed_ext with (upd (pend s) t [ref]).
    { intros t'. rewrite pend_goto. rewrite Hp. done. }
    apply placed_take; [done|done|]. unfold pend. by rewrite Ht.
  - apply (lock_ok_step s _ t (Some p)); [done|intros t'; by rewrite threads_goto|done|].
    cbn. rewrite Hf. intros ? [= <-]. by apply (HL t p0).
Qed.

(** The close hook of an entry the thread owns, then the unlock. *)
Lemma inv_close_hook s t ref rest p0 q s' :
  inv s -> threads s !! t = Some p0 -> pending p0 = ref :: rest -> frame_lock p0 = Some ref ->
  reg s' = reg s -> closed s' = closed s ++ [ref] -> locks s' = unlock ref (locks s) ->
  (forall t', threads s' !! t' = if (t' =? t)%nat then q else threads s !! t') ->
  from_option pending [] q = rest -> q ≫= frame_lock = None -> inv s'.
Proof.
  intros [HP HL] Ht Hp0 Hf0 Er Ec El Hth Hq Hqf. split.
  - rewrite Er, Ec. apply placed_ext with (upd (pend s) t rest).
    + intros t'. unfold pend at 1, upd. rewrite Hth.
      destruct (Nat.eqb_spec t' t) as [->|]; [|done]. rewrite <- Hq. by destruct q.
    + apply placed_close; [done|]. unfold pend. by rewrite Ht.
  - apply (lock_ok_step s _ t q); [done|done| |by rewrite Hqf].
    rewrite El. destruct (HL t p0 ref Ht Hf0) as [n Hn]. by eapply unlock_spec.
Qed.

Lemma inv_continue s t p steady s' :
  inv s -> threads s !! t = Some p -> continue s t p steady = Some s' -> inv s'.
Proof.
  intros Hinv Ht E. pose proof Hinv as [HP HL].
  assert (pend s t = pending p) as Hpend by (unfold pend; by rewrite Ht).
  assert (forall ref, frame_lock p = Some ref ->
    locks_respect t (locks s) (unlock ref (locks s))) as Hunlock.
  { intros ref Hf. destruct (HL t p ref Ht Hf) as [n Hn]. by eapply unlock_spec. }
  destruct p as [sid ref|sid ref|ref|sid ref|sid ref|ref|[|[sid ref] todo]|sid ref todo|ref todo
    |[|ref todo]|ref todo]; cbn [continue] in E.
  - eapply inv_lock_then; [exact Hinv|exact Ht| | |exact E]; done.
  - destruct (resolve_check _ _ _ _) as [r' res] eqn:Ec.
    apply resolve_check_cases in Ec as [Eh Ec]. destruct res; injection E as <-.
    + subst r'. apply (inv_move s _ t None); try done; [intros t'; by rewrite threads_leave|by apply Hunlock].
    + destruct Ec as [-> _]. apply (inv_move s _ t None); try done.
      intros t'; by rewrite threads_leave.
    + destruct Ec as [Hs Ees]. by eapply inv_erase.
  - injection E as <-. eapply (inv_close_hook s t ref [] _ None); try done.
    intros t'; by rewrite threads_leave.
  - eapply inv_lock_then; [exact Hinv|exact Ht| | |exact E]; done.
  - destruct (close_check _ _ _) as [r' res] eqn:Ec.
    apply close_check_cases in Ec as [Eh Ec]. destruct res; injection E as <-.
    1, 2: subst r'; apply (inv_move s _ t None); try done; [intros t'; by rewrite threads_leave|by apply Hunlock].
    destruct Ec as [Hs Ees]. by eapply inv_erase.
  - injection E as <-. eapply (inv_close_hook s t ref [] _ None); try done.
    intros t'; by rewrite threads_leave.
  - injection E as <-. apply (inv_move s _ t None); try done. intros t'; by rewrite threads_leave.
  - eapply inv_lock_then; [exact Hinv|exact Ht| | |exact E]; done.
  - destruct (sweep_check _ _ _ _) as [r' res] eqn:Ec.
    apply sweep_check_cases in Ec as [Eh Ec]. destruct res; injection E as <-.
    1, 2: subst r'; apply (inv_move s _ t (Some (SLoop todo))); try done;
      [intros t'; by rewrite threads_goto|by apply Hunlock].
    destruct Ec as [Hs Ees]. by eapply inv_erase.
  - injection E as <-. eapply (inv_close_hook s t ref [] _ (Some (SLoop todo))); try done.
    intros t'; by rewrite threads_goto.
  - injection E as <-. apply (inv_move s _ t None); try done. intros t'; by rewrite threads_leave.
  - eapply inv_lock_then; [exact Hinv|exact Ht| | |exact E]; done.
  - injection E as <-. eapply (inv_close_hook s t ref todo _ (Some (DLoop todo))); try done.
    intros t'; by rewrite threads_goto.
Qed.

Lemma inv_start s t a s' :
  inv s -> threads s !! t = None -> start s t a = Some s' -> inv s'.
Proof.
  intros Hinv Ht E. pose proof Hinv as [HP HL].
  assert (pend s t = []) as Hpend by (unfold pend; by rewrite Ht).
  assert (forall t', threads s !! t' = if (t' =? t)%nat then None else threads s !! t') as Hth.
  { intros t'. destruct (Nat.eqb_spec t' t) as [->|]; [by rewrite Ht|done]. }
  destruct a as [rid nonce wall steady st aad ttl|wall tok aad|wall tok aad|now| |ref|steady];
    cbn [start] in E.
  - destruct (decide _) as [Hfree|]; [|done]. injection E as <-. split; [|done].
    cbn [reg closed with_reg]. unfold open. cbn [fst heap_ entries_ add_entry].
    rewrite dom_insert_L. apply placed_open; [done|done|]. unfold fresh_ref. apply is_fresh.
  - destruct (unseal _ _ _ _) as [[] sid]; try by injection E as <-.
    destruct (find_entry (reg s) sid) as [ref|]; [|done]. cbn in E. injection E as <-.
    apply (inv_move s _ t (Some (RWait sid ref))); try done. intros t'; by rewrite threads_goto.
  - destruct (unseal _ _ _ _) as [[] sid]; try by injection E as <-.
    destruct (find_entry (reg s) sid) as [ref|]; [|done]. cbn in E. injection E as <-.
    apply (inv_move s _ t (Some (CWait sid ref))); try done. intros t'; by rewrite threads_goto.
  - injection E as <-. eapply (inv_move s _ t (Some (SLoop _))); try done.
    intros t'; by rewrite threads_goto.
  - cbn in E. injection E as <-. split.
    + apply placed_ext with (upd (pend s) t (map_to_list (entries_ (reg s))).*2);
        [intros t'; by rewrite pend_goto|]. by apply placed_take_all.
    + eapply (lock_ok_step s _ t (Some (DLoop _))); try done. intros t'; by rewrite threads_goto.
  - destruct (locks s !! ref) as [[owner n]|] eqn:El; [|done].
    destruct (Nat.eqb_spec owner t) as [->|]; [|done]. injection E as <-.
    apply (inv_move s _ t None); try done. by eapply unlock_spec.
  - done.
Qed.

Lemma inv_thread_step s t a s' : inv s -> thread_step s t a = Some s' -> inv s'.
Proof.
  intros Hinv. unfold thread_step. destruct (threads s !! t) as [p|] eqn:Ht.
  - destruct a; try done. by apply inv_continue.
  - by apply inv_start.
Qed.

Lemma inv_initial r : entries_ r = ∅ -> heap_ r = ∅ -> inv (initial r).
Proof.
  intros Ees Eh. split; [|intros t p ref Hp; cbn in Hp; by rewrite lookup_empty in Hp].
  cbn. rewrite Ees, Eh, dom_empty_L. split.
  - intros x Hx. by apply not_elem_of_empty in Hx.
  - intros x [sid|t|] Hq; cbn in Hq; [by rewrite lookup_empty in Hq| |by apply not_elem_of_nil in Hq].
    unfold pend in Hq. cbn in Hq. rewrite lookup_empty in Hq. by apply not_elem_of_nil in Hq.
  - intros x q q' Hq. exfalso. destruct q as [sid|t|]; cbn in Hq; [by rewrite lookup_empty in Hq| |by apply not_elem_of_nil in Hq].
    unfold pend in Hq. cbn in Hq. rewrite lookup_empty in Hq. by apply not_elem_of_nil in Hq.
  - apply NoDup_nil_2.
  - intros t. unfold pend. cbn. rewrite lookup_empty. apply NoDup_nil_2.
Qed.

Lemma inv_run s schedule : inv s -> inv (run s schedule).
Proof.
  unfold run. revert s; induction schedule as [|[t a] schedule IH]; intros s Hs; [done|].
  cbn [foldl]. apply IH. destruct (thread_step s t a) as [s'|] eqn:E; [|done].
  by eapply inv_thread_step.
Qed.

(** A step of one thread cannot close what another thread has locked. *)
Lemma thread_step_respects s t a s' :
  inv s -> thread_step s t a = Some s' ->
  locks_respect t (locks s) (locks s') /\
  (closed s' = closed s \/
   exists ref n, closed s' = closed s ++ [ref] /\ locks s !! ref = Some (t, S n)).
Proof.
  intros [HP HL]. unfold thread_step. destruct (threads s !! t) as [p|] eqn:Ht.
  - destruct a as [| | | | | |steady]; try done.
    assert (forall ref, frame_lock p = Some ref ->
      locks_respect t (locks s) (unlock ref (locks s)) /\
      exists n, locks s !! ref = Some (t, S n)) as Hf.
    { intros ref Hf. destruct (HL t p ref Ht Hf) as [n Hn]. split; [by eapply unlock_spec|eauto]. }
    assert (forall ref p s', lock_then s t ref p = Some s' ->
      locks_respect t (locks s) (locks s') /\ (closed s' = closed s \/
        exists ref n, closed s' = closed s ++ [ref] /\ locks s !! ref = Some (t, S n))) as Hlock.
    { intros ref p' s1 E. unfold lock_then in E.
      destruct (acquire t ref (locks s)) as [l|] eqn:El; [|done]. injection E as <-.
      apply acquire_spec in El as [? _]. auto. }
    destruct p as [sid ref|sid ref|ref|sid ref|sid ref|ref|[|[sid ref] todo]|sid ref todo|ref todo
      |[|ref todo]|ref todo]; cbn [continue]; try (by apply Hlock);
      try (destruct (Hf ref eq_refl) as [? [n ?]]).
    + destruct (resolve_check _ _ _ _) as [r' []]; intros [= <-]; auto.
    + intros [= <-]. split; [done|]. right. eauto.
    + destruct (close_check _ _ _) as [r' []]; intros [= <-]; auto.
    + intros [= <-]. split; [done|]. right. eauto.
    + intros [= <-]. auto.
    + destruct (sweep_check _ _ _ _) as [r' []]; intros [= <-]; auto.
    + intros [= <-]. split; [done|]. right. eauto.
    + intros [= <-]. auto.
    + intros [= <-]. split; [done|]. right. eauto.
  - destruct a as [rid nonce wall steady st aad ttl|wall tok aad|wall tok aad|now| |ref|steady];
      cbn [start].
    + destruct (decide _); intros [= <-]; auto.
    + destruct (unseal _ _ _ _) as [[] sid]; try (intros [= <-]; auto).
      destruct (find_entry _ _); intros [= <-]; auto.
    + destruct (unseal _ _ _ _) as [[] sid]; try (intros [= <-]; auto).
      destruct (find_entry _ _); intros [= <-]; auto.
    + intros [= <-]; auto.
    + intros [= <-]; auto.
    + destruct (locks s !! ref) as [[owner n]|] eqn:El; [|done].
      destruct (Nat.eqb_spec owner t) as [->|]; [|done]. intros [= <-].
      split; [by eapply unlock_spec|auto].
    + done.
Qed.
End steps.

(** ** Properties *)

Definition fresh_registry (r : SessionRegistry) : Prop := entries_ r = ∅ /\ heap_ r = ∅.

(** C31: under every interleaving of opens, resolves, closes, sweeps and
    shutdowns, no close hook runs twice; every entry ever registered is in
    exactly one place, the map, the hands of one thread about to close it, or
    the log of closed ones; so once no thread is inside the registry, a session
    is either still registered or was closed, exactly once. *)
Theorem sessions_closed_exactly_once `{Aead} r schedule :
  fresh_registry r ->
  let s := run (initial r) schedule in
  NoDup (closed s) /\
  (forall ref, ref ∈ dom (heap_ (reg s)) ->
     exists q, at_place (entries_ (reg s)) (pend s) (closed s) ref q /\
       forall q', at_place (entries_ (reg s)) (pend s) (closed s) ref q' -> q' = q) /\
  (threads s = ∅ -> forall ref, ref ∈ dom (heap_ (reg s)) ->
     ref ∈ closed s <-> forall sid, entries_ (reg s) !! sid <> Some ref).
Proof.
  intros [Hes Hh] s. destruct (inv_run (initial r) schedule (inv_initial r Hes Hh)) as [HP _].
  fold s in HP. destruct HP as [H1 H2 H3 H4 H5]. split; [done|]. split.
  - intros ref Href. destruct (H1 ref Href) as [q Hq]. exists q. split; [done|].
    intros q' Hq'. by apply (H3 ref).
  - intros Hidle ref Href. split.
    + intros Hc sid Hs. by specialize (H3 ref Closed (InMap sid) Hc Hs).
    + intros Hs. destruct (H1 ref Href) as [[sid|t|] Hq]; [by specialize (Hs sid)| |done].
      cbn in Hq. unfold pend in Hq. rewrite Hidle, lookup_empty in Hq.
      by apply not_elem_of_nil in Hq.
Qed.

(** A dispatch mutex protects a session from every other thread.  In any
    reachable system, a step of one thread neither takes away a mutex another
    thread holds nor runs the close hook of the session it guards; and when
    [resolve] answers OK the session has not been closed and its mutex is the
    caller's. *)
Theorem dispatch_lock_protects_session `{Aead} r schedule t a s' :
  fresh_registry r ->
  let s := run (initial r) schedule in
  thread_step s t a = Some s' ->
  (forall ref owner n, locks s !! ref = Some (owner, n) -> owner <> t ->
     locks s' !! ref = Some (owner, n) /\ (ref ∈ closed s' <-> ref ∈ closed s)) /\
  (forall sid ref steady, threads s !! t = Some (RHeld sid ref) -> a = ActNext steady ->
     (resolve_check steady (reg s) sid ref).2 = Live ->
     threads s' !! t = None /\ (ref ∉ closed s') /\ exists n, locks s' !! ref = Some (t, S n)).
Proof.
  intros [Hes Hh] s E. pose proof (inv_run (initial r) schedule (inv_initial r Hes Hh)) as Hinv.
  fold s in Hinv. destruct (thread_step_respects s t a s' Hinv E) as [Hresp Hcl]. split.
  - intros ref owner n Hl Hne. split; [by eapply Hresp|].
    destruct Hcl as [->|(ref' & n' & -> & Hl')]; [done|].
    rewrite elem_of_app, list_elem_of_singleton. split; [|by left].
    intros [?| ->]; [done|]. congruence.
  - intros sid ref steady Ht -> Hlive. unfold thread_step in E. rewrite Ht in E. cbn [continue] in E.
    destruct (resolve_check _ _ _ _) as [r' res] eqn:Ec. cbn in Hlive. subst res.
    destruct (resolve_check_cases _ _ _ _ _ _ Ec) as [_ [-> Hs]]. injection E as <-.
    split; [cbn; by rewrite lookup_delete_eq|]. split.
    + intros Hc. destruct Hinv as [HP _].
      by specialize (placed_one _ _ _ _ HP ref (InMap sid) Closed Hs Hc).
    + destruct Hinv as [_ HL]. by apply (HL t (RHeld sid ref)).
Qed.

(** ** Witnesses

    Thread 1 opens a session; threads 2 and 3 race to resolve and to close it
    and thread 4 shuts the registry down: the hook runs once. *)

Import Toy.

Definition demo_token : bytes := demo_open.2.

Definition demo_schedule : list (nat * action) :=
  [ (1, ActOpen (replicate 12 x07) (replicate 24 x02) 1000 5 (Some 42%nat) demo_aad None);
    (2, ActResolve 1100 demo_token demo_aad);
    (3, ActClose 1100 demo_token demo_aad);
    (2, ActNext 6);               (* 2 locks the session *)
    (3, ActNext 6);               (* 3 waits *)
    (2, ActNext 6);               (* 2 resolves it *)
    (4, ActShutdown);             (* 4 takes it out of the map *)
    (3, ActNext 6);               (* 3 still waits *)
    (4, ActNext 6);               (* so does 4 *)
    (2, ActRelease 0);            (* the handler of 2 is done *)
    (3, ActNext 6);               (* 3 locks it *)
    (3, ActNext 6);               (* 3 finds it gone *)
    (4, ActNext 6); (4, ActNext 6); (4, ActNext 6) ]%nat.

Lemma demo_fresh : fresh_registry demo_registry.
Proof. done. Qed.

Example demo_schedule_run :
  closed (run (initial demo_registry) demo_schedule) = [0%nat] /\
  threads (run (initial demo_registry) demo_schedule) = ∅.
Proof. vm_compute. done. Qed.

Lemma sessions_closed_exactly_once_witness :
  NoDup (closed (run (initial demo_registry) demo_schedule)).
Proof. exact (proj1 (sessions_closed_exactly_once demo_registry demo_schedule demo_fresh)). Defined.

(** After the first six steps thread 2 holds the session; thread 4's shutdown
    leaves the mutex alone. *)
Lemma dispatch_lock_protects_session_witness :
  match thread_step (run (initial demo_registry) (take 6 demo_schedule)) 4 ActShutdown with
  | Some s' => locks s' !! 0%nat = Some (2%nat, 1%nat)
  | None => False
  end.
Proof.
  destruct (thread_step _ 4 ActShutdown) as [s'|] eqn:E; [|vm_compute in E; discriminate E].
  destruct (dispatch_lock_protects_session demo_registry (take 6 demo_schedule) 4 ActShutdown s'
    demo_fresh E) as [H _].
  apply (H 0%nat 2%nat 1%nat); [vm_compute; reflexivity|done].
Defined.
