(* ===== verification/PeerIdentity.v ===== *)
(** * Peer identities and authentication policies (src/src/identity.cpp)

    What a transport learned about its peer: evidence of providers, validated
    when it is built, and the policies that turn evidence and the application's
    own authentication into the identity of a call.  The clock and the linker of
    [all_of_peer_identities] are arguments. *)

From Stdlib Require Import Sorting.Sorted.
From S2P Require Import Prelude Json Crypto IdentityInternal.

Definition kMaxJsonBytes : Z := 65536.
Definition kMaxJsonDepth : Z := 16.
Definition kMaxJsonValues : Z := 4096.
Definition kMaxHeaderFields : Z := 256.
Definition kMaxHeaderBytes : Z := 65536.

(** ** Text checks *)

Definition require_text (value field : bytes) : res unit :=
  throw_if (negb (valid_utf8 value)) (InvalidArgument (field ++ str " contains invalid UTF-8")).

Definition require_header_text (value field : bytes) : res unit :=
  _ ← require_text value field;
  throw_if (existsb (fun c => Byte.eqb c x0d || Byte.eqb c x0a || Byte.eqb c x00) value)
    (PeerIdentityRejected (field ++ str " contains a control character")).

(** [depth] is the depth of [value] and [count] the values seen before it; the
    result is the count after it. *)
Fixpoint validate_json (value : json) (depth count : Z) : res Z :=
  _ ← throw_if (kMaxJsonDepth <? depth)
        (InvalidArgument (str "peer evidence exceeds JSON depth limit"));
  let count := count + 1 in
  _ ← throw_if (kMaxJsonValues <? count)
        (InvalidArgument (str "peer evidence exceeds JSON value limit"));
  match value with
  | JString s => _ ← require_text s (str "peer evidence string"); Ok count
  | JFloat f =>
      _ ← throw_if (negb (isfinite f)) (InvalidArgument (str "peer evidence numbers must be finite"));
      Ok count
  | JObject ms =>
      (fix members ms count :=
         match ms with
         | [] => Ok count
         | (key, item) :: ms' =>
             _ ← require_text key (str "peer evidence key");
             count ← validate_json item (depth + 1) count;
             members ms' count
         end) ms count
  | JArray items =>
      (fix elements items count :=
         match items with
         | [] => Ok count
         | item :: items' =>
             count ← validate_json item (depth + 1) count;
             elements items' count
         end) items count
  | _ => Ok count
  end.

(** [dump] and the [[]] operator throw classes of the JSON library. *)
Definition json_throws {A} : res A := Throw (RuntimeError (str "json")).

Definition dump_or_throw `{JsonText} (v : json) : res bytes :=
  match json_dump v with Some t => Ok t | None => json_throws end.

Definition validate_json_object `{JsonText} (value : json) : res unit :=
  _ ← throw_if (negb (is_object value)) (InvalidArgument (str "peer evidence must be a JSON object"));
  _ ← validate_json value 1 0;
  text ← dump_or_throw value;
  throw_if (kMaxJsonBytes <? blen text) (InvalidArgument (str "peer evidence exceeds JSON byte limit")).

Definition upper_hex : bytes := str "0123456789ABCDEF".

Definition percent_char (c : byte) : bytes :=
  if isalnum c || Byte.eqb c "-"%byte || Byte.eqb c "."%byte || Byte.eqb c "_"%byte
     || Byte.eqb c "~"%byte then [c]
  else ["%"%byte; upper_hex !!! Z.to_nat (Z.shiftr (b2z c) 4); upper_hex !!! Z.to_nat (Z.land (b2z c) 15)].

Definition percent (value : bytes) : bytes := concat (map percent_char value).

(** ** Enumerations and their wire names *)

Inductive PeerIdentityStatus :=
  | OFF | NOT_APPLICABLE | AVAILABLE | PEER_UNAVAILABLE | PEER_PERMISSION_DENIED | NO_MATCH | INVALID
  | UNTRUSTED_PROXY.
Inductive IdentityAssurance := CRYPTOGRAPHIC_PEER | LOCAL_DAEMON | CONFIGURED_PROXY.
Inductive PeerSubjectKind := USER | TAGGED_NODE | WORKLOAD | ENDPOINT | UNKNOWN_KIND.
Inductive SubjectStability := STABLE | LOGIN | NO_STABILITY.

#[export] Instance PeerIdentityStatus_eq_decision : EqDecision PeerIdentityStatus.
Proof. solve_decision. Defined.
#[export] Instance IdentityAssurance_eq_decision : EqDecision IdentityAssurance.
Proof. solve_decision. Defined.
#[export] Instance PeerSubjectKind_eq_decision : EqDecision PeerSubjectKind.
Proof. solve_decision. Defined.
#[export] Instance SubjectStability_eq_decision : EqDecision SubjectStability.
Proof. solve_decision. Defined.

Definition wire_status (value : PeerIdentityStatus) : bytes :=
  match value with
  | OFF => str "off" | NOT_APPLICABLE => str "not_applicable" | AVAILABLE => str "available"
  | PEER_UNAVAILABLE => str "unavailable" | PEER_PERMISSION_DENIED => str "permission_denied"
  | NO_MATCH => str "no_match" | INVALID => str "invalid" | UNTRUSTED_PROXY => str "untrusted_proxy"
  end.
Definition wire_assurance (value : IdentityAssurance) : bytes :=
  match value with
  | CRYPTOGRAPHIC_PEER => str "cryptographic_peer" | LOCAL_DAEMON => str "local_daemon"
  | CONFIGURED_PROXY => str "configured_proxy"
  end.
Definition wire_kind (value : PeerSubjectKind) : bytes :=
  match value with
  | USER => str "user" | TAGGED_NODE => str "tagged_node" | WORKLOAD => str "workload"
  | ENDPOINT => str "endpoint" | UNKNOWN_KIND => str "unknown"
  end.
Definition wire_stability (value : SubjectStability) : bytes :=
  match value with STABLE => str "stable" | LOGIN => str "login" | NO_STABILITY => str "none" end.

(** ** Contexts *)

Record AuthContext := {
  auth_domain : bytes;
  authenticated : bool;
  auth_principal : option bytes;
  auth_claims : json;
}.

Definition anonymous : AuthContext :=
  {| auth_domain := []; authenticated := false; auth_principal := None; auth_claims := JObject [] |}.

(** [claims[key] = value]: a null becomes an object, a present member is
    replaced, and any other value throws. *)
Definition set_member (key : bytes) (value : json) (ms : members) : members :=
  place_member key value (List.filter (fun m => negb (bool_decide (m.1 = key))) ms).

Definition set_claim (key : bytes) (value : json) (auth : AuthContext) : res AuthContext :=
  claims ← match auth_claims auth with
           | JNull => Ok (JObject [(key, value)])
           | JObject ms => Ok (JObject (set_member key value ms))
           | _ => json_throws
           end;
  Ok {| auth_domain := auth_domain auth; authenticated := authenticated auth;
        auth_principal := auth_principal auth; auth_claims := claims |}.

(** [headers] is a [std::map]: in key order. *)
Record PeerResolutionContext := {
  pc_transport : bytes;
  immediate_peer : option bytes;
  source_endpoint : option bytes;
  asserted_peer : option bytes;
  pc_destination_address : option bytes;
  authority : option bytes;
  service_name : option bytes;
  headers : list (bytes * list bytes);
  pc_metadata : json;
  deadline : Z;
}.

Fixpoint require_texts (values : list (option bytes)) (field : bytes) : res unit :=
  match values with
  | [] => Ok tt
  | None :: values' => require_texts values' field
  | Some v :: values' => _ ← require_text v field; require_texts values' field
  end.

Fixpoint header_values_size (values : list bytes) (size : Z) : res Z :=
  match values with
  | [] => Ok size
  | v :: values' =>
      _ ← require_header_text v (str "header value");
      header_values_size values' (size + blen v)
  end.

(** The loop over the headers; [normalized] is the set of lower-cased names. *)
Fixpoint validate_headers (hs : list (bytes * list bytes)) (normalized : gset bytes) (size : Z)
    : res unit :=
  match hs with
  | [] => Ok tt
  | (name, values) :: hs' =>
      let lower := lower_ascii name in
      _ ← throw_if (bool_decide (lower ∈ normalized)) (PeerIdentityRejected (str "case-varied duplicate header"));
      _ ← throw_if (1 <? blen values) (PeerIdentityRejected (str "duplicate peer identity header"));
      _ ← require_header_text name (str "header name");
      size ← header_values_size values (size + blen name);
      _ ← throw_if (kMaxHeaderBytes <? size)
            (PeerIdentityRejected (str "peer identity headers exceed byte limit"));
      validate_headers hs' ({[lower]} ∪ normalized) size
  end.

Definition PeerResolutionContext_validate `{JsonText} (self : PeerResolutionContext) : res unit :=
  _ ← throw_if (length (pc_transport self) =? 0)%nat (InvalidArgument (str "transport is required"));
  _ ← require_text (pc_transport self) (str "transport");
  _ ← require_texts [immediate_peer self; source_endpoint self; asserted_peer self;
                     pc_destination_address self; authority self; service_name self]
        (str "peer resolution field");
  _ ← validate_json_object (pc_metadata self);
  _ ← throw_if (kMaxHeaderFields <? blen (headers self))
        (PeerIdentityRejected (str "too many peer identity headers"));
  validate_headers (headers self) ∅ 0.

Fixpoint find_header (sought : bytes) (hs : list (bytes * list bytes)) : res (option bytes) :=
  match hs with
  | [] => Ok None
  | (candidate, values) :: hs' =>
      if bool_decide (lower_ascii candidate = sought) then
        if 1 <? blen values then Throw (PeerIdentityRejected (str "duplicate peer identity header"))
        else Ok (head values)
      else find_header sought hs'
  end.

Definition PeerResolutionContext_header (self : PeerResolutionContext) (name : bytes)
    : res (option bytes) :=
  find_header (lower_ascii name) (headers self).

Definition remaining_budget (now : Z) (self : PeerResolutionContext) : Z := Z.max (deadline self - now) 0.

(** ** One identity *)

Record PeerIdentity := {
  pi_provider : bytes;
  pi_evidence_source : bytes;
  pi_issuer : bytes;
  pi_transport : bytes;
  pi_assurance : IdentityAssurance;
  pi_subject_kind : PeerSubjectKind;
  pi_subject_key : option bytes;
  pi_subject_stability : SubjectStability;
  pi_subject_verified : bool;
  pi_attributes : json;
  pi_capabilities : json;
  pi_capabilities_verified : bool;
  pi_source_address : option bytes;
  pi_proxy_address : option bytes;
}.

(** The constructor's checks on its members. *)
Definition new_PeerIdentity `{JsonText} (self : PeerIdentity) : res PeerIdentity :=
  let is_empty s := (length (s : bytes) =? 0)%nat in
  _ ← throw_if (is_empty (pi_provider self) || is_empty (pi_evidence_source self)
                || is_empty (pi_issuer self) || is_empty (pi_transport self))
        (InvalidArgument (str "provider, evidence source, issuer, and transport are required"));
  _ ← require_text (pi_provider self) (str "provider");
  _ ← require_text (pi_evidence_source self) (str "evidence source");
  _ ← require_text (pi_issuer self) (str "issuer");
  _ ← require_text (pi_transport self) (str "transport");
  _ ← match pi_subject_key self with Some k => require_text k (str "subject key") | None => Ok tt end;
  _ ← throw_if (pi_subject_verified self
                && match pi_subject_key self with None | Some [] => true | _ => false end)
        (InvalidArgument (str "verified identity requires a subject key"));
  _ ← throw_if (negb (bool_decide (is_Some (pi_subject_key self)))
                && negb (bool_decide (pi_subject_stability self = NO_STABILITY)))
        (InvalidArgument (str "subjectless identity must have none stability"));
  _ ← validate_json_object (pi_attributes self);
  _ ← validate_json_object (pi_capabilities self);
  Ok self.

Definition canonical_principal (self : PeerIdentity) : res bytes :=
  match pi_subject_key self with
  | None => Throw (LogicError (str "subjectless evidence has no canonical principal"))
  | Some key =>
      Ok (str "peer/" ++ percent (pi_provider self) ++ str "/" ++ percent (pi_issuer self) ++ str "/"
          ++ percent key)
  end.

Record PeerIdentityResult := {
  pr_provider : bytes;
  pr_status : PeerIdentityStatus;
  pr_identities : list PeerIdentity;
}.

Definition PeerIdentityResult_validate (self : PeerIdentityResult) : res unit :=
  _ ← throw_if (length (pr_provider self) =? 0)%nat (InvalidArgument (str "peer result provider is required"));
  _ ← throw_if (negb (Bool.eqb (bool_decide (pr_status self = AVAILABLE))
                               (negb (length (pr_identities self) =? 0)%nat)))
        (InvalidArgument (str "only available results may carry identities"));
  throw_if (existsb (fun i => negb (bool_decide (pi_provider i = pr_provider self))) (pr_identities self))
    (InvalidArgument (str "peer result provider mismatch")).

Definition PeerIdentityResult_available (identity : PeerIdentity) : res PeerIdentityResult :=
  let result := {| pr_provider := pi_provider identity; pr_status := AVAILABLE;
                   pr_identities := [identity] |} in
  _ ← PeerIdentityResult_validate result; Ok result.

(** ** A set of evidence *)

Record PeerEvidenceSet := {
  identities_ : list PeerIdentity;
  statuses_ : gmap bytes PeerIdentityStatus;
}.

Definition no_evidence : PeerEvidenceSet := {| identities_ := []; statuses_ := ∅ |}.

Definition with_result (self : PeerEvidenceSet) (result : PeerIdentityResult) : res PeerEvidenceSet :=
  _ ← PeerIdentityResult_validate result;
  _ ← throw_if (bool_decide (is_Some (statuses_ self !! pr_provider result)))
        (InvalidArgument (str "duplicate peer provider"));
  Ok {| identities_ := identities_ self ++ pr_identities result;
        statuses_ := <[pr_provider result := pr_status result]> (statuses_ self) |}.

(** The constructor: the loop over the results. *)
Fixpoint add_results (self : PeerEvidenceSet) (results : list PeerIdentityResult) : res PeerEvidenceSet :=
  match results with
  | [] => Ok self
  | result :: results' => self ← with_result self result; add_results self results'
  end.
Definition new_PeerEvidenceSet (results : list PeerIdentityResult) : res PeerEvidenceSet :=
  add_results no_evidence results.

Definition status (self : PeerEvidenceSet) (provider : bytes) : PeerIdentityStatus :=
  default OFF (statuses_ self !! provider).

Definition for_provider (self : PeerEvidenceSet) (provider : bytes) : list PeerIdentity :=
  List.filter (fun i => bool_decide (pi_provider i = provider)) (identities_ self).

Definition is_eligible (value : PeerIdentity) : bool :=
  negb (negb (pi_subject_verified value) || negb (bool_decide (is_Some (pi_subject_key value)))
        || negb (bool_decide (pi_subject_stability value = STABLE))).

Definition eligible_subjects (self : PeerEvidenceSet) (provider : bytes) : list PeerIdentity :=
  List.filter is_eligible (for_provider self provider).

Definition unique_verified_subject (self : PeerEvidenceSet) (provider : bytes) : res PeerIdentity :=
  match eligible_subjects self provider with
  | [i] => Ok i
  | _ => Throw (PeerIdentityRejected (str "provider did not produce one verified stable subject"))
  end.

Definition require_available_provider (self : PeerEvidenceSet) (provider : bytes) : res unit :=
  let outcome := status self provider in
  _ ← throw_if (bool_decide (outcome = PEER_UNAVAILABLE) || bool_decide (outcome = PEER_PERMISSION_DENIED))
        (PeerIdentityUnavailable (str "peer identity provider is unavailable"));
  _ ← throw_if (bool_decide (outcome = INVALID) || bool_decide (outcome = UNTRUSTED_PROXY))
        (PeerIdentityRejected (str "peer identity provider rejected evidence"));
  throw_if (negb (bool_decide (outcome = AVAILABLE)) || (length (for_provider self provider) =? 0)%nat)
    (PeerIdentityRejected (str "peer identity provider did not produce evidence")).

Definition require_usable_provider (self : PeerEvidenceSet) (provider : bytes) : res PeerIdentity :=
  _ ← require_available_provider self provider;
  unique_verified_subject self provider.

(** ** The binding digest *)

(** [add_field]: the length as eight bytes in network order, then the field. *)
Definition field_bytes (field : bytes) : bytes := rev (le_encode 8 (blen field)) ++ field.

(** [std::set] of the names: in byte order, each once. *)
Fixpoint insert_unique (n : bytes) (ns : list bytes) : list bytes :=
  match ns with
  | [] => [n]
  | n' :: ns' =>
      if bytes_ltb n n' then n :: ns
      else if bytes_ltb n' n then n' :: insert_unique n ns'
      else ns
  end.

Definition name_set (ns : list bytes) : list bytes := foldl (fun set n => insert_unique n set) [] ns.

(** [operator<] on vectors of strings, and [std::sort]. *)
Fixpoint row_ltb (a b : list bytes) : bool :=
  match a, b with
  | _, [] => false
  | [], _ :: _ => true
  | x :: a', y :: b' => bytes_ltb x y || (negb (bytes_ltb y x) && row_ltb a' b')
  end.

Fixpoint insert_row (r : list bytes) (rows : list (list bytes)) : list (list bytes) :=
  match rows with
  | [] => [r]
  | r' :: rows' => if row_ltb r' r then r' :: insert_row r rows' else r :: rows
  end.

Definition sort_rows (rows : list (list bytes)) : list (list bytes) := foldr insert_row [] rows.

Definition bool_text (b : bool) : bytes := if b then str "true" else str "false".

Definition evidence_row `{JsonText} (i : PeerIdentity) : res (list bytes) :=
  attributes ← dump_or_throw (pi_attributes i);
  capabilities ← dump_or_throw (pi_capabilities i);
  Ok [pi_provider i; pi_issuer i; default [] (pi_subject_key i); wire_assurance (pi_assurance i);
      pi_evidence_source i; pi_transport i; wire_kind (pi_subject_kind i);
      wire_stability (pi_subject_stability i); bool_text (pi_subject_verified i);
      bool_text (pi_capabilities_verified i); []; []; attributes; capabilities].

Fixpoint evidence_rows `{JsonText} (l : list PeerIdentity) : res (list (list bytes)) :=
  match l with
  | [] => Ok []
  | i :: l' => row ← evidence_row i; rows ← evidence_rows l'; Ok (row :: rows)
  end.

Fixpoint provider_fields `{JsonText} (self : PeerEvidenceSet) (providers : list bytes)
    : res (list bytes) :=
  match providers with
  | [] => Ok []
  | p :: providers' =>
      rows ← evidence_rows (for_provider self p);
      rest ← provider_fields self providers';
      Ok (p :: wire_status (status self p) :: concat (sort_rows rows) ++ rest)
  end.

(** The fields that are hashed. *)
Definition binding_fields `{JsonText} (self : PeerEvidenceSet) (providers : list bytes)
    (application_auth : option AuthContext) : res (list bytes) :=
  fields ← provider_fields self (name_set providers);
  Ok (fields ++ match application_auth with
                | Some a => [str "application_auth"; auth_domain a; default [] (auth_principal a)]
                | None => []
                end).

Definition binding_digest `{JsonText, Digests} (self : PeerEvidenceSet) (providers : list bytes)
    (application_auth : option AuthContext) : res bytes :=
  fields ← binding_fields self providers application_auth;
  Ok (hex_digest (concat (map field_bytes fields))).

(** ** Policies *)

Section policies.
Context {J : JsonText} {D : Digests}.

Abbreviation PeerAuthenticationPolicy := (PeerEvidenceSet -> AuthContext -> res AuthContext).

Definition with_binding (auth : AuthContext) (evidence : PeerEvidenceSet) (providers : list bytes)
    (application : option AuthContext) : res AuthContext :=
  digest ← binding_digest evidence providers application;
  set_claim (str "peer_evidence_binding") (JString digest) auth.

Definition add_primary_identity_claims (auth : AuthContext) (identity : PeerIdentity) : res AuthContext :=
  auth ← set_claim (str "issuer") (JString (pi_issuer identity)) auth;
  auth ← set_claim (str "subject_kind") (JString (wire_kind (pi_subject_kind identity))) auth;
  auth ← set_claim (str "assurance") (JString (wire_assurance (pi_assurance identity))) auth;
  auth ← set_claim (str "evidence_source") (JString (pi_evidence_source identity)) auth;
  match pi_subject_key identity with
  | Some key => set_claim (str "subject") (JString key) auth
  | None => Throw (LogicError (str "bad optional access"))
  end.

Definition observe_peer_identity : PeerAuthenticationPolicy := fun _ auth => Ok auth.

Definition require_peer_identity (provider : bytes) : PeerAuthenticationPolicy := fun evidence auth =>
  _ ← require_available_provider evidence provider;
  with_binding auth evidence [provider] None.

Definition primary_auth (provider principal : bytes) : AuthContext :=
  {| auth_domain := provider; authenticated := true; auth_principal := Some principal;
     auth_claims := JObject [] |}.

Definition peer_identity_primary (provider : bytes) : PeerAuthenticationPolicy := fun evidence _ =>
  identity ← require_usable_provider evidence provider;
  principal ← canonical_principal identity;
  auth ← add_primary_identity_claims (primary_auth provider principal) identity;
  with_binding auth evidence [provider] None.

Definition bad_or_ambiguous (evidence : PeerEvidenceSet) (provider : bytes) : bool :=
  let st := status evidence provider in
  bool_decide (st = INVALID) || bool_decide (st = UNTRUSTED_PROXY)
  || (1 <? length (eligible_subjects evidence provider))%nat.

Definition any_of_peer_identities (providers : list bytes) : res PeerAuthenticationPolicy :=
  match providers with
  | [] => Throw (InvalidArgument (str "at least one provider is required"))
  | _ => Ok (fun evidence auth =>
      _ ← throw_if (existsb (bad_or_ambiguous evidence) providers)
            (PeerIdentityRejected (str "invalid or ambiguous peer evidence"));
      if authenticated auth then Ok auth
      else
        match List.find (fun p => (length (eligible_subjects evidence p) =? 1)%nat) providers with
        | Some provider => peer_identity_primary provider evidence auth
        | None =>
            if existsb (fun p => bool_decide (status evidence p = PEER_UNAVAILABLE)
                                 || bool_decide (status evidence p = PEER_PERMISSION_DENIED)) providers
            then Throw (PeerIdentityUnavailable (str "no usable factor and a peer provider is unavailable"))
            else Throw (PeerIdentityRejected (str "no provider produced a verified subject"))
        end)
  end.

(** [identities.emplace(provider, ...)] keeps the first of two equal names. *)
Fixpoint collect_identities (evidence : PeerEvidenceSet) (providers : list bytes)
    (identities : gmap bytes PeerIdentity) : res (gmap bytes PeerIdentity) :=
  match providers with
  | [] => Ok identities
  | p :: providers' =>
      identity ← require_usable_provider evidence p;
      collect_identities evidence providers'
        (match identities !! p with Some _ => identities | None => <[p := identity]> identities end)
  end.

(** A null linker is [None]. *)
Definition all_of_peer_identities (providers : list bytes)
    (linker : option (AuthContext -> gmap bytes PeerIdentity -> res unit))
    (principal_provider : option bytes) : res PeerAuthenticationPolicy :=
  match providers, linker with
  | first :: _, Some linker =>
      let primary := default first principal_provider in
      _ ← throw_if (negb (bool_decide (primary ∈ providers)))
            (InvalidArgument (str "principal provider must be configured"));
      Ok (fun evidence application =>
        _ ← throw_if (negb (authenticated application))
              (PeerIdentityRejected (str "all-of requires application auth"));
        identities ← collect_identities evidence providers ∅;
        _ ← linker application identities;
        match identities !! primary with
        | None => Throw (RuntimeError (str "map::at"))
        | Some identity =>
            principal ← canonical_principal identity;
            auth ← add_primary_identity_claims (primary_auth primary principal) identity;
            auth ← set_claim (str "application_domain") (JString (auth_domain application)) auth;
            auth ← set_claim (str "application_principal")
                     (JString (default [] (auth_principal application))) auth;
            with_binding auth evidence providers (Some application)
        end)
  | _, _ => Throw (InvalidArgument (str "all-of requires providers and linker"))
  end.
End policies.

(** ** Lemmas: principals *)

Definition hex_value (c : byte) : Z :=
  if is_digit c then b2z c - 48 else b2z c - 55.

(** What a character's text is, as a test on all characters. *)
Definition percent_ok (c : byte) : bool :=
  match percent_char c with
  | [d] => Byte.eqb d c && negb (Byte.eqb c "%"%byte) && negb (Byte.eqb c "/"%byte)
  | [p; h; l] =>
      Byte.eqb p "%"%byte && negb (Byte.eqb h "/"%byte) && negb (Byte.eqb l "/"%byte)
      && Byte.eqb (z2b (hex_value h * 16 + hex_value l)) c
  | _ => false
  end.

Lemma percent_all_ok c : percent_ok c = true.
Proof. destruct c; reflexivity. Qed.

(** Percent-encoding is a prefix code without slashes. *)
Lemma percent_char_cases c :
  (percent_char c = [c] /\ c <> "%"%byte /\ c <> "/"%byte) \/
  exists h l, percent_char c = ["%"%byte; h; l] /\ h <> "/"%byte /\ l <> "/"%byte /\
    z2b (hex_value h * 16 + hex_value l) = c.
Proof.
  pose proof (percent_all_ok c) as H. unfold percent_ok in H.
  destruct (percent_char c) as [|d [|h [|l [|]]]]; try done; bool_to_prop; subst; [left|right]; eauto 10.
Qed.

Lemma percent_char_app c d x y :
  percent_char c ++ x = percent_char d ++ y -> c = d /\ x = y.
Proof.
  destruct (percent_char_cases c) as [(-> & Hc & _)|(h & l & -> & _ & _ & <-)],
    (percent_char_cases d) as [(-> & Hd & _)|(h' & l' & -> & _ & _ & <-)]; cbn [app]; intros E.
  - by injection E as -> ->.
  - injection E as -> _. done.
  - injection E as <- _. done.
  - by injection E as -> -> ->.
Qed.

Lemma percent_inj s t : percent s = percent t -> s = t.
Proof.
  unfold percent. revert t; induction s as [|c s IH]; intros [|d t]; cbn [map concat]; [done| | |].
  - intros E. destruct (percent_char_cases d) as [(Ed & _)|(? & ? & Ed & _)]; by rewrite Ed in E.
  - intros E. destruct (percent_char_cases c) as [(Ec & _)|(? & ? & Ec & _)]; by rewrite Ec in E.
  - intros [-> E]%percent_char_app. f_equal. by apply IH.
Qed.

Lemma percent_no_slash s : "/"%byte ∉ percent s.
Proof.
  unfold percent. induction s as [|c s IH]; cbn [map concat]; [apply not_elem_of_nil|].
  rewrite elem_of_app. intros [H|H]; [|done].
  destruct (percent_char_cases c) as [(E & _ & Hc)|(h & l & E & Hh & Hl & _)]; rewrite E in H; set_solver.
Qed.

Lemma canonical_parts i j p :
  canonical_principal i = Ok p -> canonical_principal j = Ok p ->
  pi_provider i = pi_provider j /\ pi_issuer i = pi_issuer j /\ pi_subject_key i = pi_subject_key j.
Proof.
  unfold canonical_principal. destruct (pi_subject_key i) as [k|], (pi_subject_key j) as [k'|]; try done.
  intros [= <-] [= E].
  apply app_sep_inj in E as [->%percent_inj E]; [|apply percent_no_slash..].
  apply app_sep_inj in E as [->%percent_inj ->%percent_inj]; [done|apply percent_no_slash..].
Qed.

(** ** Lemmas: the binding *)

(** The length of a field fits the eight bytes it is written in. *)
Definition field_fits (f : bytes) : Prop := in_u64 (blen f).

Lemma field_fits_all fs : forallb (fun f => blen f <? 2 ^ 64) fs = true -> Forall field_fits fs.
Proof.
  rewrite forallb_forall. intros H. apply Forall_forall. intros f Hf%list_elem_of_In%H.
  apply Z.ltb_lt in Hf. unfold field_fits, in_u64. lia.
Qed.

Lemma field_bytes_app f g x y : field_fits f -> field_fits g ->
  field_bytes f ++ x = field_bytes g ++ y -> f = g /\ x = y.
Proof.
  intros Hf Hg. unfold field_bytes. rewrite <- !app_assoc. intros E.
  apply app_inj_1 in E as [E1 E2]; [|by rewrite !length_rev, !le_encode_length].
  apply (f_equal (@rev byte)) in E1. rewrite !rev_involutive in E1.
  apply (f_equal le_decode) in E1. rewrite !le_decode_encode_u64 in E1 by done.
  apply app_inj_1 in E2; [done|lia].
Qed.

Lemma field_bytes_concat fs gs : Forall field_fits fs -> Forall field_fits gs ->
  concat (map field_bytes fs) = concat (map field_bytes gs) -> fs = gs.
Proof.
  revert gs; induction fs as [|f fs IH]; intros [|g gs] Hf Hg; cbn [map concat]; [done| | |].
  - intros E%(f_equal length). unfold field_bytes in E. rewrite !length_app, length_rev, le_encode_length in E. done.
  - intros E%(f_equal length). unfold field_bytes in E. rewrite !length_app, length_rev, le_encode_length in E. done.
  - apply Forall_cons in Hf as [Hf Hfs], Hg as [Hg Hgs].
    intros [-> E]%field_bytes_app; [|done..]. f_equal. by apply IH.
Qed.

(** The set of names is strictly sorted. *)
Lemma insert_unique_elem n ns x : x ∈ insert_unique n ns <-> x = n \/ x ∈ ns.
Proof.
  induction ns as [|n' ns IH]; cbn [insert_unique]; [by rewrite list_elem_of_singleton, elem_of_nil; tauto|].
  destruct (bytes_ltb n n') eqn:E; [by rewrite elem_of_cons|].
  destruct (bytes_ltb n' n) eqn:E'; rewrite ?elem_of_cons, ?IH; [tauto|].
  destruct (bytes_lt_total n n') as [|[->|]]; unfold bytes_lt in *; [congruence| |congruence]. tauto.
Qed.

Lemma insert_unique_sorted n ns : StronglySorted bytes_lt ns -> StronglySorted bytes_lt (insert_unique n ns).
Proof.
  induction 1 as [|n' ns Hs IH Hn']; cbn [insert_unique]; [by repeat constructor|].
  destruct (bytes_ltb n n') eqn:E.
  - constructor; [by constructor|]. constructor; [done|]. eapply Forall_impl; [done|].
    intros x Hx. by transitivity n'.
  - destruct (bytes_ltb n' n) eqn:E'; [|by constructor]. constructor; [done|].
    apply Forall_forall. intros x [->|Hx]%insert_unique_elem; [done|]. by eapply Forall_forall in Hx.
Qed.

Lemma name_set_sorted ns : StronglySorted bytes_lt (name_set ns).
Proof.
  unfold name_set. assert (forall acc, StronglySorted bytes_lt acc ->
    StronglySorted bytes_lt (foldl (fun set n => insert_unique n set) acc ns)) as H.
  { induction ns as [|n ns IH]; intros acc Ha; [done|]. apply IH. by apply insert_unique_sorted. }
  apply H. constructor.
Qed.

Lemma name_set_elem ns x : x ∈ name_set ns <-> x ∈ ns.
Proof.
  unfold name_set. assert (forall acc, x ∈ foldl (fun set n => insert_unique n set) acc ns <->
    x ∈ acc \/ x ∈ ns) as H.
  { induction ns as [|n ns IH]; intros acc; cbn [foldl]; [rewrite elem_of_nil; tauto|].
    rewrite IH, insert_unique_elem, elem_of_cons. tauto. }
  rewrite H, elem_of_nil. tauto.
Qed.

(** Rows: fourteen fields, the first of them the provider. *)
Definition row_of (p : bytes) (r : list bytes) : Prop := length r = 14%nat /\ head r = Some p.

Lemma insert_row_perm r rows : insert_row r rows ≡ₚ r :: rows.
Proof.
  induction rows as [|r' rows IH]; cbn [insert_row]; [done|].
  destruct (row_ltb r' r); [|done]. rewrite IH. apply Permutation_swap.
Qed.

Lemma sort_rows_perm rows : sort_rows rows ≡ₚ rows.
Proof. induction rows as [|r rows IH]; [done|]. cbn. by rewrite insert_row_perm, IH. Qed.

Lemma evidence_rows_of `{JsonText} p l rows :
  Forall (fun i => pi_provider i = p) l -> evidence_rows l = Ok rows -> Forall (row_of p) (sort_rows rows).
Proof.
  intros Hl E. rewrite sort_rows_perm. revert rows E; induction Hl as [|i l Hi Hl IH]; cbn [evidence_rows]; intros rows E.
  - injection E as <-. constructor.
  - inv_res. subst. constructor; [|by apply IH]. unfold evidence_row in *. inv_res. subst. by split.
Qed.

Lemma for_provider_name e p : Forall (fun i => pi_provider i = p) (for_provider e p).
Proof.
  apply Forall_forall. intros i Hi. unfold for_provider in Hi.
  apply list_elem_of_In, filter_In in Hi as [_ Hi]. by bool_to_prop.
Qed.

(** Rows end where a field that is not the provider follows. *)
Lemma rows_split p rows rows' rest rest' :
  Forall (row_of p) rows -> Forall (row_of p) rows' ->
  head rest <> Some p -> head rest' <> Some p ->
  concat rows ++ rest = concat rows' ++ rest' -> rows = rows' /\ rest = rest'.
Proof.
  intros Hr; revert rows'; induction Hr as [|r rows [Hl Hp] Hr IH]; intros rows' Hr' H H' E.
  - destruct Hr' as [|r' rows' [Hl' Hp'] Hr']; [done|]. destruct r'; [done|]. injection Hp' as ->.
    exfalso. apply H. cbn in E. by rewrite E.
  - destruct Hr' as [|r' rows' [Hl' Hp'] Hr'].
    + destruct r; [done|]. injection Hp as ->. exfalso. apply H'. cbn in E. by rewrite <- E.
    + cbn [concat] in E. rewrite <- !app_assoc in E. apply app_inj_1 in E as [-> E]; [|congruence].
      by destruct (IH _ Hr' H H' E) as [-> ->].
Qed.

Lemma wire_status_inj s t : wire_status s = wire_status t -> s = t.
Proof. by destruct s, t. Qed.

Lemma rows_length p rows : Forall (row_of p) rows -> length (concat rows) = (14 * length rows)%nat.
Proof. induction 1 as [|r rows [Hr _] _ IH]; cbn [concat length]; [done|]. rewrite length_app, IH, Hr. lia. Qed.

Lemma provider_fields_cons `{JsonText} e p ps fs :
  provider_fields e (p :: ps) = Ok fs ->
  exists rows rest, evidence_rows (for_provider e p) = Ok rows /\ Forall (row_of p) (sort_rows rows) /\
    provider_fields e ps = Ok rest /\ fs = p :: wire_status (status e p) :: concat (sort_rows rows) ++ rest.
Proof.
  cbn [provider_fields]. intros E. inv_res. subst. do 2 eexists. split_and!; try done.
  eapply evidence_rows_of; [apply for_provider_name|done].
Qed.

Lemma provider_fields_even `{JsonText} e ps fs : provider_fields e ps = Ok fs -> Nat.even (length fs) = true.
Proof.
  revert fs; induction ps as [|p ps IH]; intros fs E; [by injection E as <-|].
  apply provider_fields_cons in E as (rows & rest & _ & Hrows & Hrest & ->). apply IH in Hrest.
  cbn [length]. rewrite length_app, (rows_length p) by done.
  change (Nat.even (S (S ?n))) with (Nat.even n). rewrite Nat.even_add, Hrest, Nat.even_mul. done.
Qed.

Lemma provider_fields_head `{JsonText} e ps fs p :
  provider_fields e ps = Ok fs -> p ∉ ps -> head fs <> Some p.
Proof.
  destruct ps as [|q ps]; [by intros [= <-]|].
  intros (rows & rest & _ & _ & _ & ->)%provider_fields_cons Hp [= ->]. apply Hp. by left.
Qed.

(** The two sets say the same of a provider. *)
Definition same_evidence `{JsonText} (e e' : PeerEvidenceSet) (p : bytes) : Prop :=
  status e p = status e' p /\
  exists rows rows', evidence_rows (for_provider e p) = Ok rows /\
    evidence_rows (for_provider e' p) = Ok rows' /\ rows ≡ₚ rows'.

Lemma sorted_not_in p ps : StronglySorted bytes_lt (p :: ps) -> p ∉ ps.
Proof.
  inversion 1 as [|? ? _ Hp]; subst. intros Hin. eapply Forall_forall in Hp; [|done].
  by destruct (StrictOrder_Irreflexive p).
Qed.

Lemma provider_fields_inj `{JsonText} e e' ps ps' fs :
  StronglySorted bytes_lt ps -> StronglySorted bytes_lt ps' ->
  provider_fields e ps = Ok fs -> provider_fields e' ps' = Ok fs ->
  ps = ps' /\ Forall (same_evidence e e') ps.
Proof.
  intros Hs; revert ps' fs; induction ps as [|p ps IH]; intros ps' fs Hs' E E'.
  - injection E as <-. destruct ps' as [|p' ps']; [done|].
    apply provider_fields_cons in E' as (? & ? & _ & _ & _ & ?). done.
  - apply provider_fields_cons in E as (rows & rest & Er & Hrows & Hrest & ->).
    destruct ps' as [|p' ps']; [done|].
    apply provider_fields_cons in E' as (rows' & rest' & Er' & Hrows' & Hrest' & E).
    injection E as <- Hst E. apply wire_status_inj in Hst.
    apply (rows_split p) in E as [Esort <-]; [|done..| |].
    2: { apply (provider_fields_head _ _ _ _ Hrest). by apply sorted_not_in. }
    2: { apply (provider_fields_head _ _ _ _ Hrest'). by apply sorted_not_in. }
    inversion Hs; inversion Hs'; subst.
    destruct (IH ltac:(done) ps' rest) as [<- Hall]; [done..|].
    split; [done|]. constructor; [|done]. split; [done|]. exists rows, rows'. split_and!; [done..|].
    by rewrite <- (sort_rows_perm rows), Esort, sort_rows_perm.
Qed.

(** What the digest covers of the application's authentication. *)
Definition application_part (a : option AuthContext) : option (bytes * bytes) :=
  option_map (fun a => (auth_domain a, default [] (auth_principal a))) a.

Lemma binding_fields_inj `{JsonText} e e' ps ps' a a' fs :
  binding_fields e ps a = Ok fs -> binding_fields e' ps' a' = Ok fs ->
  (forall p, p ∈ ps <-> p ∈ ps') /\ (forall p, p ∈ ps -> same_evidence e e' p) /\
  application_part a = application_part a'.
Proof.
  unfold binding_fields. intros E E'. inv_res. subst.
  match goal with H : _ ++ _ = _ ++ _ |- _ => rename H into Heq end.
  match goal with H : provider_fields e _ = Ok _ |- _ => rename H into E1 end.
  match goal with H : provider_fields e' _ = Ok _ |- _ => rename H into E2 end.
  pose proof (provider_fields_even _ _ _ E1) as P1. pose proof (provider_fields_even _ _ _ E2) as P2.
  apply app_inj_2 in Heq as [<- Ht].
  - destruct (provider_fields_inj e e' _ _ _ (name_set_sorted ps) (name_set_sorted ps') E1 E2) as [En Hall].
    split_and!.
    + intros p. by rewrite <- (name_set_elem ps), En, name_set_elem.
    + intros p Hp. rewrite Forall_forall in Hall. apply Hall. by rewrite name_set_elem.
    + destruct a as [a|], a' as [a'|]; cbn; try done. injection Ht as -> ->. done.
  - apply (f_equal length) in Heq. rewrite !length_app in Heq.
    apply (f_equal Nat.even) in Heq. rewrite !Nat.even_add, P1, P2 in Heq.
    by destruct a, a'.
Qed.


(** ** Lemmas: claims *)

Lemma find_member_filter key k ms : k <> key ->
  find_member (List.filter (fun m => negb (bool_decide (m.1 = key))) ms) k = find_member ms k.
Proof.
  intros Hk. induction ms as [|[k' v'] ms IH]; [done|]. cbn [List.filter find_member fst].
  case_bool_decide as E; cbn [negb find_member]; [subst; by rewrite decide_False|by rewrite IH].
Qed.

Lemma find_member_filtered key ms :
  find_member (List.filter (fun m => negb (bool_decide (m.1 = key))) ms) key = None.
Proof.
  induction ms as [|[k' v'] ms IH]; [done|]. cbn [List.filter fst].
  case_bool_decide as E; cbn [negb find_member]; [done|by rewrite decide_False].
Qed.

Lemma set_member_find key v ms k :
  find_member (set_member key v ms) k = if decide (key = k) then Some v else find_member ms k.
Proof.
  unfold set_member. rewrite place_member_find by apply find_member_filtered.
  destruct (decide (key = k)); [done|]. by apply find_member_filter.
Qed.

(** A claim. *)
Definition claim (auth : AuthContext) (key : bytes) : option json := jfind (auth_claims auth) key.

(** The contexts are the same but for claims. *)
Definition same_subject (auth auth' : AuthContext) : Prop :=
  auth_domain auth' = auth_domain auth /\ authenticated auth' = authenticated auth /\
  auth_principal auth' = auth_principal auth.

Lemma set_claim_ok key v auth auth' : set_claim key v auth = Ok auth' ->
  same_subject auth auth' /\
  forall k, claim auth' k = if decide (key = k) then Some v else claim auth k.
Proof.
  unfold set_claim, claim. destruct (auth_claims auth); try done; intros [= <-]; (split; [done|]); intros k.
  - done.
  - cbn [auth_claims jfind]. apply set_member_find.
Qed.

(** Reads a claim through the updates that follow it. *)
Ltac read_claims :=
  repeat match goal with
  | H : set_claim _ _ _ = Ok _ |- _ =>
      apply set_claim_ok in H as [(? & ? & ?) ?]
  end;
  repeat match goal with H : forall k, claim ?a k = _ |- context [claim ?a _] => rewrite H end;
  repeat (rewrite decide_False by (by vm_compute) || rewrite decide_True by done).

(** ** Lemmas: eligible subjects and what a policy makes of them *)

(** Provider [p] gave evidence of one verified subject with a stable key, [i]. *)
Definition verified_subject (e : PeerEvidenceSet) (p : bytes) (i : PeerIdentity) : Prop :=
  status e p = AVAILABLE /\ i ∈ identities_ e /\ pi_provider i = p /\
  pi_subject_verified i = true /\ pi_subject_stability i = STABLE /\
  forall j, j ∈ identities_ e -> pi_provider j = p -> is_eligible j = true -> j = i.

(** [auth] is the authentication of subject [i]. *)
Definition speaks_for (auth : AuthContext) (i : PeerIdentity) : Prop :=
  auth_domain auth = pi_provider i /\ authenticated auth = true /\
  exists key, pi_subject_key i = Some key /\
    auth_principal auth = Some (str "peer/" ++ percent (pi_provider i) ++ str "/" ++
                                percent (pi_issuer i) ++ str "/" ++ percent key) /\
    claim auth (str "issuer") = Some (JString (pi_issuer i)) /\
    claim auth (str "subject_kind") = Some (JString (wire_kind (pi_subject_kind i))) /\
    claim auth (str "assurance") = Some (JString (wire_assurance (pi_assurance i))) /\
    claim auth (str "evidence_source") = Some (JString (pi_evidence_source i)) /\
    claim auth (str "subject") = Some (JString key).

(** The digest of the evidence the authentication rests on is one of its claims. *)
Definition bound_to `{JsonText, Digests} (auth : AuthContext) (e : PeerEvidenceSet)
    (ps : list bytes) (application : option AuthContext) : Prop :=
  exists digest, binding_digest e ps application = Ok digest /\
    claim auth (str "peer_evidence_binding") = Some (JString digest).

Lemma eligible_elem e p i :
  i ∈ eligible_subjects e p <-> i ∈ identities_ e /\ pi_provider i = p /\ is_eligible i = true.
Proof.
  unfold eligible_subjects, for_provider. rewrite !list_elem_of_In, !filter_In, bool_decide_eq_true. tauto.
Qed.

Lemma require_usable_provider_ok e p i : require_usable_provider e p = Ok i -> verified_subject e p i.
Proof.
  unfold require_usable_provider, require_available_provider, unique_verified_subject. intros E. inv_res.
  bool_to_prop. destruct (eligible_subjects e p) as [|j [|]] eqn:El; try done. inv_res. subst.
  assert (forall k, k ∈ eligible_subjects e p <-> k = i) as Hi by (intros k; by rewrite El, list_elem_of_singleton).
  destruct (proj1 (eligible_elem e p i) (proj2 (Hi i) eq_refl)) as (Hin & Hp & Hel).
  unfold is_eligible in Hel. bool_to_prop.
  split_and!; try done.
  intros j Hj Hjp Hje. apply Hi, eligible_elem. done.
Qed.

Section policies.
Context {J : JsonText} {D : Digests}.

Lemma with_binding_ok auth e ps application r : with_binding auth e ps application = Ok r ->
  same_subject auth r /\ bound_to r e ps application /\
  forall k, k <> str "peer_evidence_binding" -> claim r k = claim auth k.
Proof.
  unfold with_binding. intros E. inv_res. apply set_claim_ok in H0 as [Hs Hc]. split_and!; [done| |].
  - eexists. split; [done|]. rewrite Hc. by rewrite decide_True.
  - intros k Hk. by rewrite Hc, decide_False by congruence.
Qed.

Lemma primary_claims_ok p i principal auth :
  canonical_principal i = Ok principal ->
  add_primary_identity_claims (primary_auth p principal) i = Ok auth ->
  pi_provider i = p -> speaks_for auth i.
Proof.
  unfold canonical_principal, add_primary_identity_claims. intros Hc E <-.
  destruct (pi_subject_key i) as [key|] eqn:Ek; [|done]. injection Hc as <-. inv_res. read_claims.
  cbn [primary_auth auth_domain authenticated auth_principal] in *.
  split_and!; [congruence..|]. exists key. split_and!; [done| |read_claims; done..].
  repeat match goal with H : auth_principal ?a = _ |- context [auth_principal ?a] => rewrite H end. done.
Qed.
End policies.

(** ** The policies *)

Section sound.
Context {J : JsonText} {D : Digests}.

Lemma same_subject_speaks auth auth' i :
  same_subject auth auth' -> speaks_for auth i ->
  (forall k, k <> str "peer_evidence_binding" -> k <> str "application_domain" ->
    k <> str "application_principal" -> claim auth' k = claim auth k) -> speaks_for auth' i.
Proof.
  intros (Hd & Ha & Hp) (Hd' & Ha' & key & Hk & Hp' & Hc) Hclaims.
  split_and!; [congruence..|]. exists key. split; [done|]. split; [by rewrite Hp|].
  rewrite !Hclaims by (by vm_compute). exact Hc.
Qed.

Lemma primary_sound p e a r : peer_identity_primary p e a = Ok r ->
  exists i, verified_subject e p i /\ speaks_for r i /\ bound_to r e [p] None.
Proof.
  unfold peer_identity_primary. intros E. inv_res.
  match goal with H : require_usable_provider _ _ = Ok ?i |- _ =>
    apply require_usable_provider_ok in H; exists i; pose proof H as (_ & _ & Hp & _) end.
  match goal with H : with_binding _ _ _ _ = Ok _ |- _ => apply with_binding_ok in H as (Hs & Hb & Hk) end.
  split_and!; [done| |done]. eapply same_subject_speaks; [done| |auto].
  by eapply primary_claims_ok.
Qed.

Lemma same_subject_trans a b c : same_subject a b -> same_subject b c -> same_subject a c.
Proof. unfold same_subject. intuition congruence. Qed.

(** Every provider has its subject in the map, and nothing else is there. *)
Lemma collect_identities_ok e ps ids0 ids : collect_identities e ps ids0 = Ok ids ->
  (forall p i, ids !! p = Some i -> ids0 !! p = Some i \/ verified_subject e p i) /\
  (forall p, p ∈ ps -> is_Some (ids !! p)) /\ ids0 ⊆ ids.
Proof.
  revert ids0; induction ps as [|q ps IH]; cbn [collect_identities]; intros ids0 E; inv_res.
  - subst. split_and!; [by left|by intros p ?%not_elem_of_nil|done].
  - match goal with H : require_usable_provider _ _ = Ok _ |- _ => apply require_usable_provider_ok in H as Hv end.
    match goal with H : collect_identities _ _ _ = Ok _ |- _ => apply IH in H as (H1 & H2 & H3) end.
    destruct (ids0 !! q) as [j|] eqn:Ej.
    + split_and!; [done| |done]. intros p [->|Hp]%elem_of_cons; [|by apply H2].
      exists j. by eapply lookup_weaken.
    + split_and!.
      * intros p i [Hi|Hi]%H1; [|by right]. apply lookup_insert_Some in Hi as [[-> ->]|[_ Hi]]; [by right|by left].
      * intros p [->|Hp]%elem_of_cons; [|by apply H2]. eexists. eapply lookup_weaken; [apply lookup_insert_eq|done].
      * etrans; [by apply insert_subseteq|done].
Qed.

Lemma all_of_sound ps linker primary policy e a r :
  all_of_peer_identities ps linker primary = Ok policy -> policy e a = Ok r ->
  exists p i ids f, linker = Some f /\ p = default (hd [] ps) primary /\ p ∈ ps /\
    authenticated a = true /\ collect_identities e ps ∅ = Ok ids /\ ids !! p = Some i /\ f a ids = Ok tt /\
    (pi_provider i = p -> speaks_for r i) /\ bound_to r e ps (Some a).
Proof.
  unfold all_of_peer_identities. destruct ps as [|first ps], linker as [f|]; try done.
  change (default first primary) with (default (hd [] (first :: ps)) primary).
  remember (first :: ps) as ps' eqn:Eps. intros E. inv_res. subst policy. intros E. inv_res.
  match goal with H : context [?m !! ?k] |- _ => destruct (m !! k) as [i|] eqn:Ei; [|done] end.
  inv_res. bool_to_prop.
  match goal with H : with_binding _ _ _ _ = Ok _ |- _ => apply with_binding_ok in H as (Hs & Hb & Hk) end.
  repeat match goal with H : set_claim _ _ _ = Ok _ |- _ => apply set_claim_ok in H as [? ?] end.
  repeat match goal with u : unit |- _ => destruct u end.
  do 4 eexists. split_and!; try done. intros Hp.
  eapply same_subject_speaks; [|by eapply primary_claims_ok|].
  - do 2 (eapply same_subject_trans; [done|]). done.
  - intros k Hn1 Hn2 Hn3. rewrite Hk by done.
    repeat match goal with H : forall k, claim ?b k = _ |- context [claim ?b _] => rewrite H end.
    by rewrite !decide_False by congruence.
Qed.

(** C36: a policy accepts a call only on evidence it asks for.  The policy of one
    provider: the provider gave evidence of exactly one verified subject with a
    stable key; the call is authenticated in that provider's domain under that
    subject's canonical principal, carries its claims, and carries the digest of
    the evidence.  The any-of policy: no provider it names gave invalid,
    untrusted or ambiguous evidence, and a call that the application has
    authenticated passes as it is; any other is accepted as by the policy of one
    provider that is named.  The all-of policy: the application has authenticated
    the call, every provider it names gave such evidence, the linker approved the
    application's authentication with precisely those subjects, and the call is
    that of the primary provider's subject, with the digest of all of it. *)
Theorem peer_policy_sound e a r :
  (forall p, peer_identity_primary p e a = Ok r ->
     exists i, verified_subject e p i /\ speaks_for r i /\ bound_to r e [p] None) /\
  (forall ps policy, any_of_peer_identities ps = Ok policy -> policy e a = Ok r ->
     (forall p, p ∈ ps -> status e p <> INVALID /\ status e p <> UNTRUSTED_PROXY /\
        (length (eligible_subjects e p) <= 1)%nat) /\
     if authenticated a then r = a
     else exists p i, p ∈ ps /\ verified_subject e p i /\ speaks_for r i /\ bound_to r e [p] None) /\
  (forall ps linker primary policy,
     all_of_peer_identities ps linker primary = Ok policy -> policy e a = Ok r ->
     authenticated a = true /\
     exists f ids i, let p := default (hd [] ps) primary in
       linker = Some f /\ f a ids = Ok tt /\ (forall q, q ∈ ps -> is_Some (ids !! q)) /\
       (forall q j, ids !! q = Some j -> verified_subject e q j) /\
       p ∈ ps /\ ids !! p = Some i /\ speaks_for r i /\ bound_to r e ps (Some a)).
Proof.
  split_and!.
  - intros p E. by apply primary_sound in E.
  - intros ps policy Hany E. unfold any_of_peer_identities in Hany. destruct ps as [|q ps]; [done|].
    remember (q :: ps) as ps' eqn:Eps. injection Hany as <-. inv_res. split.
    { intros p Hp. match goal with H : existsb _ _ = false |- _ => rename H into Hbad end.
      assert (bad_or_ambiguous e p = false) as Hb.
      { apply not_true_iff_false. intros Hb. apply not_true_iff_false in Hbad. apply Hbad, existsb_exists.
        exists p. by rewrite <- list_elem_of_In. }
      unfold bad_or_ambiguous in Hb. bool_to_prop. split_and!; [done|done|lia]. }
    destruct (authenticated a) eqn:Ea; [by inv_res|].
    destruct (find _ ps') as [p|] eqn:Ef; [|by case_match].
    apply find_some in Ef as [Hp _]. apply list_elem_of_In in Hp.
    match goal with H : peer_identity_primary _ _ _ = Ok _ |- _ => apply primary_sound in H as (i & Hv & Hs & Hb) end.
    by exists p, i.
  - intros ps linker primary policy Hall E.
    destruct (all_of_sound _ _ _ _ _ _ _ Hall E) as (p & i & ids & f & Hl & Hpr & Hp & Ha & Hc & Hi & Hf & Hs & Hb).
    apply collect_identities_ok in Hc as (Hv & Hsome & _).
    assert (forall q j, ids !! q = Some j -> verified_subject e q j) as Hids.
    { intros q j [Hj|Hj]%Hv; [by rewrite lookup_empty in Hj|done]. }
    split; [done|]. exists f, ids, i. cbv zeta. rewrite <- Hpr. split_and!; try done. apply Hs.
    by destruct (Hids _ _ Hi) as (_ & _ & ? & _).
Qed.

(** The all-of policy needs every factor.  When it accepts, the application
    had authenticated the call, every configured provider is available with
    exactly one verified stable subject, and the linker approved the
    application's authentication together with precisely those subjects. *)
Theorem all_of_needs_every_factor ps linker primary policy e a r :
  all_of_peer_identities ps linker primary = Ok policy -> policy e a = Ok r ->
  authenticated a = true /\ (forall p, p ∈ ps -> exists i, verified_subject e p i) /\
  exists f ids, linker = Some f /\ f a ids = Ok tt /\
    (forall p, p ∈ ps -> is_Some (ids !! p)) /\
    (forall p i, ids !! p = Some i -> verified_subject e p i).
Proof.
  intros Hall E.
  destruct (all_of_sound _ _ _ _ _ _ _ Hall E) as (p & i & ids & f & Hl & _ & _ & Ha & Hc & _ & Hf & _).
  apply collect_identities_ok in Hc as (Hv & Hsome & _).
  assert (forall p i, ids !! p = Some i -> verified_subject e p i) as Hids.
  { intros p' i' [Hi|Hi]%Hv; [by rewrite lookup_empty in Hi|done]. }
  split_and!; [done| |by exists f, ids]. intros p' [i' Hi']%Hsome. eauto.
Qed.

Definition binding_message (fields : list bytes) : bytes := concat (map field_bytes fields).

(** The binding digest binds.  Two calls with the same digest have the same
    provider names, the same status and evidence of every provider, and the same
    application domain and principal, unless the two hashed messages are a
    collision of SHA-256. *)
Theorem binding_digest_binds e e' ps ps' a a' fs fs' d :
  binding_fields e ps a = Ok fs -> binding_fields e' ps' a' = Ok fs' ->
  Forall field_fits fs -> Forall field_fits fs' ->
  binding_digest e ps a = Ok d -> binding_digest e' ps' a' = Ok d ->
  ((forall p, p ∈ ps <-> p ∈ ps') /\ (forall p, p ∈ ps -> same_evidence e e' p) /\
   application_part a = application_part a') \/
  (binding_message fs <> binding_message fs' /\
   sha256 (binding_message fs) = sha256 (binding_message fs')).
Proof.
  intros E E' Hf Hf'. unfold binding_digest. rewrite E, E'. intros [= <-] [= Hd].
  unfold hex_digest in Hd. apply (f_equal hex_decode) in Hd. rewrite !hex_decode_encode in Hd.
  injection Hd as Hd. destruct (decide (binding_message fs = binding_message fs')) as [Hm|Hm]; [left|by right].
  apply field_bytes_concat in Hm as <-; [|done..]. by eapply binding_fields_inj.
Qed.
End sound.

(** ** Evidence sets and documents *)

(** A provider is available exactly when it has evidence. *)
Definition evidence_well_formed (e : PeerEvidenceSet) : Prop :=
  forall p, status e p = AVAILABLE <-> for_provider e p <> [].

Lemma validate_result_ok r u : PeerIdentityResult_validate r = Ok u ->
  (pr_status r = AVAILABLE <-> pr_identities r <> []) /\
  Forall (fun i => pi_provider i = pr_provider r) (pr_identities r).
Proof.
  unfold PeerIdentityResult_validate. intros E. inv_res. bool_to_prop. split.
  - match goal with H : Bool.eqb _ _ = true |- _ => apply Bool.eqb_prop in H as Hs end.
    destruct (pr_identities r); case_bool_decide; cbn in Hs; split; congruence.
  - apply Forall_forall. intros i Hi. destruct (decide (pi_provider i = pr_provider r)) as [|Hne]; [done|].
    match goal with H : existsb _ _ = false |- _ => apply not_true_iff_false in H; destruct H end.
    apply existsb_exists. exists i. rewrite <- list_elem_of_In, negb_true_iff, bool_decide_eq_false. done.
Qed.

Lemma for_provider_own p l : Forall (fun i => pi_provider i = p) l ->
  List.filter (fun i => bool_decide (pi_provider i = p)) l = l.
Proof. induction 1 as [|i l Hi _ IH]; cbn [List.filter]; [done|]. by rewrite bool_decide_true, IH. Qed.

Lemma for_provider_other p q l : p <> q -> Forall (fun i => pi_provider i = q) l ->
  List.filter (fun i => bool_decide (pi_provider i = p)) l = [].
Proof. induction 2 as [|i l Hi _ IH]; cbn [List.filter]; [done|]. by rewrite bool_decide_false by congruence. Qed.

Lemma with_result_well_formed e r e' :
  evidence_well_formed e -> with_result e r = Ok e' -> evidence_well_formed e'.
Proof.
  unfold evidence_well_formed, with_result. intros He E. inv_res. subst e'. bool_to_prop.
  match goal with H : PeerIdentityResult_validate _ = Ok _ |- _ => apply validate_result_ok in H as [Hst Hown] end.
  intros p. unfold status, for_provider. cbn [statuses_ identities_]. rewrite List.filter_app.
  specialize (He p). unfold status, for_provider in He. destruct (decide (p = pr_provider r)) as [->|Hne].
  - rewrite lookup_insert_eq, (for_provider_own _ _ Hown). cbn [default].
    destruct (statuses_ e !! pr_provider r) eqn:Es; [exfalso; eauto|]. cbn in He.
    destruct (List.filter _ (identities_ e)); [|exfalso; destruct He as [_ He]; by discriminate He]. done.
  - rewrite lookup_insert_ne, (for_provider_other p _ _ Hne Hown), app_nil_r by congruence. done.
Qed.

(** Whatever results it is built from, an evidence set holds evidence of a
    provider exactly when it says that the provider is available. *)
Theorem evidence_set_well_formed results e :
  new_PeerEvidenceSet results = Ok e -> evidence_well_formed e.
Proof.
  unfold new_PeerEvidenceSet. assert (evidence_well_formed no_evidence) as H0.
  { intros p. unfold status, for_provider. cbn. rewrite lookup_empty. done. }
  revert H0. generalize no_evidence as e0. induction results as [|r results IH]; intros e0 H0 E; cbn [add_results] in E.
  - by inv_res; subst.
  - inv_res. eapply IH; [|done]. by eapply with_result_well_formed.
Qed.

(** The bounds of a document. *)
Fixpoint json_depth (v : json) : Z :=
  match v with
  | JArray items => 1 + fold_right (fun v d => Z.max (json_depth v) d) 0 items
  | JObject ms => 1 + fold_right (fun m d => Z.max (json_depth m.2) d) 0 ms
  | _ => 1
  end.

Fixpoint json_values (v : json) : Z :=
  match v with
  | JArray items => 1 + fold_right (fun v n => json_values v + n) 0 items
  | JObject ms => 1 + fold_right (fun m n => json_values m.2 + n) 0 ms
  | _ => 1
  end.

Fixpoint json_finite (v : json) : Prop :=
  match v with
  | JFloat f => isfinite f = true
  | JArray items => fold_right (fun v Q => json_finite v /\ Q) True items
  | JObject ms => fold_right (fun m Q => json_finite m.2 /\ Q) True ms
  | _ => True
  end.

(** A document at depth [d] after [c] values, and the count after it. *)
Definition json_accepted (d c : Z) (v : json) (n : Z) : Prop :=
  n = c + json_values v /\ n <= kMaxJsonValues /\ d + json_depth v <= kMaxJsonDepth + 1 /\
  json_strings (fun s => valid_utf8 s = true) v /\ json_finite v.

Lemma json_depth_pos v : 1 <= json_depth v.
Proof.
  destruct v as [| | | | |items|ms]; cbn [json_depth]; try lia.
  - induction items as [|v items IH]; cbn [fold_right]; lia.
  - induction ms as [|m ms IH]; cbn [fold_right]; lia.
Qed.

Lemma json_values_pos v : 1 <= json_values v.
Proof.
  induction v as [| | | | |items IH|ms IH] using json_nested_ind; cbn [json_values]; try lia.
  - induction IH; cbn [fold_right]; lia.
  - induction IH; cbn [fold_right]; lia.
Qed.

Lemma require_text_ok s f u : require_text s f = Ok u <-> valid_utf8 s = true.
Proof. unfold require_text. by rewrite throw_if_ok, negb_false_iff. Qed.

(** The loops over the elements and the members. *)
Definition elements_accepted (d c : Z) (items : list json) (n : Z) : Prop :=
  n = c + fold_right (fun v n => json_values v + n) 0 items /\ (items <> [] -> n <= kMaxJsonValues) /\
  (items <> [] -> d + fold_right (fun v d => Z.max (json_depth v) d) 0 items <= kMaxJsonDepth + 1) /\
  fold_right (fun v Q => json_strings (fun s => valid_utf8 s = true) v /\ Q) True items /\
  fold_right (fun v Q => json_finite v /\ Q) True items.

Lemma values_sum_pos items : 0 <= fold_right (fun v n => json_values v + n) 0 items.
Proof.
  induction items as [|x l IHl]; cbn [fold_right]; [lia|]. pose proof (json_values_pos x). lia.
Qed.

Lemma elements_accepted_cons d c v items n :
  elements_accepted d c (v :: items) n <->
  exists m, json_accepted d c v m /\ elements_accepted d m items n.
Proof.
  unfold elements_accepted, json_accepted. cbn [fold_right]. pose proof (json_depth_pos v).
  pose proof (values_sum_pos items) as Hpos.
  split.
  - intros (-> & Hn & Hd & [Hs Hss] & [Hf Hfs]). specialize (Hn ltac:(done)). specialize (Hd ltac:(done)).
    exists (c + json_values v). split_and!; first [done|lia|intros _; lia].
  - intros (m & (-> & Hn & Hd & Hs & Hf) & -> & Hns & Hds & Hss & Hfs).
    destruct items as [|x items]; cbn [fold_right] in *.
    + split_and!; first [done|lia|intros _; lia].
    + specialize (Hns ltac:(done)). specialize (Hds ltac:(done)).
      split_and!; first [done|lia|intros _; lia|apply Hss|apply Hfs].
Qed.

Lemma elements_accepted_nil d c n : elements_accepted d c [] n <-> Ok c = Ok n.
Proof.
  unfold elements_accepted. cbn [fold_right]. rewrite Z.add_0_r. split; [by intros [-> _]|].
  intros [= ->]. by split_and!.
Qed.

Lemma elements_loop d (loop : list json -> Z -> res Z) items :
  (forall c, loop [] c = Ok c) ->
  (forall v l c, loop (v :: l) c = (c ← validate_json v d c; loop l c)) ->
  Forall (fun v => forall d c n, validate_json v d c = Ok n <-> json_accepted d c v n) items ->
  forall c n, loop items c = Ok n <-> elements_accepted d c items n.
Proof.
  intros Hnil Hcons Hall. induction Hall as [|v l Hv _ IH]; intros c n.
  - by rewrite Hnil, elements_accepted_nil.
  - rewrite Hcons, elements_accepted_cons, res_bind_ok. by setoid_rewrite Hv; setoid_rewrite IH.
Qed.

Definition keys_valid (ms : members) : Prop := Forall (fun m => valid_utf8 m.1 = true) ms.

Lemma members_loop d (loop : members -> Z -> res Z) ms :
  (forall c, loop [] c = Ok c) ->
  (forall k v l c, loop ((k, v) :: l) c =
    (_ ← require_text k (str "peer evidence key"); c ← validate_json v d c; loop l c)) ->
  Forall (fun m => forall d c n, validate_json m.2 d c = Ok n <-> json_accepted d c m.2 n) ms ->
  forall c n, loop ms c = Ok n <-> keys_valid ms /\ elements_accepted d c (map snd ms) n.
Proof.
  intros Hnil Hcons Hall. unfold keys_valid. induction Hall as [|[k v] l Hv _ IH]; intros c n.
  - cbn [map]. rewrite Hnil, elements_accepted_nil. split; [split; [constructor|done]|by intros [_ ?]].
  - cbn [map snd]. rewrite Hcons, elements_accepted_cons, Forall_cons, res_bind_ok. cbn [fst].
    setoid_rewrite res_bind_ok. setoid_rewrite require_text_ok. setoid_rewrite Hv. setoid_rewrite IH.
    split; [intros (_ & Hk & m & Hm & Hl & He); eauto 10|intros ((Hk & Hl) & m & Hm & He)].
    exists tt. eauto 10.
Qed.

Lemma container_bounds d c items n :
  d <= kMaxJsonDepth /\ c + 1 <= kMaxJsonValues /\ elements_accepted (d + 1) (c + 1) items n <->
  n = c + (1 + fold_right (fun v n => json_values v + n) 0 items) /\ n <= kMaxJsonValues /\
  d + (1 + fold_right (fun v d => Z.max (json_depth v) d) 0 items) <= kMaxJsonDepth + 1 /\
  fold_right (fun v Q => json_strings (fun s => valid_utf8 s = true) v /\ Q) True items /\
  fold_right (fun v Q => json_finite v /\ Q) True items.
Proof.
  unfold elements_accepted. destruct items as [|v items]; cbn [fold_right].
  - split; [intros (? & ? & -> & _)|intros (-> & ? & ? & _)]; split_and!; done || lia.
  - split.
    + intros (? & ? & -> & Hn & Hd & Hs & Hf). specialize (Hn ltac:(done)). specialize (Hd ltac:(done)).
      split_and!; first [lia|apply Hs|apply Hf].
    + intros (-> & ? & ? & Hs & Hf). pose proof (json_depth_pos v). pose proof (json_values_pos v).
      pose proof (values_sum_pos items). split_and!; first [lia|intros _; lia|apply Hs|apply Hf].
Qed.

Lemma members_fold {A} (f : json -> A -> A) a (ms : members) :
  fold_right (fun m a => f m.2 a) a ms = fold_right f a (map snd ms).
Proof. induction ms as [|m ms IH]; cbn [map fold_right]; [done|by rewrite IH]. Qed.

Lemma members_strings (P : bytes -> Prop) (ms : members) :
  fold_right (fun m Q => (P m.1 /\ json_strings P m.2) /\ Q) True ms <->
  Forall (fun m => P m.1) ms /\ fold_right (fun v Q => json_strings P v /\ Q) True (map snd ms).
Proof.
  induction ms as [|m ms IH]; cbn [map fold_right]; [split; [by split|done]|].
  rewrite IH, Forall_cons. tauto.
Qed.

(** A document of peer evidence is accepted exactly within the documented
    bounds: at most sixteen levels deep, at most 4096 values counted with those
    before it, every string and key valid UTF-8 and every number finite; and the
    count returned is the number of values. *)
Theorem validate_json_iff v d c n :
  validate_json v d c = Ok n <-> json_accepted d c v n.
Proof.
  revert d c n; induction v as [| | | |s|items IH|ms IH] using json_nested_ind; intros d c n;
    cbn [validate_json]; rewrite !throw_if_then, !Z.ltb_ge; cbn zeta; unfold json_accepted;
    cbn [json_depth json_values json_strings json_finite].
  - split; [intros (? & ? & [= <-])|intros (-> & ? & ? & _)]; split_and!; done || lia.
  - split; [intros (? & ? & [= <-])|intros (-> & ? & ? & _)]; split_and!; done || lia.
  - split; [intros (? & ? & [= <-])|intros (-> & ? & ? & _)]; split_and!; done || lia.
  - rewrite negb_false_iff.
    split; [intros (? & ? & ? & [= <-])|intros (-> & ? & ? & _ & ?)]; split_and!; done || lia.
  - rewrite res_bind_ok. setoid_rewrite require_text_ok.
    split; [intros (? & ? & _ & ? & [= <-])|intros (-> & ? & ? & ? & _)]; split_and!; try done; try lia.
  - rewrite (elements_loop (d + 1) _ items) by done. apply container_bounds.
  - rewrite (members_loop (d + 1) _ ms) by done. unfold keys_valid. rewrite (members_strings (fun s => valid_utf8 s = true)),
      (members_fold (fun v n => json_values v + n)), (members_fold (fun v d => Z.max (json_depth v) d)),
      (members_fold (fun v Q => json_finite v /\ Q)).
    pose proof (container_bounds d c (map snd ms) n) as Hb. tauto.
Qed.

(** ** Witnesses *)

Definition demo_peer (provider key : bytes) : PeerIdentity :=
  {| pi_provider := provider; pi_evidence_source := str "whois"; pi_issuer := str "tailnet";
     pi_transport := str "tcp"; pi_assurance := LOCAL_DAEMON; pi_subject_kind := USER;
     pi_subject_key := Some key; pi_subject_stability := STABLE; pi_subject_verified := true;
     pi_attributes := JObject []; pi_capabilities := JObject []; pi_capabilities_verified := false;
     pi_source_address := None; pi_proxy_address := None |}.

Definition demo_result (provider key : bytes) : PeerIdentityResult :=
  {| pr_provider := provider; pr_status := AVAILABLE; pr_identities := [demo_peer provider key] |}.

Definition demo_results : list PeerIdentityResult :=
  [demo_result (str "tailscale") (str "user/1"); demo_result (str "spiffe") (str "wl");
   {| pr_provider := str "mtls"; pr_status := NO_MATCH; pr_identities := [] |}].

Definition demo_evidence : PeerEvidenceSet :=
  match new_PeerEvidenceSet demo_results with Ok e => e | Throw _ => no_evidence end.

Definition demo_application : AuthContext :=
  {| auth_domain := str "jwt"; authenticated := true; auth_principal := Some (str "alice");
     auth_claims := JObject [] |}.

Lemma evidence_set_well_formed_witness : evidence_well_formed demo_evidence.
Proof. apply (evidence_set_well_formed demo_results). vm_compute. reflexivity. Defined.

Section witnesses.
#[local] Existing Instances ToyJson.toy_json Toy.digests.

Lemma peer_policy_sound_witness : exists r,
  peer_identity_primary (str "tailscale") demo_evidence anonymous = Ok r /\
  auth_principal r = Some (str "peer/tailscale/tailnet/user%2F1") /\
  exists i, verified_subject demo_evidence (str "tailscale") i /\ speaks_for r i /\
    bound_to r demo_evidence [str "tailscale"] None.
Proof.
  eexists. split; [vm_compute; reflexivity|]. split; [vm_compute; reflexivity|].
  match goal with |- exists i, _ /\ speaks_for ?r _ /\ _ =>
    apply (proj1 (peer_policy_sound demo_evidence anonymous r)) end.
  vm_compute. reflexivity.
Defined.

Definition demo_providers : list bytes := [str "tailscale"; str "spiffe"].
Definition demo_linker : AuthContext -> gmap bytes PeerIdentity -> res unit := fun _ ids =>
  throw_if (negb (bool_decide (size ids = 2%nat))) (PeerIdentityRejected (str "factors")).

Lemma all_of_needs_every_factor_witness : exists policy r,
  all_of_peer_identities demo_providers (Some demo_linker) None = Ok policy /\
  policy demo_evidence demo_application = Ok r /\
  authenticated demo_application = true /\
  (forall p, p ∈ demo_providers -> exists i, verified_subject demo_evidence p i) /\
  exists f ids, Some demo_linker = Some f /\ f demo_application ids = Ok tt /\
    (forall p, p ∈ demo_providers -> is_Some (ids !! p)) /\
    (forall p i, ids !! p = Some i -> verified_subject demo_evidence p i).
Proof.
  do 2 eexists. split; [reflexivity|]. split; [vm_compute; reflexivity|].
  eapply (all_of_needs_every_factor _ _ None); [reflexivity|vm_compute; reflexivity].
Defined.

Definition demo_fields : list bytes :=
  match binding_fields demo_evidence demo_providers None with Ok fs => fs | Throw _ => [] end.

Lemma binding_digest_binds_witness : exists d,
  binding_digest demo_evidence demo_providers None = Ok d /\
  (((forall p, p ∈ demo_providers <-> p ∈ rev demo_providers) /\
    (forall p, p ∈ demo_providers -> same_evidence demo_evidence demo_evidence p) /\
    application_part None = application_part None) \/
   (binding_message demo_fields <> binding_message demo_fields /\
    sha256 (binding_message demo_fields) = sha256 (binding_message demo_fields))).
Proof.
  exists (hex_digest (binding_message demo_fields)). split; [vm_compute; reflexivity|].
  apply (binding_digest_binds demo_evidence demo_evidence demo_providers (rev demo_providers) None None
           demo_fields demo_fields (hex_digest (binding_message demo_fields)));
    [vm_compute; reflexivity|vm_compute; reflexivity|apply field_fits_all..| |]; vm_compute; reflexivity.
Defined.

(** The order of the application's list does not matter, a second factor does. *)
Example binding_order :
  binding_digest demo_evidence demo_providers None =
    binding_digest demo_evidence (rev demo_providers) None /\
  binding_digest demo_evidence demo_providers None <>
    binding_digest demo_evidence demo_providers (Some demo_application).
Proof. split; [vm_compute; reflexivity|by vm_compute]. Qed.
End witnesses.
