(* ===== verification/FloatText.v ===== *)
(** * Floating-point text of the C++ standard library

    [std::stod] in the C locale (glibc's [strtod]: decimal, hexadecimal, [inf]
    and [nan]), [%.0f] of [std::snprintf] and [std::to_string], on the binary64 of
    [Json].  The value read is an exact fraction, rounded once to nearest, ties to
    even; a value past the largest double, or below the normal range and not
    exact, is out of range. *)

From Stdlib Require Import Floats.SpecFloat.
From S2P Require Import Prelude Json Crypto IdentityInternal.

(** ** Fractions *)

(** A fraction [num/den], [den > 0], rounded to binary64.  The quotient has at
    least 66 bits below which one sticky bit stands for the remainder. *)
Definition round_fraction (neg : bool) (num den : Z) : binary64 :=
  let signed z := if neg then - z else z in
  if num =? 0 then S754_zero neg
  else if den =? 1 then binary_normalize 53 1024 (signed num) 0 false
  else
    let s := Z.max 0 (66 + Z.log2 den - Z.log2 num) in
    let '(q, r) := Z.div_eucl (Z.shiftl num s) den in
    let sticky := if r =? 0 then 0 else 1 in
    binary_normalize 53 1024 (signed (2 * q + sticky)) (- s - 1) false.

(** [ERANGE]: halfway past the largest double and beyond, or inexact below the
    smallest normal double. *)
Definition out_of_range (num den : Z) : bool :=
  ((2 ^ 1024 - 2 ^ 970) * den <=? num)
  || ((0 <? num) && (num * 2 ^ 1022 <? den) && negb (Z.shiftl num 1074 mod den =? 0)).

(** ** Parsing *)

Fixpoint parse_hex (acc : Z) (n : nat) (s : bytes) : Z * nat :=
  match s with
  | c :: s' => if 0 <=? nibble c then parse_hex (acc * 16 + nibble c) (S n) s' else (acc, n)
  | [] => (acc, n)
  end.

(** An optional sign: whether it is a minus, its length. *)
Definition sign_of (s : bytes) : bool * nat :=
  match s with
  | c :: _ => if Byte.eqb c "-" then (true, 1%nat) else if Byte.eqb c "+" then (false, 1%nat) else (false, 0%nat)
  | [] => (false, 0%nat)
  end.

(** An exponent after one of the [marks]: its value and length; an exponent
    without a digit is not part of the number. *)
Definition exponent (mark : byte) (s : bytes) : Z * nat :=
  match s with
  | c :: r =>
      if Byte.eqb (tolower c) mark then
        let '(neg, k) := sign_of r in
        let '(v, n) := parse_dec 0 0 (drop k r) in
        if (n =? 0)%nat then (0, 0%nat) else (if neg then - v else v, S (k + n))
      else (0, 0%nat)
  | [] => (0, 0%nat)
  end.

(** Digits with an optional point: the mantissa, how many digits follow the
    point, and the length. *)
Definition mantissa (digits : Z -> nat -> bytes -> Z * nat) (s : bytes) : option (Z * nat * nat) :=
  let '(i, n) := digits 0 0%nat s in
  match drop n s with
  | c :: r =>
      if Byte.eqb c "." then
        let '(m, f) := digits i 0%nat r in
        if (n + f =? 0)%nat then None else Some (m, f, (n + 1 + f)%nat)
      else if (n =? 0)%nat then None else Some (i, 0%nat, n)
  | [] => if (n =? 0)%nat then None else Some (i, 0%nat, n)
  end.

(** [m * base ^ e] as a fraction. *)
Definition scaled (m base e : Z) : Z * Z := if 0 <=? e then (m * base ^ e, 1) else (m, base ^ (- e)).

Definition parse_decimal (s : bytes) : option (Z * Z * nat) :=
  '(m, f, n) ← mantissa parse_dec s;
  let '(e, k) := exponent "e" (drop n s) in
  Some (scaled m 10 (e - Z.of_nat f), (n + k)%nat).

Definition parse_hexadecimal (s : bytes) : option (Z * Z * nat) :=
  match s with
  | z :: x :: r =>
      if Byte.eqb z "0" && Byte.eqb (tolower x) "x" then
        '(m, f, n) ← mantissa parse_hex r;
        let '(e, k) := exponent "p" (drop n r) in
        Some (scaled m 2 (e - 4 * Z.of_nat f), (2 + n + k)%nat)
      else None
  | _ => None
  end.

Definition has_prefix (p s : bytes) : bool := bool_decide (lower_ascii (take (length p) s) = p).

Fixpoint take_while (p : byte -> bool) (s : bytes) : bytes :=
  match s with c :: s' => if p c then c :: take_while p s' else [] | [] => [] end.

(** [nan] or [nan(n-char-sequence)]. *)
Definition nan_length (s : bytes) : nat :=
  match drop 3 s with
  | c :: r =>
      if Byte.eqb c "(" then
        let body := take_while (fun c => isalnum c || Byte.eqb c "_") r in
        match drop (length body) r with
        | d :: _ => if Byte.eqb d ")" then (5 + length body)%nat else 3%nat
        | [] => 3%nat
        end
      else 3%nat
  | [] => 3%nat
  end.

(** What follows the sign: the value, whether it is in range, and the length. *)
Definition unsigned_double (neg : bool) (s : bytes) : option (binary64 * bool * nat) :=
  if has_prefix (str "infinity") s then Some (S754_infinity neg, true, 8%nat)
  else if has_prefix (str "inf") s then Some (S754_infinity neg, true, 3%nat)
  else if has_prefix (str "nan") s then Some (S754_nan, true, nan_length s)
  else
    '(num, den, n) ← match parse_hexadecimal s with Some r => Some r | None => parse_decimal s end;
    Some (round_fraction neg num den, negb (out_of_range num den), n).

(** [std::stod(s, &consumed)]: [None] when it throws ([std::invalid_argument]
    when nothing is read, [std::out_of_range]). *)
Definition stod (s : bytes) : option (binary64 * nat) :=
  let s1 := drop_while isspace s in
  let '(neg, k) := sign_of s1 in
  '(v, in_range, n) ← unsigned_double neg (drop k s1);
  if (in_range : bool) then Some (v, (length s - length s1 + k + n)%nat) else None.

(** ** Printing

    [%.0f]: the integer nearest, ties to even. *)
Definition round_integer (m e : Z) : Z :=
  if 0 <=? e then m * 2 ^ e
  else
    let '(q, r) := Z.div_eucl m (2 ^ (- e)) in
    let half := 2 ^ (- e - 1) in
    if (half <? r) || ((r =? half) && Z.odd q) then q + 1 else q.

(** The digits of a natural number; one more than its binary digits is enough
    fuel. *)
Definition decimal_text (z : Z) : bytes := dec_digits (S (Z.to_nat (Z.log2 z))) z [].

Definition format_0f (f : binary64) : bytes :=
  let minus (neg : bool) := if neg then str "-" else [] in
  match f with
  | S754_zero neg => minus neg ++ str "0"
  | S754_infinity neg => minus neg ++ str "inf"
  | S754_nan => str "nan"
  | S754_finite neg m e => minus neg ++ decimal_text (round_integer (Z.pos m) e)
  end.

(** [n] decimal digits of a number, with leading zeros. *)
Fixpoint fixed_digits (n : nat) (z : Z) : bytes :=
  match n with O => [] | S n' => fixed_digits n' (z / 10) ++ [z2b (48 + z mod 10)] end.

(** [%.<n>f], [n] positive: the nearest decimal with [n] decimals of the exact value. *)
Definition format_fixed (n : nat) (f : binary64) : bytes :=
  let minus (neg : bool) := if neg then str "-" else [] in
  let unit := 10 ^ Z.of_nat n in
  match f with
  | S754_zero neg => minus neg ++ str "0." ++ fixed_digits n 0
  | S754_infinity neg => minus neg ++ str "inf"
  | S754_nan => str "nan"
  | S754_finite neg m e =>
      let scaled := round_integer (Z.pos m * unit) e in
      minus neg ++ decimal_text (scaled / unit) ++ str "." ++ fixed_digits n (scaled mod unit)
  end.

(** [std::to_string(double)], which is [%f]. *)
Definition to_string_double (f : binary64) : bytes := format_fixed 6 f.

(** ** Lemmas *)

Example stod_examples :
  stod (str "1700000000") = Some (dbl_of_Z 1700000000, 10%nat) /\
  stod (str " -0x1.8p1z") = Some (dbl_of_Z (-3), 9%nat) /\
  stod (str "+12.5e-1") = Some (S754_finite false (5 * 2 ^ 50)%positive (-52), 8%nat) /\
  stod (str "0.1") = Some (S754_finite false 7205759403792794 (-56), 3%nat) /\
  stod (str "0x") = Some (S754_zero false, 1%nat) /\
  stod (str "1e") = Some (dbl_of_Z 1, 1%nat) /\
  stod (str "NaN(x_1)") = Some (S754_nan, 8%nat) /\
  stod (str "-Infinite") = Some (S754_infinity true, 4%nat) /\
  stod (str ".e5") = None /\ stod (str "1e400") = None /\ stod (str "1e-400") = None /\
  stod (str "1.7976931348623157e308") =
    Some (S754_finite false 9007199254740991 971, 22%nat) /\
  stod (str "4.9406564584124654e-324") = None.
Proof. vm_compute. split_and!; reflexivity. Qed.

Example to_string_double_examples :
  map to_string_double [S754_zero false; dbl_of_Z 12; S754_finite false 5 (-1); S754_finite true 1 (-21)]
  = [str "0.000000"; str "12.000000"; str "2.500000"; str "-0.000000"].
Proof. vm_compute. reflexivity. Qed.

Example format_examples :
  map format_0f [dbl_of_Z 901; S754_finite false 5 (-1); S754_finite true 7 (-1); S754_finite false 1 70]
  = [str "901"; str "2"; str "-4"; str "1180591620717411303424"].
Proof. vm_compute. reflexivity. Qed.

Lemma digit_not d : is_digit d = true ->
  isspace d = false /\ Byte.eqb d "-" = false /\ Byte.eqb d "+" = false /\
  Byte.eqb (tolower d) "x" = false /\ Byte.eqb (tolower d) "i" = false /\ Byte.eqb (tolower d) "n" = false.
Proof. by destruct d. Qed.

(** A digit starts no infinity and no NaN. *)
Lemma digit_prefix p d ds c p' : p = c :: p' -> Byte.eqb (tolower d) c = false -> has_prefix p (d :: ds) = false.
Proof.
  intros -> Hc. unfold has_prefix. apply bool_decide_eq_false. cbn [length take lower_ascii map].
  intros [= E _]. by rewrite E, byte_eqb_refl in Hc.
Qed.

Lemma unsigned_double_digits neg ds v :
  Forall (fun c => is_digit c = true) ds -> (1 <= length ds)%nat -> parse_dec 0 0 ds = (v, length ds) ->
  unsigned_double neg ds = Some (round_fraction neg v 1, negb (out_of_range v 1), length ds).
Proof.
  intros Hds Hlen Hp. destruct ds as [|d ds]; [cbn in Hlen; lia|].
  pose proof (Forall_inv Hds) as Hd. apply digit_not in Hd as (_ & _ & _ & _ & Hi & Hn).
  unfold unsigned_double.
  rewrite (digit_prefix (str "infinity") d ds _ _ eq_refl Hi), (digit_prefix (str "inf") d ds _ _ eq_refl Hi),
    (digit_prefix (str "nan") d ds _ _ eq_refl Hn).
  replace (parse_hexadecimal (d :: ds)) with (@None (Z * Z * nat)).
  - unfold parse_decimal, mantissa. rewrite Hp, drop_all. cbn [length Nat.eqb mbind option_bind drop exponent].
    rewrite drop_all. cbn [exponent]. unfold scaled. cbn [Z.leb Z.of_nat Z.sub Z.compare Z.opp Z.add Z.pow].
    by rewrite Z.mul_1_r, Nat.add_0_r.
  - unfold parse_hexadecimal. destruct ds as [|x r]; [done|].
    apply Forall_cons in Hds as [_ Hx]. apply Forall_cons in Hx as [Hx _]. apply digit_not in Hx as (_ & _ & _ & -> & _).
    by rewrite andb_false_r.
Qed.

Lemma not_out_of_range v : 0 <= v < 2 ^ 63 -> out_of_range v 1 = false.
Proof.
  intros Hv. unfold out_of_range. apply orb_false_iff. split.
  - apply Z.leb_gt. assert (2 ^ 63 < (2 ^ 1024 - 2 ^ 970) * 1) by (vm_compute; reflexivity). lia.
  - destruct (Z.ltb_spec 0 v); [|done]. cbn [andb]. apply andb_false_iff. left. apply Z.ltb_ge.
    assert (1 <= 2 ^ 1022) by (vm_compute; done). nia.
Qed.

Lemma round_integer_exact neg v : v <> 0 -> round_fraction neg v 1 = dbl_of_Z (if neg then - v else v).
Proof. intros Hv. unfold round_fraction. by rewrite (proj2 (Z.eqb_neq _ _) Hv). Qed.

(** The text of a 64-bit integer reads as the double of the integer. *)
Lemma stod_to_string z : - 2 ^ 63 < z < 2 ^ 63 ->
  stod (to_string z) = Some (dbl_of_Z z, length (to_string z)).
Proof.
  intros Hz. unfold to_string.
  destruct (dec_digits_spec 20 (Z.abs z) []) as (ds & E & Hlen & Hall & Hp); [lia|lia|].
  rewrite app_nil_r in E. specialize (Hp 0 0%nat []). rewrite app_nil_r in Hp. cbn [parse_dec] in Hp.
  replace (0 * 10 ^ blen ds + Z.abs z) with (Z.abs z) in Hp by lia.
  assert (unsigned_double (z <? 0) ds = Some (dbl_of_Z z, true, length ds)) as Hu.
  { rewrite (unsigned_double_digits _ _ _ Hall Hlen Hp), not_out_of_range by lia.
    destruct (Z.eq_dec z 0) as [->|Hne]; [done|]. rewrite round_integer_exact by lia. cbn [negb].
    do 3 f_equal. destruct (Z.ltb_spec z 0); f_equal; lia. }
  destruct ds as [|d ds]; [cbn in Hlen; lia|].
  pose proof (digit_not d (Forall_inv Hall)) as (Hsp & Hm & Hpl & _).
  unfold stod. destruct (z <? 0) eqn:Ez; [apply Z.ltb_lt in Ez|apply Z.ltb_ge in Ez].
  - replace (- z) with (Z.abs z) by lia. rewrite E. cbn [drop_while]. change (isspace "-") with false. cbv iota beta.
    unfold sign_of. rewrite byte_eqb_refl. cbn [drop]. rewrite Hu. cbn [mbind option_bind].
    do 2 f_equal. cbn [length]. lia.
  - rewrite Z.abs_eq in E by lia. rewrite E. cbn [drop_while]. rewrite Hsp.
    unfold sign_of. rewrite Hm, Hpl. cbn [drop]. rewrite Hu. cbn [mbind option_bind].
    do 2 f_equal. cbn [length]. lia.
Qed.
