(* ===== verification/ProxyProof.v ===== *)
(** * Proxy proofs: the HMAC proof of hop and its replay cache (src/src/proxy_proof.cpp)

    [verify] follows the code's order of checks; the verifier's replay cache is
    threaded as state.  The two readings of [unix_now()], one in [verify] and
    one in [seen_nonce], are arguments. *)

From S2P Require Import Prelude Crypto.

Definition kProofLabel : bytes := str "vgi.proxy.proof.v1".
Definition kMaxHeaderBytes : Z := 512.

(** ** Character classes and fields *)

Definition is_alnum (c : byte) : bool :=
  in_range c "A" "Z" || in_range c "a" "z" || in_range c "0" "9".

Definition is_kid_char (c : byte) : bool := is_alnum c || Byte.eqb c "_" || Byte.eqb c "-".

Definition is_b64url_char (c : byte) : bool := is_alnum c || Byte.eqb c "-" || Byte.eqb c "_".

Definition is_origin_char (c : byte) : bool :=
  is_alnum c || Byte.eqb c "." || Byte.eqb c "_" || Byte.eqb c ":" || Byte.eqb c "/"
  || Byte.eqb c "-".

Definition valid_kid (s : bytes) : bool :=
  negb ((length s =? 0)%nat || (64 <? blen s)) && forallb is_kid_char s.

Definition valid_ts (s : bytes) : bool :=
  negb ((length s =? 0)%nat || (20 <? blen s)) && forallb (fun c => in_range c "0" "9") s.

Definition valid_b64url_fixed (s : bytes) (len : Z) : bool :=
  (blen s =? len) && forallb is_b64url_char s.

Definition valid_origin_id (s : bytes) : bool :=
  negb ((length s =? 0)%nat || (255 <? blen s)) && forallb is_origin_char s.

(** The loop of [split_exact]: [cur] is [s.substr(start, i - start)]. *)
Fixpoint split_loop (sep : byte) (n : nat) (s cur : bytes) (out : list bytes)
    : option (list bytes) :=
  match s with
  | [] =>
      let out := out ++ [cur] in
      if (n <? length out)%nat then None
      else if (length out =? n)%nat then Some out else None
  | c :: s' =>
      if Byte.eqb c sep then
        let out := out ++ [cur] in
        if (n <? length out)%nat then None else split_loop sep n s' [] out
      else split_loop sep n s' (cur ++ [c]) out
  end.

Definition split_exact (s : bytes) (sep : byte) (n : nat) : option (list bytes) :=
  split_loop sep n s [] [].

(** ** Configuration *)

Inductive ProofMode := OFF | ALLOW | REQUIRE.

Inductive ProofReason :=
  | OK | NO_PROOF | MALFORMED | UNKNOWN_KID | EXPIRED | NOT_YET_VALID | BAD_MAC | REPLAYED.

#[export] Instance ProofMode_eq_decision : EqDecision ProofMode.
Proof. solve_decision. Defined.
#[export] Instance ProofReason_eq_decision : EqDecision ProofReason.
Proof. solve_decision. Defined.

Definition proof_reason_name (reason : ProofReason) : bytes :=
  match reason with
  | OK => str "ok"
  | NO_PROOF => str "no_proof"
  | MALFORMED => str "malformed"
  | UNKNOWN_KID => str "unknown_kid"
  | EXPIRED => str "expired"
  | NOT_YET_VALID => str "not_yet_valid"
  | BAD_MAC => str "bad_mac"
  | REPLAYED => str "replayed"
  end.

Record ProofResult := {
  reason : ProofReason;
  proxy_label : bytes;
  claimed_kid : bytes;
}.

(** [s.find(sep)]: the text before and after the first separator. *)
Fixpoint split_first (sep : byte) (s : bytes) : option (bytes * bytes) :=
  match s with
  | [] => None
  | c :: s' =>
      if Byte.eqb c sep then Some ([], s')
      else '(a, b) ← split_first sep s'; Some (c :: a, b)
  end.

Definition parse_secret (entry : bytes) : res (bytes * bytes) :=
  match split_first ":" entry with
  | None => Throw (InvalidArgument (str "proxy-proof secret entry is not 'kid:hex': " ++ entry))
  | Some (kid, hex) =>
      if negb (valid_kid kid) then
        Throw (InvalidArgument (str "proxy-proof kid is not [A-Za-z0-9_-]{1,64}: " ++ kid))
      else if negb (blen hex =? 64) then
        Throw (InvalidArgument (str "proxy-proof secret for '" ++ kid
          ++ str "' must be 64 hex characters, got " ++ to_string (blen hex)))
      else
        match hex_decode hex with
        | None =>
            Throw (InvalidArgument (str "proxy-proof secret for '" ++ kid ++ str "' is not hex"))
        | Some raw => Ok (kid, raw)
        end
  end.

Fixpoint parse_entries (entries : list bytes) (out : gmap bytes bytes) : res (gmap bytes bytes) :=
  match entries with
  | [] => Ok out
  | [] :: entries' => parse_entries entries' out
  | entry :: entries' =>
      '(kid, raw) ← parse_secret entry;
      parse_entries entries' (<[kid := raw]> out)
  end.

Definition parse_secrets (spec : bytes) : res (gmap bytes bytes) :=
  parse_entries (split_on "," spec) ∅.

Record ProofVerifier := {
  mode_ : ProofMode;
  origin_id_ : bytes;
  secrets_ : gmap bytes bytes;
  skew_seconds_ : Z;
  replay_cache_ : bool;
  replay_capacity_ : Z;
  nonces_ : gmap bytes Z;
  nonce_order_ : list bytes;
}.

Definition with_cache (v : ProofVerifier) (nonces : gmap bytes Z) (order : list bytes)
    : ProofVerifier :=
  {| mode_ := mode_ v; origin_id_ := origin_id_ v; secrets_ := secrets_ v;
     skew_seconds_ := skew_seconds_ v; replay_cache_ := replay_cache_ v;
     replay_capacity_ := replay_capacity_ v; nonces_ := nonces; nonce_order_ := order |}.

Definition new_verifier (mode : ProofMode) (origin_id secrets_spec : bytes) (skew_seconds : Z)
    (replay_cache : bool) (replay_capacity : Z) : res ProofVerifier :=
  let v := {| mode_ := mode; origin_id_ := origin_id; secrets_ := ∅;
              skew_seconds_ := if 0 <? skew_seconds then skew_seconds else 30;
              replay_cache_ := replay_cache; replay_capacity_ := replay_capacity;
              nonces_ := ∅; nonce_order_ := [] |} in
  if decide (mode = OFF) then Ok v
  else if negb (valid_origin_id origin_id) then
    Throw (InvalidArgument
      (str "proxy-proof origin_id is required in allow/require mode and must match [A-Za-z0-9._:/-]{1,255}"))
  else
    secrets ← parse_secrets secrets_spec;
    if decide (secrets = ∅) then
      Throw (InvalidArgument
        (str "proxy-proof mode is allow/require but no secrets are configured"))
    else
      Ok {| mode_ := mode; origin_id_ := origin_id; secrets_ := secrets;
            skew_seconds_ := skew_seconds_ v; replay_cache_ := replay_cache;
            replay_capacity_ := replay_capacity; nonces_ := ∅; nonce_order_ := [] |}.

(** ** The replay cache *)

(** The first loop: drop what has aged past the window, from the front. *)
Fixpoint prune (now skew : Z) (nonces : gmap bytes Z) (order : list bytes)
    : gmap bytes Z * list bytes :=
  match order with
  | [] => (nonces, [])
  | front :: rest =>
      match nonces !! front with
      | Some t =>
          if now - t <=? skew then (nonces, order)
          else prune now skew (delete front nonces) rest
      | None => prune now skew nonces rest
      end
  end.

(** The second loop: evict the oldest while the cache is full. *)
Fixpoint evict (capacity : Z) (nonces : gmap bytes Z) (order : list bytes)
    : gmap bytes Z * list bytes :=
  match order with
  | [] => (nonces, [])
  | front :: rest =>
      if capacity <=? Z.of_nat (size nonces) then evict capacity (delete front nonces) rest
      else (nonces, order)
  end.

Definition seen_nonce (now : Z) (v : ProofVerifier) (nonce : bytes) : ProofVerifier * bool :=
  if negb (replay_cache_ v) then (v, false)
  else
    let '(nonces, order) := prune now (skew_seconds_ v) (nonces_ v) (nonce_order_ v) in
    match nonces !! nonce with
    | Some _ => (with_cache v nonces order, true)
    | None =>
        let '(nonces, order) := evict (replay_capacity_ v) nonces order in
        (with_cache v (<[nonce := now]> nonces) (order ++ [nonce]), false)
    end.

(** ** [verify] *)

Definition canonical (kid ts nonce origin : bytes) : bytes :=
  kProofLabel ++ [x00] ++ kid ++ [x00] ++ ts ++ [x00] ++ nonce ++ [x00] ++ origin.

Section verify.
Context {D : Digests}.

Definition expected_mac (v : ProofVerifier) (secret kid ts nonce : bytes) : bytes :=
  base64url_encode (hmac_sha256 secret (canonical kid ts nonce (origin_id_ v))).

Definition refused (r : ProofReason) (claimed : bytes) : ProofResult :=
  {| reason := r; proxy_label := []; claimed_kid := claimed |}.

(** [now] is the reading in [verify], [now'] the one in [seen_nonce]. *)
Definition verify (now now' : Z) (v : ProofVerifier) (header_value : bytes) (count : Z)
    : ProofVerifier * ProofResult :=
  if decide (mode_ v = OFF) then (v, refused OK [])
  else if count =? 0 then (v, refused NO_PROOF [])
  else if negb (count =? 1) || (length header_value =? 0)%nat
          || (kMaxHeaderBytes <? blen header_value) then (v, refused MALFORMED [])
  else
    match split_exact header_value "." 5 with
    | Some [version; kid; ts; nonce; mac] =>
        if negb (bool_decide (version = str "v1")) then (v, refused MALFORMED [])
        else if negb (valid_kid kid) || negb (valid_ts ts) || negb (valid_b64url_fixed nonce 22)
                || negb (valid_b64url_fixed mac 43) then (v, refused MALFORMED [])
        else
          match secrets_ v !! kid with
          | None => (v, refused UNKNOWN_KID kid)
          | Some secret =>
              match stoll ts with
              | None => (v, refused MALFORMED kid)
              | Some (ts_value, _) =>
                  if skew_seconds_ v <? now - ts_value then (v, refused EXPIRED kid)
                  else if skew_seconds_ v <? ts_value - now then (v, refused NOT_YET_VALID kid)
                  else if negb (constant_time_equal (expected_mac v secret kid ts nonce) mac) then
                    (v, refused BAD_MAC kid)
                  else
                    let '(v, seen) := seen_nonce now' v nonce in
                    if seen then (v, refused REPLAYED kid)
                    else (v, {| reason := OK; proxy_label := kid; claimed_kid := kid |})
              end
          end
    | _ => (v, refused MALFORMED [])
    end.
End verify.

(** ** Splitting the header *)

Lemma split_loop_spec sep n s cur out :
  split_loop sep n s cur out =
    match split_on sep s with
    | p :: ps =>
        if (length out + S (length ps) =? n)%nat then Some (out ++ (cur ++ p) :: ps) else None
    | [] => None
    end.
Proof.
  revert cur out; induction s as [|c s IH]; intros cur out; cbn [split_loop split_on].
  - rewrite app_nil_r, length_app. cbn [length].
    destruct (Nat.ltb_spec n (length out + 1)), (Nat.eqb_spec (length out + 1) n); done || lia.
  - pose proof (split_on_nonempty sep s). destruct (split_on sep s) as [|p ps]; [done|].
    destruct (Byte.eqb c sep).
    + rewrite IH, !length_app, app_nil_r. cbn [length app].
      destruct (Nat.ltb_spec n (length out + 1)), (Nat.eqb_spec (length out + 1 + S (length ps)) n),
        (Nat.eqb_spec (length out + S (S (length ps))) n); try done; try lia.
      by rewrite <- app_assoc.
    + rewrite IH, <- app_assoc. done.
Qed.

Lemma split_exact_spec s sep n :
  split_exact s sep n =
    if (length (split_on sep s) =? n)%nat then Some (split_on sep s) else None.
Proof.
  unfold split_exact. rewrite split_loop_spec. pose proof (split_on_nonempty sep s).
  destruct (split_on sep s); done.
Qed.

Lemma split_exact_ok s sep ps :
  split_exact s sep (length ps) = Some ps <->
  ps <> [] /\ s = join_with sep ps /\ Forall (fun p => sep ∉ p) ps.
Proof.
  rewrite split_exact_spec. split.
  - destruct (_ =? _)%nat; [|done]. intros [= <-].
    destruct (join_split_on sep s) as [E HF]. split; [apply split_on_nonempty|]. done.
  - intros (Hne & -> & HF). rewrite split_on_join by done. by rewrite Nat.eqb_refl.
Qed.

(** Fields of the accepted classes contain neither [.] nor NUL. *)
Lemma forallb_not_in (p : byte -> bool) (c : byte) (s : bytes) :
  p c = false -> forallb p s = true -> c ∉ s.
Proof.
  intros Hc Hs Hin. rewrite List.forallb_forall in Hs.
  apply list_elem_of_In in Hin. specialize (Hs c Hin). congruence.
Qed.

Lemma valid_kid_clean s : valid_kid s = true -> ("."%byte ∉ s) /\ (x00 ∉ s).
Proof.
  unfold valid_kid. intros [_ H]%andb_true_iff. split; by apply (forallb_not_in is_kid_char).
Qed.

Lemma valid_ts_clean s : valid_ts s = true -> ("."%byte ∉ s) /\ (x00 ∉ s).
Proof.
  unfold valid_ts. intros [_ H]%andb_true_iff. split; by eapply forallb_not_in; [|exact H].
Qed.

Lemma valid_b64url_fixed_clean s n : valid_b64url_fixed s n = true -> ("."%byte ∉ s) /\ (x00 ∉ s).
Proof.
  unfold valid_b64url_fixed. intros [_ H]%andb_true_iff.
  split; by apply (forallb_not_in is_b64url_char).
Qed.

(** ** The replay cache *)

(** The order lists exactly the keys, once each. *)
Definition cache_wf (nonces : gmap bytes Z) (order : list bytes) : Prop :=
  NoDup order /\ forall n, n ∈ order <-> is_Some (nonces !! n).

Lemma cache_wf_size nonces order : cache_wf nonces order -> size nonces = length order.
Proof.
  intros [Hnd Hdom]. rewrite <- size_dom.
  assert (dom nonces = list_to_set order) as ->.
  { apply set_eq. intros n. rewrite elem_of_dom, elem_of_list_to_set. by rewrite Hdom. }
  by apply size_list_to_set.
Qed.

Lemma cache_wf_tail nonces f rest :
  cache_wf nonces (f :: rest) -> cache_wf (delete f nonces) rest.
Proof.
  intros [Hnd Hdom]. apply NoDup_cons in Hnd as [Hf Hnd]. split; [done|]. intros n.
  destruct (decide (n = f)) as [->|Hne].
  - rewrite lookup_delete_eq. split; [done|by intros [? ?]].
  - rewrite lookup_delete_ne by congruence. rewrite <- Hdom, elem_of_cons. naive_solver.
Qed.

Lemma prune_spec now skew nonces order :
  cache_wf nonces order ->
  exists pre, order = pre ++ (prune now skew nonces order).2 /\
    cache_wf (prune now skew nonces order).1 (prune now skew nonces order).2 /\
    (forall n, n ∈ pre -> exists t, nonces !! n = Some t /\ skew < now - t) /\
    (forall n, n ∉ pre -> (prune now skew nonces order).1 !! n = nonces !! n).
Proof.
  revert nonces; induction order as [|f rest IH]; intros nonces Hwf; cbn [prune].
  { exists []. split_and!; try done. intros n Hn. by apply not_elem_of_nil in Hn. }
  destruct (nonces !! f) as [t|] eqn:Ef.
  - destruct (Z.leb_spec (now - t) skew).
    + exists []. split_and!; try done. intros n Hn. by apply not_elem_of_nil in Hn.
    + destruct (IH (delete f nonces)) as (pre & E & Hwf' & Hpre & Hkeep); [by apply cache_wf_tail|].
      exists (f :: pre). cbn [app]. split_and!; [by f_equal|done| |].
      * intros n [->|Hn]%elem_of_cons; [eauto|]. destruct (Hpre n Hn) as (t' & Ht' & ?).
        exists t'. split; [|done]. by apply lookup_delete_Some in Ht' as [_ ?].
      * intros n [Hne Hn]%not_elem_of_cons. rewrite Hkeep by done. by rewrite lookup_delete_ne.
  - exfalso. destruct Hwf as [_ Hdom]. destruct (proj1 (Hdom f)) as [t Ht]; [by left|congruence].
Qed.

Lemma evict_spec capacity nonces order :
  cache_wf nonces order ->
  exists pre, order = pre ++ (evict capacity nonces order).2 /\
    cache_wf (evict capacity nonces order).1 (evict capacity nonces order).2 /\
    (forall n, n ∉ pre -> (evict capacity nonces order).1 !! n = nonces !! n) /\
    ((evict capacity nonces order).2 <> [] -> blen (evict capacity nonces order).2 < capacity) /\
    (pre = [] \/ capacity <= 1 + blen (evict capacity nonces order).2).
Proof.
  revert nonces; induction order as [|f rest IH]; intros nonces Hwf; cbn [evict].
  { exists []. split_and!; try done. by left. }
  pose proof (cache_wf_size _ _ Hwf) as Hsz.
  rewrite Hsz. destruct (Z.leb_spec capacity (Z.of_nat (length (f :: rest)))) as [Hle|Hlt].
  - destruct (IH (delete f nonces)) as (pre & E & Hwf' & Hkeep & Hcap & Hmin); [by apply cache_wf_tail|].
    exists (f :: pre). cbn [app]. split_and!; [by f_equal|done| |done|].
    + intros n [Hne Hn]%not_elem_of_cons. rewrite Hkeep by done. by rewrite lookup_delete_ne.
    + right. destruct Hmin as [->|?]; [|done]. cbn [app] in E. rewrite <- E.
      cbn [length] in Hle. lia.
  - exists []. cbn [app fst snd]. split; [done|]. split; [done|]. split; [done|].
    split; [by intros _|by left].
Qed.

Lemma seen_nonce_wf now v nonce :
  cache_wf (nonces_ v) (nonce_order_ v) ->
  cache_wf (nonces_ (seen_nonce now v nonce).1) (nonce_order_ (seen_nonce now v nonce).1).
Proof.
  intros Hwf. unfold seen_nonce. destruct (replay_cache_ v); [|done]. cbn [negb].
  destruct (prune_spec now (skew_seconds_ v) _ _ Hwf) as (pre & _ & Hwf' & _).
  destruct (prune _ _ _ _) as [n1 o1]. cbn [fst snd] in *.
  destruct (n1 !! nonce) eqn:En; [done|].
  destruct (evict_spec (replay_capacity_ v) _ _ Hwf') as (pre' & E & [Hnd Hdom] & Hkeep & _).
  destruct (evict _ _ _) as [n2 o2]. cbn [fst snd nonces_ nonce_order_ with_cache] in *.
  assert (nonce ∉ o1) as Hno1.
  { intros Hin. destruct Hwf' as [_ Hd]. apply Hd in Hin as [? ?]. congruence. }
  assert (nonce ∉ o2) as Hno2 by (intros Hin; apply Hno1; rewrite E; by apply elem_of_app; right).
  split.
  - apply NoDup_app. split; [done|]. split; [|apply NoDup_singleton].
    intros x Hx ->%list_elem_of_singleton. done.
  - intros n. rewrite elem_of_app, list_elem_of_singleton, Hdom.
    destruct (decide (n = nonce)) as [->|Hne].
    + rewrite lookup_insert_eq. split; [eauto|by right].
    + rewrite lookup_insert_ne by congruence. split; [by intros [?|?]|by left].
Qed.

(** The cache holds at most [max 1 replay_capacity] nonces. *)
Lemma seen_nonce_bounded now v nonce :
  cache_wf (nonces_ v) (nonce_order_ v) ->
  Z.of_nat (size (nonces_ v)) <= Z.max 1 (replay_capacity_ v) ->
  Z.of_nat (size (nonces_ (seen_nonce now v nonce).1)) <= Z.max 1 (replay_capacity_ v).
Proof.
  intros Hwf Hb. pose proof (seen_nonce_wf now v nonce Hwf) as Hwf2.
  rewrite (cache_wf_size _ _ Hwf2). rewrite (cache_wf_size _ _ Hwf) in Hb. clear Hwf2.
  unfold seen_nonce. destruct (replay_cache_ v); [|done]. cbn [negb].
  destruct (prune_spec now (skew_seconds_ v) _ _ Hwf) as (pre & E1 & Hwf' & _).
  destruct (prune _ _ _ _) as [n1 o1]. cbn [fst snd] in *. rewrite E1, length_app in Hb.
  destruct (n1 !! nonce); [cbn; lia|].
  destruct (evict_spec (replay_capacity_ v) _ _ Hwf') as (pre' & E & _ & _ & Hcap & _).
  destruct (evict _ _ _) as [n2 o2]. cbn [fst snd nonce_order_ with_cache] in *.
  rewrite length_app. cbn [length]. destruct o2; [simpl; lia|]. specialize (Hcap ltac:(done)). lia.
Qed.

(** A nonce in the cache with at most [k] younger ones after it. *)
Definition remembered (v : ProofVerifier) (nonce : bytes) (t : Z) (k : nat) : Prop :=
  cache_wf (nonces_ v) (nonce_order_ v) /\ nonces_ v !! nonce = Some t /\
  exists pre post, nonce_order_ v = pre ++ nonce :: post /\ (length post <= k)%nat.

Lemma suffix_mid {X} (order pre1 suf pre post : list X) (x : X) :
  order = pre1 ++ suf -> order = pre ++ x :: post -> x ∉ pre1 ->
  exists pre', suf = pre' ++ x :: post.
Proof.
  intros -> E2 Hx. revert pre E2 Hx.
  induction pre1 as [|y pre1 IH]; intros pre E2 Hx; [by exists pre|].
  rewrite not_elem_of_cons in Hx. destruct Hx as [Hy Hx].
  destruct pre as [|z pre]; cbn in E2; [by injection E2 as -> _|].
  injection E2 as -> E2. by apply (IH pre).
Qed.

Lemma seen_nonce_remembers now v other nonce t k :
  remembered v nonce t k -> replay_cache_ v = true ->
  now - t <= skew_seconds_ v -> Z.of_nat k + 1 < replay_capacity_ v ->
  remembered (seen_nonce now v other).1 nonce t (S k) /\
  (seen_nonce now v nonce).2 = true.
Proof.
  intros (Hwf & Ht & pre & post & E & Hk) Hcache Hnow Hcap.
  pose proof (seen_nonce_wf now v other Hwf) as Hwf2.
  unfold remembered. revert Hwf2. unfold seen_nonce. rewrite Hcache. cbn [negb].
  destruct (prune_spec now (skew_seconds_ v) _ _ Hwf) as (pre1 & E1 & Hwf1 & Hpre1 & Hkeep1).
  destruct (prune _ _ _ _) as [n1 o1]. cbn [fst snd] in *.
  assert (nonce ∉ pre1) as Hn1.
  { intros Hin. destruct (Hpre1 _ Hin) as (t' & Ht' & ?). rewrite Ht in Ht'. injection Ht' as ->. lia. }
  rewrite (Hkeep1 nonce Hn1), Ht. intros Hwf2. split; [|done]. split; [done|]. revert Hwf2.
  destruct (suffix_mid _ _ _ _ _ _ E1 E Hn1) as [pre' Eo1].
  destruct (n1 !! other) eqn:Eother.
  { intros _. cbn. rewrite (Hkeep1 nonce Hn1). split; [done|]. exists pre', post. split; [done|lia]. }
  destruct (evict_spec (replay_capacity_ v) _ _ Hwf1) as (pre2 & E2 & _ & Hkeep2 & _ & Hmin).
  destruct (evict _ _ _) as [n2 o2]. cbn [fst snd nonces_ nonce_order_ with_cache] in *. intros _.
  assert (nonce ∉ pre2) as Hn2.
  { intros Hin. destruct Hmin as [->|Hmin]; [by apply not_elem_of_nil in Hin|].
    (* what is evicted lies before the last [capacity - 1] entries *)
    apply list_elem_of_split in Hin as (a & b & ->).
    assert (post = b ++ o2) as Hpost.
    { rewrite Eo1, <- app_assoc in E2. cbn [app] in E2.
      assert (NoDup (pre' ++ nonce :: post)) as Hnd by (rewrite <- Eo1; apply Hwf1).
      clear - E2 Hnd. revert a E2. induction pre' as [|y pre' IH]; intros a E2.
      - destruct a as [|z a]; [by injection E2|]. injection E2 as -> E2. subst post.
        apply NoDup_cons in Hnd as [Hz _]. exfalso. apply Hz. set_solver.
      - destruct a as [|z a]; cbn in E2.
        + injection E2 as -> E2. apply NoDup_cons in Hnd as [Hz _]. exfalso. apply Hz. set_solver.
        + injection E2 as -> E2. apply NoDup_cons in Hnd as [_ Hnd]. by apply (IH Hnd a). }
    rewrite Hpost, length_app in Hk. lia. }
  assert (other <> nonce) as Hne.
  { intros ->. rewrite (Hkeep1 nonce Hn1) in Eother. congruence. }
  rewrite lookup_insert_ne by done. rewrite Hkeep2, (Hkeep1 nonce Hn1) by done. split; [done|].
  destruct (suffix_mid o1 pre2 o2 pre' post nonce E2 Eo1 Hn2) as [pre'' ->].
  exists pre'', (post ++ [other]). rewrite <- app_assoc. split; [done|]. rewrite length_app. simpl. lia.
Qed.

(** ** The decisions of [verify] *)

Definition proof_header (kid ts nonce mac : bytes) : bytes :=
  join_with "." [str "v1"; kid; ts; nonce; mac].

Section decisions.
Context {D : Digests}.

(** Everything [verify] checks before it consults the replay cache. *)
Definition proof_valid (now : Z) (v : ProofVerifier) (h kid ts nonce mac : bytes) : Prop :=
  blen h <= kMaxHeaderBytes /\ h = proof_header kid ts nonce mac /\
  valid_kid kid = true /\ valid_ts ts = true /\ valid_b64url_fixed nonce 22 = true /\
  valid_b64url_fixed mac 43 = true /\
  exists secret ts_value consumed,
    secrets_ v !! kid = Some secret /\ stoll ts = Some (ts_value, consumed) /\
    Z.abs (now - ts_value) <= skew_seconds_ v /\
    mac = expected_mac v secret kid ts nonce.

Lemma verify_valid now now' v h kid ts nonce mac :
  mode_ v <> OFF -> proof_valid now v h kid ts nonce mac ->
  verify now now' v h 1 =
    let '(v', seen) := seen_nonce now' v nonce in
    if seen then (v', refused REPLAYED kid)
    else (v', {| reason := OK; proxy_label := kid; claimed_kid := kid |}).
Proof.
  intros Hmode (Hlen & Hh & Hkid & Hts & Hnonce & Hmac & secret & tsv & n & Hsec & Htsv & Habs & Emac).
  unfold verify. rewrite decide_False by done. cbn [Z.eqb negb orb].
  assert ((length h =? 0)%nat = false) as -> by (rewrite Hh; done).
  rewrite (proj2 (Z.ltb_ge _ _)) by done. cbn [orb].
  assert (split_exact h "." 5 = Some [str "v1"; kid; ts; nonce; mac]) as ->.
  { apply (split_exact_ok h "." [str "v1"; kid; ts; nonce; mac]). split; [done|].
    split; [done|]. repeat constructor.
    - by vm_compute; set_solver.
    - by apply valid_kid_clean.
    - by apply valid_ts_clean.
    - by eapply valid_b64url_fixed_clean.
    - by eapply valid_b64url_fixed_clean. }
  rewrite bool_decide_eq_true_2, Hkid, Hts, Hnonce, Hmac, Hsec, Htsv by done. cbn [negb orb].
  rewrite !(proj2 (Z.ltb_ge _ _)) by lia.
  rewrite (proj2 (constant_time_equal_spec _ _)) by done. done.
Qed.

Lemma verify_ok_inv now now' v h count :
  mode_ v <> OFF -> reason (verify now now' v h count).2 = OK ->
  count = 1 /\ exists kid ts nonce mac,
    proof_valid now v h kid ts nonce mac /\ (seen_nonce now' v nonce).2 = false.
Proof.
  intros Hmode. unfold verify. rewrite decide_False by done.
  destruct (Z.eqb_spec count 0); [done|].
  destruct (negb (count =? 1) || _ || _) eqn:E1; [done|]. bool_to_prop.
  destruct (split_exact h "." 5) as [ps|] eqn:Es; [|done].
  destruct ps as [|version [|kid [|ts [|nonce [|mac [|]]]]]]; try done.
  case_bool_decide as Ev; [|done]. cbn [negb]. subst version.
  destruct (negb (valid_kid kid) || _ || _ || _) eqn:E2; [done|]. bool_to_prop.
  destruct (secrets_ v !! kid) as [secret|] eqn:Esec; [|done].
  destruct (stoll ts) as [[tsv n']|] eqn:Ets; [|done].
  destruct (Z.ltb_spec (skew_seconds_ v) (now - tsv)); [done|].
  destruct (Z.ltb_spec (skew_seconds_ v) (tsv - now)); [done|].
  destruct (constant_time_equal _ _) eqn:Ec; [|done]. cbn [negb].
  apply constant_time_equal_spec in Ec.
  destruct (seen_nonce now' v nonce) as [v' seen] eqn:En. destruct seen; [done|]. intros _.
  split; [done|]. exists kid, ts, nonce, mac. rewrite En. split; [|done].
  apply (split_exact_ok h "." [str "v1"; kid; ts; nonce; mac]) in Es as (_ & Eh & _).
  unfold proof_valid. split_and!; try done. exists secret, tsv, n'. split_and!; try done. lia.
Qed.

(** [verify] changes the verifier only through [seen_nonce]. *)
Lemma verify_state now now' v h count :
  (verify now now' v h count).1 = v \/
  exists nonce, (verify now now' v h count).1 = (seen_nonce now' v nonce).1.
Proof.
  unfold verify. destruct (decide _); [by left|]. destruct (count =? 0); [by left|].
  destruct (_ || _ || _); [by left|]. destruct (split_exact _ _ _) as [ps|]; [|by left].
  destruct ps as [|version [|kid [|ts [|nonce [|mac [|]]]]]]; try by left.
  destruct (negb (bool_decide _)); [by left|]. destruct (_ || _ || _ || _); [by left|].
  destruct (secrets_ v !! kid); [|by left]. destruct (stoll ts) as [[tsv n']|]; [|by left].
  destruct (_ <? _); [by left|]. destruct (_ <? _); [by left|]. destruct (negb _); [by left|].
  right. exists nonce. by destruct (seen_nonce now' v nonce) as [v' []].
Qed.

Lemma seen_nonce_config now v nonce :
  let v' := (seen_nonce now v nonce).1 in
  mode_ v' = mode_ v /\ origin_id_ v' = origin_id_ v /\ secrets_ v' = secrets_ v /\
  skew_seconds_ v' = skew_seconds_ v /\ replay_cache_ v' = replay_cache_ v /\
  replay_capacity_ v' = replay_capacity_ v.
Proof.
  unfold seen_nonce. destruct (negb (replay_cache_ v)); [done|].
  destruct (prune _ _ _ _) as [n1 o1]. destruct (n1 !! nonce); [done|].
  by destruct (evict _ _ _).
Qed.

(** A request: the two clock readings, the header and how many there were. *)
Record request := { clock : Z; clock' : Z; header : bytes; header_count : Z }.

Definition serve (v : ProofVerifier) (r : request) : ProofVerifier :=
  (verify (clock r) (clock' r) v (header r) (header_count r)).1.

Definition serve_all (v : ProofVerifier) (rs : list request) : ProofVerifier := foldl serve v rs.

Lemma serve_config v r :
  mode_ (serve v r) = mode_ v /\ origin_id_ (serve v r) = origin_id_ v /\
  secrets_ (serve v r) = secrets_ v /\ skew_seconds_ (serve v r) = skew_seconds_ v /\
  replay_cache_ (serve v r) = replay_cache_ v /\
  replay_capacity_ (serve v r) = replay_capacity_ v.
Proof.
  unfold serve. destruct (verify_state (clock r) (clock' r) v (header r) (header_count r))
    as [->|[nonce ->]]; [done|]. apply seen_nonce_config.
Qed.

Lemma serve_wf v r :
  cache_wf (nonces_ v) (nonce_order_ v) ->
  cache_wf (nonces_ (serve v r)) (nonce_order_ (serve v r)).
Proof.
  intros Hwf. unfold serve.
  destruct (verify_state (clock r) (clock' r) v (header r) (header_count r)) as [->|[nonce ->]];
    [done|by apply seen_nonce_wf].
Qed.

Lemma serve_all_remembers v rs nonce t k :
  remembered v nonce t k -> replay_cache_ v = true ->
  Forall (fun r => clock' r <= t + skew_seconds_ v) rs ->
  Z.of_nat k + blen rs < replay_capacity_ v ->
  remembered (serve_all v rs) nonce t (k + length rs) /\
  skew_seconds_ (serve_all v rs) = skew_seconds_ v /\
  replay_cache_ (serve_all v rs) = true /\
  replay_capacity_ (serve_all v rs) = replay_capacity_ v.
Proof.
  revert v k; induction rs as [|r rs IH]; intros v k Hr Hc HF Hcap.
  { rewrite Nat.add_0_r. done. }
  apply Forall_cons in HF as [Hclock HF]. cbn [length] in Hcap.
  destruct (serve_config v r) as (_ & _ & _ & Es & Ec & Ecap).
  assert (remembered (serve v r) nonce t (S k)) as Hr'.
  { unfold serve. destruct (verify_state (clock r) (clock' r) v (header r) (header_count r))
      as [->|[other ->]].
    - destruct Hr as (Hwf & Ht & pre & post & E & Hk). split; [done|]. split; [done|].
      exists pre, post. split; [done|lia].
    - by apply (seen_nonce_remembers (clock' r) v other nonce t k); try done; lia. }
  destruct (IH (serve v r) (S k)) as (H1 & H2 & H3 & H4);
    [done|congruence|by rewrite Es|rewrite Ecap; lia|].
  change (serve_all v (r :: rs)) with (serve_all (serve v r) rs).
  replace (k + length (r :: rs))%nat with (S k + length rs)%nat by (simpl; lia).
  split; [done|]. rewrite H2, H3, H4. done.
Qed.
End decisions.

(** ** Properties *)

(** C38: what a proof must be.  With the gate on, [verify] accepts exactly a
    single header of at most 512 bytes, [v1.kid.ts.nonce.mac], whose fields are
    in their alphabets, whose key is configured, whose timestamp is within the
    skew on both sides, whose MAC is the one this origin computes, and whose
    nonce the replay cache does not hold; the label of an accepted proof is
    its key. *)
Theorem proof_accepted_iff `{Digests} now now' v h count kid :
  mode_ v <> OFF ->
  (reason (verify now now' v h count).2 = OK /\ proxy_label (verify now now' v h count).2 = kid <->
   count = 1 /\ blen h <= 512 /\
   exists ts nonce mac secret ts_value consumed,
     h = str "v1." ++ kid ++ str "." ++ ts ++ str "." ++ nonce ++ str "." ++ mac /\
     valid_kid kid = true /\ valid_ts ts = true /\
     valid_b64url_fixed nonce 22 = true /\ valid_b64url_fixed mac 43 = true /\
     secrets_ v !! kid = Some secret /\ stoll ts = Some (ts_value, consumed) /\
     now - ts_value <= skew_seconds_ v /\ ts_value - now <= skew_seconds_ v /\
     mac = base64url_encode (hmac_sha256 secret (canonical kid ts nonce (origin_id_ v))) /\
     (seen_nonce now' v nonce).2 = false).
Proof.
  intros Hmode. split.
  - intros [Hok Hlabel].
    destruct (verify_ok_inv _ _ _ _ _ Hmode Hok) as (-> & kid' & ts & nonce & mac & Hv & Hs).
    rewrite (verify_valid now now' v h kid' ts nonce mac Hmode Hv) in Hlabel.
    destruct (seen_nonce now' v nonce) as [v' seen] eqn:En. cbn [snd] in Hs. subst seen.
    cbn in Hlabel. subst kid'.
    destruct Hv as (Hlen & Hh & Hk & Ht & Hn & Hm & secret & tsv & n & H1 & H2 & H3 & H4).
    split; [done|]. split; [done|]. exists ts, nonce, mac, secret, tsv, n. rewrite En.
    split_and!; try done; lia.
  - intros (-> & Hlen & ts & nonce & mac & secret & tsv & n & Hh & Hk & Ht & Hn & Hm & H1 & H2 & H3
      & H4 & H5 & Hs).
    rewrite (verify_valid now now' v h kid ts nonce mac Hmode).
    + by destruct (seen_nonce now' v nonce) as [v' []].
    + split_and!; try done. exists secret, tsv, n. split_and!; try done. lia.
Qed.

(** the MAC input is unambiguous: two proofs whose fields are in their
    alphabets have the same MAC input only when every field and the origin
    agree. *)
Theorem canonical_injective kid ts nonce origin kid' ts' nonce' origin' :
  valid_kid kid = true -> valid_ts ts = true -> valid_b64url_fixed nonce 22 = true ->
  valid_kid kid' = true -> valid_ts ts' = true -> valid_b64url_fixed nonce' 22 = true ->
  canonical kid ts nonce origin = canonical kid' ts' nonce' origin' ->
  kid = kid' /\ ts = ts' /\ nonce = nonce' /\ origin = origin'.
Proof.
  intros [_ Hk]%valid_kid_clean [_ Ht]%valid_ts_clean [_ Hn]%valid_b64url_fixed_clean
    [_ Hk']%valid_kid_clean [_ Ht']%valid_ts_clean [_ Hn']%valid_b64url_fixed_clean E.
  unfold canonical in E. apply app_inv_head, app_inv_head in E. cbn [app] in E.
  apply app_sep_inj in E as [-> E]; [|done|done].
  apply app_sep_inj in E as [-> E]; [|done|done].
  by apply app_sep_inj in E as [-> ->].
Qed.

(** Replay protection.  After a proof was accepted at (second) clock
    reading [t], the same header is refused whatever else is served in between,
    as long as the clock has not passed [t + skew] and fewer than
    [replay_capacity - 1] requests came in between. *)
Theorem replayed_proof_refused `{Digests} now t v h rs now2 now2' :
  mode_ v <> OFF -> replay_cache_ v = true -> cache_wf (nonces_ v) (nonce_order_ v) ->
  reason (verify now t v h 1).2 = OK ->
  Forall (fun r => clock' r <= t + skew_seconds_ v) rs -> now2' <= t + skew_seconds_ v ->
  1 + blen rs < replay_capacity_ v ->
  reason (verify now2 now2' (serve_all (verify now t v h 1).1 rs) h 1).2 <> OK.
Proof.
  intros Hmode Hcache Hwf Hok HF Ht2 Hcap.
  destruct (verify_ok_inv _ _ _ _ _ Hmode Hok) as (_ & kid & ts & nonce & mac & Hv & Hs).
  rewrite (verify_valid now t v h kid ts nonce mac Hmode Hv).
  pose proof (seen_nonce_wf t v nonce Hwf) as Hwf1.
  destruct (seen_nonce_config t v nonce) as (Em & _ & _ & Esk & Ec & Ecap).
  assert (remembered (seen_nonce t v nonce).1 nonce t 0) as Hr.
  { split; [done|]. revert Hs. unfold seen_nonce. rewrite Hcache. cbn [negb].
    destruct (prune _ _ _ _) as [n1 o1]. destruct (n1 !! nonce); [done|].
    destruct (evict _ _ _) as [n2 o2]. intros _. cbn. split; [apply lookup_insert_eq|].
    exists o2, []. split; [done|simpl; lia]. }
  destruct (seen_nonce t v nonce) as [v1 seen]. cbn [fst snd] in *. subst seen. cbn [fst].
  destruct (serve_all_remembers v1 rs nonce t 0 Hr) as (Hr2 & Esk2 & Ec2 & Ecap2);
    [congruence|by rewrite Esk|rewrite Ecap; lia|].
  assert (mode_ (serve_all v1 rs) = mode_ v) as Em2.
  { rewrite <- Em. clear. unfold serve_all. revert v1.
    induction rs as [|r rs IH]; intros v1; cbn [foldl]; [done|].
    rewrite IH. apply serve_config. }
  assert (mode_ (serve_all v1 rs) <> OFF) as Hmode2 by congruence.
  intros Hok2. destruct (verify_ok_inv _ _ _ _ _ Hmode2 Hok2)
    as (_ & kid2 & ts2 & nonce2 & mac2 & Hv2 & Hs2).
  assert (nonce2 = nonce) as ->.
  { destruct Hv as (_ & E1 & K1 & T1 & N1 & M1 & _), Hv2 as (_ & E2 & K2 & T2 & N2 & M2 & _).
    rewrite E1 in E2. unfold proof_header in E2. cbn [join_with] in E2.
    apply app_inv_head in E2. injection E2 as E2.
    apply app_sep_inj in E2 as [-> E2]; [|by apply valid_kid_clean..].
    apply app_sep_inj in E2 as [-> E2]; [|by apply valid_ts_clean..].
    apply app_sep_inj in E2 as [-> _]; [done|by eapply valid_b64url_fixed_clean..]. }
  destruct (seen_nonce_remembers now2' (serve_all v1 rs) nonce nonce t (0 + length rs) Hr2)
    as [_ Hseen]; [done|rewrite Esk2, Esk; lia|rewrite Ecap2, Ecap; lia|congruence].
Qed.

(** C39: the cache forgets too early.  A proof dated in the future, by at most
    the skew, is accepted at time [now]; [skew + 1] seconds later its timestamp
    is still inside the window while its nonce has been dropped, and the very
    same header is accepted again. *)
Theorem future_dated_proof_replays `{Digests} now v h kid ts nonce mac secret d consumed :
  mode_ v <> OFF -> replay_cache_ v = true -> nonces_ v = ∅ -> nonce_order_ v = [] ->
  blen h <= 512 -> h = proof_header kid ts nonce mac ->
  valid_kid kid = true -> valid_ts ts = true ->
  valid_b64url_fixed nonce 22 = true -> valid_b64url_fixed mac 43 = true ->
  secrets_ v !! kid = Some secret -> stoll ts = Some (now + d, consumed) ->
  1 <= d <= skew_seconds_ v ->
  mac = expected_mac v secret kid ts nonce ->
  let later := now + skew_seconds_ v + 1 in
  reason (verify now now v h 1).2 = OK /\
  reason (verify later later (verify now now v h 1).1 h 1).2 = OK.
Proof.
  intros Hmode Hcache Hn Ho Hlen Hh Hk Ht Hno Hm Hsec Hts Hd Hmac later.
  assert (forall t v', secrets_ v' = secrets_ v -> skew_seconds_ v' = skew_seconds_ v ->
    origin_id_ v' = origin_id_ v -> Z.abs (t - (now + d)) <= skew_seconds_ v ->
    proof_valid t v' h kid ts nonce mac) as Hvalid.
  { intros t v' E1 E2 E3 Habs. unfold proof_valid. split_and!; try done.
    exists secret, (now + d), consumed. rewrite E1, E2. split_and!; try done.
    unfold expected_mac in *. by rewrite E3. }
  rewrite (verify_valid now now v h kid ts nonce mac Hmode) by (apply Hvalid; done || lia).
  assert (seen_nonce now v nonce = (with_cache v {[nonce := now]} [nonce], false)) as ->.
  { unfold seen_nonce. rewrite Hcache, Hn, Ho. cbn. by rewrite lookup_empty. }
  split; [done|]. cbn [fst].
  rewrite (verify_valid later later _ h kid ts nonce mac) by (done || (apply Hvalid; done || lia)).
  unfold seen_nonce. cbn [replay_cache_ with_cache nonces_ nonce_order_ skew_seconds_]. rewrite Hcache.
  cbn [negb prune]. rewrite lookup_singleton_eq, (proj2 (Z.leb_gt _ _)) by lia.
  by rewrite delete_singleton_eq, lookup_empty.
Qed.

(** Memory is bounded.  From any verifier the constructor made, no sequence
    of requests makes the cache hold more than [max 1 replay_capacity] nonces,
    and the eviction order always lists exactly the cached nonces. *)
Theorem replay_cache_bounded `{Digests} mode origin spec skew cache capacity v rs :
  new_verifier mode origin spec skew cache capacity = Ok v ->
  let v' := serve_all v rs in
  Z.of_nat (size (nonces_ v')) <= Z.max 1 capacity /\
  NoDup (nonce_order_ v') /\ forall n, n ∈ nonce_order_ v' <-> is_Some (nonces_ v' !! n).
Proof.
  intros Hnew v'.
  assert (nonces_ v = ∅ /\ nonce_order_ v = [] /\ replay_capacity_ v = capacity) as (En & Eo & Ec).
  { unfold new_verifier in Hnew. destruct (decide _); [by injection Hnew as <-|].
    destruct (negb _); [done|]. apply res_bind_ok in Hnew as (secrets & _ & Hnew).
    destruct (decide _); [done|]. by injection Hnew as <-. }
  assert (forall rs v, cache_wf (nonces_ v) (nonce_order_ v) ->
    Z.of_nat (size (nonces_ v)) <= Z.max 1 (replay_capacity_ v) ->
    Z.of_nat (size (nonces_ (serve_all v rs))) <= Z.max 1 (replay_capacity_ v) /\
    cache_wf (nonces_ (serve_all v rs)) (nonce_order_ (serve_all v rs))) as Hgen.
  { clear. induction rs as [|r rs IH]; intros v Hwf Hb; [done|]. cbn [serve_all foldl].
    destruct (serve_config v r) as (_ & _ & _ & _ & _ & Ecap). rewrite <- Ecap. apply IH.
    - by apply serve_wf.
    - rewrite Ecap. unfold serve.
      destruct (verify_state (clock r) (clock' r) v (header r) (header_count r)) as [->|[n ->]];
        [done|by apply seen_nonce_bounded]. }
  rewrite <- Ec. apply Hgen; rewrite En; [|rewrite map_size_empty; lia].
  rewrite Eo. split; [apply NoDup_nil_2|]. intros n. rewrite lookup_empty.
  split; [by intros ?%not_elem_of_nil|by intros [? ?]].
Qed.

Lemma hex_decode_length s raw : hex_decode s = Some raw -> length s = (2 * length raw)%nat.
Proof.
  unfold hex_decode. destruct (Nat.eqb_spec (length s mod 2) 0) as [Hmod|]; [|done]. cbn [negb].
  apply Nat.Div0.mod_divides in Hmod as [k Hk]. revert s raw Hk. induction k as [|k IH]; intros s raw Hk Hd.
  - destruct s; [|simpl in Hk; lia]. by injection Hd as <-.
  - destruct s as [|c0 [|c1 s]]; [simpl in Hk; lia|simpl in Hk; lia|]. cbn [hex_decode_loop] in Hd.
    destruct (_ || _); [done|]. destruct (hex_decode_loop s) as [raw'|] eqn:E; [|done].
    cbn in Hd. injection Hd as <-. cbn [length] in *. rewrite (IH s raw') by (done || lia). lia.
Qed.

(** Every configured key is a valid kid with a 32-byte secret. *)
Definition secrets_ok (secrets : gmap bytes bytes) : Prop :=
  forall kid secret, secrets !! kid = Some secret -> valid_kid kid = true /\ length secret = 32%nat.

Lemma parse_secret_ok entry kid raw :
  parse_secret entry = Ok (kid, raw) -> valid_kid kid = true /\ length raw = 32%nat.
Proof.
  unfold parse_secret. destruct (split_first ":" entry) as [[k hex]|]; [|done].
  destruct (valid_kid k) eqn:Ek; [|done]. cbn [negb].
  destruct (Z.eqb_spec (blen hex) 64); [|done]. cbn [negb].
  destruct (hex_decode hex) as [r|] eqn:Er; [|done]. intros [= <- <-].
  apply hex_decode_length in Er. split; [done|lia].
Qed.

Lemma parse_entries_ok entries out secrets :
  secrets_ok out -> parse_entries entries out = Ok secrets -> secrets_ok secrets.
Proof.
  revert out; induction entries as [|entry entries IH]; intros out Hout; cbn [parse_entries].
  { by intros [= <-]. }
  destruct entry as [|c entry]; [by apply IH|].
  intros E. apply res_bind_ok in E as ([kid raw] & Ep & E). revert E. apply IH.
  apply parse_secret_ok in Ep. intros kid' secret.
  destruct (decide (kid' = kid)) as [->|Hne].
  - rewrite lookup_insert_eq. by intros [= <-].
  - rewrite lookup_insert_ne by congruence. apply Hout.
Qed.

(** a gate that starts is configured.  In allow or require mode the
    constructor succeeds only with a well-formed origin and at least one key,
    every key a valid kid with a secret of exactly 32 bytes, and a positive
    skew. *)
Theorem verifier_configured mode origin spec skew cache capacity v :
  new_verifier mode origin spec skew cache capacity = Ok v -> mode <> OFF ->
  valid_origin_id origin = true /\ origin_id_ v = origin /\ mode_ v = mode /\
  0 < skew_seconds_ v /\ secrets_ v <> ∅ /\
  forall kid secret, secrets_ v !! kid = Some secret ->
    valid_kid kid = true /\ length secret = 32%nat.
Proof.
  unfold new_verifier. intros E Hmode. rewrite decide_False in E by done.
  destruct (valid_origin_id origin) eqn:Eo; [|done]. cbn [negb] in E.
  apply res_bind_ok in E as (secrets & Es & E). destruct (decide _) as [|Hne]; [done|].
  injection E as <-. cbn. split_and!; try done.
  - destruct (Z.ltb_spec 0 skew); lia.
  - apply (parse_entries_ok _ _ _ ltac:(intros ? ?; by rewrite lookup_empty) Es).
Qed.

(** ** Witnesses *)

Import Toy.

Definition demo_kid : bytes := str "edge-1".
Definition demo_nonce : bytes := str "abcdefghijklmnopqrstuv".
Definition demo_spec : bytes := demo_kid ++ str ":" ++ hex_encode (replicate 32 x05).

Definition demo_verifier : ProofVerifier :=
  {| mode_ := REQUIRE; origin_id_ := str "origin.example"; secrets_ := {[demo_kid := replicate 32 x05]};
     skew_seconds_ := 30; replay_cache_ := true; replay_capacity_ := 100;
     nonces_ := ∅; nonce_order_ := [] |}.

Lemma demo_new_verifier :
  new_verifier REQUIRE (str "origin.example") demo_spec 30 true 100 = Ok demo_verifier.
Proof. vm_compute. reflexivity. Qed.

Definition demo_mac (ts : bytes) : bytes :=
  expected_mac demo_verifier (replicate 32 x05) demo_kid ts demo_nonce.

Definition demo_header (ts : bytes) : bytes := proof_header demo_kid ts demo_nonce (demo_mac ts).

Lemma proof_accepted_iff_witness :
  reason (verify 1000 1000 demo_verifier (demo_header (str "1010")) 1).2 = OK.
Proof.
  apply (proof_accepted_iff 1000 1000 demo_verifier (demo_header (str "1010")) 1 demo_kid ltac:(done)).
  split; [done|]. split; [vm_compute; done|].
  exists (str "1010"), demo_nonce, (demo_mac (str "1010")), (replicate 32 x05), 1010, 4%nat.
  split_and!; try (vm_compute; done).
Defined.

Lemma canonical_injective_witness :
  canonical demo_kid (str "12") demo_nonce [] <> canonical demo_kid (str "1") demo_nonce (str "2").
Proof.
  intros E. destruct (canonical_injective demo_kid (str "12") demo_nonce [] demo_kid (str "1")
    demo_nonce (str "2")) as (_ & H & _); try done.
Defined.

Lemma replayed_proof_refused_witness :
  reason (verify 1020 1020
    (serve_all (verify 1000 1000 demo_verifier (demo_header (str "1010")) 1).1
       [{| clock := 1005; clock' := 1005; header := demo_header (str "1004"); header_count := 1 |}])
    (demo_header (str "1010")) 1).2 <> OK.
Proof.
  apply replayed_proof_refused; try (vm_compute; done).
  - split; [apply NoDup_nil_2|]. intros n. cbn. rewrite lookup_empty.
    split; [by intros ?%not_elem_of_nil|by intros [? ?]].
  - repeat constructor. vm_compute. done.
Defined.

Lemma future_dated_proof_replays_witness :
  reason (verify 1000 1000 demo_verifier (demo_header (str "1010")) 1).2 = OK /\
  reason (verify 1031 1031 (verify 1000 1000 demo_verifier (demo_header (str "1010")) 1).1
            (demo_header (str "1010")) 1).2 = OK.
Proof.
  apply (future_dated_proof_replays 1000 demo_verifier (demo_header (str "1010")) demo_kid
    (str "1010") demo_nonce (demo_mac (str "1010")) (replicate 32 x05) 10 4); try (vm_compute; done).
Defined.

Lemma replay_cache_bounded_witness :
  Z.of_nat (size (nonces_ (serve_all demo_verifier
    [{| clock := 1000; clock' := 1000; header := demo_header (str "1010"); header_count := 1 |}])))
  <= Z.max 1 100.
Proof.
  exact (proj1 (replay_cache_bounded REQUIRE (str "origin.example") demo_spec 30 true 100
    demo_verifier _ demo_new_verifier)).
Defined.

Lemma verifier_configured_witness : secrets_ demo_verifier <> ∅.
Proof.
  exact (proj1 (proj2 (proj2 (proj2 (proj2
    (verifier_configured REQUIRE (str "origin.example") demo_spec 30 true 100
      demo_verifier demo_new_verifier ltac:(done))))))).
Defined.
