(* ===== verification/ProxyProtocol.v ===== *)
(** * The PROXY protocol header (src/src/proxy_protocol_v2.cpp)

    The parser of the binary preamble a trusted proxy sends ahead of a
    connection, byte by byte, and the theorem that it accepts exactly the
    preambles of a grammar, with the addresses they carry.  [inet_ntop] is
    library code: a parameter. *)

From S2P Require Import Prelude IdentityInternal.

Record ProxyProtocolV2Address := {
  source_address : bytes;
  destination_address : bytes;
  source_port : Z;
  destination_port : Z;
  iroh_endpoint_id : option bytes;
}.

Definition no_address : ProxyProtocolV2Address :=
  {| source_address := []; destination_address := []; source_port := 0; destination_port := 0;
     iroh_endpoint_id := None |}.

Definition with_endpoint (r : ProxyProtocolV2Address) (id : bytes) : ProxyProtocolV2Address :=
  {| source_address := source_address r; destination_address := destination_address r;
     source_port := source_port r; destination_port := destination_port r;
     iroh_endpoint_id := Some id |}.

(** The text of an address of the family, read from the start of the bytes. *)
Class InetNtop := inet_ntop : address_family -> bytes -> option bytes.

Definition kSignature : bytes := [x0d; x0a; x0d; x0a; x00; x0d; x0a; x51; x55; x49; x54; x0a].
Definition kFixedBytes : nat := 16.
Definition kVersion2 : Z := 32.
Definition kProxyCommand : Z := 1.
Definition kUnspec : byte := x00.
Definition kTcpIpv4 : byte := x11.
Definition kTcpIpv6 : byte := x21.
Definition kIrohEndpointVersion : byte := x01.
Definition kIrohEndpointValueBytes : nat := 33.
Definition VGI_IROH_ENDPOINT_TLV : byte := xe0.

Definition v2_error {A} (what : bytes) : res A := Throw (ProxyProtocolV2Error what).

(** [data[i]]. *)
Definition byte_at (data : bytes) (i : nat) : byte := default x00 (data !! i).

Definition network_u16 (data : bytes) : Z :=
  u16 (Z.lor (u16 (Z.shiftl (b2z (byte_at data 0)) 8)) (b2z (byte_at data 1))).

Section parser.
Context {ntop : InetNtop}.

Definition numeric_address (family : address_family) (data : bytes) : res bytes :=
  match inet_ntop family data with
  | None => v2_error (str "PROXY v2 contains an invalid IP address")
  | Some value =>
      let mapped := str "::ffff:" in
      if (length mapped <? length value)%nat
         && bool_decide (map tolower (take (length mapped) value) = map tolower mapped) then
        Ok (drop (length mapped) value)
      else Ok value
  end.

(** What one TLV adds: the identity, when it is asked for. *)
Definition identity_tlv (allow_iroh_identity : bool) (type : byte) (value : bytes)
    (result : ProxyProtocolV2Address) : res ProxyProtocolV2Address :=
  if Byte.eqb type VGI_IROH_ENDPOINT_TLV && allow_iroh_identity then
    match iroh_endpoint_id result with
    | Some _ => v2_error (str "PROXY v2 contains duplicate VGI Iroh identity TLVs")
    | None =>
        if negb (length value =? kIrohEndpointValueBytes)%nat
           || negb (Byte.eqb (byte_at value 0) kIrohEndpointVersion) then
          v2_error (str "PROXY v2 contains an invalid VGI Iroh identity TLV")
        else Ok (with_endpoint result (drop 1 value))
    end
  else Ok result.

(** The loop over the TLVs from [offset] on; a TLV has at least three bytes. *)
Fixpoint parse_tlvs (fuel : nat) (body : bytes) (offset : nat) (allow_iroh_identity : bool)
    (result : ProxyProtocolV2Address) : res ProxyProtocolV2Address :=
  if (length body <=? offset)%nat then Ok result
  else
    match fuel with
    | O => v2_error []
    | S fuel' =>
        if (length body - offset <? 3)%nat then
          v2_error (str "PROXY v2 contains a truncated TLV header")
        else
          let len := Z.to_nat (network_u16 (drop (offset + 1) body)) in
          let type := byte_at body offset in
          let offset := (offset + 3)%nat in
          if (length body - offset <? len)%nat then
            v2_error (str "PROXY v2 contains a truncated TLV value")
          else
            let value := take len (drop offset body) in
            result ← identity_tlv allow_iroh_identity type value result;
            parse_tlvs fuel' body (offset + len) allow_iroh_identity result
    end.

Definition proxy_protocol_v2_size (prefix : bytes) (maximum_bytes : Z) : res Z :=
  if negb (length prefix =? kFixedBytes)%nat then
    v2_error (str "PROXY v2 fixed preamble must be exactly 16 bytes")
  else if negb (bool_decide (take 12 prefix = kSignature)) then
    v2_error (str "missing PROXY v2 signature")
  else if negb (Z.land (b2z (byte_at prefix 12)) 240 =? kVersion2) then
    v2_error (str "unsupported PROXY protocol version")
  else
    let total := Z.of_nat kFixedBytes + network_u16 (drop 14 prefix) in
    if maximum_bytes <? total then v2_error (str "PROXY v2 preamble exceeds configured limit")
    else Ok total.

(** The address block: its size and what it says. *)
Definition parse_address (family : byte) (body : bytes) (allow_iroh_identity : bool)
    : res (nat * ProxyProtocolV2Address) :=
  if Byte.eqb family kUnspec && allow_iroh_identity then Ok (0%nat, no_address)
  else if Byte.eqb family kTcpIpv4 then
    if (length body <? 12)%nat then v2_error (str "truncated PROXY v2 TCP/IPv4 address block")
    else
      src ← numeric_address AF_INET (take 4 body);
      dst ← numeric_address AF_INET (take 4 (drop 4 body));
      Ok (12%nat, {| source_address := src; destination_address := dst;
                     source_port := network_u16 (drop 8 body);
                     destination_port := network_u16 (drop 10 body); iroh_endpoint_id := None |})
  else if Byte.eqb family kTcpIpv6 then
    if (length body <? 36)%nat then v2_error (str "truncated PROXY v2 TCP/IPv6 address block")
    else
      src ← numeric_address AF_INET6 (take 16 body);
      dst ← numeric_address AF_INET6 (take 16 (drop 16 body));
      Ok (36%nat, {| source_address := src; destination_address := dst;
                     source_port := network_u16 (drop 32 body);
                     destination_port := network_u16 (drop 34 body); iroh_endpoint_id := None |})
  else v2_error (str "PROXY v2 requires TCP over IPv4 or IPv6").

(** Everything behind the fixed part. *)
Definition parse_body (family : byte) (body : bytes) (allow_iroh_identity : bool)
    : res ProxyProtocolV2Address :=
  '(address_bytes, result) ← parse_address family body allow_iroh_identity;
  result ← parse_tlvs (length body) body address_bytes allow_iroh_identity result;
  let identified := bool_decide (is_Some (iroh_endpoint_id result)) in
  if Byte.eqb family kUnspec && negb identified then
    v2_error (str "PROXY/UNSPEC requires one VGI Iroh identity TLV")
  else if identified && negb (Byte.eqb family kUnspec) then
    v2_error (str "VGI Iroh identity requires PROXY/UNSPEC")
  else Ok result.

Definition parse_proxy_protocol_v2 (preamble : bytes) (maximum_bytes : Z)
    (allow_iroh_identity : bool) : res ProxyProtocolV2Address :=
  if (length preamble <? kFixedBytes)%nat then
    v2_error (str "truncated PROXY v2 fixed preamble")
  else
    expected ← proxy_protocol_v2_size (take kFixedBytes preamble) maximum_bytes;
    if negb (blen preamble =? expected) then
      v2_error (str "truncated or overlong PROXY v2 preamble")
    else if negb (Z.land (b2z (byte_at preamble 12)) 15 =? kProxyCommand) then
      v2_error (str "PROXY v2 LOCAL command is not accepted")
    else parse_body (byte_at preamble 13) (drop kFixedBytes preamble) allow_iroh_identity.
End parser.

(** ** The grammar *)

Definition be16 (n : Z) : bytes := [z2b (n / 256); z2b n].

Record tlv := { tlv_type : byte; tlv_value : bytes }.

Definition tlv_fits (t : tlv) : Prop := blen (tlv_value t) < 65536.

Definition encode_tlv (t : tlv) : bytes :=
  tlv_type t :: be16 (blen (tlv_value t)) ++ tlv_value t.

Definition encode_tlvs (ts : list tlv) : bytes := concat (map encode_tlv ts).

(** The values of the identity TLVs, when they are asked for. *)
Definition identity_claims (allow : bool) (ts : list tlv) : list bytes :=
  if allow then map tlv_value (filter (fun t => tlv_type t = VGI_IROH_ENDPOINT_TLV) ts) else [].

(** At most one claim, of version 1 with 32 bytes of key. *)
Definition claims_say (claims : list bytes) (id : option bytes) : Prop :=
  match id with
  | None => claims = []
  | Some k => claims = [x01 :: k] /\ length k = 32%nat
  end.

Inductive endpoints :=
  | Unspec
  | Tcp4 (source destination : bytes) (sport dport : Z)
  | Tcp6 (source destination : bytes) (sport dport : Z).

Definition family_byte (e : endpoints) : byte :=
  match e with Unspec => kUnspec | Tcp4 _ _ _ _ => kTcpIpv4 | Tcp6 _ _ _ _ => kTcpIpv6 end.

Definition encode_endpoints (e : endpoints) : bytes :=
  match e with
  | Unspec => []
  | Tcp4 s d sp dp | Tcp6 s d sp dp => s ++ d ++ be16 sp ++ be16 dp
  end.

Definition is_port (p : Z) : Prop := 0 <= p < 65536.

Definition endpoints_ok (e : endpoints) : Prop :=
  match e with
  | Unspec => True
  | Tcp4 s d sp dp => length s = 4%nat /\ length d = 4%nat /\ is_port sp /\ is_port dp
  | Tcp6 s d sp dp => length s = 16%nat /\ length d = 16%nat /\ is_port sp /\ is_port dp
  end.

(** What a parsed header says of the endpoints. *)
Definition endpoints_read `{InetNtop} (e : endpoints) (r : ProxyProtocolV2Address) : Prop :=
  match e with
  | Unspec =>
      source_address r = [] /\ destination_address r = [] /\ source_port r = 0 /\
      destination_port r = 0
  | Tcp4 s d sp dp =>
      numeric_address AF_INET s = Ok (source_address r) /\
      numeric_address AF_INET d = Ok (destination_address r) /\
      source_port r = sp /\ destination_port r = dp
  | Tcp6 s d sp dp =>
      numeric_address AF_INET6 s = Ok (source_address r) /\
      numeric_address AF_INET6 d = Ok (destination_address r) /\
      source_port r = sp /\ destination_port r = dp
  end.

Definition preamble_of (e : endpoints) (ts : list tlv) : bytes :=
  let body := encode_endpoints e ++ encode_tlvs ts in
  kSignature ++ [x21; family_byte e] ++ be16 (blen body) ++ body.

(** ** Lemmas *)

Lemma network_u16_val b0 b1 rest : network_u16 (b0 :: b1 :: rest) = b2z b0 * 256 + b2z b1.
Proof.
  unfold network_u16, byte_at. cbn [lookup list_lookup default].
  pose proof (b2z_range b0). pose proof (b2z_range b1). unfold u16.
  rewrite (Z.mod_small (Z.shiftl _ _)) by (rewrite Z.shiftl_mul_pow2 by lia; cbn; lia).
  change (default x00 (Some b0)) with b0. change (default x00 (Some b1)) with b1.
  rewrite shiftl_lor_add by (cbn; lia). apply Z.mod_small. cbn. lia.
Qed.

Lemma network_u16_be16 n rest : 0 <= n < 65536 -> network_u16 (be16 n ++ rest) = n.
Proof.
  intros H. unfold be16. cbn [app]. rewrite network_u16_val, !b2z_z2b.
  rewrite (Z.mod_small (n / 256)) by (split; [apply Z.div_pos|apply Z.div_lt_upper_bound]; lia).
  pose proof (Z.div_mod n 256). lia.
Qed.

Lemma be16_network_u16 (data : bytes) : (2 <= length data)%nat ->
  data = be16 (network_u16 data) ++ drop 2 data /\ 0 <= network_u16 data < 65536.
Proof.
  destruct data as [|b0 [|b1 rest]]; cbn [length]; try lia. intros _. rewrite network_u16_val.
  pose proof (b2z_range b0). pose proof (b2z_range b1). split; [|lia].
  unfold be16. rewrite Z.div_add_l, Z.div_small, Z.add_0_r, z2b_b2z by lia. cbn. do 2 f_equal.
  symmetry. apply z2b_eq. rewrite Z.add_comm, Z_mod_plus_full. by apply Z.mod_small.
Qed.

(** The TLVs one after the other. *)
Fixpoint identity_tlvs (allow : bool) (r : ProxyProtocolV2Address) (ts : list tlv)
    : res ProxyProtocolV2Address :=
  match ts with
  | [] => Ok r
  | t :: ts' => r ← identity_tlv allow (tlv_type t) (tlv_value t) r; identity_tlvs allow r ts'
  end.

Lemma tlv_read rest len : len = Z.to_nat (network_u16 (drop 1 rest)) ->
  (3 <= length rest)%nat -> (len <= length rest - 3)%nat ->
  let t := {| tlv_type := byte_at rest 0; tlv_value := take len (drop 3 rest) |} in
  rest = encode_tlv t ++ drop (3 + len) rest /\ tlv_fits t.
Proof.
  intros El H3 Hlen. destruct rest as [|ty rest1]; cbn [length] in *; [lia|].
  change (drop 1 (ty :: rest1)) with (drop 0 rest1) in El. rewrite drop_0 in El.
  destruct (be16_network_u16 rest1) as [E Hr]; [lia|].
  assert (blen (take len (drop 2 rest1)) = network_u16 rest1) as Hb.
  { rewrite length_take, length_drop. lia. }
  unfold tlv_fits, encode_tlv. cbn [tlv_type tlv_value drop Nat.add]. rewrite Hb. split; [|lia].
  change (byte_at (ty :: rest1) 0) with ty. rewrite <- app_comm_cons, <- app_assoc. f_equal.
  change (S (S len)) with (2 + len)%nat. by rewrite <- (drop_drop rest1 len 2), take_drop.
Qed.

Lemma tlv_written t more (rest := encode_tlv t ++ more) : tlv_fits t ->
  (3 + length (tlv_value t) <= length rest)%nat /\ byte_at rest 0 = tlv_type t /\
  Z.to_nat (network_u16 (drop 1 rest)) = length (tlv_value t) /\
  take (length (tlv_value t)) (drop 3 rest) = tlv_value t /\
  drop (3 + length (tlv_value t)) rest = more.
Proof.
  intros Hf. unfold tlv_fits in Hf. subst rest. unfold encode_tlv. split_and!.
  - cbn. rewrite !length_app. lia.
  - done.
  - rewrite <- app_comm_cons. cbn [drop]. rewrite drop_0, <- app_assoc, network_u16_be16; lia.
  - cbn. rewrite drop_0. by apply take_app_exact.
  - cbn. by apply drop_app_exact.
Qed.

Lemma encode_tlvs_nil ts : encode_tlvs ts = [] -> ts = [].
Proof. by destruct ts. Qed.

(** The loop reads a list of TLVs; the length of the body is enough fuel. *)
Lemma parse_tlvs_spec allow fuel body off r r' :
  (off <= length body)%nat -> (length body <= off + fuel)%nat ->
  parse_tlvs fuel body off allow r = Ok r' <->
  exists ts, Forall tlv_fits ts /\ drop off body = encode_tlvs ts /\ identity_tlvs allow r ts = Ok r'.
Proof.
  revert off r. induction fuel as [|fuel IH]; intros off r Ho Hf; cbn [parse_tlvs];
    destruct (Nat.leb_spec (length body) off) as [Hend|Hmore]; try lia.
  1,2: rewrite drop_ge by lia; split; [intros [= <-]; exists []; done|];
    intros (ts & _ & Ets & Hs); symmetry in Ets; apply encode_tlvs_nil in Ets as ->;
    by injection Hs as ->.
  replace (drop (off + 1) body) with (drop 1 (drop off body)) by by rewrite drop_drop.
  replace (byte_at body off) with (byte_at (drop off body) 0)
    by (unfold byte_at; rewrite lookup_drop; by rewrite Nat.add_0_r).
  replace (drop (off + 3) body) with (drop 3 (drop off body)) by by rewrite drop_drop.
  assert (length body - off = length (drop off body))%nat as El by by rewrite length_drop.
  replace (length body - (off + 3))%nat with (length (drop off body) - 3)%nat by lia. rewrite El.
  assert (forall n, drop (off + 3 + n) body = drop (3 + n) (drop off body)) as Hd
    by (intros n; rewrite drop_drop; f_equal; lia).
  set (rest := drop off body) in *. assert (rest <> []) as Hne by (intros E; rewrite E in El; cbn in El; lia).
  split.
  - destruct (Nat.ltb_spec (length rest) 3) as [|H3]; [done|].
    destruct (Nat.ltb_spec (length rest - 3) (Z.to_nat (network_u16 (drop 1 rest)))) as [|Hl]; [done|].
    destruct (tlv_read rest _ eq_refl H3 Hl) as [E Hfit]. cbv zeta in E, Hfit.
    intros (r1 & Hstep & Hrec)%res_bind_ok.
    apply IH in Hrec as (ts & Hts & Etl & Hsteps); [|lia..]. rewrite Hd in Etl.
    eexists (_ :: ts). split; [by constructor|]. split; [etrans; [exact E|]; by rewrite Etl|].
    cbn [identity_tlvs tlv_type tlv_value]. by rewrite Hstep.
  - intros ([|t ts] & Hfit & E & Hsteps); [done|]. apply Forall_cons in Hfit as [Hfit Hts].
    change (encode_tlvs (t :: ts)) with (encode_tlv t ++ encode_tlvs ts) in E.
    destruct (tlv_written t (encode_tlvs ts) Hfit) as (Hlen & Hty & Hn & Hv & Hm).
    rewrite <- E in Hlen, Hty, Hn, Hv, Hm. rewrite Hn, Hty, Hv.
    destruct (Nat.ltb_spec (length rest) 3); [lia|].
    destruct (Nat.ltb_spec (length rest - 3) (length (tlv_value t))); [lia|].
    apply res_bind_ok in Hsteps as (r1 & Hr1 & Hsteps). apply res_bind_ok. exists r1. split; [done|].
    apply IH; [lia..|]. exists ts. by rewrite Hd, Hm.
Qed.

Lemma identity_claims_cons allow t ts :
  identity_claims allow (t :: ts) =
  if Byte.eqb (tlv_type t) VGI_IROH_ENDPOINT_TLV && allow then tlv_value t :: identity_claims allow ts
  else identity_claims allow ts.
Proof.
  unfold identity_claims. destruct allow; [|by rewrite andb_false_r].
  rewrite andb_true_r, filter_cons.
  destruct (Byte.eqb _ _) eqn:E; destruct (decide _) as [|n]; try done; bool_to_prop; done.
Qed.

Lemma identity_tlvs_known allow r id ts r' : iroh_endpoint_id r = Some id ->
  identity_tlvs allow r ts = Ok r' <-> identity_claims allow ts = [] /\ r' = r.
Proof.
  intros Hr. induction ts as [|t ts IH]; cbn [identity_tlvs].
  - split; [intros [= <-]; by destruct allow|]. by intros [_ ->].
  - rewrite identity_claims_cons. unfold identity_tlv. destruct (_ && _); [|apply IH].
    rewrite Hr. by split; [|intros [? _]].
Qed.

Definition identified (r : ProxyProtocolV2Address) (i : option bytes) : ProxyProtocolV2Address :=
  match i with Some id => with_endpoint r id | None => r end.

Lemma identity_tlvs_spec allow r ts r' : iroh_endpoint_id r = None ->
  identity_tlvs allow r ts = Ok r' <->
  exists i, claims_say (identity_claims allow ts) i /\ r' = identified r i.
Proof.
  intros Hr. induction ts as [|t ts IH]; cbn [identity_tlvs].
  - split; [intros [= <-]; exists None; by destruct allow|].
    intros ([id|] & Hc & ->); [|done]. by destruct allow, Hc.
  - rewrite identity_claims_cons. unfold identity_tlv. destruct (_ && _); [|apply IH]. rewrite Hr.
    rewrite res_bind_ok. split.
    + intros (r1 & H1 & Hrec). destruct (tlv_value t) as [|v k]; [done|].
      destruct (Nat.eqb_spec (length (v :: k)) kIrohEndpointValueBytes) as [Hl|]; [|done].
      destruct (Byte.eqb _ kIrohEndpointVersion) eqn:Hv; [|done]. cbn [negb orb] in H1.
      bool_to_prop. injection H1 as <-. cbn [drop] in Hrec. rewrite drop_0 in Hrec.
      apply (identity_tlvs_known allow _ k) in Hrec as [-> ->]; [|done].
      exists (Some k). split; [|done]. cbn in Hv, Hl |- *. subst v. split; [done|].
      unfold kIrohEndpointValueBytes in Hl. lia.
    + intros ([k|] & Hc & ->); cbn in Hc; [|done]. destruct Hc as [[= -> Hts] Hk].
      exists (with_endpoint r k). cbn [length drop]. rewrite Hk, drop_0. split; [done|].
      by apply (identity_tlvs_known allow _ k).
Qed.

(** A block of two addresses of [w] bytes and two ports. *)
Lemma block_read w (body : bytes) : (2 * w + 4 <= length body)%nat ->
  exists s d sp dp rest, body = s ++ d ++ be16 sp ++ be16 dp ++ rest /\
    length s = w /\ length d = w /\ is_port sp /\ is_port dp.
Proof.
  intros H.
  destruct (be16_network_u16 (drop w (drop w body))) as [E1 H1]; [rewrite !length_drop; lia|].
  destruct (be16_network_u16 (drop 2 (drop w (drop w body)))) as [E2 H2]; [rewrite !length_drop; lia|].
  exists (take w body), (take w (drop w body)), (network_u16 (drop w (drop w body))),
    (network_u16 (drop 2 (drop w (drop w body)))), (drop 2 (drop 2 (drop w (drop w body)))).
  rewrite <- E2, <- E1, !take_drop, !length_take, length_drop.
  split_and!; [done|lia|lia|unfold is_port; lia..].
Qed.

Lemma block_fields w s d sp dp rest p1 p2 p3 (body := s ++ d ++ be16 sp ++ be16 dp ++ rest) :
  length s = w -> length d = w -> is_port sp -> is_port dp ->
  p1 = (w + w)%nat -> p2 = (2 + p1)%nat -> p3 = (2 + p2)%nat ->
  (length body <? p3)%nat = false /\ take w body = s /\ take w (drop w body) = d /\
  network_u16 (drop p1 body) = sp /\ network_u16 (drop p2 body) = dp.
Proof.
  intros Hs Hd Hsp Hdp -> -> ->. subst body.
  assert (drop w (s ++ d ++ be16 sp ++ be16 dp ++ rest) = d ++ be16 sp ++ be16 dp ++ rest) as E1
    by by apply drop_app_exact.
  assert (drop (w + w) (s ++ d ++ be16 sp ++ be16 dp ++ rest) = be16 sp ++ be16 dp ++ rest) as E2.
  { rewrite <- drop_drop, E1. by apply drop_app_exact. }
  split_and!.
  - apply Nat.ltb_ge. rewrite !length_app, Hs, Hd. cbn. lia.
  - by apply take_app_exact.
  - rewrite E1. by apply take_app_exact.
  - rewrite E2. by apply network_u16_be16.
  - rewrite Nat.add_comm, <- drop_drop, E2. by apply network_u16_be16.
Qed.

(** The addresses. *)
Lemma parse_address_spec `{InetNtop} family body allow n r :
  parse_address family body allow = Ok (n, r) <->
  exists e rest, family = family_byte e /\ endpoints_ok e /\ body = encode_endpoints e ++ rest /\
    n = length (encode_endpoints e) /\ endpoints_read e r /\ iroh_endpoint_id r = None /\
    (e = Unspec -> allow = true).
Proof.
  unfold parse_address. split.
  - destruct (Byte.eqb family kUnspec) eqn:E0; [|destruct (Byte.eqb family kTcpIpv4) eqn:F4;
      [|destruct (Byte.eqb family kTcpIpv6) eqn:F6; [|by destruct allow]]]; bool_to_prop; subst family.
    + destruct allow; [|done]. intros [= <- <-]. by exists Unspec, body.
    + destruct (Nat.ltb_spec (length body) 12) as [|Hl]; [done|].
      destruct (block_read 4 body Hl) as (s & d & sp & dp & rest & -> & Hs & Hd & Hsp & Hdp).
      destruct (block_fields 4 s d sp dp rest 8 10 12 Hs Hd Hsp Hdp) as (_ & E1 & E2 & E3 & E4); [done..|].
      cbn [andb]. rewrite E1, E2, E3, E4. intros Hr. inv_res. subst n r.
      exists (Tcp4 s d sp dp), rest. cbn [encode_endpoints]. rewrite <- !app_assoc, !length_app, Hs, Hd.
      by split_and!.
    + destruct (Nat.ltb_spec (length body) 36) as [|Hl]; [done|].
      destruct (block_read 16 body Hl) as (s & d & sp & dp & rest & -> & Hs & Hd & Hsp & Hdp).
      destruct (block_fields 16 s d sp dp rest 32 34 36 Hs Hd Hsp Hdp) as (_ & E1 & E2 & E3 & E4); [done..|].
      cbn [andb]. rewrite E1, E2, E3, E4. intros Hr. inv_res. subst n r.
      exists (Tcp6 s d sp dp), rest. cbn [encode_endpoints]. rewrite <- !app_assoc, !length_app, Hs, Hd.
      by split_and!.
  - intros ([|s d sp dp|s d sp dp] & rest & -> & Hok & -> & -> & Hread & Hid & Hu);
      cbn [encode_endpoints app family_byte].
    + rewrite Hu by done. destruct r, Hread as (? & ? & ? & ?). cbn in *. by subst.
    + destruct Hok as (Hs & Hd & Hsp & Hdp), Hread as (Es & Ed & <- & <-). rewrite <- !app_assoc.
      destruct (block_fields 4 s d _ _ rest 8 10 12 Hs Hd Hsp Hdp) as (-> & -> & -> & -> & ->); [done..|].
      rewrite Es, Ed, !length_app, Hs, Hd. destruct r. cbn in *. by subst.
    + destruct Hok as (Hs & Hd & Hsp & Hdp), Hread as (Es & Ed & <- & <-). rewrite <- !app_assoc.
      destruct (block_fields 16 s d _ _ rest 32 34 36 Hs Hd Hsp Hdp) as (-> & -> & -> & -> & ->); [done..|].
      rewrite Es, Ed, !length_app, Hs, Hd. destruct r. cbn in *. by subst.
Qed.

(** The fixed part. *)
Lemma proxy_protocol_v2_size_spec prefix maximum total :
  proxy_protocol_v2_size prefix maximum = Ok total <->
  exists c f n, prefix = kSignature ++ [c; f] ++ be16 n /\ 0 <= n < 65536 /\
    Z.land (b2z c) 240 = kVersion2 /\ total = 16 + n /\ total <= maximum.
Proof.
  unfold proxy_protocol_v2_size. change kFixedBytes with 16%nat. split.
  - destruct (Nat.eqb_spec (length prefix) 16) as [Hl|]; [|done].
    destruct (bool_decide _) eqn:Hs; [|done]. destruct (Z.eqb_spec (Z.land (b2z (byte_at prefix 12)) 240) kVersion2) as [Hv|]; [|done].
    cbn [negb]. destruct (Z.ltb_spec maximum (Z.of_nat 16 + network_u16 (drop 14 prefix))); [done|].
    intros [= <-]. bool_to_prop.
    destruct (be16_network_u16 (drop 14 prefix)) as [E Hr]; [rewrite length_drop, Hl; lia|].
    assert (exists c f, drop 12 prefix = c :: f :: drop 14 prefix) as (c & f & E2).
    { destruct (lookup_lt_is_Some_2 prefix 12) as [c Hc]; [rewrite Hl; lia|].
      destruct (lookup_lt_is_Some_2 prefix 13) as [f Hf]; [rewrite Hl; lia|].
      exists c, f. by rewrite (drop_S _ _ _ Hc), (drop_S _ _ _ Hf). }
    rewrite (nil_length_inv (drop 2 (drop 14 prefix))), app_nil_r in E by by rewrite !length_drop, Hl.
    exists c, f, (network_u16 (drop 14 prefix)). split_and!; [|lia..| |done|done].
    + by rewrite <- E, <- (take_drop 12 prefix), Hs, E2 at 1.
    + rewrite <- Hv. do 2 f_equal. unfold byte_at.
      assert (drop 12 prefix !! 0%nat = Some c) as H0 by by rewrite E2.
      rewrite lookup_drop in H0. cbn in H0. by rewrite H0.
  - intros (c & f & n & -> & Hn & Hv & -> & Hm).
    change (drop 14 (kSignature ++ [c; f] ++ be16 n)) with (be16 n ++ []).
    change (byte_at (kSignature ++ [c; f] ++ be16 n) 12) with c.
    change (take 12 (kSignature ++ [c; f] ++ be16 n)) with kSignature.
    rewrite network_u16_be16, Hv, bool_decide_eq_true_2 by done. cbn [negb].
    change (length (kSignature ++ [c; f] ++ be16 n) =? 16)%nat with true. rewrite Z.eqb_refl. cbn [negb].
    change (Z.of_nat 16) with 16. by rewrite (proj2 (Z.ltb_ge maximum (16 + n))).
Qed.

Lemma version_command c :
  (Z.land (b2z c) 240 = kVersion2 /\ Z.land (b2z c) 15 = kProxyCommand) <-> c = x21.
Proof. split; [|by intros ->]. destruct c; intros [H1 H2]; done. Qed.

Lemma endpoints_read_identified `{InetNtop} e r i :
  endpoints_read e (identified r i) <-> endpoints_read e r.
Proof. by destruct e, i. Qed.

(** The frame of a preamble. *)
Lemma parse_frame `{InetNtop} p maximum allow r :
  parse_proxy_protocol_v2 p maximum allow = Ok r <->
  exists f body, p = kSignature ++ [x21; f] ++ be16 (blen body) ++ body /\ blen body < 65536 /\
    blen p <= maximum /\ parse_body f body allow = Ok r.
Proof.
  unfold parse_proxy_protocol_v2. change kFixedBytes with 16%nat. split.
  - destruct (Nat.ltb_spec (length p) 16) as [|Hl]; [done|].
    intros (total & (c & f & n & E & Hn & Hv & -> & Hm)%proxy_protocol_v2_size_spec & Hp)%res_bind_ok.
    destruct (Z.eqb_spec (blen p) (16 + n)) as [Hlen|]; [|done].
    destruct (Z.eqb_spec (Z.land (b2z (byte_at p 12)) 15) kProxyCommand) as [Hc|]; [|done].
    cbn [negb] in Hp. rewrite <- (take_drop 16 p), E in Hc, Hp.
    change (byte_at ((kSignature ++ [c; f] ++ be16 n) ++ drop 16 p) 12) with c in Hc.
    change (byte_at ((kSignature ++ [c; f] ++ be16 n) ++ drop 16 p) 13) with f in Hp.
    rewrite (drop_app_exact (kSignature ++ [c; f] ++ be16 n)) in Hp by done.
    assert (c = x21) as -> by by apply version_command.
    assert (blen (drop 16 p) = n) as Hb by (rewrite length_drop; lia).
    exists f, (drop 16 p). rewrite Hb. split_and!; [|lia|lia|done].
    rewrite <- (take_drop 16 p) at 1. by rewrite E, <- !app_assoc.
  - intros (f & body & E & Hb & Hm & Hr).
    assert (p = (kSignature ++ [x21; f] ++ be16 (blen body)) ++ body) as E1 by by rewrite E, <- !app_assoc.
    assert (blen p = 16 + blen body) as Hl by (rewrite E1, length_app; cbn; lia).
    destruct (Nat.ltb_spec (length p) 16); [lia|].
    assert (take 16 p = kSignature ++ [x21; f] ++ be16 (blen body)) as E2
      by (rewrite E1; by apply take_app_exact).
    assert (drop 16 p = body) as E3 by (rewrite E1; by apply drop_app_exact).
    rewrite E2, E3.
    rewrite (proj2 (proxy_protocol_v2_size_spec _ maximum (16 + blen body)))
      by (exists x21, f, (blen body); split_and!; try done; lia).
    unfold mbind, res_bind. rewrite Hl, Z.eqb_refl, E. by cbn [negb].
Qed.

(** The body of a preamble. *)
Lemma parse_body_spec `{InetNtop} family body allow r :
  parse_body family body allow = Ok r <->
  exists e ts, family = family_byte e /\ body = encode_endpoints e ++ encode_tlvs ts /\
    endpoints_ok e /\ Forall tlv_fits ts /\ endpoints_read e r /\
    claims_say (identity_claims allow ts) (iroh_endpoint_id r) /\
    (e = Unspec <-> iroh_endpoint_id r <> None).
Proof.
  unfold parse_body. rewrite res_bind_ok. split.
  - intros ([n r0] & (e & rest & -> & He & -> & -> & Hread & Hid & Hu)%parse_address_spec & Hr).
    apply res_bind_ok in Hr as (r1 & Htl & Hr).
    apply parse_tlvs_spec in Htl as (ts & Hts & Ets & Hi); [|rewrite length_app; lia..].
    apply identity_tlvs_spec in Hi as (i & Hc & ->); [|done].
    rewrite drop_app_exact in Ets by done. subst rest.
    assert (iroh_endpoint_id (identified r0 i) = i) as Ei by by destruct i.
    assert (identified r0 i = r /\ (e = Unspec <-> i <> None)) as [<- Hiff].
    { rewrite Ei in Hr. destruct e, i; cbn in Hr; try done; injection Hr as <-; naive_solver. }
    exists e, ts. rewrite Ei. split_and!; try done. by apply endpoints_read_identified.
  - intros (e & ts & -> & -> & He & Hts & Hread & Hc & Hiff).
    set (r0 := {| source_address := source_address r; destination_address := destination_address r;
                  source_port := source_port r; destination_port := destination_port r;
                  iroh_endpoint_id := None |}).
    assert (r = identified r0 (iroh_endpoint_id r)) as Er by by destruct r as [? ? ? ? []].
    exists (length (encode_endpoints e), r0). split.
    + apply parse_address_spec. exists e, (encode_tlvs ts). split_and!; try done.
      intros E. apply Hiff in E. destruct (iroh_endpoint_id r); [|done]. by destruct allow, Hc.
    + apply res_bind_ok. exists r. split.
      * apply parse_tlvs_spec; [rewrite length_app; lia..|]. exists ts.
        rewrite drop_app_exact by done. split_and!; try done.
        apply identity_tlvs_spec; [done|]. by exists (iroh_endpoint_id r).
      * destruct e, (iroh_endpoint_id r) as [k|]; cbn; try done; exfalso; naive_solver.
Qed.

Lemma preamble_length e ts :
  blen (preamble_of e ts) = 16 + blen (encode_endpoints e ++ encode_tlvs ts).
Proof. unfold preamble_of. rewrite (length_app kSignature). cbn [length app be16 kSignature]. lia. Qed.

(** ** The property *)

(** C37: the parser accepts exactly the grammar.  A preamble is accepted if and only
    if it is the signature, version 2 and the PROXY command, a family, the
    length of the rest in network order, the addresses and ports of the family
    and a sequence of complete TLVs, within the given limit; the result carries
    those addresses and ports, and an identity exactly for the unspecified
    family, from the only identity TLV, and only when the caller asked for it. *)
Theorem proxy_header_accepted_iff {ntop : InetNtop} preamble maximum allow r :
  parse_proxy_protocol_v2 preamble maximum allow = Ok r <->
  exists e ts, preamble = preamble_of e ts /\ endpoints_ok e /\ Forall tlv_fits ts /\
    blen preamble - 16 < 65536 /\ blen preamble <= maximum /\ endpoints_read e r /\
    claims_say (identity_claims allow ts) (iroh_endpoint_id r) /\
    (e = Unspec <-> iroh_endpoint_id r <> None).
Proof.
  rewrite parse_frame. split.
  - intros (f & body & E & Hb & Hm & (e & ts & -> & -> & He & Hts & H)%parse_body_spec).
    change (preamble = preamble_of e ts) in E. subst preamble. exists e, ts.
    do 3 (split; [done|]). split; [|done]. rewrite preamble_length. lia.
  - intros (e & ts & -> & He & Hts & Hb & Hm & H). rewrite preamble_length in Hb.
    exists (family_byte e), (encode_endpoints e ++ encode_tlvs ts). split_and!; [done|lia|done|].
    apply parse_body_spec. by exists e, ts.
Qed.

(** A header of the grammar, its identity, and the same header when identities
    are not asked for. *)
Example proxy_header_example :
  let k := replicate 32 x07 in
  let p := preamble_of Unspec [{| tlv_type := x04; tlv_value := [x00] |};
                               {| tlv_type := xe0; tlv_value := x01 :: k |}] in
  let ntop : InetNtop := fun _ _ => None in
  parse_proxy_protocol_v2 p 536 true = Ok (with_endpoint no_address k) /\
  parse_proxy_protocol_v2 p 536 false =
    Throw (ProxyProtocolV2Error (str "PROXY v2 requires TCP over IPv4 or IPv6")).
Proof. split; vm_compute; reflexivity. Qed.
