(* ===== verification/ExternalUrl.v ===== *)
(** * External URLs (src/src/client_external.cpp)

    What the client does to the URL of an external payload before it opens a
    connection: parsing and its canonical text, redirect targets, the address
    policy that keeps a fetch away from internal hosts, and redaction.
    [inet_pton] and [inet_ntop] are library code: parameters, with the laws of
    [InetText]. *)

From S2P Require Import Prelude Crypto IdentityInternal ProxyProtocol.

(** ** [std::string] searches *)

(** [std::find_if]: the index of the first byte of a class. *)
Fixpoint find_if (p : byte -> bool) (s : bytes) : option nat :=
  match s with
  | [] => None
  | c :: s' => if p c then Some O else S <$> find_if p s'
  end.

(** [s.find(c)]. *)
Definition find_char (c : byte) (s : bytes) : option nat := find_if (Byte.eqb c) s.

(** [s.rfind(c)]. *)
Definition rfind_char (c : byte) (s : bytes) : option nat :=
  (fun i => (length s - 1 - i)%nat) <$> find_char c (rev s).

(** [s.find(pattern)]. *)
Fixpoint find_text (pattern s : bytes) : option nat :=
  if bool_decide (take (length pattern) s = pattern) then Some O
  else match s with [] => None | _ :: s' => S <$> find_text pattern s' end.

Definition contains (c : byte) (s : bytes) : bool := bool_decide (c ∈ s).

(** [s.substr(0, n)] where [n] may be [npos]. *)
Definition prefix_to (n : option nat) (s : bytes) : bytes :=
  match n with Some n => take n s | None => s end.

Definition ascii_lower (value : bytes) : bytes := map tolower value.

Definition trim_ascii (value : bytes) : bytes := pop_back_while isspace (drop_while isspace value).

(** ** URLs *)

Definition forbidden_url_character (character : byte) : bool :=
  (b2z character <=? 0x20) || (b2z character =? 0x7f) || Byte.eqb character "\".

Definition has_forbidden_url_character (value : bytes) : bool := existsb forbidden_url_character value.

Record ParsedUrl := {
  scheme : bytes;
  host : bytes;
  port : Z;
  explicit_port : bool;
  ipv6_literal : bool;
  path_and_query : bytes;
}.

Definition authority (u : ParsedUrl) : bytes :=
  let value := if ipv6_literal u then str "[" ++ host u ++ str "]" else host u in
  let default_port := (bool_decide (scheme u = str "https") && (port u =? 443))
                      || (bool_decide (scheme u = str "http") && (port u =? 80)) in
  if explicit_port u || negb default_port then value ++ str ":" ++ to_string (port u) else value.

Definition origin (u : ParsedUrl) : bytes := scheme u ++ str "://" ++ authority u.

Definition full (u : ParsedUrl) : bytes := origin u ++ path_and_query u.

Definition external_error {A} (what : bytes) : res A := Throw (ExternalHttpError what).

(** [std::stoul] throws past 64 bits; the range check follows. *)
Definition parse_port (value : bytes) : res Z :=
  _ ← throw_if (bool_decide (value = []) || negb (forallb is_digit value))
        (ExternalHttpError (str "external URL has an invalid port"));
  match stoull value with
  | None => external_error (str "external URL has an invalid port")
  | Some parsed =>
      if (parsed =? 0) || (65535 <? parsed) then
        external_error (str "external URL port is out of range")
      else Ok parsed
  end.

(** The host and the port text of an authority, and whether each was bracketed
    and given. *)
Definition split_authority (authority : bytes) : res (bytes * bytes * bool * bool) :=
  if bool_decide (head authority = Some (chr "[")) then
    match find_char "]" authority with
    | None => external_error (str "external URL has an invalid IPv6 host")
    | Some close =>
        _ ← throw_if (close =? 1)%nat (ExternalHttpError (str "external URL has an invalid IPv6 host"));
        let host := take (close - 1) (drop 1 authority) in
        if (close + 1 <? length authority)%nat then
          _ ← throw_if (negb (bool_decide (authority !! (close + 1)%nat = Some (chr ":"))))
                (ExternalHttpError (str "external URL has invalid text after its IPv6 host"));
          Ok (host, drop (close + 2) authority, true, true)
        else Ok (host, [], true, false)
    end
  else
    match rfind_char ":" authority with
    | Some colon =>
        _ ← throw_if (negb (bool_decide (find_char ":" authority = Some colon)))
              (ExternalHttpError (str "external URL IPv6 hosts must use brackets"));
        Ok (take colon authority, drop (colon + 1) authority, false, true)
    | None => Ok (authority, [], false, false)
    end.

Definition hostname_character (character : byte) : bool :=
  isalnum character || Byte.eqb character "-" || Byte.eqb character ".".

Definition invalid_hostname (host : bytes) : bool :=
  bool_decide (host = []) || (253 <? length host)%nat || bool_decide (head host = Some (chr "."))
  || bool_decide (last host = Some (chr ".")) || bool_decide (is_Some (find_text (str "..") host))
  || negb (forallb hostname_character host).

(** Where the authority ends. *)
Definition path_start (character : byte) : bool := Byte.eqb character "/" || Byte.eqb character "?".

Section url.
Context {pton : InetPton} {ntop : InetNtop}.

(** The checks and the normal form of the lower-case host. *)
Definition normalize_host (ipv6_literal : bool) (host : bytes) : res bytes :=
  if ipv6_literal then
    _ ← throw_if (contains "%" host)
          (ExternalHttpError (str "external URL IPv6 zone identifiers are forbidden"));
    match inet_pton6 host with
    | None => external_error (str "external URL has an invalid IPv6 host")
    | Some address =>
        match inet_ntop AF_INET6 address with
        | None => external_error (str "external URL IPv6 host could not be normalized safely")
        | Some canonical => Ok (ascii_lower canonical)
        end
    end
  else
    let host := pop_back_while (Byte.eqb ".") host in
    _ ← throw_if (invalid_hostname host)
          (ExternalHttpError (str "external URL has an invalid hostname"));
    Ok host.

Definition default_port (scheme : bytes) : Z := if bool_decide (scheme = str "https") then 443 else 80.

Definition parse_url (url : bytes) : res ParsedUrl :=
  _ ← throw_if (bool_decide (url = []) || has_forbidden_url_character url || contains "#" url)
        (ExternalHttpError (str "external URL is invalid or contains a fragment"));
  match find_text (str "://") url with
  | None => external_error (str "external URL must be absolute")
  | Some scheme_end =>
      let scheme := ascii_lower (take scheme_end url) in
      _ ← throw_if (negb (bool_decide (scheme = str "https")) && negb (bool_decide (scheme = str "http")))
            (ExternalHttpError (str "external URL scheme is not HTTP(S)"));
      let rest := drop (scheme_end + 3) url in
      let authority_end := find_if path_start rest in
      let authority := prefix_to authority_end rest in
      _ ← throw_if (bool_decide (authority = []) || contains "@" authority)
            (ExternalHttpError (str "external URL has an empty host or forbidden userinfo"));
      '(host, port_text, ipv6_literal, explicit_port) ← split_authority authority;
      host ← normalize_host ipv6_literal (ascii_lower host);
      port ← (if explicit_port : bool then parse_port port_text else Ok (default_port scheme));
      Ok {| scheme := scheme; host := host; port := port; explicit_port := explicit_port;
            ipv6_literal := ipv6_literal;
            path_and_query :=
              match authority_end with
              | None => str "/"
              | Some n =>
                  if bool_decide (rest !! n = Some (chr "?")) then str "/" ++ drop n rest
                  else drop n rest
              end |}
  end.

(** ** Redirects *)

(** The pieces [std::getline(input, segment, '/')] returns: what follows the
    last separator is a piece when it is not empty. *)
Definition getlines (s : bytes) : list bytes :=
  let pieces := split_on "/" s in
  if bool_decide (last pieces = Some []) then removelast pieces else pieces.

Definition path_segment (segments : list bytes) (segment : bytes) : list bytes :=
  if bool_decide (segment = []) || bool_decide (segment = str ".") then segments
  else if bool_decide (segment = str "..") then removelast segments
  else segments ++ [segment].

Definition normalize_path (path : bytes) : bytes :=
  let query := find_char "?" path in
  let suffix := match query with None => [] | Some n => drop n path end in
  let path := prefix_to query path in
  let segments := foldl path_segment [] (getlines path) in
  let normalized := str "/" ++ join_with "/" segments in
  (if (1 <? length path)%nat && bool_decide (last path = Some (chr "/")) then normalized ++ str "/"
   else normalized) ++ suffix.

Definition resolve_redirect (base : ParsedUrl) (location : bytes) : res bytes :=
  _ ← throw_if (bool_decide (location = []) || has_forbidden_url_character location
                || contains "#" location)
        (ExternalHttpError (str "external redirect target is invalid or contains a fragment"));
  if bool_decide (is_Some (find_text (str "://") location)) then Ok location
  else if bool_decide (take 2 location = str "//") then Ok (scheme base ++ str ":" ++ location)
  else if bool_decide (head location = Some (chr "/")) then Ok (origin base ++ normalize_path location)
  else
    let path := prefix_to (find_char "?" (path_and_query base)) (path_and_query base) in
    if bool_decide (head location = Some (chr "?")) then Ok (origin base ++ path ++ location)
    else
      let directory := match rfind_char "/" path with
                       | None => str "/"
                       | Some slash => take (slash + 1) path
                       end in
      Ok (origin base ++ normalize_path (directory ++ location)).

(** ** Redaction *)

Definition redact_external_url (url : bytes) : bytes :=
  match parse_url url with
  | Ok parsed =>
      origin parsed ++ prefix_to (find_char "?" (path_and_query parsed)) (path_and_query parsed)
  | Throw _ => str "<invalid-url>"
  end.
End url.

(** ** The address policy *)

Definition in_ipv4_range (address network mask : Z) : bool := Z.land address mask =? network.

Definition ipv4_loopback (address : Z) : bool := in_ipv4_range address 0x7f000000 0xff000000.

Definition ipv4_public (address : Z) : bool :=
  negb (in_ipv4_range address 0x00000000 0xff000000
        || in_ipv4_range address 0x0a000000 0xff000000
        || in_ipv4_range address 0x64400000 0xffc00000 || ipv4_loopback address
        || in_ipv4_range address 0xa9fe0000 0xffff0000
        || in_ipv4_range address 0xac100000 0xfff00000
        || in_ipv4_range address 0xc0000000 0xffffff00
        || in_ipv4_range address 0xc0000200 0xffffff00
        || in_ipv4_range address 0xc0a80000 0xffff0000
        || in_ipv4_range address 0xc6120000 0xfffe0000
        || in_ipv4_range address 0xc6336400 0xffffff00
        || in_ipv4_range address 0xcb007100 0xffffff00
        || in_ipv4_range address 0xe0000000 0xf0000000
        || in_ipv4_range address 0xf0000000 0xf0000000).

(** [bytes_all_zero(bytes + from, count)]. *)
Definition bytes_all_zero (from count : nat) (address : bytes) : bool :=
  forallb (fun i => b2z (byte_at address (from + i)) =? 0) (seq 0 count).

Definition ipv6_loopback (address : bytes) : bool :=
  bytes_all_zero 0 15 address && (b2z (byte_at address 15) =? 1).

(** [memcpy] of four bytes, then [ntohl]. *)
Definition network_u32 (from : nat) (address : bytes) : Z :=
  let b i := b2z (byte_at address (from + i)) in
  Z.lor (Z.shiftl (b 0%nat) 24) (Z.lor (Z.shiftl (b 1%nat) 16) (Z.lor (Z.shiftl (b 2%nat) 8) (b 3%nat))).

Definition ipv6_public (address : bytes) : bool :=
  let b i := b2z (byte_at address i) in
  if bytes_all_zero 0 16 address || ipv6_loopback address then false
  else if Z.land (b 0%nat) 0xfe =? 0xfc then false
  else if (b 0%nat =? 0xfe) && (Z.land (b 1%nat) 0xc0 =? 0x80) then false
  else if b 0%nat =? 0xff then false
  else if (b 0%nat =? 0x20) && (b 1%nat =? 0x01) && (b 2%nat =? 0x0d) && (b 3%nat =? 0xb8) then false
  else if bytes_all_zero 0 10 address && (b 10%nat =? 0xff) && (b 11%nat =? 0xff) then
    ipv4_public (network_u32 12 address)
  else if bytes_all_zero 0 12 address then ipv4_public (network_u32 12 address)
  else if (b 0%nat =? 0x00) && (b 1%nat =? 0x64) && (b 2%nat =? 0xff) && (b 3%nat =? 0x9b)
          && bytes_all_zero 4 8 address then
    ipv4_public (network_u32 12 address)
  else if negb (Z.land (b 0%nat) 0xe0 =? 0x20) then false
  else if (b 0%nat =? 0x20) && (b 1%nat =? 0x01) && (b 2%nat =? 0x00) && (b 3%nat =? 0x00) then false
  else if (b 0%nat =? 0x20) && (b 1%nat =? 0x01) && (b 2%nat =? 0x00) && (b 3%nat =? 0x02) then false
  else if (b 0%nat =? 0x20) && (b 1%nat =? 0x01) && (b 2%nat =? 0x00)
          && (Z.land (b 3%nat) 0xf0 =? 0x10) then false
  else if (b 0%nat =? 0x20) && (b 1%nat =? 0x01) && (b 2%nat =? 0x00)
          && (Z.land (b 3%nat) 0xf0 =? 0x20) then false
  else if (b 0%nat =? 0x20) && (b 1%nat =? 0x02) then ipv4_public (network_u32 2 address)
  else true.

(** ** What the code relies on of the address functions

    [inet_pton] reads sixteen bytes; [inet_ntop] writes hexadecimal digits,
    colons and dots, and [inet_pton] reads its text back in either case. *)
Definition ipv6_text_character (c : byte) : bool :=
  is_digit c || ((65 <=? b2z c) && (b2z c <=? 70)) || ((97 <=? b2z c) && (b2z c <=? 102))
  || Byte.eqb c ":" || Byte.eqb c ".".

Class InetText `{InetPton} `{InetNtop} : Prop := {
  pton6_length s a : inet_pton6 s = Some a -> length a = 16%nat;
  ntop6_text a t : length a = 16%nat -> inet_ntop AF_INET6 a = Some t ->
    t <> [] /\ Forall (fun c => ipv6_text_character c = true) t
    /\ inet_pton6 (ascii_lower t) = Some a;
}.

(** ** Lemmas on searches *)

Lemma find_if_app p l c r :
  Forall (fun x => p x = false) l -> p c = true -> find_if p (l ++ c :: r) = Some (length l).
Proof.
  induction 1 as [|x l Hx _ IH]; intros Hc; cbn [app find_if]; [by rewrite Hc|].
  by rewrite Hx, IH.
Qed.

Lemma find_if_none p l : find_if p l = None <-> Forall (fun x => p x = false) l.
Proof.
  induction l as [|x l IH]; cbn [find_if]; [done|]. rewrite Forall_cons.
  destruct (p x); [split; [done|by intros []]|]. rewrite <- IH. destruct (find_if p l); simpl.
  - split; [done|by intros []].
  - tauto.
Qed.

Lemma find_if_some p s n : find_if p s = Some n ->
  exists c, take n s ++ c :: drop (S n) s = s /\ p c = true /\ (n < length s)%nat
            /\ drop n s = c :: drop (S n) s /\ Forall (fun x => p x = false) (take n s).
Proof.
  revert n; induction s as [|x s IH]; intros n; cbn [find_if]; [done|].
  destruct (p x) eqn:E; [intros [= <-]; exists x; cbn; split_and!; [done|done|lia|done|constructor]|].
  destruct (find_if p s) as [m|]; [|done]. intros [= <-].
  destruct (IH m eq_refl) as (c & E1 & Hc & Hm & E2 & Hf). exists c.
  split_and!; [cbn; by f_equal|done|cbn; lia|done|by constructor].
Qed.

Lemma find_char_app c l r : c ∉ l -> find_char c (l ++ c :: r) = Some (length l).
Proof.
  intros Hl. apply find_if_app; [|by apply byte_eqb_refl].
  apply Forall_forall. intros x Hx. apply byte_eqb_neq. by intros <-.
Qed.

Lemma find_char_none c l : find_char c l = None <-> c ∉ l.
Proof.
  unfold find_char. rewrite find_if_none, Forall_forall. split.
  - intros Hf Hin. specialize (Hf c Hin). by rewrite byte_eqb_refl in Hf.
  - intros Hc x Hx. apply byte_eqb_neq. by intros <-.
Qed.

Lemma rfind_char_app c l r : c ∉ r -> rfind_char c (l ++ c :: r) = Some (length l).
Proof.
  intros Hr. unfold rfind_char. rewrite rev_app_distr. cbn [rev]. rewrite <- app_assoc. cbn [app].
  rewrite find_char_app by (by rewrite list_elem_of_In, <- in_rev, <- list_elem_of_In).
  cbn [fmap option_fmap option_map]. rewrite length_rev, length_app. cbn [length]. f_equal. lia.
Qed.

Lemma rfind_char_none c l : c ∉ l -> rfind_char c l = None.
Proof.
  intros Hl. unfold rfind_char. rewrite (proj2 (find_char_none c (rev l))); [done|].
  by rewrite list_elem_of_In, <- in_rev, <- list_elem_of_In.
Qed.

Lemma rfind_char_some c s n : rfind_char c s = Some n ->
  exists l r, s = l ++ c :: r /\ n = length l /\ c ∉ r.
Proof.
  unfold rfind_char. destruct (find_char c (rev s)) as [m|] eqn:E; [|done]. intros [= <-].
  apply find_if_some in E as (c' & Es & Hc%byte_eqb_eq & Hm & _ & Hf). subst c'.
  rewrite length_rev in Hm.
  exists (rev (drop (S m) (rev s))), (rev (take m (rev s))).
  split_and!.
  - rewrite <- (rev_involutive s) at 1. rewrite <- Es at 1. rewrite rev_app_distr. cbn [rev].
    by rewrite <- app_assoc.
  - rewrite length_rev, length_drop, length_rev. lia.
  - rewrite list_elem_of_In, <- in_rev, <- list_elem_of_In. intros Hin.
    rewrite Forall_forall in Hf. specialize (Hf c Hin). by rewrite byte_eqb_refl in Hf.
Qed.

Lemma tolower_idem c : tolower (tolower c) = tolower c.
Proof. by destruct c. Qed.

Lemma ascii_lower_idem s : ascii_lower (ascii_lower s) = ascii_lower s.
Proof. unfold ascii_lower. rewrite map_map. apply map_ext, tolower_idem. Qed.

Lemma pop_back_while_last {A} (p : A -> bool) l x :
  last l = Some x -> p x = false -> pop_back_while p l = l.
Proof.
  intros Hl Hx. apply last_Some in Hl as [l' ->].
  induction l' as [|y l' IH]; cbn [app pop_back_while]; [by rewrite Hx|].
  rewrite IH. by destruct l'.
Qed.

Lemma pop_back_while_prefix {A} (p : A -> bool) l : exists r, l = pop_back_while p l ++ r.
Proof.
  induction l as [|x l [r IH]]; cbn [pop_back_while]; [by exists []|].
  destruct (pop_back_while p l) as [|y l'] eqn:E.
  - destruct (p x); [by exists (x :: l)|by exists l].
  - exists r. by rewrite IH at 1.
Qed.

(** ** Lemmas on the text of URLs *)

(** The characters a URL may have. *)
Definition url_character (c : byte) : Prop := forbidden_url_character c = false /\ c <> "#"%byte.

Lemma url_text_guard s :
  bool_decide (s = []) || has_forbidden_url_character s || contains "#" s = false
  <-> s <> [] /\ Forall url_character s.
Proof.
  unfold has_forbidden_url_character, contains, url_character. rewrite !orb_false_iff, !bool_decide_eq_false.
  rewrite Forall_and. split.
  - intros [[Hs Hf] Hh]. split_and!; [done| |apply Forall_forall; by intros x Hx ->].
    apply Forall_forall. intros x Hx%list_elem_of_In. destruct (forbidden_url_character x) eqn:E; [|done].
    rewrite (proj2 (existsb_exists _ _)) in Hf; [done|eauto].
  - intros (Hs & Hf & Hh). split_and!; [done| |].
    + apply not_true_iff_false. rewrite existsb_exists. intros (x & Hx & Hp).
      rewrite Forall_forall in Hf. rewrite Hf in Hp; [done|by apply list_elem_of_In].
    + intros Hin. rewrite Forall_forall in Hh. by apply (Hh _ Hin).
Qed.

(** The characters of an authority the code accepts. *)
Definition authority_character (c : byte) : bool :=
  hostname_character c || ipv6_text_character c || Byte.eqb c "[" || Byte.eqb c "]".

Lemma authority_character_facts c : authority_character c = true ->
  url_character c /\ path_start c = false /\ c <> "@"%byte.
Proof. destruct c; intros H; first [discriminate H|by split_and!]. Qed.

Lemma hostname_character_facts c : hostname_character c = true ->
  authority_character c = true /\ c <> "["%byte /\ c <> ":"%byte.
Proof. destruct c; intros H; first [discriminate H|by split_and!]. Qed.

Lemma ipv6_character_facts c : ipv6_text_character c = true ->
  authority_character (tolower c) = true /\ tolower c <> "]"%byte /\ tolower c <> "%"%byte.
Proof. destruct c; intros H; first [discriminate H|by split_and!]. Qed.

Lemma digit_facts c : is_digit c = true -> authority_character c = true /\ c <> ":"%byte.
Proof. destruct c; intros H; first [discriminate H|by split_and!]. Qed.

(** A port number prints as digits that read back. *)
Lemma to_string_digits z : 0 <= z < 10 ^ 20 ->
  to_string z <> [] /\ Forall (fun c => is_digit c = true) (to_string z)
  /\ parse_dec 0 0 (to_string z) = (z, length (to_string z)).
Proof.
  intros Hz. unfold to_string. rewrite (proj2 (Z.ltb_ge z 0)) by lia.
  destruct (dec_digits_spec 20 z []) as (ds & E & Hl & Hd & Hp); [lia|lia|].
  rewrite app_nil_r in E. rewrite E. split_and!; [by destruct ds; [cbn in Hl; lia|]|done|].
  specialize (Hp 0 0%nat []). rewrite app_nil_r in Hp. rewrite Hp. cbn [parse_dec]. f_equal; lia.
Qed.

Lemma parse_port_to_string p : 1 <= p <= 65535 -> parse_port (to_string p) = Ok p.
Proof.
  intros Hp. destruct (to_string_digits p) as (Hne & Hd & Hv); [lia|].
  unfold parse_port. rewrite bool_decide_eq_false_2 by done.
  rewrite (proj2 (forallb_forall _ _)) by (intros x Hx%list_elem_of_In; by eapply Forall_forall in Hd).
  cbn [orb negb throw_if mbind res_bind]. unfold stoull.
  assert (drop_while isspace (to_string p) = to_string p) as Es.
  { destruct (to_string p) as [|c s]; [done|]. apply Forall_cons in Hd as [Hc _].
    cbn [drop_while]. by replace (isspace c) with false by (by destruct c). }
  rewrite Es. destruct (to_string p) as [|c s] eqn:Et; [done|].
  apply Forall_cons in Hd as [Hc _].
  replace (Byte.eqb c "-") with false by (by destruct c).
  replace (Byte.eqb c "+") with false by (by destruct c). cbv beta iota zeta.
  rewrite Hv. cbn [length Nat.eqb]. rewrite (proj2 (Z.ltb_lt p (2 ^ 64))) by lia.
  rewrite (proj2 (Z.eqb_neq p 0)), (proj2 (Z.ltb_ge 65535 p)) by lia. done.
Qed.

(** ** The values [parse_url] builds *)

Section url_lemmas.
Context {pton : InetPton} {ntop : InetNtop}.

Definition good_hostname (h : bytes) : Prop := invalid_hostname h = false /\ ascii_lower h = h.

(** The canonical text of an IPv6 address. *)
Definition canonical_ipv6 (h : bytes) : Prop :=
  exists a t, length a = 16%nat /\ inet_ntop AF_INET6 a = Some t /\ h = ascii_lower t.

Record WfUrl (u : ParsedUrl) : Prop := {
  wf_scheme : scheme u = str "https" \/ scheme u = str "http";
  wf_host : if ipv6_literal u then canonical_ipv6 (host u) else good_hostname (host u);
  wf_port : 1 <= port u <= 65535;
  wf_default : explicit_port u = false -> port u = default_port (scheme u);
  wf_path : head (path_and_query u) = Some "/"%byte;
  wf_path_text : Forall url_character (path_and_query u);
}.

Lemma wf_default_port u : WfUrl u -> explicit_port u = false ->
  authority u = if ipv6_literal u then str "[" ++ host u ++ str "]" else host u.
Proof.
  intros Hwf He. unfold authority. rewrite (wf_default u Hwf He), He.
  by destruct (wf_scheme u Hwf) as [-> | ->].
Qed.

Lemma good_hostname_text h : good_hostname h ->
  Forall (fun c => authority_character c = true) h /\ h <> [] /\ (":"%byte ∉ h)
  /\ head h <> Some "["%byte /\ pop_back_while (Byte.eqb ".") h = h.
Proof.
  intros [Hi _]. unfold invalid_hostname in Hi. bool_to_prop.
  match goal with H : forallb _ _ = true |- _ => rename H into Hf end.
  assert (Forall (fun c => hostname_character c = true) h) as HF.
  { apply Forall_forall. intros x Hx%list_elem_of_In. by eapply forallb_forall in Hf. }
  assert (forall c, c ∈ h -> authority_character c = true /\ c <> "["%byte /\ c <> ":"%byte) as Hc.
  { intros c Hc. apply hostname_character_facts. by eapply Forall_forall in HF. }
  split_and!; [|done| | |].
  - apply Forall_forall. apply Hc.
  - intros Hin. by apply (Hc _ Hin).
  - destruct h as [|c h]; [done|]. cbn. intros [= ->]. by apply (Hc "["%byte (list_elem_of_here _ _)).
  - destruct (last h) as [x|] eqn:El; [|by apply last_None in El].
    eapply pop_back_while_last; [done|]. apply byte_eqb_neq. intros <-. done.
Qed.

Lemma canonical_ipv6_text `{!InetText} h : canonical_ipv6 h ->
  Forall (fun c => authority_character c = true) h /\ h <> [] /\ ("]"%byte ∉ h) /\ ("%"%byte ∉ h).
Proof.
  intros (a & t & Ha & Ht & ->). destruct (ntop6_text a t Ha Ht) as (Hne & Hf & _).
  unfold ascii_lower. split_and!.
  - apply Forall_map. eapply Forall_impl; [exact Hf|]. intros c. apply ipv6_character_facts.
  - by destruct t.
  - rewrite list_elem_of_fmap. intros (c & E & Hc). rewrite Forall_forall in Hf.
    by destruct (ipv6_character_facts c (Hf c Hc)) as (_ & ? & _).
  - rewrite list_elem_of_fmap. intros (c & E & Hc). rewrite Forall_forall in Hf.
    by destruct (ipv6_character_facts c (Hf c Hc)) as (_ & _ & ?).
Qed.

(** A host in normal form is its own normal form. *)
Lemma normalize_host_wf `{!InetText} u : WfUrl u ->
  normalize_host (ipv6_literal u) (ascii_lower (host u)) = Ok (host u).
Proof.
  intros Hwf. pose proof (wf_host u Hwf) as Hh. unfold normalize_host. destruct (ipv6_literal u).
  - destruct (canonical_ipv6_text _ Hh) as (_ & _ & _ & Hp).
    destruct Hh as (a & t & Ha & Ht & E). rewrite E in *. rewrite ascii_lower_idem.
    unfold contains. rewrite bool_decide_eq_false_2 by done. cbn [throw_if mbind res_bind].
    destruct (ntop6_text a t Ha Ht) as (_ & _ & ->). by rewrite Ht.
  - destruct (good_hostname_text _ Hh) as (_ & _ & _ & _ & Hpop). destruct Hh as [Hi Hl].
    by rewrite Hl, Hpop, Hi.
Qed.

(** The two shapes of an authority split into their parts. *)
Lemma split_bracketed h rest : "]"%byte ∉ h -> h <> [] ->
  (rest = [] \/ head rest = Some ":"%byte) ->
  split_authority ("[" :: h ++ "]" :: rest)%byte
  = Ok (h, drop 1 rest, true, bool_decide (rest <> [])).
Proof.
  intros Hh Hne Hr. assert (length h <> 0)%nat as Hl by (by destruct h).
  unfold split_authority. rewrite bool_decide_eq_true_2 by done.
  assert (find_char "]" ("[" :: h ++ "]" :: rest)%byte = Some (S (length h))) as ->.
  { apply (find_char_app "]" ("[" :: h)%byte rest). by rewrite not_elem_of_cons. }
  cbn [length]. rewrite (proj2 (Nat.eqb_neq _ _)) by lia. cbn [throw_if mbind res_bind].
  replace (S (length h) - 1)%nat with (length h) by lia. cbn [drop].
  rewrite drop_0, take_app_length, length_app. cbn [length].
  destruct rest as [|c rest]; cbn [length].
  - rewrite (proj2 (Nat.ltb_ge _ _)) by lia. done.
  - destruct Hr as [?|[= ->]]; [done|]. rewrite (proj2 (Nat.ltb_lt _ _)) by lia.
    change (("[" :: h ++ "]" :: ":" :: rest) !! (S (length h) + 1)%nat)%byte
      with ((h ++ "]" :: ":" :: rest)%byte !! (length h + 1)%nat).
    rewrite lookup_app_r by lia. replace (length h + 1 - length h)%nat with 1%nat by lia.
    rewrite bool_decide_eq_true_2 by done. cbn [negb throw_if mbind res_bind].
    change (drop (S (length h) + 2) ("[" :: h ++ "]" :: ":" :: rest)%byte)
      with (drop (length h + 2) (h ++ "]" :: ":" :: rest)%byte).
    rewrite drop_app_ge by lia. by replace (length h + 2 - length h)%nat with 2%nat by lia.
Qed.

Lemma split_plain h rest : ":"%byte ∉ h -> head h <> Some "["%byte -> h <> [] ->
  ":"%byte ∉ drop 1 rest -> (rest = [] \/ head rest = Some ":"%byte) ->
  split_authority (h ++ rest) = Ok (h, drop 1 rest, false, bool_decide (rest <> [])).
Proof.
  intros Hc Hb Hne Hr Hcase. unfold split_authority.
  assert (head (h ++ rest) <> Some (chr "[")) as Hhead by (by destruct h).
  rewrite bool_decide_eq_false_2 by done. destruct rest as [|c rest].
  - rewrite app_nil_r, rfind_char_none by done. done.
  - destruct Hcase as [?|[= ->]]; [done|]. cbn [drop] in Hr.
    rewrite rfind_char_app, find_char_app by done. rewrite bool_decide_eq_true_2 by done.
    cbn [negb throw_if mbind res_bind]. rewrite take_app_length.
    rewrite drop_app_ge by lia. by replace (length h + 1 - length h)%nat with 1%nat by lia.
Qed.

Lemma authority_eq u : WfUrl u ->
  authority u = (if ipv6_literal u then ("[" :: host u ++ ["]"])%byte else host u)
                ++ (if explicit_port u then (":" :: to_string (port u))%byte else []).
Proof.
  intros Hwf. destruct (explicit_port u) eqn:He.
  - unfold authority. rewrite He. done.
  - rewrite (wf_default_port u Hwf He), app_nil_r. done.
Qed.

Lemma authority_text `{!InetText} u : WfUrl u ->
  Forall (fun c => authority_character c = true) (authority u) /\ authority u <> [].
Proof.
  intros Hwf. rewrite (authority_eq u Hwf). pose proof (wf_host u Hwf) as Hh.
  destruct (to_string_digits (port u)) as (_ & Hd & _); [pose proof (wf_port u Hwf); lia|].
  assert (Forall (fun c => authority_character c = true)
            (if explicit_port u then (":" :: to_string (port u))%byte else [])) as Hp.
  { destruct (explicit_port u); constructor; [done|]. eapply Forall_impl; [done|].
    intros c. apply digit_facts. }
  destruct (ipv6_literal u).
  - destruct (canonical_ipv6_text _ Hh) as (Ht & _). split; [|done].
    apply Forall_app; split; [|done]. constructor; [done|]. apply Forall_app; by repeat constructor.
  - destruct (good_hostname_text _ Hh) as (Ht & Hne & _). split; [by apply Forall_app|].
    intros E. by apply app_nil in E as [? _].
Qed.

Lemma split_authority_wf `{!InetText} u : WfUrl u ->
  split_authority (authority u)
  = Ok (host u, if explicit_port u then to_string (port u) else [], ipv6_literal u, explicit_port u).
Proof.
  intros Hwf. rewrite (authority_eq u Hwf). pose proof (wf_host u Hwf) as Hh.
  destruct (to_string_digits (port u)) as (Hne & Hd & _); [pose proof (wf_port u Hwf); lia|].
  assert (":"%byte ∉ to_string (port u)) as Hcolon.
  { intros Hin. rewrite Forall_forall in Hd. by destruct (digit_facts _ (Hd _ Hin)) as [_ []]. }
  set (rest := if explicit_port u then (":" :: to_string (port u))%byte else []).
  assert (rest = [] \/ head rest = Some ":"%byte) as Hrest by (unfold rest; destruct (explicit_port u); auto).
  assert (drop 1 rest = if explicit_port u then to_string (port u) else []) as Ed
    by (unfold rest; by destruct (explicit_port u)).
  assert (bool_decide (rest <> []) = explicit_port u) as Eb
    by (unfold rest; by destruct (explicit_port u)).
  destruct (ipv6_literal u).
  - destruct (canonical_ipv6_text _ Hh) as (_ & Hn & Hbr & _).
    cbn [app]. rewrite <- app_assoc. cbn [app]. rewrite split_bracketed by done. by rewrite Ed, Eb.
  - destruct (good_hostname_text _ Hh) as (_ & Hn & Hc & Hb & _).
    rewrite split_plain; [by rewrite Ed, Eb|done..| |done]. rewrite Ed. destruct (explicit_port u); [done|].
    apply not_elem_of_nil.
Qed.

Lemma find_scheme_end s rest : s = str "https" \/ s = str "http" ->
  find_text (str "://") (s ++ str "://" ++ rest) = Some (length s) /\ ascii_lower s = s.
Proof. by intros [-> | ->]. Qed.

Lemma throw_if_go {A} c e (k : res A) : c = false -> (throw_if c e ≫= fun _ => k) = k.
Proof. by intros ->. Qed.

(** The canonical text of a URL parses back to it. *)
Lemma parse_full `{!InetText} u : WfUrl u -> parse_url (full u) = Ok u.
Proof.
  intros Hwf. destruct (authority_text u Hwf) as [Hat Hane]. pose proof (wf_scheme u Hwf) as Hs.
  assert (Forall (fun c => url_character c /\ path_start c = false /\ c <> "@"%byte) (authority u)) as Haf
    by (eapply Forall_impl; [exact Hat|]; intros c; apply authority_character_facts).
  destruct (path_and_query u) as [|c r] eqn:Ep; [by pose proof (wf_path u Hwf) as Hp; rewrite Ep in Hp|].
  pose proof (wf_path u Hwf) as Hslash. pose proof (wf_path_text u Hwf) as Hpt. rewrite Ep in Hslash, Hpt.
  injection Hslash as ->. unfold full, origin. rewrite Ep, <- !app_assoc. unfold parse_url.
  rewrite throw_if_go.
  2:{ apply url_text_guard. split; [by destruct Hs as [-> | ->]|]. rewrite !Forall_app. split_and!; [| | |done].
      - destruct Hs as [-> | ->]; repeat constructor; done.
      - repeat constructor; done.
      - eapply Forall_impl; [exact Haf|]. by intros c [? _]. }
  destruct (find_scheme_end _ (authority u ++ "/"%byte :: r) Hs) as [-> Hlow].
  rewrite take_app_length, Hlow. rewrite throw_if_go by (by destruct Hs as [-> | ->]).
  rewrite drop_app_ge by lia. replace (length (scheme u) + 3 - length (scheme u))%nat with 3%nat by lia.
  change (drop 3 (str "://" ++ authority u ++ "/"%byte :: r)) with (authority u ++ "/"%byte :: r).
  rewrite find_if_app by (done || (eapply Forall_impl; [exact Haf|]; by intros c (_ & ? & _))).
  cbn [prefix_to]. rewrite take_app_length.
  rewrite throw_if_go.
  2:{ rewrite bool_decide_eq_false_2 by done. unfold contains. apply bool_decide_eq_false_2. intros Hin.
      rewrite Forall_forall in Haf. by destruct (Haf _ Hin) as (_ & _ & []). }
  rewrite split_authority_wf by done. cbn [mbind res_bind]. rewrite normalize_host_wf by done.
  cbn [mbind res_bind].
  assert ((if explicit_port u then parse_port (if explicit_port u then to_string (port u) else [])
           else Ok (default_port (scheme u))) = Ok (port u)) as ->.
  { destruct (explicit_port u) eqn:He; [by apply parse_port_to_string, (wf_port u Hwf)|].
    by rewrite (wf_default u Hwf He). }
  rewrite lookup_app_r, Nat.sub_diag by lia. rewrite bool_decide_eq_false_2 by done.
  rewrite drop_app_length, <- Ep. by destruct u.
Qed.

Lemma parse_port_range value p : parse_port value = Ok p -> 1 <= p <= 65535.
Proof.
  unfold parse_port. intros H. inv_res. destruct (stoull value) as [v|] eqn:E; [|done].
  apply stoull_range in E. unfold in_u64 in E. case_match; [done|]. bool_to_prop. simplify_eq. lia.
Qed.

Lemma normalize_host_good `{!InetText} v6 h h' : normalize_host v6 (ascii_lower h) = Ok h' ->
  if v6 then canonical_ipv6 h' else good_hostname h'.
Proof.
  unfold normalize_host. destruct v6; intros Hn; inv_res.
  - destruct (inet_pton6 _) as [a|] eqn:Ea; [|done]. destruct (inet_ntop _ _) as [t|] eqn:Et; [|done].
    simplify_eq. exists a, t. split; [by eapply pton6_length|done].
  - subst h'. split; [done|]. destruct (pop_back_while_prefix (Byte.eqb ".") (ascii_lower h)) as [r E].
    pose proof (ascii_lower_idem h) as Hi. rewrite E in Hi at 2. rewrite E in Hi at 1.
    unfold ascii_lower in Hi |- *. rewrite map_app in Hi. apply app_inj_1 in Hi as [Hi _]; [done|].
    by rewrite length_map.
Qed.

Lemma slash_text : Forall url_character (str "/").
Proof. apply Forall_singleton. by split. Qed.

Lemma parse_url_wf `{!InetText} raw u : parse_url raw = Ok u -> WfUrl u.
Proof.
  unfold parse_url. intros Hu. apply throw_if_then in Hu as [Hg Hu].
  apply url_text_guard in Hg as [_ Htext].
  destruct (find_text (str "://") raw) as [n|]; [|done].
  apply throw_if_then in Hu as [Hs Hu]. cbv zeta in Hu. apply throw_if_then in Hu as [_ Hu].
  set (rest := drop (n + 3) raw) in Hu.
  assert (Forall url_character rest) as Hrest by (by apply Forall_drop).
  apply res_bind_ok in Hu as ([[[h pt] v6] ex] & _ & Hu). apply res_bind_ok in Hu as (h' & Hh & Hu).
  apply res_bind_ok in Hu as (p & Hp & Hu). injection Hu as <-.
  apply normalize_host_good in Hh. apply andb_false_iff in Hs. split; cbn.
  - destruct Hs as [Hs|Hs]; bool_to_prop; auto.
  - done.
  - destruct ex; [by eapply parse_port_range|]. injection Hp as <-. unfold default_port. case_bool_decide; lia.
  - intros ->. by injection Hp as <-.
  - destruct (find_if path_start rest) as [m|] eqn:E; [|done].
    apply find_if_some in E as (c & _ & Hc & _ & Ed & _).
    clear Hs. case_bool_decide as Hq; [done|].
    rewrite Ed. cbn. clear Hp. unfold path_start in Hc. apply orb_true_iff in Hc as [Hc%byte_eqb_eq|Hc%byte_eqb_eq]; [by subst c|].
    exfalso. apply Hq. subst c. pose proof (lookup_drop rest m 0) as E2. rewrite Ed, Nat.add_0_r in E2. by rewrite <- E2.
  - destruct (find_if path_start rest) as [m|]; [|apply slash_text].
    clear Hs. case_bool_decide; [apply (Forall_app_2 _ (str "/")); [apply slash_text|]|]; by apply Forall_drop.
Qed.

(** ** Paths *)

(** A segment that names something: what a normal path is made of. *)
Definition plain_segment (s : bytes) : Prop :=
  s <> [] /\ s <> str "." /\ s <> str ".." /\ ("/"%byte ∉ s) /\ ("?"%byte ∉ s).

(** The text of a normal path: its segments, and a last slash or none. *)
Definition render_path (segments : list bytes) (slash : bool) : bytes :=
  "/"%byte :: join_with "/" segments ++ (if slash then str "/" else []).

Lemma fold_getlines acc s :
  foldl path_segment acc (getlines s) = foldl path_segment acc (split_on "/" s).
Proof.
  unfold getlines. case_bool_decide as E; [|done]. apply last_Some in E as [l ->].
  by rewrite removelast_last, foldl_app.
Qed.

Lemma fold_segments_clean (P : bytes -> Prop) acc pieces :
  Forall (fun s => s <> [] /\ s <> str "." /\ s <> str ".." /\ P s) acc -> Forall P pieces ->
  Forall (fun s => s <> [] /\ s <> str "." /\ s <> str ".." /\ P s) (foldl path_segment acc pieces).
Proof.
  intros Hacc Hp. revert acc Hacc; induction Hp as [|s pieces Hs _ IH]; intros acc Hacc; [done|].
  apply IH. unfold path_segment. case_bool_decide; [done|]. case_bool_decide; [done|]. cbn [orb].
  case_bool_decide.
  - destruct acc as [|x acc _] using rev_ind; [done|]. rewrite removelast_last.
    by apply Forall_app in Hacc as [? _].
  - apply Forall_app; split; [done|]. by apply Forall_singleton.
Qed.

Lemma fold_plain acc segments : Forall plain_segment segments ->
  foldl path_segment acc segments = acc ++ segments.
Proof.
  intros Hs. revert acc; induction Hs as [|s l (H1 & H2 & H3 & _) _ IH]; intros acc; cbn [foldl].
  - by rewrite app_nil_r.
  - unfold path_segment at 2. rewrite !bool_decide_eq_false_2 by done. cbn [orb].
    by rewrite IH, <- app_assoc.
Qed.

Lemma join_with_snoc_empty segments : segments <> [] ->
  join_with "/" (segments ++ [[]]) = join_with "/" segments ++ str "/".
Proof.
  induction segments as [|s l IH]; intros Hne; [done|]. destruct l as [|s' l]; [done|].
  change (join_with "/" ((s :: s' :: l) ++ [[]])) with (s ++ "/"%byte :: join_with "/" ((s' :: l) ++ [[]])).
  rewrite IH by done. change (join_with "/" (s :: s' :: l)) with (s ++ "/"%byte :: join_with "/" (s' :: l)).
  by rewrite <- app_assoc.
Qed.

Lemma split_render segments slash : Forall plain_segment segments ->
  split_on "/" (render_path segments slash)
  = [] :: (if decide (segments = []) then [[]] else segments) ++ (if slash then [[]] else []).
Proof.
  intros Hs. unfold render_path. cbn [split_on]. rewrite byte_eqb_refl. f_equal.
  assert (Forall (fun p : bytes => "/"%byte ∉ p) segments) as Hsep
    by (eapply Forall_impl; [exact Hs|]; by intros s (_ & _ & _ & ? & _)).
  case_decide as E.
  - subst segments. by destruct slash.
  - destruct slash; [|by rewrite !app_nil_r, split_on_join].
    rewrite <- join_with_snoc_empty by done. apply split_on_join; [by destruct segments|].
    apply Forall_app; split; [done|]. apply Forall_singleton, not_elem_of_nil.
Qed.

Lemma join_plain_last segments : Forall plain_segment segments -> segments <> [] ->
  exists l c, join_with "/" segments = l ++ [c] /\ c <> "/"%byte.
Proof.
  induction 1 as [|s l (H1 & _ & _ & H2 & _) Hl IH]; intros Hne; [done|]. destruct l as [|s' l].
  - destruct s as [|c s _] using rev_ind; [done|]. exists s, c. split; [done|].
    intros ->. apply H2. apply elem_of_app. right. by apply list_elem_of_singleton.
  - destruct IH as (k & c & E & Hc); [done|]. exists (s ++ "/"%byte :: k), c. split; [|done].
    change (join_with "/" (s :: s' :: l)) with (s ++ "/"%byte :: join_with "/" (s' :: l)).
    rewrite E. by rewrite <- app_assoc.
Qed.

Lemma render_slash segments slash : Forall plain_segment segments ->
  (1 <? length (render_path segments slash))%nat
  && bool_decide (last (render_path segments slash) = Some (chr "/")) = slash.
Proof.
  intros Hs. unfold render_path. destruct slash.
  - change (str "/") with ["/"%byte]. rewrite app_comm_cons, last_snoc, bool_decide_eq_true_2 by done.
    rewrite length_app. cbn [length]. by rewrite (proj2 (Nat.ltb_lt _ _)) by lia.
  - rewrite app_nil_r. destruct (decide (segments = [])) as [->|Hne]; [done|].
    destruct (join_plain_last segments Hs Hne) as (l & c & -> & Hc).
    rewrite app_comm_cons, last_snoc, bool_decide_eq_false_2; [apply andb_false_r|]. by intros [= ->].
Qed.

Lemma render_no_query segments slash : Forall plain_segment segments -> "?"%byte ∉ render_path segments slash.
Proof.
  intros Hs. unfold render_path. rewrite not_elem_of_cons, elem_of_app. split; [done|].
  intros [Hin|Hin]; [|destruct slash; [by apply list_elem_of_singleton in Hin|by apply not_elem_of_nil in Hin]].
  induction Hs as [|s l (_ & _ & _ & _ & Hq) Hl IH]; [by apply not_elem_of_nil in Hin|].
  destruct l as [|s' l]; [done|].
  change (join_with "/" (s :: s' :: l)) with (s ++ "/"%byte :: join_with "/" (s' :: l)) in Hin.
  apply elem_of_app in Hin as [?|[?|?]%elem_of_cons]; [auto|discriminate|auto].
Qed.

(** Every path comes out as a normal one, followed by its query. *)
Lemma normalize_path_shape path : exists segments slash suffix,
  normalize_path path = render_path segments slash ++ suffix
  /\ Forall plain_segment segments /\ (suffix = [] \/ head suffix = Some "?"%byte).
Proof.
  unfold normalize_path. set (p := prefix_to _ path).
  assert ("?"%byte ∉ p) as Hq.
  { unfold p. destruct (find_char "?" path) as [n|] eqn:E; [|by apply find_char_none].
    apply find_if_some in E as (c & _ & _ & _ & _ & Hf). cbn. intros Hin. rewrite Forall_forall in Hf.
    specialize (Hf _ Hin). by rewrite byte_eqb_refl in Hf. }
  rewrite fold_getlines. set (segs := foldl path_segment [] (split_on "/" p)).
  exists segs, ((1 <? length p)%nat && bool_decide (last p = Some (chr "/"))),
    (match find_char "?" path with None => [] | Some n => drop n path end).
  split_and!.
  - f_equal. unfold render_path. destruct (_ && _); [done|]. by rewrite app_nil_r.
  - apply (fold_segments_clean (fun s => ("/"%byte ∉ s) /\ ("?"%byte ∉ s))); [constructor|].
    destruct (join_split_on "/" p) as [Hj Hs]. apply Forall_forall. intros s Hin. split.
    + by eapply Forall_forall in Hs.
    + intros Hc. apply Hq. rewrite <- Hj. clear -Hin Hc.
      induction (split_on "/" p) as [|x l IH]; [by apply not_elem_of_nil in Hin|].
      apply elem_of_cons in Hin as [<-|Hin]; destruct l as [|y l]; cbn [join_with].
      * done.
      * apply elem_of_app. by left.
      * by apply not_elem_of_nil in Hin.
      * apply elem_of_app. right. right. by apply IH.
  - destruct (find_char "?" path) as [n|] eqn:E; [right|by left].
    apply find_if_some in E as (c & _ & Hc%byte_eqb_eq & _ & -> & _). by rewrite Hc.
Qed.

(** A normal path followed by a query is left as it is. *)
Lemma normalize_render segments slash suffix : Forall plain_segment segments ->
  (suffix = [] \/ head suffix = Some "?"%byte) ->
  normalize_path (render_path segments slash ++ suffix) = render_path segments slash ++ suffix.
Proof.
  intros Hs Hsuf. pose proof (render_no_query segments slash Hs) as Hq. set (r := render_path segments slash) in *.
  assert (prefix_to (find_char "?" (r ++ suffix)) (r ++ suffix) = r
    /\ match find_char "?" (r ++ suffix) with None => [] | Some n => drop n (r ++ suffix) end = suffix) as [Ep Es].
  { destruct suffix as [|c suffix].
    - rewrite app_nil_r. by rewrite (proj2 (find_char_none _ _)).
    - destruct Hsuf as [?|[= ->]]; [done|]. rewrite find_char_app by done. cbn [prefix_to].
      by rewrite take_app_length, drop_app_length. }
  unfold normalize_path. rewrite Ep, Es. f_equal. unfold r. rewrite render_slash by done.
  rewrite fold_getlines, split_render by done. cbn [foldl].
  rewrite foldl_app. replace (foldl path_segment (path_segment [] []) _) with segments.
  - unfold render_path. destruct slash; [done|]. by rewrite app_nil_r.
  - case_decide as E; [by subst|]. symmetry. by apply (fold_plain []).
Qed.

Lemma join_with_Forall (P : byte -> Prop) sep l : P sep ->
  Forall (Forall P) l -> Forall P (join_with sep l).
Proof.
  intros Hsep. induction 1 as [|x l Hx Hl IH]; [constructor|]. destruct l as [|y l]; [done|].
  cbn [join_with] in *. apply Forall_app; split; [done|]. by constructor.
Qed.

Lemma split_on_Forall (P : byte -> Prop) sep s : Forall P s -> Forall (Forall P) (split_on sep s).
Proof.
  induction 1 as [|c s Hc Hs IH]; cbn [split_on]; [by repeat constructor|].
  destruct (Byte.eqb c sep); [by constructor|].
  destruct (split_on sep s) as [|x l]; [by repeat constructor|].
  apply Forall_cons in IH as [? ?]. by repeat constructor.
Qed.

(** The only character [normalize_path] adds is the slash. *)
Lemma normalize_path_text (P : byte -> Prop) path :
  P "/"%byte -> Forall P path -> Forall P (normalize_path path).
Proof.
  intros Hsl Hp. unfold normalize_path. set (q := find_char "?" path).
  assert (Forall P (prefix_to q path)) as Hpre by (destruct q; [by apply Forall_take|done]).
  apply Forall_app; split; [|destruct q; [by apply Forall_drop|constructor]].
  assert (Forall P (str "/")) as Hs by (by apply Forall_singleton).
  assert (Forall P (str "/" ++ join_with "/" (foldl path_segment [] (getlines (prefix_to q path))))) as Hj.
  { apply Forall_app; split; [done|]. apply join_with_Forall; [done|]. rewrite fold_getlines.
    eapply Forall_impl; [eapply (fold_segments_clean (Forall P)); [constructor|by apply split_on_Forall]|].
    by intros x (_ & _ & _ & ?). }
  destruct (_ && _); [by apply Forall_app|done].
Qed.

(** ** The same server, another path *)

Definition with_path (u : ParsedUrl) (path : bytes) : ParsedUrl :=
  {| scheme := scheme u; host := host u; port := port u; explicit_port := explicit_port u;
     ipv6_literal := ipv6_literal u; path_and_query := path |}.

Lemma parse_with_path `{!InetText} u path : WfUrl u ->
  head path = Some "/"%byte -> Forall url_character path ->
  parse_url (origin u ++ path) = Ok (with_path u path).
Proof.
  intros [] Hh Hf. by apply (parse_full (with_path u path)).
Qed.

Lemma parse_parse_full `{!InetText} raw u : parse_url raw = Ok u -> parse_url (full u) = Ok u.
Proof. intros Hu. by eapply parse_full, parse_url_wf. Qed.

Lemma normalize_path_head path : head (normalize_path path) = Some "/"%byte.
Proof. unfold normalize_path. cbv zeta. by destruct (_ && _). Qed.

Lemma query_prefix_head path : head path = Some "/"%byte ->
  head (prefix_to (find_char "?" path) path) = Some "/"%byte.
Proof.
  destruct path as [|c path]; [done|]. intros [= ->]. unfold find_char. cbn [find_if].
  change (Byte.eqb "?" "/") with false. cbv beta iota. by destruct (find_if _ path).
Qed.

Lemma prefix_to_text (P : byte -> Prop) n s : Forall P s -> Forall P (prefix_to n s).
Proof. intros. destruct n; [by apply Forall_take|done]. Qed.
End url_lemmas.

(** ** Lemmas on address blocks *)

(** The address [a.b.c.d]. *)
Definition ipv4 (a b c d : Z) : Z := ((a * 256 + b) * 256 + c) * 256 + d.

Lemma land_high a j k : 0 <= j -> 0 <= k -> 0 <= a < 2 ^ (j + k) ->
  Z.land a (Z.shiftl (Z.ones k) j) = a / 2 ^ j * 2 ^ j.
Proof.
  intros Hj Hk Ha. rewrite <- Z.shiftr_div_pow2, <- Z.shiftl_mul_pow2 by done.
  apply Z.bits_inj'. intros n Hn. rewrite Z.land_spec, !Z.shiftl_spec by done.
  destruct (Z.ltb_spec n j); [rewrite !(Z.testbit_neg_r _ (n - j)) by lia; apply andb_false_r|].
  rewrite Z.shiftr_spec by lia. replace (n - j + j) with n by lia.
  destruct (Z.ltb_spec n (j + k)).
  - rewrite Z.ones_spec_low by lia. apply andb_true_r.
  - rewrite Z.ones_spec_high by lia. rewrite andb_false_r. symmetry.
    destruct (Z.eq_dec a 0) as [->|]; [apply Z.bits_0|]. apply Z.bits_above_log2; [lia|].
    apply Z.log2_lt_pow2; [lia|]. apply (Z.lt_le_trans _ (2 ^ (j + k))); [lia|]. apply Z.pow_le_mono_r; lia.
Qed.

(** A masked comparison is membership of the block. *)
Lemma in_block a network j : 0 <= a < 2 ^ 32 -> 0 <= j <= 32 -> network mod 2 ^ j = 0 ->
  in_ipv4_range a network (Z.shiftl (Z.ones (32 - j)) j) = true <-> network <= a < network + 2 ^ j.
Proof.
  intros Ha Hj Hn. unfold in_ipv4_range. rewrite Z.eqb_eq.
  rewrite land_high; [|lia|lia|by replace (j + (32 - j)) with 32 by lia].
  assert (0 < 2 ^ j) by (apply Z.pow_pos_nonneg; lia).
  pose proof (Z.div_mod a (2 ^ j)). pose proof (Z.mod_pos_bound a (2 ^ j)).
  pose proof (Z.div_mod network (2 ^ j)). split; [lia|]. intros Hr.
  rewrite <- (Z.div_unique a (2 ^ j) (network / 2 ^ j) (a - network)); lia.
Qed.

(** The address blocks that are not public: the first address and how many. *)
Definition reserved_ipv4 : list (Z * Z) :=
  [(ipv4 0 0 0 0, 24); (ipv4 10 0 0 0, 24); (ipv4 100 64 0 0, 22); (ipv4 127 0 0 0, 24);
   (ipv4 169 254 0 0, 16); (ipv4 172 16 0 0, 20); (ipv4 192 0 0 0, 8); (ipv4 192 0 2 0, 8);
   (ipv4 192 168 0 0, 16); (ipv4 198 18 0 0, 17); (ipv4 198 51 100 0, 8); (ipv4 203 0 113 0, 8);
   (ipv4 224 0 0 0, 28); (ipv4 240 0 0 0, 28)].

Definition in_ipv4_block (a : Z) (block : Z * Z) : Prop := block.1 <= a < block.1 + 2 ^ block.2.

Lemma ipv4_public_existsb a :
  ipv4_public a
  = negb (existsb (fun b => in_ipv4_range a b.1 (Z.shiftl (Z.ones (32 - b.2)) b.2)) reserved_ipv4).
Proof.
  unfold ipv4_public, ipv4_loopback, reserved_ipv4. cbn [existsb fst snd].
  rewrite <- !orb_assoc, orb_false_r. reflexivity.
Qed.

Lemma ipv4_public_iff a : 0 <= a < 2 ^ 32 ->
  ipv4_public a = true <-> Forall (fun block => ~ in_ipv4_block a block) reserved_ipv4.
Proof.
  intros Ha. rewrite ipv4_public_existsb, negb_true_iff, <- not_true_iff_false, existsb_exists.
  rewrite Forall_forall. split.
  - intros Hn b Hin Hb. apply Hn. exists b. split; [by apply list_elem_of_In|].
    apply in_block; [done|..|exact Hb]; revert b Hin Hb Hn.
    all: assert (Forall (fun b : Z * Z => 0 <= b.2 <= 32 /\ b.1 mod 2 ^ b.2 = 0) reserved_ipv4) as Hr
      by (repeat constructor; cbn; lia).
    all: rewrite Forall_forall in Hr; intros b Hin _ _; by apply (Hr b Hin).
  - intros Hn (b & Hin%list_elem_of_In & Hb). apply (Hn b Hin).
    assert (Forall (fun b : Z * Z => 0 <= b.2 <= 32 /\ b.1 mod 2 ^ b.2 = 0) reserved_ipv4) as Hr
      by (repeat constructor; cbn; lia).
    rewrite Forall_forall in Hr. destruct (Hr b Hin). by apply in_block in Hb.
Qed.


(** ** The IPv6 policy, by prefixes *)

(** The IPv4 address inside an IPv6 address: mapped, compatible, NAT64, 6to4. *)
Definition embedded_ipv4 (a : bytes) : option Z :=
  if bool_decide (take 12 a = replicate 10 x00 ++ [xff; xff])
     || bool_decide (take 12 a = replicate 12 x00)
     || bool_decide (take 12 a = [x00; x64; xff; x9b] ++ replicate 8 x00)
  then Some (network_u32 12 a)
  else if bool_decide (take 2 a = [x20; x02]) then Some (network_u32 2 a)
  else None.

(** The special blocks of global unicast space: documentation, Teredo,
    benchmarking, ORCHID. *)
Definition special_ipv6 (a : bytes) : bool :=
  bool_decide (take 4 a = [x20; x01; x0d; xb8]) || bool_decide (take 4 a = [x20; x01; x00; x00])
  || bool_decide (take 4 a = [x20; x01; x00; x02])
  || (bool_decide (take 3 a = [x20; x01; x00])
      && (0x10 <=? b2z (byte_at a 3)) && (b2z (byte_at a 3) <=? 0x2f)).

Lemma b2z_is c z d : z = b2z d -> (b2z c =? z) = bool_decide (c = d).
Proof.
  intros ->. apply eq_bool_prop_intro. rewrite !Is_true_true, Z.eqb_eq, bool_decide_eq_true.
  split; [apply b2z_inj|by intros ->].
Qed.

Lemma land_fe c : (Z.land (b2z c) 0xfe =? 0xfc) = (0xfc <=? b2z c) && (b2z c <=? 0xfd).
Proof. by destruct c. Qed.
Lemma land_e0 c : (Z.land (b2z c) 0xe0 =? 0x20) = (0x20 <=? b2z c) && (b2z c <=? 0x3f).
Proof. by destruct c. Qed.
Lemma land_f0_1 c : (Z.land (b2z c) 0xf0 =? 0x10) = (0x10 <=? b2z c) && (b2z c <=? 0x1f).
Proof. by destruct c. Qed.
Lemma land_f0_2 c : (Z.land (b2z c) 0xf0 =? 0x20) = (0x20 <=? b2z c) && (b2z c <=? 0x2f).
Proof. by destruct c. Qed.

Lemma list16 (a : bytes) : length a = 16%nat -> exists a0 a1 a2 a3 a4 a5 a6 a7 a8 a9 a10 a11 a12 a13 a14 a15,
  a = [a0; a1; a2; a3; a4; a5; a6; a7; a8; a9; a10; a11; a12; a13; a14; a15].
Proof.
  intros H. do 16 (destruct a as [|? a]; [discriminate H|]). destruct a; [|discriminate H].
  by repeat eexists.
Qed.

Ltac split_test :=
  match goal with
  | |- context [bool_decide (?x = ?y)] => destruct (decide (x = y));
      [rewrite (bool_decide_eq_true_2 (x = y)) by done; subst
      |rewrite (bool_decide_eq_false_2 (x = y)) by done]; cbn [andb orb negb]
  end.

Lemma ipv6_public_embedded a v : length a = 16%nat -> embedded_ipv4 a = Some v ->
  ipv6_public a = ipv4_public v.
Proof.
  intros Hl Hv. destruct (list16 a Hl) as (a0&a1&a2&a3&a4&a5&a6&a7&a8&a9&a10&a11&a12&a13&a14&a15&->).
  unfold embedded_ipv4 in Hv. cbn [take replicate app] in Hv.
  case_bool_decide as E1; [injection Hv as <-; injection E1; intros; subst; reflexivity|].
  case_bool_decide as E2.
  - injection Hv as <-. injection E2; intros; subst. clear.
    destruct (decide (a12 = x00)) as [->|H1]; [|by destruct a12].
    destruct (decide (a13 = x00)) as [->|H1]; [|by destruct a13].
    destruct (decide (a14 = x00)) as [->|H1]; [|by destruct a14].
    by destruct a15.
  - case_bool_decide as E3; [injection Hv as <-; injection E3; intros; subst; reflexivity|].
    case_bool_decide as E4; [|done]. injection Hv as <-. injection E4; intros; subst. reflexivity.
Qed.

Lemma bytes_all_zero_at from count a i :
  bytes_all_zero from count a = true -> (i < count)%nat -> byte_at a (from + i) = x00.
Proof.
  unfold bytes_all_zero. rewrite forallb_forall. intros Hf Hi.
  assert (In i (seq 0 count)) as Hin by (apply in_seq; lia). specialize (Hf i Hin).
  apply Z.eqb_eq in Hf. by apply b2z_inj.
Qed.

Lemma take_bytes_at a b n : (n <= length a)%nat -> (n <= length b)%nat ->
  (forall i, (i < n)%nat -> byte_at a i = byte_at b i) -> take n a = take n b.
Proof.
  intros Ha Hb Hat. apply list_eq. intros i. destruct (Nat.lt_ge_cases i n) as [Hi|Hi].
  - rewrite !lookup_take_lt by done. specialize (Hat i Hi). unfold byte_at in Hat.
    destruct (lookup_lt_is_Some_2 a i) as [x Ex]; [lia|].
    destruct (lookup_lt_is_Some_2 b i) as [y Ey]; [lia|]. rewrite Ex, Ey in *. by cbn in Hat; subst.
  - by rewrite !lookup_take_ge by done.
Qed.

(** The multi-byte tests of the code are the prefixes of [embedded_ipv4]. *)
Lemma plain_tests a : length a = 16%nat -> embedded_ipv4 a = None ->
  (forall n, (12 <= n)%nat -> bytes_all_zero 0 n a = false)
  /\ bytes_all_zero 0 10 a && (b2z (byte_at a 10) =? 0xff) && (b2z (byte_at a 11) =? 0xff) = false
  /\ (b2z (byte_at a 0) =? 0x00) && (b2z (byte_at a 1) =? 0x64) && (b2z (byte_at a 2) =? 0xff)
     && (b2z (byte_at a 3) =? 0x9b) && bytes_all_zero 4 8 a = false
  /\ (b2z (byte_at a 0) =? 0x20) && (b2z (byte_at a 1) =? 0x02) = false.
Proof.
  intros Hl Hv. unfold embedded_ipv4 in Hv.
  destruct (_ || _ || _) eqn:E in Hv; [done|]. case_bool_decide as E4; [done|]. clear Hv.
  rewrite !orb_false_iff, !bool_decide_eq_false in E. destruct E as [[E1 E2] E3].
  split_and!; [intros n Hn|..]; apply not_true_iff_false; intros Ht.
  - apply E2, (take_bytes_at a (replicate 12 x00)); [lia|done|].
    intros i Hi. rewrite <- (Nat.add_0_l i) at 1. rewrite (bytes_all_zero_at 0 n a i Ht) by lia.
    unfold byte_at. by rewrite lookup_replicate_2.
  - apply andb_true_iff in Ht as [[Hz ?]%andb_true_iff ?]. bool_to_prop. apply E1, (take_bytes_at a (replicate 10 x00 ++ [xff; xff])); [lia|done|].
    intros i Hi. do 10 (destruct i as [|i]; [match goal with
      | |- byte_at a ?k = _ => exact (bytes_all_zero_at 0 10 a k Hz ltac:(lia)) end|]).
    do 2 (destruct i as [|i]; [by apply b2z_inj|]). lia.
  - apply andb_true_iff in Ht as [? Hz]. bool_to_prop. apply E3, (take_bytes_at a ([x00; x64; xff; x9b] ++ replicate 8 x00)); [lia|done|].
    intros i Hi. do 4 (destruct i as [|i]; [by apply b2z_inj|]).
    do 8 (destruct i as [|i]; [match goal with
      | |- byte_at a ?k = _ => exact (bytes_all_zero_at 4 8 a (k - 4) Hz ltac:(lia)) end|]). lia.
  - bool_to_prop. apply E4, (take_bytes_at a [x20; x02]); [lia|cbn; lia|].
    intros i Hi. do 2 (destruct i as [|i]; [by apply b2z_inj|]). lia.
Qed.

Lemma take_is a (l : bytes) n : n = length l -> (n <= length a)%nat ->
  bool_decide (take n a = l) = forallb (fun i => b2z (byte_at a i) =? b2z (byte_at l i)) (seq 0 n).
Proof.
  intros -> Hl. apply eq_bool_prop_intro. rewrite !Is_true_true, bool_decide_eq_true, forallb_forall. split.
  - intros E i Hi%in_seq. apply Z.eqb_eq. f_equal. rewrite <- E at 1. unfold byte_at.
    by rewrite lookup_take_lt by lia.
  - intros Hf. rewrite <- (firstn_all l) at 2. apply take_bytes_at; [done|done|]. intros i Hi.
    apply b2z_inj, Z.eqb_eq, Hf, in_seq. lia.
Qed.

(** Settles the comparisons of a goal one at a time. *)
Ltac settle :=
  repeat (cbn [andb orb negb] in *; try reflexivity;
    match goal with
    | |- context [?x =? ?y] => destruct (Z.eqb_spec x y); try (exfalso; lia)
    | |- context [?x <=? ?y] => destruct (Z.leb_spec x y); try (exfalso; lia)
    end).

Lemma ipv6_public_plain a : length a = 16%nat -> embedded_ipv4 a = None ->
  ipv6_public a = (0x20 <=? b2z (byte_at a 0)) && (b2z (byte_at a 0) <=? 0x3f) && negb (special_ipv6 a).
Proof.
  intros Hl Hv. destruct (plain_tests a Hl Hv) as (Hz & Hm & Hn & H6).
  unfold ipv6_public, ipv6_loopback. rewrite (Hz 16%nat), (Hz 15%nat), (Hz 12%nat), Hm, Hn, H6 by lia. cbn [orb andb].
  rewrite land_fe, land_e0, land_f0_1, land_f0_2. unfold special_ipv6.
  rewrite !take_is by (cbn; lia).
  cbn [forallb seq].
  repeat match goal with
  | |- context [b2z (byte_at (?c :: ?l) ?i)] =>
      let v := eval vm_compute in (b2z (byte_at (c :: l) i)) in change (b2z (byte_at (c :: l) i)) with v
  end.
  apply andb_false_iff in H6 as [H6%Z.eqb_neq|H6%Z.eqb_neq]; settle.
Qed.




(** ** Properties of URLs *)

Section url_properties.
Context {pton : InetPton} {ntop : InetNtop} {text : InetText}.

(** C17: a URL the code accepts has an HTTP scheme, a port in range, a lower-case
    host name in the accepted alphabet or the canonical text of an IPv6 address,
    and a path from the root; and the text the requests are made with ([full])
    is read back as the same URL, so the host that was checked is the host that
    is contacted. *)
Theorem parse_url_canonical raw u :
  parse_url raw = Ok u -> WfUrl u /\ parse_url (full u) = Ok u.
Proof. intros Hu. split; [by eapply parse_url_wf|by eapply parse_parse_full]. Qed.

(** A normal path is its segments between slashes, none of them empty, [.] or
    [..] (so no path climbs above the root), then the query as it was; and
    normalizing again changes nothing. *)
Theorem normalize_path_normal path :
  (exists segments slash suffix,
    normalize_path path = render_path segments slash ++ suffix
    /\ Forall plain_segment segments /\ (suffix = [] \/ head suffix = Some "?"%byte))
  /\ normalize_path (normalize_path path) = normalize_path path.
Proof.
  split; [apply normalize_path_shape|].
  destruct (normalize_path_shape path) as (segs & slash & suffix & -> & Hs & Hsuf).
  by apply normalize_render.
Qed.

(** A redirect that is not an absolute or a scheme-relative URL stays on the
    server that sent it: the target parses, with the scheme, host and port of the
    URL that was being fetched. *)
Theorem relative_redirect_keeps_server raw base location target :
  parse_url raw = Ok base -> find_text (str "://") location = None -> take 2 location <> str "//" ->
  resolve_redirect base location = Ok target ->
  exists path, parse_url target = Ok (with_path base path).
Proof.
  intros Hb%parse_url_wf Habs Hrel Hr. unfold resolve_redirect in Hr.
  apply throw_if_then in Hr as [Hg Hr]. apply url_text_guard in Hg as [Hne Ht].
  rewrite Habs, !bool_decide_eq_false_2 in Hr by (done || by intros []).
  pose proof (wf_path _ Hb) as Hp. pose proof (wf_path_text _ Hb) as Hpt.
  assert (url_character "/") as Hsl by done.
  case_bool_decide as Hc.
  - injection Hr as <-. eexists. apply parse_with_path; [done|apply normalize_path_head|].
    by apply normalize_path_text.
  - set (path := prefix_to _ _) in Hr.
    assert (Forall url_character path) as Hpre by (by apply prefix_to_text). case_bool_decide.
    + injection Hr as <-. eexists. apply parse_with_path; [done| |by apply Forall_app].
      pose proof (query_prefix_head _ Hp) as Hq. fold path in Hq. by destruct path.
    + injection Hr as <-. eexists. apply parse_with_path; [done|apply normalize_path_head|].
      apply normalize_path_text; [done|]. apply Forall_app; split; [|done].
      destruct (rfind_char "/" path); [by apply Forall_take|by apply Forall_singleton].
Qed.

(** What a diagnostic says of a URL has no query and no fragment: it is a
    fixed text, or the URL of the same server and path. *)
Theorem redacted_url_has_no_query url :
  let shown := redact_external_url url in
  ("?"%byte ∉ shown) /\ ("#"%byte ∉ shown)
  /\ (shown = str "<invalid-url>"
      \/ exists u path, parse_url url = Ok u /\ parse_url shown = Ok (with_path u path)
                        /\ path `prefix_of` path_and_query u).
Proof.
  cbn. unfold redact_external_url. destruct (parse_url url) as [u|e] eqn:Eu.
  2:{ split_and!; [by rewrite list_elem_of_In; cbn; intuition discriminate..|by left]. }
  pose proof (parse_url_wf _ _ Eu) as Hwf. set (path := prefix_to _ _).
  assert (head path = Some "/"%byte) as Hh by apply query_prefix_head, Hwf.
  assert (Forall url_character path) as Ht by apply prefix_to_text, Hwf.
  destruct (authority_text u Hwf) as [Ha _].
  assert (forall c, c ∈ origin u -> url_character c /\ c <> "?"%byte) as Ho.
  { intros c. unfold origin. rewrite !elem_of_app. intros [Hc|[Hc|Hc]].
    - destruct (wf_scheme u Hwf) as [E|E]; rewrite E in Hc; revert Hc; rewrite list_elem_of_In; cbn;
        intuition subst; done.
    - revert Hc. rewrite list_elem_of_In; cbn; intuition subst; done.
    - rewrite Forall_forall in Ha. destruct (authority_character_facts c (Ha c Hc)) as (? & Hs & _).
      split; [done|]. by intros ->. }
  split_and!.
  - rewrite elem_of_app. intros [Hc|Hc]; [by apply Ho in Hc as [_ []]|].
    subst path. destruct (find_char "?" (path_and_query u)) as [n|] eqn:E; [|by apply find_char_none in E].
    apply find_if_some in E as (c & _ & _ & _ & _ & Hf). rewrite Forall_forall in Hf.
    specialize (Hf _ Hc). by rewrite byte_eqb_refl in Hf.
  - rewrite elem_of_app. intros [Hc|Hc]; [by apply Ho in Hc as [[_ []] _]|].
    rewrite Forall_forall in Ht. by destruct (Ht _ Hc) as [_ []].
  - right. exists u, path. split_and!; [done|by apply parse_with_path|].
    subst path. destruct (find_char _ _) as [n|]; [|done]. exists (drop n (path_and_query u)). symmetry. apply take_drop.
Qed.
End url_properties.

(** C18: an IPv4 address is public when it is in none of the reserved blocks, and an
    IPv6 address when the IPv4 address it embeds (mapped, compatible, NAT64 or
    6to4) is public or, when it embeds none, when it is global unicast outside the
    special blocks; a loopback address of either family is never public. *)
Theorem public_addresses :
  (forall a, 0 <= a < 2 ^ 32 ->
    (ipv4_public a = true <-> Forall (fun block => ~ in_ipv4_block a block) reserved_ipv4)
    /\ (ipv4_loopback a = true -> ipv4_public a = false))
  /\ (forall a, length a = 16%nat ->
    ipv6_public a = match embedded_ipv4 a with
                    | Some v => ipv4_public v
                    | None => (0x20 <=? b2z (byte_at a 0)) && (b2z (byte_at a 0) <=? 0x3f)
                              && negb (special_ipv6 a)
                    end
    /\ (ipv6_loopback a = true -> ipv6_public a = false)).
Proof.
  split; intros a Ha; (split; [|intros Hl]).
  - by apply ipv4_public_iff.
  - unfold ipv4_public. by rewrite Hl, !orb_true_r.
  - destruct (embedded_ipv4 a) as [v|] eqn:E; [by apply ipv6_public_embedded|by apply ipv6_public_plain].
  - unfold ipv6_public. by rewrite Hl, orb_true_r.
Qed.

(** ** Witnesses *)

(** A text form of addresses: the sixteen bytes in hexadecimal. *)
Module ToyInet.
#[export] Instance ntop : InetNtop := fun family a =>
  match family with
  | AF_INET => Some (join_with "." (map (fun b => to_string (b2z b)) (take 4 a)))
  | AF_INET6 => Some (hex_encode (take 16 a))
  end.

#[export] Instance pton : InetPton :=
  {| inet_pton4 _ := None;
     inet_pton6 s := match hex_decode s with
                     | Some a => if decide (length a = 16%nat) then Some a else None
                     | None => None
                     end |}.

Lemma hex_encode_text a : Forall (fun c => ipv6_text_character c = true) (hex_encode a)
  /\ ascii_lower (hex_encode a) = hex_encode a.
Proof.
  induction a as [|c a [IH1 IH2]]; [by split; constructor|].
  rewrite hex_encode_cons. unfold ascii_lower in *. cbn [map]. rewrite IH2.
  split; [do 2 (constructor; [clear; by destruct c|]); done|].
  f_equal; [clear; by destruct c|]. f_equal. clear; by destruct c.
Qed.

#[export] Instance text : InetText.
Proof.
  split; cbn.
  - intros s a. destruct (hex_decode s) as [b|]; [|done]. case_decide; [|done]. by intros [= <-].
  - intros a t Ha [= <-]. rewrite take_ge by lia. destruct (hex_encode_text a) as [Ht ->].
    rewrite hex_decode_encode, decide_True by done. split_and!; [|done|done].
    by destruct a.
Qed.
End ToyInet.
Import ToyInet.

Definition toy_url : ParsedUrl :=
  {| scheme := str "https"; host := str "data.example.com"; port := 443; explicit_port := false;
     ipv6_literal := false; path_and_query := str "/a/b?sig=1" |}.

Example parse_url_examples :
  parse_url (str "HTTPS://Data.Example.COM./a/b?sig=1") = Ok toy_url
  /\ (parse_url (str "http://[20010DB8000000000000000000000001]:08080?q") ≫= fun u => Ok (full u))
     = Ok (str "http://[20010db8000000000000000000000001]:8080/?q")
  /\ parse_url (str "https://h:65536/") = external_error (str "external URL port is out of range")
  /\ parse_url (str "https://u@h/")
     = external_error (str "external URL has an empty host or forbidden userinfo")
  /\ map normalize_path [str "/a/./b/../c/"; str "/../x?y=/../"; str "a//b"; str "/../"]
     = [str "/a/c/"; str "/x?y=/../"; str "/a/b"; str "//"].
Proof. vm_compute. split_and!; reflexivity. Qed.

Lemma parse_url_canonical_witness :
  parse_url (str "HTTPS://Data.Example.COM./a/b?sig=1") = Ok toy_url
  /\ WfUrl toy_url /\ parse_url (full toy_url) = Ok toy_url.
Proof.
  split; [reflexivity|].
  apply (parse_url_canonical (str "HTTPS://Data.Example.COM./a/b?sig=1") toy_url). reflexivity.
Defined.

Lemma relative_redirect_keeps_server_witness :
  resolve_redirect toy_url (str "../c?t=2") = Ok (str "https://data.example.com/c?t=2")
  /\ exists path, parse_url (str "https://data.example.com/c?t=2") = Ok (with_path toy_url path).
Proof.
  split; [reflexivity|].
  apply (relative_redirect_keeps_server (str "https://data.example.com/a/b?sig=1") toy_url (str "../c?t=2"));
    [reflexivity|reflexivity|discriminate|reflexivity].
Defined.

Lemma public_addresses_witness :
  ipv4_public (ipv4 172 31 0 1) = false
  /\ (ipv6_public ([x20; x02; x08; x08; x08; x08] ++ replicate 10 x00) = ipv4_public (ipv4 8 8 8 8))
  /\ ~ in_ipv4_block (ipv4 8 8 8 8) (ipv4 10 0 0 0, 24).
Proof.
  destruct public_addresses as [H4 H6]. split; [reflexivity|]. split.
  - apply (H6 ([x20; x02; x08; x08; x08; x08] ++ replicate 10 x00) eq_refl).
  - assert (Forall (fun block => ~ in_ipv4_block (ipv4 8 8 8 8) block) reserved_ipv4) as Hf
      by (apply (H4 (ipv4 8 8 8 8)); [vm_compute; split; [discriminate|reflexivity]|reflexivity]).
    apply Forall_cons in Hf as [_ Hf]. by apply Forall_cons in Hf as [Hf _].
Defined.
