(* ===== verification/Shm.v ===== *)
(** * The shared-memory segment and its allocator (src/src/shm.cpp)

    The segment is a byte memory: a 64 KiB header (magic, version, data size,
    allocation count, allocation table) followed by the data region.  The
    allocator works on the bytes of the table, as the code does, with 64-bit
    unsigned offsets.  The second half of the file specifies the allocator on
    lists of regions ([first_fit], [release]) and proves that the byte-level
    operations implement that specification, keep the live regions disjoint,
    and touch nothing but the table. *)

From S2P Require Import Prelude Memory.

(** ** The segment *)

Definition kShmHeaderSize : Z := 65536.
Definition kShmHeaderStructSize : Z := 24.
Definition kShmAllocStructSize : Z := 16.
Definition kShmVersion : Z := 1.
Definition kShmMaxAllocs : Z := (kShmHeaderSize - kShmHeaderStructSize) / kShmAllocStructSize.
Definition kMagic : bytes := str "VGIS".

Record ShmSegment := {
  base_ : memory;
  size_ : Z;
  name_ : bytes;
  owned_ : bool;
}.

Definition with_base (seg : ShmSegment) (m : memory) : ShmSegment :=
  {| base_ := m; size_ := size_ seg; name_ := name_ seg; owned_ := owned_ seg |}.

Definition num_allocs (seg : ShmSegment) : Z := load_u32 (base_ seg) 16.
Definition live_allocations (seg : ShmSegment) : Z := num_allocs seg.

Definition set_num_allocs (m : memory) (n : Z) : memory := store_u32 m 16 n.
Definition reset (seg : ShmSegment) : ShmSegment := with_base seg (set_num_allocs (base_ seg) 0).

(** Addresses of table entries. *)
Definition table : Z := kShmHeaderStructSize.
Definition entry_addr (i : Z) : Z := table + i * kShmAllocStructSize.
Definition entry_offset (m : memory) (i : Z) : Z := load_u64 m (entry_addr i).
Definition entry_length (m : memory) (i : Z) : Z := load_u64 m (entry_addr i + 8).

(** ** [allocate] *)

(** The lambda [insert_at]. *)
Definition insert_at (m : memory) (count size index offset : Z) : memory :=
  let m := memmove m (entry_addr (index + 1)) (entry_addr index)
             ((count - index) * kShmAllocStructSize) in
  let m := store_u64 m (entry_addr index) offset in
  let m := store_u64 m (entry_addr index + 8) (u64 size) in
  set_num_allocs m (u32 (count + 1)).

(** The loop over the entries: [inl (i, prev_end)] is the insertion point,
    [inr prev_end] falls through.  [n] is [count - i]. *)
Fixpoint alloc_scan (m : memory) (size : Z) (n : nat) (i prev_end : Z) : (Z * Z) + Z :=
  match n with
  | O => inr prev_end
  | S n' =>
      let off := entry_offset m i in
      if (prev_end <=? off) && (u64 size <=? off - prev_end) then inl (i, prev_end)
      else alloc_scan m size n' (i + 1) (u64 (off + entry_length m i))
  end.

Definition allocate (seg : ShmSegment) (size : Z) : ShmSegment * option Z :=
  if size <=? 0 then (seg, None)
  else
    let m := base_ seg in
    let count := num_allocs seg in
    if kShmMaxAllocs <=? count then (seg, None)
    else
      match alloc_scan m size (Z.to_nat count) 0 kShmHeaderSize with
      | inl (i, prev_end) =>
          (with_base seg (insert_at m count size i prev_end), Some (i64 prev_end))
      | inr prev_end =>
          if (prev_end <? size_ seg) && (u64 size <=? size_ seg - prev_end) then
            (with_base seg (insert_at m count size count prev_end), Some (i64 prev_end))
          else (seg, None)
      end.

(** ** [free_alloc] *)

Fixpoint free_scan (m : memory) (offset : Z) (n : nat) (i : Z) : option Z :=
  match n with
  | O => None
  | S n' =>
      if load_u64 m (entry_addr i) =? u64 offset then Some i
      else free_scan m offset n' (i + 1)
  end.

Definition free_alloc (seg : ShmSegment) (offset : Z) : ShmSegment :=
  let m := base_ seg in
  let count := num_allocs seg in
  match free_scan m offset (Z.to_nat count) 0 with
  | None => seg
  | Some i =>
      let m := memmove m (entry_addr i) (entry_addr (i + 1))
                 ((count - i - 1) * kShmAllocStructSize) in
      with_base seg (set_num_allocs m (u32 (count - 1)))
  end.

(** ** [read] *)

Definition read (seg : ShmSegment) (offset length : Z) : res bytes :=
  if (offset <? kShmHeaderSize) || (length <? 0)
     || (size_ seg <? u64 (u64 offset + u64 length)) then
    Throw (RuntimeError (str "shared-memory pointer is outside the segment"))
  else Ok (read_mem (base_ seg) offset (Z.to_nat length)).

(** ** [create] and [attach]

    The POSIX calls are the platform's.  Their results for one path are the
    fields of this record: whether [shm_open] (and, creating, [ftruncate])
    succeed, the size [fstat] reports, and the bytes [mmap] maps. *)
Record PosixShm := {
  opens : bool;
  truncates : bool;
  st_size : option Z;
  mapping : option memory;
}.

(** [if (fstat(fd, &st) == 0 && st.st_size > 0) actual = st.st_size;]. *)
Definition actual_size (os : PosixShm) (size : Z) : Z :=
  match st_size os with
  | Some n => if 0 <? n then n else size
  | None => size
  end.

Definition shm_path (name : bytes) : bytes :=
  match name with
  | [] => name
  | c :: _ => if Byte.eqb c "/" then name else "/"%byte :: name
  end.

Definition init_header (m : memory) (actual : Z) : memory :=
  let m := write_mem m 0 kMagic in
  let m := store_u32 m 4 kShmVersion in
  let m := store_u64 m 8 (u64 (actual - kShmHeaderSize)) in
  let m := store_u32 m 16 0 in
  store_u32 m 20 0.

Definition create (posix : bytes -> PosixShm) (name : bytes) (size : Z) : option ShmSegment :=
  let os := posix (shm_path name) in
  if size <=? kShmHeaderSize then None
  else if negb (opens os) then None
  else if negb (truncates os) then None
  else
    let actual := actual_size os size in
    match mapping os with
    | None => None
    | Some m =>
        Some {| base_ := init_header m actual; size_ := actual; name_ := name; owned_ := true |}
    end.

Definition attach (posix : bytes -> PosixShm) (name : bytes) (size : Z) : option ShmSegment :=
  let os := posix (shm_path name) in
  if negb (opens os) then None
  else
    let actual := actual_size os size in
    if actual <=? kShmHeaderSize then None
    else
      match mapping os with
      | None => None
      | Some m =>
          if negb (bool_decide (read_mem m 0 4 = kMagic))
             || negb (load_u32 m 4 =? kShmVersion)
             || negb (load_u64 m 8 =? u64 (actual - kShmHeaderSize)) then None
          else Some {| base_ := m; size_ := actual; name_ := name; owned_ := false |}
      end.


(** ** The allocation table as a list of regions *)

Definition region : Type := Z * Z.

Definition entry (m : memory) (i : Z) : region := (entry_offset m i, entry_length m i).

Definition regions (m : memory) (n : nat) : list region :=
  map (fun i => entry m (Z.of_nat i)) (seq 0 n).

Definition table_of (seg : ShmSegment) : list region :=
  regions (base_ seg) (Z.to_nat (num_allocs seg)).

(** ** The specification: first fit over a sorted list *)

Fixpoint first_fit (limit size prev : Z) (t : list region) : option (Z * list region) :=
  match t with
  | [] => if size <=? limit - prev then Some (prev, [(prev, size)]) else None
  | (o, l) :: t' =>
      if size <=? o - prev then Some (prev, (prev, size) :: t)
      else '(off, t'') ← first_fit limit size (o + l) t'; Some (off, (o, l) :: t'')
  end.

Fixpoint release (off : Z) (t : list region) : list region :=
  match t with
  | [] => []
  | (o, l) :: t' => if o =? off then t' else (o, l) :: release off t'
  end.

(** Sorted, non-empty, pairwise disjoint, between [lo] and [hi]. *)
Fixpoint regions_ok (lo hi : Z) (t : list region) : Prop :=
  match t with
  | [] => lo <= hi
  | (o, l) :: t' => lo <= o /\ 0 < l /\ regions_ok (o + l) hi t'
  end.

Record seg_wf (seg : ShmSegment) : Prop := {
  wf_size : size_ seg < 2 ^ 63;
  wf_count : num_allocs seg <= kShmMaxAllocs;
  wf_regions : regions_ok kShmHeaderSize (size_ seg) (table_of seg);
}.

(** Bytes [off, off + size) belong to the data region and to no live region. *)
Definition free_at (lo hi : Z) (t : list region) (off size : Z) : Prop :=
  lo <= off /\ off + size <= hi /\
  Forall (fun r => off + size <= r.1 \/ r.1 + r.2 <= off) t.

(** ** Facts on the specification *)

Lemma regions_ok_lo lo hi t : regions_ok lo hi t -> lo <= hi.
Proof.
  revert lo; induction t as [|[o l] t IH]; intros lo; simpl; [done|].
  intros (? & ? & H%IH). lia.
Qed.

Lemma regions_ok_weaken lo lo' hi t : lo' <= lo -> regions_ok lo hi t -> regions_ok lo' hi t.
Proof. destruct t as [|[o l] t]; simpl; intuition lia. Qed.

Lemma regions_ok_in lo hi t o l :
  regions_ok lo hi t -> (o, l) ∈ t -> lo <= o /\ 0 < l /\ o + l <= hi.
Proof.
  revert lo; induction t as [|[o' l'] t IH]; intros lo H Hin; [by apply not_elem_of_nil in Hin|].
  simpl in H. destruct H as (? & ? & H). apply elem_of_cons in Hin as [[= -> ->]|Hin].
  - pose proof (regions_ok_lo _ _ _ H). lia.
  - destruct (IH _ H Hin). lia.
Qed.

Lemma first_fit_ok limit size prev t off t' :
  0 < size -> regions_ok prev limit t -> first_fit limit size prev t = Some (off, t') ->
  regions_ok prev limit t' /\ prev <= off.
Proof.
  intros Hs. revert prev t'; induction t as [|[o l] t IH]; intros prev t' H; cbn [first_fit].
  - destruct (Z.leb_spec size (limit - prev)); [|done]. intros [= <- <-]. simpl in *. lia.
  - simpl in H. destruct H as (? & ? & H).
    destruct (Z.leb_spec size (o - prev)).
    + intros [= <- <-]. simpl. intuition lia.
    + destruct (first_fit limit size (o + l) t) as [[off'' t'']|] eqn:E; [|done].
      intros [= -> <-]. destruct (IH _ _ H E). simpl. intuition lia.
Qed.

(** The new table is the old one with the new region inserted. *)
Lemma first_fit_insert limit size prev t off t' :
  first_fit limit size prev t = Some (off, t') ->
  exists i, (i <= length t)%nat /\ t' = take i t ++ (off, size) :: drop i t.
Proof.
  revert prev t'; induction t as [|[o l] t IH]; intros prev t'; cbn [first_fit].
  - destruct (size <=? limit - prev); [|done]. intros [= -> <-]. by exists 0%nat.
  - destruct (size <=? o - prev).
    + intros [= -> <-]. exists 0%nat. split; [lia|done].
    + destruct (first_fit limit size (o + l) t) as [[off'' t'']|] eqn:E; [|done].
      intros [= -> <-]. destruct (IH _ _ E) as (i & ? & ->). exists (S i). simpl. split; [lia|done].
Qed.

Lemma first_fit_free limit size prev t off t' :
  0 < size -> regions_ok prev limit t -> first_fit limit size prev t = Some (off, t') ->
  free_at prev limit t off size.
Proof.
  intros Hs. revert prev t'; induction t as [|[o l] t IH]; intros prev t' H; cbn [first_fit].
  - destruct (Z.leb_spec size (limit - prev)); [|done]. intros [= <- <-].
    repeat split; [lia|lia|done].
  - simpl in H. destruct H as (? & ? & H).
    destruct (Z.leb_spec size (o - prev)).
    + intros [= <- <-]. pose proof (regions_ok_lo _ _ _ H).
      repeat split; [lia|lia|]. constructor; [simpl; lia|].
      apply Forall_forall. intros [o' l'] Hin.
      pose proof (regions_ok_in _ _ _ _ _ H Hin). simpl. lia.
    + destruct (first_fit limit size (o + l) t) as [[off'' t'']|] eqn:E; [|done].
      intros [= -> <-]. destruct (IH _ _ H E) as (? & ? & ?).
      repeat split; [lia|lia|]. constructor; [simpl; lia|done].
Qed.

(** It takes the lowest free address; it fails only when there is none. *)
Lemma first_fit_lowest limit size prev t a :
  0 < size -> regions_ok prev limit t -> free_at prev limit t a size ->
  exists off t', first_fit limit size prev t = Some (off, t') /\ off <= a.
Proof.
  intros Hs. revert prev; induction t as [|[o l] t IH]; intros prev H (Hlo & Hhi & Hall);
    cbn [first_fit].
  - rewrite (proj2 (Z.leb_le _ _)) by lia. eauto.
  - simpl in H. destruct H as (? & ? & H). apply Forall_cons in Hall as [Ho Hall]. simpl in Ho.
    destruct (Z.leb_spec size (o - prev)); [eauto|].
    destruct (IH _ H) as (off & t' & -> & ?); [|simpl; eauto].
    repeat split; [lia|lia|done].
Qed.

Lemma release_ok lo hi off t : regions_ok lo hi t -> regions_ok lo hi (release off t).
Proof.
  revert lo; induction t as [|[o l] t IH]; intros lo H; [done|].
  simpl in *. destruct H as (? & ? & H). destruct (o =? off); [|simpl; auto].
  apply regions_ok_weaken with (o + l); [lia|done].
Qed.

Lemma release_first_fit limit size prev t off t' :
  0 < size -> regions_ok prev limit t -> first_fit limit size prev t = Some (off, t') ->
  release off t' = t.
Proof.
  intros Hs. revert prev t'; induction t as [|[o l] t IH]; intros prev t' H; cbn [first_fit].
  - destruct (size <=? limit - prev); [|done]. intros [= <- <-]. simpl. by rewrite Z.eqb_refl.
  - simpl in H. destruct H as (? & ? & H).
    destruct (size <=? o - prev).
    + intros [= <- <-]. simpl. by rewrite Z.eqb_refl.
    + destruct (first_fit limit size (o + l) t) as [[off'' t'']|] eqn:E; [|done].
      intros [= -> <-]. destruct (first_fit_ok _ _ _ _ _ _ Hs H E) as [Ht'' ?]. simpl.
      rewrite (proj2 (Z.eqb_neq _ _)) by lia. f_equal. by eapply IH.
Qed.

(** ** The bytes of the table *)

Lemma regions_length m n : length (regions m n) = n.
Proof. unfold regions. by rewrite length_map, length_seq. Qed.

Lemma regions_lookup m n i :
  (i < n)%nat -> regions m n !! i = Some (entry m (Z.of_nat i)).
Proof.
  intros. unfold regions. rewrite list_lookup_fmap, lookup_seq_lt by done. done.
Qed.

Lemma regions_ext m m' n :
  (forall i, 0 <= i < Z.of_nat n -> entry m i = entry m' i) -> regions m n = regions m' n.
Proof. intros H. apply map_ext_in. intros i Hi%in_seq. apply H. lia. Qed.

Lemma entry_ext m m' i j :
  (forall k, 0 <= k < 16 -> peek m (entry_addr i + k) = peek m' (entry_addr j + k)) ->
  entry m i = entry m' j.
Proof.
  intros H. unfold entry, entry_offset, entry_length. f_equal; apply load_u64_ext; intros k Hk.
  - apply H. lia.
  - rewrite <- !Z.add_assoc. apply H. lia.
Qed.

Ltac table_addr :=
  unfold entry_addr, table, kShmHeaderStructSize, kShmAllocStructSize, kShmMaxAllocs,
    kShmHeaderSize in *; try lia.

Lemma num_allocs_range seg : in_u32 (num_allocs seg).
Proof. apply load_u32_range. Qed.

(** [insert_at] writes the count and the entries from [index] on. *)
Lemma peek_insert_at m count size index off x :
  0 <= index <= count ->
  x < 16 \/ 20 <= x < entry_addr index \/ entry_addr (count + 1) <= x ->
  peek (insert_at m count size index off) x = peek m x.
Proof.
  intros Hi Hx. unfold insert_at, set_num_allocs.
  by rewrite peek_store_u32, peek_store_u64, peek_store_u64, peek_memmove_out by table_addr.
Qed.

Lemma insert_at_count m count size index off :
  0 <= index <= count -> count < kShmMaxAllocs ->
  load_u32 (insert_at m count size index off) 16 = count + 1.
Proof.
  intros Hi Hc. assert (kShmMaxAllocs = 4094) as EM by done.
  unfold insert_at, set_num_allocs.
  rewrite load_store_u32 by apply u32_range. apply u32_small. unfold in_u32. lia.
Qed.

Lemma insert_at_entry m count size index off j :
  0 <= index <= count -> 0 <= j <= count -> in_u64 off ->
  entry (insert_at m count size index off) j =
    if j <? index then entry m j
    else if j =? index then (off, u64 size) else entry m (j - 1).
Proof.
  intros Hi Hj Hoff. unfold insert_at, set_num_allocs.
  destruct (Z.ltb_spec j index); [|destruct (Z.eqb_spec j index) as [->|]].
  - apply entry_ext. intros k Hk.
    by rewrite peek_store_u32, peek_store_u64, peek_store_u64, peek_memmove_out by table_addr.
  - unfold entry, entry_offset, entry_length.
    rewrite !load_u64_store_u32_out by table_addr.
    rewrite load_store_u64 by apply u64_range.
    rewrite load_u64_store_u64_out by table_addr. by rewrite load_store_u64.
  - apply entry_ext. intros k Hk.
    rewrite peek_store_u32, peek_store_u64, peek_store_u64, peek_memmove_in by table_addr.
    f_equal. table_addr.
Qed.

Lemma insert_at_regions m n i size off :
  (i <= n)%nat -> in_u64 off ->
  regions (insert_at m (Z.of_nat n) size (Z.of_nat i) off) (S n) =
    take i (regions m n) ++ (off, u64 size) :: drop i (regions m n).
Proof.
  intros Hi Hoff. apply list_eq_same_length with (S n).
  - rewrite length_app. cbn [length]. rewrite length_take, length_drop, regions_length. lia.
  - apply regions_length.
  - intros j x y Hj. rewrite regions_lookup by done. rewrite insert_at_entry by lia || done.
    intros [= <-] Hy. destruct (Z.ltb_spec (Z.of_nat j) (Z.of_nat i)).
    + rewrite lookup_app_l, lookup_take_lt, regions_lookup in Hy
        by (rewrite ?length_take, ?regions_length; lia). by injection Hy as <-.
    + rewrite lookup_app_r, length_take, regions_length in Hy
        by (rewrite length_take, regions_length; lia).
      replace (i `min` n)%nat with i in Hy by lia.
      destruct (Z.eqb_spec (Z.of_nat j) (Z.of_nat i)).
      * replace (j - i)%nat with 0%nat in Hy by lia. by injection Hy as <-.
      * replace (j - i)%nat with (S (j - i - 1)) in Hy by lia.
        change (drop i (regions m n) !! (j - i - 1)%nat = Some y) in Hy.
        rewrite lookup_drop, regions_lookup in Hy by lia. injection Hy as <-. f_equal. lia.
Qed.

(** [free_alloc] closes the gap the other way. *)
Definition remove_at (m : memory) (count i : Z) : memory :=
  set_num_allocs (memmove m (entry_addr i) (entry_addr (i + 1))
    ((count - i - 1) * kShmAllocStructSize)) (u32 (count - 1)).

Lemma peek_remove_at m count i x :
  0 <= i < count -> x < 16 \/ 20 <= x < entry_addr i \/ entry_addr count <= x ->
  peek (remove_at m count i) x = peek m x.
Proof.
  intros Hi Hx. unfold remove_at, set_num_allocs.
  by rewrite peek_store_u32, peek_memmove_out by table_addr.
Qed.

Lemma remove_at_count m count i :
  0 <= i < count -> count <= kShmMaxAllocs -> load_u32 (remove_at m count i) 16 = count - 1.
Proof.
  intros Hi Hc. assert (kShmMaxAllocs = 4094) as EM by done.
  unfold remove_at, set_num_allocs.
  rewrite load_store_u32 by apply u32_range. apply u32_small. unfold in_u32. lia.
Qed.

Lemma remove_at_entry m count i j :
  0 <= i < count -> 0 <= j < count - 1 ->
  entry (remove_at m count i) j = if j <? i then entry m j else entry m (j + 1).
Proof.
  intros Hi Hj. unfold remove_at, set_num_allocs.
  destruct (Z.ltb_spec j i); apply entry_ext; intros k Hk.
  - by rewrite peek_store_u32, peek_memmove_out by table_addr.
  - rewrite peek_store_u32, peek_memmove_in by table_addr. f_equal. table_addr.
Qed.

Lemma remove_at_regions m n i :
  (i < n)%nat ->
  regions (remove_at m (Z.of_nat n) (Z.of_nat i)) (n - 1) =
    take i (regions m n) ++ drop (S i) (regions m n).
Proof.
  intros Hi. apply list_eq_same_length with (n - 1)%nat.
  - rewrite length_app, length_take, length_drop, regions_length. lia.
  - apply regions_length.
  - intros j x y Hj. rewrite regions_lookup by done. rewrite remove_at_entry by lia.
    intros [= <-] Hy. destruct (Z.ltb_spec (Z.of_nat j) (Z.of_nat i)).
    + rewrite lookup_app_l, lookup_take_lt, regions_lookup in Hy
        by (rewrite ?length_take, ?regions_length; lia). by injection Hy as <-.
    + rewrite lookup_app_r, length_take, regions_length in Hy
        by (rewrite length_take, regions_length; lia).
      replace (i `min` n)%nat with i in Hy by lia.
      rewrite lookup_drop, regions_lookup in Hy by lia. injection Hy as <-. f_equal. lia.
Qed.

(** ** The loops over the table *)

Fixpoint regions_from (m : memory) (i : Z) (n : nat) : list region :=
  match n with
  | O => []
  | S n' => entry m i :: regions_from m (i + 1) n'
  end.

Lemma regions_from_spec m i n :
  regions_from m i n = map (fun k => entry m (i + Z.of_nat k)) (seq 0 n).
Proof.
  revert i; induction n as [|n IH]; intros i; [done|]. cbn [regions_from seq map].
  rewrite Z.add_0_r, IH, <- seq_shift, map_map. f_equal.
  apply map_ext. intros k. f_equal. lia.
Qed.

Lemma regions_from_0 m n : regions m n = regions_from m 0 n.
Proof. by rewrite regions_from_spec. Qed.

Lemma alloc_scan_spec m size limit n i prev :
  0 < size < 2 ^ 63 -> limit < 2 ^ 63 -> 0 <= prev -> regions_ok prev limit (regions_from m i n) ->
  match alloc_scan m size n i prev with
  | inl (k, p) => exists d, k = i + Z.of_nat d /\ (d < n)%nat /\ prev <= p < 2 ^ 63 /\
      first_fit limit size prev (regions_from m i n) =
        Some (p, take d (regions_from m i n) ++ (p, size) :: drop d (regions_from m i n))
  | inr p => prev <= p <= limit /\
      first_fit limit size prev (regions_from m i n) =
        if size <=? limit - p then Some (p, regions_from m i n ++ [(p, size)]) else None
  end.
Proof.
  intros Hs Hlim. revert i prev; induction n as [|n IH]; intros i prev Hprev H;
    cbn [alloc_scan regions_from first_fit] in *.
  { simpl in H. split; [lia|]. by destruct (size <=? limit - prev). }
  unfold entry in H |- *. cbn [first_fit regions_ok] in *. destruct H as (Hlo & Hlen & H).
  pose proof (regions_ok_lo _ _ _ H) as Hend.
  rewrite (proj2 (Z.leb_le _ _) Hlo), (u64_small size) by (unfold in_u64; lia). cbn [andb].
  destruct (Z.leb_spec size (entry_offset m i - prev)).
  - exists 0%nat. split; [lia|]. split; [lia|]. split; [lia|]. done.
  - rewrite (u64_small (_ + _)) by (unfold in_u64; lia).
    specialize (IH (i + 1) (entry_offset m i + entry_length m i) ltac:(lia) H).
    destruct (alloc_scan _ _ _ _ _) as [[k p]|p].
    + destruct IH as (d & -> & ? & ? & ->). exists (S d). split; [lia|].
      split; [lia|]. split; [lia|]. done.
    + destruct IH as [? ->]. split; [lia|]. by destruct (size <=? limit - p).
Qed.

Lemma free_scan_spec m off n i :
  in_i64 off -> Forall (fun r => 0 <= r.1 < 2 ^ 63) (regions_from m i n) ->
  match free_scan m off n i with
  | Some k => exists d, k = i + Z.of_nat d /\ (d < n)%nat /\
      release off (regions_from m i n) =
        take d (regions_from m i n) ++ drop (S d) (regions_from m i n)
  | None => release off (regions_from m i n) = regions_from m i n
  end.
Proof.
  intros Hoff. revert i; induction n as [|n IH]; intros i H; cbn [free_scan regions_from] in *; [done|].
  apply Forall_cons in H as [Hi H]. simpl in Hi.
  change (load_u64 m (entry_addr i)) with (entry_offset m i).
  unfold entry at 1 2 3 4. cbn [release].
  assert ((entry_offset m i =? u64 off) = (entry_offset m i =? off)) as ->.
  { unfold in_i64, u64 in *. destruct (Z.lt_ge_cases off 0).
    - replace (off mod 2 ^ 64) with (off + 2 ^ 64).
      + destruct (Z.eqb_spec (entry_offset m i) (off + 2 ^ 64)),
          (Z.eqb_spec (entry_offset m i) off); try done; lia.
      + rewrite <- (Z.mod_add off 1) by lia. rewrite Z.mod_small; lia.
    - by rewrite Z.mod_small by lia. }
  destruct (entry_offset m i =? off).
  - exists 0%nat. split; [lia|]. split; [lia|]. done.
  - specialize (IH (i + 1) H). destruct (free_scan _ _ _ _) as [k|].
    + destruct IH as (d & -> & ? & ->). exists (S d). split; [lia|]. split; [lia|]. done.
    + by rewrite IH.
Qed.

(** ** Refinement *)

(** What the operations leave alone: the mapping's size and name, the header
    before the table (the count apart) and the whole data region. *)
Definition same_frame (seg seg' : ShmSegment) : Prop :=
  size_ seg' = size_ seg /\ name_ seg' = name_ seg /\ owned_ seg' = owned_ seg /\
  forall a, a < 16 \/ 20 <= a < table \/ kShmHeaderSize <= a ->
    peek (base_ seg') a = peek (base_ seg) a.

Definition allocate_spec (limit size : Z) (t : list region) : list region * option Z :=
  if size <=? 0 then (t, None)
  else if kShmMaxAllocs <=? blen t then (t, None)
  else match first_fit limit size kShmHeaderSize t with
       | Some (off, t') => (t', Some off)
       | None => (t, None)
       end.

Lemma same_frame_refl seg : same_frame seg seg.
Proof. done. Qed.

Lemma table_of_length seg : blen (table_of seg) = num_allocs seg.
Proof.
  unfold table_of. rewrite regions_length. pose proof (num_allocs_range seg) as H.
  unfold in_u32 in H. lia.
Qed.

Lemma table_of_with_base seg m :
  table_of (with_base seg m) = regions m (Z.to_nat (load_u32 m 16)).
Proof. done. Qed.

Lemma regions_table_of seg : regions (base_ seg) (length (table_of seg)) = table_of seg.
Proof. unfold table_of at 1. by rewrite regions_length. Qed.

(** Writing a new entry at position [d] of a table with room. *)
Lemma insert_at_table seg size d off :
  num_allocs seg < kShmMaxAllocs -> (d <= length (table_of seg))%nat ->
  0 < size < 2 ^ 63 -> in_u64 off ->
  let seg' := with_base seg (insert_at (base_ seg) (num_allocs seg) size (Z.of_nat d) off) in
  same_frame seg seg' /\
  table_of seg' = take d (table_of seg) ++ (off, size) :: drop d (table_of seg).
Proof.
  intros Hc Hd Hs Hoff seg'. pose proof (table_of_length seg) as Hlen.
  assert (kShmMaxAllocs = 4094) as EM by done.
  split.
  - repeat split. intros a Ha. cbn [seg' base_ with_base]. apply peek_insert_at; [lia|]. table_addr.
  - subst seg'. rewrite table_of_with_base, insert_at_count by lia. replace (Z.to_nat (num_allocs seg + 1))
      with (S (length (table_of seg))) by lia.
    rewrite <- Hlen. rewrite insert_at_regions by done.
    rewrite (u64_small size) by (unfold in_u64; lia).
    by rewrite regions_table_of.
Qed.

Lemma seg_wf_regions seg t :
  size_ seg < 2 ^ 63 -> table_of seg = t -> blen t <= kShmMaxAllocs ->
  regions_ok kShmHeaderSize (size_ seg) t -> seg_wf seg.
Proof.
  intros ? <- ? ?. pose proof (table_of_length seg). constructor; [done|lia|done].
Qed.

Lemma first_fit_length limit size prev t off t' :
  first_fit limit size prev t = Some (off, t') -> length t' = S (length t).
Proof.
  intros (i & ? & ->)%first_fit_insert. rewrite length_app. cbn [length].
  rewrite length_take, length_drop. lia.
Qed.

(** The whole behaviour of [allocate], as the specification has it. *)
Lemma allocate_sound seg size :
  seg_wf seg -> in_i64 size ->
  let '(seg', r) := allocate seg size in
  same_frame seg seg' /\ (table_of seg', r) = allocate_spec (size_ seg) size (table_of seg).
Proof.
  intros [Hsz Hcnt Hreg] Hs. unfold allocate, allocate_spec, in_i64 in *.
  destruct (Z.leb_spec size 0); [done|]. rewrite table_of_length.
  destruct (Z.leb_spec kShmMaxAllocs (num_allocs seg)); [done|].
  pose proof (table_of_length seg) as Hlen.
  assert (table_of seg = regions_from (base_ seg) 0 (Z.to_nat (num_allocs seg))) as ET
    by apply regions_from_0.
  rewrite ET in Hreg.
  pose proof (alloc_scan_spec (base_ seg) size (size_ seg) _ 0 kShmHeaderSize
    ltac:(lia) Hsz ltac:(done) Hreg) as Hscan.
  rewrite <- ET in Hscan. assert (0 <= kShmHeaderSize) by done.
  destruct (alloc_scan _ _ _ _ _) as [[k p]|p].
  - destruct Hscan as (d & -> & Hd & Hp & ->). rewrite Z.add_0_l.
    rewrite i64_small by (unfold in_i64; lia).
    destruct (insert_at_table seg size d p) as [Hf Ht]; [lia|lia|lia|unfold in_u64; lia|].
    split; [done|]. by rewrite Ht.
  - destruct Hscan as [Hp ->].
    assert (((p <? size_ seg) && (u64 size <=? size_ seg - p)) = (size <=? size_ seg - p)) as ->.
    { rewrite u64_small by (unfold in_u64; lia).
      destruct (Z.ltb_spec p (size_ seg)), (Z.leb_spec size (size_ seg - p)); try done; lia. }
    destruct (Z.leb_spec size (size_ seg - p)); [|done].
    rewrite i64_small by (unfold in_i64; lia).
    destruct (insert_at_table seg size (length (table_of seg)) p) as [Hf Ht];
      [lia|lia|lia|unfold in_u64; lia|].
    rewrite Hlen, firstn_all, drop_all in Ht. rewrite Hlen in Hf.
    split; [done|]. by rewrite Ht.
Qed.

Lemma allocate_wf seg size :
  seg_wf seg -> in_i64 size -> seg_wf (allocate seg size).1.
Proof.
  intros Hwf Hs. pose proof (allocate_sound seg size Hwf Hs) as H.
  destruct (allocate seg size) as [seg' r]. destruct H as [(Esz & _) Ht]. cbn [fst].
  destruct Hwf as [Hsz Hcnt Hreg]. unfold allocate_spec in Ht.
  pose proof (table_of_length seg) as Hlen.
  apply seg_wf_regions with (table_of seg'); [by rewrite Esz|done|..];
    repeat case_match; bool_to_prop; simplify_eq; rewrite ?Esz; try congruence; try lia.
  all: match goal with H : first_fit _ _ _ _ = Some _ |- _ =>
    pose proof (first_fit_length _ _ _ _ _ _ H); pose proof (first_fit_ok _ _ _ _ _ _ ltac:(done) Hreg H) end.
  - lia.
  - tauto.
Qed.

Lemma free_alloc_remove_at seg off :
  free_alloc seg off =
    match free_scan (base_ seg) off (Z.to_nat (num_allocs seg)) 0 with
    | None => seg
    | Some i => with_base seg (remove_at (base_ seg) (num_allocs seg) i)
    end.
Proof. done. Qed.

Lemma seg_wf_offsets seg :
  seg_wf seg -> Forall (fun r => 0 <= r.1 < 2 ^ 63) (table_of seg).
Proof.
  intros [Hsz _ Hreg]. apply Forall_forall. intros [o l] Hin.
  pose proof (regions_ok_in _ _ _ _ _ Hreg Hin). assert (0 <= kShmHeaderSize) by done.
  simpl. lia.
Qed.

(** [free_alloc] releases the region that starts at the offset, if there is one. *)
Lemma free_sound seg off :
  seg_wf seg -> in_i64 off ->
  same_frame seg (free_alloc seg off) /\
  table_of (free_alloc seg off) = release off (table_of seg).
Proof.
  intros Hwf Hoff. pose proof (seg_wf_offsets _ Hwf) as Hall. rewrite free_alloc_remove_at.
  pose proof (table_of_length seg) as Hlen. pose proof (wf_count _ Hwf) as Hc.
  assert (kShmMaxAllocs = 4094) as EM by done.
  assert (table_of seg = regions_from (base_ seg) 0 (Z.to_nat (num_allocs seg))) as ET
    by apply regions_from_0.
  rewrite ET in Hall. pose proof (free_scan_spec (base_ seg) off _ 0 Hoff Hall) as Hscan.
  rewrite <- ET in Hscan.
  destruct (free_scan _ _ _ _) as [i|]; [|by rewrite Hscan].
  destruct Hscan as (d & -> & Hd & ->). rewrite Z.add_0_l. split.
  - repeat split. intros a Ha. cbn [base_ with_base]. apply peek_remove_at; [lia|]. table_addr.
  - rewrite table_of_with_base, remove_at_count by lia. rewrite <- Hlen.
    replace (Z.to_nat (blen (table_of seg) - 1)) with (length (table_of seg) - 1)%nat by lia.
    rewrite remove_at_regions by lia. by rewrite regions_table_of.
Qed.

Lemma release_length off t : (length (release off t) <= length t)%nat.
Proof.
  induction t as [|[o l] t IH]; simpl; [lia|]. destruct (o =? off); simpl; lia.
Qed.

Lemma free_wf seg off : seg_wf seg -> in_i64 off -> seg_wf (free_alloc seg off).
Proof.
  intros Hwf Hoff. destruct (free_sound seg off Hwf Hoff) as [(Esz & _) Ht].
  destruct Hwf as [Hsz Hcnt Hreg]. pose proof (table_of_length seg).
  pose proof (release_length off (table_of seg)).
  apply seg_wf_regions with (release off (table_of seg)); rewrite ?Esz; auto using release_ok.
  lia.
Qed.

Lemma reset_sound seg : same_frame seg (reset seg) /\ table_of (reset seg) = [].
Proof.
  split.
  - repeat split. intros a Ha. cbn [base_ with_base reset]. unfold set_num_allocs.
    rewrite peek_store_u32; [done|]. table_addr.
  - unfold table_of, num_allocs, reset, set_num_allocs. cbn [base_ with_base].
    by rewrite load_store_u32.
Qed.

Lemma reset_wf seg : seg_wf seg -> seg_wf (reset seg).
Proof.
  intros [Hsz Hcnt Hreg]. destruct (reset_sound seg) as [(Esz & _) Ht].
  apply seg_wf_regions with []; rewrite ?Esz; [done|done|done|].
  exact (regions_ok_lo _ _ _ Hreg).
Qed.

(** ** A run of the allocator *)

Inductive shm_op :=
  | OpAllocate (size : Z)
  | OpFree (offset : Z)
  | OpReset.

Definition op_in_range (op : shm_op) : Prop :=
  match op with OpAllocate size => in_i64 size | OpFree off => in_i64 off | OpReset => True end.

Definition shm_step (seg : ShmSegment) (op : shm_op) : ShmSegment * option Z :=
  match op with
  | OpAllocate size => allocate seg size
  | OpFree off => (free_alloc seg off, None)
  | OpReset => (reset seg, None)
  end.

Fixpoint shm_run (seg : ShmSegment) (ops : list shm_op) : ShmSegment * list (option Z) :=
  match ops with
  | [] => (seg, [])
  | op :: ops' =>
      let '(seg, r) := shm_step seg op in
      let '(seg, rs) := shm_run seg ops' in (seg, r :: rs)
  end.

Definition spec_step (limit : Z) (t : list region) (op : shm_op) : list region * option Z :=
  match op with
  | OpAllocate size => allocate_spec limit size t
  | OpFree off => (release off t, None)
  | OpReset => ([], None)
  end.

Fixpoint spec_run (limit : Z) (t : list region) (ops : list shm_op)
    : list region * list (option Z) :=
  match ops with
  | [] => (t, [])
  | op :: ops' =>
      let '(t, r) := spec_step limit t op in
      let '(t, rs) := spec_run limit t ops' in (t, r :: rs)
  end.

Lemma shm_step_sound seg op :
  seg_wf seg -> op_in_range op ->
  same_frame seg (shm_step seg op).1 /\ seg_wf (shm_step seg op).1 /\
  (table_of (shm_step seg op).1, (shm_step seg op).2) =
    spec_step (size_ seg) (table_of seg) op.
Proof.
  intros Hwf Hop. destruct op as [size|off|]; cbn [shm_step spec_step op_in_range fst snd] in *.
  - pose proof (allocate_sound seg size Hwf Hop) as H.
    pose proof (allocate_wf seg size Hwf Hop) as H'.
    destruct (allocate seg size) as [seg' r]. destruct H as [? ?]. done.
  - destruct (free_sound seg off Hwf Hop) as [Hf ->]. auto using free_wf.
  - destruct (reset_sound seg) as [Hf ->]. auto using reset_wf.
Qed.

Lemma same_frame_trans s1 s2 s3 : same_frame s1 s2 -> same_frame s2 s3 -> same_frame s1 s3.
Proof.
  intros (E1 & E2 & E3 & H1) (F1 & F2 & F3 & H2). repeat split; try congruence.
  intros a Ha. rewrite H2, H1; done.
Qed.

(** C32: the byte-level allocator implements first fit.  Run any sequence of
    [allocate], [free_alloc] and [reset] on a well-formed segment: every result
    is the one first fit over the list of live regions gives, the table then
    holds exactly that list, sorted, disjoint and inside the data region, and
    no byte outside the table and its count has changed. *)
Theorem shm_run_refines_first_fit seg ops :
  seg_wf seg -> Forall op_in_range ops ->
  let '(seg', rs) := shm_run seg ops in
  same_frame seg seg' /\ seg_wf seg' /\
  (table_of seg', rs) = spec_run (size_ seg) (table_of seg) ops.
Proof.
  intros Hwf Hops. revert seg Hwf; induction Hops as [|op ops Hop Hops IH]; intros seg Hwf.
  { by cbn. }
  cbn [shm_run spec_run]. destruct (shm_step_sound seg op Hwf Hop) as (Hf & Hwf' & <-).
  destruct (shm_step seg op) as [seg1 r]. cbn [fst snd] in *.
  specialize (IH seg1 Hwf'). destruct (shm_run seg1 ops) as [seg2 rs].
  destruct IH as (Hf2 & Hwf2 & IH). split; [by eapply same_frame_trans|]. split; [done|].
  rewrite (proj1 Hf) in IH. by rewrite <- IH.
Qed.

(** [allocate] returns an address exactly when the request is positive, the
    table has room and some address has that many free bytes; the address is
    then free, the lowest such address, and the region is live afterwards. *)
Theorem allocate_lowest_free seg size :
  seg_wf seg -> in_i64 size ->
  let t := table_of seg in
  match (allocate seg size).2 with
  | Some off =>
      0 < size /\ blen t < kShmMaxAllocs /\
      free_at kShmHeaderSize (size_ seg) t off size /\
      (forall a, free_at kShmHeaderSize (size_ seg) t a size -> off <= a) /\
      (off, size) ∈ table_of (allocate seg size).1
  | None =>
      size <= 0 \/ kShmMaxAllocs <= blen t \/
      forall a, ~ free_at kShmHeaderSize (size_ seg) t a size
  end.
Proof.
  intros Hwf Hs t. pose proof (allocate_sound seg size Hwf Hs) as H.
  destruct (allocate seg size) as [seg' r]. destruct H as [_ H]. cbn [fst snd].
  unfold allocate_spec in H. fold t in H. pose proof (wf_regions _ Hwf) as Hreg. fold t in Hreg.
  destruct (Z.leb_spec size 0); [injection H as _ ->; auto|].
  destruct (Z.leb_spec kShmMaxAllocs (blen t)); [injection H as _ ->; auto|].
  destruct (first_fit _ _ _ _) as [[off t']|] eqn:E; injection H as Ht ->.
  - split; [done|]. split; [done|]. split; [by eapply first_fit_free|]. split.
    + intros a Ha. destruct (first_fit_lowest _ _ _ _ _ ltac:(done) Hreg Ha) as (? & ? & E' & ?).
      by simplify_eq.
    + rewrite Ht. apply first_fit_insert in E as (i & _ & ->). set_solver.
  - right; right. intros a Ha.
    destruct (first_fit_lowest _ _ _ _ _ ltac:(done) Hreg Ha) as (? & ? & E' & ?). congruence.
Qed.

(** freeing what [allocate] returned restores the table, whatever the
    segment's other regions. *)
Theorem free_after_allocate seg size seg' off :
  seg_wf seg -> in_i64 size -> allocate seg size = (seg', Some off) ->
  table_of (free_alloc seg' off) = table_of seg.
Proof.
  intros Hwf Hs E. pose proof (allocate_sound seg size Hwf Hs) as H.
  pose proof (allocate_wf seg size Hwf Hs) as Hwf'. rewrite E in H, Hwf'. cbn [fst] in Hwf'.
  destruct H as [_ H]. unfold allocate_spec in H. pose proof (wf_regions _ Hwf) as Hreg.
  destruct (Z.leb_spec size 0); [done|]. destruct (kShmMaxAllocs <=? _); [done|].
  destruct (first_fit _ _ _ _) as [[p t']|] eqn:Eff; [|done]. injection H as Ht ->.
  destruct (first_fit_free _ _ _ _ _ _ ltac:(done) Hreg Eff) as (Hlo & Hhi & _).
  destruct (free_sound seg' p Hwf') as [_ ->].
  - pose proof (wf_size _ Hwf). assert (0 <= kShmHeaderSize) by done. unfold in_i64. lia.
  - rewrite Ht. by eapply release_first_fit.
Qed.

(** ** [create], [attach] and [read] *)

Lemma init_header_magic m actual : read_mem (init_header m actual) 0 4 = kMagic.
Proof.
  unfold init_header, store_u32, store_u64.
  rewrite !read_write_out by (rewrite le_encode_length; lia).
  exact (read_write_same m 0 kMagic).
Qed.

Lemma init_header_version m actual : load_u32 (init_header m actual) 4 = kShmVersion.
Proof.
  unfold init_header.
  rewrite !load_u32_store_u32_out, load_u32_store_u64_out by lia. by rewrite load_store_u32.
Qed.

Lemma init_header_data_size m actual :
  load_u64 (init_header m actual) 8 = u64 (actual - kShmHeaderSize).
Proof.
  unfold init_header. rewrite !load_u64_store_u32_out by lia.
  apply load_store_u64, u64_range.
Qed.

Lemma init_header_count m actual : load_u32 (init_header m actual) 16 = 0.
Proof.
  unfold init_header. rewrite load_u32_store_u32_out by lia. by rewrite load_store_u32.
Qed.

(** The header survives every operation on the table. *)
Lemma same_frame_header seg seg' :
  same_frame seg seg' ->
  read_mem (base_ seg') 0 4 = read_mem (base_ seg) 0 4 /\
  load_u32 (base_ seg') 4 = load_u32 (base_ seg) 4 /\
  load_u64 (base_ seg') 8 = load_u64 (base_ seg) 8.
Proof.
  intros (_ & _ & _ & H). split_and!.
  - apply read_mem_ext. intros i Hi. apply H. lia.
  - apply load_u32_ext. intros i Hi. apply H. lia.
  - apply load_u64_ext. intros i Hi. apply H. lia.
Qed.

Lemma create_ok posix name size seg :
  create posix name size = Some seg ->
  let os := posix (shm_path name) in
  exists m, mapping os = Some m /\ base_ seg = init_header m (actual_size os size) /\
    size_ seg = actual_size os size /\ name_ seg = name.
Proof.
  unfold create. intros H. repeat case_match; simplify_eq. eauto.
Qed.

Lemma create_wf posix name size seg :
  create posix name size = Some seg ->
  kShmHeaderSize <= actual_size (posix (shm_path name)) size < 2 ^ 63 ->
  seg_wf seg /\ table_of seg = [].
Proof.
  intros (m & _ & Eb & Es & _)%create_ok Hsz.
  assert (table_of seg = []) as Et.
  { unfold table_of, num_allocs. by rewrite Eb, init_header_count. }
  split; [|done]. apply seg_wf_regions with []; rewrite ?Es; [lia|done|done|simpl; lia].
Qed.

Lemma shm_run_sound seg ops :
  seg_wf seg -> Forall op_in_range ops ->
  same_frame seg (shm_run seg ops).1 /\ seg_wf (shm_run seg ops).1.
Proof.
  intros Hwf Hops. revert seg Hwf; induction Hops as [|op ops Hop Hops IH]; intros seg Hwf; [done|].
  cbn [shm_run]. destruct (shm_step_sound seg op Hwf Hop) as (Hf & Hwf' & _).
  destruct (shm_step seg op) as [seg1 r]. cbn [fst] in *. specialize (IH seg1 Hwf').
  destruct (shm_run seg1 ops) as [seg2 rs]. cbn [fst] in *. destruct IH as [Hf2 Hwf2].
  split; [by eapply same_frame_trans|done].
Qed.

(** A peer that attaches to a segment, at any moment of its life, sees the
    creator's table.  The creator maps a segment of at least the requested
    size and runs any allocations and frees; a peer whose [shm_open], [fstat]
    and [mmap] reach the same bytes attaches successfully, whatever size hint
    it was given, to a well-formed segment with the same live regions. *)
Theorem attach_sees_creator posix posix' name name' size hint seg ops :
  create posix name size = Some seg ->
  size <= actual_size (posix (shm_path name)) size < 2 ^ 63 ->
  Forall op_in_range ops ->
  opens (posix' (shm_path name')) = true ->
  st_size (posix' (shm_path name')) = Some (size_ seg) ->
  mapping (posix' (shm_path name')) = Some (base_ (shm_run seg ops).1) ->
  exists peer, attach posix' name' hint = Some peer /\
    seg_wf peer /\ table_of peer = table_of (shm_run seg ops).1 /\
    size_ peer = size_ seg /\ owned_ peer = false.
Proof.
  intros Hc Hsz Hops Hopen Hst Hmap.
  assert (kShmHeaderSize < size) as Hlt.
  { unfold create in Hc. destruct (Z.leb_spec size kShmHeaderSize); [done|lia]. }
  destruct (create_wf _ _ _ _ Hc) as [Hwf _]; [lia|].
  destruct (create_ok _ _ _ _ Hc) as (m & _ & Eb & Es & _).
  destruct (shm_run_sound seg ops Hwf Hops) as [Hf Hwf'].
  destruct (same_frame_header _ _ Hf) as (E1 & E2 & E3).
  assert (0 < kShmHeaderSize) by done.
  assert (actual_size (posix' (shm_path name')) hint = size_ seg) as Ea.
  { unfold actual_size at 1. rewrite Hst, Es. by rewrite (proj2 (Z.ltb_lt _ _)) by lia. }
  unfold attach. rewrite Hopen, Ea, Hmap, E1, E2, E3, Eb.
  rewrite init_header_magic, init_header_version, init_header_data_size, Es.
  rewrite bool_decide_eq_true_2, !Z.eqb_refl by done. cbn [negb orb].
  rewrite (proj2 (Z.leb_gt _ _)) by lia.
  eexists. split; [done|]. split; [|done].
  assert (size_ (shm_run seg ops).1 = actual_size (posix (shm_path name)) size) as Es' by (rewrite <- Es; apply Hf).
  destruct Hwf' as [H1 H2 H3]. rewrite Es' in *. by constructor.
Qed.

(** [read] returns bytes exactly for a range inside the data region and the
    mapping; its unsigned sum never wraps. *)
Theorem read_in_bounds seg offset length bs :
  in_i64 offset -> in_i64 length -> 0 <= size_ seg < 2 ^ 64 ->
  read seg offset length = Ok bs <->
  kShmHeaderSize <= offset /\ 0 <= length /\ offset + length <= size_ seg /\
  bs = read_mem (base_ seg) offset (Z.to_nat length).
Proof.
  intros Ho Hl Hs. unfold read, in_i64 in *. assert (0 <= kShmHeaderSize) by done.
  destruct (Z.ltb_spec offset kShmHeaderSize); cbn [orb]; [split; [done|lia]|].
  destruct (Z.ltb_spec length 0); cbn [orb]; [split; [done|lia]|].
  rewrite (u64_small offset), (u64_small length), u64_small by (unfold in_u64; lia).
  destruct (Z.ltb_spec (size_ seg) (offset + length)); [split; [done|lia]|].
  split; [intros [= <-]; auto|]. intros (_ & _ & _ & ->). done.
Qed.

(** A write inside the data region leaves the table alone, and a write inside
    one region leaves the bytes of a disjoint one alone. *)
Lemma write_data_table seg off bs :
  kShmHeaderSize <= off -> num_allocs seg <= kShmMaxAllocs ->
  table_of (with_base seg (write_mem (base_ seg) off bs)) = table_of seg /\
  num_allocs (with_base seg (write_mem (base_ seg) off bs)) = num_allocs seg.
Proof.
  intros Ho Hc. assert (kShmMaxAllocs = 4094) as EM by done.
  assert (num_allocs (with_base seg (write_mem (base_ seg) off bs)) = num_allocs seg) as En.
  { apply load_u32_ext. intros i Hi. apply peek_write_out. table_addr. }
  split; [|done]. unfold table_of. rewrite En. apply regions_ext. intros i Hi. apply entry_ext.
  intros k Hk. apply peek_write_out. table_addr.
Qed.

Lemma write_data_wf seg off bs :
  kShmHeaderSize <= off -> seg_wf seg ->
  seg_wf (with_base seg (write_mem (base_ seg) off bs)).
Proof.
  intros Ho [H1 H2 H3]. destruct (write_data_table seg off bs Ho H2) as [Et En].
  constructor; [done|by rewrite En|by rewrite Et].
Qed.

(** ** Witnesses: a 66,000-byte segment *)

Definition demo_os : PosixShm :=
  {| opens := true; truncates := true; st_size := Some 66000; mapping := Some ∅ |}.

Definition demo_segment : ShmSegment :=
  {| base_ := init_header ∅ 66000; size_ := 66000; name_ := str "vgi-demo"; owned_ := true |}.

Definition demo_ops : list shm_op :=
  [OpAllocate 100; OpAllocate 300; OpFree 65536; OpAllocate 60; OpAllocate 65; OpAllocate 0].

Lemma demo_create : create (fun _ => demo_os) (str "vgi-demo") 66000 = Some demo_segment.
Proof. reflexivity. Qed.

Lemma demo_wf : seg_wf demo_segment.
Proof. apply (create_wf _ _ _ _ demo_create). by split. Qed.

Lemma demo_ops_in_range : Forall op_in_range demo_ops.
Proof. repeat constructor; done. Qed.

Example demo_run :
  let '(seg, rs) := shm_run demo_segment demo_ops in
  rs = [Some 65536; Some 65636; None; Some 65536; None; None] /\
  table_of seg = [(65536, 60); (65636, 300)].
Proof. vm_compute. done. Qed.

Lemma shm_run_refines_first_fit_witness :
  let '(seg', rs) := shm_run demo_segment demo_ops in
  same_frame demo_segment seg' /\ seg_wf seg' /\
  (table_of seg', rs) = spec_run (size_ demo_segment) (table_of demo_segment) demo_ops.
Proof. exact (shm_run_refines_first_fit _ _ demo_wf demo_ops_in_range). Defined.

Lemma allocate_lowest_free_witness :
  match (allocate demo_segment 100).2 with
  | Some off => free_at kShmHeaderSize (size_ demo_segment) (table_of demo_segment) off 100
  | None => False
  end.
Proof.
  pose proof (allocate_lowest_free demo_segment 100 demo_wf ltac:(done)) as H.
  cbv zeta in H. assert ((allocate demo_segment 100).2 = Some 65536) as E by reflexivity.
  rewrite E in *. exact (proj1 (proj2 (proj2 H))).
Defined.

Lemma free_after_allocate_witness :
  table_of (free_alloc (allocate demo_segment 100).1 65536) = table_of demo_segment.
Proof.
  apply (free_after_allocate demo_segment 100 _ 65536 demo_wf); [done|reflexivity].
Defined.

Lemma attach_sees_creator_witness :
  exists peer,
    attach (fun _ => {| opens := true; truncates := false; st_size := Some 66000;
                        mapping := Some (base_ (shm_run demo_segment demo_ops).1) |})
      (str "/vgi-demo") 0
      = Some peer /\
    seg_wf peer /\ table_of peer = table_of (shm_run demo_segment demo_ops).1 /\
    size_ peer = size_ demo_segment /\ owned_ peer = false.
Proof.
  apply (attach_sees_creator (fun _ => demo_os) _ (str "vgi-demo") _ 66000 _ demo_segment demo_ops
    demo_create); [by split|exact demo_ops_in_range|reflexivity..].
Defined.

Lemma read_in_bounds_witness :
  read demo_segment 65990 10 = Ok (read_mem (base_ demo_segment) 65990 10).
Proof.
  apply (read_in_bounds demo_segment 65990 10); [done|done|done|].
  split_and!; done.
Defined.
