(* ===== verification/ShmPointer.v ===== *)
(** * Pointer batches over the shared segment (src/src/shm.cpp)

    Writing a record batch into the segment and sending a zero-row pointer in
    its place, and resolving the pointer on the other side.  Arrow's reader and
    writer are the class of [Arrow]; the allocator is that of [Shm]. *)

From S2P Require Import Prelude Memory Arrow Shm.

(** ** [ShmSink] *)

Record ShmSink := {
  sink_mem : memory;
  sink_base : Z;
  capacity_ : Z;
  position_ : Z;
}.

(** [Write]: [None] is the [CapacityError]. *)
Definition sink_write (s : ShmSink) (data : bytes) : option ShmSink :=
  let nbytes := blen data in
  if capacity_ s <? position_ s + nbytes then None
  else Some {| sink_mem := write_mem (sink_mem s) (sink_base s + position_ s) data;
               sink_base := sink_base s; capacity_ := capacity_ s;
               position_ := position_ s + nbytes |}.

(** A writer that stops at the first failed write. *)
Fixpoint sink_writes (s : ShmSink) (chunks : list bytes) : ShmSink * bool :=
  match chunks with
  | [] => (s, true)
  | c :: chunks' =>
      match sink_write s c with
      | None => (s, false)
      | Some s' => sink_writes s' chunks'
      end
  end.

Section pointer.
Context {arrow : Arrow} {kvm : KeyValueMetadata}.

Definition has_dictionary_columns (s : Schema) : bool := existsb is_dictionary (field_types s).

(** ** Storage format *)

(** [while (true)] over the messages after the schema; [fuel] is above the
    number of bytes left, of which every message takes at least one. *)
Fixpoint keep_messages (fuel : nat) (input kept : bytes) : res bytes :=
  match fuel with
  | O => Ok kept
  | S fuel' =>
      match ReadNextMessage input with
      | Throw _ => Ok kept
      | Ok None => Ok kept
      | Ok (Some (msg, rest)) => p ← SerializeTo msg; keep_messages fuel' rest (kept ++ p)
      end
  end.

Definition serialize_dictionary_batch (b : RecordBatch) : res bytes :=
  full ← stream_to_buffer b;
  schema_message ← ReadNextMessage full;
  let rest := match schema_message with Some (_, rest) => rest | None => [] end in
  keep_messages (S (length rest)) rest [].

Definition deserialize_from_shm (stored : bytes) (s : Schema) : res RecordBatch :=
  stream ←
    (if has_dictionary_columns s then
       empty ← empty_stream s;
       let schema_len := (length empty - length kIpcEos)%nat in
       Ok (take schema_len empty ++ stored ++ kIpcEos)
     else Ok stored);
  batch ← read_stream stream;
  match batch with
  | None => Throw (RuntimeError (str "shared-memory region held no record batch"))
  | Some b => Ok b
  end.

(** The schema half is measured on a counting stream. *)
Definition estimate_stream_size (b : RecordBatch) : option Z :=
  body_size ← GetRecordBatchSize b;
  match empty_stream (schema b) with
  | Throw _ => None
  | Ok e => Some (i64 (blen e + body_size + 64))
  end.

Definition allocate_and_write (seg : ShmSegment) (b : RecordBatch)
    : res (ShmSegment * option (Z * Z)) :=
  if has_dictionary_columns (schema b) then
    payload ← serialize_dictionary_batch b;
    match allocate seg (i64 (blen payload)) with
    | (seg, None) => Ok (seg, None)
    | (seg, Some offset) =>
        Ok (with_base seg (write_mem (base_ seg) offset payload),
            Some (offset, i64 (blen payload)))
    end
  else
    match estimate_stream_size b with
    | None => Ok (seg, None)
    | Some estimate =>
        match allocate seg estimate with
        | (seg, None) => Ok (seg, None)
        | (seg, Some offset) =>
            let sink := {| sink_mem := base_ seg; sink_base := offset;
                           capacity_ := estimate; position_ := 0 |} in
            let '(chunks, writer_ok) := stream_writes b in
            let '(sink, writes_ok) := sink_writes sink chunks in
            let seg := with_base seg (sink_mem sink) in
            if writes_ok && writer_ok then Ok (seg, Some (offset, position_ sink))
            else Ok (free_alloc seg offset, None)
        end
    end.

(** ** Pointer batches *)

Definition is_shm_pointer_batch (batch : option RecordBatch) (custom_metadata : metadata) : bool :=
  match batch, custom_metadata with
  | Some b, Some md =>
      if negb (num_rows b =? 0) then false
      else if FindKey md SHM_OFFSET <? 0 then false
      else FindKey md LOG_LEVEL <? 0
  | _, _ => false
  end.

Definition is_pointer_key (key : bytes) : bool :=
  bool_decide (key = SHM_OFFSET) || bool_decide (key = SHM_LENGTH).

(** The outer option of [custom_metadata] is the pointer argument itself.  The
    result is the batch, the updated metadata and [*out_free_offset]. *)
Definition resolve_shm_batch (batch : option RecordBatch) (custom_metadata : option metadata)
    (segment : option ShmSegment) : res (option RecordBatch * option metadata * Z) :=
  match segment, custom_metadata with
  | Some seg, Some md =>
      if negb (is_shm_pointer_batch batch md) then Ok (batch, custom_metadata, -1)
      else
        match batch, md with
        | Some b, Some kvs =>
            match stoll (get_metadata_value md SHM_OFFSET []),
                  stoll (get_metadata_value md SHM_LENGTH []) with
            | Some (offset, _), Some (length, _) =>
                stored ← read seg offset length;
                resolved ← deserialize_from_shm stored (schema b);
                let kvs' := List.filter (fun kv => negb (is_pointer_key kv.1)) kvs in
                Ok (Some resolved, Some (Some (Append kvs' SHM_SOURCE (name_ seg))), offset)
            | _, _ =>
                Throw (RuntimeError
                  (str "shared-memory pointer batch has an unreadable offset/length"))
            end
        | _, _ => Ok (batch, custom_metadata, -1)
        end
  | _, _ => Ok (batch, custom_metadata, -1)
  end.

(** [shm_min_batch_bytes] with the value of [VGI_RPC_SHM_MIN_BATCH_BYTES], on POSIX. *)
Definition shm_min_batch_bytes (env : option bytes) : Z :=
  match env with
  | Some raw => match stoll raw with Some (v, _) => v | None => 128 * 1024 end
  | None => 128 * 1024
  end.

Definition buffer_bytes (b : RecordBatch) : Z :=
  foldl (fun nbytes buf => match buf with Some n => nbytes + n | None => nbytes end) 0
    (concat (column_buffers b)).

Definition maybe_write_to_shm (env : option bytes) (batch : option RecordBatch)
    (custom_metadata : option metadata) (segment : option ShmSegment)
    : res (option RecordBatch * option metadata * option ShmSegment) :=
  match segment, batch with
  | Some seg, Some b =>
      if num_rows b =? 0 then Ok (batch, custom_metadata, segment)
      else if buffer_bytes b <? shm_min_batch_bytes env then Ok (batch, custom_metadata, segment)
      else
        '(seg, written) ← allocate_and_write seg b;
        match written with
        | None => Ok (batch, custom_metadata, Some seg)
        | Some (offset, length) =>
            let md := match custom_metadata with Some (Some kvs) => kvs | _ => [] end in
            let md := Append md SHM_OFFSET (to_string offset) in
            let md := Append md SHM_LENGTH (to_string length) in
            empty ← make_empty_batch (schema b);
            Ok (Some empty,
                match custom_metadata with Some _ => Some (Some md) | None => None end,
                Some seg)
        end
  | _, _ => Ok (batch, custom_metadata, segment)
  end.

(** ** The sink never leaves its reservation *)

(** Whatever the writer sends, the sink has written a prefix of it, inside
    [base, base + capacity), and all of it when no write failed. *)
Lemma sink_writes_spec s chunks :
  0 <= position_ s <= capacity_ s ->
  exists written,
    sink_mem (sink_writes s chunks).1 = write_mem (sink_mem s) (sink_base s + position_ s) written /\
    position_ (sink_writes s chunks).1 = position_ s + blen written /\
    position_ s + blen written <= capacity_ s /\
    ((sink_writes s chunks).2 = true -> written = concat chunks).
Proof.
  revert s; induction chunks as [|c chunks IH]; intros s Hs; cbn [sink_writes].
  - exists []. cbn. split_and!; [done|lia|lia|done].
  - unfold sink_write. destruct (Z.ltb_spec (capacity_ s) (position_ s + blen c)).
    + exists []. cbn. split_and!; [done|lia|lia|done].
    + match goal with |- context [sink_writes ?s' _] => destruct (IH s') as (w & E1 & E2 & E3 & E4) end;
        [cbn; lia|]. cbn [sink_mem sink_base position_ capacity_] in *.
      exists (c ++ w). rewrite E1, write_mem_app, length_app, E2.
      split_and!; [f_equal; lia|lia|lia|]. intros E. cbn [concat]. by rewrite E4.
Qed.

(** ** Writing into a fresh region *)

(** Everything a holder of the old regions can see is as it was. *)
Definition regions_kept (seg seg' : ShmSegment) : Prop :=
  size_ seg' = size_ seg /\ name_ seg' = name_ seg /\ owned_ seg' = owned_ seg /\
  (forall a, a < 16 \/ 20 <= a < table -> peek (base_ seg') a = peek (base_ seg) a) /\
  (forall o l, (o, l) ∈ table_of seg -> forall a, o <= a < o + l ->
    peek (base_ seg') a = peek (base_ seg) a).

Lemma regions_kept_frame seg seg' : seg_wf seg -> same_frame seg seg' -> regions_kept seg seg'.
Proof.
  intros Hwf (E1 & E2 & E3 & H1). split_and!; try done.
  - intros a Ha. apply H1. lia.
  - intros o l Hin a Ha. apply H1.
    pose proof (regions_ok_in _ _ _ _ _ (wf_regions _ Hwf) Hin). lia.
Qed.

Lemma write_fresh_region seg size seg1 off bs :
  seg_wf seg -> in_i64 size -> allocate seg size = (seg1, Some off) -> blen bs <= size ->
  let seg2 := with_base seg1 (write_mem (base_ seg1) off bs) in
  seg_wf seg2 /\ table_of seg2 = table_of seg1 /\ regions_kept seg seg2 /\
  release off (table_of seg2) = table_of seg /\
  read_mem (base_ seg2) off (length bs) = bs /\
  kShmHeaderSize <= off /\ off + size <= size_ seg2 /\ 0 < size /\ (off, size) ∈ table_of seg2.
Proof.
  intros Hwf Hs E Hbs seg2. pose proof (allocate_sound seg size Hwf Hs) as HA.
  pose proof (allocate_wf seg size Hwf Hs) as Hwf1. rewrite E in HA, Hwf1. cbn [fst] in Hwf1.
  destruct HA as [Hf HA]. unfold allocate_spec in HA. pose proof (wf_regions _ Hwf) as Hreg.
  destruct (Z.leb_spec size 0); [done|]. destruct (kShmMaxAllocs <=? _); [done|].
  destruct (first_fit _ _ _ _) as [[p t']|] eqn:Eff; [|done]. injection HA as Ht ->.
  destruct (first_fit_free _ _ _ _ _ _ ltac:(done) Hreg Eff) as (Hlo & Hhi & Hall).
  destruct (write_data_table seg1 p bs Hlo (wf_count _ Hwf1)) as [Et _].
  subst seg2. split; [by apply write_data_wf|]. split; [done|]. split; [|split; [|split; [|split]]].
  - destruct (regions_kept_frame _ _ Hwf Hf) as (E1 & E2 & E3 & K1 & K2).
    split_and!; try done; cbn [base_ with_base].
    + intros a Ha. rewrite peek_write_out; [by apply K1|]. revert Hlo.
      unfold table, kShmHeaderStructSize, kShmHeaderSize in *. lia.
    + intros o l Hin a Ha. rewrite peek_write_out; [by eapply K2|].
      rewrite Forall_forall in Hall. specialize (Hall _ Hin). cbn in Hall. lia.
  - rewrite Et, Ht. by eapply release_first_fit.
  - apply read_write_same.
  - done.
  - split; [cbn; rewrite (proj1 Hf); lia|]. split; [lia|]. rewrite Et, Ht.
    apply first_fit_insert in Eff as (i & _ & ->). set_solver.
Qed.

(** Giving a fresh region back restores the table. *)
Lemma free_fresh_region seg seg2 off :
  seg_wf seg -> seg_wf seg2 -> regions_kept seg seg2 -> release off (table_of seg2) = table_of seg ->
  0 <= off -> off <= size_ seg2 ->
  let seg3 := free_alloc seg2 off in
  seg_wf seg3 /\ regions_kept seg seg3 /\ table_of seg3 = table_of seg.
Proof.
  intros Hwf Hwf2 (E1 & E2 & E3 & K1 & K2) Hrel Hlo Hhi seg3.
  assert (in_i64 off) as Hoff by (pose proof (wf_size _ Hwf2); unfold in_i64; lia).
  destruct (free_sound seg2 off Hwf2 Hoff) as [(F1 & F2 & F3 & Hf) Ht].
  split; [by apply free_wf|]. split; [|by rewrite <- Hrel]. subst seg3.
  split_and!; try congruence.
  - intros a Ha. rewrite Hf; [by apply K1|lia].
  - intros o l Hin a Ha. rewrite Hf; [by eapply K2|].
    pose proof (regions_ok_in _ _ _ _ _ (wf_regions _ Hwf) Hin). lia.
Qed.

(** What [allocate_and_write] stores for a batch. *)
Definition stored_bytes (b : RecordBatch) (stored : bytes) : Prop :=
  if has_dictionary_columns (schema b) then serialize_dictionary_batch b = Ok stored
  else (stream_writes b).2 = true /\ stored = concat (stream_writes b).1.

Lemma estimate_in_i64 b e : estimate_stream_size b = Some e -> in_i64 e.
Proof.
  unfold estimate_stream_size. destruct (GetRecordBatchSize b); [|done]. simpl.
  destruct (empty_stream _); [|done]. intros [= <-]. apply i64_range.
Qed.

Lemma read_stored seg off reserved stored :
  seg_wf seg -> kShmHeaderSize <= off -> off + reserved <= size_ seg -> blen stored <= reserved ->
  read_mem (base_ seg) off (length stored) = stored ->
  read seg off (blen stored) = Ok stored.
Proof.
  intros Hwf Hlo Hhi Hlen E. unfold read. pose proof (wf_size _ Hwf).
  assert (0 <= kShmHeaderSize) by done.
  rewrite (proj2 (Z.ltb_ge _ _)) by lia. rewrite (proj2 (Z.ltb_ge (blen stored) 0)) by lia.
  rewrite (u64_small off), (u64_small (blen stored)), u64_small by (unfold in_u64; lia).
  rewrite (proj2 (Z.ltb_ge _ _)) by lia. cbn [orb]. by rewrite Nat2Z.id, E.
Qed.

(** The outcome of [allocate_and_write] on a segment and what it leaves. *)
Definition written_ok (b : RecordBatch) (seg seg' : ShmSegment) (r : option (Z * Z)) : Prop :=
  seg_wf seg' /\ regions_kept seg seg' /\
  match r with
  | None => table_of seg' = table_of seg
  | Some (off, len) =>
      exists reserved stored,
        stored_bytes b stored /\ len = blen stored /\ len <= reserved /\
        kShmHeaderSize <= off /\ off + reserved <= size_ seg' /\
        (off, reserved) ∈ table_of seg' /\
        release off (table_of seg') = table_of seg /\
        read_mem (base_ seg') off (length stored) = stored
  end.

Lemma written_ok_same b seg : seg_wf seg -> written_ok b seg seg None.
Proof. intros Hwf. split_and!; try done; by apply regions_kept_frame. Qed.

Lemma allocate_none seg size seg' : allocate seg size = (seg', None) -> seg' = seg.
Proof. unfold allocate. intros E. repeat case_match; by simplify_eq. Qed.

Lemma allocate_and_write_sound seg b seg' r :
  seg_wf seg ->
  (forall s, serialize_dictionary_batch b = Ok s -> blen s < 2 ^ 63) ->
  allocate_and_write seg b = Ok (seg', r) ->
  written_ok b seg seg' r.
Proof.
  intros Hwf Hlen. unfold allocate_and_write.
  destruct (has_dictionary_columns (schema b)) eqn:Ed.
  - intros E. apply res_bind_ok in E as (payload & Ep & E).
    assert (in_i64 (blen payload)) as Hin by (specialize (Hlen _ Ep); unfold in_i64; lia).
    rewrite i64_small in E by done.
    destruct (allocate seg _) as [seg1 [off|]] eqn:Ea;
      [|injection E as <- <-; apply allocate_none in Ea; subst; by apply written_ok_same].
    injection E as <- <-.
    destruct (write_fresh_region _ _ _ _ payload Hwf Hin Ea) as (? & ? & ? & ? & ? & ? & ? & ? & ?);
      [done|].
    split_and!; try done. exists (blen payload), payload. unfold stored_bytes. rewrite Ed.
    by split_and!.
  - destruct (estimate_stream_size b) as [est|] eqn:Ee;
      [|intros [= <- <-]; by apply written_ok_same].
    apply estimate_in_i64 in Ee.
    destruct (allocate seg est) as [seg1 [off|]] eqn:Ea;
      [|intros [= <- <-]; apply allocate_none in Ea; subst; by apply written_ok_same].
    destruct (stream_writes b) as [chunks wok] eqn:Ew.
    set (s0 := {| sink_mem := _ |}).
    assert (0 < est) as Hest.
    { unfold allocate in Ea. by destruct (Z.leb_spec est 0). }
    destruct (sink_writes_spec s0 chunks) as (w & Em & Epos & Hcap & Hall); [subst s0; cbn; lia|].
    subst s0. destruct (sink_writes _ chunks) as [sink ok]. cbn in Em, Epos, Hcap, Hall.
    rewrite Z.add_0_r in Em. rewrite Em.
    destruct (write_fresh_region _ _ _ _ w Hwf Ee Ea) as (W1 & W2 & W3 & W4 & W5 & W6 & W7 & W8 & W9);
      [lia|].
    destruct ok, wok; cbn [andb]; intros [= <- <-].
    { split_and!; try done. specialize (Hall eq_refl). subst w.
      exists est, (concat chunks). unfold stored_bytes. rewrite Ed, Ew. split_and!; done || lia. }
    all: assert (0 <= kShmHeaderSize) by done.
    all: destruct (free_fresh_region _ _ off Hwf W1 W3 W4) as (? & ? & ?); [lia|lia|];
      by split_and!.
Qed.

(** [allocate_and_write] cannot corrupt a live region or the header,
    whatever Arrow's size estimate was and whatever the writer sends.  After
    it, every byte of every live region is as before; on failure the table is
    as before; on success the new region is the only change, lies inside the
    mapping, holds what was written and is at least as long as it. *)
Theorem allocate_and_write_isolated seg b seg' r :
  seg_wf seg ->
  (forall s, serialize_dictionary_batch b = Ok s -> blen s < 2 ^ 63) ->
  allocate_and_write seg b = Ok (seg', r) ->
  seg_wf seg' /\
  (forall o l, (o, l) ∈ table_of seg ->
    read_mem (base_ seg') o (Z.to_nat l) = read_mem (base_ seg) o (Z.to_nat l)) /\
  match r with
  | None => table_of seg' = table_of seg
  | Some (off, len) =>
      exists reserved stored,
        stored_bytes b stored /\ len = blen stored /\ len <= reserved /\
        (off, reserved) ∈ table_of seg' /\ release off (table_of seg') = table_of seg /\
        read seg' off len = Ok stored
  end.
Proof.
  intros Hwf Hlen E. destruct (allocate_and_write_sound _ _ _ _ Hwf Hlen E) as (Hwf' & Hk & Hr).
  split; [done|]. split.
  - intros o l Hin. apply read_mem_ext. intros i Hi.
    destruct Hk as (_ & _ & _ & _ & K). eapply K; [done|]. lia.
  - destruct r as [[off len]|]; [|done].
    destruct Hr as (reserved & stored & H1 & -> & H3 & H4 & H5 & H6 & H7 & H8).
    exists reserved, stored. split_and!; try done. by apply read_stored with reserved.
Qed.

(** ** The storage format *)

Lemma parts_length ms parts {alaws : ArrowLaws} :
  Forall2 (fun m p => SerializeTo m = Ok p) ms parts -> (length parts <= length (concat parts))%nat.
Proof.
  induction 1 as [|m p ms parts Hm _ IH]; [done|]. cbn [concat length]. rewrite length_app.
  destruct (read_message m p [] Hm) as [Hne _]. destruct p; [done|]. simpl. lia.
Qed.

Lemma keep_messages_all {alaws : ArrowLaws} ms parts fuel kept :
  Forall2 (fun m p => SerializeTo m = Ok p) ms parts -> (length parts < fuel)%nat ->
  keep_messages fuel (concat parts ++ kIpcEos) kept = Ok (kept ++ concat parts).
Proof.
  intros HF. revert fuel kept; induction HF as [|m p ms parts Hm HF IH]; intros fuel kept Hfuel;
    (destruct fuel as [|fuel]; [simpl in Hfuel; lia|]); cbn [keep_messages concat].
  - cbn [app]. rewrite read_eos. by rewrite app_nil_r.
  - rewrite <- app_assoc. destruct (read_message m p (concat parts ++ kIpcEos) Hm) as [_ ->].
    rewrite Hm. cbn [mbind res_bind]. rewrite IH by (simpl in Hfuel; lia). by rewrite app_assoc.
Qed.

(** What is stored for a batch reads back as the batch, dictionary or not. *)
Lemma stored_roundtrip {alaws : ArrowLaws} b stored :
  stored_bytes b stored -> deserialize_from_shm stored (schema b) = Ok b.
Proof.
  unfold stored_bytes, deserialize_from_shm, serialize_dictionary_batch.
  destruct (has_dictionary_columns (schema b)).
  - intros E. apply res_bind_ok in E as (full & Efull & E).
    destruct (stream_format b full Efull) as (sm & hdr & ms & parts & Hsm & HF & Efmt & Eempty).
    destruct (read_message sm hdr (concat parts ++ kIpcEos) Hsm) as [_ Eread].
    subst full. rewrite Eread in E. cbn [mbind res_bind] in E.
    rewrite (keep_messages_all ms) in E; [|done|].
    + injection E as <-. rewrite Eempty. cbn [mbind res_bind].
      rewrite length_app, Nat.add_sub. rewrite take_app_exact by done.
      by rewrite (read_stream_written b _ Efull).
    + rewrite length_app. pose proof (parts_length _ _ HF). lia.
  - intros [Hok ->]. cbn [mbind res_bind]. destruct (stream_writes b) as [chunks ok] eqn:Ew.
    cbn [fst snd] in *. subst ok. apply stream_writes_buffer in Ew.
    by rewrite (read_stream_written b _ Ew).
Qed.

(** ** The pointer's metadata *)

Definition plain_metadata (kvs : kv_list) : Prop :=
  (SHM_OFFSET ∉ kvs.*1) /\ (SHM_LENGTH ∉ kvs.*1) /\ (LOG_LEVEL ∉ kvs.*1).

Definition pointer_metadata (kvs : kv_list) (off len : Z) : kv_list :=
  Append (Append kvs SHM_OFFSET (to_string off)) SHM_LENGTH (to_string len).

Lemma not_in_one (x y : bytes) : x <> y -> x ∉ [y].
Proof. by rewrite list_elem_of_singleton. Qed.

Lemma pointer_keys_distinct :
  SHM_OFFSET <> SHM_LENGTH /\ SHM_OFFSET <> LOG_LEVEL /\ SHM_LENGTH <> LOG_LEVEL /\
  SHM_OFFSET <> SHM_SOURCE /\ SHM_LENGTH <> SHM_SOURCE.
Proof. split_and!; done. Qed.

Lemma pointer_offset_value {klaws : KeyValueMetadataLaws} kvs off len :
  plain_metadata kvs ->
  get_metadata_value (Some (pointer_metadata kvs off len)) SHM_OFFSET [] = to_string off.
Proof.
  intros (H1 & _ & _). unfold pointer_metadata, Append. rewrite <- app_assoc.
  apply get_metadata_value_unique; [done|]. cbn. by apply not_in_one.
Qed.

Lemma pointer_length_value {klaws : KeyValueMetadataLaws} kvs off len :
  plain_metadata kvs ->
  get_metadata_value (Some (pointer_metadata kvs off len)) SHM_LENGTH [] = to_string len.
Proof.
  intros (_ & H1 & _). unfold pointer_metadata, Append.
  apply get_metadata_value_unique; [|cbn; by apply not_elem_of_nil].
  rewrite fmap_app, not_elem_of_app. split; [done|]. cbn. by apply not_in_one.
Qed.

Lemma pointer_is_pointer {klaws : KeyValueMetadataLaws} kvs off len ptr :
  plain_metadata kvs -> num_rows ptr = 0 ->
  is_shm_pointer_batch (Some ptr) (Some (pointer_metadata kvs off len)) = true.
Proof.
  intros (H1 & H2 & H3) Hrows. unfold is_shm_pointer_batch. rewrite Hrows. cbn [Z.eqb negb].
  destruct (Z.ltb_spec (FindKey (pointer_metadata kvs off len) SHM_OFFSET) 0) as [E|_].
  { apply FindKey_absent in E. exfalso. apply E. unfold pointer_metadata, Append.
    rewrite !fmap_app. set_solver. }
  apply Z.ltb_lt, FindKey_absent. unfold pointer_metadata, Append.
  rewrite !fmap_app, !not_elem_of_app. cbn.
  split; [split|]; [done|by apply not_in_one..].
Qed.

Lemma strip_pointer_keys kvs off len :
  plain_metadata kvs ->
  List.filter (fun kv => negb (is_pointer_key kv.1)) (pointer_metadata kvs off len) = kvs.
Proof.
  intros (H1 & H2 & _). unfold pointer_metadata, Append.
  rewrite !List.filter_app. cbn. rewrite !app_nil_r.
  induction kvs as [|[k v] kvs IH]; [done|]. cbn [List.filter fst].
  rewrite fmap_cons, not_elem_of_cons in H1, H2. cbn [fst] in H1, H2. destruct H1 as [Hk1 H1], H2 as [Hk2 H2].
  unfold is_pointer_key at 1. rewrite !bool_decide_eq_false_2 by congruence. cbn [orb negb].
  by rewrite IH.
Qed.

(** What a receiver makes of metadata without pointer keys. *)
Lemma plain_not_pointer {klaws : KeyValueMetadataLaws} batch kvs :
  SHM_OFFSET ∉ kvs.*1 -> is_shm_pointer_batch batch (Some kvs) = false.
Proof.
  intros H1. unfold is_shm_pointer_batch. destruct batch; [|done].
  destruct (negb _); [done|]. apply FindKey_absent in H1.
  by rewrite (proj2 (Z.ltb_lt _ _) H1).
Qed.

(** Resolving what a writer stored. *)
Lemma resolve_pointer {alaws : ArrowLaws} {klaws : KeyValueMetadataLaws} b ptr kvs peer off reserved stored :
  plain_metadata kvs -> num_rows ptr = 0 -> schema ptr = schema b ->
  seg_wf peer -> kShmHeaderSize <= off -> off + reserved <= size_ peer -> blen stored <= reserved ->
  read_mem (base_ peer) off (length stored) = stored -> stored_bytes b stored ->
  resolve_shm_batch (Some ptr) (Some (Some (pointer_metadata kvs off (blen stored)))) (Some peer) =
    Ok (Some b, Some (Some (Append kvs SHM_SOURCE (name_ peer))), off).
Proof.
  intros Hmd Hrows Hsch Hwf Hlo Hhi Hlen Hread Hst. pose proof (wf_size _ Hwf).
  assert (0 <= kShmHeaderSize) by done.
  unfold resolve_shm_batch. rewrite pointer_is_pointer by done. cbn [negb].
  rewrite pointer_offset_value, pointer_length_value by done.
  rewrite !stoll_to_string by lia. rewrite (read_stored peer off reserved stored) by done.
  cbn [mbind res_bind]. rewrite Hsch, stored_roundtrip by done. cbn [mbind res_bind].
  by rewrite strip_pointer_keys.
Qed.

(** The round trip of a batch whose metadata is not that of a log message. *)
Lemma plain_pointer_roundtrip {alaws : ArrowLaws} {klaws : KeyValueMetadataLaws}
    env b md seg sent md' seg' peer :
  seg_wf seg -> plain_metadata (default [] md) ->
  (forall s, serialize_dictionary_batch b = Ok s -> blen s < 2 ^ 63) ->
  maybe_write_to_shm env (Some b) (Some md) (Some seg) = Ok (Some sent, Some md', Some seg') ->
  base_ peer = base_ seg' -> size_ peer = size_ seg' ->
  exists md'' off,
    resolve_shm_batch (Some sent) (Some md') (Some peer) = Ok (Some b, Some md'', off) /\
    if off =? -1 then sent = b /\ md'' = md /\ table_of seg' = table_of seg
    else num_rows sent = 0 /\
         md'' = Some (Append (default [] md) SHM_SOURCE (name_ peer)) /\
         is_shm_pointer_batch (Some b) md'' = false /\
         table_of (free_alloc seg' off) = table_of seg.
Proof.
  intros Hwf Hmd Hlen E Hb Hs. unfold maybe_write_to_shm in E.
  assert (forall seg', table_of seg' = table_of seg ->
    exists md'' off,
      resolve_shm_batch (Some b) (Some md) (Some peer) = Ok (Some b, Some md'', off) /\
      (if off =? -1 then b = b /\ md'' = md /\ table_of seg' = table_of seg else False)) as Hinline.
  { intros seg1 Ht. exists md, (-1). split; [|done]. unfold resolve_shm_batch.
    destruct md as [kvs|]; [|done]. by rewrite plain_not_pointer by apply Hmd. }
  destruct (num_rows b =? 0).
  { injection E as <- <- <-. destruct (Hinline seg eq_refl) as (m & o & ? & ?).
    exists m, o. by destruct (o =? -1). }
  destruct (buffer_bytes b <? _).
  { injection E as <- <- <-. destruct (Hinline seg eq_refl) as (m & o & ? & ?).
    exists m, o. by destruct (o =? -1). }
  apply res_bind_ok in E as ([seg1 r] & Ea & E).
  destruct (allocate_and_write_sound _ _ _ _ Hwf Hlen Ea) as (Hwf1 & Hk & Hr).
  destruct r as [[off len]|].
  2: { injection E as <- <- <-. destruct (Hinline seg1 Hr) as (m & o & ? & ?).
       exists m, o. by destruct (o =? -1). }
  destruct Hr as (reserved & stored & H1 & -> & H3 & H4 & H5 & H6 & H7 & H8).
  apply res_bind_ok in E as (empty & Ee & E). injection E as <- <- <-.
  apply make_empty_batch_ok in Ee as [Hrows Hsch].
  assert (0 < kShmHeaderSize) by done.
  exists (Some (Append (default [] md) SHM_SOURCE (name_ peer))), off. split.
  - replace (match md with Some kvs => kvs | None => [] end) with (default [] md) by by destruct md.
    apply resolve_pointer with reserved; try done; try congruence.
    + destruct Hwf1 as [W1 W2 W3]. unfold table_of, num_allocs in *.
      constructor; unfold table_of, num_allocs; by rewrite ?Hs, ?Hb.
  - destruct (Z.eqb_spec off (-1)); [lia|]. split_and!; try done.
    + apply plain_not_pointer. unfold Append. rewrite fmap_app, not_elem_of_app.
      split; [apply Hmd|]. cbn. by apply not_in_one.
    + pose proof (wf_size _ Hwf1).
      destruct (free_sound seg1 off Hwf1) as [_ ->]; [unfold in_i64; lia|done].
Qed.
(** A batch whose metadata has a log level is not taken for a pointer: a receiver
    keeps what was sent, the batch or the zero-row one in its place. *)
Lemma log_level_not_pointer {alaws : ArrowLaws} {klaws : KeyValueMetadataLaws}
    env b md seg sent md' seg' peer :
  seg_wf seg -> SHM_OFFSET ∉ (default [] md).*1 -> LOG_LEVEL ∈ (default [] md).*1 ->
  (forall s, serialize_dictionary_batch b = Ok s -> blen s < 2 ^ 63) ->
  maybe_write_to_shm env (Some b) (Some md) (Some seg) = Ok (Some sent, Some md', Some seg') ->
  resolve_shm_batch (Some sent) (Some md') (Some peer) = Ok (Some sent, Some md', -1) /\
  (sent = b /\ md' = md /\ table_of seg' = table_of seg \/ num_rows sent = 0 /\ num_rows b <> 0).
Proof.
  intros Hwf Ho Hl Hlen E.
  assert (resolve_shm_batch (Some b) (Some md) (Some peer) = Ok (Some b, Some md, -1)) as Hinline.
  { unfold resolve_shm_batch. destruct md as [kvs|]; [|done]. by rewrite plain_not_pointer. }
  unfold maybe_write_to_shm in E.
  destruct (Z.eqb_spec (num_rows b) 0) as [|Hrows]; [injection E as <- <- <-; split; [done|by left]|].
  destruct (buffer_bytes b <? _); [injection E as <- <- <-; split; [done|by left]|].
  apply res_bind_ok in E as ([seg1 r] & Ea & E).
  destruct (allocate_and_write_sound _ _ _ _ Hwf Hlen Ea) as (_ & _ & Hr).
  destruct r as [[off len]|]; [|injection E as <- <- <-; split; [done|by left]].
  apply res_bind_ok in E as (empty & Ee & E). injection E as <- <- <-.
  apply make_empty_batch_ok in Ee as [He _]. split; [|by right].
  assert (is_shm_pointer_batch (Some empty) (Some (pointer_metadata (default [] md) off len)) = false) as Hp.
  { unfold is_shm_pointer_batch. destruct (negb _); [done|]. destruct (_ <? 0); [done|].
    destruct (Z.ltb_spec (FindKey (pointer_metadata (default [] md) off len) LOG_LEVEL) 0) as [Hf|]; [|done].
    apply FindKey_absent in Hf. exfalso. apply Hf. unfold pointer_metadata, Append.
    rewrite !fmap_app. set_solver. }
  unfold resolve_shm_batch.
  replace (Append (Append (match md with Some kvs => kvs | None => [] end) SHM_OFFSET (to_string off))
    SHM_LENGTH (to_string len)) with (pointer_metadata (default [] md) off len) by by destruct md.
  by rewrite Hp.
Qed.

(** C33: sending a batch through the segment loses nothing, unless its metadata
    has the key of a log level.  The segment is well formed, the batch's stream
    is shorter than 2^63 bytes, and its metadata has no pointer keys of its own.
    Whether [maybe_write_to_shm] sends the batch inline or a pointer in its
    place, a peer that maps the same bytes resolves what was sent to the same
    batch; when it was a pointer the resolved metadata is the sender's with the
    source appended, is not itself a pointer, and freeing the reported offset
    restores the allocation table; when it was inline, nothing is allocated.  A
    pointer sent for a batch with a log level in its metadata is not taken for
    one: the receiver is left with the zero-row batch sent in its place. *)
Theorem shm_pointer_roundtrip {alaws : ArrowLaws} {klaws : KeyValueMetadataLaws}
    env b md seg sent md' seg' peer :
  seg_wf seg -> SHM_OFFSET ∉ (default [] md).*1 -> SHM_LENGTH ∉ (default [] md).*1 ->
  (forall s, serialize_dictionary_batch b = Ok s -> blen s < 2 ^ 63) ->
  maybe_write_to_shm env (Some b) (Some md) (Some seg) = Ok (Some sent, Some md', Some seg') ->
  base_ peer = base_ seg' -> size_ peer = size_ seg' ->
  if decide (LOG_LEVEL ∈ (default [] md).*1) then
    resolve_shm_batch (Some sent) (Some md') (Some peer) = Ok (Some sent, Some md', -1) /\
    (sent = b /\ md' = md /\ table_of seg' = table_of seg \/ num_rows sent = 0 /\ num_rows b <> 0)
  else exists md'' off,
    resolve_shm_batch (Some sent) (Some md') (Some peer) = Ok (Some b, Some md'', off) /\
    if off =? -1 then sent = b /\ md'' = md /\ table_of seg' = table_of seg
    else num_rows sent = 0 /\
         md'' = Some (Append (default [] md) SHM_SOURCE (name_ peer)) /\
         is_shm_pointer_batch (Some b) md'' = false /\
         table_of (free_alloc seg' off) = table_of seg.
Proof.
  intros Hwf Ho Hl Hlen E Hb Hs. destruct (decide _) as [Hlog|Hlog].
  - by eapply log_level_not_pointer.
  - by eapply plain_pointer_roundtrip.
Qed.
End pointer.

(** ** Witnesses: a three-row batch through the demonstration segment *)

Import ToyArrow.

Definition demo_batch (dict : bool) : toy_batch :=
  {| toy_dictionary := dict; toy_data := str "abc" |}.

Definition demo_metadata : metadata := Some [(str "k", str "v")].

Definition demo_sent (dict : bool) :=
  maybe_write_to_shm (arrow := toy_arrow) (Some (str "1")) (Some (demo_batch dict))
    (Some demo_metadata) (Some demo_segment).

Lemma demo_plain : plain_metadata (default [] demo_metadata).
Proof. split_and!; by apply not_in_one. Qed.

(** Both formats send a pointer: a 6-byte and a 16-byte region. *)
Example demo_sent_pointer dict :
  match demo_sent dict with
  | Ok (Some sent, Some (Some md'), Some seg') =>
      toy_data sent = [] /\ length md' = 3%nat /\
      table_of seg' = [(65536, if dict then 6 else 80)]
  | _ => False
  end.
Proof. destruct dict; vm_compute; done. Qed.

Lemma shm_pointer_roundtrip_witness :
  match demo_sent true with
  | Ok (Some sent, Some md', Some seg') =>
      exists md'' off,
        resolve_shm_batch (arrow := toy_arrow) (Some sent) (Some md') (Some seg') =
          Ok (Some (demo_batch true), Some md'', off)
  | _ => False
  end.
Proof.
  destruct (demo_sent true) as [[[[sent|] [md'|]] [seg'|]]|e] eqn:E;
    [|vm_compute in E; discriminate E..].
  destruct demo_plain as (H1 & H2 & H3).
  pose proof (shm_pointer_roundtrip (arrow := toy_arrow) (Some (str "1"))
    (demo_batch true) demo_metadata demo_segment sent md' seg' seg' demo_wf H1 H2
    ltac:(intros s Hs; vm_compute in Hs; injection Hs as <-; done) E eq_refl eq_refl) as H.
  destruct (decide _) as [Hlog|_]; [by destruct (H3 Hlog)|].
  destruct H as (md'' & off & H & _). exists md'', off. exact H.
Defined.

Lemma allocate_and_write_isolated_witness :
  match allocate_and_write (arrow := toy_arrow) (allocate demo_segment 100).1
          (demo_batch false) with
  | Ok (seg', Some (off, len)) => read seg' off len = Ok (toy_stream (demo_batch false))
  | _ => False
  end.
Proof.
  assert (seg_wf (allocate demo_segment 100).1) as Hwf by (apply (allocate_wf _ 100 demo_wf); done).
  destruct (allocate_and_write (arrow := toy_arrow) _ _) as [[seg' [[off len]|]]|e] eqn:E;
    [|vm_compute in E; discriminate E..].
  destruct (allocate_and_write_isolated (arrow := toy_arrow) _ (demo_batch false) _ _ Hwf
    ltac:(intros s Hs; vm_compute in Hs; injection Hs as <-; done) E)
    as (_ & _ & reserved & stored & Hst & _ & _ & _ & _ & Hr).
  destruct Hst as [_ ->]. exact Hr.
Defined.
