(* ===== verification/Wire.v ===== *)
(** * IPC streams on a connection (src/src/wire.cpp, annotated_batch.h)

    A connection is two sequences of IPC messages.  A stream on it is a schema
    message, record batches with their metadata, and the end-of-stream marker.
    The functions run in a state-and-exception monad over the connection; the
    platform's [read] and [write] are at the end of the file. *)

From S2P Require Import Prelude Arrow Errors.

(** ** Functions that change a state and may throw *)

Inductive outcome (A : Type) :=
  | Done (a : A)
  | Raised (e : exception).
Arguments Done {A} a.
Arguments Raised {A} e.

Definition M (S A : Type) : Type := S -> outcome A * S.

#[export] Instance M_ret S : MRet (M S) := fun A a s => (Done a, s).
#[export] Instance M_bind S : MBind (M S) := fun A B f m s =>
  match m s with
  | (Done a, s') => f a s'
  | (Raised e, s') => (Raised e, s')
  end.

Definition raise {S A} (e : exception) : M S A := fun s => (Raised e, s).
Definition get {S} : M S S := fun s => (Done s, s).
Definition put {S} (s : S) : M S unit := fun _ => (Done tt, s).
Definition modify {S} (f : S -> S) : M S unit := fun s => (Done tt, f s).

(** [try { m } catch (const std::exception& e) { h }]. *)
Definition try_catch {S A} (m : M S A) (h : exception -> M S A) : M S A := fun s =>
  match m s with
  | (Done a, s') => (Done a, s')
  | (Raised e, s') => h e s'
  end.

(** A component of the state. *)
Definition zoom {S T A} (part : S -> T) (with_part : S -> T -> S) (m : M T A) : M S A := fun s =>
  let '(r, t) := m (part s) in (r, with_part s t).

(** The exceptions of the lower layers, as the classes a [catch] tells apart. *)
Definition exception_of (e : exn) : exception :=
  match e with
  | InvalidArgument w => EInvalidArgument w
  | LogicError w => ELogicError w
  | Prelude.ProtocolError w => Errors.ProtocolError w
  | RuntimeError w | GrantInvalidError w _ | ProxyProtocolV2Error w | PeerIdentityRejected w
  | ExternalHttpError w => EOther w
  | PeerIdentityUnavailable w => PeerIdentityUnavailableError w
  end.

Definition lift {S A} (r : res A) : M S A :=
  match r with Ok a => mret a | Throw e => raise (exception_of e) end.

Lemma bind_done {S A B} (m : M S A) (f : A -> M S B) s a s' :
  m s = (Done a, s') -> (m ≫= f) s = f a s'.
Proof. intros E. unfold mbind, M_bind. by rewrite E. Qed.

Lemma bind_raised {S A B} (m : M S A) (f : A -> M S B) s e s' :
  m s = (Raised e, s') -> (m ≫= f) s = (Raised e, s').
Proof. intros E. unfold mbind, M_bind. by rewrite E. Qed.

Lemma bind_done_inv {S A B} (m : M S A) (f : A -> M S B) s b s'' :
  (m ≫= f) s = (Done b, s'') -> exists a s', m s = (Done a, s') /\ f a s' = (Done b, s'').
Proof. unfold mbind, M_bind. destruct (m s) as [[a|e] s'] eqn:E; [eauto|done]. Qed.

(** ** Batches *)

Inductive BatchType := DATA | LOG | EXCEPTION | EXTERNAL_POINTER | SHM_POINTER | STATE_TOKEN.

(** [AnnotatedBatch].  The pointer is tested for null by [classify_batch] only;
    everything else dereferences it. *)
Record AnnotatedBatch `{Arrow} := { ab_batch : RecordBatch; custom_metadata : metadata }.

Section batch.
Context {arrow : Arrow} {kvm : KeyValueMetadata}.

Definition classify_batch (batch : option RecordBatch) (md : metadata) : BatchType :=
  match md with
  | None => DATA
  | Some md =>
      if match batch with Some b => 0 <? num_rows b | None => false end then DATA
      else
        let level_idx := FindKey md LOG_LEVEL in
        let msg_idx := FindKey md LOG_MESSAGE in
        if (0 <=? level_idx) && (0 <=? msg_idx) then
          if bool_decide ((md !!! Z.to_nat level_idx).2 = str "EXCEPTION") then EXCEPTION else LOG
        else if 0 <=? FindKey md LOCATION then EXTERNAL_POINTER
        else if 0 <=? FindKey md SHM_OFFSET then SHM_POINTER
        else if 0 <=? FindKey md STREAM_STATE then STATE_TOKEN
        else DATA
  end.

Definition ab_type (ab : AnnotatedBatch) : BatchType :=
  classify_batch (Some (ab_batch ab)) (custom_metadata ab).

Definition data (b : RecordBatch) : AnnotatedBatch := {| ab_batch := b; custom_metadata := None |}.
Definition with_metadata (b : RecordBatch) (md : kv_list) : AnnotatedBatch :=
  {| ab_batch := b; custom_metadata := Some md |}.

(** [Delete] of every occurrence; [fuel] is the number of entries. *)
Fixpoint delete_key (fuel : nat) (merged : kv_list) (key : bytes) : kv_list :=
  match fuel with
  | O => merged
  | S fuel' =>
      let index := FindKey merged key in
      if 0 <=? index then
        delete_key fuel' (take (Z.to_nat index) merged ++ drop (S (Z.to_nat index)) merged) key
      else merged
  end.

Definition merge_metadata (custom_metadata md : metadata) : metadata :=
  match md, custom_metadata with
  | None, _ => custom_metadata
  | Some md, None => Some md
  | Some md, Some mine =>
      Some (foldl (fun merged kv => Append (delete_key (length merged) merged kv.1) kv.1 kv.2) mine md)
  end.
End batch.

(** ** What the streams need of Arrow beyond [Arrow] *)

Class ArrowStreams `{Arrow} := {
  (** [Schema::Equals]. *)
  schema_equal : Schema -> Schema -> bool;
  empty_schema : Schema;
  (** Whether [ipc::MakeStreamWriter] succeeds, and the status text when not. *)
  stream_writer_ok : Schema -> bool;
  stream_writer_error : Schema -> bytes;
}.

Class ArrowStreamsLaws `{ArrowStreams} := {
  schema_equal_refl s : schema_equal s s = true;
  schema_equal_trans s t u :
    schema_equal s t = true -> schema_equal t u = true -> schema_equal s u = true;
  schema_equal_sym s t : schema_equal s t = true -> schema_equal t s = true;
}.

(** What fails only when memory cannot be allocated. *)
Class ArrowTotal `{ArrowStreams} := {
  null_array_total t n : exists a, MakeArrayOfNull t n = Ok a;
  writer_total s : stream_writer_ok s = true;
  buffer_total b : exists bs, stream_to_buffer b = Ok bs;
}.

Lemma make_empty_batch_total `{ArrowTotal} s : exists b, make_empty_batch s = Ok b.
Proof.
  unfold make_empty_batch. assert (exists l, null_arrays (field_types s) = Ok l) as [l ->]; [|by eexists].
  induction (field_types s) as [|t ts [l IH]]; cbn [null_arrays]; [by eexists|].
  destruct (null_array_total t 0) as [a ->]. cbn. rewrite IH. by eexists.
Qed.

(** ** The connection *)

Inductive message `{Arrow} :=
  | MsgSchema (s : Schema)
  | MsgBatch (b : RecordBatch) (md : metadata)
  | MsgEos
  | MsgCorrupt (io_error : bool) (what : bytes).

(** [at_eos]: the open stream reader has seen the end of its stream, and takes
    nothing more from the connection.  [writer] is the open stream writer: its
    schema, and whether the schema message is out.  [room] is how many messages the pipe still takes before it
    breaks; [None] is a pipe that does not. *)
Record wire `{Arrow} := {
  input : list message;
  at_eos : bool;
  output : list message;
  writer : option (Schema * bool);
  room : option nat;
}.

Section wire.
Context {arrow : Arrow} {streams : ArrowStreams}.

Definition with_input (w : wire) (i : list message) (eos : bool) : wire :=
  {| input := i; at_eos := eos; output := output w; writer := writer w; room := room w |}.
Definition with_output (w : wire) (o : list message) (r : option nat) : wire :=
  {| input := input w; at_eos := at_eos w; output := o; writer := writer w; room := r |}.
Definition with_writer (w : wire) (wr : option (Schema * bool)) : wire :=
  {| input := input w; at_eos := at_eos w; output := output w; writer := wr; room := room w |}.

(** *** Reading *)

(** [RecordBatchStreamReader::Open] and [ReadNext]: a null batch is [None].  A
    message of another type where the schema is expected is an [IOError]. *)
Inductive open_status :=
  | OpenOk (s : Schema)
  | OpenIoError
  | OpenNullMessage
  | OpenInvalid (what : bytes).

Definition open_reader : M wire open_status := fun w =>
  match input w with
  | [] => (Done OpenNullMessage, w)
  | MsgSchema s :: i => (Done (OpenOk s), with_input w i false)
  | MsgEos :: i => (Done OpenNullMessage, with_input w i (at_eos w))
  | MsgBatch _ _ :: i => (Done OpenIoError, with_input w i (at_eos w))
  | MsgCorrupt true _ :: i => (Done OpenIoError, with_input w i (at_eos w))
  | MsgCorrupt false what :: i => (Done (OpenInvalid what), with_input w i (at_eos w))
  end.

Inductive next_status :=
  | NextBatch (b : RecordBatch) (md : metadata)
  | NextEnd
  | NextError (what : bytes).

Definition read_next : M wire next_status := fun w =>
  if at_eos w then (Done NextEnd, w)
  else
    match input w with
    | [] => (Done NextEnd, with_input w [] true)
    | MsgBatch b md :: i => (Done (NextBatch b md), with_input w i false)
    | MsgEos :: i => (Done NextEnd, with_input w i true)
    | MsgSchema _ :: i => (Done (NextError (str "not a record batch message")), with_input w i false)
    | MsgCorrupt _ what :: i => (Done (NextError what), with_input w i false)
    end.

(** [while (true)] of [read_ipc_stream]; every round takes a message, so the
    number of messages is enough [fuel]. *)
Fixpoint read_batches (fuel : nat) (acc : list AnnotatedBatch) : M wire (list AnnotatedBatch) :=
  match fuel with
  | O => mret acc
  | S fuel' =>
      next ← read_next;
      match next with
      | NextError what => raise (EOther (str "Error reading IPC batch: " ++ what))
      | NextEnd => mret acc
      | NextBatch b md => read_batches fuel' (acc ++ [{| ab_batch := b; custom_metadata := md |}])
      end
  end.

Definition read_ipc_stream : M wire (option (Schema * list AnnotatedBatch)) :=
  opened ← open_reader;
  match opened with
  | OpenIoError | OpenNullMessage => mret None
  | OpenInvalid what => raise (EOther (str "Failed to open IPC reader: " ++ what))
  | OpenOk s =>
      w ← get;
      batches ← read_batches (S (length (input w))) [];
      mret (Some (s, batches))
  end.

Fixpoint drain_messages (i : list message) : list message :=
  match i with
  | [] => []
  | MsgBatch _ _ :: i' => drain_messages i'
  | _ :: i' => i'
  end.

Definition drain_reader : M wire unit := modify (fun w =>
  if at_eos w then w else with_input w (drain_messages (input w)) true).

(** *** Writing *)

Definition broken_pipe : exception := EOther (str "IOError: Broken pipe").

(** One message on the pipe. *)
Definition send (m : message) : M wire unit := fun w =>
  match room w with
  | Some O => (Raised broken_pipe, w)
  | Some (S n) => (Done tt, with_output w (output w ++ [m]) (Some n))
  | None => (Done tt, with_output w (output w ++ [m]) None)
  end.

(** [None] is a failed [Result]. *)
Definition MakeStreamWriter (s : Schema) : M wire bool := fun w =>
  if stream_writer_ok s then (Done true, with_writer w (Some (s, false))) else (Done false, w).

(** The schema message goes out with the first batch, or at [Close]. *)
Definition check_started : M wire unit :=
  w ← get;
  match writer w with
  | Some (s, false) => send (MsgSchema s);; modify (fun w => with_writer w (Some (s, true)))
  | _ => mret tt
  end.

(** A batch of another schema is refused before anything is sent. *)
Definition WriteRecordBatch (b : RecordBatch) (md : metadata) : M wire unit :=
  w ← get;
  match writer w with
  | Some (s, _) =>
      if schema_equal (schema b) s then check_started;; send (MsgBatch b md)
      else raise (EOther (str "Invalid: Tried to write record batch with different schema"))
  | None => mret tt
  end.

Definition Close : M wire unit :=
  check_started;; send MsgEos;; modify (fun w => with_writer w None).

Definition write_annotated (ab : AnnotatedBatch) : M wire unit :=
  WriteRecordBatch (ab_batch ab) (custom_metadata ab).

Fixpoint write_batches (batches : list AnnotatedBatch) : M wire unit :=
  match batches with
  | [] => mret tt
  | ab :: batches' => write_annotated ab;; write_batches batches'
  end.

Definition write_ipc_stream (s : Schema) (batches : list AnnotatedBatch) : M wire unit :=
  opened ← MakeStreamWriter s;
  if negb opened then raise (EOther (str "Failed to create IPC writer: " ++ stream_writer_error s))
  else write_batches batches;; Close.
End wire.

(** ** File descriptors

    [read(2)] and [write(2)] are the platform's: one entry of the schedule says
    what the next call does with the count it is given.  A call that asks for
    more than [INT_MAX] bytes is refused with [EINVAL]; no other call
    transfers more than it was asked for. *)

Inductive fd_call :=
  | Transfers (n : Z)
  | Interrupted
  | Fails (strerror : bytes).

Definition kMaxIoChunk : Z := 2 ^ 30.
Definition INT_MAX : Z := 2 ^ 31 - 1.

Inductive fd_result :=
  | Count (n : Z)
  | Eintr
  | Errno (strerror : bytes).

Definition kernel (call : fd_call) (count : Z) : fd_result :=
  if INT_MAX <? count then Errno (str "Invalid argument")
  else
    match call with
    | Transfers n => Count (Z.max 0 (Z.min n count))
    | Interrupted => Eintr
    | Fails e => Errno e
    end.

Definition io_error {X} (what : bytes) : res X := Throw (RuntimeError (str "IOError: " ++ what)).

(** [data] is what is still to be written and [sent] what the descriptor has
    taken.  [None]: the schedule is over and the call still blocks. *)
Fixpoint write_all_fd (schedule : list fd_call) (data sent : bytes) : option (res unit * bytes) :=
  if blen data <=? 0 then Some (Ok tt, sent)
  else
    match schedule with
    | [] => None
    | call :: schedule' =>
        let chunk := Z.min (blen data) kMaxIoChunk in
        match kernel call chunk with
        | Eintr => write_all_fd schedule' data sent
        | Errno e =>
            if bool_decide (e = str "EPIPE") then Some (io_error (str "Broken pipe"), sent)
            else Some (io_error (str "Write failed: " ++ e), sent)
        | Count n =>
            if n =? 0 then Some (io_error (str "Write made no progress"), sent)
            else write_all_fd schedule' (drop (Z.to_nat n) data) (sent ++ take (Z.to_nat n) data)
        end
    end.

(** [avail] is what the peer has written and [got] what is in the buffer; the
    count comes back as the length of [got]. *)
Fixpoint read_full_fd (schedule : list fd_call) (nbytes : Z) (avail got : bytes)
    : option (res bytes * bytes) :=
  if nbytes <=? blen got then Some (Ok got, avail)
  else
    match schedule with
    | [] => None
    | call :: schedule' =>
        let chunk := Z.min (nbytes - blen got) kMaxIoChunk in
        match kernel call chunk with
        | Eintr => read_full_fd schedule' nbytes avail got
        | Errno e => Some (io_error (str "Read failed: " ++ e), avail)
        | Count n =>
            let n := Z.min n (blen avail) in
            if n =? 0 then Some (Ok got, avail)
            else read_full_fd schedule' nbytes (drop (Z.to_nat n) avail)
                   (got ++ take (Z.to_nat n) avail)
        end
    end.

(** [FdInputStream], [FdOutputStream] and [StdoutStream]. *)
Record FdStream := { closed_ : bool; position_ : Z }.

Definition FdStream_Close (f : FdStream) : FdStream :=
  {| closed_ := true; position_ := position_ f |}.

Definition FdInputStream_Read (f : FdStream) (schedule : list fd_call) (nbytes : Z) (avail : bytes)
    : option (res bytes * bytes * FdStream) :=
  if closed_ f then Some (io_error (str "FdInputStream is closed"), avail, f)
  else
    '(r, avail) ← read_full_fd schedule nbytes avail [];
    match r with
    | Ok got => Some (Ok got, avail, {| closed_ := closed_ f; position_ := position_ f + blen got |})
    | Throw e => Some (Throw e, avail, f)
    end.

Definition FdOutputStream_Write (f : FdStream) (schedule : list fd_call) (data sent : bytes)
    : option (res unit * bytes * FdStream) :=
  if closed_ f then Some (io_error (str "FdOutputStream is closed"), sent, f)
  else
    '(r, sent) ← write_all_fd schedule data sent;
    match r with
    | Ok _ => Some (Ok tt, sent, {| closed_ := closed_ f; position_ := position_ f + blen data |})
    | Throw e => Some (Throw e, sent, f)
    end.

(** ** Lemmas on the connection *)

Section wire_lemmas.
Context {arrow : Arrow} {streams : ArrowStreams}.

(** The messages of one complete stream. *)
Definition ab_message (ab : AnnotatedBatch) : message := MsgBatch (ab_batch ab) (custom_metadata ab).
Definition stream_messages (s : Schema) (batches : list AnnotatedBatch) : list message :=
  MsgSchema s :: map ab_message batches ++ [MsgEos].

Lemma read_batches_spec fuel batches rest acc w :
  (length batches < fuel)%nat -> at_eos w = false ->
  input w = map ab_message batches ++ MsgEos :: rest ->
  read_batches fuel acc w = (Done (acc ++ batches), with_input w rest true).
Proof.
  revert fuel acc w; induction batches as [|ab batches IH]; intros fuel acc w Hf He Hi;
    (destruct fuel as [|fuel]; [cbn in Hf; lia|]); cbn [read_batches map app] in *.
  - rewrite (bind_done _ _ _ NextEnd (with_input w rest true))
      by (unfold read_next; by rewrite He, Hi).
    by rewrite app_nil_r.
  - rewrite (bind_done _ _ _ (NextBatch (ab_batch ab) (custom_metadata ab))
      (with_input w (map ab_message batches ++ MsgEos :: rest) false))
      by (unfold read_next; by rewrite He, Hi).
    cbv beta iota. rewrite IH; [|cbn in Hf; lia|done|done]. rewrite <- app_assoc. by destruct ab.
Qed.

(** Reading a complete stream takes exactly its messages. *)
Lemma read_ipc_stream_spec s batches rest w :
  input w = stream_messages s batches ++ rest ->
  read_ipc_stream w = (Done (Some (s, batches)), with_input w rest true).
Proof.
  intros Hi. unfold stream_messages in Hi. cbn [app] in Hi. rewrite <- app_assoc in Hi. cbn [app] in Hi.
  unfold read_ipc_stream.
  set (w1 := with_input w (map ab_message batches ++ MsgEos :: rest) false).
  rewrite (bind_done _ _ _ (OpenOk s) w1) by (unfold open_reader; by rewrite Hi).
  cbv beta iota. rewrite (bind_done _ _ _ w1 w1) by done.
  cbv beta. erewrite bind_done.
  2: { apply (read_batches_spec _ batches rest); [|done|done]. cbn.
       rewrite length_app, length_map. cbn. lia. }
  done.
Qed.

Lemma drain_messages_spec batches rest :
  drain_messages (map ab_message batches ++ MsgEos :: rest) = rest.
Proof. by induction batches. Qed.

(** Writing with room, on a writer whose schema the batches have. *)
Definition sent (w : wire) (ms : list message) (wr : option (Schema * bool)) : wire :=
  {| input := input w; at_eos := at_eos w; output := output w ++ ms; writer := wr; room := room w |}.

Definition started_messages (s : Schema) (started : bool) : list message :=
  if started then [] else [MsgSchema s].

Lemma WriteRecordBatch_spec s started b md w :
  room w = None -> writer w = Some (s, started) -> schema_equal (schema b) s = true ->
  WriteRecordBatch b md w =
    (Done tt, sent w (started_messages s started ++ [MsgBatch b md]) (Some (s, true))).
Proof.
  intros Hr Hw Hs. unfold WriteRecordBatch, check_started, send, get, modify, mret, M_ret, mbind, M_bind,
    with_output, with_writer, sent.
  rewrite Hw, Hs. destruct started; cbn [started_messages app]; rewrite ?Hw, ?Hr; cbn [room]; rewrite ?Hr;
    cbn; rewrite <- ?app_assoc, ?Hr; done.
Qed.

Lemma Close_spec s started w :
  room w = None -> writer w = Some (s, started) ->
  Close w = (Done tt, sent w (started_messages s started ++ [MsgEos]) None).
Proof.
  intros Hr Hw. unfold Close, check_started, send, get, modify, mret, M_ret, mbind, M_bind,
    with_output, with_writer, sent.
  rewrite Hw. destruct started; cbn [started_messages app]; rewrite ?Hw, ?Hr; cbn; rewrite ?Hr;
    cbn; rewrite <- ?app_assoc, ?Hr; done.
Qed.

Lemma sent_sent w ms1 wr1 ms2 wr2 : sent (sent w ms1 wr1) ms2 wr2 = sent w (ms1 ++ ms2) wr2.
Proof. unfold sent. cbn. by rewrite app_assoc. Qed.

Definition fits (s : Schema) (ab : AnnotatedBatch) : Prop := schema_equal (schema (ab_batch ab)) s = true.

Lemma write_batches_spec s started batches w :
  room w = None -> writer w = Some (s, started) -> Forall (fits s) batches ->
  write_batches batches w =
    (Done tt, sent w (match batches with [] => [] | _ => started_messages s started end
                      ++ map ab_message batches)
                (Some (s, match batches with [] => started | _ => true end))).
Proof.
  revert started w; induction batches as [|ab batches IH]; intros started w Hr Hw Hf.
  - cbn. unfold mret, M_ret, sent. destruct w; cbn in *. by rewrite Hw, app_nil_r.
  - inversion Hf as [|? ? Hab Hf']; subst. cbn [write_batches map].
    unfold write_annotated. erewrite bind_done by (apply (WriteRecordBatch_spec s started); done).
    cbv beta. rewrite (IH true) by done. rewrite sent_sent. f_equal. f_equal.
    + destruct batches; cbn [started_messages app]; by rewrite <- ?app_assoc.
    + by destruct batches.
Qed.

Lemma write_ipc_stream_spec s batches w :
  room w = None -> stream_writer_ok s = true -> Forall (fits s) batches ->
  write_ipc_stream s batches w = (Done tt, sent w (stream_messages s batches) None).
Proof.
  intros Hr Ho Hf. unfold write_ipc_stream.
  rewrite (bind_done _ _ _ true (with_writer w (Some (s, false))))
    by (unfold MakeStreamWriter; by rewrite Ho).
  cbn [negb]. erewrite bind_done by (apply (write_batches_spec s false); done).
  cbv beta. erewrite (Close_spec s) by done. rewrite sent_sent. f_equal.
  unfold sent, stream_messages. cbn. f_equal. destruct batches; cbn; by rewrite <- ?app_assoc.
Qed.

(** *** Writing to a pipe that may break

    [push ms w]: the messages one after the other, until one is refused.  What
    the writer's own state is after a refusal does not matter. *)
Fixpoint push (ms : list message) : M wire unit :=
  match ms with
  | [] => mret tt
  | m :: ms' => send m;; push ms'
  end.

(** How many of [n] messages the pipe takes. *)
Definition taken (w : wire) (n : nat) : nat :=
  match room w with None => n | Some k => Nat.min k n end.

Definition written (w w' : wire) (r : outcome unit) (ms : list message) : Prop :=
  input w' = input w /\ output w' = output w ++ take (taken w (length ms)) ms /\
  r = (if (taken w (length ms) <? length ms)%nat then Raised broken_pipe else Done tt).

Lemma push_app ms1 ms2 w : push (ms1 ++ ms2) w = (push ms1;; push ms2) w.
Proof.
  revert w; induction ms1 as [|m ms1 IH]; intros w; [done|]. cbn [app push].
  unfold mbind, M_bind. destruct (send m w) as [[[]|e] w1]; [|done]. rewrite IH. done.
Qed.

Lemma push_with_writer ms w wr :
  push ms (with_writer w wr) = ((push ms w).1, with_writer (push ms w).2 wr).
Proof.
  revert w; induction ms as [|m ms IH]; intros w; [done|]. cbn [push].
  unfold mbind, M_bind, send. destruct w as [i e o w0 [[|n]|]]; cbn; [done| |].
  - exact (IH {| input := i; at_eos := e; output := o ++ [m]; writer := w0; room := Some n |}).
  - exact (IH {| input := i; at_eos := e; output := o ++ [m]; writer := w0; room := None |}).
Qed.

Lemma push_written ms w : written w (push ms w).2 (push ms w).1 ms.
Proof.
  revert w; induction ms as [|m ms IH]; intros w; unfold written, taken in *.
  - cbn. rewrite take_nil, app_nil_r. by destruct (room w) as [[|]|].
  - cbn [push length]. unfold mbind, M_bind, send. destruct (room w) as [[|n]|] eqn:Er.
    + cbn. by rewrite app_nil_r.
    + specialize (IH (with_output w (output w ++ [m]) (Some n))) as (-> & -> & ->). cbn.
      by rewrite <- app_assoc.
    + specialize (IH (with_output w (output w ++ [m]) None)) as (-> & -> & ->). cbn.
      by rewrite <- app_assoc.
Qed.

(** [pushes m ms wr]: [m] sends [ms], and leaves the writer [wr] when all are out. *)
Definition pushes (m : M wire unit) (ms : list message) (wr : option (Schema * bool)) (w : wire) : Prop :=
  (m w).1 = (push ms w).1 /\ with_writer (m w).2 None = with_writer (push ms w).2 None /\
  ((m w).1 = Done tt -> writer (m w).2 = wr).

Lemma pushes_bind m1 m2 ms1 ms2 wr1 wr2 w :
  pushes m1 ms1 wr1 w -> (forall w', writer w' = wr1 -> pushes m2 ms2 wr2 w') ->
  pushes (m1;; m2) (ms1 ++ ms2) wr2 w.
Proof.
  unfold pushes. intros (E1 & E2 & E3) H. rewrite push_app. unfold mbind, M_bind.
  destruct (m1 w) as [[[]|e] w1]; destruct (push ms1 w) as [r' w1']; cbn in *; subst r';
    [|by split_and!].
  destruct (H w1 (E3 eq_refl)) as (F1 & F2 & F3).
  pose proof (push_with_writer ms2 w1 None) as P. rewrite E2, push_with_writer in P.
  apply (f_equal fst) in P as P1. apply (f_equal snd) in P as P2. cbn [fst snd] in P1, P2.
  split_and!; [by rewrite F1|by rewrite F2|exact F3].
Qed.

Lemma pushes_started s started w :
  writer w = Some (s, started) -> pushes check_started (started_messages s started) (Some (s, true)) w.
Proof.
  intros Hw. unfold pushes, check_started, get, mbind, M_bind. rewrite Hw.
  destruct started; cbn; [done|]. unfold send. destruct w as [i e o w0 [[|n]|]]; done.
Qed.

Lemma pushes_send m wr w : writer w = wr -> pushes (send m) [m] wr w.
Proof. intros Hw. unfold pushes. cbn. unfold send, mbind, M_bind. by destruct w as [i e o w0 [[|n]|]]. Qed.

Lemma pushes_batch s started ab w :
  writer w = Some (s, started) -> fits s ab ->
  pushes (write_annotated ab) (started_messages s started ++ [ab_message ab]) (Some (s, true)) w.
Proof.
  intros Hw Hs. unfold pushes, write_annotated, WriteRecordBatch.
  rewrite (bind_done _ _ _ _ _ (eq_refl : get w = (Done w, w))), Hw, Hs.
  eapply (pushes_bind check_started); [by apply pushes_started|]. intros w' Hw'. by apply pushes_send.
Qed.

Definition batches_messages (s : Schema) (started : bool) (batches : list AnnotatedBatch) : list message :=
  match batches with [] => [] | _ => started_messages s started end ++ map ab_message batches.

Lemma pushes_batches s started batches w :
  writer w = Some (s, started) -> Forall (fits s) batches ->
  pushes (write_batches batches) (batches_messages s started batches)
    (Some (s, match batches with [] => started | _ => true end)) w.
Proof.
  revert started w; induction batches as [|ab batches IH]; intros started w Hw Hf; [by unfold pushes|].
  inversion Hf; subst. cbn [write_batches].
  replace (batches_messages s started (ab :: batches))
    with ((started_messages s started ++ [ab_message ab]) ++ batches_messages s true batches)
    by (unfold batches_messages; destruct batches; by rewrite <- app_assoc).
  eapply pushes_bind; [by apply pushes_batch|]. intros w' Hw'.
  assert (Some (s, true) = Some (s, match batches with [] => true | _ => true end)) as ->
    by by destruct batches.
  by apply IH.
Qed.

Lemma pushes_close s started w :
  writer w = Some (s, started) -> pushes Close (started_messages s started ++ [MsgEos]) None w.
Proof.
  intros Hw. unfold Close. eapply pushes_bind; [by apply pushes_started|]. intros w' Hw'.
  rewrite <- (app_nil_r [MsgEos]). eapply pushes_bind; [by apply pushes_send|]. intros w'' _. done.
Qed.

(** Whatever the pipe takes, it is the messages of the stream from the first. *)
Lemma write_ipc_stream_written s batches w :
  stream_writer_ok s = true -> Forall (fits s) batches ->
  written w (write_ipc_stream s batches w).2 (write_ipc_stream s batches w).1 (stream_messages s batches).
Proof.
  intros Ho Hf. unfold write_ipc_stream.
  rewrite (bind_done _ _ _ true (with_writer w (Some (s, false))))
    by (unfold MakeStreamWriter; by rewrite Ho).
  cbn [negb]. set (w1 := with_writer w (Some (s, false))).
  assert (pushes (write_batches batches;; Close) (stream_messages s batches) None w1) as (E1 & E2 & _).
  { replace (stream_messages s batches) with (batches_messages s false batches ++
      started_messages s (match batches with [] => false | _ => true end) ++ [MsgEos])
      by (unfold batches_messages, stream_messages; by destruct batches).
    eapply pushes_bind; [by apply pushes_batches|]. intros w' Hw'. by apply pushes_close. }
  destruct (push_written (stream_messages s batches) w1) as (P1 & P2 & P3).
  rewrite E1. apply (f_equal input) in E2 as E3. apply (f_equal output) in E2. cbn [input output with_writer] in E2, E3.
  unfold written. by rewrite E2, E3, P1, P2, P3.
Qed.
End wire_lemmas.

(** ** Lemmas on descriptors *)

(** A schedule on which every call is interrupted or transfers something, and
    how many transfer. *)
Definition steady (schedule : list fd_call) : Prop :=
  Forall (fun c => match c with Transfers n => 1 <= n | Interrupted => True | Fails _ => False end)
    schedule.

Fixpoint transfers (schedule : list fd_call) : Z :=
  match schedule with
  | [] => 0
  | Transfers _ :: schedule' => 1 + transfers schedule'
  | _ :: schedule' => transfers schedule'
  end.

(** The counts asked for are in range, so a transfer takes between one byte and
    the count. *)
Lemma kernel_transfers n count :
  0 < count -> 1 <= n ->
  exists k, kernel (Transfers n) (Z.min count kMaxIoChunk) = Count k /\ 1 <= k <= count.
Proof.
  intros Hc Hn. unfold kernel.
  assert (kMaxIoChunk = 1073741824 /\ INT_MAX = 2147483647) as [Ek Ei] by done.
  destruct (Z.ltb_spec INT_MAX (Z.min count kMaxIoChunk)); [lia|]. eexists. split; [done|]. lia.
Qed.

Lemma kernel_interrupted count :
  kernel Interrupted (Z.min count kMaxIoChunk) = Eintr.
Proof.
  unfold kernel. assert (kMaxIoChunk = 1073741824 /\ INT_MAX = 2147483647) as [Ek Ei] by done.
  destruct (Z.ltb_spec INT_MAX (Z.min count kMaxIoChunk)); [lia|done].
Qed.

Lemma write_all_fd_steady schedule data sent :
  steady schedule -> blen data <= transfers schedule ->
  write_all_fd schedule data sent = Some (Ok tt, sent ++ data).
Proof.
  revert data sent; induction schedule as [|call schedule IH]; intros data sent Hs Ht;
    cbn [write_all_fd transfers] in *; destruct (Z.leb_spec (blen data) 0) as [Hd|Hd];
    try (destruct data; [by rewrite app_nil_r|cbn in Hd; lia]); [lia|].
  inversion Hs as [|? ? Hc Hs']; subst. destruct call as [n| |e]; [| |done].
  - destruct (kernel_transfers n (blen data) Hd Hc) as (k & -> & Hk).
    destruct (Z.eqb_spec k 0); [lia|]. rewrite IH by (done || (rewrite length_drop; lia)).
    by rewrite <- app_assoc, take_drop.
  - rewrite kernel_interrupted. by apply IH.
Qed.

Lemma read_full_fd_steady schedule nbytes avail got :
  steady schedule -> blen got <= nbytes -> nbytes - blen got <= blen avail ->
  nbytes - blen got <= transfers schedule ->
  read_full_fd schedule nbytes avail got =
    Some (Ok (got ++ take (Z.to_nat (nbytes - blen got)) avail),
          drop (Z.to_nat (nbytes - blen got)) avail).
Proof.
  revert avail got; induction schedule as [|call schedule IH]; intros avail got Hs Hg Ha Ht;
    cbn [read_full_fd transfers] in *; destruct (Z.leb_spec nbytes (blen got)) as [Hd|Hd];
    try (replace (nbytes - blen got) with 0 by lia; by rewrite app_nil_r); [lia|].
  inversion Hs as [|? ? Hc Hs']; subst. destruct call as [n| |e]; [| |done].
  - destruct (kernel_transfers n (nbytes - blen got) ltac:(lia) Hc) as (k & -> & Hk). cbv zeta.
    rewrite (Z.min_l k) by lia. destruct (Z.eqb_spec k 0); [lia|].
    assert (blen (got ++ take (Z.to_nat k) avail) = blen got + k) as El
      by (rewrite length_app, length_take; lia).
    assert (blen (drop (Z.to_nat k) avail) = blen avail - k) as Ed by (rewrite length_drop; lia).
    rewrite IH; [|done|lia..]. rewrite El, drop_drop, <- app_assoc. f_equal. f_equal.
    + do 2 f_equal.
      replace (Z.to_nat (nbytes - blen got)) with (Z.to_nat k + Z.to_nat (nbytes - (blen got + k)))%nat
        by lia.
      by rewrite take_take_drop.
    + f_equal. lia.
  - rewrite kernel_interrupted. by apply IH.
Qed.

Lemma kernel_count call count n :
  0 <= count -> kernel call count = Count n -> 0 <= n <= count.
Proof.
  unfold kernel. intros Hc. destruct (INT_MAX <? count); [done|]. destruct call; [|done|done].
  intros [= <-]. lia.
Qed.

(** Whatever the calls do, what has gone out is a prefix. *)
Lemma write_all_fd_prefix schedule data sent r out :
  write_all_fd schedule data sent = Some (r, out) ->
  exists n, out = sent ++ take n data /\ (r = Ok tt -> out = sent ++ data).
Proof.
  revert data sent; induction schedule as [|call schedule IH]; intros data sent; cbn [write_all_fd];
    destruct (Z.leb_spec (blen data) 0) as [Hd|Hd]; try done;
    try (intros [= <- <-]; exists 0%nat; destruct data; [by rewrite take_0, app_nil_r|cbn in Hd; lia]).
  cbv zeta. destruct (kernel call (Z.min (blen data) kMaxIoChunk)) as [n| |e].
  - destruct (n =? 0); [intros [= <- <-]; exists 0%nat; by rewrite take_0, app_nil_r|].
    intros E. apply IH in E as (k & -> & Hr). exists (Z.to_nat n + k)%nat.
    rewrite <- app_assoc, take_take_drop. split; [done|]. intros E. specialize (Hr E).
    rewrite <- !app_assoc, take_drop in Hr. by rewrite <- take_take_drop.
  - apply IH.
  - destruct (bool_decide _); intros [= <- <-]; exists 0%nat; by rewrite take_0, app_nil_r.
Qed.

(** Whatever the calls do, no byte of the stream is lost or repeated. *)
Lemma read_full_fd_splits schedule nbytes avail got got' avail' :
  blen got <= nbytes ->
  read_full_fd schedule nbytes avail got = Some (Ok got', avail') ->
  got' ++ avail' = got ++ avail /\ blen got' <= nbytes.
Proof.
  revert avail got; induction schedule as [|call schedule IH]; intros avail got Hg; cbn [read_full_fd];
    destruct (Z.leb_spec nbytes (blen got)) as [Hd|Hd]; try done; try (intros [= <- <-]; done).
  cbv zeta. destruct (kernel call (Z.min (nbytes - blen got) kMaxIoChunk)) as [n| |e] eqn:Ek;
    [|by apply IH|done].
  apply kernel_count in Ek; [|unfold kMaxIoChunk; lia].
  destruct (_ =? 0); [by intros [= <- <-]|]. intros E. apply IH in E as [E Hl].
  - by rewrite E, <- app_assoc, take_drop.
  - rewrite length_app, length_take. lia.
Qed.

(** ** Properties *)

(** C29: a stream written to the connection is the stream the peer reads, or
    the writer throws.  For a schema the stream writer takes and batches of that
    schema, on a pipe that takes any number of messages: what goes out is the
    stream's messages from the first, as many as the pipe takes.  When all of
    them are out, [write_ipc_stream] returns and a peer that finds them at the
    head of its input reads back the schema, the batches and the metadata, in
    order, and nothing of what follows.  When the pipe breaks first it throws
    the broken pipe's error.  Nothing is read from the input meanwhile. *)
Theorem ipc_stream_roundtrip `{ArrowStreams} s batches w rest peer :
  stream_writer_ok s = true -> Forall (fits s) batches ->
  let ms := stream_messages s batches in
  let n := match room w with None => length ms | Some k => Nat.min k (length ms) end in
  let '(r, w') := write_ipc_stream s batches w in
  input w' = input w /\ output w' = output w ++ take n ms /\
  match r with
  | Done _ => n = length ms /\
      (input peer = take n ms ++ rest ->
       read_ipc_stream peer = (Done (Some (s, batches)), with_input peer rest true))
  | Raised e => (n < length ms)%nat /\ e = broken_pipe
  end.
Proof.
  intros Ho Hf ms n. destruct (write_ipc_stream_written s batches w Ho Hf) as (E1 & E2 & E3).
  destruct (write_ipc_stream s batches w) as [r w']. cbn [fst snd] in *. fold ms in E2, E3.
  change (taken w (length ms)) with n in E2, E3. assert (n <= length ms)%nat as Hn
    by (subst n; destruct (room w); lia).
  split_and!; [done..|]. destruct (Nat.ltb_spec n (length ms)) as [Hl|Hl]; subst r; [done|].
  assert (n = length ms) as En by lia. split; [done|]. rewrite En, take_ge by done.
  apply read_ipc_stream_spec.
Qed.

(** C27: [write_all_fd] and [read_full_fd] transfer payloads of any size.
    Whatever the platform answers to the calls, what the descriptor has taken is
    a prefix of the data, and the whole of it when the writer returns; what the
    reader returns, with what is left of the stream, is the stream, and is no
    longer than it asked for.  However the platform splits and interrupts the
    calls, as long as none fails and each that is not interrupted makes
    progress, both return, after at most one transfer per byte: every byte is
    written once and in order, and the reader gets exactly those bytes and
    leaves the rest of the stream; so no single call asks for more than
    [INT_MAX], which the platform refuses. *)
Theorem fd_transfer_complete writes reads data more :
  (forall r out, write_all_fd writes data [] = Some (r, out) ->
     exists n, out = take n data /\ (r = Ok tt -> out = data)) /\
  (forall nbytes got rest, 0 <= nbytes ->
     read_full_fd reads nbytes (data ++ more) [] = Some (Ok got, rest) ->
     got ++ rest = data ++ more /\ blen got <= nbytes) /\
  (steady writes -> blen data <= transfers writes ->
     write_all_fd writes data [] = Some (Ok tt, data)) /\
  (steady reads -> blen data <= transfers reads ->
     read_full_fd reads (blen data) (data ++ more) [] = Some (Ok data, more)).
Proof.
  split_and!.
  - intros r out E. by apply write_all_fd_prefix in E.
  - intros nbytes got rest Hn E. by apply read_full_fd_splits in E.
  - intros Hw Htw. by rewrite write_all_fd_steady.
  - intros Hr Htr. rewrite read_full_fd_steady; cbn [length Z.of_nat]; rewrite ?Z.sub_0_r; try done;
      [|lia|rewrite length_app; lia].
    rewrite Nat2Z.id. by rewrite take_app_length, drop_app_length.
Qed.

(** ** Witnesses *)

Import ToyArrow.

Module ToyStreams.
#[export] Instance toy_streams : ArrowStreams := {|
  schema_equal s t := Bool.eqb s t;
  empty_schema := false;
  stream_writer_ok _ := true;
  stream_writer_error _ := [];
|}.
#[export] Instance toy_streams_laws : ArrowStreamsLaws.
Proof. split; [by intros []|by intros [] [] []|by intros [] []]. Qed.

#[export] Instance toy_total : ArrowTotal.
Proof. split; [by eexists|done|by eexists]. Qed.

Definition toy_schema : @Schema toy_arrow := false.
Definition toy_wire (i : list message) : wire :=
  {| input := i; at_eos := false; output := []; writer := None; room := None |}.
Definition toy_data_batch (d : bytes) : @RecordBatch toy_arrow := {| toy_dictionary := false; toy_data := d |}.
End ToyStreams.

Import ToyStreams.

(** Four messages fit the first pipe; the second breaks after two. *)
Lemma ipc_stream_roundtrip_witness :
  let batches := [data (toy_data_batch [x07]); data (toy_data_batch [x08])] in
  let pipe n := {| input := []; at_eos := false; output := []; writer := None; room := Some n |} in
  (write_ipc_stream toy_schema batches (pipe 4%nat)).1 = Done tt /\
  read_ipc_stream (toy_wire (output (write_ipc_stream toy_schema batches (pipe 4%nat)).2)) =
    (Done (Some (toy_schema, batches)), with_input (toy_wire []) [] true) /\
  (write_ipc_stream toy_schema batches (pipe 2%nat)).1 = Raised broken_pipe /\
  output (write_ipc_stream toy_schema batches (pipe 2%nat)).2 =
    [MsgSchema toy_schema; ab_message (data (toy_data_batch [x07]))].
Proof.
  intros batches pipe.
  pose proof (ipc_stream_roundtrip toy_schema batches (pipe 4%nat) []
    (toy_wire (stream_messages toy_schema batches)) eq_refl
    ltac:(repeat (apply Forall_cons_2; [reflexivity|]); apply Forall_nil_2)) as H4.
  pose proof (ipc_stream_roundtrip toy_schema batches (pipe 2%nat) [] (toy_wire []) eq_refl
    ltac:(repeat (apply Forall_cons_2; [reflexivity|]); apply Forall_nil_2)) as H2.
  vm_compute in H4, H2. destruct H4 as (_ & E4 & _ & R). destruct H2 as (_ & E2 & _).
  split; [reflexivity|]. split; [apply R; reflexivity|]. split; [reflexivity|exact E2].
Defined.

Lemma fd_transfer_complete_witness :
  write_all_fd [Interrupted; Transfers 1; Interrupted; Transfers 5] [x01; x02] [] =
    Some (Ok tt, [x01; x02]) /\
  read_full_fd [Transfers 1; Transfers 1] 2 ([x01; x02] ++ [x03]) [] = Some (Ok [x01; x02], [x03]).
Proof.
  destruct (fd_transfer_complete [Interrupted; Transfers 1; Interrupted; Transfers 5]
    [Transfers 1; Transfers 1] [x01; x02] [x03]) as (_ & _ & W & R).
  split; [apply W|apply R]; try (cbn; lia);
    repeat (apply Forall_cons_2; [first [done|cbn; lia]|]); apply Forall_nil_2.
Defined.
