(* ===== verification/TokenIdentity.v ===== *)
(** * The identity protocol's guards (src/src/token_identity.cpp, token_identity.h)

    [vgi_rpc.Identity.v2]: resolving a credential and minting a grant.  The guards
    and [IdentityImpl] are here; the protocol surface is in [IdentityServer].

    Hooks are the worker's: functions of the application's state.  What a call
    reads of the system (two clock readings, the randomness of a mint) is an
    [Env]. *)

From Stdlib Require Import Floats.SpecFloat.
From S2P Require Import Prelude Json Crypto IdentityInternal Grants Errors PeerIdentity FloatText Wire.

Definition kMaxTokenBytes : Z := 4096.
Definition kDefaultMaxAuthAge : binary64 := dbl_of_Z 900.
Definition kDefaultIdentityRetryAfter : Z := 5.

(** ** Whitespace and the shape of a credential *)

Definition ascii_space (b : Z) : bool := (b =? 0x20) || ((0x09 <=? b) && (b <=? 0x0d)).

(** The byte at [pos]; the code reads only inside the string. *)
Definition byte_at (token : bytes) (pos : nat) : Z := b2z (token !!! pos).

Definition WhitespaceWidth (token : bytes) (pos : nat) : nat :=
  let byte := byte_at token pos in
  if ascii_space byte then 1%nat
  else if (byte =? 0xc2) && (pos + 1 <? length token)%nat then
    let next := byte_at token (pos + 1) in
    if (next =? 0x85) || (next =? 0xa0) then 2%nat else 0%nat
  else 0%nat.

Definition TrailingWhitespaceWidth (token : bytes) (begin_ end_ : nat) : nat :=
  if (2 <=? end_ - begin_)%nat && (WhitespaceWidth token (end_ - 2) =? 2)%nat then 2%nat
  else if ascii_space (byte_at token (end_ - 1)) then 1%nat else 0%nat.

(** The two loops; every round moves by a byte at least, so the length is enough
    [fuel]. *)
Fixpoint skip_front (fuel : nat) (token : bytes) (begin_ : nat) : nat :=
  match fuel with
  | O => begin_
  | S fuel' =>
      if (begin_ <? length token)%nat then
        let width := WhitespaceWidth token begin_ in
        if (width =? 0)%nat then begin_ else skip_front fuel' token (begin_ + width)
      else begin_
  end.

Fixpoint skip_back (fuel : nat) (token : bytes) (begin_ end_ : nat) : nat :=
  match fuel with
  | O => end_
  | S fuel' =>
      if (begin_ <? end_)%nat then
        let width := TrailingWhitespaceWidth token begin_ end_ in
        if (width =? 0)%nat then end_ else skip_back fuel' token begin_ (end_ - width)
      else end_
  end.

Definition Trimmed (token : bytes) : bytes :=
  let begin_ := skip_front (length token) token 0 in
  let end_ := skip_back (length token) token begin_ (length token) in
  take (end_ - begin_) (drop begin_ token).

Definition is_b64url (c : byte) : bool :=
  in_range c "A" "Z" || in_range c "a" "z" || in_range c "0" "9" || Byte.eqb c "_" || Byte.eqb c "-".

(** [while (offset < view.size() && is_b64url(view[offset])) ++offset;] *)
Definition skip_segment (view : bytes) (offset : nat) : nat :=
  (offset + length (take_while is_b64url (drop offset view)))%nat.

Fixpoint jws_segments (n : nat) (view : bytes) (offset : nat) : option nat :=
  match n with
  | O => Some offset
  | S n' =>
      let start := offset in
      let offset := skip_segment view offset in
      if (offset =? start)%nat then None
      else if (length view <=? offset)%nat || negb (Byte.eqb (view !!! offset) ".") then None
      else jws_segments n' view (offset + 1)
  end.

Definition IsJwsShaped (view : bytes) : bool :=
  match jws_segments 2 view 0 with
  | None => false
  | Some offset => (skip_segment view offset =? length view)%nat
  end.

Definition token_digest `{Digests} (token : bytes) : bytes := hex_encode (sha256 token).

(** ** Errors *)

Definition IntrospectionRefusedError (what : bytes) : exception :=
  KindedError (str "introspection_refused") (str "IntrospectionRefusedError") what.
Definition TokenUnresolvedError (what : bytes) : exception :=
  KindedError (str "token_unresolved") (str "TokenUnresolvedError") what.
Definition StaleAuthError (what : bytes) : exception :=
  KindedError (str "stale_auth") (str "StaleAuthError") what.
Definition GrantRefusedError (what : bytes) : exception :=
  KindedError (str "grant_refused") (str "GrantRefusedError") what.
Definition IdentityUnavailableError (detail : bytes) (retry_after : Z) : exception :=
  KindedError_full (str "identity_unavailable") (str "IdentityUnavailableError")
    (match detail with [] => str "identity lookup unavailable" | _ => detail end)
    UNAVAILABLE (JArray [detail_to_json (RetryInfo (dbl_of_Z retry_after))]).

(** ** Guards *)

Definition normalise_principals (principals : list bytes) : res (gset bytes) :=
  let allowed : gset bytes := list_to_set (filter (fun p => p <> []) principals) in
  _ ← throw_if (bool_decide (allowed = ∅))
        (InvalidArgument (str "introspect_principals must name at least one principal. Introspection is a distinct capability from authentication: allowing any authenticated caller lets any user resolve any other user's credential to its owner."));
  Ok allowed.

Definition check_introspector {St : Type} (auth : AuthContext) (principals : gset bytes) : M St bytes :=
  let caller := default [] (auth_principal auth) in
  if negb (authenticated auth) || negb (bool_decide (caller ∈ principals)) then
    raise (IntrospectionRefusedError (str "caller is not an introspector"))
  else mret caller.

Definition reject_jws_shaped {St : Type} (token : bytes) : M St unit :=
  let candidate := Trimmed token in
  if (length candidate =? 0)%nat || (kMaxTokenBytes <? blen token) || IsJwsShaped candidate then
    raise (TokenUnresolvedError (str "unresolved"))
  else mret tt.

Definition dbl_sub : binary64 -> binary64 -> binary64 := SFsub 53 1024.

(** [duration<double>] of a reading of the system clock in nanoseconds. *)
Definition WallSeconds (wall_ns : Z) : binary64 := SFdiv 53 1024 (dbl_of_Z wall_ns) (dbl_of_Z 1000000000).

(** The number a claim holds: [get<double>], or all of a string. *)
Definition claim_seconds (claim : json) : option binary64 :=
  match claim with
  | JInteger z => Some (dbl_of_Z z)
  | JFloat f => Some f
  | JString raw =>
      match stod raw with
      | Some (v, consumed) => if (consumed =? length raw)%nat then Some v else None
      | None => None
      end
  | _ => None
  end.

(** [char message[256]]: 255 characters and the terminator. *)
Definition stale_message (age max_auth_age : binary64) : bytes :=
  take 255 (str "last authentication was " ++ format_0f age ++ str "s ago, which exceeds the "
            ++ format_0f max_auth_age ++ str "s ceiling for minting a grant; re-authenticate").

Definition check_freshness {St : Type} (wall_ns : Z) (auth : AuthContext) (max_auth_age : binary64)
    (now : option binary64) : M St binary64 :=
  if negb (authenticated auth) || match auth_principal auth with None | Some [] => true | _ => false end then
    raise (StaleAuthError (str "caller is not authenticated"))
  else
    match jfind (auth_claims auth) (str "auth_time") with
    | None | Some JNull =>
        raise (StaleAuthError (str "credential carries no auth_time; only a recently authenticated user may mint a grant"))
    | Some claim =>
        match claim_seconds claim with
        | None => raise (StaleAuthError (str "credential carries an unusable auth_time"))
        | Some auth_time =>
            let age := dbl_sub (match now with Some n => n | None => WallSeconds wall_ns end) auth_time in
            if dbl_gt age max_auth_age then raise (StaleAuthError (stale_message age max_auth_age))
            else mret auth_time
        end
    end.

(** ** Payloads and hooks *)

Record TokenIdentity := { ti_principal : bytes; ti_token_name : bytes; ti_ttl_seconds : Z }.

(** [expires_at] in microseconds since the epoch. *)
Record IssuedGrant := { ig_token : bytes; ig_expires_at : Z; ig_grant_id : bytes }.

(** What a hook does: [HookUnavailable] is an [AuthUnavailableError] and
    [HookIdentityUnavailable] an [IdentityUnavailableError], with its
    [detail()] and [retry_after()]. *)
Inductive hook_result (A : Type) :=
  | HookOk (a : A)
  | HookUnavailable (detail : bytes) (retry_after : Z)
  | HookIdentityUnavailable (detail : bytes) (retry_after : Z)
  | HookThrew (e : exception).
Arguments HookOk {A} a.
Arguments HookUnavailable {A} detail retry_after.
Arguments HookIdentityUnavailable {A} detail retry_after.
Arguments HookThrew {A} e.

Record Env := {
  freshness_ns : Z;
  mint_ns : Z;
  mint_random_id : bytes;
  mint_random_nonce : bytes;
}.

Abbreviation ResolveTokenHook App := (bytes -> App -> hook_result (option TokenIdentity) * App).
Abbreviation MintGrantHook App :=
  (Env -> bytes -> bytes -> list bytes -> Z -> App -> hook_result IssuedGrant * App).

(** [e.detail().empty() ? e.what() : e.detail()]; the [what] of an error without
    a detail is the default text. *)
Definition identity_unavailable_from (detail : bytes) (retry_after : Z) : exception :=
  IdentityUnavailableError
    (match detail with [] => str "authentication service unavailable" | _ => detail end) retry_after.

(** [try { hook } catch (const AuthUnavailableError& e)]. *)
Definition call_hook {App A} (hook : App -> hook_result A * App) : M App A := fun app =>
  match hook app with
  | (HookOk a, app') => (Done a, app')
  | (HookUnavailable detail retry_after, app') =>
      (Raised (identity_unavailable_from detail retry_after), app')
  | (HookIdentityUnavailable detail retry_after, app') =>
      (Raised (IdentityUnavailableError detail retry_after), app')
  | (HookThrew e, app') => (Raised e, app')
  end.

(** ** Sealed grants *)

Definition no_overrides : GrantMintOverrides :=
  {| ov_now := None; ov_grant_id := None; ov_nonce := None |}.

Definition sealed_mint `{Aead} `{Digests} {App} (keys : GrantKeys) : MintGrantHook App :=
  fun env principal purpose scopes ttl_seconds app =>
    if ttl_seconds <=? 0 then (HookThrew (GrantRefusedError (str "ttl_seconds must be positive")), app)
    else
      match mint_grant_token (mint_random_id env) (mint_random_nonce env) (Z.quot (mint_ns env) 1000000000)
              keys principal scopes purpose ttl_seconds no_overrides with
      | Throw (InvalidArgument what) => (HookThrew (GrantRefusedError what), app)
      | Throw e => (HookThrew (exception_of e), app)
      | Ok minted =>
          (HookOk {| ig_token := mt_token minted;
                     ig_expires_at := expires_at (mt_claims minted) * 1000000;
                     ig_grant_id := grant_id (mt_claims minted) |}, app)
      end.

Definition sealed_mint_grant `{Aead} `{Digests} {App} (keys : GrantKeys) : res (MintGrantHook App) :=
  _ ← GrantKeys_validate keys; Ok (sealed_mint keys).

(** ** [IdentityImpl] *)

Record IdentityOptions App := {
  io_resolve_token : option (ResolveTokenHook App);
  io_mint_grant : option (MintGrantHook App);
  introspect_principals : list bytes;
  io_max_auth_age : binary64;
  io_grant_keys : option GrantKeys;
}.

Record IdentityImpl App := {
  resolve_token_ : option (ResolveTokenHook App);
  mint_grant_ : option (MintGrantHook App);
  principals_ : gset bytes;
  max_auth_age_ : binary64;
  grant_keys_ : option GrantKeys;
}.
Arguments io_resolve_token {App}. Arguments io_mint_grant {App}. Arguments introspect_principals {App}.
Arguments io_max_auth_age {App}. Arguments io_grant_keys {App}.
Arguments resolve_token_ {App}. Arguments mint_grant_ {App}. Arguments principals_ {App}.
Arguments max_auth_age_ {App}. Arguments grant_keys_ {App}.

Definition new_IdentityImpl `{Aead} `{Digests} {App} (options : IdentityOptions App)
    : res (IdentityImpl App) :=
  mint ← match io_grant_keys options with
         | None => Ok (io_mint_grant options)
         | Some keys =>
             _ ← GrantKeys_validate keys;
             match io_mint_grant options with
             | Some hook => Ok (Some hook)
             | None => hook ← sealed_mint_grant keys; Ok (Some hook)
             end
         end;
  principals ← match io_resolve_token options with
               | Some _ => normalise_principals (introspect_principals options)
               | None => Ok ∅
               end;
  Ok {| resolve_token_ := io_resolve_token options; mint_grant_ := mint; principals_ := principals;
        max_auth_age_ := io_max_auth_age options; grant_keys_ := io_grant_keys options |}.

(** In the order of a [std::set]. *)
Definition offered_methods {App} (self : IdentityImpl App) : list bytes :=
  (match resolve_token_ self with Some _ => [str "introspect_token"] | None => [] end)
  ++ (match mint_grant_ self with Some _ => [str "issue_grant"] | None => [] end).

Definition introspect_token {App} (self : IdentityImpl App) (token : bytes) (auth : AuthContext)
    : M App TokenIdentity :=
  match resolve_token_ self with
  | None => raise (IntrospectionRefusedError (str "this worker does not resolve credentials"))
  | Some resolve =>
      _ ← check_introspector auth (principals_ self);
      _ ← reject_jws_shaped token;
      resolved ← call_hook (resolve token);
      match resolved with
      | None => raise (TokenUnresolvedError (str "unresolved"))
      | Some resolved => mret resolved
      end
  end.

Definition issue_grant {App} (self : IdentityImpl App) (env : Env) (purpose : bytes)
    (scopes : list bytes) (ttl_seconds : Z) (auth : AuthContext) : M App IssuedGrant :=
  match mint_grant_ self with
  | None => raise (GrantRefusedError (str "this worker does not mint grants"))
  | Some mint =>
      _ ← check_freshness (freshness_ns env) auth (max_auth_age_ self) None;
      call_hook (mint env (default [] (auth_principal auth)) purpose scopes ttl_seconds)
  end.

(** ** The shape, as a language *)

(** One or two segments followed by a point, and a last one: [seg+ . seg+ . seg*]. *)
Definition jws (t : bytes) : Prop :=
  exists a b c, t = a ++ "."%byte :: b ++ "."%byte :: c /\ a <> [] /\ b <> [] /\
    Forall (fun x => is_b64url x = true) a /\ Forall (fun x => is_b64url x = true) b /\
    Forall (fun x => is_b64url x = true) c.

(** A segment and its point, removed. *)
Definition strip_segment (d : bytes) : option bytes :=
  match take_while is_b64url d, drop (length (take_while is_b64url d)) d with
  | _ :: _, c :: r => if Byte.eqb c "." then Some r else None
  | _, _ => None
  end.

Lemma take_while_split p d : d = take_while p d ++ drop (length (take_while p d)) d.
Proof. induction d as [|c d IH]; cbn [take_while]; [done|]. destruct (p c); [|done]. cbn. by f_equal. Qed.

Lemma take_while_all p d : Forall (fun c => p c = true) (take_while p d).
Proof. induction d as [|c d IH]; cbn [take_while]; [constructor|]. destruct (p c) eqn:E; by constructor. Qed.

Lemma take_while_app p a x :
  Forall (fun c => p c = true) a -> match x with c :: _ => p c = false | [] => True end ->
  take_while p (a ++ x) = a.
Proof.
  intros Ha Hx. induction Ha as [|c a Hc _ IH]; cbn [app take_while]; [|by rewrite Hc, IH].
  destruct x as [|c x]; cbn; [done|by rewrite Hx].
Qed.

Lemma strip_segment_iff d r :
  strip_segment d = Some r <->
  exists a, d = a ++ "."%byte :: r /\ a <> [] /\ Forall (fun x => is_b64url x = true) a.
Proof.
  unfold strip_segment. split.
  - pose proof (take_while_split is_b64url d) as E. pose proof (take_while_all is_b64url d) as Ha.
    destruct (take_while is_b64url d) as [|c0 a] eqn:Et; [done|].
    destruct (drop _ d) as [|c r']; [done|]. destruct (Byte.eqb c ".") eqn:Ec; [|done].
    apply byte_eqb_eq in Ec as ->. intros [= <-]. by exists (c0 :: a).
  - intros (a & -> & Hne & Ha). rewrite take_while_app, drop_app_length by done.
    by destruct a.
Qed.

Definition strips (n : nat) (d : option bytes) : option bytes :=
  Nat.iter n (fun d => d ≫= strip_segment) d.

Lemma strips_none n : strips n None = None.
Proof. induction n as [|n IH]; [done|]. unfold strips. rewrite Nat.iter_succ. fold (strips n None). by rewrite IH. Qed.

Lemma jws_segments_strip n view offset : (offset <= length view)%nat ->
  jws_segments n view offset =
  option_map (fun r => (length view - length r)%nat) (strips n (Some (drop offset view))).
Proof.
  revert offset; induction n as [|n IH]; intros offset Ho.
  { cbn. rewrite length_drop. f_equal. lia. }
  unfold strips. rewrite Nat.iter_succ_r. fold (strips n (Some (drop offset view) ≫= strip_segment)).
  cbn [jws_segments mbind option_bind]. unfold skip_segment, strip_segment at 1.
  pose proof (take_while_split is_b64url (drop offset view)) as E.
  destruct (take_while is_b64url (drop offset view)) as [|c0 a] eqn:Et.
  { cbn [length]. by rewrite Nat.add_0_r, Nat.eqb_refl, strips_none. }
  rewrite (proj2 (Nat.eqb_neq _ _)) by (cbn; lia).
  rewrite drop_drop. set (o := (offset + length (c0 :: a))%nat) in *.
  replace (length (c0 :: a) + offset)%nat with o in * by lia.
  destruct (drop o view) as [|c r] eqn:Er.
  - assert (length view <= o)%nat as Hl by (apply (f_equal length) in Er; rewrite length_drop in Er; cbn in Er; lia).
    rewrite (proj2 (Nat.leb_le _ _) Hl). cbn [orb]. by rewrite strips_none.
  - assert (o < length view)%nat as Hl by (apply (f_equal length) in Er; rewrite length_drop in Er; cbn in Er; lia).
    rewrite (proj2 (Nat.leb_gt _ _) Hl). cbn [orb].
    assert (view !!! o = c) as ->.
    { apply list_lookup_total_correct. rewrite <- (Nat.add_0_r o), <- lookup_drop, Er. done. }
    destruct (Byte.eqb c "."); cbn [negb]; [|by rewrite strips_none].
    rewrite IH by lia. do 3 f_equal. apply (f_equal (drop 1)) in Er. rewrite drop_drop in Er.
    by rewrite Er, skipn_cons, drop_0.
Qed.

Lemma jws_strip view :
  jws view <-> exists d r, strip_segment view = Some d /\ strip_segment d = Some r /\
    Forall (fun x => is_b64url x = true) r.
Proof.
  unfold jws. setoid_rewrite strip_segment_iff. split.
  - intros (a & b & c & -> & Ha & Hb & Hfa & Hfb & Hfc). do 2 eexists.
    split; [by exists a|]. split; [by exists b|done].
  - intros (d & r & (a & -> & Ha & Hfa) & (b & -> & Hb & Hfb) & Hr). by exists a, b, r.
Qed.

Lemma strip_segment_suffix d r : strip_segment d = Some r -> exists p, d = p ++ r.
Proof. intros (a & -> & _)%strip_segment_iff. exists (a ++ ["."%byte]). by rewrite <- app_assoc. Qed.

(** The scan to the end of what two segments leave. *)
Lemma last_segment view r : (exists p, view = p ++ r) ->
  (skip_segment view (length view - length r) =? length view)%nat = true <->
  Forall (fun x => is_b64url x = true) r.
Proof.
  intros (p & ->). unfold skip_segment. rewrite length_app.
  replace (length p + length r - length r)%nat with (length p) by lia. rewrite drop_app_length, Nat.eqb_eq.
  pose proof (take_while_split is_b64url r) as E. pose proof (take_while_all is_b64url r).
  apply (f_equal length) in E as El. rewrite length_app in El. split; intros Hq.
  - assert (drop (length (take_while is_b64url r)) r = []) as Ed by (apply nil_length_inv; lia).
    rewrite Ed, app_nil_r in E. by rewrite E.
  - rewrite <- (app_nil_r r) at 1. rewrite take_while_app by done. lia.
Qed.

Lemma IsJwsShaped_iff view : IsJwsShaped view = true <-> jws view.
Proof.
  unfold IsJwsShaped. rewrite jws_segments_strip, jws_strip by lia.
  cbn [strips Nat.iter nat_rect mbind option_bind]. rewrite drop_0.
  destruct (strip_segment view) as [d|] eqn:Ev; cbn [option_map mbind option_bind].
  - destruct (strip_segment d) as [r|] eqn:Ed; cbn [option_map].
    + rewrite last_segment; [split; [eauto|]|].
      * intros (d' & r' & [= <-] & Er & Hr). rewrite Ed in Er. by injection Er as <-.
      * apply strip_segment_suffix in Ev as [p ->], Ed as [q ->]. exists (p ++ q). by rewrite app_assoc.
    + split; [done|]. intros (d' & r' & [= <-] & Er & _). by rewrite Ed in Er.
  - split; [done|]. by intros (d' & r' & ? & _).
Qed.

(** ** Padding *)

(** One whitespace codepoint of the contract, in UTF-8. *)
Inductive ws_char : bytes -> Prop :=
  | ws_ascii c : ascii_space (b2z c) = true -> ws_char [c]
  | ws_nel : ws_char [xc2; x85]
  | ws_nbsp : ws_char [xc2; xa0].

Inductive padding : bytes -> Prop :=
  | pad_nil : padding []
  | pad_cons w p : ws_char w -> padding p -> padding (w ++ p).

Definition starts_ws (s : bytes) : Prop := exists w r, ws_char w /\ s = w ++ r.
Definition ends_ws (s : bytes) : Prop := exists w r, ws_char w /\ s = r ++ w.

Lemma padding_app p q : padding p -> padding q -> padding (p ++ q).
Proof. induction 1 as [|w p Hw _ IH]; [done|]. intros Hq. rewrite <- app_assoc. constructor; auto. Qed.

Lemma padding_snoc p w : padding p -> ws_char w -> padding (p ++ w).
Proof. intros Hp Hw. apply padding_app; [done|]. rewrite <- (app_nil_r w). by repeat constructor. Qed.

Lemma padding_last p : padding p -> p = [] \/ exists q w, p = q ++ w /\ padding q /\ ws_char w.
Proof.
  induction 1 as [|w p Hw Hp [->|(q & w' & -> & Hq & Hw')]]; [by left| |]; right.
  - exists [], w. by rewrite app_nil_r.
  - exists (w ++ q), w'. rewrite app_assoc. split_and!; [done|by constructor|done].
Qed.

Lemma space_not_lead c : ascii_space (b2z c) = true -> c <> xc2 /\ c <> x85 /\ c <> xa0.
Proof. by destruct c. Qed.

(** The codepoints are a prefix code and a suffix code. *)
Lemma ws_prefix w w' x y : ws_char w -> ws_char w' -> w ++ x = w' ++ y -> w = w' /\ x = y.
Proof.
  intros Hw Hw' E. destruct Hw as [c Hc%space_not_lead| |], Hw' as [c' Hc'%space_not_lead| |]; cbn [app] in E;
    injection E; intros; subst; try done; by (destruct Hc || destruct Hc').
Qed.

Lemma ws_suffix w w' x y : ws_char w -> ws_char w' -> x ++ w = y ++ w' -> w = w' /\ x = y.
Proof.
  intros Hw Hw' E. apply (f_equal (@rev byte)) in E. rewrite !rev_app_distr in E.
  assert (rev w = rev w' /\ rev x = rev y) as [E1 E2].
  { destruct Hw as [c Hc%space_not_lead| |], Hw' as [c' Hc'%space_not_lead| |]; cbn [rev app] in E;
      injection E; intros; subst; try (split; congruence); destruct_and?; congruence. }
  split; [by rewrite <- (rev_involutive w), E1, rev_involutive|by rewrite <- (rev_involutive x), E2, rev_involutive].
Qed.

Lemma padding_prefix p p' x y : padding p -> padding p' -> ~ starts_ws x -> ~ starts_ws y ->
  p ++ x = p' ++ y -> x = y.
Proof.
  intros Hp; revert p'; induction Hp as [|w p Hw _ IH]; intros p' Hp' Hx Hy; destruct Hp' as [|w' p' Hw' Hp'].
  - done.
  - cbn [app]. intros ->. destruct Hx. exists w', (p' ++ y). by rewrite app_assoc.
  - cbn [app]. intros <-. destruct Hy. exists w, (p ++ x). by rewrite app_assoc.
  - rewrite <- !app_assoc. intros [_ E]%ws_prefix; [|done..]. by eapply IH.
Qed.

Lemma padding_suffix p p' x y : padding p -> padding p' -> ~ ends_ws x -> ~ ends_ws y ->
  x ++ p = y ++ p' -> x = y.
Proof.
  intros Hp; remember (length p) as n eqn:En. revert p p' Hp En. induction n as [n IH] using lt_wf_ind.
  intros p p' Hp -> Hp' Hx Hy E.
  destruct (padding_last p Hp) as [->|(q & w & -> & Hq & Hw)], (padding_last p' Hp') as [->|(q' & w' & -> & Hq' & Hw')].
  - by rewrite !app_nil_r in E.
  - rewrite app_nil_r in E. destruct Hx. exists w', (y ++ q'). by rewrite E, app_assoc.
  - rewrite app_nil_r in E. destruct Hy. exists w, (x ++ q). by rewrite <- E, app_assoc.
  - rewrite !app_assoc in E. apply ws_suffix in E as [_ E]; [|done..].
    apply (IH (length q)) with q q'; try done. rewrite length_app. destruct Hw; cbn; lia.
Qed.

(** The widths the scans compute, at a position and at an end. *)
Lemma byte_at_drop token pos c r : drop pos token = c :: r -> byte_at token pos = b2z c.
Proof.
  intros E. unfold byte_at. f_equal. apply list_lookup_total_correct.
  rewrite <- (Nat.add_0_r pos), <- lookup_drop, E. done.
Qed.

Lemma drop_more (token : bytes) pos c r : drop pos token = c :: r -> drop (pos + 1) token = r.
Proof. intros E. rewrite <- drop_drop, E. cbn. apply drop_0. Qed.

Lemma not_starts_ws c r :
  ascii_space (b2z c) = false ->
  (c = xc2 -> forall d r', r = d :: r' -> d <> x85 /\ d <> xa0) -> ~ starts_ws (c :: r).
Proof.
  intros Hc Hr (w & r' & Hw & E). destruct Hw as [d Hd| |]; cbn [app] in E; injection E; intros; subst.
  - congruence.
  - by destruct (Hr eq_refl _ _ eq_refl).
  - by destruct (Hr eq_refl _ _ eq_refl).
Qed.

(** The width at the head of what is left. *)
Definition ws_width (s : bytes) : nat :=
  match s with
  | c :: r =>
      if ascii_space (b2z c) then 1%nat
      else if b2z c =? 0xc2 then
        match r with
        | d :: _ => if (b2z d =? 0x85) || (b2z d =? 0xa0) then 2%nat else 0%nat
        | [] => 0%nat
        end
      else 0%nat
  | [] => 0%nat
  end.

Lemma WhitespaceWidth_drop token pos : (pos < length token)%nat ->
  WhitespaceWidth token pos = ws_width (drop pos token).
Proof.
  intros Hp. destruct (drop pos token) as [|c r] eqn:E.
  { apply (f_equal length) in E. rewrite length_drop in E. cbn in E. lia. }
  unfold WhitespaceWidth. rewrite (byte_at_drop _ _ _ _ E). cbn [ws_width].
  destruct (ascii_space (b2z c)); [done|]. destruct (b2z c =? 0xc2); [|done]. cbn [andb].
  pose proof (drop_more _ _ _ _ E) as E'. apply (f_equal length) in E' as El. rewrite length_drop in El.
  destruct r as [|d r]; cbn [length] in El.
  - by rewrite (proj2 (Nat.ltb_ge _ _)) by lia.
  - rewrite (proj2 (Nat.ltb_lt _ _)) by lia. by rewrite (byte_at_drop _ _ _ _ E').
Qed.

Lemma ws_width_zero s : ws_width s = 0%nat -> ~ starts_ws s.
Proof.
  intros Hz (w & r & Hw & ->). destruct Hw as [c Hc| |]; cbn [app ws_width] in Hz; [by rewrite Hc in Hz|done|done].
Qed.

Lemma ws_width_pos s : ws_width s <> 0%nat -> exists w, ws_char w /\ s = w ++ drop (ws_width s) s /\
  length w = ws_width s.
Proof.
  destruct s as [|c r]; cbn [ws_width]; [done|]. destruct (ascii_space (b2z c)) eqn:Ea.
  { intros _. exists [c]. split; [by constructor|]. cbn. by rewrite drop_0. }
  destruct (Z.eqb_spec (b2z c) 0xc2) as [Ec|]; [|done].
  change 0xc2 with (b2z xc2) in Ec. apply b2z_inj in Ec as ->.
  destruct r as [|d r]; [done|].
  destruct ((b2z d =? 0x85) || (b2z d =? 0xa0)) eqn:Ed; [|done]. intros _. exists [xc2; d].
  split; [|cbn; by rewrite drop_0].
  apply orb_true_iff in Ed as [Ed|Ed]; apply Z.eqb_eq in Ed;
    [change 0x85 with (b2z x85) in Ed|change 0xa0 with (b2z xa0) in Ed]; apply b2z_inj in Ed as ->; constructor.
Qed.

Lemma skip_front_spec fuel token b : (length token - b <= fuel)%nat -> (b <= length token)%nat ->
  (b <= skip_front fuel token b <= length token)%nat /\
  exists p, padding p /\ drop b token = p ++ drop (skip_front fuel token b) token /\
    ~ starts_ws (drop (skip_front fuel token b) token).
Proof.
  revert b; induction fuel as [|fuel IH]; intros b Hf Hb; cbn [skip_front].
  - replace b with (length token) by lia. split; [lia|]. exists []. rewrite drop_all.
    split_and!; [constructor|done|]. by intros (w & r & Hw & E); destruct Hw.
  - destruct (Nat.ltb_spec b (length token)) as [Hlt|Hge].
    + rewrite WhitespaceWidth_drop by done. destruct (Nat.eqb_spec (ws_width (drop b token)) 0) as [Ez|Ez].
      * split; [lia|]. exists []. split_and!; [constructor|done|by apply ws_width_zero].
      * destruct (ws_width_pos _ Ez) as (w & Hw & E & El). rewrite drop_drop in E.
        set (k := ws_width (drop b token)) in *. apply (f_equal length) in E as En.
        rewrite length_app, !length_drop in En.
        destruct (IH (b + k)%nat) as (Hr & p & Hp & Ep & Hn); [lia|lia|].
        split; [lia|]. exists (w ++ p). split; [by constructor|]. split; [|done].
        by rewrite <- app_assoc, <- Ep, E at 1.
    + split; [lia|]. exists []. replace b with (length token) by lia. rewrite drop_all.
      split_and!; [constructor|done|]. by intros (w & r & Hw & E); destruct Hw.
Qed.

(** What is between the two positions. *)
Definition between (token : bytes) (b e : nat) : bytes := take (e - b) (drop b token).

Lemma between_split token b e k : (b + k <= e)%nat -> (e <= length token)%nat ->
  between token b e = between token b (e - k) ++ take k (drop (e - k) token).
Proof.
  intros Hk He. unfold between.
  replace (drop (e - k) token) with (drop (e - k - b) (drop b token)) by (rewrite drop_drop; f_equal; lia).
  generalize (drop b token) as s. intros s. rewrite (take_drop_commute s k (e - k - b)).
  replace (e - k - b + k)%nat with (e - b)%nat by lia.
  rewrite <- (take_drop (e - k - b) (take (e - b) s)) at 1. f_equal. rewrite take_take. f_equal. lia.
Qed.

Lemma byte_at_take token pos : (pos < length token)%nat ->
  exists c, take 1 (drop pos token) = [c] /\ byte_at token pos = b2z c.
Proof.
  intros Hp. destruct (drop pos token) as [|c r] eqn:E.
  { apply (f_equal length) in E. rewrite length_drop in E. cbn in E. lia. }
  exists c. split; [by cbn; rewrite take_0|by eapply byte_at_drop].
Qed.

Lemma ends_ws_one s c : ascii_space (b2z c) = false -> (c = x85 \/ c = xa0 -> forall r, s <> r ++ [xc2]) ->
  ~ ends_ws (s ++ [c]).
Proof.
  intros Hc Hs (w & r & Hw & E). destruct Hw as [d Hd| |].
  - apply app_inj_tail in E as [_ ->]. congruence.
  - change [xc2; x85] with ([xc2] ++ [x85]) in E. rewrite app_assoc in E.
    apply app_inj_tail in E as [-> ->]. by eapply Hs; [left|].
  - change [xc2; xa0] with ([xc2] ++ [xa0]) in E. rewrite app_assoc in E.
    apply app_inj_tail in E as [-> ->]. by eapply Hs; [right|].
Qed.

Lemma two_byte_width token pos : (pos + 1 < length token)%nat ->
  WhitespaceWidth token pos = 2%nat <-> take 2 (drop pos token) = [xc2; x85] \/ take 2 (drop pos token) = [xc2; xa0].
Proof.
  intros Hp. rewrite WhitespaceWidth_drop by lia. destruct (drop pos token) as [|c [|d r]] eqn:E;
    try (apply (f_equal length) in E; rewrite length_drop in E; cbn in E; lia).
  cbn [ws_width take]. rewrite take_0. destruct (ascii_space (b2z c)) eqn:Ea.
  { split; [done|]. by intros [[= -> ->]|[= -> ->]]. }
  destruct (Z.eqb_spec (b2z c) 0xc2) as [Ec|Ec].
  - change 0xc2 with (b2z xc2) in Ec. apply b2z_inj in Ec as ->.
    change 0x85 with (b2z x85). change 0xa0 with (b2z xa0).
    destruct (Z.eqb_spec (b2z d) (b2z x85)) as [->%b2z_inj|H1]; [by split; [left|]|].
    destruct (Z.eqb_spec (b2z d) (b2z xa0)) as [->%b2z_inj|H2]; [by split; [right|]|].
    split; [done|]. intros [[= ->]|[= ->]]; done.
  - split; [done|]. intros [[= -> _]|[= -> _]]; done.
Qed.

Lemma TrailingWhitespaceWidth_spec token b e : (b < e <= length token)%nat ->
  let k := TrailingWhitespaceWidth token b e in
  (k = 0%nat /\ ~ ends_ws (between token b e)) \/
  (k <> 0%nat /\ (b + k <= e)%nat /\ ws_char (take k (drop (e - k) token))).
Proof.
  intros He. unfold TrailingWhitespaceWidth.
  destruct (byte_at_take token (e - 1)) as (c & Ec & ->); [lia|].
  destruct (Nat.leb_spec 2 (e - b)); cbn [andb].
  - destruct (Nat.eqb_spec (WhitespaceWidth token (e - 2)) 2) as [Ew|Ew].
    + right. split_and!; [done|lia|]. apply two_byte_width in Ew as [->| ->]; [constructor..|lia].
    + destruct (ascii_space (b2z c)) eqn:Ea; [right; split_and!; [done|lia|rewrite Ec; by constructor]|].
      left. split; [done|]. rewrite (between_split token b e 1), Ec by lia. apply ends_ws_one; [done|].
      intros Hc r Er. apply Ew, two_byte_width; [lia|].
      destruct (byte_at_take token (e - 2)) as (d & Ed & _); [lia|].
      rewrite (between_split token b (e - 1) 1) in Er by lia. replace (e - 1 - 1)%nat with (e - 2)%nat in Er by lia.
      rewrite Ed in Er. apply app_inj_tail in Er as [_ ->].
      assert (take 2 (drop (e - 2) token) = [xc2; c]) as ->; [|by destruct Hc as [-> | ->]; [left|right]].
      destruct (drop (e - 2) token) as [|x r'] eqn:Ex; [done|]. cbn [take] in Ed. injection Ed as ->.
      apply drop_more in Ex. replace (e - 2 + 1)%nat with (e - 1)%nat in Ex by lia. rewrite Ex in Ec.
      cbn [take]. by f_equal.
  - destruct (ascii_space (b2z c)) eqn:Ea; [right; split_and!; [done|lia|rewrite Ec; by constructor]|].
    left. split; [done|]. rewrite (between_split token b e 1), Ec by lia.
    unfold between. replace (e - 1 - b)%nat with 0%nat by lia. rewrite take_0.
    apply ends_ws_one; [done|]. intros _ r. by destruct r.
Qed.

Lemma skip_back_spec fuel token b e : (e - b <= fuel)%nat -> (b <= e <= length token)%nat ->
  (b <= skip_back fuel token b e <= e)%nat /\
  exists p, padding p /\ between token b e = between token b (skip_back fuel token b e) ++ p /\
    ~ ends_ws (between token b (skip_back fuel token b e)).
Proof.
  assert (forall b, ~ ends_ws (between token b b)) as Hnil.
  { intros b' (w & r & Hw & E). unfold between in E. rewrite Nat.sub_diag, take_0 in E.
    destruct Hw, r; done. }
  revert e; induction fuel as [|fuel IH]; intros e Hf He; cbn [skip_back].
  - replace e with b by lia. split; [lia|]. exists []. rewrite app_nil_r. split_and!; [constructor|done|apply Hnil].
  - destruct (Nat.ltb_spec b e) as [Hlt|Hge].
    + destruct (TrailingWhitespaceWidth_spec token b e ltac:(lia)) as [[Ez Hn]|(Ez & Hk & Hw)].
      * rewrite Ez. cbn [Nat.eqb]. split; [lia|]. exists []. rewrite app_nil_r. split_and!; [constructor|done|done].
      * rewrite (proj2 (Nat.eqb_neq _ _) Ez). set (k := TrailingWhitespaceWidth token b e) in *.
        destruct (IH (e - k)%nat) as (Hr & p & Hp & Ep & Hn); [lia|lia|].
        split; [lia|]. exists (p ++ take k (drop (e - k) token)). split; [by apply padding_snoc|]. split; [|done].
        rewrite (between_split token b e k), Ep by lia. by rewrite app_assoc.
    + split; [lia|]. exists []. rewrite app_nil_r. replace e with b by lia.
      split_and!; [constructor|done|apply Hnil].
Qed.

(** What trimming leaves. *)
Lemma Trimmed_spec token :
  exists p q, token = p ++ Trimmed token ++ q /\ padding p /\ padding q /\
    ~ starts_ws (Trimmed token ++ q) /\ ~ ends_ws (Trimmed token).
Proof.
  unfold Trimmed. set (b := skip_front (length token) token 0). set (e := skip_back (length token) token b (length token)).
  destruct (skip_front_spec (length token) token 0) as ([_ Hb] & p & Hp & Ep & Hnp); [lia|lia|].
  fold b in Hb, Ep, Hnp.
  destruct (skip_back_spec (length token) token b (length token)) as (He & q & Hq & Eq & Hnq); [lia|lia|].
  fold e in He, Eq, Hnq. rewrite drop_0 in Ep.
  assert (between token b (length token) = drop b token) as Hall.
  { unfold between. apply take_ge. rewrite length_drop. lia. }
  rewrite Hall in Eq. exists p, q. fold (between token b e). rewrite <- Eq. by split_and!.
Qed.

Lemma jws_no_ws j q : jws j -> ~ starts_ws (j ++ q) /\ ~ ends_ws j /\ j <> [].
Proof.
  intros (a & b & c & -> & Ha & _ & Hfa & _ & Hfc).
  assert (forall x, is_b64url x = true -> ascii_space (b2z x) = false /\ x <> xc2 /\ x <> x85 /\ x <> xa0) as Hx
    by by intros []. 
  destruct a as [|x a]; [done|]. apply Forall_inv, Hx in Hfa as (Hs & Hc2 & _). split_and!.
  - cbn [app]. apply not_starts_ws; [done|]. by intros ->.
  - assert (forall s y, ascii_space (b2z y) = false -> y <> x85 -> y <> xa0 -> ~ ends_ws (s ++ [y])) as Hl.
    { intros s y Hy H1 H2. apply ends_ws_one; [done|]. by intros [-> | ->]. }
    destruct (decide (c = [])) as [->|Hc].
    + rewrite app_comm_cons, app_assoc. by apply Hl.
    + destruct (exists_last Hc) as (c' & y & ->). apply Forall_app in Hfc as [_ Hy]. apply Forall_inv, Hx in Hy as (? & ? & ? & ?).
      replace ((x :: a) ++ "."%byte :: b ++ "."%byte :: c' ++ [y]) with
        (((x :: a) ++ "."%byte :: b ++ "."%byte :: c') ++ [y]) by (by rewrite <- app_assoc; cbn; rewrite <- app_assoc).
      by apply Hl.
  - done.
Qed.

(** ** The guards *)

(** A credential that may reach a resolver. *)
Definition acceptable (token : bytes) : Prop :=
  blen token <= kMaxTokenBytes /\ ~ padding token /\
  ~ exists p j q, padding p /\ padding q /\ jws j /\ token = p ++ j ++ q.

Lemma Trimmed_empty token : Trimmed token = [] <-> padding token.
Proof.
  destruct (Trimmed_spec token) as (p & q & E & Hp & Hq & Hn & _). split.
  - intros Et. rewrite E, Et. by apply padding_app.
  - intros Ht. assert (Trimmed token ++ q = []) as [-> _]%app_nil; [|done].
    apply (padding_prefix p token); try done.
    + by intros (w & r & Hw & Ew); destruct Hw.
    + by rewrite app_nil_r.
Qed.

Lemma Trimmed_jws token p j q : padding p -> padding q -> jws j -> token = p ++ j ++ q -> Trimmed token = j.
Proof.
  intros Hp Hq Hj E. destruct (Trimmed_spec token) as (p' & q' & E' & Hp' & Hq' & Hn & Hn').
  rewrite E in E' at 1. destruct (jws_no_ws j q Hj) as (Hs & He & _).
  apply padding_prefix in E'; [|done..]. by apply padding_suffix in E'.
Qed.

Lemma reject_iff {St : Type} (s : St) token :
  (reject_jws_shaped token s = (Done tt, s) /\ acceptable token) \/
  (reject_jws_shaped token s = (Raised (TokenUnresolvedError (str "unresolved")), s) /\ ~ acceptable token).
Proof.
  unfold reject_jws_shaped, acceptable. destruct (Nat.eqb_spec (length (Trimmed token)) 0) as [E0|E0].
  { right. split; [done|]. intros (_ & Hp & _). apply Hp, Trimmed_empty. by apply nil_length_inv. }
  destruct (Z.ltb_spec kMaxTokenBytes (blen token)) as [Hl|Hl]; [right; split; [done|intros [? _]; lia]|].
  destruct (IsJwsShaped (Trimmed token)) eqn:Ej.
  - right. split; [done|]. intros (_ & _ & Hj). apply Hj. apply IsJwsShaped_iff in Ej.
    destruct (Trimmed_spec token) as (p & q & E & Hp & Hq & _). eauto 10.
  - left. split; [done|]. split; [lia|]. split.
    + intros Hp%Trimmed_empty. rewrite Hp in E0. done.
    + intros (p & j & q & Hp & Hq & Hj & E). apply (Trimmed_jws _ _ _ _ Hp Hq Hj) in E.
      rewrite E, (proj2 (IsJwsShaped_iff j) Hj) in Ej. done.
Qed.

(** C34: the credential guard is the contract.  A credential passes exactly when it
    has at most 4096 bytes, is not blank, and is not a JWS with any whitespace of
    the contract around it ([seg+ . seg+ . seg*] over the base64url alphabet);
    every other one gets the one uniform error, and nothing else happens. *)
Theorem credential_guard {St : Type} (s : St) token :
  (reject_jws_shaped token s = (Done tt, s) <-> acceptable token) /\
  (reject_jws_shaped token s = (Raised (TokenUnresolvedError (str "unresolved")), s) <-> ~ acceptable token).
Proof. destruct (reject_iff s token) as [[-> Ha]|[-> Ha]]; split; split; done || tauto. Qed.

(** [auth] names a caller of the allowlist. *)
Definition may_introspect (principals : gset bytes) (auth : AuthContext) : Prop :=
  authenticated auth = true /\ default [] (auth_principal auth) ∈ principals.

(** Introspection asks the resolver only for an authenticated caller of the
    allowlist and an acceptable credential.  To every other caller the answer is
    the same for every credential, and the application's code does not run. *)
Theorem introspection_guarded {App} (self : IdentityImpl App) resolve token auth app :
  resolve_token_ self = Some resolve ->
  (may_introspect (principals_ self) auth -> acceptable token ->
   introspect_token self token auth app =
     match resolve token app with
     | (HookOk (Some i), app') => (Done i, app')
     | (HookOk None, app') => (Raised (TokenUnresolvedError (str "unresolved")), app')
     | (HookUnavailable detail retry, app') => (Raised (identity_unavailable_from detail retry), app')
     | (HookIdentityUnavailable detail retry, app') => (Raised (IdentityUnavailableError detail retry), app')
     | (HookThrew e, app') => (Raised e, app')
     end) /\
  (may_introspect (principals_ self) auth -> ~ acceptable token ->
   introspect_token self token auth app = (Raised (TokenUnresolvedError (str "unresolved")), app)) /\
  (~ may_introspect (principals_ self) auth ->
   introspect_token self token auth app =
     (Raised (IntrospectionRefusedError (str "caller is not an introspector")), app)).
Proof.
  intros Hr. unfold introspect_token, may_introspect. rewrite Hr.
  unfold check_introspector. unfold mbind, M_bind. destruct (authenticated auth); cbn [negb orb];
    [case_bool_decide as Hc; cbn [negb]|]; cbn [mret M_ret].
  - destruct (reject_iff app token) as [[-> Ha]|[-> Ha]]; (split_and!; [intros _ Hacc|intros _ Hacc|intros Hn]); try done;
      try (by destruct Hn).
    unfold call_hook. by destruct (resolve token app) as [[[i|]| | |] app'].
  - split_and!; [by intros []|by intros []|done].
  - split_and!; [by intros []|by intros []|done].
Qed.

(** ** Freshness *)

(** The caller authenticated at [t], as its credential says. *)
Definition authenticated_at (auth : AuthContext) (t : binary64) : Prop :=
  authenticated auth = true /\ (exists p, auth_principal auth = Some p /\ p <> []) /\
  exists claim, jfind (auth_claims auth) (str "auth_time") = Some claim /\ claim <> JNull /\
    claim_seconds claim = Some t.

Lemma check_freshness_iff {St : Type} wall_ns auth max now (s : St) t :
  check_freshness wall_ns auth max now s = (Done t, s) <->
  authenticated_at auth t /\
  dbl_gt (dbl_sub (match now with Some n => n | None => WallSeconds wall_ns end) t) max = false.
Proof.
  unfold check_freshness, authenticated_at. split.
  - destruct (authenticated auth); [|done]. destruct (auth_principal auth) as [[|c p]|]; try done.
    cbn [negb orb]. destruct (jfind _ _) as [claim|]; [|done].
    assert (match claim with JNull => True | _ => claim <> JNull end) as Hnull by by destruct claim.
    destruct claim; try done.
    all: cbn beta iota; destruct (claim_seconds _) as [t'|] eqn:Ec; [|done].
    all: destruct (dbl_gt _ _) eqn:Eg; [done|]; intros [= <-]; split; [|done].
    all: split_and!; [done|by eexists|]; eexists; done.
  - intros [(-> & (p & -> & Hp) & claim & -> & Hn & Ec) Hg]. destruct p as [|c p]; [done|]. cbn [negb orb].
    destruct claim; [done|..]; rewrite Ec, Hg; done.
Qed.

Lemma check_freshness_same {St : Type} wall_ns auth max now (s : St) :
  (exists t, check_freshness wall_ns auth max now s = (Done t, s)) \/
  (exists what, check_freshness wall_ns auth max now s = (Raised (StaleAuthError what), s)).
Proof.
  unfold check_freshness. destruct (_ || _); [by right; eexists|].
  destruct (jfind _ _) as [[]|]; try (by right; eexists);
    (destruct (claim_seconds _); [|by right; eexists]; destruct (dbl_gt _ _); [right|left]; by eexists).
Qed.

(** An identity provider that writes numbers as strings changes nothing. *)
Lemma claim_text_is_number z : - 2 ^ 63 < z < 2 ^ 63 ->
  claim_seconds (JString (to_string z)) = claim_seconds (JInteger z).
Proof. intros Hz. cbn [claim_seconds]. rewrite stod_to_string by done. by rewrite Nat.eqb_refl. Qed.

(** The text [nan] reads as a number, and no age computed from it exceeds a
    ceiling: the guard passes whatever the clock says. *)
Theorem nan_auth_time_is_never_stale {St : Type} wall_ns auth max now (s : St) p :
  authenticated auth = true -> auth_principal auth = Some p -> p <> [] ->
  jfind (auth_claims auth) (str "auth_time") = Some (JString (str "nan")) ->
  check_freshness wall_ns auth max now s = (Done S754_nan, s).
Proof.
  intros Ha Hp Hne Hc. apply check_freshness_iff. split.
  - split_and!; [done|by exists p|]. eexists. split_and!; [exact Hc|done|reflexivity].
  - unfold dbl_sub, dbl_gt. destruct (match now with Some n => n | None => _ end), max; reflexivity.
Qed.

(** A grant is minted only for the caller, and only after a login the worker
    accepts as recent.  Either the hook runs with the caller's own principal, the
    credential carrying an [auth_time] no older than the ceiling, or the answer is
    [stale_auth] and no application code runs. *)
Theorem grant_needs_fresh_login {App} (self : IdentityImpl App) mint env purpose scopes ttl auth app :
  mint_grant_ self = Some mint ->
  (exists t p, authenticated_at auth t /\ auth_principal auth = Some p /\
    dbl_gt (dbl_sub (WallSeconds (freshness_ns env)) t) (max_auth_age_ self) = false /\
    issue_grant self env purpose scopes ttl auth app = call_hook (mint env p purpose scopes ttl) app) \/
  ((forall t, authenticated_at auth t ->
      dbl_gt (dbl_sub (WallSeconds (freshness_ns env)) t) (max_auth_age_ self) = true) /\
   exists what, issue_grant self env purpose scopes ttl auth app = (Raised (StaleAuthError what), app)).
Proof.
  intros Hm. unfold issue_grant. rewrite Hm. unfold mbind, M_bind.
  destruct (check_freshness_same (freshness_ns env) auth (max_auth_age_ self) None app) as [[t E]|[what E]].
  - left. rewrite E. apply check_freshness_iff in E as [Ht Hg]. destruct Ht as (Ha & (p & Hp & Hne) & Hc).
    exists t, p. split; [split_and!; eauto|]. rewrite Hp. by split_and!.
  - right. split; [|rewrite E; by eexists]. intros t Ht. apply not_false_iff_true. intros Hg.
    assert (check_freshness (freshness_ns env) auth (max_auth_age_ self) None app = (Done t, app)) as E'
      by by apply check_freshness_iff. congruence.
Qed.

(** A call changes the application's state only behind its guard. *)
Lemma introspect_token_effect {App} (self : IdentityImpl App) token auth app :
  (introspect_token self token auth app).2 = app \/
  (may_introspect (principals_ self) auth /\ acceptable token).
Proof.
  unfold introspect_token, may_introspect, check_introspector. destruct (resolve_token_ self) as [resolve|]; [|by left].
  unfold mbind, M_bind. destruct (authenticated auth); cbn [negb orb]; [|by left].
  case_bool_decide as Hc; cbn [negb]; [|by left]. cbn [mret M_ret].
  destruct (reject_iff app token) as [[-> Ha]|[-> Ha]]; [by right|by left].
Qed.

Lemma issue_grant_effect {App} (self : IdentityImpl App) env purpose scopes ttl auth app :
  (issue_grant self env purpose scopes ttl auth app).2 = app \/
  exists t, authenticated_at auth t /\ dbl_gt (dbl_sub (WallSeconds (freshness_ns env)) t) (max_auth_age_ self) = false.
Proof.
  unfold issue_grant. destruct (mint_grant_ self) as [mint|]; [|by left]. unfold mbind, M_bind.
  destruct (check_freshness_same (freshness_ns env) auth (max_auth_age_ self) None app) as [[t E]|[what E]].
  - right. exists t. by apply check_freshness_iff in E.
  - left. by rewrite E.
Qed.

(** ** Construction *)

Lemma normalise_principals_ok ps allowed : normalise_principals ps = Ok allowed ->
  allowed <> ∅ /\ forall p, p ∈ allowed <-> p ∈ ps /\ p <> [].
Proof.
  unfold normalise_principals. intros E. inv_res. subst. bool_to_prop. split; [done|].
  intros p. rewrite elem_of_list_to_set, list_elem_of_filter. tauto.
Qed.

(** Construction fails closed.  An implementation that resolves credentials
    has an allowlist: not empty, of the configured names, without the empty
    name, so that a caller without a principal is never on it; and it offers
    exactly the methods whose hooks it has, a mint hook coming with the grant
    keys when the worker has none. *)
Theorem identity_built `{Aead} `{Digests} {App} (options : IdentityOptions App) self :
  new_IdentityImpl options = Ok self ->
  (is_Some (resolve_token_ self) ->
   principals_ self <> ∅ /\
   (forall p, p ∈ principals_ self <-> p ∈ introspect_principals options /\ p <> []) /\
   forall auth, may_introspect (principals_ self) auth ->
     exists p, auth_principal auth = Some p /\ p ∈ introspect_principals options /\ p <> []) /\
  (str "introspect_token" ∈ offered_methods self <-> is_Some (io_resolve_token options)) /\
  (str "issue_grant" ∈ offered_methods self <->
   is_Some (io_mint_grant options) \/ is_Some (io_grant_keys options)) /\
  (forall keys, io_grant_keys options = Some keys -> GrantKeys_validate keys = Ok tt).
Proof.
  unfold new_IdentityImpl, offered_methods, sealed_mint_grant. intros E. inv_res. subst self.
  cbn [resolve_token_ mint_grant_ principals_ grant_keys_].
  assert ((is_Some x <-> is_Some (io_mint_grant options) \/ is_Some (io_grant_keys options)) /\
    forall keys, io_grant_keys options = Some keys -> GrantKeys_validate keys = Ok tt) as [Hm Hk].
  { destruct (io_grant_keys options) as [keys|], (io_mint_grant options) as [hook|]; inv_res; subst;
      repeat match goal with u : unit |- _ => destruct u end;
      (split; [rewrite ?is_Some_alt; naive_solver|by intros ? [= <-]]). }
  split_and!; [| | |done].
  - intros [resolve Hr]. rewrite Hr in *.
    match goal with H : normalise_principals _ = Ok _ |- _ => apply normalise_principals_ok in H as [Hne Hin] end.
    split_and!; [done|done|]. intros auth [_ Hp]. apply Hin in Hp as [Hp Hpne].
    destruct (auth_principal auth) as [p|]; [by exists p|done].
  - destruct (io_resolve_token options), x; set_solver.
  - rewrite <- Hm. destruct (io_resolve_token options), x; set_solver.
Qed.

(** ** Sealed grants, end to end *)

Lemma issue_grant_done {App} (self : IdentityImpl App) mint env purpose scopes ttl auth app g app' :
  mint_grant_ self = Some mint -> issue_grant self env purpose scopes ttl auth app = (Done g, app') ->
  exists t p, authenticated_at auth t /\ auth_principal auth = Some p /\ p <> [] /\
    dbl_gt (dbl_sub (WallSeconds (freshness_ns env)) t) (max_auth_age_ self) = false /\
    mint env p purpose scopes ttl app = (HookOk g, app').
Proof.
  intros Hm. unfold issue_grant. rewrite Hm. intros (t & s & E & Ecall)%bind_done_inv.
  destruct (check_freshness_same (freshness_ns env) auth (max_auth_age_ self) None app) as [[t' E']|[what E']];
    rewrite E' in E; [|done]. injection E as <- <-. apply check_freshness_iff in E' as [Ht Hg].
  pose proof Ht as (_ & (p & Hp & Hne) & _). rewrite Hp in Ecall. exists t', p. split_and!; try done.
  unfold call_hook in Ecall. cbn [default] in Ecall. destruct (mint _ _ _ _ _ _) as [[] ?]; congruence.
Qed.

Lemma sealed_mint_ok `{Aead} `{Digests} {App} keys env p purpose scopes ttl (app : App) g app' :
  sealed_mint keys env p purpose scopes ttl app = (HookOk g, app') ->
  app' = app /\ 0 < ttl /\ exists minted,
    mint_grant_token (mint_random_id env) (mint_random_nonce env) (Z.quot (mint_ns env) 1000000000)
      keys p scopes purpose ttl no_overrides = Ok minted /\
    g = {| ig_token := mt_token minted; ig_expires_at := expires_at (mt_claims minted) * 1000000;
           ig_grant_id := grant_id (mt_claims minted) |}.
Proof.
  unfold sealed_mint. destruct (Z.leb_spec ttl 0); [done|]. destruct (mint_grant_token _ _ _ _ _ _ _ _ _) as [minted|e] eqn:E.
  - intros [= <- <-]. split_and!; [done..|]. by exists minted.
  - by destruct e.
Qed.

Lemma mint_grant_token_claims `{Aead} `{Digests} rid rnonce wall keys p scopes purpose ttl minted :
  mint_grant_token rid rnonce wall keys p scopes purpose ttl no_overrides = Ok minted ->
  mt_claims minted = {| principal := p; scopes := scopes; purpose := purpose; grant_id := hex_encode rid;
                        issued_at := wall; expires_at := wall + Z.min ttl (gk_max_ttl_seconds keys) |}.
Proof.
  unfold mint_grant_token, invalid_argument. destruct (ttl <=? 0); [done|]. destruct (gk_keys keys); [done|].
  intros E. inv_res. by subst.
Qed.

Lemma new_IdentityImpl_sealed `{Aead} `{Digests} {App} (options : IdentityOptions App) self keys :
  new_IdentityImpl options = Ok self -> io_grant_keys options = Some keys -> io_mint_grant options = None ->
  mint_grant_ self = Some (sealed_mint keys) /\ max_auth_age_ self = io_max_auth_age options /\
  GrantKeys_validate keys = Ok tt.
Proof.
  unfold new_IdentityImpl, sealed_mint_grant. intros E Hk Hm. rewrite Hk, Hm in E. inv_res. subst.
  repeat match goal with u : unit |- _ => destruct u end. by split_and!.
Qed.

(** With grant keys and no hook of its own, the worker mints sealed grants
    that name the caller.  A grant that is issued carries the caller's principal,
    the asked scopes and purpose and a lifetime cut to the maximum; the payload
    says what the token says; and the token verifies to exactly those claims under
    the same keys while the clock is in its window, if its text fits. *)
Theorem sealed_grant_names_caller `{AeadLaws} `{DigestLaws} {App} (options : IdentityOptions App) self keys
    env purpose_ scopes_ ttl auth app g app' :
  new_IdentityImpl options = Ok self -> io_grant_keys options = Some keys -> io_mint_grant options = None ->
  issue_grant self env purpose_ scopes_ ttl auth app = (Done g, app') ->
  app' = app /\ exists t p claims,
    authenticated_at auth t /\ auth_principal auth = Some p /\
    dbl_gt (dbl_sub (WallSeconds (freshness_ns env)) t) (io_max_auth_age options) = false /\
    principal claims = p /\ scopes claims = scopes_ /\ purpose claims = purpose_ /\
    expires_at claims = issued_at claims + Z.min ttl (gk_max_ttl_seconds keys) /\
    ig_grant_id g = grant_id claims /\ ig_expires_at g = expires_at claims * 1000000 /\
    forall wall now,
      length (mint_random_nonce env) = kAeadNonceBytes -> claims_ok claims ->
      gk_max_ttl_seconds keys < 2 ^ 63 -> blen (ig_token g) <= kMaxGrantTokenChars ->
      not_yet_valid keys claims (default wall now) = false ->
      has_expired keys claims (default wall now) = false ->
      verify_grant_token wall keys (ig_token g) now = Ok claims.
Proof.
  intros Hself Hk Hm E. destruct (new_IdentityImpl_sealed _ _ _ Hself Hk Hm) as (Hmint & Hage & Hval).
  apply GrantKeys_validate_iff in Hval as (_ & _ & Hmax & _).
  destruct (issue_grant_done _ _ _ _ _ _ _ _ _ _ Hmint E) as (t & p & Ht & Hp & Hne & Hg & Ehook).
  rewrite Hage in Hg. apply sealed_mint_ok in Ehook as (-> & Httl & minted & Emint & ->). split; [done|].
  pose proof (mint_grant_token_claims _ _ _ _ _ _ _ _ _ Emint) as Ec.
  exists t, p, (mt_claims minted). rewrite Ec at 1 2 3 4 5. cbn. split_and!; try done.
  intros wall now Hnonce Hok Hbig Hlen Hny Hex.
  destruct (mint_grant_token_inv _ _ _ _ _ _ _ _ _ _ Emint Hok) as (key & rest & Hkeys & _ & Htok & Hprin & He).
  apply verify_grant_token_iff; [lia|]. exists key, (mint_random_nonce env).
  split; [by eapply find_key_front|]. do 4 (split; [done|]).
  unfold claims_accepted. rewrite Hprin. split_and!; try done; lia.
Qed.

(** ** Witnesses *)

Section witnesses.
#[local] Existing Instances Toy.digests Toy.digest_laws Toy.aead Toy.aead_laws.

(** The application counts the calls of its resolver. *)
Definition demo_resolve : ResolveTokenHook nat := fun token app =>
  (if bool_decide (token = str "opaque") then
     HookOk (Some {| ti_principal := str "alice"; ti_token_name := str "laptop"; ti_ttl_seconds := 300 |})
   else if bool_decide (token = str "down") then HookUnavailable [] 7
   else HookOk None, S app).

Definition demo_options : IdentityOptions nat :=
  {| io_resolve_token := Some demo_resolve; io_mint_grant := None;
     introspect_principals := [str "proxy"; []]; io_max_auth_age := kDefaultMaxAuthAge;
     io_grant_keys := Some example_keys |}.

Definition demo_identity : IdentityImpl nat :=
  {| resolve_token_ := Some demo_resolve; mint_grant_ := Some (sealed_mint example_keys);
     principals_ := list_to_set [str "proxy"]; max_auth_age_ := kDefaultMaxAuthAge;
     grant_keys_ := Some example_keys |}.

Definition demo_auth (principal : bytes) (claims : members) : AuthContext :=
  {| auth_domain := str "jwt"; authenticated := true; auth_principal := Some principal;
     auth_claims := JObject claims |}.

Definition demo_env : Env :=
  {| freshness_ns := 1000 * 1000000000; mint_ns := 1000 * 1000000000 + 999; mint_random_id := str "g1";
     mint_random_nonce := replicate 24 x07 |}.

Lemma demo_identity_built : new_IdentityImpl demo_options = Ok demo_identity.
Proof.
  assert (GrantKeys_validate example_keys = Ok tt) as Hk by (vm_compute; reflexivity).
  assert (normalise_principals [str "proxy"; []] = Ok (list_to_set [str "proxy"])) as Hp.
  { unfold normalise_principals. change (filter _ _) with [str "proxy"]. rewrite bool_decide_false; [done|].
    intros Hs. apply (not_elem_of_empty (C := gset bytes) (str "proxy")). rewrite <- Hs.
    apply elem_of_list_to_set. by left. }
  unfold new_IdentityImpl, sealed_mint_grant. cbn [demo_options io_grant_keys io_mint_grant io_resolve_token introspect_principals].
  rewrite Hk, Hp. done.
Qed.

(** One call for the opaque credential, none for a padded JWS. *)
Lemma introspection_guarded_witness :
  introspect_token demo_identity (str "opaque") (demo_auth (str "proxy") []) 0%nat =
    (Done {| ti_principal := str "alice"; ti_token_name := str "laptop"; ti_ttl_seconds := 300 |}, 1%nat) /\
  introspect_token demo_identity ([xc2; xa0] ++ str "a.b.c" ++ [x0a]) (demo_auth (str "proxy") []) 0%nat =
    (Raised (TokenUnresolvedError (str "unresolved")), 0%nat) /\
  introspect_token demo_identity (str "opaque") (demo_auth (str "bob") []) 0%nat =
    (Raised (IntrospectionRefusedError (str "caller is not an introspector")), 0%nat).
Proof.
  split; [|split].
  - destruct (introspection_guarded demo_identity demo_resolve (str "opaque") (demo_auth (str "proxy") []) 0%nat eq_refl)
      as (H & _ & _). rewrite H; [vm_compute; reflexivity| |].
    + split; [reflexivity|]. cbn [default demo_auth auth_principal demo_identity principals_]. by apply elem_of_list_to_set; left.
    + apply (credential_guard 0%nat). vm_compute. reflexivity.
  - vm_compute. reflexivity.
  - vm_compute. reflexivity.
Defined.

Lemma grant_needs_fresh_login_witness :
  let auth := demo_auth (str "alice") [(str "auth_time", JString (str "900"))] in
  mint_grant_ demo_identity = Some (sealed_mint example_keys) /\
  ((exists t p, authenticated_at auth t /\ auth_principal auth = Some p /\
     dbl_gt (dbl_sub (WallSeconds (freshness_ns demo_env)) t) (max_auth_age_ demo_identity) = false /\
     issue_grant demo_identity demo_env (str "p") [] 60 auth 0%nat =
       call_hook (sealed_mint example_keys demo_env p (str "p") [] 60) 0%nat) \/
   ((forall t, authenticated_at auth t ->
       dbl_gt (dbl_sub (WallSeconds (freshness_ns demo_env)) t) (max_auth_age_ demo_identity) = true) /\
    exists what, issue_grant demo_identity demo_env (str "p") [] 60 auth 0%nat =
      (Raised (StaleAuthError what), 0%nat))).
Proof. split; [reflexivity|]. apply (grant_needs_fresh_login demo_identity). reflexivity. Defined.

(** A login of 901 seconds ago is too old, and the message says so. *)
Example stale_login :
  issue_grant demo_identity demo_env (str "p") [] 60 (demo_auth (str "alice") [(str "auth_time", JInteger 99)]) 0%nat =
  (Raised (StaleAuthError (str "last authentication was 901s ago, which exceeds the 900s ceiling for minting a grant; re-authenticate")), 0%nat).
Proof. vm_compute. reflexivity. Qed.

Lemma identity_built_witness : exists self, new_IdentityImpl demo_options = Ok self /\
  (is_Some (resolve_token_ self) ->
   principals_ self <> ∅ /\
   (forall p, p ∈ principals_ self <-> p ∈ introspect_principals demo_options /\ p <> []) /\
   forall auth, may_introspect (principals_ self) auth ->
     exists p, auth_principal auth = Some p /\ p ∈ introspect_principals demo_options /\ p <> []) /\
  (str "introspect_token" ∈ offered_methods self <-> is_Some (io_resolve_token demo_options)) /\
  (str "issue_grant" ∈ offered_methods self <->
   is_Some (io_mint_grant demo_options) \/ is_Some (io_grant_keys demo_options)) /\
  (forall keys, io_grant_keys demo_options = Some keys -> GrantKeys_validate keys = Ok tt).
Proof. exists demo_identity. split; [apply demo_identity_built|]. apply identity_built. apply demo_identity_built. Defined.

Definition demo_grant : IssuedGrant :=
  match issue_grant demo_identity demo_env (str "p") [str "read"] 60
          (demo_auth (str "alice") [(str "auth_time", JInteger 900)]) 0%nat with
  | (Done g, _) => g
  | _ => {| ig_token := []; ig_expires_at := 0; ig_grant_id := [] |}
  end.

Lemma sealed_grant_names_caller_witness :
  let auth := demo_auth (str "alice") [(str "auth_time", JInteger 900)] in
  issue_grant demo_identity demo_env (str "p") [str "read"] 60 auth 0%nat = (Done demo_grant, 0%nat) /\
  exists t p claims,
    authenticated_at auth t /\ auth_principal auth = Some p /\ principal claims = p /\
    verify_grant_token (dbl_of_Z 1000) example_keys (ig_token demo_grant) None = Ok claims.
Proof.
  intros auth. assert (issue_grant demo_identity demo_env (str "p") [str "read"] 60 auth 0%nat = (Done demo_grant, 0%nat))
    as E by (vm_compute; reflexivity). split; [exact E|].
  destruct (sealed_grant_names_caller demo_options demo_identity example_keys demo_env (str "p") [str "read"] 60 auth
    0%nat demo_grant 0%nat demo_identity_built eq_refl eq_refl E)
    as (_ & t & p & claims & Ht & Hp & _ & Hpr & Hs & Hpu & He & Hid & Hex & Hv).
  exists t, p, claims. split_and!; [done..|].
  injection Hp as <-.
  assert (Hexp : expires_at claims = 1060).
  { assert (ig_expires_at demo_grant = 1060 * 1000000) as E2 by (vm_compute; reflexivity). lia. }
  assert (Hiss : issued_at claims = 1000) by (rewrite Hexp in He; cbn in He; lia).
  assert (Hgid : grant_id claims = hex_encode (str "g1")) by (rewrite <- Hid; vm_compute; reflexivity).
  destruct claims as [pr sc pu gid iss ex]. cbn in *. subst.
  apply (Hv (dbl_of_Z 1000) None).
  - reflexivity.
  - unfold claims_ok. cbn. split_and!; try (unfold in_i64; lia); try concrete_text.
    apply Forall_singleton. concrete_text.
  - vm_compute; reflexivity.
  - vm_compute; congruence.
  - vm_compute; reflexivity.
  - vm_compute; reflexivity.
Defined.
End witnesses.
