(* ===== verification/Calls.v ===== *)
(** * What a handler sees and leaves (src/src/log.cpp, log_sink.cpp,
    output_collector.cpp, result.cpp, include/vgi_rpc/stream.h, server.h)

    Log messages, the sink that buffers them, the collector of a stream turn,
    results, streams and registered methods.

    Application code is a parameter.  A handler or a factory is a function of
    its request, its context and the application's state [App], to the messages
    it logged, how it ended and the new state.  A turn of a stream calls back
    into the collector and may catch what the collector throws, so it is a tree
    of those calls. *)

From S2P Require Import Prelude Arrow Json Errors Wire.

(** ** Log messages *)

Inductive LogLevel := TRACE | DEBUG | INFO | WARN | ERROR | LEVEL_EXCEPTION.

Definition log_level_to_string (level : LogLevel) : bytes :=
  match level with
  | TRACE => str "TRACE"
  | DEBUG => str "DEBUG"
  | INFO => str "INFO"
  | WARN => str "WARN"
  | ERROR => str "ERROR"
  | LEVEL_EXCEPTION => str "EXCEPTION"
  end.

Definition log_level_from_string (s : bytes) : res LogLevel :=
  if bool_decide (s = str "TRACE") then Ok TRACE
  else if bool_decide (s = str "DEBUG") then Ok DEBUG
  else if bool_decide (s = str "INFO") then Ok INFO
  else if bool_decide (s = str "WARN") then Ok WARN
  else if bool_decide (s = str "ERROR") then Ok ERROR
  else if bool_decide (s = str "EXCEPTION") then Ok LEVEL_EXCEPTION
  else Throw (RuntimeError (str "Unknown log level: " ++ s)).

Record Message := { msg_level : LogLevel; msg_message : bytes; msg_extra : json }.

(** [nlohmann::json::empty]. *)
Definition json_is_empty (v : json) : bool :=
  match v with JNull | JArray [] | JObject [] => true | _ => false end.

(** ** [LogSink] *)

Record LogSink := { ls_server_id : bytes; ls_request_id : bytes; buffered_ : list kv_list }.

Definition new_LogSink (server_id request_id : bytes) : LogSink :=
  {| ls_server_id := server_id; ls_request_id := request_id; buffered_ := [] |}.

Definition log_md (level : LogLevel) (message : bytes) : kv_list :=
  Append (Append [] LOG_LEVEL (log_level_to_string level)) LOG_MESSAGE message.

Definition id_md (server_id request_id : bytes) (md : kv_list) : kv_list :=
  append_if (nonempty request_id) (append_if (nonempty server_id) md SERVER_ID server_id)
    REQUEST_ID request_id.

Section sink.
Context {J : JsonText}.

Definition LogSink_emit (sink : LogSink) (m : Message) : LogSink :=
  let md := log_md (msg_level m) (msg_message m) in
  let md := append_if (negb (json_is_empty (msg_extra m))) md LOG_EXTRA
              (json_dump_replace (msg_extra m)) in
  {| ls_server_id := ls_server_id sink; ls_request_id := ls_request_id sink;
     buffered_ := buffered_ sink ++ [id_md (ls_server_id sink) (ls_request_id sink) md] |}.

Definition emit_all (sink : LogSink) (ms : list Message) : LogSink := foldl LogSink_emit sink ms.

Definition LogSink_flush `{Arrow} (s : Schema) : M LogSink (list AnnotatedBatch) :=
  empty ← lift (make_empty_batch s);
  sink ← get;
  put {| ls_server_id := ls_server_id sink; ls_request_id := ls_request_id sink; buffered_ := [] |};;
  mret (map (with_metadata empty) (buffered_ sink)).
End sink.

(** ** [OutputCollector] *)

Record OutputCollector `{Arrow} := {
  output_schema_ : Schema;
  producer_mode_ : bool;
  finished_ : bool;
  oc_server_id : bytes;
  oc_request_id : bytes;
  batches_ : list AnnotatedBatch;
  data_batch_idx_ : option nat;
}.

Section collector.
Context {arrow : Arrow} {streams : ArrowStreams}.

Definition new_OutputCollector (output_schema : Schema) (producer_mode : bool)
    (server_id request_id : bytes) : OutputCollector :=
  {| output_schema_ := output_schema; producer_mode_ := producer_mode; finished_ := false;
     oc_server_id := server_id; oc_request_id := request_id; batches_ := [];
     data_batch_idx_ := None |}.

Definition with_batches (out : OutputCollector) (batches : list AnnotatedBatch) (idx : option nat)
    : OutputCollector :=
  {| output_schema_ := output_schema_ out; producer_mode_ := producer_mode_ out;
     finished_ := finished_ out; oc_server_id := oc_server_id out;
     oc_request_id := oc_request_id out; batches_ := batches; data_batch_idx_ := idx |}.

Definition emit_plain_batch (batch : RecordBatch) : M OutputCollector unit :=
  out ← get;
  match data_batch_idx_ out with
  | Some _ => raise (Errors.ProtocolError (str "Only one data batch may be emitted per call"))
  | None =>
      if negb (schema_equal (schema batch) (output_schema_ out)) then
        raise (EOther (str "emit_batch: schema mismatch"))
      else put (with_batches out (batches_ out ++ [data batch]) (Some (length (batches_ out))))
  end.

(** [batches_.back().custom_metadata = metadata]. *)
Definition set_back_metadata (batches : list AnnotatedBatch) (md : kv_list) : list AnnotatedBatch :=
  match last batches with
  | Some ab => take (length batches - 1) batches ++ [with_metadata (ab_batch ab) md]
  | None => batches
  end.

Definition emit_batch (batch : RecordBatch) (md : metadata) : M OutputCollector unit :=
  emit_plain_batch batch;;
  match md with
  | Some md =>
      modify (fun out => with_batches out (set_back_metadata (batches_ out) md) (data_batch_idx_ out))
  | None => mret tt
  end.

Definition emit_arrays (array_length : Array -> Z) (arrays : list Array) : M OutputCollector unit :=
  out ← get;
  let num_rows := match arrays with [] => 0 | a :: _ => array_length a end in
  emit_plain_batch (RecordBatch_Make (output_schema_ out) num_rows arrays).

Definition collector_log (level : LogLevel) (message : bytes) : M OutputCollector unit :=
  out ← get;
  let md := id_md (oc_server_id out) (oc_request_id out) (log_md level message) in
  batch ← lift (make_empty_batch (output_schema_ out));
  put (with_batches out (batches_ out ++ [with_metadata batch md]) (data_batch_idx_ out)).

Definition finish : M OutputCollector unit :=
  out ← get;
  if negb (producer_mode_ out) then
    raise (EOther (str "finish() is not allowed on exchange streams; exchange streams must emit exactly one data batch per call"))
  else put {| output_schema_ := output_schema_ out; producer_mode_ := producer_mode_ out;
              finished_ := true; oc_server_id := oc_server_id out;
              oc_request_id := oc_request_id out; batches_ := batches_ out;
              data_batch_idx_ := data_batch_idx_ out |}.
End collector.

(** ** A turn of a stream *)

(** The continuation of a call that can throw gets what it threw. *)
#[warnings="-register-all"]
Inductive turn `{Arrow} (App : Type) :=
  | TReturn (app : App)
  | TRaise (e : exception) (app : App)
  | TContextLog (m : Message) (k : turn App)
  | TEmitBatch (b : RecordBatch) (md : metadata) (k : option exception -> turn App)
  | TEmitArrays (arrays : list Array) (k : option exception -> turn App)
  | TCollectorLog (level : LogLevel) (message : bytes) (k : option exception -> turn App)
  | TFinish (k : option exception -> turn App).
Arguments TReturn {_ _} app.
Arguments TRaise {_ _} e app.
Arguments TContextLog {_ _} m k.
Arguments TEmitBatch {_ _} b md k.
Arguments TEmitArrays {_ _} arrays k.
Arguments TCollectorLog {_ _} level message k.
Arguments TFinish {_ _} k.

(** What a call threw. *)
Definition thrown {S} (r : outcome unit * S) : option exception :=
  match r.1 with Done _ => None | Raised e => Some e end.

Section turns.
Context {arrow : Arrow} {streams : ArrowStreams} {J : JsonText} {App : Type}
  (array_length : Array -> Z).

(** [state->process(input, out, ctx)]: how the turn ended, the collector, the
    sink and the application's state. *)
Fixpoint run_turn (t : turn App) (out : OutputCollector) (sink : LogSink)
    : outcome unit * OutputCollector * LogSink * App :=
  match t with
  | TReturn app => (Done tt, out, sink, app)
  | TRaise e app => (Raised e, out, sink, app)
  | TContextLog m k => run_turn k out (LogSink_emit sink m)
  | TEmitBatch b md k =>
      let r := emit_batch b md out in run_turn (k (thrown r)) r.2 sink
  | TEmitArrays arrays k =>
      let r := emit_arrays array_length arrays out in run_turn (k (thrown r)) r.2 sink
  | TCollectorLog level message k =>
      let r := collector_log level message out in run_turn (k (thrown r)) r.2 sink
  | TFinish k => let r := finish out in run_turn (k (thrown r)) r.2 sink
  end.
End turns.

(** ** Results *)

Record ExternalRef := { url_ : bytes; sha256_ : option bytes }.

Definition LOCATION_SHA256 : bytes := str "vgi_rpc.location.sha256".

Record Result `{Arrow} := { batch_ : AnnotatedBatch; external_ref_ : option ExternalRef }.

Section results.
Context {arrow : Arrow} {streams : ArrowStreams} {J : JsonText}.

Definition pointer_batch (r : ExternalRef) (result_schema : Schema) : res AnnotatedBatch :=
  let md := Append [] LOCATION (url_ r) in
  let md := match sha256_ r with Some h => Append md LOCATION_SHA256 h | None => md end in
  batch ← make_empty_batch result_schema;
  Ok (with_metadata batch md).

Definition Result_value (batch : RecordBatch) : Result :=
  {| batch_ := data batch; external_ref_ := None |}.

Definition Result_from_annotated_batch (ab : AnnotatedBatch) : Result :=
  {| batch_ := ab; external_ref_ := None |}.

Definition void_result : res Result :=
  batch ← make_empty_batch empty_schema; Ok (Result_value batch).

Definition from_external_ref (r : ExternalRef) : res Result :=
  result ← void_result; Ok {| batch_ := batch_ result; external_ref_ := Some r |}.

Definition Result_error (scope : option TracebackScope) (s : Schema)
    (exception_type message server_id request_id error_kind : bytes) (extras : ErrorExtras)
    : res Result :=
  batch ← make_empty_batch s;
  md ← make_error_metadata scope exception_type message server_id request_id error_kind extras;
  Ok (Result_from_annotated_batch (with_metadata batch md)).

Definition Result_exception (scope : option TracebackScope) (s : Schema) (e : exception)
    (server_id request_id traceback : bytes) : res Result :=
  batch ← make_empty_batch s;
  md ← make_exception_metadata scope e server_id request_id traceback;
  Ok (Result_from_annotated_batch (with_metadata batch md)).
End results.

(** ** Calls, streams and methods *)

Inductive TransportKind := PIPE | HTTP | UNIX | TCP.

#[export] Instance TransportKind_eq_decision : EqDecision TransportKind.
Proof. solve_decision. Defined.

Definition transport_kind_name (kind : TransportKind) : bytes :=
  match kind with
  | PIPE => str "pipe" | HTTP => str "http" | UNIX => str "unix" | TCP => str "tcp"
  end.

(** [Caller] is what the transport established about the peer: [AuthContext]
    and [PeerEvidenceSet], which dispatch only hands on. *)
Record CallContext (Caller : Type) := {
  ctx_server_id : bytes;
  ctx_request_id : bytes;
  ctx_transport_kind : TransportKind;
  ctx_caller : Caller;
  ctx_response_limit_bytes : option Z;
  ctx_preferred_response_bytes : option Z;
}.

Record Request `{Arrow} := { req_batch : RecordBatch; req_metadata : metadata }.

Section methods.
Context {arrow : Arrow} {Caller App : Type}.

(** [is_producer_state]: whether the state's class is a [ProducerState]. *)
Record StreamState := {
  is_producer_state : bool;
  process : CallContext Caller -> AnnotatedBatch -> App -> turn App;
  on_cancel : CallContext Caller -> App -> list Message * outcome unit * App;
}.

(** A null pointer is [None]. *)
Record Stream := {
  st_output_schema : option Schema;
  st_input_schema : option Schema;
  st_state : option StreamState;
  st_header : option RecordBatch;
}.

Inductive MethodType := UNARY | STREAM.

Record MethodInfo := {
  mi_name : bytes;
  mi_method_type : MethodType;
  mi_params_schema : Schema;
  mi_result_schema : Schema;
  mi_handler : Request -> CallContext Caller -> App -> list Message * outcome Result * App;
  mi_doc : bytes;
  mi_has_return : bool;
  mi_input_schema : option Schema;
  mi_output_schema : option Schema;
  mi_header_schema : option Schema;
  mi_stream_factory : Request -> CallContext Caller -> App -> list Message * outcome Stream * App;
  mi_is_exchange : bool;
}.
End methods.

(** ** The collector keeps its contract *)

Definition is_log_type (t : BatchType) : bool :=
  match t with LOG | EXCEPTION => true | _ => false end.

Section collector_lemmas.
Context {arrow : Arrow} {streams : ArrowStreams} {alaws : ArrowLaws} {slaws : ArrowStreamsLaws}
  {J : JsonText} {kvm : KeyValueMetadata} {kvlaws : KeyValueMetadataLaws}.

Definition is_log (ab : AnnotatedBatch) : bool := is_log_type (ab_type ab).

Lemma FindKey_in md key : key ∈ md.*1 -> 0 <= FindKey md key.
Proof.
  intros Hin. destruct (Z.lt_ge_cases (FindKey md key) 0) as [Hn|]; [|done].
  by apply FindKey_absent in Hn.
Qed.

Lemma append_if_in c md key value k : k ∈ md.*1 -> k ∈ (append_if c md key value).*1.
Proof. destruct c; [|done]. unfold append_if, Append. rewrite fmap_app. set_solver. Qed.

(** A zero-row batch with the two log keys is a log, whatever else it carries. *)
Lemma is_log_with_keys b md :
  num_rows b = 0 -> LOG_LEVEL ∈ md.*1 -> LOG_MESSAGE ∈ md.*1 -> is_log (with_metadata b md) = true.
Proof.
  intros Hr Hl Hm. unfold is_log, ab_type, with_metadata. cbn [ab_batch custom_metadata classify_batch].
  rewrite Hr. cbn [Z.ltb Z.compare]. apply FindKey_in in Hl, Hm.
  rewrite (proj2 (Z.leb_le _ _) Hl), (proj2 (Z.leb_le _ _) Hm). cbn [andb].
  by destruct (bool_decide _).
Qed.

Lemma log_md_keys level message : LOG_LEVEL ∈ (log_md level message).*1 /\ LOG_MESSAGE ∈ (log_md level message).*1.
Proof. split; cbn; set_solver. Qed.

Lemma id_md_in sid rid md k : k ∈ md.*1 -> k ∈ (id_md sid rid md).*1.
Proof. intros. by apply append_if_in, append_if_in. Qed.

(** At most one batch that is not a log; every batch has the output schema;
    only a producer finishes. *)
Record collector_wf (out : OutputCollector) : Prop := {
  cw_logs i ab :
    batches_ out !! i = Some ab -> data_batch_idx_ out <> Some i -> is_log ab = true;
  cw_idx i : data_batch_idx_ out = Some i -> (i < length (batches_ out))%nat;
  cw_fits : Forall (fits (output_schema_ out)) (batches_ out);
  cw_finished : finished_ out = true -> producer_mode_ out = true;
}.

Definition same_collector (out out' : OutputCollector) : Prop :=
  output_schema_ out' = output_schema_ out /\ producer_mode_ out' = producer_mode_ out.

Lemma emit_plain_batch_cases b out :
  (emit_plain_batch b out).2 = out \/
  (data_batch_idx_ out = None /\ schema_equal (schema b) (output_schema_ out) = true /\
   emit_plain_batch b out =
     (Done tt, with_batches out (batches_ out ++ [data b]) (Some (length (batches_ out))))).
Proof.
  unfold emit_plain_batch, get, put, raise, mbind, M_bind.
  destruct (data_batch_idx_ out); [by left|].
  destruct (schema_equal _ _); cbn [negb]; [by right|by left].
Qed.

(** Adding the data batch, with or without metadata. *)
Lemma emitted_wf b md out :
  collector_wf out -> data_batch_idx_ out = None ->
  schema_equal (schema b) (output_schema_ out) = true ->
  collector_wf (with_batches out
    (batches_ out ++ [{| ab_batch := b; custom_metadata := md |}]) (Some (length (batches_ out)))).
Proof.
  intros [Hl Hi Hf Hn] Hd Hs. split; cbn [batches_ data_batch_idx_ with_batches output_schema_ finished_ producer_mode_].
  - intros i ab Hab Hne. apply (Hl i); [|by rewrite Hd].
    rewrite lookup_app in Hab. destruct (batches_ out !! i) as [x|] eqn:E; [done|].
    apply lookup_ge_None in E. apply list_lookup_singleton_Some in Hab as [Hz _].
    exfalso. apply Hne. f_equal. lia.
  - intros i [= <-]. rewrite length_app. cbn. lia.
  - apply Forall_app. split; [done|]. by repeat constructor.
  - done.
Qed.

Lemma emit_batch_wf b md out :
  collector_wf out ->
  collector_wf (emit_batch b md out).2 /\ same_collector out (emit_batch b md out).2.
Proof.
  intros Hwf. unfold emit_batch.
  destruct (emit_plain_batch b out) as [[u|e] out'] eqn:E; cycle 1.
  { rewrite (bind_raised _ _ _ _ _ E). destruct (emit_plain_batch_cases b out) as [Ho|(_ & _ & Ho)];
      rewrite E in Ho; [cbn in Ho; subst; by repeat split; try apply Hwf|done]. }
  rewrite (bind_done _ _ _ _ _ E). destruct (emit_plain_batch_cases b out) as [Ho|(Hd & Hs & Ho)].
  - exfalso. revert E Ho. unfold emit_plain_batch, get, put, raise, mbind, M_bind.
    destruct (data_batch_idx_ out) eqn:Hd; [done|]. destruct (schema_equal _ _); cbn [negb]; [|done].
    intros [= _ <-] Eo. cbn in Eo.
    apply (f_equal data_batch_idx_) in Eo. cbn in Eo. by rewrite Hd in Eo.
  - rewrite E in Ho. injection Ho as _ ->. destruct md as [md|]; cbn [modify mret M_ret snd].
    + split; [|done]. cbn [batches_ data_batch_idx_ with_batches]. unfold set_back_metadata.
      rewrite last_snoc. rewrite length_app, Nat.add_sub. rewrite take_app_length.
      exact (emitted_wf b (Some md) out Hwf Hd Hs).
    + split; [|done]. exact (emitted_wf b None out Hwf Hd Hs).
Qed.

Lemma emit_arrays_wf array_length arrays out :
  collector_wf out ->
  collector_wf (emit_arrays array_length arrays out).2 /\
  same_collector out (emit_arrays array_length arrays out).2.
Proof.
  intros Hwf. unfold emit_arrays. rewrite (bind_done _ _ _ out out) by done. cbv zeta.
  destruct (emit_plain_batch_cases
    (RecordBatch_Make (output_schema_ out) match arrays with [] => 0 | a :: _ => array_length a end arrays)
    out) as [->|(Hd & Hs & ->)]; [by repeat split; try apply Hwf|].
  split; [|done]. exact (emitted_wf _ None out Hwf Hd Hs).
Qed.

Lemma collector_log_wf level message out :
  collector_wf out ->
  collector_wf (collector_log level message out).2 /\
  same_collector out (collector_log level message out).2.
Proof.
  intros Hwf. unfold collector_log. rewrite (bind_done _ _ _ out out) by done. cbv zeta.
  destruct (make_empty_batch (output_schema_ out)) as [b|e] eqn:E; cbn [lift];
    [|by repeat split; try apply Hwf].
  rewrite (bind_done _ _ _ b out) by done. cbn [put snd].
  apply make_empty_batch_ok in E as [Hr Hs]. split; [|done]. destruct Hwf as [Hl Hi Hf Hn].
  split; cbn [batches_ data_batch_idx_ with_batches output_schema_ finished_ producer_mode_].
  - intros i ab Hab Hne. rewrite lookup_app in Hab.
    destruct (batches_ out !! i) as [x|] eqn:Ei; [injection Hab as <-; by apply (Hl i)|].
    apply list_lookup_singleton_Some in Hab as [_ <-].
    apply is_log_with_keys; [done| |]; apply id_md_in, log_md_keys.
  - intros i Hd. rewrite length_app. specialize (Hi i Hd). lia.
  - apply Forall_app. split; [done|]. constructor; [|done]. unfold fits. cbn. rewrite Hs.
    apply schema_equal_refl.
  - done.
Qed.

Lemma finish_wf out :
  collector_wf out -> collector_wf (finish out).2 /\ same_collector out (finish out).2.
Proof.
  intros Hwf. unfold finish. rewrite (bind_done _ _ _ out out) by done.
  destruct (producer_mode_ out) eqn:E; cbn [negb]; [|by repeat split; try apply Hwf].
  split; [|done]. destruct Hwf. by split.
Qed.

Lemma same_collector_trans out1 out2 out3 :
  same_collector out1 out2 -> same_collector out2 out3 -> same_collector out1 out3.
Proof. intros [] []. split; congruence. Qed.

Lemma run_turn_wf {App} array_length (t : turn App) out sink :
  collector_wf out ->
  collector_wf (run_turn array_length t out sink).1.1.2 /\
  same_collector out (run_turn array_length t out sink).1.1.2.
Proof.
  revert out sink; induction t as [app|e app|m k IH|b md k IH|arrays k IH|level message k IH|k IH];
    intros out sink Hwf; cbn [run_turn]; cbv zeta; try by repeat split; try apply Hwf.
  - by apply IH.
  - destruct (emit_batch_wf b md out Hwf) as [H1 H2].
    destruct (IH (thrown (emit_batch b md out)) _ sink H1). split; [done|]. by eapply same_collector_trans.
  - destruct (emit_arrays_wf array_length arrays out Hwf) as [H1 H2].
    destruct (IH (thrown (emit_arrays array_length arrays out)) _ sink H1). split; [done|].
    by eapply same_collector_trans.
  - destruct (collector_log_wf level message out Hwf) as [H1 H2].
    destruct (IH (thrown (collector_log level message out)) _ sink H1). split; [done|].
    by eapply same_collector_trans.
  - destruct (finish_wf out Hwf) as [H1 H2].
    destruct (IH (thrown (finish out)) _ sink H1). split; [done|]. by eapply same_collector_trans.
Qed.

Lemma new_collector_wf s mode sid rid : collector_wf (new_OutputCollector s mode sid rid).
Proof. split; cbn; [by intros i ab|done|done|done]. Qed.
End collector_lemmas.

(** ** Properties *)

(** Whatever a handler does in a stream turn, and however often it catches
    the collector's exceptions and tries again, the collector ends up with at
    most one batch that is not a log, every batch has the declared output
    schema, and only a producer's turn is finished. *)
Theorem collector_one_data_batch
    `{ArrowLaws} `{!ArrowStreams} `{!ArrowStreamsLaws} `{JsonText} `{KeyValueMetadataLaws}
    {App} array_length (t : turn App) s producer sid rid sink :
  let out := (run_turn array_length t (new_OutputCollector s producer sid rid) sink).1.1.2 in
  (forall i j a b, batches_ out !! i = Some a -> batches_ out !! j = Some b ->
     is_log a = false -> is_log b = false -> i = j) /\
  Forall (fits s) (batches_ out) /\
  (finished_ out = true -> producer = true).
Proof.
  intros out.
  destruct (run_turn_wf array_length t (new_OutputCollector s producer sid rid) sink
    (new_collector_wf _ _ _ _)) as [Hwf [Hs Hp]].
  fold out in Hwf, Hs, Hp. cbn in Hs, Hp. split; [|split].
  - intros i j a b Ha Hb La Lb.
    assert (forall i a, batches_ out !! i = Some a -> is_log a = false -> data_batch_idx_ out = Some i)
      as Hd.
    { intros i' a' Ha' La'. destruct (decide (data_batch_idx_ out = Some i')) as [|Hne]; [done|].
      by rewrite (cw_logs _ Hwf i' a' Ha' Hne) in La'. }
    pose proof (Hd i a Ha La). pose proof (Hd j b Hb Lb). congruence.
  - rewrite <- Hs. apply (cw_fits _ Hwf).
  - intros Hf. rewrite <- Hp. by apply (cw_finished _ Hwf).
Qed.

(** ** Witnesses *)

Import ToyArrow ToyStreams ToyJson.

(** A turn that logs, emits, emits again although it may not, and ends. *)
Definition demo_turn : @turn toy_arrow unit :=
  TCollectorLog INFO (str "working") (fun _ =>
  TEmitBatch (toy_data_batch [x01]) None (fun _ =>
  TEmitBatch (toy_data_batch [x02]) None (fun e =>
    match e with
    | Some _ => TFinish (fun _ => TReturn tt)
    | None => TRaise (EOther (str "emitted twice")) tt
    end))).

Definition demo_turn_result : outcome unit * OutputCollector * LogSink * unit :=
  run_turn (fun _ => 0) demo_turn (new_OutputCollector toy_schema true (str "srv") (str "r1"))
    (new_LogSink (str "srv") (str "r1")).

Lemma collector_one_data_batch_witness :
  length (batches_ demo_turn_result.1.1.2) = 2%nat /\ demo_turn_result.1.1.1 = Done tt /\
  Forall (fits toy_schema) (batches_ demo_turn_result.1.1.2).
Proof.
  split; [reflexivity|]. split; [reflexivity|].
  apply (collector_one_data_batch (fun _ => 0) demo_turn toy_schema true (str "srv") (str "r1")
    (new_LogSink (str "srv") (str "r1"))).
Defined.
