(* ===== verification/ClientExternal.v ===== *)
(** * Fetching and uploading external payloads (src/src/client_external.cpp)

    [ClientExternalHttp]: the resolution of a host under the address policy, one
    GET with its byte caps, the redirect loop, the decoding and checking of the
    body, the resolution of a pointer batch, and the PUT of an upload.  The
    resolver, the HTTP client, zstd, the clock and the IPC reader over a buffer
    are library code: a class of operations over a state of the network. *)

From Stdlib Require Import Floats.SpecFloat.
From S2P Require Import Prelude Arrow Json Crypto IdentityInternal Errors FloatText ProxyProtocol.
From S2P Require Import ExternalUrl Wire Calls.

Inductive ExternalUrlPolicy := PUBLIC_HTTPS | LOOPBACK_HTTP_TEST.

#[export] Instance ExternalUrlPolicy_eq_decision : EqDecision ExternalUrlPolicy.
Proof. solve_decision. Defined.

(** Timeouts are milliseconds. *)
Record ClientExternalHttpOptions := {
  url_policy : ExternalUrlPolicy;
  max_redirects : Z;
  max_encoded_bytes : Z;
  max_decoded_bytes : Z;
  max_upload_bytes : Z;
  max_upload_response_bytes : Z;
  connect_timeout : Z;
  read_timeout : Z;
  write_timeout : Z;
}.

Definition default_options : ClientExternalHttpOptions :=
  {| url_policy := PUBLIC_HTTPS; max_redirects := 5; max_encoded_bytes := 256 * 1024 * 1024;
     max_decoded_bytes := 4 * 1024 * 1024 * 1024; max_upload_bytes := 256 * 1024 * 1024;
     max_upload_response_bytes := 64 * 1024; connect_timeout := 10000; read_timeout := 60000;
     write_timeout := 60000 |}.

(** [ClientExternalHttp::Impl::Impl]. *)
Definition new_ClientExternalHttp (value : ClientExternalHttpOptions) : res ClientExternalHttpOptions :=
  _ ← throw_if ((max_redirects value <? 0) || (5 <? max_redirects value))
        (InvalidArgument (str "external max_redirects must be between 0 and 5"));
  _ ← throw_if ((max_encoded_bytes value <=? 0) || (max_decoded_bytes value <=? 0)
                || (max_upload_bytes value <=? 0) || (max_upload_response_bytes value <=? 0))
        (InvalidArgument (str "external byte caps must be positive"));
  _ ← throw_if ((connect_timeout value <=? 0) || (read_timeout value <=? 0) || (write_timeout value <=? 0))
        (InvalidArgument (str "external HTTP timeouts must be positive"));
  Ok value.

(** ** The libraries *)

(** An entry of [addrinfo]: the bytes of the address in network order. *)
Inductive sockaddr :=
  | Inet (address : bytes)
  | Inet6 (address : bytes)
  | OtherFamily.

Inductive http_method := GET | PUT.

(** A request as the HTTP client is configured for it: the host is connected to
    at the pinned address, redirects are not followed and bodies not decoded. *)
Record HttpRequest := {
  rq_method : http_method;
  rq_origin : bytes;
  rq_host : bytes;
  rq_address : bytes;
  rq_path : bytes;
  rq_headers : kv_list;
  rq_content : bytes;
}.

(** What comes back: the response head when one arrives (its status, and the first
    value of each header), the pieces of the body, and the status of the completed
    exchange. *)
Record HttpAnswer := {
  an_head : option (Z * (bytes -> option bytes));
  an_chunks : list bytes;
  an_status : option Z;
}.

Class Network := {
  net : Type;
  (** [None] when it fails or returns no list. *)
  getaddrinfo : bytes -> bytes -> net -> option (list sockaddr) * net;
  (** [Client::is_valid] after its construction. *)
  http_valid : bytes -> bool;
  http_exchange : HttpRequest -> net -> HttpAnswer * net;
  (** [steady_clock::now], in nanoseconds. *)
  steady_clock : net -> Z * net;
}.

(** A decoder of zstd: [None] is an error.  A step takes the unread input and
    returns what it wrote, how much it read, and the hint it returns, which is
    zero when a frame is decoded and flushed. *)
Class Zstd := {
  ZSTD_DCtx : Type;
  ZSTD_createDCtx : option ZSTD_DCtx;
  ZSTD_setWindowLogMax : ZSTD_DCtx -> Z -> option ZSTD_DCtx;
  ZSTD_decompressStream : ZSTD_DCtx -> bytes -> option (bytes * nat * Z * ZSTD_DCtx);
}.

(** A step with input left reads some, writes some, or wants more. *)
Class ZstdLaws `{Zstd} := {
  zstd_reads ctx unread out n hint ctx' :
    ZSTD_decompressStream ctx unread = Some (out, n, hint, ctx') -> (n <= length unread)%nat;
  zstd_progress ctx unread out n ctx' : unread <> [] ->
    ZSTD_decompressStream ctx unread = Some (out, n, 0, ctx') -> (0 < n)%nat \/ out <> [];
}.

(** [io::BufferReader] over a payload as a connection, and [Tell] after reading
    from it; [Schema::Equals] with [check_metadata]. *)
Class BufferStreams `{ArrowStreams} := {
  buffer_reader : bytes -> wire;
  buffer_tell : bytes -> wire -> option Z;
  schema_equal_metadata : Schema -> Schema -> bool;
}.

Definition kZstd : bytes := str "zstd".

Definition fail_http {S A} (what : bytes) : M S A := raise (exception_of (ExternalHttpError what)).

Definition fail_if {S} (c : bool) (what : bytes) : M S unit := if c then fail_http what else mret tt.

(** ** Decoding *)

(** [std::bit_width(v)] by shifting. *)
Fixpoint shift_count (fuel : nat) (value log : Z) : Z :=
  match fuel with
  | O => log
  | S fuel' => if value =? 0 then log else shift_count fuel' (Z.shiftr value 1) (log + 1)
  end.

Definition zstd_window_log_for_limit (max_bytes : Z) : Z :=
  let bounded := Z.max (u64 max_bytes) (512 * 1024) in
  let log := shift_count 64 (bounded - 1) 0 in
  if log <? 19 then 19 else if 31 <? log then 31 else log.

Section decode.
Context {zstd : Zstd}.

(** The loop of [decode_zstd_bounded]; [None] is a loop that goes on past the
    fuel. *)
Fixpoint zstd_loop (fuel : nat) (max_decoded_bytes : Z) (ctx : ZSTD_DCtx) (unread decoded : bytes)
    : option (res bytes) :=
  match fuel with
  | O => None
  | S fuel' =>
      match ZSTD_decompressStream ctx unread with
      | None => Some (external_error (str "invalid external zstd response"))
      | Some (out, n, remaining, ctx') =>
          if (max_decoded_bytes <? blen out) || (max_decoded_bytes - blen out <? blen decoded) then
            Some (external_error (str "external decoded response exceeds max_decoded_bytes"))
          else
            let decoded := decoded ++ out in
            let unread := drop n unread in
            if bool_decide (out = []) && (n =? 0)%nat && negb (remaining =? 0) then
              Some (external_error (str "truncated external zstd response"))
            else if bool_decide (unread <> []) || negb (remaining =? 0) then
              zstd_loop fuel' max_decoded_bytes ctx' unread decoded
            else Some (Ok decoded)
      end
  end.

(** Every round that goes on reads or writes a byte, and what is written is
    bounded, so this is enough fuel. *)
Definition decode_zstd_bounded (encoded : bytes) (max_decoded_bytes : Z) : option (res bytes) :=
  match ZSTD_createDCtx with
  | None => Some (external_error (str "cannot allocate external zstd decoder"))
  | Some ctx =>
      match ZSTD_setWindowLogMax ctx (zstd_window_log_for_limit max_decoded_bytes) with
      | None => Some (external_error (str "cannot configure bounded external zstd decoder"))
      | Some ctx =>
          zstd_loop (S (length encoded + Z.to_nat max_decoded_bytes)) max_decoded_bytes ctx encoded []
      end
  end.
End decode.

Definition verify_checksum `{Digests} (content expected : bytes) : res unit :=
  if bool_decide (expected = []) then Ok tt
  else
    let malformed := external_error (str "external SHA-256 metadata is not a 64-character hex digest") in
    match hex_decode expected with
    | None => malformed
    | Some decoded =>
        if negb (length decoded =? 32)%nat then malformed
        else throw_if (negb (constant_time_equal decoded (sha256 content)))
               (ExternalHttpError (str "external response SHA-256 checksum mismatch"))
    end.

Definition is_redirect (status : Z) : bool :=
  (status =? 301) || (status =? 302) || (status =? 303) || (status =? 307) || (status =? 308).

(** ** One response *)

Record HttpResponse := {
  rs_status : Z;
  rs_location : bytes;
  rs_content_encoding : bytes;
  rs_body : bytes;
}.

Definition no_response : HttpResponse :=
  {| rs_status := 0; rs_location := []; rs_content_encoding := []; rs_body := [] |}.

(** The content receivers: [None] when the cap is exceeded. *)
Fixpoint receive_body (cap : Z) (chunks : list bytes) (body : bytes) : option bytes :=
  match chunks with
  | [] => Some body
  | data :: chunks' =>
      if (cap <? blen data) || (cap - blen data <? blen body) then None
      else receive_body cap chunks' (body ++ data)
  end.

(** The response handler: what it records, whether the cap is exceeded, and
    whether the body is wanted. *)
Definition receive_head (options : ClientExternalHttpOptions) (status : Z) (header : bytes -> option bytes)
    : HttpResponse * bool * bool :=
  let response := {| rs_status := status; rs_location := default [] (header (str "Location"));
                     rs_content_encoding := default [] (header (str "Content-Encoding")); rs_body := [] |} in
  if is_redirect status then (response, false, false)
  else
    match header (str "Content-Length") ≫= stoull with
    | Some size => if max_encoded_bytes options <? size then (response, true, false) else (response, false, true)
    | None => (response, false, true)
    end.

Definition with_body (r : HttpResponse) (body : bytes) : HttpResponse :=
  {| rs_status := rs_status r; rs_location := rs_location r;
     rs_content_encoding := rs_content_encoding r; rs_body := body |}.
Definition with_status (r : HttpResponse) (status : Z) : HttpResponse :=
  {| rs_status := status; rs_location := rs_location r;
     rs_content_encoding := rs_content_encoding r; rs_body := rs_body r |}.

(** The state of a call: the network, the requests made so far, and what the
    log handler acts on. *)
Record Exchange `{Network} (App : Type) := {
  ex_net : net;
  ex_requests : list HttpRequest;
  ex_app : App;
}.
Arguments ex_net {_ _} _.
Arguments ex_requests {_ _} _.
Arguments ex_app {_ _} _.

Record ResolvedTarget := { rt_url : ParsedUrl; pinned_address : bytes }.

Section client.
Context {pton : InetPton} {ntop : InetNtop} {network : Network} {zstd : Zstd} {D : Digests} {App : Type}.

Definition net_call {A} (f : net -> A * net) : M (Exchange App) A := fun x =>
  let '(a, n) := f (ex_net x) in
  (Done a, {| ex_net := n; ex_requests := ex_requests x; ex_app := ex_app x |}).

Definition send_request (rq : HttpRequest) : M (Exchange App) HttpAnswer := fun x =>
  let '(a, n) := http_exchange rq (ex_net x) in
  (Done a, {| ex_net := n; ex_requests := ex_requests x ++ [rq]; ex_app := ex_app x |}).

(** *** Resolution *)

Definition address_family_of (item : sockaddr) : option (address_family * bytes) :=
  match item with
  | Inet a => Some (AF_INET, a)
  | Inet6 a => Some (AF_INET6, a)
  | OtherFamily => None
  end.

Definition address_allowed (policy : ExternalUrlPolicy) (item : sockaddr) : bool :=
  let '(is_loopback, is_public) :=
    match item with
    | Inet a => (ipv4_loopback (network_u32 0 a), ipv4_public (network_u32 0 a))
    | Inet6 a => (ipv6_loopback a, ipv6_public a)
    | OtherFamily => (false, false)
    end in
  match policy with PUBLIC_HTTPS => is_public | LOOPBACK_HTTP_TEST => is_loopback end.

(** The loop over the addresses: every one is checked, the first is kept. *)
Fixpoint select_address (policy : ExternalUrlPolicy) (items : list sockaddr) (selected : bytes) : res bytes :=
  match items with
  | [] => Ok selected
  | item :: items' =>
      match address_family_of item with
      | None => select_address policy items' selected
      | Some (family, source) =>
          _ ← throw_if (negb (address_allowed policy item))
                (ExternalHttpError (str "external URL resolves to an address forbidden by policy"));
          match inet_ntop family source with
          | None => external_error (str "external URL address could not be rendered safely")
          | Some numeric =>
              select_address policy items' (if bool_decide (selected = []) then numeric else selected)
          end
      end
  end.

Definition is_localhost (host : bytes) : bool :=
  bool_decide (host = str "localhost")
  || ((10 <? length host)%nat
      && bool_decide (drop (length host - length (str ".localhost")) host = str ".localhost")).

Definition validate_and_resolve (raw_url : bytes) (policy : ExternalUrlPolicy)
    : M (Exchange App) ResolvedTarget :=
  url ← lift (parse_url raw_url);
  fail_if (bool_decide (policy = PUBLIC_HTTPS) && negb (bool_decide (scheme url = str "https")))
    (str "external URL policy requires HTTPS");;
  fail_if (bool_decide (policy = LOOPBACK_HTTP_TEST) && negb (bool_decide (scheme url = str "http")))
    (str "loopback test URL policy requires HTTP");;
  fail_if (is_localhost (host url) && negb (bool_decide (policy = LOOPBACK_HTTP_TEST)))
    (str "external URL resolves to a non-public address");;
  addresses ← net_call (getaddrinfo (host url) (to_string (port url)));
  match addresses with
  | None => fail_http (str "external URL hostname could not be resolved")
  | Some items =>
      selected ← lift (select_address policy items []);
      fail_if (bool_decide (selected = [])) (str "external URL resolved to no usable address");;
      mret {| rt_url := url; pinned_address := selected |}
  end.

(** *** A GET *)

Definition get_request (target : ResolvedTarget) : HttpRequest :=
  {| rq_method := GET; rq_origin := origin (rt_url target); rq_host := host (rt_url target);
     rq_address := pinned_address target; rq_path := path_and_query (rt_url target);
     rq_headers := [(str "Accept-Encoding", str "zstd, identity")]; rq_content := [] |}.

Definition in_url (what shown : bytes) : bytes := what ++ str " [url: " ++ shown ++ str "]".

Definition get_once (target : ResolvedTarget) (options : ClientExternalHttpOptions)
    : M (Exchange App) HttpResponse :=
  fail_if (negb (http_valid (origin (rt_url target)))) (str "external HTTP client could not be initialized");;
  answer ← send_request (get_request target);
  let '(response, cap_exceeded, wanted) :=
    match an_head answer with
    | None => (no_response, false, true)
    | Some (status, header) => receive_head options status header
    end in
  fail_if cap_exceeded (str "external response exceeds max_encoded_bytes");;
  if negb wanted then mret response
  else
    match receive_body (max_encoded_bytes options) (an_chunks answer) [] with
    | None => fail_http (str "external response exceeds max_encoded_bytes")
    | Some body =>
        match an_status answer with
        | None => fail_http (in_url (str "external GET failed") (redact_external_url (full (rt_url target))))
        | Some status => mret (with_status (with_body response body) status)
        end
    end.

(** *** Fetching *)

Definition content_coding (header : bytes) : bytes :=
  let encoding := ascii_lower (trim_ascii header) in
  match find_char ";" encoding with
  | Some parameter => trim_ascii (take parameter encoding)
  | None => encoding
  end.

(** The body of a final response: [None] is a decoder that does not return. *)
Definition finish_fetch (options : ClientExternalHttpOptions) (current checksum : bytes)
    (response : HttpResponse) : M (Exchange App) (option bytes) :=
  fail_if ((rs_status response <? 200) || (300 <=? rs_status response))
    (in_url (str "external GET returned HTTP " ++ to_string (rs_status response)) (redact_external_url current));;
  let encoding := content_coding (rs_content_encoding response) in
  let decoded :=
    if bool_decide (encoding = []) || bool_decide (encoding = str "identity") then
      Some (if max_decoded_bytes options <? blen (rs_body response) then
              external_error (str "external decoded response exceeds max_decoded_bytes")
            else Ok (rs_body response))
    else if bool_decide (encoding = kZstd) then
      decode_zstd_bounded (rs_body response) (max_decoded_bytes options)
    else Some (external_error (str "external response uses an unsupported Content-Encoding")) in
  match decoded with
  | None => mret None
  | Some decoded =>
      decoded ← lift decoded;
      lift (verify_checksum decoded checksum);;
      mret (Some decoded)
  end.

(** [for (int redirects = 0;; ++redirects)], for at most [fuel] rounds; the bound
    on the requests is that of the check on [redirects], for any number of
    rounds ([fetch_stays_in_policy]). *)
Fixpoint fetch_loop (fuel : nat) (options : ClientExternalHttpOptions) (checksum : bytes) (redirects : Z)
    (visited : gset bytes) (current : bytes) : M (Exchange App) (option bytes) :=
  match fuel with
  | O => mret None
  | S fuel' =>
      fail_if (bool_decide (current ∈ visited))
        (in_url (str "external redirect loop detected") (redact_external_url current));;
      target ← validate_and_resolve current (url_policy options);
      response ← get_once target options;
      if is_redirect (rs_status response) then
        fail_if (max_redirects options <=? redirects)
          (in_url (str "external redirect limit exceeded") (redact_external_url current));;
        next ← lift (resolve_redirect (rt_url target) (rs_location response));
        fetch_loop fuel' options checksum (redirects + 1) ({[current]} ∪ visited) next
      else finish_fetch options current checksum response
  end.

Definition fetch (rounds : nat) (options : ClientExternalHttpOptions) (initial_url checksum : bytes)
    : M (Exchange App) (option bytes) :=
  fetch_loop rounds options checksum 0 ∅ initial_url.

(** Enough rounds for [fetch] to end, and all rounds it ever makes. *)
Definition redirect_rounds (options : ClientExternalHttpOptions) : nat := S (Z.to_nat (max_redirects options)).

Definition validate_url (options : ClientExternalHttpOptions) (url : bytes) : M (Exchange App) unit :=
  validate_and_resolve url (url_policy options);;
  mret tt.

(** *** Uploading *)

Definition put_request (target : ResolvedTarget) (body content_type : bytes) : HttpRequest :=
  {| rq_method := PUT; rq_origin := origin (rt_url target); rq_host := host (rt_url target);
     rq_address := pinned_address target; rq_path := path_and_query (rt_url target);
     rq_headers := [(str "Accept-Encoding", str "identity"); (str "Content-Type", content_type)];
     rq_content := body |}.

Definition put_payload (options : ClientExternalHttpOptions) (url body content_type : bytes)
    : M (Exchange App) unit :=
  fail_if (max_upload_bytes options <? blen body) (str "external upload exceeds max_upload_bytes");;
  (if bool_decide (content_type = []) || bool_decide (x0d ∈ content_type) || bool_decide (x0a ∈ content_type)
   then raise (exception_of (InvalidArgument (str "external upload Content-Type is invalid")))
   else mret tt);;
  target ← validate_and_resolve url (url_policy options);
  fail_if (negb (http_valid (origin (rt_url target)))) (str "external HTTP client could not be initialized");;
  answer ← send_request (put_request target body content_type);
  match receive_body (max_upload_response_bytes options) (an_chunks answer) [] with
  | None => fail_http (str "external upload response exceeds its byte cap")
  | Some _ =>
      match an_status answer with
      | None => fail_http (in_url (str "external PUT failed") (redact_external_url url))
      | Some status =>
          fail_if (is_redirect status) (in_url (str "external PUT redirect refused") (redact_external_url url));;
          fail_if ((status <? 200) || (300 <=? status))
            (in_url (str "external PUT returned HTTP " ++ to_string status) (redact_external_url url))
      end
  end.
End client.

(** ** Pointer batches *)

Definition LOCATION_SOURCE : bytes := str "vgi_rpc.location.source".
Definition LOCATION_FETCH_MS : bytes := str "vgi_rpc.location.fetch_ms".

Definition is_location_metadata (key : bytes) : bool :=
  bool_decide (key = LOCATION) || bool_decide (key = LOCATION_SHA256)
  || bool_decide (key = LOCATION_SOURCE) || bool_decide (key = LOCATION_FETCH_MS).

(** [duration<double, std::milli>(...).count()] of nanoseconds. *)
Definition elapsed_ms (nanoseconds : Z) : binary64 :=
  SFdiv 53 1024 (dbl_of_Z nanoseconds) (dbl_of_Z 1000000).

Section pointers.
Context {md_impl : KeyValueMetadata} {arrow : Arrow} {streams : ArrowStreams} {buffers : BufferStreams}.

Definition erase_metadata_key (md : kv_list) (key : bytes) : kv_list := delete_key (length md) md key.

Definition merge_resolution_metadata (outer inner : metadata) (source : bytes) (elapsed : binary64) : kv_list :=
  let result := filter (fun kv : bytes * bytes => is_location_metadata kv.1 = false) (default [] outer) in
  let result :=
    foldl (fun result kv =>
             if is_location_metadata kv.1 then result
             else Append (erase_metadata_key result kv.1) kv.1 kv.2) result (default [] inner) in
  let result := foldl erase_metadata_key result [LOCATION_SOURCE; LOCATION_FETCH_MS] in
  Append (Append result LOCATION_SOURCE source) LOCATION_FETCH_MS (to_string_double elapsed).

Definition has_key (md : metadata) (key : bytes) : bool :=
  match md with Some md => 0 <=? FindKey md key | None => false end.

Context {pton : InetPton} {ntop : InetNtop} {network : Network} {zstd : Zstd} {D : Digests} {App : Type}.

(** [if (on_log) on_log(batch);]. *)
Definition call_log (on_log : option (AnnotatedBatch -> M App unit)) (batch : AnnotatedBatch)
    : M (Exchange App) unit :=
  match on_log with
  | None => mret tt
  | Some f =>
      zoom ex_app (fun x app => {| ex_net := ex_net x; ex_requests := ex_requests x; ex_app := app |}) (f batch)
  end.

Definition payload_log (batch : AnnotatedBatch) : bool :=
  (num_rows (ab_batch batch) =? 0) && has_key (custom_metadata batch) LOG_LEVEL
  && has_key (custom_metadata batch) LOG_MESSAGE.

(** The loop over the batches of the payload. *)
Fixpoint payload_batches (on_log : option (AnnotatedBatch -> M App unit)) (batches data : list AnnotatedBatch)
    : M (Exchange App) (list AnnotatedBatch) :=
  match batches with
  | [] => mret data
  | batch :: batches' =>
      fail_if (has_key (custom_metadata batch) LOCATION)
        (str "nested ExternalLocation pointer payload is forbidden");;
      if payload_log batch then
        fail_if (bool_decide (get_metadata_value (custom_metadata batch) LOG_LEVEL []
                              = log_level_to_string LEVEL_EXCEPTION))
          (str "external payload contains a remote exception: "
           ++ get_metadata_value (custom_metadata batch) LOG_MESSAGE []);;
        call_log on_log batch;;
        payload_batches on_log batches' data
      else payload_batches on_log batches' (data ++ [batch])
  end.

(** The IPC stream of a payload, which must be all of it. *)
Definition read_payload (payload : bytes) : M (Exchange App) (Schema * list AnnotatedBatch) := fun x =>
  match read_ipc_stream (buffer_reader payload) with
  | (Raised e, _) => (Raised e, x)
  | (Done None, _) => fail_http (str "external payload contains no Arrow IPC stream") x
  | (Done (Some contents), w) =>
      match buffer_tell payload w with
      | None => fail_http (str "external payload position could not be inspected") x
      | Some position =>
          if negb (position =? blen payload) then
            fail_http (str "external payload contains trailing data or another IPC stream") x
          else (Done contents, x)
      end
  end.

Definition resolve_pointer (rounds : nat) (options : ClientExternalHttpOptions) (pointer : AnnotatedBatch)
    (on_log : option (AnnotatedBatch -> M App unit)) : M (Exchange App) (option AnnotatedBatch) :=
  if negb (has_key (custom_metadata pointer) LOCATION) then mret (Some pointer)
  else
    fail_if (negb (num_rows (ab_batch pointer) =? 0) || has_key (custom_metadata pointer) LOG_LEVEL)
      (str "malformed ExternalLocation pointer batch");;
    let url := get_metadata_value (custom_metadata pointer) LOCATION [] in
    let checksum := get_metadata_value (custom_metadata pointer) LOCATION_SHA256 [] in
    started ← net_call steady_clock;
    payload ← fetch rounds options url checksum;
    match payload with
    | None => mret None
    | Some payload =>
        contents ← read_payload payload;
        let '(payload_schema, batches) := contents in
        data ← payload_batches on_log batches [];
        match data with
        | [batch] =>
            fail_if (negb (schema_equal_metadata payload_schema (schema (ab_batch pointer)))
                     || negb (schema_equal_metadata (schema (ab_batch batch)) (schema (ab_batch pointer))))
              (str "external payload Arrow schema does not match its pointer");;
            finished ← net_call steady_clock;
            mret (Some {| ab_batch := ab_batch batch;
                          custom_metadata :=
                            Some (merge_resolution_metadata (custom_metadata pointer)
                                    (custom_metadata batch) url (elapsed_ms (finished - started))) |})
        | _ => fail_http (str "external payload must contain exactly one data batch")
        end
    end.
End pointers.

(** ** Which requests a computation sends

    [sends P k m Q]: every run of [m] sends at most [k] requests, all of them in
    [P], and what it returns is in [Q]. *)

Section sends.
Context {network : Network} {App : Type}.

Definition sends {A} (P : HttpRequest -> Prop) (k : nat) (m : M (Exchange App) A) (Q : A -> Prop) : Prop :=
  forall x,
    (exists rqs, ex_requests (m x).2 = ex_requests x ++ rqs /\ Forall P rqs /\ (length rqs <= k)%nat)
    /\ (forall a, (m x).1 = Done a -> Q a).

Lemma sends_quiet {A} P (m : M (Exchange App) A) (Q : A -> Prop) :
  (forall x, ex_requests (m x).2 = ex_requests x /\ forall a, (m x).1 = Done a -> Q a) -> sends P 0 m Q.
Proof.
  intros Hm x. destruct (Hm x) as [E HQ]. split; [|done]. exists []. by rewrite E, app_nil_r.
Qed.

Lemma sends_ret {A} P (a : A) (Q : A -> Prop) : Q a -> sends P 0 (mret a) Q.
Proof. intros Ha. apply sends_quiet. intros x. split; [done|]. by intros a' [= <-]. Qed.

Lemma sends_raise {A} P e (Q : A -> Prop) : sends P 0 (raise e) Q.
Proof. by apply sends_quiet. Qed.

Lemma sends_lift {A} P (r : res A) (Q : A -> Prop) : (forall a, r = Ok a -> Q a) -> sends P 0 (lift r) Q.
Proof. intros Hr. destruct r; [by apply sends_ret, Hr|apply sends_raise]. Qed.

Lemma sends_fail_if P c what : sends P 0 (fail_if c what) (fun _ => c = false).
Proof. destruct c; [apply sends_raise|by apply sends_ret]. Qed.

Lemma sends_net P {A} (f : net -> A * net) :
  sends P 0 (net_call (App := App) f) (fun a => exists n, (f n).1 = a).
Proof.
  apply sends_quiet. intros x. unfold net_call. destruct (f (ex_net x)) as [a n] eqn:E. split; [done|].
  intros a' [= <-]. exists (ex_net x). by rewrite E.
Qed.

Lemma sends_request (P : HttpRequest -> Prop) rq :
  P rq -> sends P 1 (send_request (App := App) rq) (fun a => exists n, (http_exchange rq n).1 = a).
Proof.
  intros Hp x. unfold send_request. destruct (http_exchange rq (ex_net x)) as [a n] eqn:E. split.
  - exists [rq]. split_and!; [done|by constructor|done].
  - intros a' [= <-]. exists (ex_net x). by rewrite E.
Qed.

Lemma sends_bind {A B} P k j (m : M (Exchange App) A) (f : A -> M (Exchange App) B) Q R :
  sends P k m Q -> (forall a, Q a -> sends P j (f a) R) -> sends P (k + j) (m ≫= f) R.
Proof.
  intros Hm Hf x. unfold mbind, M_bind. destruct (Hm x) as [(rqs & E & Hp & Hl) HQ].
  destruct (m x) as [[a|e] x']; cbn in *.
  - destruct (Hf a (HQ a eq_refl) x') as [(rqs' & E' & Hp' & Hl') HR]. split; [|done].
    exists (rqs ++ rqs'). rewrite E', E, <- app_assoc, length_app. split_and!; [done|by apply Forall_app|lia].
  - split; [|done]. exists rqs. split_and!; [done|done|lia].
Qed.

(** A step that sends nothing, then the rest. *)
Lemma sends_then {A B} P k (m : M (Exchange App) A) (f : A -> M (Exchange App) B) Q R :
  sends P 0 m Q -> (forall a, Q a -> sends P k (f a) R) -> sends P k (m ≫= f) R.
Proof. apply (sends_bind P 0). Qed.

Lemma sends_weaken {A} P k j (m : M (Exchange App) A) (Q R : A -> Prop) :
  sends P k m Q -> (k <= j)%nat -> (forall a, Q a -> R a) -> sends P j m R.
Proof.
  intros Hm Hkj HQ x. destruct (Hm x) as [(rqs & E & Hp & Hl) Ha]. split; [|auto].
  exists rqs. split_and!; [done|done|lia].
Qed.
End sends.

(** ** Lemmas *)

Section client_lemmas.
Context {pton : InetPton} {ntop : InetNtop} {network : Network} {zstd : Zstd} {D : Digests} {App : Type}.

(** An address the policy lets a connection be made to, found for a host. *)
Definition allowed_target (policy : ExternalUrlPolicy) (target : ResolvedTarget) : Prop :=
  let u := rt_url target in
  scheme u = match policy with PUBLIC_HTTPS => str "https" | LOOPBACK_HTTP_TEST => str "http" end
  /\ (policy = PUBLIC_HTTPS -> is_localhost (host u) = false)
  /\ (exists raw, parse_url raw = Ok u)
  /\ exists n items,
      (getaddrinfo (host u) (to_string (port u)) n).1 = Some items
      /\ Forall (fun item => is_Some (address_family_of item) -> address_allowed policy item = true) items
      /\ exists item family source, item ∈ items /\ address_family_of item = Some (family, source)
         /\ address_allowed policy item = true /\ inet_ntop family source = Some (pinned_address target).

(** The loop over the addresses. *)
Lemma select_address_allowed policy items selected addr :
  select_address policy items selected = Ok addr ->
  Forall (fun item => is_Some (address_family_of item) -> address_allowed policy item = true) items
  /\ (addr = selected
      \/ exists item family source, item ∈ items /\ address_family_of item = Some (family, source)
         /\ address_allowed policy item = true /\ inet_ntop family source = Some addr).
Proof.
  revert selected; induction items as [|item items IH]; intros selected; cbn [select_address].
  - intros [= <-]. split; [constructor|by left].
  - destruct (address_family_of item) as [[family source]|] eqn:Ef.
    + intros Hs. apply throw_if_then in Hs as [Ha%negb_false_iff Hs].
      destruct (inet_ntop family source) as [numeric|] eqn:En; [|done].
      apply IH in Hs as [Hf Hc]. split; [by constructor|].
      destruct Hc as [->|(i & f & s & Hi & ?)]; [|right; exists i, f, s; split; [by right|done]].
      case_bool_decide; [|by left]. right. exists item, family, source. split; [by left|done].
    + intros Hs. apply IH in Hs as [Hf Hc]. split; [constructor; [by rewrite Ef; intros []|done]|].
      destruct Hc as [->|(i & f & s & Hi & ?)]; [by left|right; exists i, f, s; split; [by right|done]].
Qed.

Lemma validate_and_resolve_sends P raw policy :
  sends (App := App) P 0 (validate_and_resolve raw policy) (allowed_target policy).
Proof.
  unfold validate_and_resolve.
  eapply sends_then; [apply (sends_lift _ _ (fun u => parse_url raw = Ok u)); auto|]. intros u Hu.
  eapply sends_then; [apply sends_fail_if|]. intros [] H1.
  eapply sends_then; [apply sends_fail_if|]. intros [] H2.
  eapply sends_then; [apply sends_fail_if|]. intros [] H3.
  eapply sends_then; [apply sends_net|]. intros [items|] [n Hn]; [|apply sends_raise].
  eapply sends_then; [eapply sends_lift, select_address_allowed|]. intros addr [Hall Haddr].
  eapply sends_then; [apply sends_fail_if|]. intros [] H4. bool_to_prop.
  apply sends_ret. split_and!; cbn.
  - destruct policy; cbn in *; rewrite ?bool_decide_eq_true_2 in * by done; cbn in *; by bool_to_prop.
  - intros ->. cbn in H3. rewrite andb_true_r in H3. done.
  - by exists raw.
  - exists n, items. split_and!; [done|done|]. destruct Haddr as [->|?]; done.
Qed.

(** A request to an allowed target, with no header of the caller's. *)
Definition allowed_get (options : ClientExternalHttpOptions) (rq : HttpRequest) : Prop :=
  exists target, allowed_target (url_policy options) target /\ rq = get_request target.

Lemma receive_body_cap cap chunks body body' :
  receive_body cap chunks body = Some body' -> blen body <= cap ->
  blen body' <= cap /\ body' = body ++ concat chunks.
Proof.
  revert body; induction chunks as [|c chunks IH]; intros body; cbn [receive_body concat].
  - intros [= <-]. by rewrite app_nil_r.
  - destruct (_ || _) eqn:E; [done|]. bool_to_prop. intros Hr _.
    destruct (IH _ Hr) as [? ->]; [rewrite length_app; lia|]. split; [done|]. by rewrite <- app_assoc.
Qed.

Lemma receive_head_body options status header response cap wanted :
  receive_head options status header = (response, cap, wanted) -> rs_body response = [].
Proof.
  unfold receive_head. destruct (is_redirect status); [by intros [= <- _ _]|].
  destruct (_ ≫= stoull); [destruct (_ <? _)|]; by intros [= <- _ _].
Qed.

Lemma get_once_sends target options : 0 <= max_encoded_bytes options ->
  allowed_target (url_policy options) target ->
  sends (App := App) (allowed_get options) 1 (get_once target options)
    (fun response => blen (rs_body response) <= max_encoded_bytes options).
Proof.
  intros Hcap Ht. unfold get_once.
  eapply sends_then; [apply sends_fail_if|]. intros [] _.
  eapply (sends_bind _ 1 0); [apply sends_request; by exists target|]. intros answer _.
  destruct (match an_head answer with Some _ => _ | None => _ end) as [[response cap] wanted] eqn:E.
  assert (rs_body response = []) as Hb.
  { destruct (an_head answer) as [[status header]|]; [by eapply receive_head_body|by injection E as <- _ _]. }
  eapply sends_then; [apply sends_fail_if|]. intros [] _.
  destruct wanted; cbn [negb]; [|apply sends_ret; rewrite Hb; cbn; lia].
  destruct (receive_body _ _ _) as [body|] eqn:Er; [|apply sends_raise].
  apply receive_body_cap in Er as [Er _]; [|cbn; lia].
  destruct (an_status answer); [by apply sends_ret|apply sends_raise].
Qed.

Lemma zstd_loop_bounded fuel cap ctx unread decoded content :
  zstd_loop fuel cap ctx unread decoded = Some (Ok content) -> blen content <= cap.
Proof.
  revert ctx unread decoded; induction fuel as [|fuel IH]; intros ctx unread decoded; cbn [zstd_loop]; [done|].
  destruct (ZSTD_decompressStream ctx unread) as [[[[out n] hint] ctx']|]; [|done].
  destruct (_ || _) eqn:E; [done|]. bool_to_prop. destruct (_ && _); [done|].
  destruct (_ || _); [apply IH|]. intros [= <-]. rewrite length_app. lia.
Qed.

Lemma decode_zstd_bounded_cap encoded cap content :
  decode_zstd_bounded encoded cap = Some (Ok content) -> blen content <= cap.
Proof.
  unfold decode_zstd_bounded. destruct ZSTD_createDCtx as [ctx|]; [|done].
  destruct (ZSTD_setWindowLogMax _ _); [apply zstd_loop_bounded|done].
Qed.

(** What a fetch may return: within the cap, and of the expected digest. *)
Definition checked_content (options : ClientExternalHttpOptions) (checksum content : bytes) : Prop :=
  blen content <= max_decoded_bytes options
  /\ (checksum = [] \/ hex_decode checksum = Some (sha256 content)).

Lemma verify_checksum_ok content expected u :
  verify_checksum content expected = Ok u -> expected = [] \/ hex_decode expected = Some (sha256 content).
Proof.
  unfold verify_checksum. case_bool_decide; [by left|]. destruct (hex_decode expected) as [d|]; [|done].
  destruct (negb (_ =? _)%nat); [done|]. intros Hc%throw_if_ok%negb_false_iff%constant_time_equal_spec.
  right. by f_equal.
Qed.

Lemma finish_fetch_sends P options current checksum response :
  sends (App := App) P 0 (finish_fetch options current checksum response)
    (fun r => forall content, r = Some content -> checked_content options checksum content).
Proof.
  unfold finish_fetch. eapply sends_then; [apply sends_fail_if|]. intros [] _.
  match goal with |- sends _ _ (match ?d with _ => _ end) _ => set (decoded := d) end.
  assert (forall content, decoded = Some (Ok content) -> blen content <= max_decoded_bytes options) as Hcap.
  { intros content. unfold decoded. destruct (_ || _).
    - destruct (Z.ltb_spec (max_decoded_bytes options) (blen (rs_body response))); [done|]. intros [= <-]. lia.
    - case_bool_decide; [apply decode_zstd_bounded_cap|done]. }
  destruct decoded as [decoded|]; [|by apply sends_ret].
  eapply sends_then; [apply (sends_lift _ _ (fun c => decoded = Ok c)); auto|]. intros content ->.
  eapply sends_then; [eapply sends_lift, verify_checksum_ok|]. intros u Hsum.
  apply sends_ret. intros c [= <-]. split; [by apply Hcap|done].
Qed.

(** Whatever the number of rounds, the check on [redirects] bounds the requests. *)
Lemma fetch_loop_sends fuel options checksum redirects visited current :
  0 <= max_encoded_bytes options -> redirects <= max_redirects options ->
  sends (App := App) (allowed_get options) (S (Z.to_nat (max_redirects options - redirects)))
    (fetch_loop fuel options checksum redirects visited current)
    (fun r => forall content, r = Some content -> checked_content options checksum content).
Proof.
  intros Hcap. revert redirects visited current; induction fuel as [|fuel IH];
    intros redirects visited current Hle; cbn [fetch_loop].
  { eapply (sends_weaken _ 0); [by apply (sends_ret _ _ (fun r => r = None))|lia|]. by intros r ->. }
  eapply sends_then; [apply sends_fail_if|]. intros [] _.
  eapply sends_then; [apply validate_and_resolve_sends|]. intros target Ht.
  eapply (sends_bind _ 1 (Z.to_nat (max_redirects options - redirects))); [by apply get_once_sends|].
  intros response _. destruct (is_redirect (rs_status response)).
  - eapply sends_then; [apply sends_fail_if|]. intros [] Hlt. apply Z.leb_gt in Hlt.
    eapply sends_then; [apply (sends_lift _ _ (fun _ => True)); done|]. intros next _.
    eapply sends_weaken; [apply IH; lia|lia|done].
  - eapply sends_weaken; [apply finish_fetch_sends|lia|done].
Qed.

(** *** The loops return *)

Lemma zstd_loop_returns `{!ZstdLaws} fuel cap ctx unread decoded :
  blen decoded <= cap -> (length unread + Z.to_nat (cap - blen decoded) < fuel)%nat ->
  zstd_loop fuel cap ctx unread decoded <> None.
Proof.
  revert ctx unread decoded; induction fuel as [|fuel IH]; intros ctx unread decoded Hd Hf; [lia|].
  cbn [zstd_loop]. destruct (ZSTD_decompressStream ctx unread) as [[[[out n] hint] ctx']|] eqn:E; [|done].
  pose proof (zstd_reads _ _ _ _ _ _ E) as Hn.
  destruct (_ || _) eqn:Ec; [done|]. bool_to_prop.
  destruct (bool_decide (out = []) && (n =? 0)%nat && negb (hint =? 0)) eqn:Es; [done|].
  destruct (bool_decide (drop n unread <> []) || negb (hint =? 0)) eqn:Eg; [|done].
  assert (0 < n \/ 0 < length out)%nat as Hprog.
  { destruct (decide (out = [])) as [->|Ho]; [|right; by destruct out; [|cbn; lia]].
    rewrite bool_decide_eq_true_2 in Es by done. destruct (Nat.eqb_spec n 0) as [->|]; [|lia].
    cbn [andb] in Es. rewrite Es, orb_false_r in Eg. apply bool_decide_eq_true in Eg. rewrite drop_0 in Eg.
    apply negb_false_iff, Z.eqb_eq in Es. subst hint.
    destruct (zstd_progress _ _ _ _ _ Eg E); [lia|done]. }
  apply IH; rewrite length_app; [lia|]. rewrite length_drop. lia.
Qed.

(** A computation that does not end on [None]. *)
Definition returns {A} (m : M (Exchange App) (option A)) : Prop := forall x, (m x).1 <> Done None.

Lemma returns_bind {A B} (m : M (Exchange App) A) (f : A -> M (Exchange App) (option B)) :
  (forall a, returns (f a)) -> returns (m ≫= f).
Proof. intros Hf x. unfold mbind, M_bind. destruct (m x) as [[a|e] x']; [apply Hf|done]. Qed.

Lemma finish_fetch_returns `{!ZstdLaws} options current checksum response :
  0 <= max_decoded_bytes options -> returns (finish_fetch options current checksum response).
Proof.
  intros Hcap. unfold finish_fetch. apply returns_bind. intros _.
  match goal with |- returns (match ?d with _ => _ end) => set (decoded := d) end.
  assert (decoded <> None) as Hd.
  { unfold decoded. destruct (_ || _); [done|]. case_bool_decide; [|done].
    unfold decode_zstd_bounded. destruct ZSTD_createDCtx; [|done]. destruct (ZSTD_setWindowLogMax _ _); [|done].
    apply zstd_loop_returns; [done|]. rewrite Z.sub_0_r. lia. }
  destruct decoded; [|done]. apply returns_bind. intros content. apply returns_bind. by intros [] x.
Qed.

(** Enough rounds are as good as any larger number. *)
Lemma fetch_loop_more fuel options checksum redirects visited current more :
  max_redirects options < redirects + Z.of_nat fuel -> (0 < fuel)%nat -> forall x : Exchange App,
  fetch_loop (fuel + more) options checksum redirects visited current x =
    fetch_loop fuel options checksum redirects visited current x.
Proof.
  revert redirects visited current; induction fuel as [|fuel IH];
    intros redirects visited current Hr Hf x; [lia|]. cbn [fetch_loop Nat.add].
  unfold mbind, M_bind. destruct (fail_if _ _ x) as [[[]|e] x1]; [|done].
  destruct (validate_and_resolve _ _ x1) as [[target|e] x2]; [|done].
  destruct (get_once target options x2) as [[response|e] x3]; [|done].
  destruct (is_redirect (rs_status response)); [|done].
  destruct (Z.leb_spec (max_redirects options) redirects); [done|].
  destruct (fail_if _ _ x3) as [[[]|e] x4]; [|done].
  destruct (lift _ x4) as [[next|e] x5]; [|done]. apply IH; lia.
Qed.

Lemma fetch_loop_returns `{!ZstdLaws} fuel options checksum redirects visited current :
  0 <= max_decoded_bytes options -> max_redirects options < redirects + Z.of_nat fuel ->
  (0 < fuel)%nat -> returns (fetch_loop fuel options checksum redirects visited current).
Proof.
  intros Hcap. revert redirects visited current; induction fuel as [|fuel IH];
    intros redirects visited current Hr Hf; [lia|]. cbn [fetch_loop].
  apply returns_bind. intros _. apply returns_bind. intros target. apply returns_bind. intros response.
  destruct (is_redirect (rs_status response)); [|by apply finish_fetch_returns].
  destruct (Z.leb_spec (max_redirects options) redirects); [by intros x|].
  apply returns_bind. intros _. apply returns_bind. intros next. apply IH; lia.
Qed.
End client_lemmas.

(** ** Lemmas on the metadata of a resolved pointer *)

Section metadata_lemmas.
Context `{KeyValueMetadataLaws} {arrow : Arrow}.

Lemma filter_all {A} (P : A -> Prop) `{!forall x, Decision (P x)} (l : list A) :
  Forall P l -> filter P l = l.
Proof. induction 1 as [|x l Hx _ IH]; [done|]. rewrite filter_cons_True by done. by rewrite IH. Qed.

Lemma delete_key_filter fuel md key : (length md <= fuel)%nat ->
  delete_key fuel md key = filter (fun kv : bytes * bytes => kv.1 <> key) md.
Proof.
  revert md; induction fuel as [|fuel IH]; intros md Hl; cbn [delete_key].
  - by destruct md; [|cbn in Hl; lia].
  - destruct (Z.leb_spec 0 (FindKey md key)) as [Hi|Hi].
    + destruct (FindKey_present md key Hi) as [v Hv].
      pose proof (lookup_lt_Some _ _ _ Hv) as Hlt.
      rewrite IH by (rewrite length_app, length_take, length_drop; lia).
      rewrite <- (take_drop_middle md _ _ Hv) at 5. rewrite !filter_app.
      rewrite (filter_cons_False _ (key, v)); [done|]. by intros [].
    + apply FindKey_absent in Hi. symmetry. apply filter_all, Forall_forall. intros [k v] Hin Hk. cbn in Hk.
      subst k. apply Hi. apply list_elem_of_fmap. by exists (key, v).
Qed.

Lemma erase_filter md key : erase_metadata_key md key = filter (fun kv : bytes * bytes => kv.1 <> key) md.
Proof. by apply delete_key_filter. Qed.

(** Association lists without duplicates, seen as maps. *)
Lemma assoc_app md md' key : assoc (md ++ md') key = match assoc md key with Some v => Some v | None => assoc md' key end.
Proof. induction md as [|[k v] md IH]; [done|]. cbn. by case_decide. Qed.

Lemma assoc_filter (P : bytes * bytes -> Prop) `{!forall kv, Decision (P kv)} (b : bytes -> bool) md key :
  (forall kv, P kv <-> b kv.1 = true) -> assoc (filter P md) key = if b key then assoc md key else None.
Proof.
  intros HP. induction md as [|[k v] md IH]; [by destruct (b key)|]. rewrite filter_cons. cbn [assoc].
  destruct (decide (P (k, v))) as [Hk|Hk]; rewrite HP in Hk; cbn [assoc fst] in *;
    (destruct (decide (k = key)) as [->|Hne]; [|exact IH]).
  - by rewrite Hk.
  - rewrite IH. by destruct (b key).
Qed.

(** The value the fetched batch gives a key: the last one, since each erases the
    one before. *)
Definition last_value (md : kv_list) (key : bytes) : option bytes :=
  foldl (fun found kv => if decide (kv.1 = key) then Some kv.2 else found) None md.

Lemma filter_keys_nodup (P : bytes * bytes -> Prop) `{!forall kv, Decision (P kv)} (md : kv_list) :
  NoDup md.*1 -> NoDup (filter P md).*1.
Proof.
  induction md as [|[k v] md IH]; [done|]. rewrite fmap_cons, NoDup_cons. intros [Hk Hnd].
  rewrite filter_cons. case_decide; [|auto]. rewrite fmap_cons, NoDup_cons. split; [|auto].
  intros (kv & E & [_ Hin]%list_elem_of_filter)%list_elem_of_fmap. apply Hk, list_elem_of_fmap. eauto.
Qed.

(** Erasing then appending keeps keys distinct and sets one of them. *)
Lemma set_key_nodup md key v : NoDup md.*1 ->
  NoDup (Append (erase_metadata_key md key) key v).*1.
Proof.
  intros Hnd. unfold Append. rewrite erase_filter, fmap_app. apply NoDup_app. split_and!.
  - by apply filter_keys_nodup.
  - intros k (kv & -> & [Hk _]%list_elem_of_filter)%list_elem_of_fmap [E|[]%elem_of_nil]%elem_of_cons.
    by apply Hk.
  - apply NoDup_singleton.
Qed.

Lemma append_nodup md key v : key ∉ md.*1 -> NoDup md.*1 -> NoDup (Append md key v).*1.
Proof.
  intros Hk Hnd. unfold Append. rewrite fmap_app. apply NoDup_app. split_and!; [done| |apply NoDup_singleton].
  intros k Hin [->|[]%elem_of_nil]%elem_of_cons. done.
Qed.

Lemma erase_absent md key : key ∉ md.*1 -> erase_metadata_key md key = md.
Proof.
  intros Hk. rewrite erase_filter. apply filter_all, Forall_forall. intros kv Hin E. apply Hk.
  apply list_elem_of_fmap. eauto.
Qed.

Lemma set_key_assoc md key v k :
  assoc (Append (erase_metadata_key md key) key v) k = if decide (key = k) then Some v else assoc md k.
Proof.
  unfold Append. rewrite erase_filter, assoc_app.
  rewrite (assoc_filter _ (fun k => bool_decide (k <> key))) by (intros kv; by rewrite bool_decide_eq_true).
  cbn [assoc]. destruct (decide (key = k)) as [->|Hne].
  - rewrite bool_decide_eq_false_2; [done|]. by intros [].
  - rewrite bool_decide_eq_true_2 by congruence. by destruct (assoc md k).
Qed.

Definition add_inner (result : kv_list) (kv : bytes * bytes) : kv_list :=
  if is_location_metadata kv.1 then result else Append (erase_metadata_key result kv.1) kv.1 kv.2.

Lemma fold_inner result inner : NoDup result.*1 ->
  NoDup (foldl add_inner result inner).*1
  /\ forall k, assoc (foldl add_inner result inner) k =
       if is_location_metadata k then assoc result k
       else foldl (fun found kv => if decide (kv.1 = k) then Some kv.2 else found) (assoc result k) inner.
Proof.
  revert result; induction inner as [|[k' v] inner IH]; intros result Hnd; cbn [foldl].
  - split; [done|]. intros k. by destruct (is_location_metadata k).
  - assert (NoDup (add_inner result (k', v)).*1) as Hnd'.
    { unfold add_inner. destruct (is_location_metadata _); [done|]. by apply set_key_nodup. }
    destruct (IH _ Hnd') as [HN HA]. split; [done|]. intros k. rewrite HA. unfold add_inner. cbn [fst snd].
    destruct (is_location_metadata k) eqn:Ek, (is_location_metadata k') eqn:Ek'; try done.
    + rewrite set_key_assoc. rewrite decide_False by congruence. done.
    + rewrite (decide_False (P := k' = k)) by congruence. done.
    + rewrite set_key_assoc. done.
Qed.

Lemma fold_found inner found k :
  foldl (fun found (kv : bytes * bytes) => if decide (kv.1 = k) then Some kv.2 else found) found inner
  = match last_value inner k with Some v => Some v | None => found end.
Proof.
  unfold last_value. revert found. induction inner as [|kv inner IH] using rev_ind; intros found; [done|].
  rewrite !foldl_app. cbn [foldl]. case_decide; [done|]. apply IH.
Qed.

(** The metadata of a resolved batch, key by key. *)
Lemma merged_metadata outer inner source elapsed : NoDup (default [] outer).*1 ->
  let merged := merge_resolution_metadata outer inner source elapsed in
  NoDup merged.*1
  /\ find_value merged LOCATION = None /\ find_value merged LOCATION_SHA256 = None
  /\ find_value merged LOCATION_SOURCE = Some source
  /\ find_value merged LOCATION_FETCH_MS = Some (to_string_double elapsed)
  /\ forall k, is_location_metadata k = false ->
       find_value merged k = match last_value (default [] inner) k with
                             | Some v => Some v
                             | None => assoc (default [] outer) k
                             end.
Proof.
  intros Hnd. unfold merge_resolution_metadata.
  set (kept := filter _ (default [] outer)).
  assert (forall k, assoc kept k = if is_location_metadata k then None else assoc (default [] outer) k) as Hkept.
  { intros k. unfold kept. rewrite (assoc_filter _ (fun k => negb (is_location_metadata k)))
      by (intros kv; by rewrite negb_true_iff). by destruct (is_location_metadata k). }
  destruct (fold_inner kept (default [] inner)) as [HN HA]; [by apply filter_keys_nodup|].
  change (foldl _ kept (default [] inner)) with (foldl add_inner kept (default [] inner)).
  set (both := foldl add_inner kept (default [] inner)) in *. cbn [foldl].
  assert (forall k, assoc both k = if is_location_metadata k then None else
            match last_value (default [] inner) k with Some v => Some v | None => assoc (default [] outer) k end) as Hb.
  { intros k. rewrite HA, Hkept. destruct (is_location_metadata k) eqn:Ek; [done|].
    rewrite fold_found. done. }
  assert (forall k, is_location_metadata k = true -> k ∉ both.*1) as Habs.
  { intros k Hk. apply assoc_none. by rewrite Hb, Hk. }
  rewrite (erase_absent both), erase_absent by (by apply Habs).
  assert (LOCATION_FETCH_MS ∉ (Append both LOCATION_SOURCE source).*1) as Hms.
  { unfold Append. rewrite fmap_app, elem_of_app. intros [Hin|[E|Hin]%elem_of_cons];
      [by apply (Habs LOCATION_FETCH_MS)|discriminate E|by apply elem_of_nil in Hin]. }
  assert (NoDup (Append (Append both LOCATION_SOURCE source) LOCATION_FETCH_MS (to_string_double elapsed)).*1) as Hall.
  { apply append_nodup; [done|]. apply append_nodup; [by apply Habs|done]. }
  split; [done|]. rewrite !find_value_assoc by done. unfold Append. rewrite !assoc_app, !Hb.
  split_and!; try reflexivity. intros k Hk. rewrite find_value_assoc by done. rewrite !assoc_app, Hb, Hk. cbn.
  rewrite !decide_False by (intros <-; discriminate Hk).
  destruct (last_value _ k); [done|]. by destruct (assoc _ k).
Qed.
End metadata_lemmas.

Section pointer_lemmas.
Context {md_impl : KeyValueMetadata} {arrow : Arrow} {streams : ArrowStreams} {buffers : BufferStreams}.
Context {pton : InetPton} {ntop : InetNtop} {network : Network} {zstd : Zstd} {D : Digests} {App : Type}.

Lemma sends_call_log P (on_log : option (AnnotatedBatch -> M App unit)) batch :
  sends P 0 (call_log on_log batch) (fun _ => True).
Proof.
  destruct on_log as [f|]; [|by apply sends_ret]. apply sends_quiet. intros x. unfold call_log, zoom.
  by destruct (f batch (ex_app x)).
Qed.

Lemma payload_batches_sends P (on_log : option (AnnotatedBatch -> M App unit)) batches data :
  sends P 0 (payload_batches on_log batches data)
    (fun data' => data' = data ++ filter (fun b => payload_log b = false) batches
                  /\ Forall (fun b => has_key (custom_metadata b) LOCATION = false) batches).
Proof.
  revert data; induction batches as [|batch batches IH]; intros data; cbn [payload_batches].
  - apply sends_ret. by rewrite app_nil_r.
  - eapply sends_then; [apply sends_fail_if|]. intros [] Hloc. rewrite filter_cons.
    destruct (payload_log batch) eqn:El.
    + eapply sends_then; [apply sends_fail_if|]. intros [] _.
      eapply sends_then; [apply sends_call_log|]. intros [] _.
      eapply sends_weaken; [apply IH|done|]. intros data' [-> ?]. by split; [|constructor].
    + eapply sends_weaken; [apply IH|done|]. intros data' [-> ?].
      split; [|by constructor]. by rewrite <- app_assoc.
Qed.

(** What a payload stands for: the one data batch of its stream. *)
Definition pointed_batch (payload : bytes) (batch : AnnotatedBatch) : Prop :=
  exists s batches w,
    read_ipc_stream (buffer_reader payload) = (Done (Some (s, batches)), w)
    /\ buffer_tell payload w = Some (blen payload)
    /\ filter (fun b => payload_log b = false) batches = [batch]
    /\ Forall (fun b => has_key (custom_metadata b) LOCATION = false) batches.

Lemma read_payload_sends P payload :
  sends (App := App) P 0 (read_payload payload)
    (fun contents => exists w, read_ipc_stream (buffer_reader payload) = (Done (Some contents), w)
                               /\ buffer_tell payload w = Some (blen payload)).
Proof.
  apply sends_quiet. intros x. unfold read_payload.
  destruct (read_ipc_stream _) as [[[contents|]|e] w] eqn:E; [|done|done].
  destruct (buffer_tell payload w) as [position|] eqn:Et; [|done].
  destruct (Z.eqb_spec position (blen payload)) as [->|]; [|done]. split; [done|].
  intros c [= <-]. by exists w.
Qed.

(** A pointer that is resolved: what was fetched from its location, and the
    batch in it. *)
Lemma resolve_pointer_fetches rounds options pointer (on_log : option (AnnotatedBatch -> M App unit)) x ab x' :
  has_key (custom_metadata pointer) LOCATION = true ->
  resolve_pointer rounds options pointer on_log x = (Done (Some ab), x') ->
  num_rows (ab_batch pointer) = 0 /\ has_key (custom_metadata pointer) LOG_LEVEL = false
  /\ exists started x1 payload x2 batch elapsed,
    net_call steady_clock x = (Done started, x1)
    /\ fetch rounds options (get_metadata_value (custom_metadata pointer) LOCATION [])
         (get_metadata_value (custom_metadata pointer) LOCATION_SHA256 []) x1 = (Done (Some payload), x2)
    /\ pointed_batch payload batch
    /\ schema_equal_metadata (schema (ab_batch batch)) (schema (ab_batch pointer)) = true
    /\ ab = {| ab_batch := ab_batch batch;
               custom_metadata :=
                 Some (merge_resolution_metadata (custom_metadata pointer) (custom_metadata batch)
                         (get_metadata_value (custom_metadata pointer) LOCATION []) elapsed) |}.
Proof.
  intros Hp E. unfold resolve_pointer in E. rewrite Hp in E. cbn [negb] in E.
  apply bind_done_inv in E as ([] & x0 & E0 & E).
  destruct (negb _ || _) eqn:Hmal; [done|]. injection E0 as <-. bool_to_prop.
  apply bind_done_inv in E as (started & x1 & E1 & E).
  apply bind_done_inv in E as ([payload|] & x2 & E2 & E); [|done].
  apply bind_done_inv in E as ([s batches] & x3 & E3 & E).
  destruct (read_payload_sends (fun _ => True) payload x2) as [_ Hread]. rewrite E3 in Hread.
  destruct (Hread _ eq_refl) as (w & Hw & Htell).
  apply bind_done_inv in E as (data & x4 & E4 & E).
  destruct (payload_batches_sends (fun _ => True) on_log batches [] x3) as [_ Hdata]. rewrite E4 in Hdata.
  destruct (Hdata _ eq_refl) as [Hd Hnest]. cbn [app] in Hd.
  destruct data as [|batch [|? ?]]; [done| |done].
  apply bind_done_inv in E as ([] & x5 & E5 & E).
  destruct (negb _ || negb _) eqn:Hs; [done|]. bool_to_prop.
  apply bind_done_inv in E as (finished & x6 & E6 & E). injection E as <- <-.
  split_and!; [done|done|].
  exists started, x1, payload, x2, batch, (elapsed_ms (finished - started)). split_and!; try done.
  by exists s, batches, w.
Qed.
End pointer_lemmas.

Section upload_lemmas.
Context {pton : InetPton} {ntop : InetNtop} {network : Network} {App : Type}.

(** An upload: the bytes it was given, within the cap, to an allowed target, with a
    content type that stays inside its header. *)
Definition allowed_put (options : ClientExternalHttpOptions) (body content_type : bytes) (rq : HttpRequest) : Prop :=
  blen body <= max_upload_bytes options /\ (x0d ∉ content_type) /\ (x0a ∉ content_type)
  /\ exists target, allowed_target (url_policy options) target /\ rq = put_request target body content_type.

Lemma put_sends options url body content_type :
  sends (App := App) (allowed_put options body content_type) 1 (put_payload options url body content_type)
    (fun _ => exists rq n status, allowed_put options body content_type rq
       /\ an_status (http_exchange rq n).1 = Some status /\ 200 <= status < 300).
Proof.
  unfold put_payload. eapply sends_then; [apply sends_fail_if|]. intros [] Hb. bool_to_prop.
  eapply (sends_then _ _ _ _ (fun _ => (x0d ∉ content_type) /\ (x0a ∉ content_type))).
  { destruct (_ || _) eqn:E; [apply sends_raise|apply sends_ret]. by bool_to_prop. }
  intros [] [Hcr Hlf]. eapply sends_then; [apply validate_and_resolve_sends|]. intros target Ht.
  assert (allowed_put options body content_type (put_request target body content_type)) as Hrq.
  { split_and!; [lia|done|done|]. by exists target. }
  eapply sends_then; [apply sends_fail_if|]. intros [] _.
  eapply (sends_bind _ 1 0); [by apply sends_request|]. intros answer [n Hn].
  destruct (receive_body _ _ _); [|apply sends_raise]. destruct (an_status answer) as [status|] eqn:Es; [|apply sends_raise].
  eapply sends_then; [apply sends_fail_if|]. intros [] _.
  eapply sends_weaken; [apply sends_fail_if|done|]. intros [] Hst. bool_to_prop.
  exists (put_request target body content_type), n, status. rewrite Hn. split_and!; [done|done|lia|lia].
Qed.
End upload_lemmas.

(** ** Properties *)

Section client_properties.
Context {pton : InetPton} {ntop : InetNtop} {network : Network} {zstd : Zstd} {D : Digests} {App : Type}.

Lemma new_options_ok value options : new_ClientExternalHttp value = Ok options ->
  options = value /\ 0 <= max_redirects options <= 5 /\ 0 <= max_encoded_bytes options
  /\ 0 <= max_decoded_bytes options.
Proof.
  unfold new_ClientExternalHttp. intros Hn. apply throw_if_then in Hn as [Hr Hn].
  apply throw_if_then in Hn as [Hc Hn]. apply throw_if_then in Hn as [_ Hn]. injection Hn as <-.
  bool_to_prop. split_and!; [done|lia..].
Qed.

(** C15: a fetch never reaches an internal host, and ends.  Whatever redirects the
    servers answer with and however long the loop is let run, it makes at most
    six requests, each a GET without headers of the caller's, to a URL of the
    policy's scheme, at an address the resolver gave for its host and the policy
    allows (and the resolver gave the host no forbidden one); what it returns is
    within the cap on decoded bytes and has the expected SHA-256.  Let run for
    the rounds that the option on redirects allows and one more, it returns the
    bytes or throws, whatever the servers compress, and more rounds do not change
    what it does. *)
Theorem fetch_stays_in_policy `{!ZstdLaws} value options url checksum rounds (x : Exchange App) :
  new_ClientExternalHttp value = Ok options ->
  let '(result, x') := fetch rounds options url checksum x in
  (exists rqs, ex_requests x' = ex_requests x ++ rqs /\ (length rqs <= 6)%nat
               /\ Forall (allowed_get options) rqs)
  /\ (forall content, result = Done (Some content) -> checked_content options checksum content)
  /\ (max_redirects options < Z.of_nat rounds -> result <> Done None /\
        forall more, fetch (rounds + more) options url checksum x = (result, x')).
Proof.
  intros (_ & Hr & He & Hd)%new_options_ok. unfold fetch.
  destruct (fetch_loop_sends (App := App) rounds options checksum 0 ∅ url He ltac:(lia) x)
    as [(rqs & E & Hp & Hl) HQ].
  pose proof (fetch_loop_returns (App := App) rounds options checksum 0 ∅ url Hd) as Hn.
  pose proof (fetch_loop_more (App := App) rounds options checksum 0 ∅ url) as Hm.
  destruct (fetch_loop rounds options checksum 0 ∅ url x) as [result x'] eqn:Ef. cbn [fst snd] in *. split_and!.
  - exists rqs. split_and!; [done|lia|done].
  - intros content ->. by apply (HQ _ eq_refl).
  - intros Hrounds. split; [specialize (Hn ltac:(lia) ltac:(lia) x); by rewrite Ef in Hn|].
    intros more. rewrite (Hm more ltac:(lia) ltac:(lia)). done.
Qed.

(** An upload sends at most one request, to an allowed address, with the bytes
    it was given, within the cap, and no header of the caller's but the content
    type, which cannot break out of its header; it returns normally only when the
    server answered with a success. *)
Theorem upload_stays_in_policy options url body content_type (x : Exchange App) :
  let '(result, x') := put_payload options url body content_type x in
  (exists rqs, ex_requests x' = ex_requests x ++ rqs /\ (length rqs <= 1)%nat
     /\ Forall (allowed_put options body content_type) rqs)
  /\ (result = Done tt -> exists rq n status,
        allowed_put options body content_type rq /\ an_status (http_exchange rq n).1 = Some status
        /\ 200 <= status < 300).
Proof.
  pose proof (put_sends options url body content_type x) as [Hs HQ].
  destruct (put_payload _ _ _ _ x) as [result x']. split; [|by intros ->; apply (HQ tt)].
  destruct Hs as (rqs & E & Hp & Hl). by exists rqs.
Qed.
End client_properties.

Section pointer_property.
Context `{KeyValueMetadataLaws} {arrow : Arrow} {streams : ArrowStreams} {buffers : BufferStreams}.
Context {pton : InetPton} {ntop : InetNtop} {network : Network} {zstd : Zstd} {D : Digests} {App : Type}.

(** C16: a batch that is not a pointer comes back as it is, without a request.  A
    pointer that is resolved, on the metadata of a batch with no repeated key,
    has no rows, and what is resolved is what [fetch] returned, at that moment,
    for the pointer's location and checksum: the one data batch of the fetched
    stream, which is all of the payload, has no pointer inside and the schema of
    the pointer; its metadata has the fetched batch's value for every key it has
    and the pointer's for the others, the location it came from, and neither the
    pointer's location nor its checksum, so it is not taken for a pointer again. *)
Theorem pointer_resolved rounds options pointer (on_log : option (AnnotatedBatch -> M App unit)) x :
  NoDup (default [] (custom_metadata pointer)).*1 ->
  (has_key (custom_metadata pointer) LOCATION = false ->
   resolve_pointer rounds options pointer on_log x = (Done (Some pointer), x))
  /\ (has_key (custom_metadata pointer) LOCATION = true -> forall ab x',
      resolve_pointer rounds options pointer on_log x = (Done (Some ab), x') ->
      let location := get_metadata_value (custom_metadata pointer) LOCATION [] in
      let checksum := get_metadata_value (custom_metadata pointer) LOCATION_SHA256 [] in
      num_rows (ab_batch pointer) = 0
      /\ exists payload batch merged,
        (exists started x1 x2, net_call steady_clock x = (Done started, x1)
           /\ fetch rounds options location checksum x1 = (Done (Some payload), x2))
        /\ pointed_batch payload batch
        /\ schema_equal_metadata (schema (ab_batch batch)) (schema (ab_batch pointer)) = true
        /\ ab = {| ab_batch := ab_batch batch; custom_metadata := Some merged |}
        /\ find_value merged LOCATION = None /\ find_value merged LOCATION_SHA256 = None
        /\ find_value merged LOCATION_SOURCE = Some location
        /\ forall k, is_location_metadata k = false ->
             find_value merged k = match last_value (default [] (custom_metadata batch)) k with
                                   | Some v => Some v
                                   | None => assoc (default [] (custom_metadata pointer)) k
                                   end).
Proof.
  intros Hnd. split; [intros Hk; unfold resolve_pointer; by rewrite Hk|]. intros Hk ab x' Hr.
  destruct (resolve_pointer_fetches rounds options pointer on_log x ab x' Hk Hr)
    as (Hrows & _ & started & x1 & payload & x2 & batch & elapsed & Es & Ef & Hb & Hs & ->).
  split; [done|]. eexists payload, batch, _. split_and!; [by exists started, x1, x2|done|done|reflexivity|..];
    destruct (merged_metadata (custom_metadata pointer) (custom_metadata batch)
      (get_metadata_value (custom_metadata pointer) LOCATION []) elapsed Hnd) as (_ & H1 & H2 & H3 & _ & H4); done.
Qed.
End pointer_property.

(** ** Witnesses *)

Import ToyArrow ToyStreams.

(** A network with a public host that redirects [/a] to [/b], a host that
    redirects to an internal one, and the internal one; the state counts calls. *)
Module ToyNetwork.
Import ToyInet.

Definition toy_addresses (host : bytes) : option (list sockaddr) :=
  if bool_decide (host = str "intern.example.com") then Some [Inet [x0a; x00; x00; x01]]
  else Some [Inet [x5d; xb8; xd8; x22]].

Definition toy_answer (rq : HttpRequest) : HttpAnswer :=
  let redirect location :=
    {| an_head := Some (302, fun h => if bool_decide (h = str "Location") then Some location else None);
       an_chunks := []; an_status := None |} in
  if bool_decide (rq_path rq = str "/a") then redirect (str "b")
  else if bool_decide (rq_path rq = str "/evil") then redirect (str "https://intern.example.com/")
  else {| an_head := Some (200, fun _ => None); an_chunks := [str "he"; str "llo"]; an_status := Some 200 |}.

#[export] Instance network : Network :=
  {| net := nat; getaddrinfo host _ n := (toy_addresses host, S n); http_valid _ := true;
     http_exchange rq n := (toy_answer rq, S n); steady_clock n := (Z.of_nat n * 1500000, S n) |}.

#[export] Instance zstd : Zstd :=
  {| ZSTD_DCtx := unit; ZSTD_createDCtx := Some tt; ZSTD_setWindowLogMax _ _ := Some tt;
     ZSTD_decompressStream _ unread := Some (unread, length unread, 0, tt) |}.

#[export] Instance zstd_laws : ZstdLaws.
Proof. split; [by intros [] u o n h [] [= <- <- <-]|]. intros [] u o n [] Hu [= <- <-]. by right. Qed.

#[export] Instance buffers : BufferStreams :=
  {| buffer_reader p := toy_wire [MsgSchema toy_schema;
       MsgBatch (toy_data_batch p) (Some [(str "k", str "fetched")]); MsgEos];
     buffer_tell p _ := Some (blen p); schema_equal_metadata s t := Bool.eqb s t |}.

Definition toy_options : ClientExternalHttpOptions :=
  {| url_policy := PUBLIC_HTTPS; max_redirects := 2; max_encoded_bytes := 100; max_decoded_bytes := 100;
     max_upload_bytes := 100; max_upload_response_bytes := 100; connect_timeout := 1; read_timeout := 1;
     write_timeout := 1 |}.

Definition start : Exchange unit := {| ex_net := 0%nat; ex_requests := []; ex_app := tt |}.

Definition toy_pointer : AnnotatedBatch :=
  {| ab_batch := toy_data_batch [];
     custom_metadata := Some [(LOCATION, str "https://h/a?sig=1"); (str "k", str "outer"); (str "l", str "outer")] |}.
End ToyNetwork.
Import ToyInet ToyNetwork Crypto.Toy.

Example fetch_examples :
  (fetch 3 toy_options (str "https://h/a") [] start).1 = Done (Some (str "hello"))
  /\ map rq_path (ex_requests (fetch 3 toy_options (str "https://h/a") [] start).2) = [str "/a"; str "/b"]
  /\ (fetch 3 toy_options (str "https://h/evil") [] start).1
     = Raised (EOther (str "external URL resolves to an address forbidden by policy"))
  /\ length (ex_requests (fetch 3 toy_options (str "https://h/evil") [] start).2) = 1%nat
  /\ zstd_window_log_for_limit (256 * 1024 * 1024) = 28 /\ zstd_window_log_for_limit 0 = 19.
Proof. vm_compute. split_and!; reflexivity. Qed.

Lemma fetch_stays_in_policy_witness :
  (fetch 3 toy_options (str "https://h/evil") [] start).1
    = Raised (EOther (str "external URL resolves to an address forbidden by policy"))
  /\ exists rqs, ex_requests (fetch 3 toy_options (str "https://h/evil") [] start).2 = [] ++ rqs
       /\ Forall (allowed_get toy_options) rqs.
Proof.
  split; [vm_compute; reflexivity|].
  pose proof (fetch_stays_in_policy toy_options toy_options (str "https://h/evil") [] 3 start eq_refl) as Hf.
  destruct (fetch 3 toy_options (str "https://h/evil") [] start) as [r x'].
  destruct Hf as [(rqs & E & _ & Hp) _]. by exists rqs.
Defined.

Lemma pointer_resolved_witness :
  exists ab x', resolve_pointer 3 toy_options toy_pointer None start = (Done (Some ab), x')
  /\ exists merged, custom_metadata ab = Some merged /\ find_value merged LOCATION = None
     /\ find_value merged (str "k") = Some (str "fetched") /\ find_value merged (str "l") = Some (str "outer").
Proof.
  destruct (resolve_pointer 3 toy_options toy_pointer None start) as [[[ab|]|e] x'] eqn:E.
  2,3: exfalso; vm_compute in E; discriminate E.
  exists ab, x'. split; [done|].
  assert (NoDup (default [] (custom_metadata toy_pointer)).*1) as Hnd
    by (repeat constructor; rewrite list_elem_of_In; cbn; intuition discriminate).
  assert (has_key (custom_metadata toy_pointer) LOCATION = true) as Hloc by (vm_compute; reflexivity).
  destruct (proj2 (pointer_resolved 3 toy_options toy_pointer None start Hnd) Hloc ab x' E)
    as (_ & payload & batch & merged & _ & Hb & _ & -> & H1 & _ & _ & Hk).
  exists merged. split; [done|]. split; [done|]. vm_compute in E. injection E as _ Em _. subst merged.
  split; vm_compute; reflexivity.
Defined.
