(* ===== verification/External.v ===== *)
(** * Publishing payloads (src/src/external.cpp, include/vgi_rpc/external.h)

    The upload every externalization goes through, references to published
    results, and the URL functions of the HTTP backend.  A storage backend is a
    record of operations over the application's state (the backends talk to object
    stores); zstd's compressor and the IPC writer to a buffer are library code. *)

From S2P Require Import Prelude Arrow Json Crypto IdentityInternal Errors Wire Calls ExternalUrl.

(** [BufferOutputStream]: the bytes of a sequence of IPC messages. *)
Class IpcBytes `{ArrowStreams} := ipc_bytes : list message -> bytes.

(** [ZSTD_compress] at level 3; [None] is an error. *)
Class ZstdCompressor := ZSTD_compress : bytes -> option bytes.

Record UploadUrlPair := { upup_upload_url : bytes; upup_download_url : bytes }.

Record ExternalStorage (App : Type) := {
  es_upload : bytes -> bytes -> M App bytes;
  es_fetch : bytes -> M App bytes;
  es_upload_urls : Z -> M App (list UploadUrlPair);
}.
Arguments es_upload {App} _.
Arguments es_fetch {App} _.
Arguments es_upload_urls {App} _.

Record ExternalUpload := {
  eu_url : bytes;
  eu_sha256 : bytes;
  eu_raw_bytes : Z;
  eu_uploaded_bytes : Z;
}.

Section publish.
Context {D : Digests} {compressor : ZstdCompressor} {App : Type}.

Definition upload_ipc_stream (ipc : bytes) (storage : ExternalStorage App) (compression : bytes)
    : M App ExternalUpload :=
  let digest := hex_encode (sha256 ipc) in
  let plain :=
    url ← es_upload storage ipc [];
    mret {| eu_url := url; eu_sha256 := digest; eu_raw_bytes := blen ipc; eu_uploaded_bytes := blen ipc |} in
  if bool_decide (compression = str "zstd") then
    match ZSTD_compress ipc with
    | Some compressed =>
        url ← es_upload storage compressed (str "zstd");
        mret {| eu_url := url; eu_sha256 := digest; eu_raw_bytes := blen ipc;
                eu_uploaded_bytes := blen compressed |}
    | None => plain
    end
  else plain.

Definition is_lower_hex_sha256 (value : bytes) : bool :=
  (length value =? 64)%nat && forallb (fun c => is_digit c || in_range c "a" "f") value.

(** The constructor of [ExternalRef]. *)
Definition new_ExternalRef (url : bytes) (sha256 : option bytes) : res ExternalRef :=
  _ ← throw_if (bool_decide (url = [])) (InvalidArgument (str "ExternalRef url must be non-empty"));
  _ ← throw_if (match sha256 with Some h => negb (is_lower_hex_sha256 h) | None => false end)
        (InvalidArgument (str "ExternalRef sha256 must be 64 lowercase hex characters (or absent)"));
  Ok {| url_ := url; sha256_ := sha256 |}.

Context {arrow : Arrow} {streams : ArrowStreams} {ipc : IpcBytes}.

(** A fresh [BufferOutputStream], which never fails, and the bytes of what is
    written to it. *)
Definition buffer_wire : wire :=
  {| input := []; at_eos := false; output := []; writer := None; room := None |}.

Definition to_buffer {St : Type} (write : M wire unit) : M St bytes := fun s =>
  match write buffer_wire with
  | (Done _, w) => (Done (ipc_bytes (output w)), s)
  | (Raised e, _) => (Raised e, s)
  end.

Definition publish_external (batch : option RecordBatch) (storage : ExternalStorage App)
    (compression : bytes) (include_sha256 : bool) : M App ExternalRef :=
  match batch with
  | None => raise (EInvalidArgument (str "publish_external requires a result batch"))
  | Some batch =>
      if negb (num_rows batch =? 1) then
        raise (EInvalidArgument (str "publish_external expects a 1-row result batch, got "
                                 ++ to_string (num_rows batch) ++ str " rows"))
      else if bool_decide (compression <> []) && negb (bool_decide (compression = str "zstd")) then
        raise (EInvalidArgument (str "publish_external: unsupported compression '" ++ compression
                                 ++ str "' (expected " ++ [x22] ++ str "zstd" ++ [x22] ++ str " or empty)"))
      else
        ipc ← to_buffer (write_ipc_stream (schema batch) [data batch]);
        uploaded ← upload_ipc_stream ipc storage compression;
        lift (new_ExternalRef (eu_url uploaded) (if include_sha256 then Some (eu_sha256 uploaded) else None))
  end.
End publish.

(** ** Lemmas *)

Lemma hex_encode_lower (data : bytes) :
  forallb (fun c => is_digit c || in_range c "a" "f") (hex_encode data) = true.
Proof.
  induction data as [|d data IH]; [done|]. unfold hex_encode. cbn [mbind list_bind].
  rewrite forallb_app. apply andb_true_intro. split; [|exact IH]. by destruct d.
Qed.

Section publish_lemmas.
Context {D : Digests} {dlaws : DigestLaws D} {compressor : ZstdCompressor} {App : Type}.

Lemma digest_is_text data : is_lower_hex_sha256 (hex_encode (sha256 data)) = true.
Proof. unfold is_lower_hex_sha256. by rewrite hex_encode_lower, hex_encode_length, sha256_length. Qed.

(** What an upload stored for the payload [ipc]: the payload itself, or its
    compression with its name. *)
Definition stored (compression ipc content encoding : bytes) : Prop :=
  (encoding = [] /\ content = ipc)
  \/ (encoding = str "zstd" /\ compression = str "zstd" /\ ZSTD_compress ipc = Some content).

Lemma upload_done ipc storage compression (app : App) u app' :
  upload_ipc_stream ipc storage compression app = (Done u, app') ->
  eu_sha256 u = hex_encode (sha256 ipc) /\ eu_raw_bytes u = blen ipc
  /\ exists content encoding, stored compression ipc content encoding
       /\ es_upload storage content encoding app = (Done (eu_url u), app')
       /\ eu_uploaded_bytes u = blen content.
Proof.
  assert (forall content encoding, stored compression ipc content encoding ->
    (url ← es_upload storage content encoding;
     mret {| eu_url := url; eu_sha256 := hex_encode (sha256 ipc); eu_raw_bytes := blen ipc;
             eu_uploaded_bytes := blen content |}) app = (Done u, app') ->
    eu_sha256 u = hex_encode (sha256 ipc) /\ eu_raw_bytes u = blen ipc
    /\ exists content encoding, stored compression ipc content encoding
         /\ es_upload storage content encoding app = (Done (eu_url u), app')
         /\ eu_uploaded_bytes u = blen content) as Hgen.
  { intros content encoding Hs (url & app1 & E & [= <- <-])%bind_done_inv. cbn. eauto 10. }
  unfold upload_ipc_stream. case_bool_decide as Hc.
  - destruct (ZSTD_compress ipc) as [c|] eqn:E; apply Hgen; unfold stored; auto.
  - apply Hgen. unfold stored. auto.
Qed.
End publish_lemmas.

Section published.
Context {D : Digests} {dlaws : DigestLaws D} {compressor : ZstdCompressor} {App : Type}
  {arrow : Arrow} {streams : ArrowStreams} {alaws : ArrowLaws} {slaws : ArrowStreamsLaws}
  {ipc : IpcBytes}.

(** A published reference names an upload of the whole stream of the one-row batch,
    and carries its digest when asked to; its URL is not empty. *)
Lemma publish_external_done batch storage compression include (app : App) r app' :
  publish_external batch storage compression include app = (Done r, app') ->
  exists b raw content encoding, batch = Some b /\ num_rows b = 1
    /\ to_buffer (write_ipc_stream (schema b) [data b]) app = (Done raw, app)
    /\ stored compression raw content encoding
    /\ es_upload storage content encoding app = (Done (url_ r), app') /\ url_ r <> []
    /\ sha256_ r = (if include then Some (hex_encode (sha256 raw)) else None).
Proof.
  unfold publish_external. destruct batch as [b|]; [|done].
  destruct (Z.eqb_spec (num_rows b) 1) as [Hrows|]; cbn [negb]; [|done]. destruct (_ && _); [done|].
  intros (raw & app1 & Eb & (u & app2 & Eu & El)%bind_done_inv)%bind_done_inv.
  assert (app1 = app) as -> by (revert Eb; unfold to_buffer; destruct (write_ipc_stream _ _ _) as [[|] ?]; congruence).
  apply upload_done in Eu as (Hsha & _ & content & encoding & Hst & Eup & _).
  unfold new_ExternalRef in El. destruct (bool_decide (eu_url u = [])) eqn:Eurl; [done|].
  apply bool_decide_eq_false in Eurl. rewrite Hsha in El.
  assert (match (if include then Some (hex_encode (sha256 raw)) else None) with
          | Some h => negb (is_lower_hex_sha256 h) | None => false end = false) as E
    by (destruct include; [by rewrite digest_is_text|done]).
  rewrite E in El. injection El as <- <-. cbn. eauto 12.
Qed.

(** A batch that is not one row, and a compression without a name, are refused
    before anything is stored. *)
Lemma publish_external_refused batch storage compression include (app : App) :
  match batch with Some b => num_rows b <> 1 | None => True end
  \/ (compression <> [] /\ compression <> str "zstd") ->
  exists what, publish_external batch storage compression include app = (Raised (EInvalidArgument what), app).
Proof.
  unfold publish_external. destruct batch as [b|]; [|by eexists].
  destruct (Z.eqb_spec (num_rows b) 1); cbn [negb]; [|by eexists]. intros [|[Hc Hz]]; [done|].
  rewrite bool_decide_eq_true_2, bool_decide_eq_false_2 by done. by eexists.
Qed.
End published.
