(* ===== verification/RequestParams.v ===== *)
(** * Request parameters (src/src/request.cpp, include/vgi_rpc/request.h)

    The typed accessors a handler reads its parameters with.  Arrow's array
    classes are a parameter: what the dynamic casts reveal of an array is a
    [column].  The C++ templates are functions of the cast they try. *)

From S2P Require Import Prelude Arrow Json Errors Wire Calls.

(** The slots of an array: the stored value and whether the slot is valid (the
    stored value of a slot that is not valid is whatever the buffer holds).
    [large] tells the classes with 64-bit offsets.  A list array has one more
    offset than slots; a map is a list of structs.  [OtherColumn] is an array
    of any other class. *)
Abbreviation slots A := (list (A * bool)).

#[warnings="-register-all"]
Inductive column :=
  | DoubleColumn (vs : slots binary64)
  | FloatColumn (vs : slots binary64)
  | Int64Column (vs : slots Z)
  | Int32Column (vs : slots Z)
  | BooleanColumn (vs : slots bool)
  | StringColumn (large : bool) (vs : slots bytes)
  | BinaryColumn (large : bool) (vs : slots bytes)
  | ListColumn (large : bool) (valid : list bool) (offsets : list Z) (values : column)
  | OtherColumn (n : Z).

Definition column_length (c : column) : Z :=
  match c with
  | DoubleColumn vs | FloatColumn vs => blen vs
  | Int64Column vs | Int32Column vs => blen vs
  | BooleanColumn vs => blen vs
  | StringColumn _ vs | BinaryColumn _ vs => blen vs
  | ListColumn _ valid _ _ => blen valid
  | OtherColumn n => n
  end.

Class ArrowColumns `{Arrow} := column_of : Array -> column.

(** [std::dynamic_pointer_cast].  A string array is a binary array. *)
Definition as_double (c : column) : option (slots binary64) :=
  match c with DoubleColumn vs => Some vs | _ => None end.
Definition as_float (c : column) : option (slots binary64) :=
  match c with FloatColumn vs => Some vs | _ => None end.
Definition as_int64 (c : column) : option (slots Z) :=
  match c with Int64Column vs => Some vs | _ => None end.
Definition as_int32 (c : column) : option (slots Z) :=
  match c with Int32Column vs => Some vs | _ => None end.
Definition as_boolean (c : column) : option (slots bool) :=
  match c with BooleanColumn vs => Some vs | _ => None end.
Definition as_string (large : bool) (c : column) : option (slots bytes) :=
  match c with StringColumn l vs => if Bool.eqb l large then Some vs else None | _ => None end.
Definition as_binary (large : bool) (c : column) : option (slots bytes) :=
  match c with
  | StringColumn l vs | BinaryColumn l vs => if Bool.eqb l large then Some vs else None
  | _ => None
  end.
Definition as_list (large : bool) (c : column) : option (list bool * list Z * column) :=
  match c with
  | ListColumn l valid offsets values => if Bool.eqb l large then Some (valid, offsets, values) else None
  | _ => None
  end.

Definition runtime_error {A} (what name : bytes) : res A := Throw (RuntimeError (what ++ name)).

(** [if (IsNull(0)) throw ...; return Value(0);] on an array that is not empty. *)
Definition value_or_throw {A} (vs : slots A) (name : bytes) : res A :=
  match vs with
  | (v, true) :: _ => Ok v
  | _ => runtime_error (str "Parameter is null: ") name
  end.

(** The same with [return std::nullopt]. *)
Definition value_or_nullopt {A} (vs : slots A) : option A :=
  match vs with (v, true) :: _ => Some v | _ => None end.

(** [values->Value(i)] for [i] from [start] to [end]. *)
Definition values_between {A} (vs : slots A) (offsets : list Z) : list A :=
  let start := default 0 (offsets !! 0%nat) in
  let stop := default 0 (offsets !! 1%nat) in
  map fst (take (Z.to_nat (stop - start)) (drop (Z.to_nat start) vs)).

Section accessors.
Context {arrow : Arrow} {afields : ArrowFields} {columns : ArrowColumns} {kvm : KeyValueMetadata}.

(** ** The request *)

Definition Request_method_name (r : Request) : bytes := get_metadata_value (req_metadata r) METHOD [].
Definition Request_request_id (r : Request) : bytes := get_metadata_value (req_metadata r) REQUEST_ID [].
Definition Request_request_version (r : Request) : bytes :=
  get_metadata_value (req_metadata r) REQUEST_VERSION [].
Definition Request_schema (r : Request) : Schema := schema (req_batch r).
Definition get_column (r : Request) (name : bytes) : option Array :=
  GetColumnByName (req_batch r) name.
Definition has_param (r : Request) (name : bytes) : bool := bool_decide (is_Some (get_column r name)).

(** ** One value *)

Definition require_column (batch : RecordBatch) (name : bytes) : res column :=
  match GetColumnByName batch name with
  | None => runtime_error (str "Parameter not found: ") name
  | Some col =>
      if column_length (column_of col) =? 0 then
        runtime_error (str "Empty batch, cannot get parameter: ") name
      else Ok (column_of col)
  end.

Definition get_value {A} (cast : column -> option (slots A)) (batch : RecordBatch) (name : bytes)
    : res A :=
  col ← require_column batch name;
  match cast col with
  | None => runtime_error (str "Type mismatch for parameter: ") name
  | Some typed => value_or_throw typed name
  end.

(** The columns [get_optional] looks at. *)
Definition optional_column (batch : RecordBatch) (name : bytes) : option column :=
  match GetColumnByName batch name with
  | None => None
  | Some col => if column_length (column_of col) =? 0 then None else Some (column_of col)
  end.

Definition get_optional_value {A} (cast : column -> option (slots A)) (batch : RecordBatch)
    (name : bytes) : res (option A) :=
  match optional_column batch name with
  | None => Ok None
  | Some col =>
      match cast col with
      | None => runtime_error (str "Type mismatch for parameter: ") name
      | Some typed => Ok (value_or_nullopt typed)
      end
  end.

Definition extract_string (col : column) (name : bytes) : res bytes :=
  match as_string false col, as_string true col with
  | Some typed, _ => value_or_throw typed name
  | None, Some typed => value_or_throw typed name
  | None, None => runtime_error (str "Type mismatch for string parameter: ") name
  end.

Definition extract_binary (col : column) (name : bytes) : res bytes :=
  match as_binary false col, as_binary true col with
  | Some typed, _ => value_or_throw typed name
  | None, Some typed => value_or_throw typed name
  | None, None => runtime_error (str "Type mismatch for bytes parameter: ") name
  end.

Definition get_optional_string (col : column) (name : bytes) : res (option bytes) :=
  match as_string false col, as_string true col with
  | Some typed, _ => Ok (value_or_nullopt typed)
  | None, Some typed => Ok (value_or_nullopt typed)
  | None, None => runtime_error (str "Type mismatch for string parameter: ") name
  end.

Definition get_optional_binary (col : column) (name : bytes) : res (option bytes) :=
  match as_binary false col, as_binary true col with
  | Some typed, _ => Ok (value_or_nullopt typed)
  | None, Some typed => Ok (value_or_nullopt typed)
  | None, None => runtime_error (str "Type mismatch for bytes parameter: ") name
  end.

(** ** Lists

    [None]: the column is not of the list class that was tried. *)
Definition list_mismatch {A} (expected name : bytes) : res A :=
  runtime_error (str "Type mismatch: expected list<" ++ expected ++ str "> for parameter: ") name.

Definition try_get_list_values {A} (large : bool) (cast : column -> option (slots A))
    (col : column) (name expected : bytes) : res (option (list A)) :=
  match as_list large col with
  | None => Ok None
  | Some (valid, offsets, values) =>
      if negb (default false (head valid)) then runtime_error (str "Parameter is null: ") name
      else
        match cast values with
        | None => list_mismatch expected name
        | Some values => Ok (Some (values_between values offsets))
        end
  end.

Definition get_list_values {A} (cast : column -> option (slots A)) (col : column)
    (name expected : bytes) : res (list A) :=
  found ← try_get_list_values false cast col name expected;
  match found with
  | Some out => Ok out
  | None =>
      found ← try_get_list_values true cast col name expected;
      match found with
      | Some out => Ok out
      | None => runtime_error (str "Type mismatch: expected list for parameter: ") name
      end
  end.

(** Strings of either offset width. *)
Definition as_any_string (c : column) : option (slots bytes) :=
  match as_string false c with Some vs => Some vs | None => as_string true c end.

Definition get_string_list_values (col : column) (name : bytes) : res (list bytes) :=
  get_list_values as_any_string col name (str "string").

(** One list class of the optional variants. *)
Definition optional_list {A} (cast : column -> option (slots A))
    (list_arr : list bool * list Z * column) (name expected : bytes) : res (option (list A)) :=
  let '(valid, offsets, values) := list_arr in
  if negb (default false (head valid)) then Ok None
  else
    match cast values with
    | None => list_mismatch expected name
    | Some values => Ok (Some (values_between values offsets))
    end.

Definition get_optional_list_values {A} (cast : column -> option (slots A)) (col : column)
    (name expected : bytes) : res (option (list A)) :=
  match as_list false col, as_list true col with
  | Some list_arr, _ => optional_list cast list_arr name expected
  | None, Some list_arr => optional_list cast list_arr name expected
  | None, None => runtime_error (str "Type mismatch: expected list for parameter: ") name
  end.

Definition get_optional_string_list_values (col : column) (name : bytes)
    : res (option (list bytes)) :=
  get_optional_list_values as_any_string col name (str "string").

(** ** The specializations *)

Inductive param_type : Type -> Type :=
  | PDouble : param_type binary64
  | PFloat : param_type binary64
  | PInt64 : param_type Z
  | PInt32 : param_type Z
  | PBool : param_type bool
  | PString : param_type bytes
  | PBytes : param_type bytes
  | PStrings : param_type (list bytes)
  | PInt64s : param_type (list Z)
  | PDoubles : param_type (list binary64).

(** [Request::get<T>]. *)
Definition get_param {T} (t : param_type T) (r : Request) (name : bytes) : res T :=
  let batch_ := req_batch r in
  match t with
  | PDouble => get_value as_double batch_ name
  | PFloat => get_value as_float batch_ name
  | PInt64 => get_value as_int64 batch_ name
  | PInt32 => get_value as_int32 batch_ name
  | PBool => get_value as_boolean batch_ name
  | PString => col ← require_column batch_ name; extract_string col name
  | PBytes => col ← require_column batch_ name; extract_binary col name
  | PStrings => col ← require_column batch_ name; get_string_list_values col name
  | PInt64s => col ← require_column batch_ name; get_list_values as_int64 col name (str "int64")
  | PDoubles => col ← require_column batch_ name; get_list_values as_double col name (str "double")
  end.

Definition on_optional_column {T} (batch : RecordBatch) (name : bytes)
    (f : column -> res (option T)) : res (option T) :=
  match optional_column batch name with None => Ok None | Some col => f col end.

(** [Request::get_optional<T>]. *)
Definition get_optional {T} (t : param_type T) (r : Request) (name : bytes) : res (option T) :=
  let batch_ := req_batch r in
  match t with
  | PDouble => get_optional_value as_double batch_ name
  | PFloat => get_optional_value as_float batch_ name
  | PInt64 => get_optional_value as_int64 batch_ name
  | PInt32 => get_optional_value as_int32 batch_ name
  | PBool => get_optional_value as_boolean batch_ name
  | PString => on_optional_column batch_ name (fun col => get_optional_string col name)
  | PBytes => on_optional_column batch_ name (fun col => get_optional_binary col name)
  | PStrings => on_optional_column batch_ name (fun col => get_optional_string_list_values col name)
  | PInt64s =>
      on_optional_column batch_ name (fun col => get_optional_list_values as_int64 col name (str "int64"))
  | PDoubles =>
      on_optional_column batch_ name (fun col => get_optional_list_values as_double col name (str "double"))
  end.
End accessors.

(** ** Lemmas *)

Section params.
Context {arrow : Arrow} {afields : ArrowFields} {columns : ArrowColumns}.

(** What [get] throws where [get_optional] returns no value. *)
Definition absent (name : bytes) : list exn :=
  [RuntimeError (str "Parameter not found: " ++ name);
   RuntimeError (str "Empty batch, cannot get parameter: " ++ name);
   RuntimeError (str "Parameter is null: " ++ name)].

Definition absent_is_none {A} (name : bytes) (r : res A) : res (option A) :=
  match r with
  | Ok v => Ok (Some v)
  | Throw e => if bool_decide (e ∈ absent name) then Ok None else Throw e
  end.

Lemma absent_error {A} e name : e ∈ absent name -> absent_is_none (A := A) name (Throw e) = Ok None.
Proof. intros H. cbn. by rewrite bool_decide_eq_true_2. Qed.

(** A type mismatch is reported by both. *)
Lemma mismatch_error {A} what name : head what = Some ("T"%byte) ->
  absent_is_none (A := A) name (runtime_error what name) = runtime_error what name.
Proof.
  intros H. cbn. rewrite bool_decide_eq_false_2; [done|]. destruct what as [|c what]; [done|].
  injection H as ->. unfold absent. rewrite !elem_of_cons, elem_of_nil. intros [E|[E|[E|[]]]]; discriminate E.
Qed.

Lemma value_or_nullopt_throw {A} (vs : slots A) name :
  Ok (value_or_nullopt vs) = absent_is_none name (value_or_throw vs name).
Proof.
  destruct vs as [|[v []] vs]; cbn [value_or_throw value_or_nullopt]; [|done|];
    symmetry; apply absent_error; unfold absent; set_solver.
Qed.

(** The two ways to look for the column. *)
Lemma optional_column_require {A} batch name (f : column -> res A) (g : column -> res (option A)) :
  (forall col, g col = absent_is_none name (f col)) ->
  on_optional_column batch name g = absent_is_none name (require_column batch name ≫= f).
Proof.
  intros Hf. unfold on_optional_column, optional_column, require_column.
  destruct (GetColumnByName batch name) as [col|]; [destruct (_ =? 0)|].
  - symmetry. apply absent_error. unfold absent. set_solver.
  - apply Hf.
  - symmetry. apply absent_error. unfold absent. set_solver.
Qed.

Lemma get_optional_value_spec {A} (cast : column -> option (slots A)) batch name :
  get_optional_value cast batch name = absent_is_none name (get_value cast batch name).
Proof.
  change (get_optional_value cast batch name) with (on_optional_column batch name (fun col =>
    match cast col with
    | None => runtime_error (str "Type mismatch for parameter: ") name
    | Some typed => Ok (value_or_nullopt typed) end)).
  apply optional_column_require. intros col.
  destruct (cast col); [apply value_or_nullopt_throw|by rewrite mismatch_error].
Qed.

Lemma optional_list_spec {A} (cast : column -> option (slots A)) col name expected :
  get_optional_list_values cast col name expected =
  absent_is_none name (get_list_values cast col name expected).
Proof.
  assert (forall large l, as_list large col = Some l ->
    optional_list cast l name expected =
    absent_is_none name (o ← try_get_list_values large cast col name expected;
                         match o with Some out => Ok out | None => Throw (RuntimeError []) end)) as Hl.
  { intros large [[valid offsets] values] E. unfold try_get_list_values, optional_list. rewrite E.
    destruct (negb _); [symmetry; apply absent_error; unfold absent; set_solver|].
    destruct (cast values); [done|]. symmetry. by apply mismatch_error. }
  unfold get_optional_list_values, get_list_values.
  destruct (as_list false col) as [l|] eqn:E0.
  - rewrite (Hl false l E0). unfold try_get_list_values. rewrite E0. destruct l as [[valid offsets] values].
    destruct (negb _); [done|]. by destruct (cast values).
  - assert (try_get_list_values false cast col name expected = Ok None) as ->
      by (unfold try_get_list_values; by rewrite E0). cbn [mbind res_bind].
    destruct (as_list true col) as [l|] eqn:E1.
    + rewrite (Hl true l E1). unfold try_get_list_values. rewrite E1. destruct l as [[valid offsets] values].
      destruct (negb _); [done|]. by destruct (cast values).
    + unfold try_get_list_values. rewrite E1. cbn [mbind res_bind]. by rewrite mismatch_error.
Qed.
End params.

(** ** The property *)

(** [get_optional] is [get] with absence as a value.  For each of the ten
    parameter types and any batch, [get_optional<T>] returns what [get<T>]
    returns, no value exactly where [get<T>] throws that the column is missing,
    the batch is empty or the value is null, and throws what [get<T>] throws in
    every other case, that is on a type mismatch. *)
Theorem get_optional_is_get
    {arrow : Arrow} {afields : ArrowFields} {columns : ArrowColumns}
    {T} (t : param_type T) (r : Request) name :
  get_optional t r name = absent_is_none name (get_param t r name).
Proof.
  destruct t; cbn [get_optional get_param]; try apply get_optional_value_spec;
    apply optional_column_require; intros col; try apply optional_list_spec.
  - unfold get_optional_string, extract_string.
    destruct (as_string false col), (as_string true col); try apply value_or_nullopt_throw.
    by rewrite mismatch_error.
  - unfold get_optional_binary, extract_binary.
    destruct (as_binary false col), (as_binary true col); try apply value_or_nullopt_throw.
    by rewrite mismatch_error.
Qed.

(** An element of a list that is null is read as the value its slot stores. *)
Example null_element_is_read (arrow : Arrow) (afields : ArrowFields) (columns : ArrowColumns) name :
  get_list_values as_int64
    (ListColumn false [true] [0; 2] (Int64Column [(7, true); (0, false)])) name (str "int64")
  = Ok [7; 0].
Proof. reflexivity. Qed.
