(* ===== verification/ProtocolHash.v ===== *)
(** * Type tokens and the protocol hash (src/src/type_tokens.cpp,
    protocol_hash.cpp)

    The canonical spelling of an Arrow type, the canonical JSON of a protocol's
    methods, and the digest of it. *)

From S2P Require Import Prelude Arrow Json Crypto.

(** ** Arrow types, as [type.id()] and the accessors of each class show them *)

Inductive TimeUnit := SECOND | MILLI | MICRO | NANO.

Inductive SimpleType :=
  | T_NA | T_BOOL | T_INT8 | T_INT16 | T_INT32 | T_INT64 | T_UINT8 | T_UINT16 | T_UINT32 | T_UINT64
  | T_HALF_FLOAT | T_FLOAT | T_DOUBLE | T_STRING | T_LARGE_STRING | T_STRING_VIEW | T_BINARY
  | T_LARGE_BINARY | T_BINARY_VIEW | T_DATE32 | T_DATE64 | T_INTERVAL_MONTHS | T_INTERVAL_DAY_TIME
  | T_INTERVAL_MONTH_DAY_NANO.

(** A child is its name, its nullability and its type. *)
#[warnings="-register-all"]
Inductive ArrowType :=
  | T_SIMPLE (id : SimpleType)
  | T_FIXED_SIZE_BINARY (byte_width : Z)
  | T_TIME32 (unit : TimeUnit)
  | T_TIME64 (unit : TimeUnit)
  | T_TIMESTAMP (unit : TimeUnit) (timezone : bytes)
  | T_DURATION (unit : TimeUnit)
  | T_DECIMAL128 (precision scale : Z)
  | T_DECIMAL256 (precision scale : Z)
  | T_LIST (value_field : bytes * bool * ArrowType)
  | T_LARGE_LIST (value_field : bytes * bool * ArrowType)
  | T_FIXED_SIZE_LIST (list_size : Z) (value_field : bytes * bool * ArrowType)
  | T_STRUCT (fields : list (bytes * bool * ArrowType))
  | T_MAP (key_field item_field : bytes * bool * ArrowType) (keys_sorted : bool)
  | T_DICTIONARY (index_type value_type : ArrowType) (ordered : bool)
  | T_SPARSE_UNION (children : list (Z * (bytes * bool * ArrowType)))
  | T_DENSE_UNION (children : list (Z * (bytes * bool * ArrowType)))
  | T_OTHER (ToString : bytes).

Class ArrowTypes `{Arrow} := { type_of : DataType -> ArrowType }.

Definition UnitToken (unit : TimeUnit) : bytes :=
  match unit with
  | SECOND => str "s" | MILLI => str "ms" | MICRO => str "us" | NANO => str "ns"
  end.

Definition simple_token (id : SimpleType) : bytes :=
  match id with
  | T_NA => str "null" | T_BOOL => str "bool"
  | T_INT8 => str "int8" | T_INT16 => str "int16" | T_INT32 => str "int32" | T_INT64 => str "int64"
  | T_UINT8 => str "uint8" | T_UINT16 => str "uint16" | T_UINT32 => str "uint32"
  | T_UINT64 => str "uint64"
  | T_HALF_FLOAT => str "float16" | T_FLOAT => str "float32" | T_DOUBLE => str "float64"
  | T_STRING => str "utf8" | T_LARGE_STRING => str "large_utf8" | T_STRING_VIEW => str "utf8_view"
  | T_BINARY => str "binary" | T_LARGE_BINARY => str "large_binary"
  | T_BINARY_VIEW => str "binary_view"
  | T_DATE32 => str "date32" | T_DATE64 => str "date64"
  | T_INTERVAL_MONTHS => str "interval_months" | T_INTERVAL_DAY_TIME => str "interval_day_time"
  | T_INTERVAL_MONTH_DAY_NANO => str "interval_month_day_nano"
  end.

Definition Unsupported (ToString : bytes) : res bytes :=
  Throw (RuntimeError (str "NotImplemented: Arrow type " ++ ToString ++ str " has no canonical token. Add one to type_tokens.cpp and to every other port at the same time: a one-sided addition changes only this port's protocol hash.")).

(** [name + (nullable ? "?" : "") + ":" + tok]. *)
Definition child_text (name : bytes) (nullable : bool) (tok : bytes) : bytes :=
  name ++ (if nullable then str "?" else []) ++ str ":" ++ tok.

Fixpoint TypeToken (t : ArrowType) : res bytes :=
  match t with
  | T_SIMPLE id => Ok (simple_token id)
  | T_FIXED_SIZE_BINARY w => Ok (str "fixed_size_binary(" ++ to_string w ++ str ")")
  | T_TIME32 u => Ok (str "time32(" ++ UnitToken u ++ str ")")
  | T_TIME64 u => Ok (str "time64(" ++ UnitToken u ++ str ")")
  | T_TIMESTAMP u tz =>
      Ok (str "timestamp(" ++ UnitToken u
          ++ (match tz with [] => [] | _ => str ",tz=" ++ tz end) ++ str ")")
  | T_DURATION u => Ok (str "duration(" ++ UnitToken u ++ str ")")
  | T_DECIMAL128 p s => Ok (str "decimal128(" ++ to_string p ++ str "," ++ to_string s ++ str ")")
  | T_DECIMAL256 p s => Ok (str "decimal256(" ++ to_string p ++ str "," ++ to_string s ++ str ")")
  | T_LIST (_, nullable, c) =>
      tok ← TypeToken c; Ok (str "list<" ++ child_text (str "item") nullable tok ++ str ">")
  | T_LARGE_LIST (_, nullable, c) =>
      tok ← TypeToken c; Ok (str "large_list<" ++ child_text (str "item") nullable tok ++ str ">")
  | T_FIXED_SIZE_LIST n (_, nullable, c) =>
      tok ← TypeToken c;
      Ok (str "fixed_size_list(" ++ to_string n ++ str ")<" ++ child_text (str "item") nullable tok
          ++ str ">")
  | T_STRUCT fs =>
      cs ← (fix children fs :=
              match fs with
              | [] => Ok []
              | (name, nullable, c) :: fs' =>
                  tok ← TypeToken c; rest ← children fs'; Ok (child_text name nullable tok :: rest)
              end) fs;
      Ok (str "struct<" ++ join_with "," cs ++ str ">")
  | T_MAP (_, knull, k) (_, vnull, v) keys_sorted =>
      ktok ← TypeToken k;
      vtok ← TypeToken v;
      Ok (str "map<" ++ child_text (str "key") knull ktok ++ str ","
          ++ child_text (str "value") vnull vtok ++ str ">"
          ++ (if keys_sorted then str ",keys_sorted" else []))
  | T_DICTIONARY index value ordered =>
      it ← TypeToken index;
      vt ← TypeToken value;
      Ok (str "dictionary<index:" ++ it ++ str ",value:" ++ vt ++ str ">"
          ++ (if ordered then str ",ordered" else []))
  | T_SPARSE_UNION fs =>
      cs ← (fix children fs :=
              match fs with
              | [] => Ok []
              | (code, (name, nullable, c)) :: fs' =>
                  tok ← TypeToken c; rest ← children fs';
                  Ok ((to_string code ++ str "=" ++ child_text name nullable tok) :: rest)
              end) fs;
      Ok (str "sparse_union<" ++ join_with "," cs ++ str ">")
  | T_DENSE_UNION fs =>
      cs ← (fix children fs :=
              match fs with
              | [] => Ok []
              | (code, (name, nullable, c)) :: fs' =>
                  tok ← TypeToken c; rest ← children fs';
                  Ok ((to_string code ++ str "=" ++ child_text name nullable tok) :: rest)
              end) fs;
      Ok (str "dense_union<" ++ join_with "," cs ++ str ">")
  | T_OTHER s => Unsupported s
  end.

Record FieldToken := { ft_name : bytes; ft_nullable : bool; ft_type : bytes }.

Section tokens.
Context {arrow : Arrow} {afields : ArrowFields} {types : ArrowTypes}.

Fixpoint field_tokens (fs : list Field) : res (list FieldToken) :=
  match fs with
  | [] => Ok []
  | f :: fs' =>
      tok ← TypeToken (type_of (field_type f));
      rest ← field_tokens fs';
      Ok ({| ft_name := field_name f; ft_nullable := field_nullable f; ft_type := tok |} :: rest)
  end.

(** A null schema has no fields. *)
Definition SchemaTokens (s : option Schema) : res (list FieldToken) :=
  match s with None => Ok [] | Some s => field_tokens (fields s) end.
End tokens.

(** ** Canonical JSON *)

Definition kHex : bytes := str "0123456789abcdef".

Definition json_escape (c : byte) : bytes :=
  if Byte.eqb c x22 then [x5c; x22]
  else if Byte.eqb c x5c then [x5c; x5c]
  else if Byte.eqb c x08 then str "\b"
  else if Byte.eqb c x0c then str "\f"
  else if Byte.eqb c x0a then str "\n"
  else if Byte.eqb c x0d then str "\r"
  else if Byte.eqb c x09 then str "\t"
  else if b2z c <? 32 then
    str "\u00" ++ [kHex !!! Z.to_nat (b2z c / 16); kHex !!! Z.to_nat (b2z c mod 16)]
  else [c].

Definition JsonString (value : bytes) : bytes :=
  [x22] ++ concat (map json_escape value) ++ [x22].

Definition json_bool (b : bool) : bytes := if b then str "true" else str "false".

(** A quoted key and its colon. *)
Definition json_key (name : bytes) : bytes := [x22] ++ name ++ [x22] ++ str ":".

Definition field_token_json (t : FieldToken) : bytes :=
  str "{" ++ json_key (str "name") ++ JsonString (ft_name t) ++ str ","
  ++ json_key (str "nullable") ++ json_bool (ft_nullable t) ++ str ","
  ++ json_key (str "type") ++ JsonString (ft_type t) ++ str "}".

Section description.
Context {arrow : Arrow} {afields : ArrowFields} {types : ArrowTypes}.

Definition FieldTokensJson (s : option Schema) : res bytes :=
  tokens ← SchemaTokens s;
  Ok (str "[" ++ join_with "," (map field_token_json tokens) ++ str "]").

Record HashMethod := {
  hm_name : bytes;
  hm_method_type : bytes;
  hm_has_return : bool;
  hm_has_header : bool;
  hm_params_schema : option Schema;
  hm_result_schema : option Schema;
  hm_header_schema : option Schema;
}.

(** A member that is there when [c]. *)
Definition entry_if (c : bool) (name : bytes) (s : option Schema) : res bytes :=
  if c then j ← FieldTokensJson s; Ok (str "," ++ json_key name ++ j) else Ok [].

Definition MethodEntry (m : HashMethod) : res bytes :=
  header ← entry_if (hm_has_header m) (str "header") (hm_header_schema m);
  params ← FieldTokensJson (hm_params_schema m);
  result ← entry_if (hm_has_return m) (str "result") (hm_result_schema m);
  Ok (str "{" ++ json_key (str "has_header") ++ json_bool (hm_has_header m)
      ++ str "," ++ json_key (str "has_return") ++ json_bool (hm_has_return m)
      ++ header
      ++ str "," ++ json_key (str "name") ++ JsonString (hm_name m)
      ++ str "," ++ json_key (str "params") ++ params
      ++ result
      ++ str "," ++ json_key (str "type") ++ JsonString (hm_method_type m) ++ str "}").

(** [std::sort] by name; the names are the keys of a map, so distinct. *)
Fixpoint insert_method (m : HashMethod) (ms : list HashMethod) : list HashMethod :=
  match ms with
  | [] => [m]
  | m' :: ms' =>
      if bytes_ltb (hm_name m) (hm_name m') then m :: ms else m' :: insert_method m ms'
  end.

Definition sort_methods (ms : list HashMethod) : list HashMethod :=
  foldr insert_method [] ms.

Fixpoint method_entries (ms : list HashMethod) : res (list bytes) :=
  match ms with
  | [] => Ok []
  | m :: ms' => e ← MethodEntry m; rest ← method_entries ms'; Ok (e :: rest)
  end.

Definition CanonicalDescription (protocol_name : bytes) (methods : list HashMethod) : res bytes :=
  entries ← method_entries (sort_methods methods);
  Ok (str "{" ++ json_key (str "methods") ++ str "[" ++ join_with "," entries ++ str "],"
      ++ json_key (str "protocol") ++ JsonString protocol_name ++ str "}").

Definition kProtocolHashDomain : bytes := str "vgi_rpc.protocol_hash.v1|".

Definition ComputeProtocolHash `{Digests} (protocol_name : bytes) (methods : list HashMethod)
    : res bytes :=
  description ← CanonicalDescription protocol_name methods;
  let digest := sha256 (kProtocolHashDomain ++ description) in
  Ok (concat (map (fun b => [kHex !!! Z.to_nat (b2z b / 16); kHex !!! Z.to_nat (b2z b mod 16)])
        digest)).
End description.

(** ** A concrete instance *)

Module ToyTypes.
Import ToyArrow.

#[export] Instance toy_types : ArrowTypes := {|
  type_of (t : @DataType toy_arrow) :=
    if t : bool then T_DICTIONARY (T_SIMPLE T_INT32) (T_SIMPLE T_UINT8) false else T_SIMPLE T_UINT8;
|}.
End ToyTypes.
