(* ===== verification/Reflection.v ===== *)
(** * What a server says about its protocols (src/src/reflection.cpp)

    Which methods belong to a protocol, the protocol hash of a binding, the
    reflection protocol's own methods and the payloads it answers with.  The
    Arrow builders are a class: an array is built from all its values at once,
    and fails as the first failing [Append] or [Finish] does. *)

From S2P Require Import Prelude Arrow Json Crypto Errors Wire Calls ProtocolHash.

Class ArrowBuild `{Arrow} := {
  utf8 : DataType;
  boolean : DataType;
  binary : DataType;
  list_type : Field -> DataType;
  struct_type : list Field -> DataType;
  make_schema : list Field -> Schema;
  StringArray : list bytes -> res Array;
  BooleanArray : list bool -> res Array;
  BinaryArray : list bytes -> res Array;
  (** One empty list of strings per row. *)
  EmptyListArray : Z -> res Array;
  StructArray : list Field -> Z -> list Array -> Array;
  (** A list column from its offsets and values. *)
  ListArray : Field -> list Z -> Array -> res Array;
  null_array : Array;
  (** The first value of a string column, when there is one and it is not null. *)
  first_string : Array -> option bytes;
  SerializeSchema : Schema -> res bytes;
}.

Section reflection.
Context {arrow : Arrow} {afields : ArrowFields} {types : ArrowTypes} {streams : ArrowStreams}
  {build : ArrowBuild} {Caller App : Type}.

Definition Utf8Field (name : bytes) : Field :=
  {| field_name := name; field_type := utf8; field_nullable := false |}.
Definition BoolField (name : bytes) : Field :=
  {| field_name := name; field_type := boolean; field_nullable := false |}.
Definition BinaryField (name : bytes) : Field :=
  {| field_name := name; field_type := binary; field_nullable := false |}.

Definition item_field (t : DataType) : Field :=
  {| field_name := str "item"; field_type := t; field_nullable := true |}.

Definition ProtocolSummaryFields : list Field :=
  [Utf8Field (str "protocol"); Utf8Field (str "protocol_version"); Utf8Field (str "protocol_hash");
   BoolField (str "deprecated"); Utf8Field (str "deprecation_message");
   {| field_name := str "features"; field_type := list_type (item_field utf8);
      field_nullable := false |}].

Definition MethodInfoFields : list Field :=
  [Utf8Field (str "name"); Utf8Field (str "method_type"); BoolField (str "has_return");
   BoolField (str "has_header"); Utf8Field (str "stream_kind"); BinaryField (str "params_schema_ipc");
   BinaryField (str "result_schema_ipc"); BinaryField (str "header_schema_ipc");
   Utf8Field (str "idempotency"); BoolField (str "deprecated");
   Utf8Field (str "deprecation_message")].

Definition SchemaIpc (s : option Schema) : res bytes :=
  match s with None => Ok [] | Some s => SerializeSchema s end.

Definition BatchToIpc (batch : RecordBatch) : res bytes := stream_to_buffer batch.

(** A failed builder leaves the pointer null. *)
Definition OneString (v : bytes) : Array :=
  match StringArray [v] with Ok a => a | Throw _ => null_array end.
Definition OneBool (v : bool) : Array :=
  match BooleanArray [v] with Ok a => a | Throw _ => null_array end.

Definition OneRowList (values : Array) (length : Z) (fs : list Field) : res Array :=
  ListArray (item_field (struct_type fs)) [0; length] values.

Definition EmptyStringList : res Array := EmptyListArray 1.

Definition MakeOneRowBatch (s : Schema) (columns : list Array) : res RecordBatch :=
  Ok (RecordBatch_Make s 1 columns).

(** [name.rfind("__", 0) != 0]. *)
Definition IsApplicationMethod (name : bytes) : bool := negb (starts_with (str "__") name).

Abbreviation method_info := (@MethodInfo arrow Caller App).
Abbreviation method_map := (gmap bytes (@MethodInfo arrow Caller App)).

Definition UnaryHasReturn (info : method_info) : bool :=
  match mi_method_type info with
  | UNARY => mi_has_return info && negb (length (fields (mi_result_schema info)) =? 0)%nat
  | STREAM => false
  end.

Definition StreamKindFor (info : method_info) : bytes :=
  match mi_method_type info with
  | UNARY => []
  | STREAM => if mi_is_exchange info then str "exchange" else str "producer"
  end.

Definition method_type_text (info : method_info) : bytes :=
  match mi_method_type info with UNARY => str "unary" | STREAM => str "stream" end.

(** An empty [std::function] throws [std::bad_function_call]. *)
Definition no_handler {R} : Request -> CallContext Caller -> App -> list Message * outcome R * App :=
  fun _ _ app => ([], Raised (EOther (str "bad_function_call")), app).

Definition reflection_method (name : bytes) (params : Schema) (doc : bytes) : method_info :=
  {| mi_name := name; mi_method_type := UNARY; mi_params_schema := params;
     mi_result_schema := make_schema [BinaryField (str "result")]; mi_handler := no_handler;
     mi_doc := doc; mi_has_return := true; mi_input_schema := None; mi_output_schema := None;
     mi_header_schema := None; mi_stream_factory := no_handler; mi_is_exchange := false |}.

Definition ReflectionMethods : method_map :=
  let describe := reflection_method (str "describe") (make_schema [Utf8Field (str "protocol")])
                    (str "Return one protocol's full description.") in
  let list_protocols := reflection_method (str "list_protocols") (make_schema [])
                          (str "Return every protocol this server hosts.") in
  <[str "list_protocols" := list_protocols]> (<[str "describe" := describe]> ∅).

Definition hash_method (info : method_info) : HashMethod :=
  {| hm_name := mi_name info; hm_method_type := method_type_text info;
     hm_has_return := UnaryHasReturn info;
     hm_has_header := bool_decide (is_Some (mi_header_schema info));
     hm_params_schema := Some (mi_params_schema info);
     hm_result_schema := Some (mi_result_schema info);
     hm_header_schema := mi_header_schema info |}.

(** The methods of a table that belong to the protocol. *)
Definition application_methods (methods : method_map) : list method_info :=
  List.filter (fun info => IsApplicationMethod (mi_name info)) (map snd (map_to_list methods)).

Definition BindingHash `{Digests} (name : bytes) (methods : method_map) : res bytes :=
  ComputeProtocolHash name (map hash_method (application_methods methods)).

Record ProtocolSummary := { ps_protocol : bytes; ps_version : bytes; ps_hash : bytes }.

Definition BuildProtocolList (server_id server_version request_version : bytes)
    (protocols : list ProtocolSummary) : res bytes :=
  let schema := make_schema
    [Utf8Field (str "server_id"); Utf8Field (str "server_version"); Utf8Field (str "request_version");
     {| field_name := str "protocols";
        field_type := list_type (item_field (struct_type ProtocolSummaryFields));
        field_nullable := false |}] in
  let n := Z.of_nat (length protocols) in
  protocol_a ← StringArray (map ps_protocol protocols);
  version_a ← StringArray (map ps_version protocols);
  hash_a ← StringArray (map ps_hash protocols);
  deprecated_a ← BooleanArray (map (fun _ => false) protocols);
  deprecation_a ← StringArray (map (fun _ => []) protocols);
  features_a ← EmptyListArray n;
  let summary_struct := StructArray ProtocolSummaryFields n
    [protocol_a; version_a; hash_a; deprecated_a; deprecation_a; features_a] in
  protocols_list ← OneRowList summary_struct n ProtocolSummaryFields;
  batch ← MakeOneRowBatch schema
    [OneString server_id; OneString server_version; OneString request_version; protocols_list];
  BatchToIpc batch.

(** [std::sort] by name; the names are distinct. *)
Fixpoint insert_info (m : method_info) (ms : list method_info) : list method_info :=
  match ms with
  | [] => [m]
  | m' :: ms' =>
      if bytes_ltb (mi_name m) (mi_name m') then m :: ms else m' :: insert_info m ms'
  end.

(** One pass over the ordered methods: the first failure ends it. *)
Fixpoint schemas_ipc (f : method_info -> option Schema) (ms : list method_info) : res (list bytes) :=
  match ms with
  | [] => Ok []
  | m :: ms' => b ← SchemaIpc (f m); rest ← schemas_ipc f ms'; Ok (b :: rest)
  end.

Definition BuildServiceDescription (protocol version hash : bytes) (methods : method_map)
    : res bytes :=
  let schema := make_schema (ProtocolSummaryFields ++
    [{| field_name := str "methods";
        field_type := list_type (item_field (struct_type MethodInfoFields));
        field_nullable := false |}]) in
  let ordered := foldr insert_info [] (application_methods methods) in
  params_ipc ← schemas_ipc (fun m => Some (mi_params_schema m)) ordered;
  result_ipc ← schemas_ipc (fun m => if UnaryHasReturn m then Some (mi_result_schema m) else None) ordered;
  header_ipc ← schemas_ipc mi_header_schema ordered;
  name_a ← StringArray (map mi_name ordered);
  type_a ← StringArray (map method_type_text ordered);
  hasret_a ← BooleanArray (map UnaryHasReturn ordered);
  hashdr_a ← BooleanArray (map (fun m => bool_decide (is_Some (mi_header_schema m))) ordered);
  kind_a ← StringArray (map StreamKindFor ordered);
  params_a ← BinaryArray params_ipc;
  result_a ← BinaryArray result_ipc;
  header_a ← BinaryArray header_ipc;
  idem_a ← StringArray (map (fun _ => str "unknown") ordered);
  dep_a ← BooleanArray (map (fun _ => false) ordered);
  depmsg_a ← StringArray (map (fun _ => []) ordered);
  let n := Z.of_nat (length ordered) in
  let method_struct := StructArray MethodInfoFields n
    [name_a; type_a; hasret_a; hashdr_a; kind_a; params_a; result_a; header_a; idem_a; dep_a;
     depmsg_a] in
  methods_list ← OneRowList method_struct n MethodInfoFields;
  empty_features ← EmptyStringList;
  batch ← MakeOneRowBatch schema
    [OneString protocol; OneString version; OneString hash; OneBool false; OneString [];
     empty_features; methods_list];
  BatchToIpc batch.
End reflection.

(** ** A concrete instance *)

Module ToyBuild.
Import ToyArrow.

#[export] Instance toy_build : ArrowBuild := {|
  utf8 := false; boolean := false; binary := false;
  list_type _ := false; struct_type _ := false; make_schema _ := false;
  StringArray _ := Ok tt; BooleanArray _ := Ok tt; BinaryArray _ := Ok tt; EmptyListArray _ := Ok tt;
  StructArray _ _ _ := tt; ListArray _ _ _ := Ok tt; null_array := tt;
  first_string _ := None;
  SerializeSchema (s : @Schema toy_arrow) := Ok (if s : bool then [x01] else [x00]);
|}.
End ToyBuild.
