(* ===== verification/Server.v ===== *)
(** * Building a server (src/src/server.cpp)

    Registration of methods and protocols, the checks of [build], the
    constructor, the protocol version gate and the lifecycle hook. *)

From S2P Require Import Prelude Arrow Json Crypto Grants Errors Wire Calls ProtocolHash Reflection.

(** ** Semantic versions *)

(** The digits at the head of the text, and the rest. *)
Fixpoint span_digits (s : bytes) : bytes * bytes :=
  match s with
  | c :: s' => if is_digit c then let '(ds, r) := span_digits s' in (c :: ds, r) else ([], s)
  | [] => ([], [])
  end.

(** One of the three numbers.  [None] is [return std::nullopt]. *)
Definition semver_part (s : bytes) : option (Z * bytes) :=
  let '(ds, r) := span_digits s in
  let digits := length ds in
  if (digits =? 0)%nat || ((1 <? digits)%nat && Byte.eqb (ds !!! 0%nat) "0") then None
  else if (9 <? digits)%nat then None
  else Some ((parse_dec 0 0 ds).1, r).

Definition expect_dot (s : bytes) : option bytes :=
  match s with c :: s' => if Byte.eqb c "." then Some s' else None | [] => None end.

Definition parse_semver (version : bytes) : option (Z * Z * Z) :=
  '(major, r) ← semver_part version;
  r ← expect_dot r;
  '(minor, r) ← semver_part r;
  r ← expect_dot r;
  '(patch, r) ← semver_part r;
  match r with [] => Some (major, minor, patch) | _ => None end.

(** ** Names *)

Definition isalpha (c : byte) : bool :=
  ((65 <=? b2z c) && (b2z c <=? 90)) || ((97 <=? b2z c) && (b2z c <=? 122)).
Definition isalnum (c : byte) : bool := isalpha c || is_digit c.

Definition valid_protocol_name (name : bytes) : bool :=
  match name with
  | [] => false
  | lead :: rest =>
      (length name <=? 255)%nat && (isalpha lead || Byte.eqb lead "_")
      && forallb (fun c => isalnum c || Byte.eqb c "_" || Byte.eqb c ".") rest
  end.

Definition kReflectionProtocolName : bytes := str "vgi_rpc.Reflection.v1".
Definition kIdentityProtocolName : bytes := str "vgi_rpc.Identity.v2".
Definition REQUEST_VERSION_VALUE : bytes := str "1".
Definition TRANSPORT_SHM : bytes := str "vgi_rpc.transport.shm".
Definition TRANSPORT_OPTIONS_METHOD_NAME : bytes := str "__transport_options__".

Record ProtocolIdentity := { pi_name : bytes; pi_hash : bytes }.

Section server.
Context {arrow : Arrow} {afields : ArrowFields} {types : ArrowTypes} {streams : ArrowStreams}
  {build_ : ArrowBuild} {kvm : KeyValueMetadata} {D : Digests} {Caller App : Type}.

Abbreviation method_info := (@MethodInfo arrow Caller App).
Abbreviation method_table := (gmap bytes (@MethodInfo arrow Caller App)).
Abbreviation handler_of R := (Request -> CallContext Caller -> App -> list Message * outcome R * App).

(** ** [ProtocolBuilder] *)

Record ProtocolBuilder := {
  pb_name : bytes;
  pb_version : bytes;
  pb_methods : list method_info;
}.

Definition new_ProtocolBuilder (name version : bytes) : ProtocolBuilder :=
  {| pb_name := name; pb_version := version; pb_methods := [] |}.

Definition check_duplicate (b : ProtocolBuilder) (name : bytes) : res unit :=
  throw_if (existsb (fun m => bool_decide (mi_name m = name)) (pb_methods b))
    (LogicError (str "Duplicate method name: '" ++ name ++ str "'")).

Definition not_null (s : option Schema) (what : bytes) : res Schema :=
  match s with
  | Some s => Ok s
  | None => Throw (InvalidArgument (what ++ str " must not be null"))
  end.

Definition push_method (b : ProtocolBuilder) (m : method_info) : ProtocolBuilder :=
  {| pb_name := pb_name b; pb_version := pb_version b; pb_methods := pb_methods b ++ [m] |}.

Definition add_unary (name : bytes) (params_schema result_schema : option Schema)
    (handler : handler_of Result) (doc : bytes) (b : ProtocolBuilder) : res ProtocolBuilder :=
  params ← not_null params_schema (str "params_schema");
  result ← not_null result_schema (str "result_schema");
  _ ← check_duplicate b name;
  Ok (push_method b
    {| mi_name := name; mi_method_type := UNARY; mi_params_schema := params;
       mi_result_schema := result; mi_handler := handler; mi_doc := doc; mi_has_return := true;
       mi_input_schema := None; mi_output_schema := None; mi_header_schema := None;
       mi_stream_factory := no_handler; mi_is_exchange := false |}).

(** The wrapper that [add_void] registers. *)
Definition void_handler (h : handler_of unit) : handler_of Result := fun request ctx app =>
  let '(logs, r, app) := h request ctx app in
  (logs,
   match r with
   | Raised e => Raised e
   | Done _ => match void_result with Ok v => Done v | Throw e => Raised (exception_of e) end
   end, app).

Definition add_void (name : bytes) (params_schema : option Schema) (handler : handler_of unit)
    (doc : bytes) (b : ProtocolBuilder) : res ProtocolBuilder :=
  params ← not_null params_schema (str "params_schema");
  _ ← check_duplicate b name;
  Ok (push_method b
    {| mi_name := name; mi_method_type := UNARY; mi_params_schema := params;
       mi_result_schema := empty_schema; mi_handler := void_handler handler; mi_doc := doc;
       mi_has_return := false; mi_input_schema := None; mi_output_schema := None;
       mi_header_schema := None; mi_stream_factory := no_handler; mi_is_exchange := false |}).

Definition add_producer (name : bytes) (params_schema output_schema : option Schema)
    (factory : handler_of Stream) (doc : bytes) (header_schema : option Schema)
    (b : ProtocolBuilder) : res ProtocolBuilder :=
  params ← not_null params_schema (str "params_schema");
  out ← not_null output_schema (str "output_schema");
  _ ← check_duplicate b name;
  Ok (push_method b
    {| mi_name := name; mi_method_type := STREAM; mi_params_schema := params;
       mi_result_schema := empty_schema; mi_handler := no_handler; mi_doc := doc;
       mi_has_return := false; mi_input_schema := Some empty_schema; mi_output_schema := Some out;
       mi_header_schema := header_schema; mi_stream_factory := factory;
       mi_is_exchange := false |}).

Definition add_exchange (name : bytes) (params_schema input_schema output_schema : option Schema)
    (factory : handler_of Stream) (doc : bytes) (header_schema : option Schema)
    (b : ProtocolBuilder) : res ProtocolBuilder :=
  params ← not_null params_schema (str "params_schema");
  inp ← not_null input_schema (str "input_schema");
  out ← not_null output_schema (str "output_schema");
  _ ← check_duplicate b name;
  Ok (push_method b
    {| mi_name := name; mi_method_type := STREAM; mi_params_schema := params;
       mi_result_schema := empty_schema; mi_handler := no_handler; mi_doc := doc;
       mi_has_return := false; mi_input_schema := Some inp; mi_output_schema := Some out;
       mi_header_schema := header_schema; mi_stream_factory := factory; mi_is_exchange := true |}).

(** [map[m.name] = std::move(m)]: a later method of the same name wins. *)
Definition method_map (methods : list method_info) : method_table :=
  foldl (fun map m => <[mi_name m := m]> map) ∅ methods.

(** ** Hosted protocols *)

Record ServedProtocol := {
  sp_name : bytes;
  sp_version : bytes;
  sp_methods : method_table;
  sp_binding : ProtocolIdentity;
}.

Definition no_binding : ProtocolIdentity := {| pi_name := []; pi_hash := [] |}.

(** [shm_available()] of the build. *)
Definition transport_options_handler (shm_available : bool) (server_id : bytes)
    : handler_of Result := fun _ _ app =>
  let md := Append (Append (Append [] TRANSPORT_SHM (if shm_available then str "true" else str "false"))
              SERVER_ID server_id) REQUEST_VERSION REQUEST_VERSION_VALUE in
  ([], match make_empty_batch empty_schema with
       | Ok b => Done (Result_from_annotated_batch (with_metadata b md))
       | Throw e => Raised (exception_of e)
       end, app).

Definition register_transport_options (shm_available : bool) (server_id : bytes)
    (methods : method_table) : method_table :=
  <[TRANSPORT_OPTIONS_METHOD_NAME :=
      {| mi_name := TRANSPORT_OPTIONS_METHOD_NAME; mi_method_type := UNARY;
         mi_params_schema := empty_schema; mi_result_schema := empty_schema;
         mi_handler := transport_options_handler shm_available server_id;
         mi_doc := str "Report this server's transport capabilities."; mi_has_return := true;
         mi_input_schema := None; mi_output_schema := None; mi_header_schema := None;
         mi_stream_factory := no_handler; mi_is_exchange := false |}]> methods.

(** ** The version gate *)

Definition version_header (protocol : ServedProtocol) : bytes :=
  str "VGI client/worker protocol_version mismatch for protocol '" ++ sp_name protocol ++ str "'."
  ++ [newline] ++ str "  Client: ".
Definition version_trailer (protocol : ServedProtocol) : bytes :=
  [newline] ++ str "  Server: " ++ sp_version protocol ++ [newline] ++ str "  Direction: ".

(** Empty: the request is fine.  The constructor has parsed the version. *)
Definition protocol_version_error (protocol : ServedProtocol) (custom_metadata : metadata) : bytes :=
  let server_version := sp_version protocol in
  match server_version, parse_semver server_version with
  | [], _ | _, None => []
  | _, Some (e_major, e_minor, _) =>
      match custom_metadata ≫= fun md => find_value md PROTOCOL_VERSION with
      | None =>
          version_header protocol ++ str "<not declared>" ++ version_trailer protocol
          ++ str "the client did not send a " ++ PROTOCOL_VERSION
          ++ str " metadata key. This is either a vgi-rpc framework bug or a non-VGI client connecting to a VGI worker."
      | Some declared =>
          match parse_semver declared with
          | None =>
              version_header protocol ++ declared ++ version_trailer protocol
              ++ str "client sent a malformed protocol_version. Expected canonical semver MAJOR.MINOR.PATCH."
          | Some (a_major, a_minor, _) =>
              if (a_major =? e_major) && (a_minor =? e_minor) then []
              else
                version_header protocol ++ declared ++ version_trailer protocol
                ++ (if (a_major <? e_major) || ((a_major =? e_major) && (a_minor <? e_minor)) then
                      str "client is too old; upgrade the VGI extension/client to a version supporting protocol_version "
                      ++ server_version ++ str "."
                    else
                      str "server is too old; upgrade the VGI worker to a version supporting protocol_version "
                      ++ declared ++ str ".")
          end
      end
  end.

Definition protocol_version_extras (protocol : ServedProtocol) (custom_metadata : metadata)
    : ErrorExtras :=
  let declared :=
    default (str "<none>") (custom_metadata ≫= fun md => find_value md PROTOCOL_VERSION) in
  let failure := PreconditionFailure
    [{| pv_type := str "protocol_version"; pv_subject := sp_name protocol;
        pv_description := str "client declares " ++ declared ++ str ", server requires "
                          ++ sp_version protocol ++ str "; major and minor must match" |}] in
  {| ee_code := code_name FAILED_PRECONDITION; ee_details := JArray [detail_to_json failure];
     ee_traceback := [] |}.
End server.
Arguments ProtocolBuilder {arrow} Caller App.
Arguments ServedProtocol {arrow} Caller App.

(** ** [ServerBuilder]

    What [build] needs of an identity implementation (token_identity.h): its
    grant keys, one made from grant keys alone, and the methods it hosts. *)
Class IdentityService `{Arrow} (Caller App : Type) := {
  IdentityImpl : Type;
  identity_grant_keys : IdentityImpl -> option GrantKeys;
  grants_identity : GrantKeys -> res IdentityImpl;
  IdentityMethods : IdentityImpl -> gmap bytes (@MethodInfo _ Caller App);
}.

Section builder.
Context {arrow : Arrow} {afields : ArrowFields} {types : ArrowTypes} {streams : ArrowStreams}
  {build_ : ArrowBuild} {D : Digests} {Caller App : Type} {identity : IdentityService Caller App}.

Abbreviation builder_of := (ProtocolBuilder Caller App).
Abbreviation served := (ServedProtocol Caller App).

Record ServerBuilder := {
  primary_ : builder_of;
  extra_protocols_ : list builder_of;
  sb_include_tracebacks_ : bool;
  built_ : bool;
  sb_server_id_ : bytes;
  access_log_path_ : bytes;
  sb_identity_ : option IdentityImpl;
  grant_keys_explicit_ : bool;
  grant_keys_ : option GrantKeys;
  transport_options_enabled_ : bool;
  sb_on_serve_start_ : option (TransportKind -> App -> outcome unit * App);
}.

Definition new_ServerBuilder : ServerBuilder :=
  {| primary_ := new_ProtocolBuilder [] []; extra_protocols_ := []; sb_include_tracebacks_ := true;
     built_ := false; sb_server_id_ := []; access_log_path_ := []; sb_identity_ := None;
     grant_keys_explicit_ := false; grant_keys_ := None; transport_options_enabled_ := false;
     sb_on_serve_start_ := None |}.

Definition check_not_built (b : ServerBuilder) (what : bytes) : res unit :=
  throw_if (built_ b)
    (LogicError (str "ServerBuilder::" ++ what ++ str " called after build(): the server's protocol set is sealed before it serves, and a late registration would be silently absent from every transport and from reflection")).

Definition set_protocols (b : ServerBuilder) (primary : builder_of) (extra : list builder_of)
    : ServerBuilder :=
  {| primary_ := primary; extra_protocols_ := extra;
     sb_include_tracebacks_ := sb_include_tracebacks_ b; built_ := built_ b;
     sb_server_id_ := sb_server_id_ b; access_log_path_ := access_log_path_ b;
     sb_identity_ := sb_identity_ b; grant_keys_explicit_ := grant_keys_explicit_ b;
     grant_keys_ := grant_keys_ b; transport_options_enabled_ := transport_options_enabled_ b;
     sb_on_serve_start_ := sb_on_serve_start_ b |}.

(** [add_unary] and its three siblings: the check, then the primary's own. *)
Definition on_primary (what : bytes) (f : builder_of -> res builder_of) (b : ServerBuilder)
    : res ServerBuilder :=
  _ ← check_not_built b what;
  primary ← f (primary_ b);
  Ok (set_protocols b primary (extra_protocols_ b)).

Definition protocol (name : bytes) (b : ServerBuilder) : res ServerBuilder :=
  on_primary (str "protocol") (fun p =>
    Ok {| pb_name := name; pb_version := pb_version p; pb_methods := pb_methods p |}) b.

Definition protocol_version (version : bytes) (b : ServerBuilder) : res ServerBuilder :=
  on_primary (str "protocol_version") (fun p =>
    Ok {| pb_name := pb_name p; pb_version := version; pb_methods := pb_methods p |}) b.

Definition add_protocol (extra : builder_of) (b : ServerBuilder) : res ServerBuilder :=
  _ ← check_not_built b (str "add_protocol");
  Ok (set_protocols b (primary_ b) (extra_protocols_ b ++ [extra])).

Definition set_grant_keys (keys : option GrantKeys) (b : ServerBuilder) : res ServerBuilder :=
  _ ← check_not_built b (str "grant_keys");
  _ ← match keys with Some k => GrantKeys_validate k | None => Ok tt end;
  Ok {| primary_ := primary_ b; extra_protocols_ := extra_protocols_ b;
        sb_include_tracebacks_ := sb_include_tracebacks_ b; built_ := built_ b;
        sb_server_id_ := sb_server_id_ b; access_log_path_ := access_log_path_ b;
        sb_identity_ := sb_identity_ b; grant_keys_explicit_ := true; grant_keys_ := keys;
        transport_options_enabled_ := transport_options_enabled_ b;
        sb_on_serve_start_ := sb_on_serve_start_ b |}.

Definition set_server_id (id : bytes) (b : ServerBuilder) : ServerBuilder :=
  {| primary_ := primary_ b; extra_protocols_ := extra_protocols_ b;
     sb_include_tracebacks_ := sb_include_tracebacks_ b; built_ := built_ b;
     sb_server_id_ := id; access_log_path_ := access_log_path_ b;
     sb_identity_ := sb_identity_ b; grant_keys_explicit_ := grant_keys_explicit_ b;
     grant_keys_ := grant_keys_ b; transport_options_enabled_ := transport_options_enabled_ b;
     sb_on_serve_start_ := sb_on_serve_start_ b |}.

Definition set_include_tracebacks (include : bool) (b : ServerBuilder) : res ServerBuilder :=
  _ ← check_not_built b (str "include_tracebacks");
  Ok {| primary_ := primary_ b; extra_protocols_ := extra_protocols_ b;
        sb_include_tracebacks_ := include; built_ := built_ b;
        sb_server_id_ := sb_server_id_ b; access_log_path_ := access_log_path_ b;
        sb_identity_ := sb_identity_ b; grant_keys_explicit_ := grant_keys_explicit_ b;
        grant_keys_ := grant_keys_ b; transport_options_enabled_ := transport_options_enabled_ b;
        sb_on_serve_start_ := sb_on_serve_start_ b |}.

Definition set_identity (impl : option IdentityImpl) (b : ServerBuilder) : res ServerBuilder :=
  _ ← check_not_built b (str "identity");
  Ok {| primary_ := primary_ b; extra_protocols_ := extra_protocols_ b;
        sb_include_tracebacks_ := sb_include_tracebacks_ b; built_ := built_ b;
        sb_server_id_ := sb_server_id_ b; access_log_path_ := access_log_path_ b;
        sb_identity_ := impl; grant_keys_explicit_ := grant_keys_explicit_ b;
        grant_keys_ := grant_keys_ b; transport_options_enabled_ := transport_options_enabled_ b;
        sb_on_serve_start_ := sb_on_serve_start_ b |}.

(** These three, like [server_id], do not check [built_]. *)
Definition set_on_serve_start (hook : option (TransportKind -> App -> outcome unit * App))
    (b : ServerBuilder) : ServerBuilder :=
  {| primary_ := primary_ b; extra_protocols_ := extra_protocols_ b;
     sb_include_tracebacks_ := sb_include_tracebacks_ b; built_ := built_ b;
     sb_server_id_ := sb_server_id_ b; access_log_path_ := access_log_path_ b;
     sb_identity_ := sb_identity_ b; grant_keys_explicit_ := grant_keys_explicit_ b;
     grant_keys_ := grant_keys_ b; transport_options_enabled_ := transport_options_enabled_ b;
     sb_on_serve_start_ := hook |}.

Definition enable_transport_options (enabled : bool) (b : ServerBuilder) : ServerBuilder :=
  {| primary_ := primary_ b; extra_protocols_ := extra_protocols_ b;
     sb_include_tracebacks_ := sb_include_tracebacks_ b; built_ := built_ b;
     sb_server_id_ := sb_server_id_ b; access_log_path_ := access_log_path_ b;
     sb_identity_ := sb_identity_ b; grant_keys_explicit_ := grant_keys_explicit_ b;
     grant_keys_ := grant_keys_ b; transport_options_enabled_ := enabled;
     sb_on_serve_start_ := sb_on_serve_start_ b |}.

(** The limit on the size of a record is the writer's. *)
Definition access_log (path : bytes) (b : ServerBuilder) : ServerBuilder :=
  {| primary_ := primary_ b; extra_protocols_ := extra_protocols_ b;
     sb_include_tracebacks_ := sb_include_tracebacks_ b; built_ := built_ b;
     sb_server_id_ := sb_server_id_ b; access_log_path_ := path;
     sb_identity_ := sb_identity_ b; grant_keys_explicit_ := grant_keys_explicit_ b;
     grant_keys_ := grant_keys_ b; transport_options_enabled_ := transport_options_enabled_ b;
     sb_on_serve_start_ := sb_on_serve_start_ b |}.

(** [check_name]; [names] is the set it inserts into. *)
Definition check_name (names : gset bytes) (name where_ : bytes) : res (gset bytes) :=
  let what := where_ ++ str ": protocol name '" ++ name ++ str "'" in
  if starts_with kReservedProtocolPrefix name then
    Throw (InvalidArgument (what ++ str " uses the reserved '" ++ kReservedProtocolPrefix
           ++ str "' prefix, which belongs to framework protocols"))
  else if negb (valid_protocol_name name) then
    Throw (InvalidArgument (what ++ str " is not a valid routing key ([A-Za-z_][A-Za-z0-9_.]*)"))
  else if bool_decide (name ∈ names) then
    Throw (InvalidArgument (where_ ++ str ": protocol '" ++ name ++ str "' is registered more than once"))
  else Ok ({[name]} ∪ names).

Fixpoint check_names (names : gset bytes) (extras : list builder_of) : res (gset bytes) :=
  match extras with
  | [] => Ok names
  | e :: extras' =>
      names ← check_name names (pb_name e) (str "ServerBuilder::add_protocol");
      check_names names extras'
  end.

(** ** [Server] *)

Record Server := {
  protocols_ : list served;
  server_id_ : bytes;
  include_tracebacks_ : bool;
  reflection_binding_ : ProtocolIdentity;
  identity_binding_ : ProtocolIdentity;
  identity_methods_ : gmap bytes (@MethodInfo arrow Caller App);
  access_log_enabled : bool;
  identity_ : option IdentityImpl;
  on_serve_start_ : option (TransportKind -> App -> outcome unit * App);
}.

Definition binding_hash_or_throw (name : bytes) (methods : gmap bytes (@MethodInfo arrow Caller App))
    : res bytes :=
  match BindingHash name methods with
  | Ok h => Ok h
  | Throw e =>
      Throw (InvalidArgument (str "Cannot compute the protocol hash for '" ++ name ++ str "': "
             ++ match e with RuntimeError w => w | _ => [] end))
  end.

Fixpoint check_versions (ps : list served) : res unit :=
  match ps with
  | [] => Ok tt
  | p :: ps' =>
      _ ← throw_if (negb (length (sp_version p) =? 0)%nat
                    && negb (bool_decide (is_Some (parse_semver (sp_version p)))))
            (InvalidArgument (str "Invalid protocol version '" ++ sp_version p
               ++ str "' for protocol '" ++ sp_name p ++ str "': expected canonical semver MAJOR.MINOR.PATCH with non-negative integers and no leading zeros (no prereleases or build metadata)."));
      check_versions ps'
  end.

Fixpoint bind_protocols (ps : list served) : res (list served) :=
  match ps with
  | [] => Ok []
  | p :: ps' =>
      hash ← binding_hash_or_throw (sp_name p) (sp_methods p);
      rest ← bind_protocols ps';
      Ok ({| sp_name := sp_name p; sp_version := sp_version p; sp_methods := sp_methods p;
             sp_binding := {| pi_name := sp_name p; pi_hash := hash |} |} :: rest)
  end.

Definition no_protocol : served :=
  {| sp_name := []; sp_version := []; sp_methods := ∅; sp_binding := no_binding |}.

(** [log_opens]: whether the access log's file opens. *)
Definition new_Server (log_opens : bytes -> bool) (protocols : list served) (server_id : bytes)
    (access_log_path : bytes) (on_serve_start : option (TransportKind -> App -> outcome unit * App))
    (identity_impl : option IdentityImpl) (include_tracebacks : bool) : res Server :=
  let protocols := match protocols with [] => [no_protocol] | _ => protocols end in
  _ ← check_versions protocols;
  protocols ← bind_protocols protocols;
  reflection_hash ← binding_hash_or_throw kReflectionProtocolName ReflectionMethods;
  let identity_methods := match identity_impl with Some i => IdentityMethods i | None => ∅ end in
  identity_binding ←
    (if bool_decide (identity_methods = ∅) then Ok no_binding
     else h ← binding_hash_or_throw kIdentityProtocolName identity_methods;
          Ok {| pi_name := kIdentityProtocolName; pi_hash := h |});
  Ok {| protocols_ := protocols; server_id_ := server_id; include_tracebacks_ := include_tracebacks;
        reflection_binding_ := {| pi_name := kReflectionProtocolName; pi_hash := reflection_hash |};
        identity_binding_ := identity_binding; identity_methods_ := identity_methods;
        access_log_enabled := negb (length access_log_path =? 0)%nat && log_opens access_log_path;
        identity_ := identity_impl; on_serve_start_ := on_serve_start |}.

(** [build].  [random_id] is [random_hex(12)]. *)
Definition hosted (b : builder_of) : served :=
  {| sp_name := pb_name b; sp_version := pb_version b; sp_methods := method_map (pb_methods b);
     sp_binding := no_binding |}.

Definition build_protocols (shm_available : bool) (server_id : bytes) (b : ServerBuilder)
    : list served :=
  let primary := hosted (primary_ b) in
  let methods :=
    if transport_options_enabled_ b then
      register_transport_options shm_available server_id (sp_methods primary)
    else sp_methods primary in
  {| sp_name := sp_name primary; sp_version := sp_version primary; sp_methods := methods;
     sp_binding := no_binding |} :: map hosted (extra_protocols_ b).

(** The identity [build] settles on. *)
Definition build_identity (env : bytes -> option bytes) (b : ServerBuilder)
    : res (option IdentityImpl) :=
  grant_keys ← (if grant_keys_explicit_ b then Ok (grant_keys_ b) else GrantKeys_from_env env);
  match grant_keys, sb_identity_ b with
  | None, i => Ok i
  | Some keys, None => i ← grants_identity keys; Ok (Some i)
  | Some _, Some i =>
      match identity_grant_keys i with
      | Some _ => Ok (Some i)
      | None => Throw (InvalidArgument (str "grant keys were configured (ServerBuilder::grant_keys or VGI_RPC_GRANT_KEYS) and an IdentityImpl was supplied without them. Set IdentityOptions::grant_keys so the minter and the verifier use the same keys."))
      end
  end.

Definition build_server (log_opens : bytes -> bool) (env : bytes -> option bytes)
    (shm_available : bool) (random_id : bytes) (b : ServerBuilder) : res Server :=
  let server_id := match sb_server_id_ b with [] => random_id | id => id end in
  names ← (match pb_name (primary_ b) with
           | [] => Ok ∅
           | name => check_name ∅ name (str "ServerBuilder::protocol")
           end);
  _ ← throw_if (negb (length (extra_protocols_ b) =? 0)%nat && (length (pb_name (primary_ b)) =? 0)%nat)
        (InvalidArgument (str "ServerBuilder::add_protocol: hosting more than one application protocol requires the primary to declare its name with ServerBuilder::protocol(); without one there is no routing key to tell the protocols apart"));
  _ ← check_names names (extra_protocols_ b);
  identity_impl ← build_identity env b;
  new_Server log_opens (build_protocols shm_available server_id b) server_id (access_log_path_ b)
    (sb_on_serve_start_ b) identity_impl (sb_include_tracebacks_ b).

(** The builder is marked first, so a failed [build] cannot be repeated. *)
Definition build (log_opens : bytes -> bool) (env : bytes -> option bytes) (shm_available : bool)
    (random_id : bytes) (b : ServerBuilder) : res Server * ServerBuilder :=
  if built_ b then
    (Throw (LogicError (str "ServerBuilder::build() has already been called")), b)
  else
    (build_server log_opens env shm_available random_id b,
     {| primary_ := primary_ b; extra_protocols_ := extra_protocols_ b;
        sb_include_tracebacks_ := sb_include_tracebacks_ b; built_ := true;
        sb_server_id_ := sb_server_id_ b; access_log_path_ := access_log_path_ b;
        sb_identity_ := sb_identity_ b; grant_keys_explicit_ := grant_keys_explicit_ b;
        grant_keys_ := grant_keys_ b; transport_options_enabled_ := transport_options_enabled_ b;
        sb_on_serve_start_ := sb_on_serve_start_ b |}).

Definition find_protocol (srv : Server) (name : bytes) : option served :=
  List.find (fun p => negb (length (sp_name p) =? 0)%nat && bool_decide (sp_name p = name))
    (protocols_ srv).

(** [protocols_.front()]; the constructor leaves at least one. *)
Definition front_protocol (srv : Server) : served := default no_protocol (head (protocols_ srv)).

(** The state of [notify_serve_start] is the bound kind and the application's:
    [call_once] commits only when the hook returns. *)
Definition notify_serve_start (srv : Server) (kind : TransportKind)
    : M (option TransportKind * App) unit := fun '(bound, app) =>
  let '(r, bound, app) :=
    match bound with
    | Some _ => (Done tt, bound, app)
    | None =>
        match on_serve_start_ srv with
        | None => (Done tt, Some kind, app)
        | Some hook =>
            match hook kind app with
            | (Done _, app) => (Done tt, Some kind, app)
            | (Raised e, app) => (Raised e, None, app)
            end
        end
    end in
  match r with
  | Raised e => (Raised e, (bound, app))
  | Done _ =>
      if bool_decide (bound = Some kind) then (Done tt, (bound, app))
      else (Raised (ELogicError (str "server is already bound to transport '"
              ++ match bound with Some k => transport_kind_name k | None => [] end ++ str "'")),
            (bound, app))
  end.
End builder.
Arguments ServerBuilder {arrow} Caller App {identity}.
Arguments Server {arrow} Caller App {identity}.

(** ** Lemmas *)

Lemma starts_with_app prefix s : starts_with prefix (prefix ++ s) = true.
Proof. unfold starts_with. apply bool_decide_eq_true. by rewrite take_app_length. Qed.

Section server_lemmas.
Context {arrow : Arrow} {afields : ArrowFields} {types : ArrowTypes} {streams : ArrowStreams}
  {build_ : ArrowBuild} {D : Digests} {Caller App : Type} {identity : IdentityService Caller App}.

Abbreviation served := (ServedProtocol Caller App).

Definition name_ok (name : bytes) : Prop :=
  valid_protocol_name name = true /\ starts_with kReservedProtocolPrefix name = false.

Lemma check_name_ok names name where_ names' :
  check_name names name where_ = Ok names' <->
  name_ok name /\ (name ∉ names) /\ names' = {[name]} ∪ names.
Proof.
  unfold check_name, name_ok. destruct (starts_with _ name).
  { split; [done|]. by intros [[] _]. }
  destruct (valid_protocol_name name); cbn [negb]; [|split; [done|]; by intros [[] _]].
  case_bool_decide as Hin.
  - split; [done|]. by intros (_ & ? & _).
  - split; [intros [= <-]; done|]. by intros (_ & _ & ->).
Qed.

(** The extra names are valid, distinct, and not among the names already there. *)
Lemma check_names_ok names (extras : list (ProtocolBuilder Caller App)) names' :
  check_names names extras = Ok names' ->
  Forall name_ok (map pb_name extras) /\ NoDup (map pb_name extras) /\
  (forall n, n ∈ map pb_name extras -> n ∉ names).
Proof.
  revert names; induction extras as [|e extras IH]; intros names; cbn [check_names map].
  - intros _. repeat split; try by constructor. intros n Hn. by apply not_elem_of_nil in Hn.
  - intros (names1 & E & H)%res_bind_ok. apply check_name_ok in E as (Hok & Hn & ->).
    destruct (IH _ H) as (H1 & H2 & H3). split; [by constructor|]. split.
    + apply NoDup_cons. split; [|done]. intros Hin. apply (H3 _ Hin). set_solver.
    + intros n [->|Hin]%elem_of_cons; [done|]. specialize (H3 _ Hin). set_solver.
Qed.

Lemma method_map_names (methods : list (@MethodInfo arrow Caller App)) name (m : @MethodInfo arrow Caller App) :
  method_map methods !! name = Some m -> mi_name m = name.
Proof.
  unfold method_map.
  assert (forall acc : gmap bytes (@MethodInfo arrow Caller App),
    (forall n x, acc !! n = Some x -> mi_name x = n) ->
    forall n x, foldl (fun map m => <[mi_name m := m]> map) acc methods !! n = Some x ->
    mi_name x = n) as Hgen.
  { induction methods as [|m' methods IH]; intros acc Hacc; [done|]. cbn [foldl]. apply IH.
    intros n x Hx. destruct (decide (mi_name m' = n)) as [<-|Hne].
    - rewrite lookup_insert_eq in Hx. by injection Hx as <-.
    - rewrite lookup_insert_ne in Hx by done. by apply Hacc. }
  apply Hgen. intros n x Hx. by rewrite lookup_empty in Hx.
Qed.

Definition keyed (methods : gmap bytes (@MethodInfo arrow Caller App)) : Prop :=
  forall name m, methods !! name = Some m -> mi_name m = name.

Lemma register_transport_options_keyed (shm : bool) (id : bytes) (methods : gmap bytes (@MethodInfo arrow Caller App)) :
  keyed methods -> keyed (register_transport_options shm id methods).
Proof.
  intros Hk name m. unfold register_transport_options.
  destruct (decide (TRANSPORT_OPTIONS_METHOD_NAME = name)) as [<-|Hne].
  - rewrite lookup_insert_eq. by intros [= <-].
  - rewrite lookup_insert_ne by done. apply Hk.
Qed.

(** Binding changes nothing but the binding. *)
Lemma bind_protocols_ok (ps qs : list served) :
  bind_protocols ps = Ok qs ->
  Forall2 (fun p q => sp_name q = sp_name p /\ sp_version q = sp_version p /\
                      sp_methods q = sp_methods p /\
                      binding_hash_or_throw (sp_name p) (sp_methods p) = Ok (pi_hash (sp_binding q)) /\
                      pi_name (sp_binding q) = sp_name p) ps qs.
Proof.
  revert qs; induction ps as [|p ps IH]; intros qs; cbn [bind_protocols].
  - intros [= <-]. constructor.
  - intros (h & Eh & E)%res_bind_ok. apply res_bind_ok in E as (rest & Er & [= <-]).
    constructor; [done|]. by apply IH.
Qed.

Lemma check_versions_ok (ps : list served) u :
  check_versions ps = Ok u ->
  Forall (fun p => sp_version p = [] \/ is_Some (parse_semver (sp_version p))) ps.
Proof.
  induction ps as [|p ps IH]; cbn [check_versions]; [by constructor|].
  intros (u' & E & H)%res_bind_ok. constructor; [|by apply IH].
  apply throw_if_ok in E. destruct (sp_version p) as [|c v] eqn:Ev; [by left|]. right.
  cbn [length Nat.eqb negb andb] in E. apply negb_false_iff in E. by apply bool_decide_eq_true in E.
Qed.

Definition built_from (p : served) (name version : bytes) : Prop :=
  sp_name p = name /\ sp_version p = version /\ keyed (sp_methods p).

Lemma build_server_ok log_opens env shm rid (b : ServerBuilder Caller App) srv :
  build_server log_opens env shm rid b = Ok srv ->
  (pb_name (primary_ b) = [] -> extra_protocols_ b = []) /\
  (pb_name (primary_ b) <> [] -> name_ok (pb_name (primary_ b))) /\
  Forall name_ok (map pb_name (extra_protocols_ b)) /\
  NoDup (pb_name (primary_ b) :: map pb_name (extra_protocols_ b)) /\
  map sp_name (protocols_ srv) = pb_name (primary_ b) :: map pb_name (extra_protocols_ b) /\
  Forall (fun p => keyed (sp_methods p) /\
                   (sp_version p = [] \/ is_Some (parse_semver (sp_version p)))) (protocols_ srv).
Proof.
  unfold build_server. intros (names & En & E)%res_bind_ok. apply res_bind_ok in E as (u & Et & E).
  apply throw_if_ok in Et. apply res_bind_ok in E as (names' & Ec & E).
  apply res_bind_ok in E as (impl & _ & E). apply check_names_ok in Ec as (Hok & Hnd & Hdis).
  assert (pb_name (primary_ b) = [] -> extra_protocols_ b = []) as Hempty.
  { intros Hn. rewrite Hn in Et. by destruct (extra_protocols_ b). }
  assert ((pb_name (primary_ b) <> [] -> name_ok (pb_name (primary_ b))) /\
    NoDup (pb_name (primary_ b) :: map pb_name (extra_protocols_ b))) as [Hp Hnd'].
  { destruct (pb_name (primary_ b)) as [|c n] eqn:Ep.
    - split; [done|]. rewrite Hempty by done. apply NoDup_singleton.
    - apply check_name_ok in En as (Hn & _ & ->). split; [done|]. constructor; [|done].
      intros Hin. apply (Hdis _ Hin). set_solver. }
  do 4 (split; [done|]). unfold new_Server in E. cbn [build_protocols] in E.
  apply res_bind_ok in E as (u1 & Ev & E). apply check_versions_ok in Ev.
  apply res_bind_ok in E as (ps & Eb & E). apply bind_protocols_ok in Eb.
  apply res_bind_ok in E as (rh & _ & E). apply res_bind_ok in E as (ib & _ & [= <-]).
  cbn [protocols_]. unfold build_protocols in *.
  inversion Eb as [|p0 q0 ps0 qs0 (H1 & H2 & H3 & _) Hrest E1 E2]; subst. cbn [sp_name sp_version sp_methods hosted] in *.
  inversion Ev as [|? ? Hv0 Hvr]; subst. split.
  - cbn [map]. f_equal; [done|].
    clear -Hrest. remember (map hosted (extra_protocols_ b)) as hs eqn:Eh. revert Eh.
    generalize (extra_protocols_ b). induction Hrest as [|p q ps qs (Hn & _) _ IH]; intros [|e es] Eh;
      try done. cbn [map] in *. injection Eh as -> ->. f_equal; [done|]. by apply IH.
  - constructor.
    + rewrite H2, H3. split; [|done]. destruct (transport_options_enabled_ b); cbn;
        [apply register_transport_options_keyed|]; intros ? ?; apply method_map_names.
    + apply Forall_forall. intros q Hq. apply list_elem_of_lookup in Hq as [i Hi].
      destruct (Forall2_lookup_r _ _ _ _ _ Hrest Hi) as (p & Hp' & Hn & Hv & Hm & _).
      rewrite Hv, Hm. split.
      * apply list_elem_of_lookup_2 in Hp'. apply list_elem_of_fmap in Hp' as (e & -> & _).
        intros ? ?; apply method_map_names.
      * rewrite Forall_forall in Hvr. apply Hvr. by apply list_elem_of_lookup_2 in Hp'.
Qed.

(** The first protocol with the name, when names are distinct. *)
Lemma find_protocol_unique (srv : Server Caller App) p :
  NoDup (map sp_name (protocols_ srv)) -> p ∈ protocols_ srv -> sp_name p <> [] ->
  find_protocol srv (sp_name p) = Some p.
Proof.
  unfold find_protocol. intros Hnd Hin Hne.
  induction (protocols_ srv) as [|q qs IH]; [by apply not_elem_of_nil in Hin|].
  cbn [map] in Hnd. apply NoDup_cons in Hnd as [Hq Hnd]. cbn [List.find].
  destruct (bool_decide (sp_name q = sp_name p)) eqn:E.
  - apply bool_decide_eq_true in E. rewrite E, andb_true_r.
    destruct (sp_name p) as [|c n] eqn:Ep; [done|]. cbn [length Nat.eqb negb]. f_equal.
    apply elem_of_cons in Hin as [->|Hin]; [done|]. exfalso. apply Hq.
    apply list_elem_of_fmap. exists p. split; [congruence|done].
  - rewrite andb_false_r. apply elem_of_cons in Hin as [->|Hin].
    + by rewrite bool_decide_eq_true_2 in E.
    + by apply IH.
Qed.

Lemma find_protocol_some (srv : Server Caller App) name p :
  find_protocol srv name = Some p -> p ∈ protocols_ srv /\ sp_name p = name /\ name <> [].
Proof.
  unfold find_protocol. intros H. apply List.find_some in H as [Hin Hb].
  apply andb_prop in Hb as [Hb1 Hb2]. apply bool_decide_eq_true in Hb2. split; [by apply list_elem_of_In|].
  split; [done|]. intros ->. by rewrite Hb2 in Hb1.
Qed.
End server_lemmas.

(** ** Properties *)

(** C30: a server that [build] returns is well formed: at least one protocol,
    no two of the same name, every declared name a valid routing key outside
    the reserved prefix, every version empty or a canonical semver, every
    method registered under its own name.  Routing by a hosted name finds that
    protocol, no application protocol can take the name of a framework one, and
    the builder cannot be used again. *)
Theorem built_server_well_formed
    `{ArrowFields} `{!ArrowTypes} `{!ArrowStreams} `{!ArrowBuild} `{Digests} {Caller App : Type}
    `{!IdentityService Caller App} log_opens env shm rid (b : ServerBuilder Caller App) srv b' :
  build log_opens env shm rid b = (Ok srv, b') ->
  protocols_ srv <> [] /\ NoDup (map sp_name (protocols_ srv)) /\
  Forall (fun p => (sp_name p = [] \/ name_ok (sp_name p)) /\ keyed (sp_methods p) /\
                   (sp_version p = [] \/ is_Some (parse_semver (sp_version p)))) (protocols_ srv) /\
  (forall p, p ∈ protocols_ srv -> sp_name p <> [] -> find_protocol srv (sp_name p) = Some p) /\
  find_protocol srv kReflectionProtocolName = None /\ find_protocol srv kIdentityProtocolName = None /\
  (build log_opens env shm rid b').1 =
    Throw (LogicError (str "ServerBuilder::build() has already been called")).
Proof.
  unfold build. destruct (built_ b); [done|]. intros [= E <-].
  destruct (build_server_ok _ _ _ _ _ _ E) as (Hempty & Hp & Hx & Hnd & Hnames & Hall).
  assert (Forall (fun p => (sp_name p = [] \/ name_ok (sp_name p))) (protocols_ srv)) as Hok.
  { apply Forall_forall. intros p Hin.
    assert (sp_name p ∈ map sp_name (protocols_ srv)) as Hin' by (apply list_elem_of_fmap; by exists p).
    rewrite Hnames in Hin'. apply elem_of_cons in Hin' as [->|Hin'].
    - destruct (decide (pb_name (primary_ b) = [])); [by left|right; by apply Hp].
    - right. rewrite Forall_forall in Hx. by apply Hx. }
  assert (forall name, starts_with kReservedProtocolPrefix name = true ->
    find_protocol srv name = None) as Hres.
  { intros name Hr. destruct (find_protocol srv name) as [p|] eqn:Ef; [|done]. exfalso.
    apply find_protocol_some in Ef as (Hin & Hn & Hne). rewrite Forall_forall in Hok.
    destruct (Hok _ Hin) as [He|[_ He]]; congruence. }
  rewrite Hnames in *. split; [by destruct (protocols_ srv)|]. split; [done|]. split.
  - rewrite Forall_forall in Hok, Hall |- *. intros p Hin. split; [by apply Hok|by apply Hall].
  - split; [|split; [by apply Hres|split; [by apply Hres|done]]].
    intros p Hin Hne. apply find_protocol_unique; [by rewrite Hnames|done|done].
Qed.

(** ** Decimal numbers without leading zeros *)

Definition digits_value (ds : bytes) : Z := foldl (fun a c => a * 10 + (b2z c - 48)) 0 ds.

Lemma parse_dec_digits a k ds :
  forallb is_digit ds = true ->
  parse_dec a k ds = (foldl (fun a c => a * 10 + (b2z c - 48)) a ds, (k + length ds)%nat).
Proof.
  revert a k; induction ds as [|d ds IH]; intros a k Hd; cbn [parse_dec foldl length].
  - by rewrite Nat.add_0_r.
  - cbn [forallb] in Hd. apply andb_prop in Hd as [-> Hd]. rewrite IH by done. f_equal. lia.
Qed.

Lemma is_digit_range c : is_digit c = true <-> 48 <= b2z c <= 57.
Proof. unfold is_digit. rewrite andb_true_iff, !Z.leb_le. lia. Qed.

Lemma digits_value_range ds :
  forallb is_digit ds = true -> 0 <= digits_value ds < 10 ^ Z.of_nat (length ds).
Proof.
  unfold digits_value. induction ds as [|d ds IH] using rev_ind; intros Hd; [done|].
  rewrite forallb_app in Hd. apply andb_prop in Hd as [Hds Hd]. cbn [forallb] in Hd.
  rewrite andb_true_r in Hd. apply is_digit_range in Hd. specialize (IH Hds).
  rewrite foldl_app. cbn [foldl]. rewrite length_app. cbn [length].
  replace (Z.of_nat (length ds + 1)) with (Z.of_nat (length ds) + 1) by lia.
  rewrite Z.pow_add_r by lia. lia.
Qed.

(** Only [0] starts with a zero. *)
Definition no_leading_zero (ds : bytes) : bool :=
  match ds with
  | [] => false
  | [_] => true
  | d :: _ => negb (Byte.eqb d "0")
  end.

Lemma no_leading_zero_pos ds d :
  forallb is_digit (ds ++ [d]) = true -> no_leading_zero (ds ++ [d]) = true -> ds <> [] ->
  0 < digits_value ds /\ no_leading_zero ds = true.
Proof.
  intros Hd Hz Hne. destruct ds as [|c ds]; [done|]. clear Hne.
  assert (Byte.eqb c "0" = false) as Hc by (destruct ds; cbn in Hz; by apply negb_true_iff in Hz).
  split; [|destruct ds; [done|cbn; by rewrite Hc]].
  cbn [app forallb] in Hd. apply andb_prop in Hd as [Hcd Hd]. rewrite forallb_app in Hd.
  apply andb_prop in Hd as [Hd _]. apply is_digit_range in Hcd.
  assert (b2z c <> 48) as Hc'.
  { intros E. apply byte_eqb_neq in Hc. apply Hc. by apply b2z_inj. }
  unfold digits_value. cbn [foldl]. replace (0 * 10 + (b2z c - 48)) with (b2z c - 48) by lia.
  assert (forall a, 0 < a -> 0 < foldl (fun a c => a * 10 + (b2z c - 48)) a ds) as Hpos; [|apply Hpos; lia].
  clear -Hd. induction ds as [|x ds IH]; intros a Ha; [done|]. cbn [foldl forallb] in *.
  apply andb_prop in Hd as [Hx Hd]. apply is_digit_range in Hx. apply IH; [done|lia].
Qed.

(** Printing the value of such digits gives them back. *)
Lemma dec_digits_value fuel ds acc :
  (length ds <= fuel)%nat -> forallb is_digit ds = true -> no_leading_zero ds = true ->
  dec_digits fuel (digits_value ds) acc = ds ++ acc.
Proof.
  revert fuel acc; induction ds as [|d ds IH] using rev_ind; intros fuel acc Hf Hd Hz; [done|].
  rewrite length_app in Hf. cbn [length] in Hf. destruct fuel as [|fuel]; [lia|].
  cbn [dec_digits]. pose proof Hd as Hd'. rewrite forallb_app in Hd. apply andb_prop in Hd as [Hds Hd].
  cbn [forallb] in Hd. rewrite andb_true_r in Hd. apply is_digit_range in Hd.
  assert (digits_value (ds ++ [d]) = digits_value ds * 10 + (b2z d - 48)) as Ev
    by (unfold digits_value; by rewrite foldl_app).
  rewrite Ev.
  assert ((digits_value ds * 10 + (b2z d - 48)) / 10 = digits_value ds) as ->
    by (symmetry; apply (Z.div_unique _ _ _ (b2z d - 48)); lia).
  assert ((digits_value ds * 10 + (b2z d - 48)) mod 10 = b2z d - 48) as ->
    by (symmetry; apply (Z.mod_unique _ _ (digits_value ds)); lia).
  replace (48 + (b2z d - 48)) with (b2z d) by lia. rewrite z2b_b2z.
  destruct (decide (ds = [])) as [->|Hne]; [done|].
  destruct (no_leading_zero_pos ds d Hd' Hz Hne) as [Hpos Hz'].
  destruct (Z.eqb_spec (digits_value ds) 0); [lia|]. rewrite IH by (done || lia).
  by rewrite <- app_assoc.
Qed.

(** Printed digits have no leading zero. *)
Lemma dec_digits_shape fuel n :
  (1 <= fuel)%nat -> 0 <= n < 10 ^ Z.of_nat fuel ->
  exists ds, (forall acc, dec_digits fuel n acc = ds ++ acc) /\ forallb is_digit ds = true /\
    no_leading_zero ds = true /\ digits_value ds = n /\ (length ds <= fuel)%nat.
Proof.
  revert n; induction fuel as [|fuel IH]; intros n Hf Hn; [lia|]. cbn [dec_digits].
  assert (is_digit (z2b (48 + n mod 10)) = true /\ b2z (z2b (48 + n mod 10)) - 48 = n mod 10) as [Hd Hv]
    by (apply digit_char; by apply Z.mod_pos_bound).
  pose proof (Z.div_mod n 10 ltac:(done)) as Edm.
  destruct (Z.eqb_spec (n / 10) 0) as [E|E].
  - exists [z2b (48 + n mod 10)]. split_and!; [done|cbn; by rewrite Hd|done| |cbn; lia].
    unfold digits_value. cbn [foldl]. lia.
  - assert (n / 10 < 10 ^ Z.of_nat fuel /\ 0 < n / 10) as [Hlt Hpos].
    { replace (Z.of_nat (S fuel)) with (1 + Z.of_nat fuel) in Hn by lia.
      rewrite Z.pow_add_r in Hn by lia. split; [apply Z.div_lt_upper_bound; lia|].
      pose proof (Z.div_pos n 10). lia. }
    assert (1 <= fuel)%nat as Hf'.
    { destruct fuel; [|lia]. cbn in Hlt. lia. }
    destruct (IH (n / 10) Hf' ltac:(lia)) as (ds & Hds & Hdig & Hz & Hval & Hlen).
    exists (ds ++ [z2b (48 + n mod 10)]). split_and!.
    + intros acc. by rewrite Hds, <- app_assoc.
    + rewrite forallb_app, Hdig. cbn. by rewrite Hd.
    + destruct ds as [|c [|c' ds]]; [done| |done]. cbn [app no_leading_zero].
      apply negb_true_iff, byte_eqb_neq. intros ->. cbn in Hval. unfold digits_value in Hval. cbn in Hval.
      lia.
    + unfold digits_value. rewrite foldl_app. cbn [foldl]. fold (digits_value ds). lia.
    + rewrite length_app. cbn. lia.
Qed.

Lemma span_digits_spec s ds r :
  span_digits s = (ds, r) <->
  s = ds ++ r /\ forallb is_digit ds = true /\ (forall c r', r = c :: r' -> is_digit c = false).
Proof.
  revert ds r; induction s as [|c s IH]; intros ds r; cbn [span_digits].
  - split; [by intros [= <- <-]|]. intros (E & _). symmetry in E. by apply app_eq_nil in E as [-> ->].
  - destruct (is_digit c) eqn:Ec.
    + destruct (span_digits s) as [ds' r'] eqn:E. split.
      * intros [= <- <-]. destruct (proj1 (IH _ _) eq_refl) as (-> & Hd & Hr).
        split; [done|]. split; [cbn; by rewrite Ec|done].
      * intros (Es & Hd & Hr). destruct ds as [|d ds].
        -- cbn in Es. subst r. by rewrite (Hr _ _ eq_refl) in Ec.
        -- cbn in Es. injection Es as <- ->. cbn in Hd. apply andb_prop in Hd as [_ Hd].
           assert ((ds', r') = (ds, r)) as [= -> ->] by (apply IH; done). done.
    + split; [intros [= <- <-]; split; [done|]; split; [done|]; by intros ? ? [= <- <-]|].
      intros (Es & Hd & Hr). destruct ds as [|d ds]; [by cbn in Es; subst|].
      cbn in Es. injection Es as <- ->. cbn in Hd. by rewrite Ec in Hd.
Qed.

Definition semver_number (n : Z) : Prop := 0 <= n < 10 ^ 9.
Definition not_digit_next (r : bytes) : Prop := forall c r', r = c :: r' -> is_digit c = false.

Lemma semver_part_spec s n r :
  semver_part s = Some (n, r) <-> s = to_string n ++ r /\ semver_number n /\ not_digit_next r.
Proof.
  unfold semver_part, semver_number, not_digit_next. split.
  - destruct (span_digits s) as [ds r0] eqn:E. apply span_digits_spec in E as (-> & Hd & Hr).
    destruct ((length ds =? 0)%nat || _) eqn:Ez; [done|]. destruct (Nat.ltb_spec 9 (length ds)); [done|].
    rewrite parse_dec_digits by done. cbn [fst]. intros [= <- <-]. fold (digits_value ds).
    apply orb_false_iff in Ez as [E0 E1].
    pose proof (digits_value_range ds Hd) as Hrng.
    assert (10 ^ Z.of_nat (length ds) <= 10 ^ 9) by (apply Z.pow_le_mono_r; lia).
    split; [|split; [lia|done]]. unfold to_string. destruct (Z.ltb_spec (digits_value ds) 0); [lia|].
    rewrite dec_digits_value; [by rewrite app_nil_r|lia|done|].
    destruct ds as [|d [|d' ds]]; [done|done|]. cbn [length Nat.ltb Nat.leb andb] in E1.
    change ((d :: d' :: ds) !!! 0%nat) with d in E1. cbn. by rewrite E1.
  - intros (-> & Hn & Hr). unfold to_string. destruct (Z.ltb_spec n 0); [lia|].
    destruct (dec_digits_shape 9 n) as (ds & Hds & Hdig & Hz & Hval & Hlen); [lia|done|].
    assert (dec_digits 20 n [] = ds) as ->.
    { rewrite <- Hval, dec_digits_value by (done || lia). apply app_nil_r. }
    rewrite (proj2 (span_digits_spec (ds ++ r) ds r)) by done.
    assert ((length ds =? 0)%nat || ((1 <? length ds)%nat && Byte.eqb (ds !!! 0%nat) "0") = false) as ->.
    { destruct ds as [|d [|d' ds]]; [done|done|]. change ((d :: d' :: ds) !!! 0%nat) with d.
      cbn in Hz |- *. by apply negb_true_iff in Hz. }
    destruct (Nat.ltb_spec 9 (length ds)); [lia|]. rewrite parse_dec_digits by done. cbn [fst].
    by fold (digits_value ds); rewrite Hval.
Qed.

(** ** Properties of the version gate *)

(** [parse_semver] accepts exactly the canonical spellings
    MAJOR.MINOR.PATCH of three numbers below 10^9: no leading zeros, sign,
    whitespace, prerelease or build metadata. *)
Theorem parse_semver_iff v a b c :
  parse_semver v = Some (a, b, c) <->
  v = to_string a ++ str "." ++ to_string b ++ str "." ++ to_string c /\
  semver_number a /\ semver_number b /\ semver_number c.
Proof.
  assert (forall s s', expect_dot s = Some s' <-> s = str "." ++ s') as Hdot.
  { intros [|x s] s'; cbn [expect_dot]; [done|]. destruct (Byte.eqb x ".") eqn:E.
    - apply byte_eqb_eq in E as ->. cbn. naive_solver.
    - split; [done|]. cbn. intros [= -> ->]. by rewrite byte_eqb_refl in E. }
  unfold parse_semver. split.
  - intros E. destruct (semver_part v) as [[x r1]|] eqn:E1; cbn in E; [|done].
    destruct (expect_dot r1) as [r2|] eqn:E2; cbn in E; [|done].
    destruct (semver_part r2) as [[y r3]|] eqn:E3; cbn in E; [|done].
    destruct (expect_dot r3) as [r4|] eqn:E4; cbn in E; [|done].
    destruct (semver_part r4) as [[z r5]|] eqn:E5; cbn in E; [|done].
    destruct r5; [|done]. injection E as -> -> ->.
    apply semver_part_spec in E1 as (-> & Ha & _), E3 as (-> & Hb & _), E5 as (-> & Hc & _).
    apply Hdot in E2 as ->, E4 as ->. by rewrite app_nil_r.
  - intros (-> & Ha & Hb & Hc).
    rewrite (proj2 (semver_part_spec _ a (str "." ++ to_string b ++ str "." ++ to_string c)));
      [|split; [done|]; split; [done|]; by intros ? ? [= <- <-]].
    cbn [mbind option_bind]. rewrite (proj2 (Hdot _ (to_string b ++ str "." ++ to_string c))) by done.
    cbn [mbind option_bind]. rewrite (proj2 (semver_part_spec _ b (str "." ++ to_string c)));
      [|split; [done|]; split; [done|]; by intros ? ? [= <- <-]].
    cbn [mbind option_bind]. rewrite (proj2 (Hdot _ (to_string c))) by done.
    cbn [mbind option_bind]. rewrite (proj2 (semver_part_spec _ c [])); [done|].
    rewrite app_nil_r. split; [done|]. split; [done|]. by intros ? ? [=].
Qed.

(** The version gate.  A protocol that declares no version lets every
    request through; one that declares M.m.p lets through exactly the requests
    whose protocol_version is a canonical semver with the same M and m,
    whatever the patch. *)
Theorem version_gate_iff `{KeyValueMetadata} `{!Arrow} {Caller App : Type}
    (p : ServedProtocol Caller App) md :
  (sp_version p = [] \/ is_Some (parse_semver (sp_version p))) ->
  protocol_version_error p md = [] <->
  sp_version p = [] \/
  exists kvs declared major minor p1 p2,
    md = Some kvs /\ find_value kvs PROTOCOL_VERSION = Some declared /\
    parse_semver declared = Some (major, minor, p1) /\
    parse_semver (sp_version p) = Some (major, minor, p2).
Proof.
  intros Hv. unfold protocol_version_error. destruct (sp_version p) as [|v0 v] eqn:Ev; [by split; [left|]|].
  destruct Hv as [Hv|[[[M m] p2] Hv]]; [done|]. rewrite Hv.
  destruct (md ≫= fun md => find_value md PROTOCOL_VERSION) as [declared|] eqn:Ed; cycle 1.
  - split; [done|]. intros [?|(kvs & d & M2 & m2 & q1 & q2 & -> & Hf & _)]; [done|].
    cbn [mbind option_bind] in Ed. by rewrite Hf in Ed.
  - destruct md as [kvs|]; [|done]. cbn [mbind option_bind] in Ed.
    destruct (parse_semver declared) as [[[M' m'] p1]|] eqn:Ep; cycle 1.
    + split; [done|]. intros [?|(kvs' & d & M2 & m2 & q1 & q2 & Ek & Hf & Hp & _)]; [done|].
      injection Ek as <-. rewrite Ed in Hf. injection Hf as <-. by rewrite Ep in Hp.
    + destruct (Z.eqb_spec M' M) as [->|HM]; [destruct (Z.eqb_spec m' m) as [->|Hm]|]; cbn [andb].
      * split; [|done]. intros _. right. exists kvs, declared, M, m, p1, p2. done.
      * split; [done|]. intros [?|(kvs' & d & M2 & m2 & q1 & q2 & Ek & Hf & Hp & Hs)]; [done|].
        injection Ek as <-. rewrite Ed in Hf. injection Hf as <-. congruence.
      * split; [done|]. intros [?|(kvs' & d & M2 & m2 & q1 & q2 & Ek & Hf & Hp & Hs)]; [done|].
        injection Ek as <-. rewrite Ed in Hf. injection Hf as <-. congruence.
Qed.

(** ** Witnesses *)

Import ToyArrow ToyStreams ToyTypes ToyBuild Toy.

Module ToyIdentity.
#[export] Instance toy_identity {App} : IdentityService unit App := {|
  IdentityImpl := GrantKeys;
  identity_grant_keys k := Some k;
  grants_identity k := Ok k;
  IdentityMethods _ := ∅;
|}.
End ToyIdentity.

Import ToyIdentity.

(** A server of two protocols. *)
Definition two_protocols : ServerBuilder unit unit :=
  set_protocols new_ServerBuilder
    {| pb_name := str "calc.v1"; pb_version := str "1.2.0"; pb_methods := [] |}
    [{| pb_name := str "echo.v1"; pb_version := []; pb_methods := [] |}].

Definition two_protocols_built : res (Server unit unit) * ServerBuilder unit unit :=
  build (fun _ => true) (fun _ => None) false (str "abc") two_protocols.

Lemma built_server_well_formed_witness :
  exists srv, two_protocols_built.1 = Ok srv /\ NoDup (map sp_name (protocols_ srv)).
Proof.
  destruct two_protocols_built as [[srv|e] b'] eqn:E; [|vm_compute in E; discriminate E].
  exists srv. split; [done|].
  exact (proj1 (proj2 (built_server_well_formed (fun _ => true) (fun _ => None) false (str "abc")
    two_protocols srv b' E))).
Defined.

Definition calc_protocol : ServedProtocol unit unit :=
  {| sp_name := str "calc.v1"; sp_version := str "1.2.0"; sp_methods := ∅; sp_binding := no_binding |}.

Lemma version_gate_iff_witness :
  protocol_version_error calc_protocol (Some [(PROTOCOL_VERSION, str "1.2.7")]) = [] /\
  protocol_version_error calc_protocol (Some [(PROTOCOL_VERSION, str "1.3.0")]) <> [].
Proof.
  assert (sp_version calc_protocol = [] \/ is_Some (parse_semver (sp_version calc_protocol))) as H
    by (right; vm_compute; by eexists).
  split.
  - apply (version_gate_iff calc_protocol (Some [(PROTOCOL_VERSION, str "1.2.7")]) H).
    right. exists [(PROTOCOL_VERSION, str "1.2.7")], (str "1.2.7"), 1, 2, 7, 0. by vm_compute.
  - vm_compute. discriminate.
Defined.
