(* ===== verification/HttpRoute.v ===== *)
(** * Addressing over HTTP (src/src/http_transport.cpp)

    What an HTTP request says before its body is read: the protocol and the method
    its path names, the response budget it declares, the codec it prefers.  A
    header lookup of the HTTP library is a function from a name to the values the
    request carries for it, in order. *)

From S2P Require Import Prelude Arrow Crypto IdentityInternal Errors Wire Calls.
From S2P Require Import ProtocolHash Reflection Server.

(** [httplib::Request]: the method, the undecoded target, the decoded path, the
    headers, and the two ends of the connection. *)
Record HttpRequestHead := {
  rh_method : bytes;
  rh_target : bytes;
  rh_path : bytes;
  rh_headers : bytes -> list bytes;
  rh_fields : list (bytes * bytes);
  rh_remote_addr : bytes;
  rh_remote_port : Z;
  rh_local_addr : bytes;
  rh_local_port : Z;
}.

Definition get_header_value_count (req : HttpRequestHead) (name : bytes) : Z := blen (rh_headers req name).
Definition get_header_value (req : HttpRequestHead) (name : bytes) : bytes :=
  default [] (head (rh_headers req name)).
Definition has_header (req : HttpRequestHead) (name : bytes) : bool := bool_decide (rh_headers req name <> []).

Definition ACCEPT_MAX_RESPONSE_BYTES_HEADER : bytes := str "VGI-Accept-Max-Response-Bytes".
Definition MAX_SAFE_RESPONSE_BYTES : Z := 9007199254740991.
Definition MIN_RESPONSE_BYTES : Z := Z.shiftl 64 10.

(** ** Routing *)

Inductive RouteTarget := RESERVED | APPLICATION | REFLECTION | IDENTITY.
Inductive RouteError := NO_ROUTE_ERROR | NOT_FOUND_PATH | PROTOCOL_NOT_SUPPORTED.

#[export] Instance RouteTarget_eq_decision : EqDecision RouteTarget.
Proof. solve_decision. Defined.
#[export] Instance RouteError_eq_decision : EqDecision RouteError.
Proof. solve_decision. Defined.

Record RoutedRequest := {
  rt_error : RouteError;
  rt_target : RouteTarget;
  rt_protocol : bytes;
  rt_method : bytes;
  rt_is_init : bool;
  rt_is_exchange : bool;
}.

Definition no_route : RoutedRequest :=
  {| rt_error := NO_ROUTE_ERROR; rt_target := RESERVED; rt_protocol := []; rt_method := [];
     rt_is_init := false; rt_is_exchange := false |}.

Definition with_error (e : RouteError) (r : RoutedRequest) : RoutedRequest :=
  {| rt_error := e; rt_target := rt_target r; rt_protocol := rt_protocol r; rt_method := rt_method r;
     rt_is_init := rt_is_init r; rt_is_exchange := rt_is_exchange r |}.
Definition with_target (t : RouteTarget) (r : RoutedRequest) : RoutedRequest :=
  {| rt_error := rt_error r; rt_target := t; rt_protocol := rt_protocol r; rt_method := rt_method r;
     rt_is_init := rt_is_init r; rt_is_exchange := rt_is_exchange r |}.
Definition with_names (protocol method : bytes) (r : RoutedRequest) : RoutedRequest :=
  {| rt_error := rt_error r; rt_target := rt_target r; rt_protocol := protocol; rt_method := method;
     rt_is_init := rt_is_init r; rt_is_exchange := rt_is_exchange r |}.
Definition with_endpoint (init exchange : bool) (r : RoutedRequest) : RoutedRequest :=
  {| rt_error := rt_error r; rt_target := rt_target r; rt_protocol := rt_protocol r; rt_method := rt_method r;
     rt_is_init := init; rt_is_exchange := exchange |}.

Definition is_reserved_method (name : bytes) : bool :=
  (4 <? length name)%nat && starts_with (str "__") name
  && bool_decide (drop (length name - 2) name = str "__").

Definition is_protocol_name (name : bytes) : bool :=
  match name with
  | [] => false
  | lead :: rest =>
      if (255 <? length name)%nat then false
      else if negb (isalpha lead || Byte.eqb lead "_") then false
      else forallb (fun c => isalnum c || Byte.eqb c "_" || Byte.eqb c ".") rest
  end.

(** The target without its query. *)
Definition raw_target_path (req : HttpRequestHead) : bytes := hd [] (split_on "?" (rh_target req)).

Definition split_path (path : bytes) : list bytes := split_on "/" path.

(** [None] is a suffix that is not an endpoint. *)
Definition take_suffix (segments : list bytes) (index : nat) (r : RoutedRequest) : option RoutedRequest :=
  match drop index segments with
  | [] => Some r
  | [s] =>
      if bool_decide (s = str "init") then Some (with_endpoint true (rt_is_exchange r) r)
      else if bool_decide (s = str "exchange") then Some (with_endpoint (rt_is_init r) true r)
      else None
  | _ => None
  end.

(** [hosted] is [server.find_protocol(name) != nullptr]. *)
Definition route_path (hosted : bytes -> bool) (hosts_identity : bool) (path : bytes) : RoutedRequest :=
  let not_found := with_error NOT_FOUND_PATH in
  match split_path path with
  | [] | [] :: _ => not_found no_route
  | first :: others =>
      if is_reserved_method first then
        let routed := with_names [] first no_route in
        match take_suffix (first :: others) 1 routed with
        | None => not_found routed
        | Some routed => routed
        end
      else
        match others with
        | [] | [] :: _ => not_found no_route
        | method :: _ =>
            if existsb (Byte.eqb "%") first then not_found no_route
            else if negb (is_protocol_name first) then not_found no_route
            else
              let routed := with_names first method no_route in
              match take_suffix (first :: others) 2 routed with
              | None => not_found routed
              | Some routed =>
                  if bool_decide (first = kReflectionProtocolName) then with_target REFLECTION routed
                  else if bool_decide (first = kIdentityProtocolName) && hosts_identity then
                    with_target IDENTITY routed
                  else if hosted first then with_target APPLICATION routed
                  else with_error PROTOCOL_NOT_SUPPORTED routed
              end
        end
  end.

(** [HttpServer::strip_prefix]. *)
Definition strip_prefix (prefix path : bytes) : bytes :=
  if bool_decide (prefix <> []) && starts_with prefix path then
    match drop (length prefix) path with
    | [] => str "/"
    | c :: rest => if Byte.eqb c "/" then c :: rest else path
    end
  else path.

(** The path [handle_rpc] routes. *)
Definition routed_path (prefix : bytes) (req : HttpRequestHead) : bytes :=
  match strip_prefix prefix (raw_target_path req) with
  | c :: rest => if Byte.eqb c "/" then rest else c :: rest
  | [] => []
  end.

Definition stream_aad (identity_aad protocol : bytes) : bytes := identity_aad ++ [x1f] ++ protocol.

(** ** Limits *)

Definition min_limit (left right : option Z) : option Z :=
  match left, right with
  | Some l, Some r => Some (Z.min l r)
  | Some l, None => Some l
  | None, r => r
  end.

Definition configured_limit (application hosting : Z) : option Z :=
  min_limit (if 0 <=? application then Some application else None)
            (if 0 <=? hosting then Some hosting else None).

(** [inl] is the text of the refusal. *)
Definition parse_accepted_response_limit (req : HttpRequestHead) : bytes + option Z :=
  let accepted_count := get_header_value_count req ACCEPT_MAX_RESPONSE_BYTES_HEADER in
  if 1 <? accepted_count then inl (ACCEPT_MAX_RESPONSE_BYTES_HEADER ++ str " must appear exactly once")
  else if accepted_count =? 0 then inr None
  else
    let raw := get_header_value req ACCEPT_MAX_RESPONSE_BYTES_HEADER in
    let digits := bool_decide (raw <> []) && negb (bool_decide (head raw = Some (chr "0")))
                  && forallb is_digit raw in
    let refused := inl (ACCEPT_MAX_RESPONSE_BYTES_HEADER
                        ++ str " must be one ASCII integer between 65536 and 9007199254740991") in
    match (if digits then stoll raw else Some (0, O)) with
    | None => refused
    | Some (parsed, consumed) =>
        if negb digits || negb (consumed =? length raw)%nat || (parsed <? MIN_RESPONSE_BYTES)
           || (MAX_SAFE_RESPONSE_BYTES <? parsed) then refused
        else inr (Some parsed)
    end.

(** ** Codecs *)

Definition blank (c : byte) : bool := Byte.eqb c " " || Byte.eqb c x09.

Definition accept_token (piece : bytes) : bytes :=
  let token := hd [] (split_on ";" piece) in
  map IdentityInternal.tolower (pop_back_while blank (drop_while blank token)).

Definition parse_accept_encoding (raw : bytes) : list bytes :=
  filter (fun token : bytes => token <> []) (map accept_token (split_on "," raw)).

Definition accepts (l : list bytes) (codec : bytes) : bool := bool_decide (codec ∈ l).

Record CodecChoice := { cc_codec : bytes; cc_standard_header : bool }.

Definition no_codec : CodecChoice := {| cc_codec := []; cc_standard_header := true |}.

Fixpoint first_codec (standard preferred : list bytes) : CodecChoice :=
  match preferred with
  | [] => no_codec
  | token :: preferred' =>
      if bool_decide (token = str "identity") then no_codec
      else if negb (bool_decide (token = str "zstd")) && negb (bool_decide (token = str "gzip")) then
        first_codec standard preferred'
      else {| cc_codec := token; cc_standard_header := accepts standard token |}
  end.

Definition choose_codec (req : HttpRequestHead) (compression_enabled : bool) : CodecChoice :=
  if negb compression_enabled then no_codec
  else
    let has_vgi := has_header req (str "X-VGI-Accept-Encoding") in
    let vgi := parse_accept_encoding (get_header_value req (str "X-VGI-Accept-Encoding")) in
    let standard := parse_accept_encoding (get_header_value req (str "Accept-Encoding")) in
    let preferred :=
      if has_vgi then
        foldl (fun preferred token => if accepts preferred token then preferred else preferred ++ [token])
          vgi standard
      else standard in
    first_codec standard preferred.

(** ** Which paths address what *)

Inductive endpoint := Call | Init | ExchangeTurn.

Definition endpoint_segments (e : endpoint) : list bytes :=
  match e with Call => [] | Init => [str "init"] | ExchangeTurn => [str "exchange"] end.

Definition target_of (hosted : bytes -> bool) (hosts_identity : bool) (protocol : bytes) : option RouteTarget :=
  if bool_decide (protocol = kReflectionProtocolName) then Some REFLECTION
  else if bool_decide (protocol = kIdentityProtocolName) && hosts_identity then Some IDENTITY
  else if hosted protocol then Some APPLICATION else None.

Definition routed_to (target : RouteTarget) (protocol method : bytes) (e : endpoint) : RoutedRequest :=
  {| rt_error := NO_ROUTE_ERROR; rt_target := target; rt_protocol := protocol; rt_method := method;
     rt_is_init := match e with Init => true | _ => false end;
     rt_is_exchange := match e with ExchangeTurn => true | _ => false end |}.

(** A path, as its segments, and the request it addresses. *)
Inductive addresses (hosted : bytes -> bool) (hosts_identity : bool) : list bytes -> RoutedRequest -> Prop :=
  | Addresses_reserved name e :
      is_reserved_method name = true ->
      addresses hosted hosts_identity (name :: endpoint_segments e) (routed_to RESERVED [] name e)
  | Addresses_method protocol method e target :
      is_reserved_method protocol = false -> is_protocol_name protocol = true -> method <> [] ->
      target_of hosted hosts_identity protocol = Some target ->
      addresses hosted hosts_identity (protocol :: method :: endpoint_segments e)
        (routed_to target protocol method e).

Lemma take_suffix_some segments index r r' :
  take_suffix segments index r = Some r' <->
  exists e, drop index segments = endpoint_segments e
    /\ r' = match e with
            | Call => r
            | Init => with_endpoint true (rt_is_exchange r) r
            | ExchangeTurn => with_endpoint (rt_is_init r) true r
            end.
Proof.
  unfold take_suffix. split.
  - destruct (drop index segments) as [|s [|? ?]]; [by intros [= <-]; exists Call| |done].
    case_bool_decide; [intros [= <-]; subst; by exists Init|].
    case_bool_decide; [intros [= <-]; subst; by exists ExchangeTurn|done].
  - intros (e & -> & ->). by destruct e.
Qed.

Lemma split_path_join path : path = join_with "/" (split_path path) /\ Forall (fun s => "/"%byte ∉ s) (split_path path).
Proof. destruct (join_split_on "/" path) as [H1 H2]. by split. Qed.

Lemma percent_free name : is_protocol_name name = true -> existsb (Byte.eqb "%") name = false.
Proof.
  intros Hn. apply not_true_iff_false. rewrite existsb_exists. intros (c & Hin & <-%byte_eqb_eq).
  destruct name as [|l r]; [done|]. unfold is_protocol_name in Hn.
  destruct (255 <? _)%nat; [done|]. destruct Hin as [->|Hin]; [done|].
  destruct (negb _); [done|]. by rewrite forallb_forall in Hn; apply Hn in Hin.
Qed.

Section routing.
Context (hosted : bytes -> bool) (hosts_identity : bool).

Lemma route_sound path r : route_path hosted hosts_identity path = r -> rt_error r = NO_ROUTE_ERROR ->
  addresses hosted hosts_identity (split_path path) r.
Proof.
  unfold route_path. destruct (split_path path) as [|[|c f] others]; [by intros <-|by intros <-|].
  set (first := c :: f). destruct (is_reserved_method first) eqn:Er.
  - destruct (take_suffix _ 1 _) as [routed|] eqn:Et; [|by intros <-].
    apply take_suffix_some in Et as (e & Ed & ->). cbn [drop] in Ed. rewrite drop_0 in Ed. rewrite Ed. intros <- _.
    destruct e; [by apply (Addresses_reserved _ _ _ Call)|by apply (Addresses_reserved _ _ _ Init)|
      by apply (Addresses_reserved _ _ _ ExchangeTurn)].
  - destruct others as [|[|m0 m] others]; [by intros <-|by intros <-|]. set (method := m0 :: m).
    destruct (existsb _ first); [by intros <-|].
    destruct (is_protocol_name first) eqn:En; cbn [negb]; [|by intros <-].
    destruct (take_suffix _ 2 _) as [routed|] eqn:Et; [|by intros <-].
    apply take_suffix_some in Et as (e & Ed & ->). cbn [drop] in Ed. rewrite drop_0 in Ed. rewrite Ed.
    assert (forall t, target_of hosted hosts_identity first = Some t ->
              addresses hosted hosts_identity (first :: method :: endpoint_segments e) (routed_to t first method e)) as Ha
      by (intros t Ht; by apply Addresses_method).
    unfold target_of in Ha. intros <-. revert Ha.
    case_bool_decide; [intros Ha _; specialize (Ha _ eq_refl); by destruct e|].
    destruct (_ && _); [intros Ha _; specialize (Ha _ eq_refl); by destruct e|].
    destruct (hosted first); [intros Ha _; specialize (Ha _ eq_refl); by destruct e|done].
Qed.

Lemma route_complete segments r : Forall (fun s : bytes => "/"%byte ∉ s) segments ->
  addresses hosted hosts_identity segments r -> route_path hosted hosts_identity (join_with "/" segments) = r.
Proof.
  intros Hs Ha. unfold route_path, split_path.
  rewrite split_on_join by (done || by destruct Ha).
  destruct Ha as [name e Hr|protocol method e target Hr Hn Hm Ht].
  - destruct name as [|c name]; [done|]. rewrite Hr.
    destruct (take_suffix _ 1 _) as [routed|] eqn:Et.
    + apply take_suffix_some in Et as (e2 & Ed & ->). cbn [drop] in Ed. rewrite drop_0 in Ed. by destruct e, e2.
    + exfalso. revert Et. by destruct e.
  - destruct protocol as [|c protocol]; [done|]. rewrite Hr. destruct method as [|m method]; [done|].
    rewrite (percent_free _ Hn), Hn. cbn [negb].
    assert (take_suffix ((c :: protocol) :: (m :: method) :: endpoint_segments e) 2
              (with_names (c :: protocol) (m :: method) no_route)
            = Some (with_target RESERVED (routed_to target (c :: protocol) (m :: method) e))) as -> by (by destruct e).
    unfold target_of in Ht. case_bool_decide; [by injection Ht as <-|].
    destruct (_ && hosts_identity); [by injection Ht as <-|].
    destruct (hosted (c :: protocol)); [by injection Ht as <-|done].
Qed.
End routing.

(** *** Streams are bound to their protocol *)

Lemma protocol_name_no_separator name : is_protocol_name name = true -> x1f ∉ name.
Proof.
  intros Hn Hin%list_elem_of_In. destruct name as [|l r]; [done|]. unfold is_protocol_name in Hn.
  destruct (255 <? _)%nat; [done|]. destruct Hin as [->|Hin]; [done|].
  destruct (negb _); [done|]. by rewrite forallb_forall in Hn; apply Hn in Hin.
Qed.

(** *** Budgets *)

Lemma min_limit_le l r n : min_limit l r = Some n ->
  (forall m, l = Some m -> n <= m) /\ (forall m, r = Some m -> n <= m) /\ (l = Some n \/ r = Some n).
Proof.
  destruct l as [l|], r as [r|]; cbn; intros [= <-]; split_and!; intros; simplify_eq; try lia; auto.
  destruct (Z.min_spec l r) as [[_ ->]|[_ ->]]; auto.
Qed.

(** The text of a positive number, digit by digit. *)
Lemma digits_value_lower c ds :
  forallb is_digit (c :: ds) = true -> Byte.eqb c "0" = false -> 10 ^ blen ds <= digits_value (c :: ds).
Proof.
  intros Hd Hc. induction ds as [|d ds IH] using rev_ind.
  - cbn [forallb] in Hd. rewrite andb_true_r in Hd. apply is_digit_range in Hd.
    assert (b2z c <> 48) by (intros E; apply byte_eqb_neq in Hc; by apply Hc, b2z_inj).
    unfold digits_value. cbn [foldl length]. change (10 ^ Z.of_nat 0) with 1. lia.
  - rewrite app_comm_cons, forallb_app in Hd. apply andb_prop in Hd as [Hds Hd]. specialize (IH Hds).
    cbn [forallb] in Hd. rewrite andb_true_r in Hd. apply is_digit_range in Hd.
    unfold digits_value in *. rewrite app_comm_cons, foldl_app. cbn [foldl] in IH |- *. rewrite length_app. cbn [length].
    replace (Z.of_nat (length ds + 1)) with (blen ds + 1) by lia. rewrite Z.pow_add_r by lia. lia.
Qed.

Lemma stoll_of_digits c ds v n :
  forallb is_digit (c :: ds) = true -> stoll (c :: ds) = Some (v, n) ->
  v = digits_value (c :: ds) /\ v < 2 ^ 63.
Proof.
  intros Hd. pose proof Hd as Hd'. cbn [forallb] in Hd'. apply andb_prop in Hd' as [Hc _].
  apply is_digit_range in Hc. unfold stoll. cbn [drop_while].
  assert (isspace c = false) as ->.
  { unfold isspace. rewrite (proj2 (Z.eqb_neq _ _)), (proj2 (Z.leb_gt (b2z c) 13)) by lia. by rewrite andb_false_r. }
  assert (forall x, b2z x < 48 -> Byte.eqb c x = false) as Hne by (intros x Hx; apply byte_eqb_neq; intros ->; lia).
  rewrite (Hne "-"%byte ltac:(done)), (Hne "+"%byte ltac:(done)), parse_dec_digits by done.
  fold (digits_value (c :: ds)). cbn [length Nat.add Nat.eqb].
  destruct (Z.ltb_spec (digits_value (c :: ds)) (2 ^ 63)); [|by rewrite andb_false_r].
  destruct (_ && _); [|done]. by intros [= <- _].
Qed.

Lemma positive_text raw v n :
  raw <> [] -> head raw <> Some (chr "0") -> forallb is_digit raw = true -> stoll raw = Some (v, n) ->
  raw = to_string v.
Proof.
  destruct raw as [|c ds]; [done|]. intros _ Hz Hd Hs. apply stoll_of_digits in Hs as [-> Hlt]; [|done].
  assert (Byte.eqb c "0" = false) as Hc by (apply byte_eqb_neq; intros ->; by apply Hz).
  pose proof (digits_value_lower c ds Hd Hc) as Hlow. pose proof (digits_value_range _ Hd).
  assert (length ds <= 19)%nat as Hlen.
  { destruct (Nat.leb_spec (length ds) 19); [done|exfalso].
    assert (10 ^ 20 <= 10 ^ blen ds) by (apply Z.pow_le_mono_r; lia). lia. }
  unfold to_string. destruct (Z.ltb_spec (digits_value (c :: ds)) 0); [lia|].
  rewrite dec_digits_value; [by rewrite app_nil_r|cbn [length]; lia|done|].
  destruct ds; [done|]. cbn. by rewrite Hc.
Qed.

Lemma text_positive n : 0 < n < 2 ^ 63 ->
  to_string n <> [] /\ head (to_string n) <> Some (chr "0") /\ forallb is_digit (to_string n) = true.
Proof.
  intros Hn. unfold to_string. destruct (Z.ltb_spec n 0); [lia|].
  destruct (dec_digits_shape 20 n) as (ds & Hds & Hd & Hz & Hv & _); [lia|lia|].
  rewrite Hds, app_nil_r. destruct ds as [|c ds]; [done|]. split_and!; [done| |done].
  intros [= ->]. destruct ds; [|done]. unfold digits_value in Hv. cbn in Hv. lia.
Qed.

(** *** Which codec *)

(** A codec is used only when compression is on and the client listed it; it is
    announced in [Content-Encoding] exactly when the standard header lists it. *)
Lemma first_codec_spec standard preferred codec h :
  first_codec standard preferred = {| cc_codec := codec; cc_standard_header := h |} -> codec <> [] ->
  (codec = str "zstd" \/ codec = str "gzip") /\ codec ∈ preferred /\ h = accepts standard codec
  /\ exists before after, preferred = before ++ codec :: after
       /\ Forall (fun t => t <> str "identity" /\ t <> str "zstd" /\ t <> str "gzip") before.
Proof.
  induction preferred as [|t preferred IH]; cbn [first_codec]; [by intros [= <- _]|].
  case_bool_decide as Hi; [by intros [= <- _]|].
  destruct (negb (bool_decide (t = str "zstd")) && negb (bool_decide (t = str "gzip"))) eqn:Et.
  - intros E Hne. destruct (IH E Hne) as (Hc & Hin & Hh & before & after & -> & Hb).
    apply andb_prop in Et as [Hz%negb_true_iff%bool_decide_eq_false Hg%negb_true_iff%bool_decide_eq_false].
    split_and!; [done|set_solver|done|]. exists (t :: before), after. split; [done|]. by constructor.
  - intros [= <- <-] _. split_and!; [|set_solver|done|by exists [], preferred].
    apply andb_false_iff in Et as [E|E]; apply negb_false_iff, bool_decide_eq_true in E; auto.
Qed.

(** *** Stream tokens *)

(** The associated data of stream tokens determines the caller's and the
    protocol: a token of one identity or protocol opens under no other. *)
Lemma stream_aad_binds aad aad' protocol protocol' :
  is_protocol_name protocol = true -> is_protocol_name protocol' = true ->
  stream_aad aad protocol = stream_aad aad' protocol' -> aad = aad' /\ protocol = protocol'.
Proof.
  intros Hp Hp' E. unfold stream_aad in E. apply (f_equal (@rev byte)) in E.
  rewrite !rev_app_distr in E. cbn [rev app] in E. rewrite <- !app_assoc in E. cbn [app] in E.
  assert (forall p, is_protocol_name p = true -> x1f ∉ rev p) as Hrev.
  { intros p Hn. rewrite list_elem_of_In, <- in_rev, <- list_elem_of_In. by apply protocol_name_no_separator. }
  apply app_sep_inj in E as [E1 E2]; [|by apply Hrev..].
  apply (f_equal (@rev byte)) in E1, E2. by rewrite !rev_involutive in *.
Qed.

(** ** Properties *)

(** C20: a path is routed to exactly what its segments spell: a reserved server-level
    name, or the name of a hosted protocol (by its grammar, byte for byte,
    undecoded) and a segment that is not empty, taken for the name of a method;
    each possibly followed by [init] or [exchange] and by nothing else.  Every other path is refused.
    Whether the protocol has such a method is not a matter of the route.  So an
    application method of a server whose protocol has no name has no route:
    comments of the code promise it a flat one. *)
Theorem route_path_iff hosted hosts_identity path r :
  (route_path hosted hosts_identity path = r /\ rt_error r = NO_ROUTE_ERROR)
  <-> exists segments, path = join_with "/" segments /\ Forall (fun s => "/"%byte ∉ s) segments
        /\ addresses hosted hosts_identity segments r.
Proof.
  split.
  - intros [Hr He]. exists (split_path path). destruct (split_path_join path) as [Hj Hs].
    split_and!; [done|done|by apply route_sound].
  - intros (segments & -> & Hs & Ha). split; [by apply route_complete|]. by destruct Ha.
Qed.

(** The declared response budget is accepted exactly when the header is absent
    or is there once, as the decimal text of an integer from 65536 to the largest
    safe one, without sign, space or leading zero. *)
Theorem accepted_limit_iff req limit :
  parse_accepted_response_limit req = inr limit <->
  match limit with
  | None => rh_headers req ACCEPT_MAX_RESPONSE_BYTES_HEADER = []
  | Some n => MIN_RESPONSE_BYTES <= n <= MAX_SAFE_RESPONSE_BYTES
              /\ rh_headers req ACCEPT_MAX_RESPONSE_BYTES_HEADER = [to_string n]
  end.
Proof.
  unfold parse_accepted_response_limit, get_header_value_count, get_header_value.
  destruct (rh_headers req _) as [|raw [|raw' rest]]; cbn [length head default]; unfold id.
  - destruct limit; [|done]. split; [done|]. by intros [_ ?].
  - change (1 <? Z.of_nat 1) with false. change (Z.of_nat 1 =? 0) with false. cbv beta iota zeta.
    set (digits := bool_decide _ && _ && _). split.
    + destruct digits eqn:Ed; [|done]. unfold digits in Ed.
      apply andb_prop in Ed as [[Hne%bool_decide_eq_true Hz%negb_true_iff%bool_decide_eq_false]%andb_prop Hd].
      destruct (stoll raw) as [[v n]|] eqn:Es; [|done]. destruct (_ || _) eqn:Eb; [done|]. intros [= <-].
      apply orb_false_iff in Eb as [[_ Hlo%Z.ltb_ge]%orb_false_iff Hhi%Z.ltb_ge].
      split; [by split|]. f_equal. by apply (positive_text raw v n).
    + destruct limit as [n|]; [|done]. intros (Hn & [= ->]).
      assert (65536 <= n <= 9007199254740991) as Hn' by apply Hn.
      destruct (text_positive n) as (Hne & Hz & Hd); [lia|].
      assert (digits = true) as Ed.
      { unfold digits. by rewrite (bool_decide_eq_true_2 _ Hne), (bool_decide_eq_false_2 _ Hz), Hd. }
      rewrite Ed, stoll_to_string by lia. rewrite Nat.eqb_refl. cbn [negb orb].
      rewrite (proj2 (Z.ltb_ge n _)), (proj2 (Z.ltb_ge _ n)) by apply Hn. done.
  - rewrite (proj2 (Z.ltb_lt _ _)) by lia. split; [done|]. destruct limit; [by intros [_ ?]|done].
Qed.
