(* ===== verification/HttpAuth.v ===== *)
(** * Who calls over HTTP (src/src/http_transport.cpp, include/vgi_rpc/http_config.h)

    The configuration and the constructor of [HttpServer], the proof of the proxy,
    the deployment's own authenticators and the identity bearers, and the refusals.
    Authenticators, identity providers and resolvers are the deployment's:
    functions of the application's state.  Clocks are arguments. *)

From S2P Require Import Prelude Arrow Json Crypto IdentityInternal Grants Errors PeerIdentity.
From S2P Require Import FloatText ProxyProof Wire TokenIdentity Calls External HttpRoute.

(** ** Reasons *)

Inductive AuthReason :=
  | NONE | MISSING_CREDENTIAL | INVALID_CREDENTIAL | EXPIRED_CREDENTIAL | INSUFFICIENT_SCOPE
  | PROXY_REQUIRED | UNAUTHORIZED.

#[export] Instance AuthReason_eq_decision : EqDecision AuthReason.
Proof. solve_decision. Defined.

Definition auth_reason_name (reason : AuthReason) : bytes :=
  match reason with
  | NONE => []
  | MISSING_CREDENTIAL => str "missing_credential"
  | INVALID_CREDENTIAL => str "invalid_credential"
  | EXPIRED_CREDENTIAL => str "expired_credential"
  | INSUFFICIENT_SCOPE => str "insufficient_scope"
  | PROXY_REQUIRED => str "proxy_required"
  | UNAUTHORIZED => str "unauthorized"
  end.

Definition auth_reason_from_name (name : bytes) : option AuthReason :=
  if bool_decide (name = str "missing_credential") then Some MISSING_CREDENTIAL
  else if bool_decide (name = str "invalid_credential") then Some INVALID_CREDENTIAL
  else if bool_decide (name = str "expired_credential") then Some EXPIRED_CREDENTIAL
  else if bool_decide (name = str "insufficient_scope") then Some INSUFFICIENT_SCOPE
  else if bool_decide (name = str "unauthorized") then Some UNAUTHORIZED
  else None.

(** ** Configuration *)

Record AuthIdentity := {
  ai_authenticated : bool;
  ai_domain : bytes;
  ai_principal : bytes;
  ai_claims : json;
}.

Abbreviation PeerIdentityProvider App :=
  (PeerResolutionContext -> App -> hook_result PeerIdentityResult * App).
Abbreviation PeerAuthenticationPolicy := (PeerEvidenceSet -> AuthContext -> res AuthContext).
Abbreviation BearerAuthenticator App := (bytes -> App -> hook_result (option AuthContext) * App).

(** A provider or a function that is empty is [None]; a [std::map] is in key
    order; the timeout is milliseconds. *)
Record HttpConfig (App : Type) := {
  prefix : bytes;
  max_response_bytes : Z;
  max_externalized_response_bytes : Z;
  max_request_bytes : Z;
  external_storage_url : bytes;
  externalize_threshold : Z;
  externalize_compression : bytes;
  compression : bool;
  cors_origin : bytes;
  sticky : bool;
  sticky_default_ttl : Z;
  sticky_echo_headers : list (bytes * bytes);
  sticky_header_auth : bool;
  token_key : bytes;
  call_state_cache : bool;
  reject_all : AuthReason;
  honour_requested_auth_reason : bool;
  proof_mode : ProofMode;
  proof_origin_id : bytes;
  proof_secrets : bytes;
  proof_skew_seconds : Z;
  proof_replay_cache : bool;
  peer_identity_providers : list (option (PeerIdentityProvider App));
  peer_authentication_policy : option PeerAuthenticationPolicy;
  peer_service_name : option bytes;
  peer_identity_resolution_timeout : Z;
  hosting_max_request_bytes : Z;
  hosting_max_response_bytes : Z;
  preferred_response_bytes : Z;
  max_upload_bytes : Z;
  bearer_authenticate : option (BearerAuthenticator App);
  identity_bearer : bool;
  bearer_optional : bool;
}.
Arguments prefix {App} _.
Arguments max_response_bytes {App} _.
Arguments max_externalized_response_bytes {App} _.
Arguments max_request_bytes {App} _.
Arguments external_storage_url {App} _.
Arguments externalize_threshold {App} _.
Arguments externalize_compression {App} _.
Arguments compression {App} _.
Arguments cors_origin {App} _.
Arguments sticky {App} _.
Arguments sticky_default_ttl {App} _.
Arguments sticky_echo_headers {App} _.
Arguments sticky_header_auth {App} _.
Arguments token_key {App} _.
Arguments call_state_cache {App} _.
Arguments reject_all {App} _.
Arguments honour_requested_auth_reason {App} _.
Arguments proof_mode {App} _.
Arguments proof_origin_id {App} _.
Arguments proof_secrets {App} _.
Arguments proof_skew_seconds {App} _.
Arguments proof_replay_cache {App} _.
Arguments peer_identity_providers {App} _.
Arguments peer_authentication_policy {App} _.
Arguments peer_service_name {App} _.
Arguments peer_identity_resolution_timeout {App} _.
Arguments hosting_max_request_bytes {App} _.
Arguments hosting_max_response_bytes {App} _.
Arguments preferred_response_bytes {App} _.
Arguments max_upload_bytes {App} _.
Arguments bearer_authenticate {App} _.
Arguments identity_bearer {App} _.
Arguments bearer_optional {App} _.

Definition proof_required {App} (cfg : HttpConfig App) : bool := bool_decide (proof_mode cfg = REQUIRE).
Definition externalization {App} (cfg : HttpConfig App) : bool := bool_decide (external_storage_url cfg <> []).

(** ** Bearers *)

Section bearers.
Context {App : Type} (cfg : HttpConfig App) (identity : option (TokenIdentity.IdentityImpl App)).

Definition identity_bearer_active : bool :=
  identity_bearer cfg
  && match identity with
     | Some i => bool_decide (is_Some (grant_keys_ i)) || bool_decide (is_Some (resolve_token_ i))
     | None => false
     end.

Definition bearer_chain_active : bool := bool_decide (is_Some (bearer_authenticate cfg)) || identity_bearer_active.
End bearers.

(** ** The constructor *)

Definition byte_limit_text (name : bytes) (least : bytes) : bytes :=
  name ++ str " must be between " ++ least ++ str " and 9007199254740991".

(** The two loops over the limits. *)
Fixpoint check_response_limits (limits : list (Z * bytes)) : res unit :=
  match limits with
  | [] => Ok tt
  | (value, name) :: limits' =>
      _ ← throw_if ((0 <=? value) && ((value <? MIN_RESPONSE_BYTES) || (MAX_SAFE_RESPONSE_BYTES <? value)))
            (InvalidArgument (byte_limit_text name (str "65536")));
      check_response_limits limits'
  end.
Fixpoint check_request_limits (limits : list (Z * bytes)) : res unit :=
  match limits with
  | [] => Ok tt
  | (value, name) :: limits' =>
      _ ← throw_if ((0 <=? value) && ((value =? 0) || (MAX_SAFE_RESPONSE_BYTES <? value)))
            (InvalidArgument (byte_limit_text name (str "1")));
      check_request_limits limits'
  end.

Record HttpServer (App : Type) := {
  cfg_ : HttpConfig App;
  storage_ : option (ExternalStorage App);
}.
Arguments cfg_ {App} _.
Arguments storage_ {App} _.

(** [HttpServer::HttpServer]: the server and its proof verifier.
    [make_external_storage] builds the backend of the configured URL. *)
Definition new_HttpServer {App} (make_external_storage : HttpConfig App -> res (ExternalStorage App))
    (cfg : HttpConfig App) (identity : option (TokenIdentity.IdentityImpl App)) : res (HttpServer App * ProofVerifier) :=
  proof ← new_verifier (proof_mode cfg) (proof_origin_id cfg) (proof_secrets cfg)
            (proof_skew_seconds cfg) (proof_replay_cache cfg) 100000;
  _ ← throw_if (peer_identity_resolution_timeout cfg <=? 0)
        (InvalidArgument (str "peer identity resolution timeout must be positive"));
  _ ← check_response_limits
        [(max_response_bytes cfg, str "max_response_bytes");
         (hosting_max_response_bytes cfg, str "hosting_max_response_bytes");
         (preferred_response_bytes cfg, str "preferred_response_bytes")];
  _ ← check_request_limits
        [(max_request_bytes cfg, str "max_request_bytes");
         (hosting_max_request_bytes cfg, str "hosting_max_request_bytes")];
  _ ← throw_if (bool_decide (is_Some (peer_authentication_policy cfg)) && identity_bearer_active cfg identity)
        (InvalidArgument (str "this server authenticates from peer evidence (peer_authentication_policy), and accepting sealed grants or resolve_token bearers would be an OR beside it that bypasses that requirement. Compose the bearer check into the policy yourself and set HttpConfig::identity_bearer = false."));
  _ ← throw_if (bool_decide (is_Some (peer_authentication_policy cfg))
                && bool_decide (peer_identity_providers cfg = []))
        (InvalidArgument (str "peer authentication policy requires at least one identity provider"));
  storage ← (if bool_decide (external_storage_url cfg <> []) then
               s ← make_external_storage cfg; Ok (Some s)
             else Ok None);
  Ok ({| cfg_ := cfg; storage_ := storage |}, proof).

(** ** Identities *)

(** How an authentication ends without an identity: [AuthUnavailableError],
    [BearerRejected], or any other exception. *)
Inductive auth_error :=
  | AuthUnavailable (detail : bytes) (retry_after : Z)
  | BearerRejected (reason : AuthReason)
  | AuthThrew.

Definition Auth (App A : Type) : Type := App -> (auth_error + A) * App.

#[export] Instance Auth_ret App : MRet (Auth App) := fun A a app => (inr a, app).
#[export] Instance Auth_bind App : MBind (Auth App) := fun A B f m app =>
  match m app with
  | (inr a, app) => f a app
  | (inl e, app) => (inl e, app)
  end.

Definition auth_fail {App A} (e : auth_error) : Auth App A := fun app => (inl e, app).

Definition auth_lift {App A} (r : res A) : Auth App A := fun app =>
  (match r with
   | Ok a => inr a
   | Throw (PeerIdentityUnavailable what) => inl (AuthUnavailable what 5)
   | Throw _ => inl AuthThrew
   end, app).

(** A call of the deployment's code. *)
Definition auth_hook {App A} (hook : App -> hook_result A * App) : Auth App A := fun app =>
  match hook app with
  | (HookOk a, app) => (inr a, app)
  | (HookUnavailable detail retry_after, app) => (inl (AuthUnavailable detail retry_after), app)
  | (HookIdentityUnavailable _ _, app) | (HookThrew _, app) => (inl AuthThrew, app)
  end.

Definition PRINCIPAL_HEADER : bytes := str "X-Conformance-Principal".
Definition AUTH_TIME_HEADER : bytes := str "X-Conformance-Auth-Time".
Definition AUTH_REASON_REQUEST_HEADER : bytes := str "X-Conformance-Auth-Reason".
Definition PROOF_HEADER : bytes := str "VGI-Proxy-Proof".
Definition kBearer : bytes := str "Bearer ".

Definition no_auth_identity : AuthIdentity :=
  {| ai_authenticated := false; ai_domain := []; ai_principal := []; ai_claims := JObject [] |}.

Definition identify {App} (cfg : HttpConfig App) (req : HttpRequestHead) : AuthIdentity :=
  if sticky_header_auth cfg && has_header req PRINCIPAL_HEADER then
    let principal := get_header_value req PRINCIPAL_HEADER in
    if bool_decide (principal <> []) then
      {| ai_authenticated := true; ai_domain := str "conformance"; ai_principal := principal;
         ai_claims :=
           if has_header req AUTH_TIME_HEADER then
             JObject [(str "auth_time", JString (get_header_value req AUTH_TIME_HEADER))]
           else JObject [] |}
    else no_auth_identity
  else no_auth_identity.

(** *** The deployment's authenticators *)

Definition socket_endpoint (address : bytes) (port : Z) : bytes :=
  if existsb (Byte.eqb ":") address
     && negb (bool_decide (head address = Some (chr "[")) && bool_decide (last address = Some (chr "]"))) then
    str "[" ++ address ++ str "]:" ++ to_string port
  else address ++ str ":" ++ to_string port.

(** [headers[name].push_back(value)] in a [std::map]. *)
Fixpoint push_header (name value : bytes) (hs : list (bytes * list bytes)) : list (bytes * list bytes) :=
  match hs with
  | [] => [(name, [value])]
  | (n, vs) :: hs' =>
      if bool_decide (n = name) then (n, vs ++ [value]) :: hs'
      else if bytes_ltb name n then (name, [value]) :: hs
      else (n, vs) :: push_header name value hs'
  end.

(** [now] is the steady clock in milliseconds. *)
Definition resolution_context {App} (cfg : HttpConfig App) (req : HttpRequestHead) (now : Z)
    : PeerResolutionContext :=
  let source := if bool_decide (rh_remote_addr req <> [])
                then Some (socket_endpoint (rh_remote_addr req) (rh_remote_port req)) else None in
  let host := get_header_value req (str "Host") in
  {| pc_transport := str "http";
     immediate_peer := if bool_decide (rh_remote_addr req <> []) then Some (rh_remote_addr req) else None;
     source_endpoint := source;
     asserted_peer := None;
     pc_destination_address :=
       if bool_decide (rh_local_addr req <> [])
       then Some (socket_endpoint (rh_local_addr req) (rh_local_port req)) else None;
     authority := if bool_decide (host <> []) then Some host else None;
     service_name := peer_service_name cfg;
     headers := foldl (fun hs f => push_header f.1 f.2 hs) [] (rh_fields req);
     pc_metadata :=
       JObject (set_member (str "request_uri") (JString (rh_path req))
                  match source with
                  | Some s => set_member (str "remote_addr") (JString s) []
                  | None => []
                  end);
     deadline := now + peer_identity_resolution_timeout cfg |}.

Section resolve.
Context {J : JsonText} {D : Digests} {aead : Aead} {App : Type}.

(** The loop over the providers. *)
Fixpoint ask_providers (providers : list (option (PeerIdentityProvider App))) (context : PeerResolutionContext)
    : Auth App (list PeerIdentityResult) :=
  match providers with
  | [] => mret []
  | None :: _ => auth_lift (Throw (PeerIdentityRejected (str "peer identity provider is empty")))
  | Some provider :: providers' =>
      result ← auth_hook (provider context);
      _ ← auth_lift (PeerIdentityResult_validate result);
      results ← ask_providers providers' context;
      mret (result :: results)
  end.

(** The identity before the evidence of the peer. *)
Definition application_auth (cfg : HttpConfig App) (req : HttpRequestHead) : AuthContext :=
  let application := identify cfg req in
  {| auth_domain := ai_domain application; authenticated := ai_authenticated application;
     auth_principal := if ai_authenticated application then Some (ai_principal application) else None;
     auth_claims := if ai_authenticated application then ai_claims application else JObject [] |}.

Definition resolve_deployment_identity (cfg : HttpConfig App) (req : HttpRequestHead) (now : Z)
    : Auth App (AuthContext * PeerEvidenceSet) :=
  let auth := application_auth cfg req in
  if bool_decide (peer_identity_providers cfg = []) then mret (auth, no_evidence)
  else if peer_identity_resolution_timeout cfg <=? 0 then
    auth_lift (Throw (InvalidArgument (str "peer identity resolution timeout must be positive")))
  else
    let context := resolution_context cfg req now in
    _ ← auth_lift (PeerResolutionContext_validate context);
    results ← ask_providers (peer_identity_providers cfg) context;
    evidence ← auth_lift (new_PeerEvidenceSet results);
    match peer_authentication_policy cfg with
    | Some policy => auth ← auth_lift (policy evidence auth); mret (auth, evidence)
    | None => mret (auth, evidence)
    end.

(** *** The bearers *)

Definition grant_auth (claims : GrantClaims) : AuthContext :=
  {| auth_domain := str "grant"; authenticated := true; auth_principal := Some (principal claims);
     auth_claims := jobject [(str "grant_id", JString (grant_id claims));
                             (str "scopes", JArray (map JString (scopes claims)));
                             (str "purpose", JString (purpose claims))] |}.

Definition token_auth (found : TokenIdentity) : AuthContext :=
  {| auth_domain := str "token"; authenticated := true; auth_principal := Some (ti_principal found);
     auth_claims := jobject [(str "token_name", JString (ti_token_name found))] |}.

Definition grant_shaped (token : bytes) : bool := starts_with kGrantTokenPrefix token.

(** [wall] is the wall clock. *)
Definition grant_bearer (keys : GrantKeys) (wall : binary64) (token : bytes) : Auth App AuthContext :=
  match verify_grant_token wall keys token None with
  | Ok claims => mret (grant_auth claims)
  | Throw (GrantInvalidError _ expired) =>
      auth_fail (BearerRejected (if expired then EXPIRED_CREDENTIAL else INVALID_CREDENTIAL))
  | Throw _ => auth_fail AuthThrew
  end.

(** The call of [resolve_token]; [None] falls through to the refusal. *)
Definition ask_resolver (resolve_token : ResolveTokenHook App) (token : bytes) : Auth App (option TokenIdentity) :=
  fun app =>
  match resolve_token token app with
  | (HookOk found, app) => (inr found, app)
  | (HookIdentityUnavailable detail retry_after, app) =>
      (inl (AuthUnavailable (match detail with [] => str "identity lookup unavailable" | _ => detail end)
              retry_after), app)
  | (HookUnavailable detail retry_after, app) => (inl (AuthUnavailable detail retry_after), app)
  | (HookThrew _, app) => (inl AuthThrew, app)
  end.

Definition shaped_ok (token : bytes) : bool :=
  match (reject_jws_shaped (St := unit) token tt).1 with Done _ => true | Raised _ => false end.

Definition identity_bearers (identity : TokenIdentity.IdentityImpl App) (wall : binary64) (token : bytes)
    : Auth App AuthContext :=
  let refuse := auth_fail (BearerRejected INVALID_CREDENTIAL) in
  match (if grant_shaped token then grant_keys_ identity else None) with
  | Some keys => grant_bearer keys wall token
  | None =>
      match (if negb (grant_shaped token) && shaped_ok token then resolve_token_ identity else None) with
      | Some resolve_token =>
          found ← ask_resolver resolve_token token;
          match found with Some found => mret (token_auth found) | None => refuse end
      | None => refuse
      end
  end.

(** [HttpServer::resolve_http_identity]. *)
Definition resolve_http_identity (cfg : HttpConfig App) (identity : option (TokenIdentity.IdentityImpl App))
    (req : HttpRequestHead) (now : Z) (wall : binary64) : Auth App (AuthContext * PeerEvidenceSet) :=
  let refuse := auth_fail (BearerRejected INVALID_CREDENTIAL) in
  resolved ← resolve_deployment_identity cfg req now;
  if authenticated resolved.1 || negb (bearer_chain_active cfg identity) then mret resolved
  else
    let header := get_header_value req (str "Authorization") in
    if bool_decide (header = []) then
      if bool_decide (is_Some (bearer_authenticate cfg)) && negb (bearer_optional cfg) then refuse
      else mret resolved
    else if negb (starts_with kBearer header) then refuse
    else
      let token := drop (length kBearer) header in
      accepted ← match bearer_authenticate cfg with
                 | Some authenticate => auth_hook (authenticate token)
                 | None => mret None
                 end;
      match accepted with
      | Some auth => mret (auth, resolved.2)
      | None =>
          match (if identity_bearer_active cfg identity then identity else None) with
          | None => refuse
          | Some impl => auth ← identity_bearers impl wall token; mret (auth, resolved.2)
          end
      end.
End resolve.

(** ** Lemmas *)

Section auth_monad.
Context {App : Type}.

Lemma auth_bind_inv {A B} (m : Auth App A) (f : A -> Auth App B) app b app' :
  (m ≫= f) app = (inr b, app') -> exists a app1, m app = (inr a, app1) /\ f a app1 = (inr b, app').
Proof. unfold mbind, Auth_bind. destruct (m app) as [[e|a] app1]; [done|eauto]. Qed.

Lemma auth_bind_done {A B} (m : Auth App A) (f : A -> Auth App B) app a app1 :
  m app = (inr a, app1) -> (m ≫= f) app = f a app1.
Proof. unfold mbind, Auth_bind. by intros ->. Qed.

Lemma auth_ret_inv {A} (a : A) (app : App) b app' :
  (mret a : Auth App A) app = (inr b, app') -> a = b /\ app = app'.
Proof. by intros [= -> ->]. Qed.

Lemma auth_lift_done {A} (r : res A) (app : App) a app' :
  auth_lift r app = (inr a, app') -> r = Ok a /\ app' = app.
Proof. unfold auth_lift. destruct r as [a'|[]]; [by intros [= -> ->]|done..]. Qed.

Lemma auth_hook_done {A} (hook : App -> hook_result A * App) app a app' :
  auth_hook hook app = (inr a, app') -> hook app = (HookOk a, app').
Proof. unfold auth_hook. by destruct (hook app) as [[] ?]; [intros [= -> ->]|..]. Qed.
End auth_monad.

Lemma shaped_ok_iff token : shaped_ok token = true <-> acceptable token.
Proof.
  unfold shaped_ok. destruct (reject_iff tt token) as [[-> Ha]|[-> Ha]]; cbn; [by split|].
  split; [done|]. by intros.
Qed.

Lemma starts_with_split p s : starts_with p s = true -> s = p ++ drop (length p) s.
Proof. unfold starts_with. intros H%bool_decide_eq_true. rewrite <- H at 1. by rewrite take_drop. Qed.

Section resolved.
Context {J : JsonText} {D : Digests} {aead : Aead} {App : Type}.
Context (cfg : HttpConfig App) (identity : option (TokenIdentity.IdentityImpl App)) (req : HttpRequestHead).

(** The credential of the request. *)
Definition bearer_token (token : bytes) : Prop :=
  get_header_value req (str "Authorization") = kBearer ++ token.

(** What may establish the identity of a caller, with the evidence of its peer. *)
Inductive established (now : Z) (wall : binary64) : AuthContext -> PeerEvidenceSet -> Prop :=
  | By_fixture principal claims evidence :
      sticky_header_auth cfg = true -> peer_authentication_policy cfg = None ->
      get_header_value req PRINCIPAL_HEADER = principal -> principal <> [] ->
      established now wall {| auth_domain := str "conformance"; authenticated := true;
                          auth_principal := Some principal; auth_claims := claims |} evidence
  | By_policy policy app app' results auth evidence :
      peer_authentication_policy cfg = Some policy ->
      ask_providers (peer_identity_providers cfg) (resolution_context cfg req now) app = (inr results, app') ->
      new_PeerEvidenceSet results = Ok evidence ->
      policy evidence (application_auth cfg req) = Ok auth ->
      established now wall auth evidence
  | By_deployment_bearer authenticate token app app' auth evidence :
      bearer_authenticate cfg = Some authenticate -> bearer_token token ->
      authenticate token app = (HookOk (Some auth), app') -> established now wall auth evidence
  | By_grant impl keys token claims evidence :
      identity_bearer cfg = true -> identity = Some impl -> grant_keys_ impl = Some keys ->
      bearer_token token -> verify_grant_token wall keys token None = Ok claims ->
      established now wall (grant_auth claims) evidence
  | By_resolver impl resolve_token token app app' found evidence :
      identity_bearer cfg = true -> identity = Some impl -> resolve_token_ impl = Some resolve_token ->
      bearer_token token -> acceptable token -> grant_shaped token = false ->
      resolve_token token app = (HookOk (Some found), app') -> established now wall (token_auth found) evidence.

Lemma deployment_established now wall app auth evidence app' :
  resolve_deployment_identity cfg req now app = (inr (auth, evidence), app') ->
  authenticated auth = true ->
  (peer_identity_providers cfg = [] -> peer_authentication_policy cfg = None) ->
  established now wall auth evidence.
Proof.
  unfold resolve_deployment_identity. cbv zeta.
  assert (forall evidence, peer_authentication_policy cfg = None -> authenticated (application_auth cfg req) = true ->
    established now wall (application_auth cfg req) evidence) as Hfix.
  { intros ev Hp. unfold application_auth. cbn [authenticated]. unfold identify. destruct (sticky_header_auth cfg && has_header req PRINCIPAL_HEADER) eqn:Es; [|done].
    case_bool_decide as Hne; [|done]. intros _. apply andb_prop in Es as [Es _]. by apply By_fixture. }
  intros E Ha Hprov. revert E. case_bool_decide as Hnil.
  - intros [= <- <- <-]. apply Hfix; auto.
  - destruct (_ <=? 0); [done|].
    intros (u & app1 & E1 & (results & app2 & E2 & (ev & app3 & [Eev ->]%auth_lift_done & E)%auth_bind_inv)%auth_bind_inv)%auth_bind_inv.
    destruct (peer_authentication_policy cfg) as [policy|] eqn:Ep.
    + apply auth_bind_inv in E as (a & app4 & [Epol ->]%auth_lift_done & [= <- <- <-]). by eapply By_policy.
    + injection E as <- <- <-. by apply Hfix.
Qed.

Lemma identity_bearers_established impl now wall token app auth app' evidence :
  identity_bearer cfg = true -> identity = Some impl -> bearer_token token ->
  identity_bearers impl wall token app = (inr auth, app') -> established now wall auth evidence.
Proof.
  intros Hb Hi Ht. unfold identity_bearers.
  destruct (if grant_shaped token then grant_keys_ impl else None) as [keys|] eqn:Ek.
  - destruct (grant_shaped token) eqn:Eg; [|done]. unfold grant_bearer.
    destruct (verify_grant_token wall keys token None) as [claims|[]] eqn:Ev; try done.
    intros [= <- <-]. by eapply By_grant.
  - destruct (if negb (grant_shaped token) && shaped_ok token then resolve_token_ impl else None)
      as [resolve_token|] eqn:Er; [|done].
    destruct (grant_shaped token) eqn:Eg; cbn [negb andb] in Er; [done|].
    destruct (shaped_ok token) eqn:Es; [|done]. apply shaped_ok_iff in Es.
    intros ([found|] & app1 & Eask & E)%auth_bind_inv; [|done]. injection E as <- <-.
    unfold ask_resolver in Eask. destruct (resolve_token token app) as [[] ?] eqn:Ec; try done.
    injection Eask as -> ->. by eapply By_resolver.
Qed.
End resolved.

(** *** Grants as bearers *)

Section grants.
Context {J : JsonText} {D : Digests} {aead : Aead} {App : Type}.

Lemma verified_grant_shaped wall keys token now claims :
  verify_grant_token wall keys token now = Ok claims -> grant_shaped token = true.
Proof.
  unfold verify_grant_token, grant_shaped, starts_with. by destruct (bool_decide (take _ token = _)).
Qed.

(** A caller that a grant authenticated has no login time, so it mints nothing. *)
Lemma grant_auth_never_mints (self : TokenIdentity.IdentityImpl App) mint env purpose scopes ttl claims app :
  mint_grant_ self = Some mint ->
  exists what, issue_grant self env purpose scopes ttl (grant_auth claims) app = (Raised (StaleAuthError what), app).
Proof.
  intros Hm. unfold issue_grant, check_freshness. rewrite Hm. cbn [grant_auth authenticated auth_principal auth_claims negb orb].
  unfold mbind, M_bind. destruct (principal claims); [by eexists|]. rewrite jobject_find. by eexists.
Qed.

(** With no earlier answer, the bearer is left to the identity. *)
Lemma bearer_left_to_identity cfg impl req now wall token app auth evidence app1 app2 :
  resolve_deployment_identity cfg req now app = (inr (auth, evidence), app1) -> authenticated auth = false ->
  bearer_token req token -> identity_bearer_active cfg (Some impl) = true ->
  match bearer_authenticate cfg with
  | Some authenticate => authenticate token app1 = (HookOk None, app2)
  | None => app2 = app1
  end ->
  resolve_http_identity cfg (Some impl) req now wall app
  = ((auth ← identity_bearers impl wall token; mret (auth, evidence)) : Auth App _) app2.
Proof.
  intros Ed Ha Ht Hact Hb. unfold resolve_http_identity. rewrite (auth_bind_done _ _ _ _ _ Ed). cbn [fst snd].
  unfold bearer_chain_active. rewrite Ha, Hact, orb_true_r. cbn [negb orb].
  unfold bearer_token in Ht. rewrite Ht. rewrite bool_decide_eq_false_2 by done.
  assert (starts_with kBearer (kBearer ++ token) = true) as ->
    by (unfold starts_with; apply bool_decide_eq_true; by rewrite take_app_length).
  cbn [negb]. rewrite drop_app_length.
  destruct (bearer_authenticate cfg) as [authenticate|]; [|by subst].
  by rewrite (auth_bind_done _ _ app1 None app2) by (unfold auth_hook; by rewrite Hb).
Qed.

(** A token with the prefix of a grant is the verifier's alone. *)
Lemma grant_decides impl keys wall token (app : App) :
  grant_keys_ impl = Some keys -> grant_shaped token = true ->
  identity_bearers impl wall token app = grant_bearer keys wall token app.
Proof. intros Hk Hg. unfold identity_bearers. by rewrite Hg, Hk. Qed.
End grants.

(** ** Properties *)

Section properties.
Context {J : JsonText} {D : Digests} {aead : Aead} {App : Type}.

(** C21: a caller is authenticated only by a credential the deployment accepts: the
    fixture header when it is enabled and no peer policy is set, the peer policy on
    the evidence of the providers, the deployment's own authenticator, a sealed
    grant that verifies, or the resolver for an acceptable token that is not a
    grant.  The last two need the identity bearers, and on a server that was built
    they never stand beside a peer policy. *)
Theorem authenticated_only_by_credential make_storage (cfg : HttpConfig App) identity server proof
    req now wall app auth evidence app' :
  new_HttpServer make_storage cfg identity = Ok (server, proof) ->
  resolve_http_identity cfg identity req now wall app = (inr (auth, evidence), app') ->
  authenticated auth = true ->
  established cfg identity req now wall auth evidence
  /\ (is_Some (peer_authentication_policy cfg) -> identity_bearer_active cfg identity = false).
Proof.
  intros Hnew E Ha. unfold new_HttpServer in Hnew. inv_res.
  assert (is_Some (peer_authentication_policy cfg) ->
    identity_bearer_active cfg identity = false /\ peer_identity_providers cfg <> []) as Hpol.
  { intros Hp. rewrite (bool_decide_eq_true_2 _ Hp) in *. cbn [andb] in *.
    split; [done|]. by eapply bool_decide_eq_false. }
  split; [|intros Hp; by apply Hpol].
  unfold resolve_http_identity in E. apply auth_bind_inv in E as ([auth1 ev1] & app1 & Edep & E). cbn [fst snd] in E.
  assert (authenticated auth1 = true -> established cfg identity req now wall auth1 ev1) as Hdep.
  { intros Ha1. eapply deployment_established; [done..|]. intros Hnil.
    destruct (peer_authentication_policy cfg) eqn:Ep; [|done]. exfalso. by apply (Hpol (mk_is_Some _ _ eq_refl)). }
  destruct (authenticated auth1 || _) eqn:Edone; [apply auth_ret_inv in E as [[= <- <-] _]; by apply Hdep|].
  apply orb_false_iff in Edone as [Ha1 _].
  case_bool_decide; [destruct (_ && negb (bearer_optional cfg)); [done|apply auth_ret_inv in E as [[= <- <-] _]; by rewrite Ha1 in Ha]|].
  destruct (starts_with kBearer _) eqn:Eb; cbn [negb] in E; [|done]. apply starts_with_split in Eb.
  set (token := drop (length kBearer) _) in *.
  apply auth_bind_inv in E as (accepted & app2 & Eacc & E). destruct accepted as [auth2|].
  - apply auth_ret_inv in E as [[= <- <-] _]. destruct (bearer_authenticate cfg) as [authenticate|] eqn:Eba; [|done].
    apply auth_hook_done in Eacc. by eapply By_deployment_bearer.
  - destruct (identity_bearer_active cfg identity) eqn:Eact; [|done]. destruct identity as [impl|] eqn:Ei; [|done].
    apply auth_bind_inv in E as (auth2 & app3 & Eid & [[= <- <-] _]%auth_ret_inv).
    eapply identity_bearers_established; [|done|exact Eb|exact Eid].
    by apply andb_prop in Eact as [? _].
Qed.

(** A grant that the identity protocol issued is a bearer credential over HTTP
    while its window is open: it authenticates its caller, with the scopes and the
    purpose that were asked, whatever the resolver would say; a token with the
    prefix that does not verify is refused without asking the resolver; and the
    caller a grant authenticates is never issued another grant. *)
Theorem issued_grant_is_a_bearer `{!AeadLaws aead} `{!DigestLaws D} (options : IdentityOptions App) self keys env
    purpose_ scopes_ ttl auth app g app' cfg req now wall anonymous evidence app1 app2 app3 token :
  new_IdentityImpl options = Ok self -> io_grant_keys options = Some keys -> io_mint_grant options = None ->
  issue_grant self env purpose_ scopes_ ttl auth app = (Done g, app') ->
  identity_bearer cfg = true -> bearer_token req token -> grant_shaped token = true ->
  resolve_deployment_identity cfg req now app1 = (inr (anonymous, evidence), app2) ->
  authenticated anonymous = false ->
  match bearer_authenticate cfg with
  | Some authenticate => authenticate token app2 = (HookOk None, app3)
  | None => app3 = app2
  end ->
  (exists p claims, auth_principal auth = Some p /\ principal claims = p /\ scopes claims = scopes_
     /\ purpose claims = purpose_ /\ ig_grant_id g = grant_id claims
     /\ ig_expires_at g = expires_at claims * 1000000
     /\ expires_at claims = issued_at claims + Z.min ttl (gk_max_ttl_seconds keys)
     /\ (token = ig_token g -> length (mint_random_nonce env) = kAeadNonceBytes -> claims_ok claims ->
         gk_max_ttl_seconds keys < 2 ^ 63 -> blen token <= kMaxGrantTokenChars ->
         not_yet_valid keys claims wall = false -> has_expired keys claims wall = false ->
         resolve_http_identity cfg (Some self) req now wall app1 = (inr (grant_auth claims, evidence), app3)))
  /\ (forall what expired, verify_grant_token wall keys token None = Throw (GrantInvalidError what expired) ->
       resolve_http_identity cfg (Some self) req now wall app1
       = (inl (BearerRejected (if expired then EXPIRED_CREDENTIAL else INVALID_CREDENTIAL)), app3))
  /\ (forall claims env' purpose' scopes' ttl' app4, exists what,
       issue_grant self env' purpose' scopes' ttl' (grant_auth claims) app4
       = (Raised (StaleAuthError what), app4)).
Proof.
  intros Hnew Hk Hm Hissue Hb Ht Hg Hd Ha Hba.
  destruct (new_IdentityImpl_sealed _ _ _ Hnew Hk Hm) as (Hmint & _ & _).
  assert (grant_keys_ self = Some keys) as Hkeys
    by (rewrite <- Hk; revert Hnew; unfold new_IdentityImpl; intros Hnew; inv_res; by subst).
  assert (identity_bearer_active cfg (Some self) = true) as Hact
    by (unfold identity_bearer_active; rewrite Hb, Hkeys; done).
  pose proof (bearer_left_to_identity cfg self req now wall token app1 anonymous evidence app2 app3 Hd Ha Ht Hact Hba)
    as Hres.
  assert (identity_bearers self wall token app3 = grant_bearer keys wall token app3) as Eg
    by by apply grant_decides.
  split_and!.
  - destruct (sealed_grant_names_caller options self keys env purpose_ scopes_ ttl auth app g app' Hnew Hk Hm Hissue)
      as (_ & _ & p & claims & _ & Hp & _ & Hpr & Hs & Hpu & He & Hid & Hex & Hv).
    exists p, claims. split_and!; [done..|]. intros -> Hn Hok Hbig Hlen Hny Hexp.
    rewrite Hres. erewrite auth_bind_done; [reflexivity|]. rewrite Eg. unfold grant_bearer.
    by rewrite (Hv wall None Hn Hok Hbig Hlen Hny Hexp).
  - intros what expired Hv. rewrite Hres. unfold mbind, Auth_bind. rewrite Eg. unfold grant_bearer. by rewrite Hv.
  - intros. by eapply grant_auth_never_mints.
Qed.
End properties.

(** ** Witnesses *)

Section witnesses.
#[local] Existing Instances Toy.digests Toy.digest_laws Toy.aead Toy.aead_laws.
Import Json.ToyJson.

Definition demo_http_config : HttpConfig nat :=
  {| prefix := str "/vgi"; max_response_bytes := -1; max_externalized_response_bytes := -1;
     max_request_bytes := -1; external_storage_url := []; externalize_threshold := 4096;
     externalize_compression := []; compression := true; cors_origin := []; sticky := false;
     sticky_default_ttl := 300; sticky_echo_headers := []; sticky_header_auth := false;
     token_key := replicate 32 x05; call_state_cache := true; reject_all := NONE;
     honour_requested_auth_reason := false; proof_mode := ProxyProof.OFF; proof_origin_id := [];
     proof_secrets := []; proof_skew_seconds := 30; proof_replay_cache := true;
     peer_identity_providers := []; peer_authentication_policy := None; peer_service_name := None;
     peer_identity_resolution_timeout := 1000; hosting_max_request_bytes := -1;
     hosting_max_response_bytes := -1; preferred_response_bytes := -1; max_upload_bytes := 2 ^ 31;
     bearer_authenticate := None; identity_bearer := true; bearer_optional := false |}.

Definition no_storage {App} (cfg : HttpConfig App) : res (ExternalStorage App) :=
  Throw (InvalidArgument (str "unsupported external-storage scheme in: " ++ external_storage_url cfg)).

(** A request whose only header is a bearer. *)
Definition bearer_request (token : bytes) : HttpRequestHead :=
  {| rh_method := str "POST"; rh_target := str "/vgi/p/m"; rh_path := str "/vgi/p/m";
     rh_headers := fun name => if bool_decide (name = str "Authorization") then [kBearer ++ token] else [];
     rh_fields := [(str "Authorization", kBearer ++ token)]; rh_remote_addr := str "10.0.0.1";
     rh_remote_port := 4000; rh_local_addr := str "::1"; rh_local_port := 80 |}.

Lemma authenticated_only_by_credential_witness : exists server proof,
  new_HttpServer no_storage demo_http_config (Some demo_identity) = Ok (server, proof)
  /\ established demo_http_config (Some demo_identity) (bearer_request (str "opaque")) 0 (dbl_of_Z 1000)
       (token_auth {| ti_principal := str "alice"; ti_token_name := str "laptop"; ti_ttl_seconds := 300 |})
       no_evidence.
Proof.
  set (found := {| ti_principal := str "alice"; ti_token_name := str "laptop"; ti_ttl_seconds := 300 |}).
  assert (resolve_http_identity demo_http_config (Some demo_identity) (bearer_request (str "opaque")) 0
            (dbl_of_Z 1000) 0%nat = (inr (token_auth found, no_evidence), 1%nat)) as E by (vm_compute; reflexivity).
  eexists _, _. split; [reflexivity|].
  apply (authenticated_only_by_credential no_storage demo_http_config (Some demo_identity) _ _
    (bearer_request (str "opaque")) 0 (dbl_of_Z 1000) 0%nat (token_auth found) no_evidence 1%nat eq_refl E eq_refl).
Defined.

Lemma issued_grant_is_a_bearer_witness : exists claims,
  resolve_http_identity demo_http_config (Some demo_identity) (bearer_request (ig_token demo_grant)) 0
    (dbl_of_Z 1000) 7%nat = (inr (grant_auth claims, no_evidence), 7%nat)
  /\ principal claims = str "alice" /\ scopes claims = [str "read"].
Proof.
  assert (issue_grant demo_identity demo_env (str "p") [str "read"] 60
            (demo_auth (str "alice") [(str "auth_time", JInteger 900)]) 0%nat = (Done demo_grant, 0%nat))
    as E by (vm_compute; reflexivity).
  destruct (issued_grant_is_a_bearer demo_options demo_identity example_keys demo_env (str "p") [str "read"] 60
    (demo_auth (str "alice") [(str "auth_time", JInteger 900)]) 0%nat demo_grant 0%nat demo_http_config
    (bearer_request (ig_token demo_grant)) 0 (dbl_of_Z 1000)
    (application_auth demo_http_config (bearer_request (ig_token demo_grant))) no_evidence 7%nat 7%nat 7%nat
    (ig_token demo_grant) demo_identity_built eq_refl eq_refl E eq_refl eq_refl)
    as ((p & claims & Hp & Hpr & Hs & Hpu & Hid & Hex & He & Hv) & _); [vm_compute; reflexivity..|].
  injection Hp as <-. exists claims. split_and!; [|done..].
  assert (Hexp : expires_at claims = 1060).
  { assert (ig_expires_at demo_grant = 1060 * 1000000) as E2 by (vm_compute; reflexivity). lia. }
  assert (Hiss : issued_at claims = 1000) by (rewrite Hexp in He; cbn in He; lia).
  assert (Hgid : grant_id claims = hex_encode (str "g1")) by (rewrite <- Hid; vm_compute; reflexivity).
  destruct claims as [pr sc pu gid iss ex]. cbn in *. subst. apply Hv; [reflexivity|reflexivity| | | | |].
  - unfold claims_ok. cbn. split_and!; try (unfold in_i64; lia); try concrete_text.
    apply Forall_singleton. concrete_text.
  - vm_compute; reflexivity.
  - vm_compute; congruence.
  - vm_compute; reflexivity.
  - vm_compute; reflexivity.
Defined.
End witnesses.
