(* ===== verification/HttpReply.v ===== *)
(** * What an HTTP response carries (src/src/http_transport.cpp)

    The capability and CORS headers, the compressed Arrow body, the health
    endpoint and the refusals.  [Response::set_header] adds a field and
    [set_content] replaces the body and its type; the codecs are library code. *)

From S2P Require Import Prelude Arrow Json Crypto Errors PeerIdentity ProxyProof Wire.
From S2P Require Import Calls External Server HttpRoute HttpAuth.

(** [gzip_compress], a loop over zlib; [None] is an error. *)
Class GzipCompressor := gzip_compress : bytes -> option bytes.

(** [httplib::Response]; the content is the body and its type. *)
Record Reply := {
  reply_status : Z;
  reply_headers : kv_list;
  reply_content : option (bytes * bytes);
}.

Definition new_Reply : Reply := {| reply_status := -1; reply_headers := []; reply_content := None |}.

Definition set_status (status : Z) (res : Reply) : Reply :=
  {| reply_status := status; reply_headers := reply_headers res; reply_content := reply_content res |}.
Definition set_header (name value : bytes) (res : Reply) : Reply :=
  {| reply_status := reply_status res; reply_headers := reply_headers res ++ [(name, value)];
     reply_content := reply_content res |}.
Definition set_content (body type : bytes) (res : Reply) : Reply :=
  {| reply_status := reply_status res; reply_headers := reply_headers res;
     reply_content := Some (body, type) |}.
Definition set_header_if (c : bool) (name value : bytes) (res : Reply) : Reply :=
  if c then set_header name value res else res.

Definition ARROW_CONTENT_TYPE : bytes := str "application/vnd.apache.arrow.stream".
Definition REQUEST_ID_HEADER : bytes := str "X-Request-ID".
Definition RPC_ERROR_HEADER : bytes := str "X-VGI-RPC-Error".
Definition ACCEPT_MAX_RESPONSE_BYTES_SUPPORT_HEADER : bytes := str "VGI-Accept-Max-Response-Bytes-Support".
Definition AUTH_REASON_HEADER : bytes := str "VGI-Auth-Reason".
Definition AUTH_PROXY_REQUIRED_HEADER : bytes := str "VGI-Auth-Proxy-Required".
Definition PROOF_REQUIRED_HEADER : bytes := str "VGI-Proxy-Proof-Required".

(** [s.find(sub) != npos]. *)
Fixpoint contains (sub s : bytes) : bool :=
  starts_with sub s || match s with [] => false | _ :: s' => contains sub s' end.

(** [if (!names.empty()) names += ", "; names += name;]. *)
Definition join_names (names : list bytes) : bytes :=
  foldl (fun joined name => (if bool_decide (joined <> []) then joined ++ str ", " else joined) ++ name) [] names.

Section stamps.
Context {App : Type} (cfg : HttpConfig App).

(** ** Capabilities *)

Definition configured_response_limit : option Z :=
  configured_limit (max_response_bytes cfg) (hosting_max_response_bytes cfg).
Definition configured_request_limit : option Z :=
  configured_limit (max_request_bytes cfg) (hosting_max_request_bytes cfg).

Definition stamp_capabilities (res : Reply) : Reply :=
  let res := set_header ACCEPT_MAX_RESPONSE_BYTES_SUPPORT_HEADER (str "true") res in
  let res := match configured_response_limit with
             | Some limit => set_header (str "VGI-Max-Response-Bytes") (to_string limit) res
             | None => res
             end in
  let res := set_header_if (0 <=? max_externalized_response_bytes cfg)
               (str "VGI-Max-Externalized-Response-Bytes") (to_string (max_externalized_response_bytes cfg)) res in
  let res := match configured_request_limit with
             | Some limit => set_header (str "VGI-Max-Request-Bytes") (to_string limit) res
             | None => res
             end in
  let res := set_header (str "VGI-Externalization-Enabled")
               (if externalization cfg then str "true" else str "false") res in
  let res :=
    if externalization cfg then
      let res := set_header (str "VGI-Upload-URL-Support") (str "true") res in
      let res := set_header_if (negb (bool_decide (is_Some configured_request_limit)))
                   (str "VGI-Max-Request-Bytes") (to_string (externalize_threshold cfg)) res in
      set_header (str "VGI-Max-Upload-Bytes") (to_string (max_upload_bytes cfg)) res
    else res in
  let res := set_header (str "VGI-Supported-Encodings")
               (if compression cfg then str "zstd, gzip" else []) res in
  let res :=
    if sticky cfg then
      let res := set_header (str "VGI-Sticky-Enabled") (str "true") res in
      let res := set_header (str "VGI-Sticky-Default-TTL") (to_string (sticky_default_ttl cfg)) res in
      set_header_if (bool_decide (sticky_echo_headers cfg <> [])) (str "VGI-Sticky-Echo-Headers")
        (join_names (map fst (sticky_echo_headers cfg))) res
    else res in
  set_header_if (proof_required cfg) PROOF_REQUIRED_HEADER (str "true") res.

(** ** CORS *)

Definition kAllowedRequestHeaders : bytes := str "content-type, accept, accept-encoding, authorization, x-request-id, x-vgi-accept-encoding, vgi-session, vgi-session-accept, vgi-proxy-proof, vgi-accept-max-response-bytes, x-conformance-principal, x-conformance-auth-time, x-conformance-auth-reason".

Definition kAlwaysExposedHeaders : bytes := str "x-vgi-rpc-error, vgi-auth-reason, vgi-auth-proxy-required, x-request-id, x-vgi-content-encoding, www-authenticate, vgi-session, vgi-session-close".

(** The loop over the headers already stamped, in the order they were. *)
Definition exposed_headers (res : Reply) : bytes :=
  foldl (fun expose h =>
           let lower := map IdentityInternal.tolower h.1 in
           if (starts_with (str "vgi-") lower || starts_with (str "x-vgi-") lower)
              && negb (contains lower expose)
           then expose ++ str ", " ++ lower else expose)
    kAlwaysExposedHeaders (reply_headers res).

Definition stamp_cors (req : HttpRequestHead) (res : Reply) : Reply :=
  let origin := get_header_value req (str "Origin") in
  if bool_decide (cors_origin cfg = []) then res
  else if negb (bool_decide (cors_origin cfg = str "*")) && bool_decide (origin <> [])
          && negb (bool_decide (origin = cors_origin cfg)) then res
  else
    let res := set_header (str "Access-Control-Allow-Origin")
                 (if bool_decide (cors_origin cfg = str "*") then str "*" else cors_origin cfg) res in
    let res := set_header (str "Vary") (str "Origin") res in
    let res := set_header (str "Access-Control-Allow-Methods") (str "GET, HEAD, POST, DELETE, OPTIONS") res in
    let requested := get_header_value req (str "Access-Control-Request-Headers") in
    let res := set_header (str "Access-Control-Allow-Headers")
                 (if bool_decide (requested = []) then kAllowedRequestHeaders
                  else requested ++ str ", " ++ kAllowedRequestHeaders) res in
    let res := set_header (str "Access-Control-Expose-Headers") (exposed_headers res) res in
    let res := set_header (str "Access-Control-Max-Age") (str "600") res in
    set_header (str "Cross-Origin-Resource-Policy") (str "cross-origin") res.

Definition stamp_common (req : HttpRequestHead) (request_id : bytes) (res : Reply) : Reply :=
  stamp_cors req (stamp_capabilities (set_header_if (bool_decide (request_id <> [])) REQUEST_ID_HEADER request_id res)).

(** ** The body *)

Context {compressor : ZstdCompressor} {gzip : GzipCompressor}.

Definition set_arrow_content (req : HttpRequestHead) (body : bytes) (res : Reply) : Reply :=
  let choice := choose_codec req (compression cfg) in
  let compressed :=
    if bool_decide (body = []) then None
    else if bool_decide (cc_codec choice = str "zstd") then ZSTD_compress body
    else if bool_decide (cc_codec choice = str "gzip") then gzip_compress body
    else None in
  match compressed with
  | Some compressed =>
      set_content compressed ARROW_CONTENT_TYPE
        (set_header (if cc_standard_header choice then str "Content-Encoding" else str "X-VGI-Content-Encoding")
           (cc_codec choice) res)
  | None => set_content body ARROW_CONTENT_TYPE res
  end.
End stamps.

(** A change of the response. *)
Definition on_reply (f : Reply -> Reply) : M Reply unit := modify f.

Section replies.
Context {arrow : Arrow} {streams : ArrowStreams} {ipc : IpcBytes} {J : JsonText} {App : Type}
  {compressor : ZstdCompressor} {gzip : GzipCompressor} (cfg : HttpConfig App).

(** [scope] is the traceback policy in force. *)
Definition error_body {St : Type} (scope : option TracebackScope) (s : Schema)
    (exception_type message server_id request_id error_kind : bytes) : M St bytes :=
  err ← lift (Result_error scope s exception_type message server_id request_id error_kind no_extras);
  to_buffer (write_ipc_stream s [batch_ err]).

(** ** Refusals *)

Definition proxy_html : bytes := str "<p>This service only accepts requests that arrive through its configured reverse proxy, which must set the VGI-Proxy-Proof header. A rejection here is at least as likely to be a proxy misconfiguration as a bad credential.</p>".

Definition unauthorized_html (reason : AuthReason) (proxy_note : bool) : bytes :=
  str "<!doctype html><html><head><title>401 Unauthorized</title></head><body><h1>401 Unauthorized</h1><p>reason: "
  ++ auth_reason_name reason ++ str "</p>" ++ (if proxy_note then proxy_html else [])
  ++ str "</body></html>".

Definition unauthorized_json (reason : AuthReason) (proxy_note : bool) : json :=
  jobject
    ([(str "error", JString (str "unauthorized"));
      (str "reason", JString (auth_reason_name reason));
      (str "detail", JString (if proxy_note
         then str "Request did not arrive through the configured trusted proxy."
         else str "Request was refused by the server's authentication hook."))]
     ++ (if proxy_note then
           [(str "proxy_hint", JString (str "This service only accepts requests that arrive through its configured reverse proxy, which must set the VGI-Proxy-Proof header. A rejection here is at least as likely to be a proxy misconfiguration as a bad credential."))]
         else [])).

Definition write_unauthorized (req : HttpRequestHead) (reason : AuthReason) : M Reply unit :=
  on_reply (set_status 401);;
  on_reply (set_header AUTH_REASON_HEADER (auth_reason_name reason));;
  on_reply (set_header (str "Cache-Control") (str "no-store"));;
  on_reply (set_header_if (proof_required cfg) AUTH_PROXY_REQUIRED_HEADER (str "true"));;
  if contains (str "text/html") (get_header_value req (str "Accept")) then
    on_reply (set_content (unauthorized_html reason (proof_required cfg)) (str "text/html; charset=utf-8"))
  else
    body ← lift (dump_or_throw (unauthorized_json reason (proof_required cfg)));
    on_reply (set_content body (str "application/json")).

(** The [catch] clauses around [resolve_http_identity]. *)
Definition write_auth_error (req : HttpRequestHead) (e : auth_error) : M Reply unit :=
  match e with
  | AuthUnavailable _ retry_after =>
      on_reply (set_status 503);;
      on_reply (set_header (str "Retry-After") (to_string (Z.max 0 retry_after)))
  | BearerRejected reason => write_unauthorized req reason
  | AuthThrew => write_unauthorized req INVALID_CREDENTIAL
  end.

(** [now] and [now'] are the two readings of the clock in [verify]; the result is
    whether the request was refused. *)
Definition refuse_if_unauthorized `{Digests} (now now' : Z) (req : HttpRequestHead)
    : M (ProofVerifier * Reply) bool := fun '(proof, res) =>
  let reject reason proof :=
    let '(r, res) := write_unauthorized req reason res in
    (match r with Done _ => Done true | Raised e => Raised e end, (proof, res)) in
  let '(proof, rejected) :=
    if bool_decide (proof_mode cfg = ProxyProof.OFF) then (proof, false)
    else
      let '(proof, result) := verify now now' proof (get_header_value req PROOF_HEADER)
                                (get_header_value_count req PROOF_HEADER) in
      (proof, negb (bool_decide (reason result = OK)) && proof_required cfg) in
  if rejected then reject PROXY_REQUIRED proof
  else if bool_decide (reject_all cfg = NONE) then (Done false, (proof, res))
  else
    reject
      (if honour_requested_auth_reason cfg && has_header req AUTH_REASON_REQUEST_HEADER then
         default (reject_all cfg) (auth_reason_from_name (get_header_value req AUTH_REASON_REQUEST_HEADER))
       else reject_all cfg) proof.

(** ** Health *)

(** [random_id] is [random_hex(16)]; no traceback policy is in force. *)
Definition handle_health (server_id protocol_name random_id : bytes) (req : HttpRequestHead) : M Reply unit :=
  on_reply (stamp_common cfg req random_id);;
  let healthy :=
    on_reply (set_status 200);;
    if bool_decide (rh_method req = str "GET") then
      body ← lift (dump_or_throw (jobject [(str "status", JString (str "ok"));
                                           (str "server_id", JString server_id);
                                           (str "protocol", JString protocol_name)]));
      on_reply (set_content body (str "application/json"))
    else mret tt in
  if bool_decide (rh_method req = str "OPTIONS") then
    match parse_accepted_response_limit req with
    | inl error =>
        on_reply (set_status 400);;
        on_reply (set_header RPC_ERROR_HEADER (str "true"));;
        body ← error_body None empty_schema (str "ValueError") error server_id random_id [];
        on_reply (set_arrow_content cfg req body)
    | inr _ => healthy
    end
  else healthy.
End replies.

(** ** Lemmas *)

Lemma ascii_text `{JsonTextTotal} s : forallb (fun c => b2z c <? 128) s = true -> text_ok s.
Proof. rewrite forallb_forall. intros Hs. apply text_ok_ascii, List.Forall_forall. intros c Hc. apply Z.ltb_lt. by apply Hs. Qed.

Lemma unauthorized_dumps `{JsonTextTotal} r note : exists t, dump_or_throw (unauthorized_json r note) = Ok t.
Proof.
  unfold dump_or_throw. assert (is_Some (json_dump (unauthorized_json r note))) as [t ->]; [|by eexists].
  apply dump_text. unfold unauthorized_json. apply members_text_ok.
  - apply (bool_decide_unpack _). by destruct note.
  - destruct note; cbn [app]; repeat constructor; cbn [fst snd json_strings]; apply ascii_text; by destruct r.
Qed.

Definition wants_html (req : HttpRequestHead) : bool := contains (str "text/html") (get_header_value req (str "Accept")).

Section refusals.
Context {J : JsonText} {jtotal : JsonTextTotal} {D : Digests} {App : Type} (cfg : HttpConfig App).

(** The refusal depends on the request only through the type it accepts. *)
Lemma write_unauthorized_done req r res : exists res', write_unauthorized cfg req r res = (Done tt, res')
  /\ reply_status res' = 401
  /\ forall req', wants_html req' = wants_html req -> write_unauthorized cfg req' r res = (Done tt, res').
Proof.
  destruct (unauthorized_dumps r (proof_required cfg)) as [t Et]. unfold write_unauthorized, wants_html.
  destruct (contains (str "text/html") (get_header_value req (str "Accept"))) eqn:Eh.
  - eexists. split; [reflexivity|]. split; [by unfold set_header_if; destruct (proof_required cfg)|].
    by intros req' ->.
  - rewrite Et. eexists. split; [reflexivity|]. split; [by unfold set_header_if; destruct (proof_required cfg)|].
    by intros req' ->.
Qed.
End refusals.

(** ** Properties *)

(** Where the proof of the proxy is required, a request passes only with a proof
    that verifies; every other one is refused with the same response, whatever was
    wrong with its proof and whatever else it carries beside the type it accepts. *)
Theorem proof_refusals_uniform `{JsonTextTotal} `{Digests} {App} (cfg : HttpConfig App) now now' proof req res :
  proof_mode cfg = REQUIRE ->
  let verified n n' p r :=
    reason (verify n n' p (get_header_value r PROOF_HEADER) (get_header_value_count r PROOF_HEADER)).2 in
  ((exists s, refuse_if_unauthorized cfg now now' req (proof, res) = (Done false, s)) ->
   verified now now' proof req = OK)
  /\ (verified now now' proof req <> OK -> exists proof' res',
        refuse_if_unauthorized cfg now now' req (proof, res) = (Done true, (proof', res'))
        /\ reply_status res' = 401
        /\ forall now2 now2' proof2 req2, verified now2 now2' proof2 req2 <> OK ->
             wants_html req2 = wants_html req -> exists proof2',
             refuse_if_unauthorized cfg now2 now2' req2 (proof2, res) = (Done true, (proof2', res'))).
Proof.
  intros Hm verified.
  assert (forall n n' p r, verified n n' p r <> OK -> exists p',
    refuse_if_unauthorized cfg n n' r (p, res)
    = let '(x, res) := write_unauthorized cfg r PROXY_REQUIRED res in
      (match x with Done _ => Done true | Raised e => Raised e end, (p', res))) as Hrefuse.
  { intros n n' p r Hv. unfold refuse_if_unauthorized. rewrite Hm. cbn [bool_decide].
    rewrite bool_decide_eq_false_2 by done. subst verified. cbv beta in Hv.
    destruct (verify n n' p _ _) as [p' result]. cbn [snd] in Hv.
    rewrite bool_decide_eq_false_2 by done. unfold proof_required. rewrite Hm, bool_decide_eq_true_2 by done.
    cbn [negb andb]. by eexists. }
  destruct (write_unauthorized_done cfg req PROXY_REQUIRED res) as (res' & E & Hs & Hsame). split.
  - intros [s Hr]. destruct (decide (verified now now' proof req = OK)) as [|Hv]; [done|exfalso].
    destruct (Hrefuse _ _ _ _ Hv) as [p' Hp]. rewrite Hp, E in Hr. done.
  - intros Hv. destruct (Hrefuse _ _ _ _ Hv) as [p' Hp]. exists p', res'. rewrite Hp, E.
    split; [done|]. split; [done|]. intros n n' p2 req2 Hv2 Hh.
    destruct (Hrefuse _ _ _ _ Hv2) as [p2' Hp2]. exists p2'. by rewrite Hp2, (Hsame req2 Hh).
Qed.

(** ** Witnesses *)

Section witnesses.
#[local] Existing Instances Toy.digests Toy.digest_laws.
Import Json.ToyJson.

Definition required_config : HttpConfig nat :=
  {| prefix := []; max_response_bytes := 1048576; max_externalized_response_bytes := -1;
     max_request_bytes := -1; external_storage_url := []; externalize_threshold := 4096;
     externalize_compression := []; compression := true; cors_origin := str "*"; sticky := true;
     sticky_default_ttl := 300; sticky_echo_headers := []; sticky_header_auth := false;
     token_key := replicate 32 x05; call_state_cache := true; reject_all := NONE;
     honour_requested_auth_reason := false; proof_mode := REQUIRE; proof_origin_id := str "origin";
     proof_secrets := demo_spec; proof_skew_seconds := 30; proof_replay_cache := true;
     peer_identity_providers := []; peer_authentication_policy := None; peer_service_name := None;
     peer_identity_resolution_timeout := 1000; hosting_max_request_bytes := -1;
     hosting_max_response_bytes := -1; preferred_response_bytes := -1; max_upload_bytes := 2 ^ 31;
     bearer_authenticate := None; identity_bearer := true; bearer_optional := false |}.

Definition proof_request (proofs : list bytes) : HttpRequestHead :=
  {| rh_method := str "POST"; rh_target := str "/m"; rh_path := str "/m";
     rh_headers := fun name => if bool_decide (name = PROOF_HEADER) then proofs else [];
     rh_fields := map (pair PROOF_HEADER) proofs; rh_remote_addr := []; rh_remote_port := -1;
     rh_local_addr := []; rh_local_port := -1 |}.

(** No proof and two proofs are refused alike. *)
Lemma proof_refusals_uniform_witness : exists proof' proof'' res',
  refuse_if_unauthorized required_config 1000 1000 (proof_request []) (demo_verifier, new_Reply)
  = (Done true, (proof', res'))
  /\ refuse_if_unauthorized required_config 1001 1002 (proof_request [str "a"; str "b"]) (demo_verifier, new_Reply)
     = (Done true, (proof'', res'))
  /\ reply_status res' = 401.
Proof.
  destruct (proof_refusals_uniform required_config 1000 1000 demo_verifier (proof_request []) new_Reply eq_refl)
    as [_ H]. destruct H as (proof' & res' & E & Hs & Hsame); [vm_compute; congruence|].
  destruct (Hsame 1001 1002 demo_verifier (proof_request [str "a"; str "b"])) as [proof'' E2];
    [vm_compute; congruence|reflexivity|]. by exists proof', proof'', res'.
Defined.
End witnesses.
