(* ===== verification/CallState.v ===== *)
(** * Sessions as a handler sees them (src/src/call_context.cpp, call_context.h)

    The sticky part of [CallContext].  The HTTP transport installs a slot for one
    request; the handler's calls act on it and on the session registry, so both are
    part of the state a handler acts on, next to the application's own.  A session
    state is named by the object's identity, and its close hook is logged. *)

From S2P Require Import Prelude Json Crypto Errors Wire Session.

(** [sl_aad] and [sl_resumed_token] are what the two closures capture. *)
Record StickySlot := {
  sl_resolved : option nat;
  sl_session_id : bytes;
  sl_client_accepts : bool;
  sl_draining : bool;
  sl_aad : bytes;
  sl_resumed_token : bytes;
  sl_minted_token : bytes;
  sl_closed : bool;
}.

(** What a handler acts on; [app_closed] are the session states closed so far, in
    order. *)
Record HttpApp (User : Type) := {
  app_user : User;
  app_sessions : SessionRegistry;
  app_sticky : option StickySlot;
  app_closed : list nat;
}.
Arguments app_user {User} _.
Arguments app_sessions {User} _.
Arguments app_sticky {User} _.
Arguments app_closed {User} _.
Arguments Build_HttpApp {User}.

Section call_state.
Context {aead : Aead} {User : Type}.

Abbreviation app := (HttpApp User).

Definition with_sticky (a : app) (slot : option StickySlot) : app :=
  Build_HttpApp (app_user a) (app_sessions a) slot (app_closed a).
Definition with_sessions (a : app) (r : SessionRegistry) (hooks : list nat) : app :=
  Build_HttpApp (app_user a) r (app_sticky a) (app_closed a ++ hooks).

(** What [SessionRegistry::open] reads of the system. *)
Record SessionEnv := { se_random_id : bytes; se_nonce : bytes; se_wall : Z; se_steady : Z }.

Definition session (a : app) : option nat := app_sticky a ≫= sl_resolved.
Definition session_id (a : app) : bytes :=
  match app_sticky a with Some slot => sl_session_id slot | None => [] end.

Definition not_available : bytes := str "sticky sessions not available on this transport".

Definition set_minted (slot : StickySlot) (token : bytes) : StickySlot :=
  {| sl_resolved := sl_resolved slot; sl_session_id := sl_session_id slot;
     sl_client_accepts := sl_client_accepts slot; sl_draining := sl_draining slot; sl_aad := sl_aad slot;
     sl_resumed_token := sl_resumed_token slot; sl_minted_token := token; sl_closed := sl_closed slot |}.
Definition set_closed (slot : StickySlot) : StickySlot :=
  {| sl_resolved := None; sl_session_id := sl_session_id slot;
     sl_client_accepts := sl_client_accepts slot; sl_draining := sl_draining slot; sl_aad := sl_aad slot;
     sl_resumed_token := sl_resumed_token slot; sl_minted_token := sl_minted_token slot; sl_closed := true |}.

Definition kDefaultDrainRetryAfter : binary64 := dbl_of_Z 1.

Definition open_session (env : SessionEnv) (state : option nat) (ttl_seconds : option Z) : M app unit :=
  a ← get;
  match app_sticky a with
  | None => raise (EOther not_available)
  | Some slot =>
      if sl_draining slot then
        raise (ServerDrainingError (str "server is draining; not opening new sessions") kDefaultDrainRetryAfter)
      else if negb (sl_client_accepts slot) then
        raise (EOther (str "open_session requires the client to send 'VGI-Session-Accept: true'; without it the client would not capture the token and the session would leak"))
      else if bool_decide (is_Some (sl_resolved slot)) || bool_decide (sl_minted_token slot <> []) then
        raise (EOther (str "a session is already active for this request"))
      else
        let '(sessions, token) :=
          Session.open (se_random_id env) (se_nonce env) (se_wall env) (se_steady env) (app_sessions a)
            state (sl_aad slot) ttl_seconds in
        put (with_sticky (with_sessions a sessions []) (Some (set_minted slot token)))
  end.

(** [wall] is the wall clock. *)
Definition close_session (wall : Z) : M app unit :=
  a ← get;
  match app_sticky a with
  | None => raise (EOther not_available)
  | Some slot =>
      if sl_closed slot then mret tt
      else
        let '(sessions, (_, hooks)) :=
          Session.close wall (app_sessions a) (sl_resumed_token slot) (sl_aad slot) in
        put (with_sticky (with_sessions a sessions hooks) (Some (set_closed slot)))
  end.
End call_state.

(** ** Lemmas *)

Section call_state_lemmas.
Context {aead : Aead} {User : Type}.

Definition may_open (slot : StickySlot) : Prop :=
  sl_draining slot = false /\ sl_client_accepts slot = true /\ sl_resolved slot = None
  /\ sl_minted_token slot = [].

(** A session is opened under four conditions and refused without a trace
    otherwise. *)
Lemma open_session_iff env st ttl (a : HttpApp User) :
  (exists slot sessions token, app_sticky a = Some slot /\ may_open slot
     /\ Session.open (se_random_id env) (se_nonce env) (se_wall env) (se_steady env) (app_sessions a) st
          (sl_aad slot) ttl = (sessions, token)
     /\ open_session env st ttl a
        = (Done tt, with_sticky (with_sessions a sessions []) (Some (set_minted slot token))))
  \/ ((forall slot, app_sticky a = Some slot -> ~ may_open slot)
      /\ exists e, open_session env st ttl a = (Raised e, a)).
Proof.
  unfold open_session, may_open, mbind, M_bind, get. cbv beta iota.
  destruct (app_sticky a) as [slot|]; [|right; split; [done|by eexists]].
  destruct (sl_draining slot) eqn:Ed; [right; split; [intros ? [= <-] (? & ? & ? & ?); congruence|by eexists]|].
  destruct (sl_client_accepts slot) eqn:Ea; cbn [negb];
    [|right; split; [intros ? [= <-] (? & ? & ? & ?); congruence|by eexists]].
  destruct (sl_resolved slot) eqn:Er; [right; split; [intros ? [= <-] (? & ? & ? & ?); congruence|by eexists]|].
  destruct (sl_minted_token slot) eqn:Em; [|right; split; [intros ? [= <-] (? & ? & ? & ?); congruence|by eexists]].
  left. change (bool_decide (is_Some (@None nat)) || bool_decide (@nil byte <> [])) with false.
  destruct (Session.open _ _ _ _ _ _ _ _) as [sessions token] eqn:Eo. exists slot, sessions, token.
  by split_and!.
Qed.

Lemma close_empty_token wall r aad : Session.close wall r [] aad = (r, (false, [])).
Proof. done. Qed.

(** A sealed token is opened only under associated data that authenticate the
    same ciphertext. *)
Lemma other_aad_unsealable {laws : AeadLaws aead} wall (r : SessionRegistry) nonce frame aad aad' :
  length nonce = kAeadNonceBytes ->
  (forall frame', aead_encrypt (key_ r) nonce frame' aad' <> aead_encrypt (key_ r) nonce frame aad) ->
  unseal wall r (base64url_encode ([x01] ++ aead_seal nonce (key_ r) frame aad)) aad' = (UNSEALABLE, []).
Proof.
  intros Hn Hne. set (token := base64url_encode _).
  assert (base64url_decode token = Some ([x01] ++ aead_seal nonce (key_ r) frame aad)) as Ed
    by apply b64_decode_encode.
  unfold unseal. rewrite Ed. destruct token; [by vm_compute in Ed|]. cbn [app drop].
  destruct (_ || _); [done|]. rewrite drop_0.
  destruct (aead_open _ _ aad') as [frame'|] eqn:Eo; [|done].
  apply aead_open_inv in Eo as [Eo _]. unfold aead_seal, aead_seal_with_nonce in Eo.
  rewrite take_app_exact in Eo by done. apply app_inv_head in Eo. by destruct (Hne frame').
Qed.
End call_state_lemmas.

(** ** Properties *)

(** C22: a session a handler opens is bound to its caller.  The server's id is at
    most 255 bytes (a longer one is truncated in the token, a finding), the
    lifetime is not negative and the expiry fits 64 bits, and the random id and
    nonce have their lengths.  Then the token that the response carries
    resolves, for the same identity, to the state and the id until it expires,
    and closing it from a later request runs the hook once and ends it.  For
    associated data under which the cipher has no message with the token's
    ciphertext (another identity's, short of a forged tag) the token neither
    resolves nor closes anything, at any time.  Closing the session in the
    request that opened it has no effect on it: the response tells the client to
    drop a token of a session that stays open. *)
Theorem session_opened_by_handler `{AeadLaws} {User} env st ttl (a : HttpApp User) a' slot :
  open_session env (Some st) ttl a = (Done tt, a') -> app_sticky a = Some slot ->
  length (se_random_id env) = 12%nat -> length (se_nonce env) = kAeadNonceBytes ->
  blen (server_id_ (app_sessions a)) <= 255 ->
  let life := default (default_ttl_seconds_ (app_sessions a)) ttl in
  0 <= se_wall env -> 0 <= life -> se_wall env + life < 2 ^ 64 ->
  exists slot', app_sticky a' = Some slot' /\ app_closed a' = app_closed a
    /\ let token := sl_minted_token slot' in let id := hex_encode (se_random_id env) in
       (forall wall steady, wall <= se_wall env + life -> steady <= se_steady env + seconds life ->
          resolve wall steady (app_sessions a') token (sl_aad slot)
          = (app_sessions a', (OK, Some (Some st, id), [])))
       /\ (forall aad',
             let key := key_ (app_sessions a) in
             let frame := token_frame (app_sessions a) id (se_wall env) life in
             (forall frame', aead_encrypt key (se_nonce env) frame' aad'
                             <> aead_encrypt key (se_nonce env) frame (sl_aad slot)) ->
             forall wall steady,
               resolve wall steady (app_sessions a') token aad' = (app_sessions a', (UNSEALABLE, None, []))
               /\ Session.close wall (app_sessions a') token aad' = (app_sessions a', (false, [])))
       /\ (forall wall (later : HttpApp User) s, wall <= se_wall env + life ->
             app_sessions later = app_sessions a' -> app_sticky later = Some s ->
             sl_closed s = false -> sl_resumed_token s = token -> sl_aad s = sl_aad slot ->
             exists later', close_session wall later = (Done tt, later')
               /\ app_closed later' = app_closed later ++ [st]
               /\ forall steady, resolve wall steady (app_sessions later') token (sl_aad slot)
                    = (app_sessions later', (MISSING, None, [])))
       /\ (forall wall, sl_resumed_token slot = [] -> sl_closed slot = false ->
             exists a'', close_session wall a' = (Done tt, a'')
               /\ app_sessions a'' = app_sessions a' /\ app_closed a'' = app_closed a'
               /\ app_sticky a'' = Some (set_closed slot') /\ sl_minted_token (set_closed slot') = token).
Proof.
  intros E Hslot Hrid Hn Hid life Hw Hl Hmax.
  destruct (open_session_iff env (Some st) ttl a) as [(slot0 & sessions & token & Hs & Hmay & Eo & E')|[_ [e E']]];
    rewrite E' in E; [|done]. rewrite Hslot in Hs. injection Hs as <-. injection E as <-.
  exists (set_minted slot token). split; [done|]. cbn [with_sticky with_sessions app_closed app_sessions set_minted sl_minted_token].
  split; [apply app_nil_r|].
  pose proof (session_lifecycle (se_random_id env) (se_nonce env) (se_wall env) (se_steady env) (app_sessions a) st
    (sl_aad slot) ttl sessions token Eo Hrid Hn Hid Hw Hl Hmax) as Hlife. fold life in Hlife. split_and!.
  - intros wall steady Hwall Hsteady. rewrite (proj1 (Hlife wall steady)).
    by rewrite (proj2 (Z.ltb_ge _ _) Hwall), (proj2 (Z.ltb_ge _ _) Hsteady).
  - intros aad' Hne wall steady.
    destruct (open_ok _ _ _ _ _ _ _ _ _ _ Eo) as (_ & _ & Ek & _).
    assert (unseal wall sessions token aad' = (UNSEALABLE, [])) as Eu.
    { unfold Session.open in Eo. apply pair_equal_spec in Eo as [_ <-].
      rewrite <- Ek. apply other_aad_unsealable; [done|].
      rewrite Ek. exact Hne. }
    unfold resolve, Session.close. by rewrite Eu.
  - intros wall later s Hwall Hsess Hst Hcl Htok Haad.
    destruct (proj2 (Hlife wall 0) Hwall) as (Ec & _ & _).
    unfold close_session, mbind, M_bind, get. cbv beta iota. rewrite Hst, Hcl, Htok, Haad, Hsess, Ec.
    eexists. split; [reflexivity|]. split; [done|]. intros steady.
    by destruct (proj2 (Hlife wall steady) Hwall) as (_ & Er & _).
  - intros wall Hres Hcl. unfold close_session, mbind, M_bind, get. cbv beta iota.
    cbn [with_sticky with_sessions app_sticky set_minted sl_closed sl_resumed_token sl_aad app_sessions].
    rewrite Hcl, Hres, close_empty_token. eexists. split; [reflexivity|].
    cbn [with_sticky with_sessions app_sessions app_closed app_sticky]. by rewrite !app_nil_r.
Qed.

(** ** Witnesses *)

Import Toy.

Definition demo_slot : StickySlot :=
  {| sl_resolved := None; sl_session_id := []; sl_client_accepts := true; sl_draining := false;
     sl_aad := demo_aad; sl_resumed_token := []; sl_minted_token := []; sl_closed := false |}.

Definition demo_app : HttpApp unit := Build_HttpApp tt demo_registry (Some demo_slot) [].

Definition demo_session_env : SessionEnv :=
  {| se_random_id := replicate 12 x07; se_nonce := replicate 24 x09; se_wall := 1000; se_steady := 5 |}.

Definition demo_opened : HttpApp unit := (open_session demo_session_env (Some 42%nat) (Some 60) demo_app).2.

Definition bob_aad : bytes := session_aad (str "example.org") (str "bob") true.

(** Alice's session is hers. *)
Lemma session_opened_by_handler_witness : exists slot',
  open_session demo_session_env (Some 42%nat) (Some 60) demo_app = (Done tt, demo_opened)
  /\ app_sticky demo_opened = Some slot'
  /\ resolve 1060 6 (app_sessions demo_opened) (sl_minted_token slot') demo_aad
     = (app_sessions demo_opened, (OK, Some (Some 42%nat, hex_encode (replicate 12 x07)), []))
  /\ resolve 1060 6 (app_sessions demo_opened) (sl_minted_token slot') bob_aad
     = (app_sessions demo_opened, (UNSEALABLE, None, [])).
Proof.
  assert (open_session demo_session_env (Some 42%nat) (Some 60) demo_app = (Done tt, demo_opened)) as E
    by (vm_compute; reflexivity).
  destruct (session_opened_by_handler demo_session_env 42%nat (Some 60) demo_app demo_opened demo_slot E eq_refl
    eq_refl eq_refl) as (slot' & Hs & _ & Hres & Hother & _); [vm_compute; congruence..|reflexivity|].
  exists slot'. split; [exact E|]. split; [exact Hs|].
  split; [apply Hres; vm_compute; congruence|]. refine (proj1 (Hother bob_aad _ 1060 6)).
  intros frame' Et. cbn [aead_encrypt aead] in Et. unfold encrypt in Et.
  apply app_inj_2 in Et as [-> Et]; [|unfold tag; by rewrite !le_encode_length].
  vm_compute in Et. discriminate Et.
Defined.
