(* ===== verification/Dispatch.v ===== *)
(** * Serving a connection (src/src/pipe_transport.cpp, request_contract.h)

    One request after another over a connection: routing, the shared-memory
    side channel, unary calls, streams and the reflection protocol.

    The functions run over a [World]: the connection's messages, the
    application's state, the connection state and the access log.  The request
    and stream identifiers ([random_hex]), the POSIX view of shared memory and
    what the peer writes into the segment are arguments.  Flushing is a no-op on
    these streams; warnings on stderr and durations are not modelled. *)

From S2P Require Import Prelude Memory Arrow Json Crypto Grants Errors Shm ShmPointer.
From S2P Require Import Wire Calls ProtocolHash Reflection Server.

(** ** State *)

(** [call_shm] is a copy of the [shm] pointer or null: whether it is the copy. *)
Record ConnectionState := { shm : option ShmSegment; shm_name : bytes; call_shm : bool }.

Definition new_ConnectionState : ConnectionState :=
  {| shm := None; shm_name := []; call_shm := false |}.

Record AccessRecord (Caller : Type) := {
  ar_protocol : bytes;
  ar_protocol_hash : bytes;
  ar_method : bytes;
  ar_is_stream : bool;
  ar_status : bytes;
  ar_error_type : bytes;
  ar_error_message : bytes;
  ar_error_code : bytes;
  ar_caller : option Caller;
  ar_request_id : bytes;
  ar_stream_id : bytes;
  ar_cancelled : bool;
  ar_request_fields : list (bytes * bytes);
  ar_request_rows : Z;
  ar_request_state_bytes : Z;
  ar_response_state_bytes : Z;
}.
Arguments Build_AccessRecord {Caller}.

(** [w_peer]: what the peer did to the attached segment before each message
    that is read.  [w_where] is the place the traceback policy names. *)
Record World `{Arrow} (Caller App : Type) := {
  w_wire : wire;
  w_app : App;
  w_bound : option TransportKind;
  w_conn : ConnectionState;
  w_access : list (AccessRecord Caller);
  w_peer : list (memory -> memory);
  w_sink : LogSink;
  w_where : bytes;
}.
Arguments w_wire {_ _ _} w.
Arguments w_app {_ _ _} w.
Arguments w_bound {_ _ _} w.
Arguments w_conn {_ _ _} w.
Arguments w_access {_ _ _} w.
Arguments w_peer {_ _ _} w.
Arguments w_sink {_ _ _} w.
Arguments w_where {_ _ _} w.
Arguments Build_World {_ Caller App}.

(** What the platform supplies to one call. *)
Record Platform := {
  pf_posix : bytes -> PosixShm;
  pf_shm_min : option bytes;
  pf_request_id : bytes;
  pf_stream_id : bytes;
  (** Two readings of the system clock in nanoseconds, and the randomness of a
      mint: what the identity protocol asks of the system. *)
  pf_freshness_ns : Z;
  pf_mint_ns : Z;
  pf_random_id : bytes;
  pf_random_nonce : bytes;
}.

Section world.
Context {arrow : Arrow} {streams : ArrowStreams} {J : JsonText} {Caller App : Type}.

Abbreviation world := (World Caller App).
Abbreviation handler_of R := (Request -> CallContext Caller -> App -> list Message * outcome R * App).

Definition set_wire (w : world) (x : wire) : world :=
  Build_World x (w_app w) (w_bound w) (w_conn w) (w_access w) (w_peer w) (w_sink w) (w_where w).
Definition set_app (w : world) (x : App) : world :=
  Build_World (w_wire w) x (w_bound w) (w_conn w) (w_access w) (w_peer w) (w_sink w) (w_where w).
Definition set_bound (w : world) (x : option TransportKind * App) : world :=
  Build_World (w_wire w) x.2 x.1 (w_conn w) (w_access w) (w_peer w) (w_sink w) (w_where w).
Definition set_conn (w : world) (x : ConnectionState) : world :=
  Build_World (w_wire w) (w_app w) (w_bound w) x (w_access w) (w_peer w) (w_sink w) (w_where w).
Definition set_access (w : world) (x : list (AccessRecord Caller)) : world :=
  Build_World (w_wire w) (w_app w) (w_bound w) (w_conn w) x (w_peer w) (w_sink w) (w_where w).
Definition set_peer (w : world) (x : list (memory -> memory)) : world :=
  Build_World (w_wire w) (w_app w) (w_bound w) (w_conn w) (w_access w) x (w_sink w) (w_where w).
Definition set_sink (w : world) (x : LogSink) : world :=
  Build_World (w_wire w) (w_app w) (w_bound w) (w_conn w) (w_access w) (w_peer w) x (w_where w).
Definition set_where (x : bytes) : M world unit := modify (fun w =>
  Build_World (w_wire w) (w_app w) (w_bound w) (w_conn w) (w_access w) (w_peer w) (w_sink w) x).

Definition on_wire {A} (m : M wire A) : M world A := zoom w_wire set_wire m.

Definition set_segment (c : ConnectionState) (s : option ShmSegment) : ConnectionState :=
  {| shm := s; shm_name := shm_name c; call_shm := call_shm c |}.

(** The segment is shared: the peer's writes are there when the message is. *)
Definition peer_acts : M world unit := fun w =>
  match w_peer w with
  | [] => (Done tt, w)
  | step :: rest =>
      let c := w_conn w in
      let s := option_map (fun seg => with_base seg (step (base_ seg))) (shm c) in
      (Done tt, set_conn (set_peer w rest) (set_segment c s))
  end.

Definition run_handler {R} (h : handler_of R) (request : Request) (ctx : CallContext Caller)
    : M world R := fun w =>
  let '(logs, r, app) := h request ctx (w_app w) in
  (r, set_sink (set_app w app) (emit_all (w_sink w) logs)).

Definition flush_logs (s : Schema) : M world (list AnnotatedBatch) :=
  zoom w_sink set_sink (LogSink_flush s).

Definition free_input (offset : Z) : M world unit := modify (fun w =>
  let c := w_conn w in
  if 0 <=? offset then
    set_conn w (set_segment c (option_map (fun seg => free_alloc seg offset) (shm c)))
  else w).
End world.

(** ** The parameter contract *)

Section contract.
Context {arrow : Arrow} {afields : ArrowFields}.

(** The loop over the fields; [i] is the index. *)
Fixpoint field_mismatch (i : Z) (actual expected : list Field) : bytes :=
  match actual, expected with
  | got :: actual', want :: expected' =>
      if negb (bool_decide (field_name got = field_name want))
         || negb (type_equal (field_type got) (field_type want))
         || negb (Bool.eqb (field_nullable got) (field_nullable want)) then
        str "Parameter schema mismatch at field " ++ to_string i ++ str ": expected "
        ++ Field_ToString want ++ str ", got " ++ Field_ToString got
      else field_mismatch (i + 1) actual' expected'
  | _, _ => []
  end.

Definition parameter_contract_error (batch : RecordBatch) (expected : Schema) : bytes :=
  let want := fields expected in
  let got := fields (schema batch) in
  if negb (length want =? 0)%nat && negb (num_rows batch =? 1) then
    str "Expected 1 row in request batch, got " ++ to_string (num_rows batch)
  else if negb (length got =? length want)%nat then
    str "Parameter schema mismatch: expected " ++ to_string (Z.of_nat (length want))
    ++ str " fields, got " ++ to_string (Z.of_nat (length got))
  else field_mismatch 0 got want.

(** ** Coercing an exchange input *)

Context {streams : ArrowStreams}.

Definition mismatch (batch : RecordBatch) (target : Schema) : exception :=
  ELogicError (str "Input schema mismatch: expected " ++ Schema_ToString target ++ str ", got "
               ++ Schema_ToString (schema batch)).

Fixpoint coerce_columns (batch : RecordBatch) (fs : list Field) : option (list Array) :=
  match fs with
  | [] => Some []
  | f :: fs' =>
      col ← GetColumnByName batch (field_name f);
      col ← (if type_equal (array_type col) (field_type f) then Some col
             else Cast col (field_type f));
      cols ← coerce_columns batch fs';
      Some (col :: cols)
  end.

Definition field_names (s : Schema) : gset bytes := list_to_set (map field_name (fields s)).

Definition coerce_input_batch {S} (batch : RecordBatch) (target : Schema) : M S RecordBatch :=
  if schema_equal (schema batch) target then mret batch
  else if negb (bool_decide (field_names (schema batch) = field_names target)) then
    raise (mismatch batch target)
  else
    match coerce_columns batch (fields target) with
    | None => raise (mismatch batch target)
    | Some cols => mret (RecordBatch_Make target (num_rows batch) cols)
    end.
End contract.

(** ** Serving *)

Section serve.
Context {arrow : Arrow} {afields : ArrowFields} {types : ArrowTypes} {streams : ArrowStreams}
  {build_ : ArrowBuild} {kvm : KeyValueMetadata} {J : JsonText} {D : Digests} {Caller App : Type}
  {identity : IdentityService Caller App} (array_length : Array -> Z) (pf : Platform)
  (srv : Server Caller App).

Abbreviation world := (World Caller App).

Definition current_scope (w : world) : option TracebackScope :=
  Some {| ts_include := include_tracebacks_ srv; ts_where := w_where w |}.

(** [Result::error] on the empty schema, written as the whole response. *)
Definition respond_error (type message kind : bytes) (extras : ErrorExtras) : M world unit :=
  w ← get;
  result ← lift (Result_error (current_scope w) empty_schema type message (server_id_ srv)
                   (pf_request_id pf) kind extras);
  on_wire (write_ipc_stream empty_schema [batch_ result]).

Definition refuse (type message kind : bytes) : M world unit :=
  respond_error type message kind no_extras.

(** *** The access log *)

Definition emit_record (r : AccessRecord Caller) : M world unit :=
  if access_log_enabled srv then modify (fun w => set_access w (w_access w ++ [r])) else mret tt.

Definition request_shape (batch : RecordBatch) : list (bytes * bytes) :=
  map (fun f => (field_name f, DataType_ToString (field_type f))) (fields (schema batch)).

Definition log_framework_call (owner : ProtocolIdentity) (method : bytes) (request_batch : RecordBatch)
    (error_type error_message error_code : bytes) (auth : option Caller) : M world unit :=
  emit_record
    {| ar_protocol := pi_name owner; ar_protocol_hash := pi_hash owner; ar_method := method;
       ar_is_stream := false;
       ar_status := if nonempty error_type then str "error" else str "ok";
       ar_error_type := error_type; ar_error_message := error_message;
       ar_error_code :=
         if nonempty error_type then
           if nonempty error_code then error_code else code_name (default_error_code error_type [])
         else [];
       ar_caller := auth; ar_request_id := pf_request_id pf; ar_stream_id := [];
       ar_cancelled := false; ar_request_fields := request_shape request_batch;
       ar_request_rows := num_rows request_batch;
       ar_request_state_bytes := -1; ar_response_state_bytes := -1 |}.

(** The record of an application call. *)
Definition log_call (owner : ProtocolIdentity) (method : bytes) (is_stream : bool) (caller : Caller)
    (failure : option exception) (cancelled : bool) (request : Request) : M world unit :=
  emit_record
    {| ar_protocol := pi_name owner; ar_protocol_hash := pi_hash owner; ar_method := method;
       ar_is_stream := is_stream;
       ar_status := match failure with Some _ => str "error" | None => str "ok" end;
       ar_error_type := match failure with Some e => exception_type_of e | None => [] end;
       ar_error_message := match failure with Some e => ex_what e | None => [] end;
       ar_error_code := match failure with Some e => code_name (error_code_of e) | None => [] end;
       ar_caller := Some caller; ar_request_id := pf_request_id pf;
       ar_stream_id := if is_stream then pf_stream_id pf else []; ar_cancelled := cancelled;
       ar_request_fields := request_shape (req_batch request);
       ar_request_rows := num_rows (req_batch request);
       ar_request_state_bytes := -1; ar_response_state_bytes := -1 |}.

(** *** Shared memory *)

Definition refresh_shm (custom_metadata : metadata) : M world unit := modify (fun w =>
  let c := w_conn w in
  let name := get_metadata_value custom_metadata SHM_SEGMENT_NAME [] in
  if (length name =? 0)%nat || bool_decide (name = shm_name c) then w
  else
    match stoull (get_metadata_value custom_metadata SHM_SEGMENT_SIZE []) with
    | None => w
    | Some size =>
        let seg := attach (pf_posix pf) name size in
        set_conn w {| shm := seg; shm_name := match seg with Some _ => name | None => [] end;
                      call_shm := call_shm c |}
    end).

(** [maybe_write_to_shm] through [call_shm]. *)
Definition route_output (ab : AnnotatedBatch) : M world AnnotatedBatch :=
  w ← get;
  let c := w_conn w in
  '(b, md, seg) ← lift (maybe_write_to_shm (pf_shm_min pf) (Some (ab_batch ab))
                          (Some (custom_metadata ab)) (if call_shm c then shm c else None));
  put (if call_shm c then set_conn w (set_segment c seg) else w);;
  mret {| ab_batch := default (ab_batch ab) b;
          custom_metadata := match md with Some md => md | None => custom_metadata ab end |}.

(** *** Unary calls *)

Definition call_site (owner : ProtocolIdentity) (method : bytes) : bytes :=
  match pi_name owner with [] => method | name => name ++ str "/" ++ method end.

Definition traceback_for (owner : ProtocolIdentity) (method type message : bytes) : bytes :=
  if include_tracebacks_ srv then cpp_traceback type message (call_site owner method) else [].

Abbreviation method_info := (@MethodInfo arrow Caller App).

(** The result is whether the method raised, and [*external_ref]. *)
Definition serve_unary_impl (mi : method_info) (owner : ProtocolIdentity) (request : Request)
    (ctx : CallContext Caller) : M world (bool * bool) :=
  _ ← lift void_result;
  '(result, failure) ←
    try_catch
      (r ← run_handler (mi_handler mi) request ctx; mret (r, None))
      (fun e =>
         w ← get;
         r ← lift (Result_exception (current_scope w) (mi_result_schema mi) e (server_id_ srv)
                     (pf_request_id pf)
                     (traceback_for owner (mi_name mi) (exception_type_of e) (ex_what e)));
         mret (r, Some e));
  log_batches ← flush_logs (mi_result_schema mi);
  let external := match failure with None => external_ref_ result | Some _ => None end in
  result_ab ←
    match external with
    | Some r => lift (pointer_batch r (mi_result_schema mi))
    | None => route_output (batch_ result)
    end;
  on_wire (write_ipc_stream (mi_result_schema mi) (log_batches ++ [result_ab]));;
  log_call owner (mi_name mi) false (ctx_caller _ ctx) failure false request;;
  mret (bool_decide (is_Some failure), bool_decide (is_Some external)).

Definition new_context (kind : TransportKind) (caller : Caller) : CallContext Caller :=
  {| ctx_server_id := server_id_ srv; ctx_request_id := pf_request_id pf;
     ctx_transport_kind := kind; ctx_caller := caller;
     ctx_response_limit_bytes := None; ctx_preferred_response_bytes := None |}.

Definition reset_sink : M world unit :=
  modify (fun w => set_sink w (new_LogSink (server_id_ srv) (pf_request_id pf))).

Definition serve_unary (mi : method_info) (owner : ProtocolIdentity) (request : Request)
    (kind : TransportKind) (caller : Caller) : M world unit :=
  reset_sink;;
  _ ← serve_unary_impl mi owner request (new_context kind caller);
  mret tt.

(** *** Streams *)

(** [cause]: [None] is the factory breaking the framework's own contract. *)
Definition handle_factory_error (owner : ProtocolIdentity) (mi : method_info) (type message : bytes)
    (cause : option exception) : M world unit :=
  let extras := match cause with
                | Some e => error_extras_of e []
                | None => {| ee_code := code_name INTERNAL; ee_details := JArray []; ee_traceback := [] |}
                end in
  let extras := {| ee_code := ee_code extras; ee_details := ee_details extras;
                   ee_traceback := traceback_for owner (mi_name mi) type message |} in
  respond_error type message (match cause with Some e => error_kind_of e | None => [] end) extras;;
  try_catch (_ ← on_wire read_ipc_stream; mret tt) (fun _ => mret tt).

Fixpoint write_each (abs : list AnnotatedBatch) : M world unit :=
  match abs with
  | [] => mret tt
  | ab :: abs' => on_wire (write_annotated ab);; write_each abs'
  end.

Fixpoint write_routed (abs : list AnnotatedBatch) : M world unit :=
  match abs with
  | [] => mret tt
  | ab :: abs' =>
      ab ← route_output ab; on_wire (write_annotated ab);; write_routed abs'
  end.

Definition write_stream_error (s : Schema) (type : bytes) (e : exception) (traceback : bytes)
    : M world unit :=
  w ← get;
  b ← lift (make_empty_batch s);
  md ← lift (make_error_metadata (current_scope w) type (ex_what e) (server_id_ srv)
               (pf_request_id pf) (error_kind_of e) (error_extras_of e traceback));
  on_wire (WriteRecordBatch b (Some md)).

(** A pointer input is resolved against the connection's segment. *)
Definition resolve_input (b : RecordBatch) (md : metadata)
    : M world (RecordBatch * metadata * Z) :=
  if is_shm_pointer_batch (Some b) md then
    w ← get;
    match shm (w_conn w) with
    | None => raise (EOther (str "Stream input carries a shared-memory pointer but no segment is attached."))
    | Some seg =>
        '(b', md', offset) ← lift (resolve_shm_batch (Some b) (Some md) (Some seg));
        mret (default b b', match md' with Some md' => md' | None => md end, offset)
    end
  else mret (b, md, -1).

(** [state->process(input_ab, out, stream_ctx)]. *)
Definition process_turn (st : StreamState) (ctx : CallContext Caller) (input_ab : AnnotatedBatch)
    (out : OutputCollector) : M world OutputCollector := fun w =>
  let '(r, out, sink, app) :=
    run_turn array_length (process st ctx input_ab (w_app w)) out (w_sink w) in
  let w := set_sink (set_app w app) sink in
  match r with Done _ => (Done out, w) | Raised e => (Raised e, w) end.

Definition run_on_cancel (st : StreamState) (ctx : CallContext Caller) : M world unit := fun w =>
  let '(logs, _, app) := on_cancel st ctx (w_app w) in
  (Done tt, set_sink (set_app w app) (emit_all (w_sink w) logs)).

Definition is_cancel (md : metadata) : bool :=
  match md with Some md => 0 <=? FindKey md CANCEL | None => false end.

(** One turn: whether the stream is finished. *)
Definition stream_turn (st : StreamState) (ctx : CallContext Caller) (input_schema output_schema : Schema)
    (b : RecordBatch) (md : metadata) : M world bool :=
  let is_producer := (length (fields input_schema) =? 0)%nat in
  '(raw_input, md, input_free_offset) ← resolve_input b md;
  input_batch ← (if is_producer then mret raw_input else coerce_input_batch raw_input input_schema);
  out ← process_turn st ctx {| ab_batch := input_batch; custom_metadata := md |}
          (new_OutputCollector output_schema is_producer (server_id_ srv) (pf_request_id pf));
  stream_logs ← flush_logs output_schema;
  write_each stream_logs;;
  write_routed (batches_ out);;
  free_input input_free_offset;;
  mret (finished_ out).

(** [while (true)]: whether the client cancelled.  Every round takes a message,
    so the number of messages is enough [fuel]. *)
Fixpoint stream_loop (fuel : nat) (st : StreamState) (ctx : CallContext Caller)
    (input_schema output_schema : Schema) : M world bool :=
  match fuel with
  | O => mret false
  | S fuel' =>
      next ← on_wire read_next;
      peer_acts;;
      match next with
      | NextError _ | NextEnd => mret false
      | NextBatch b md =>
          if is_cancel md then run_on_cancel st ctx;; mret true
          else
            finished ← stream_turn st ctx input_schema output_schema b md;
            if (finished : bool) then mret false
            else stream_loop fuel' st ctx input_schema output_schema
      end
  end.

(** From the first input message to the drained input. *)
Definition serve_turns (mi : method_info) (owner : ProtocolIdentity) (request : Request)
    (ctx : CallContext Caller) (st : StreamState) (input_schema output_schema : Schema)
    : M world unit :=
  opened ← on_wire open_reader;
  match opened with
  | OpenOk _ =>
      ok ← on_wire (MakeStreamWriter output_schema);
      if negb ok then mret tt
      else
        init_logs ← flush_logs output_schema;
        write_each init_logs;;
        w ← get;
        '(cancelled, failure) ←
          try_catch
            (c ← stream_loop (S (length (input (w_wire w)))) st ctx input_schema output_schema;
             mret (c, None))
            (fun e =>
               write_stream_error output_schema (exception_type_of e) e
                 (traceback_for owner (mi_name mi) (exception_type_of e) (ex_what e));;
               mret (false, Some e));
        try_catch (on_wire Close) (fun _ => mret tt);;
        on_wire drain_reader;;
        log_call owner (mi_name mi) true (ctx_caller _ ctx) failure cancelled request
  | _ => mret tt
  end.

Definition write_header (header : RecordBatch) : M world unit :=
  init_logs ← flush_logs (schema header);
  on_wire (write_ipc_stream (schema header) (init_logs ++ [data header])).

Definition serve_stream (mi : method_info) (owner : ProtocolIdentity) (request : Request)
    (kind : TransportKind) (caller : Caller) : M world unit :=
  let ctx := new_context kind caller in
  reset_sink;;
  factory ←
    try_catch (s ← run_handler (mi_stream_factory mi) request ctx; mret (inl s))
      (fun e => mret (inr e));
  match factory with
  | inr e => handle_factory_error owner mi (exception_type_of e) (ex_what e) (Some e)
  | inl stream_result =>
      match st_output_schema stream_result, st_input_schema stream_result, st_state stream_result with
      | None, _, _ =>
          handle_factory_error owner mi (str "RuntimeError")
            (str "Stream factory returned null output_schema") None
      | _, None, _ =>
          handle_factory_error owner mi (str "RuntimeError")
            (str "Stream factory returned null input_schema") None
      | _, _, None =>
          handle_factory_error owner mi (str "RuntimeError")
            (str "Stream factory returned null state") None
      | Some output_schema, Some input_schema, Some st =>
          match st_header stream_result with Some h => write_header h | None => mret tt end;;
          serve_turns mi owner request ctx st input_schema output_schema
      end
  end.
End serve.

(** ** Framework protocols

    [vgi_rpc.Identity.v2] is served by token_identity.cpp: an interface here. *)
Class IdentityDispatch `{Arrow} (Caller App : Type) `{!IdentityService Caller App} := {
  serve_identity :
    Platform -> Server Caller App -> bytes -> RecordBatch -> Caller -> M (World Caller App) bool;
}.

Definition ERROR_KIND_METHOD_NOT_IMPLEMENTED : bytes := str "method_not_implemented".
Definition ERROR_KIND_PROTOCOL_NOT_SUPPORTED : bytes := str "protocol_not_supported".
Definition ERROR_KIND_PROTOCOL_NOT_SPECIFIED : bytes := str "protocol_not_specified".
Definition ERROR_KIND_PROTOCOL_VERSION_MISMATCH : bytes := str "protocol_version_mismatch".
Definition RETIRED_DESCRIBE_METHOD : bytes := str "__describe__".
Definition RETIRED_DESCRIBE_MESSAGE : bytes := str "'__describe__' was retired. Introspection is now the 'vgi_rpc.Reflection.v1' protocol: call 'list_protocols' for what this server hosts, then 'describe' for one protocol's methods.".

(** [std::sort] of method names. *)
Fixpoint insert_name (n : bytes) (ns : list bytes) : list bytes :=
  match ns with
  | [] => [n]
  | n' :: ns' => if bytes_ltb n n' then n :: ns else n' :: insert_name n ns'
  end.

Definition quoted (n : bytes) : bytes := str "'" ++ n ++ str "'".

(** Names with [", "] between them. *)
Fixpoint comma_list (ns : list bytes) : bytes :=
  match ns with
  | [] => []
  | [n] => n
  | n :: ns' => n ++ str ", " ++ comma_list ns'
  end.

Section serve_one.
Context {arrow : Arrow} {afields : ArrowFields} {types : ArrowTypes} {streams : ArrowStreams}
  {build_ : ArrowBuild} {kvm : KeyValueMetadata} {J : JsonText} {D : Digests} {Caller App : Type}
  {identity : IdentityService Caller App} {identity_dispatch : IdentityDispatch Caller App}
  (array_length : Array -> Z) (pf : Platform) (srv : Server Caller App).

Abbreviation world := (World Caller App).

(** The result is [*errored]. *)
Definition reflection_fail (method_name : bytes) (request_batch : RecordBatch)
    (type message kind : bytes) : M world bool :=
  respond_error pf srv type message kind no_extras;;
  log_framework_call pf srv (reflection_binding_ srv) method_name request_batch type message [] None;;
  mret true.

Definition hosts_identity : bool := negb (length (pi_name (identity_binding_ srv)) =? 0)%nat.

Definition protocol_summaries : list ProtocolSummary :=
  map (fun p => {| ps_protocol := sp_name p; ps_version := sp_version p;
                   ps_hash := pi_hash (sp_binding p) |}) (protocols_ srv)
  ++ [{| ps_protocol := kReflectionProtocolName; ps_version := [];
         ps_hash := pi_hash (reflection_binding_ srv) |}]
  ++ (if hosts_identity then
        [{| ps_protocol := kIdentityProtocolName; ps_version := [];
            ps_hash := pi_hash (identity_binding_ srv) |}]
      else []).

(** The string parameter of [describe]. *)
Definition requested_protocol (request_batch : RecordBatch) : bytes :=
  match GetColumnByName request_batch (str "protocol") with
  | Some col => default [] (first_string col)
  | None => []
  end.

(** What [describe] describes: [None] is a protocol that is not hosted. *)
Definition describe_payload (requested : bytes) : option (res bytes) :=
  let hosted_protocol :=
    match (if (length requested =? 0)%nat then None else find_protocol srv requested) with
    | Some p => Some p
    | None =>
        if bool_decide (requested = sp_name (front_protocol srv)) then Some (front_protocol srv)
        else None
    end in
  match hosted_protocol with
  | Some p =>
      Some (BuildServiceDescription (sp_name p) (sp_version p) (pi_hash (sp_binding p)) (sp_methods p))
  | None =>
      if bool_decide (requested = kReflectionProtocolName) then
        Some (BuildServiceDescription kReflectionProtocolName [] (pi_hash (reflection_binding_ srv))
                (ReflectionMethods (Caller := Caller) (App := App)))
      else if hosts_identity && bool_decide (requested = kIdentityProtocolName) then
        Some (BuildServiceDescription kIdentityProtocolName [] (pi_hash (identity_binding_ srv))
                (identity_methods_ srv))
      else None
  end.

Definition send_payload (method_name : bytes) (request_batch : RecordBatch) (payload : res bytes)
    : M world bool :=
  match payload with
  | Throw e =>
      reflection_fail method_name request_batch (str "RuntimeError")
        (match e with RuntimeError w => w | _ => [] end) []
  | Ok payload =>
      let schema := make_schema [BinaryField (str "result")] in
      arr ← lift (BinaryArray [payload]);
      on_wire (write_ipc_stream schema [batch_ (Result_value (RecordBatch_Make schema 1 [arr]))]);;
      log_framework_call pf srv (reflection_binding_ srv) method_name request_batch [] [] [] None;;
      mret false
  end.

Definition serve_reflection (method_name : bytes) (request_batch : RecordBatch) : M world bool :=
  if bool_decide (method_name = str "list_protocols") then
    send_payload method_name request_batch
      (BuildProtocolList (server_id_ srv) [] REQUEST_VERSION_VALUE protocol_summaries)
  else if bool_decide (method_name = str "describe") then
    let requested := requested_protocol request_batch in
    match describe_payload requested with
    | Some payload => send_payload method_name request_batch payload
    | None =>
        let hosted := concat (map (fun p => sp_name p ++ str ", ") (protocols_ srv))
                      ++ kReflectionProtocolName
                      ++ (if hosts_identity then str ", " ++ kIdentityProtocolName else []) in
        reflection_fail method_name request_batch (str "ProtocolNotSupportedError")
          (str "This server does not host protocol '" ++ requested ++ str "'. Hosted: [" ++ hosted
           ++ str "]") ERROR_KIND_PROTOCOL_NOT_SUPPORTED
    end
  else
    reflection_fail method_name request_batch (str "AttributeError")
      (str "Protocol '" ++ kReflectionProtocolName ++ str "' has no method '" ++ method_name
       ++ str "'. Available: ['describe', 'list_protocols']") [].

(** ** Routing

    The binding a request addresses, or the refusal to write. *)
Definition route (method_name : bytes) (custom_metadata : metadata)
    : (bytes * bytes * bytes) + ServedProtocol Caller App :=
  let front := front_protocol srv in
  if IsApplicationMethod method_name && negb (length (sp_name front) =? 0)%nat then
    let wire_protocol := get_metadata_value custom_metadata PROTOCOL [] in
    if (length wire_protocol =? 0)%nat then
      let hosted := concat (map (fun p => quoted (sp_name p) ++ str ", ") (protocols_ srv))
                    ++ quoted kReflectionProtocolName in
      inl (str "ProtocolNotSpecifiedError",
           str "Request carries no 'vgi_rpc.protocol' routing key. Every request must name the protocol it addresses. This server hosts: ["
           ++ hosted ++ str "]"
           ++ (match identity_ srv with Some _ => str " and " ++ quoted kIdentityProtocolName | None => [] end)
           ++ str ".", ERROR_KIND_PROTOCOL_NOT_SPECIFIED)
    else
      match find_protocol srv wire_protocol with
      | None =>
          inl (str "ProtocolNotSupportedError",
               str "This server does not host the named protocol. It hosts: "
               ++ comma_list (map (fun p => quoted (sp_name p)) (protocols_ srv)) ++ str ".",
               ERROR_KIND_PROTOCOL_NOT_SUPPORTED)
      | Some target => inr target
      end
  else inr front.

Abbreviation method_info := (@MethodInfo arrow Caller App).

(** The method of the binding, or the refusal. *)
Definition find_method (target : ServedProtocol Caller App) (method_name : bytes)
    : (bytes * bytes * bytes) + method_info :=
  match sp_methods target !! method_name with
  | Some mi => inr mi
  | None =>
      if bool_decide (method_name = RETIRED_DESCRIBE_METHOD) then
        inl (str "MethodNotImplementedError", RETIRED_DESCRIBE_MESSAGE,
             ERROR_KIND_METHOD_NOT_IMPLEMENTED)
      else
        let names := foldr insert_name [] (map fst (map_to_list (sp_methods target))) in
        inl (str "MethodNotImplementedError",
             str "Unknown method: '" ++ method_name ++ str "'. Available methods: ["
             ++ comma_list (map quoted names) ++ str "]",
             ERROR_KIND_METHOD_NOT_IMPLEMENTED)
  end.

Definition uses_shm (custom_metadata : metadata) : bool :=
  match custom_metadata with
  | Some md => (0 <=? FindKey md SHM_OFFSET) || (0 <=? FindKey md SHM_SEGMENT_NAME)
  | None => false
  end.

Definition set_call_shm (b : bool) : M world unit := modify (fun w =>
  let c := w_conn w in
  set_conn w {| shm := shm c; shm_name := shm_name c; call_shm := b |}).

(** A pointer request is resolved; [inl] is the text of the refusal. *)
Definition resolve_request (batch : RecordBatch) (custom_metadata : metadata)
    : M world (bytes + (RecordBatch * metadata * Z)) :=
  if is_shm_pointer_batch (Some batch) custom_metadata then
    w ← get;
    match shm (w_conn w) with
    | None =>
        mret (inl (str "Request carries a shared-memory pointer but no segment is attached."))
    | Some seg =>
        match resolve_shm_batch (Some batch) (Some custom_metadata) (Some seg) with
        | Throw e => mret (inl (ex_what (exception_of e)))
        | Ok (b, md, offset) =>
            mret (inr (default batch b, match md with Some md => md | None => custom_metadata end,
                       offset))
        end
    end
  else mret (inr (batch, custom_metadata, -1)).

(** From the shared-memory step on. *)
Definition call_method (target : ServedProtocol Caller App) (mi : method_info) (batch : RecordBatch)
    (custom_metadata : metadata) (kind : TransportKind) (caller : Caller) : M world bool :=
  refresh_shm pf custom_metadata;;
  set_call_shm (uses_shm custom_metadata);;
  resolved ← resolve_request batch custom_metadata;
  match resolved with
  | inl message => refuse pf srv (str "ProtocolError") message [];; mret true
  | inr (batch, custom_metadata, shm_free_offset) =>
      let error := parameter_contract_error batch (mi_params_schema mi) in
      if nonempty error then refuse pf srv (str "ProtocolError") error [];; mret true
      else
        let request := {| req_batch := batch; req_metadata := custom_metadata |} in
        match mi_method_type mi with
        | UNARY => serve_unary pf srv mi (sp_binding target) request kind caller
        | STREAM => serve_stream array_length pf srv mi (sp_binding target) request kind caller
        end;;
        free_input shm_free_offset;;
        set_call_shm false;;
        mret true
  end.

(** From the routing step on. *)
Definition serve_application (method_name : bytes) (batch : RecordBatch) (custom_metadata : metadata)
    (kind : TransportKind) (caller : Caller) : M world bool :=
  match route method_name custom_metadata with
  | inl (type, message, error_kind) => refuse pf srv type message error_kind;; mret true
  | inr target =>
      set_where (match sp_name target with
                 | [] => method_name
                 | name => name ++ str "/" ++ method_name
                 end);;
      let reason :=
        if IsApplicationMethod method_name then protocol_version_error target custom_metadata
        else [] in
      if nonempty reason then
        respond_error pf srv (str "ProtocolVersionError") reason ERROR_KIND_PROTOCOL_VERSION_MISMATCH
          (protocol_version_extras target custom_metadata);;
        mret true
      else
        match find_method target method_name with
        | inl (type, message, error_kind) => refuse pf srv type message error_kind;; mret true
        | inr mi => call_method target mi batch custom_metadata kind caller
        end
  end.

(** One decoded request. *)
Definition serve_request (batch : RecordBatch) (custom_metadata : metadata) (kind : TransportKind)
    (caller : Caller) : M world bool :=
  let method_name := get_metadata_value custom_metadata METHOD [] in
  if (length method_name =? 0)%nat then
    refuse pf srv (str "ProtocolError")
      (str "Missing 'vgi_rpc.method' in request batch custom_metadata.") [];; mret true
  else
    let version := get_metadata_value custom_metadata REQUEST_VERSION [] in
    if (length version =? 0)%nat then
      refuse pf srv (str "VersionError") (str "Missing 'vgi_rpc.request_version' in request batch custom_metadata. Set the 'vgi_rpc.request_version' custom_metadata value to '1'.") [];; mret true
    else if negb (bool_decide (version = REQUEST_VERSION_VALUE)) then
      refuse pf srv (str "VersionError")
        (str "Unsupported request version '" ++ version ++ str "', expected '1'.") [];; mret true
    else
      let protocol := get_metadata_value custom_metadata PROTOCOL [] in
      if bool_decide (protocol = kReflectionProtocolName) then
        set_where (kReflectionProtocolName ++ str "/" ++ method_name);;
        _ ← serve_reflection method_name batch;
        mret true
      else if bool_decide (protocol = kIdentityProtocolName) then
        set_where (kIdentityProtocolName ++ str "/" ++ method_name);;
        _ ← serve_identity pf srv method_name batch caller;
        mret true
      else serve_application method_name batch custom_metadata kind caller.

(** [false]: the connection is at its end. *)
Definition serve_one_with_state (kind : TransportKind) (caller : Caller) : M world bool :=
  zoom (fun w => (w_bound w, w_app w)) set_bound (notify_serve_start srv kind);;
  set_where [];;
  contents ← on_wire read_ipc_stream;
  peer_acts;;
  match contents with
  | Some (_, first_batch :: _) =>
      serve_request (ab_batch first_batch) (custom_metadata first_batch) kind caller
  | _ => mret false
  end.
End serve_one.

(** How [Server::run] ended: [Thrown] is an exception that leaves it. *)
Inductive run_end :=
  | Closed
  | Fatal (e : exception)
  | Thrown (e : exception)
  | Unfinished.

Section run.
Context {arrow : Arrow} {afields : ArrowFields} {types : ArrowTypes} {streams : ArrowStreams}
  {build_ : ArrowBuild} {kvm : KeyValueMetadata} {J : JsonText} {D : Digests} {Caller App : Type}
  {identity : IdentityService Caller App} {identity_dispatch : IdentityDispatch Caller App}
  (array_length : Array -> Z) (srv : Server Caller App) (platform : nat -> Platform)
  (caller : Caller).

(** [while (true)]: every served request takes a message, so one more than the
    number of messages is enough [fuel].  [platform n] is what the platform
    supplies to the [n]-th request. *)
Fixpoint run_loop (fuel n : nat) (w : World Caller App) : run_end * World Caller App :=
  match fuel with
  | O => (Unfinished, w)
  | S fuel' =>
      match serve_one_with_state array_length (platform n) srv PIPE caller w with
      | (Raised e, w') => (Fatal e, w')
      | (Done false, w') => (Closed, w')
      | (Done true, w') => run_loop fuel' (S n) w'
      end
  end.

Definition run (fuel : nat) (w : World Caller App) : run_end * World Caller App :=
  match zoom (fun w => (w_bound w, w_app w)) set_bound (notify_serve_start srv PIPE) w with
  | (Raised e, w') => (Thrown e, w')
  | (Done _, w') => run_loop fuel 0 w'
  end.
End run.

(** ** A concrete instance *)

Module ToyDispatch.
Import ToyArrow ToyStreams ToyJson ToyIdentity.

(** A server that hosts no identity methods refuses. *)
#[export] Instance toy_dispatch {App} : IdentityDispatch unit App := {|
  serve_identity pf srv _ _ _ :=
    refuse pf srv (str "RuntimeError") (str "This server does not host protocol 'vgi_rpc.Identity.v2'.") [];;
    mret true;
|}.
End ToyDispatch.
