(* ===== verification/Demo.v ===== *)
(** * A concrete server

    A built server over the toy instances of the Arrow and platform interfaces,
    on which the properties of dispatch are instantiated: the unary methods
    [echo] (logs, counts and returns its
    batch) and [fail] (raises), and the
    exchange stream [copy] (returns each input, raises on the byte zero). *)

From S2P Require Import Prelude Memory Arrow Json Crypto Grants Errors Shm ShmPointer.
From S2P Require Import Wire Calls ProtocolHash Reflection Server Dispatch.

Import ToyArrow ToyStreams ToyJson ToyTypes ToyBuild Toy ToyIdentity ToyDispatch.

Definition a_message (text : bytes) : Message :=
  {| msg_level := INFO; msg_message := text; msg_extra := JNull |}.

Definition echo (request : Request) (ctx : CallContext unit) (calls : Z)
    : list Message * outcome Result * Z :=
  ([a_message (str "echoing")], Done (Result_value (toy_data_batch (toy_data (req_batch request)))), calls + 1).

Definition fail_ (request : Request) (ctx : CallContext unit) (calls : Z)
    : list Message * outcome Result * Z :=
  ([], Raised (EInvalidArgument (str "no good")), calls + 1).

Definition copy_state : @StreamState toy_arrow unit Z := {|
  is_producer_state := false;
  process ctx input calls :=
    if bool_decide (toy_data (ab_batch input) = [x00]) then
      TRaise (EOther (str "zero")) (calls + 1)
    else TCollectorLog INFO (str "copying") (fun _ =>
           TEmitBatch (ab_batch input) None (fun _ => TReturn (calls + 1)));
  on_cancel ctx calls := ([], Done tt, calls + 100);
|}.

Definition copy (request : Request) (ctx : CallContext unit) (calls : Z)
    : list Message * outcome Stream * Z :=
  ([a_message (str "opened")],
   Done {| st_output_schema := Some toy_schema; st_input_schema := Some toy_schema;
           st_state := Some copy_state; st_header := None |}, calls + 1).

Definition demo_builder : res (ProtocolBuilder unit Z) :=
  b ← add_unary (str "echo") (Some toy_schema) (Some toy_schema) echo []
        {| pb_name := str "demo.v1"; pb_version := str "1.2.0"; pb_methods := [] |};
  b ← add_unary (str "fail") (Some toy_schema) (Some toy_schema) fail_ [] b;
  add_exchange (str "copy") (Some toy_schema) (Some toy_schema) (Some toy_schema) copy [] None b.

Definition demo_build : res (Server unit Z) :=
  b ← demo_builder;
  (build (fun _ => true) (fun _ => None) false (str "srv") (set_protocols new_ServerBuilder b [])).1.

Definition empty_server : Server unit Z :=
  {| protocols_ := []; server_id_ := []; include_tracebacks_ := false;
     reflection_binding_ := no_binding; identity_binding_ := no_binding; identity_methods_ := ∅;
     access_log_enabled := false; identity_ := None; on_serve_start_ := None |}.

Definition demo_server : Server unit Z :=
  Eval vm_compute in match demo_build with Ok srv => srv | Throw _ => empty_server end.

Definition demo_platform : Platform :=
  {| pf_posix _ := {| opens := false; truncates := false; st_size := None; mapping := None |}; pf_shm_min := None;
     pf_request_id := str "r1"; pf_stream_id := str "s1";
     pf_freshness_ns := 0; pf_mint_ns := 0; pf_random_id := []; pf_random_nonce := [] |}.

Definition demo_world (i : list message) : World unit Z :=
  {| w_wire := toy_wire i; w_app := 0; w_bound := None; w_conn := new_ConnectionState;
     w_access := []; w_peer := []; w_sink := new_LogSink [] []; w_where := [] |}.

Definition demo_request (method : bytes) (d : byte) : AnnotatedBatch :=
  with_metadata (toy_data_batch [d])
    [(METHOD, method); (REQUEST_VERSION, str "1"); (PROTOCOL, str "demo.v1");
     (PROTOCOL_VERSION, str "1.2.9")].

Definition demo_serve (i : list message) : outcome bool * World unit Z :=
  serve_one_with_state (fun _ => 0) demo_platform demo_server PIPE tt (demo_world i).
