(* ===== verification/Serving.v ===== *)
(** * What dispatch guarantees about a connection

    Lemmas on the functions of [Dispatch] over a pipe that does not break, and
    the properties of serving a request: every request is answered by complete
    streams, refusals run no application code, a stream's input is drained. *)

From S2P Require Import Prelude Memory Arrow Json Crypto Grants Errors Shm ShmPointer.
From S2P Require Import Wire Calls ProtocolHash Reflection Server Dispatch.

(** ** Sending through the segment *)

Section shm_total.
Context {arrow : Arrow} {streams : ArrowStreams} {kvm : KeyValueMetadata} {alaws : ArrowLaws}
  {slaws : ArrowStreamsLaws} {total : ArrowTotal}.

Lemma serialize_dictionary_batch_total b : exists bs, serialize_dictionary_batch b = Ok bs.
Proof.
  unfold serialize_dictionary_batch. destruct (buffer_total b) as [full Efull]. rewrite Efull.
  cbn [mbind res_bind].
  destruct (stream_format b full Efull) as (sm & hdr & ms & parts & Hsm & HF & Efmt & Eempty).
  subst full. destruct (read_message sm hdr (concat parts ++ kIpcEos) Hsm) as [_ ->].
  cbn [mbind res_bind]. rewrite (keep_messages_all ms); [by eexists|done|].
  rewrite length_app. pose proof (parts_length _ _ HF). lia.
Qed.

Lemma allocate_and_write_total seg b : exists r, allocate_and_write seg b = Ok r.
Proof.
  unfold allocate_and_write. destruct (has_dictionary_columns _).
  - destruct (serialize_dictionary_batch_total b) as [bs ->]. cbn [mbind res_bind].
    destruct (allocate _ _) as [seg' [off|]]; by eexists.
  - destruct (estimate_stream_size b); [|by eexists].
    destruct (allocate _ _) as [seg' [off|]]; [|by eexists].
    destruct (stream_writes b) as [chunks ok], (sink_writes _ _) as [sink ok'].
    destruct (ok' && ok); by eexists.
Qed.

(** What is sent has the batch's schema; a batch without rows is sent as it is. *)
Lemma maybe_write_to_shm_total env b md seg :
  exists b' md' seg', maybe_write_to_shm env (Some b) (Some md) seg = Ok (Some b', Some md', seg') /\
    schema_equal (schema b') (schema b) = true /\ (num_rows b = 0 -> b' = b /\ md' = md).
Proof.
  unfold maybe_write_to_shm. destruct seg as [seg|]; [|do 3 eexists; split; [done|];
    split; [apply schema_equal_refl|done]].
  destruct (Z.eqb_spec (num_rows b) 0); [do 3 eexists; split; [done|]; split; [apply schema_equal_refl|done]|].
  destruct (_ <? _); [do 3 eexists; split; [done|]; split; [apply schema_equal_refl|done]|].
  destruct (allocate_and_write_total seg b) as [[seg' [[off len]|]] ->]; cbn [mbind res_bind].
  - destruct (make_empty_batch_total (schema b)) as [e Ee]. rewrite Ee. cbn [mbind res_bind].
    apply make_empty_batch_ok in Ee as [_ Es].
    do 3 eexists. split; [done|]. split; [rewrite Es; apply schema_equal_refl|done].
  - do 3 eexists. split; [done|]. split; [apply schema_equal_refl|done].
Qed.
End shm_total.

(** ** Effects on the connection *)

Section effects.
Context {arrow : Arrow} {afields : ArrowFields} {types : ArrowTypes} {streams : ArrowStreams}
  {build_ : ArrowBuild} {kvm : KeyValueMetadata} {J : JsonText} {D : Digests} {Caller App : Type}
  {identity : IdentityService Caller App}
  {alaws : ArrowLaws} {slaws : ArrowStreamsLaws} {total : ArrowTotal} {kvlaws : KeyValueMetadataLaws}
  {jtotal : JsonTextTotal}
  (array_length : Array -> Z) (pf : Platform) (srv : Server Caller App).

Abbreviation world := (World Caller App).

(** Complete streams, one after another. *)
Definition stream_list (l : list (Schema * list AnnotatedBatch)) : list message :=
  concat (map (fun st => stream_messages st.1 st.2) l).

(** Everything but the output is as it was. *)
Definition answered (w w' : world) (l : list (Schema * list AnnotatedBatch)) : Prop :=
  exists wr, w_wire w' = sent (w_wire w) (stream_list l) wr.

Definition same_app (w w' : world) : Prop := w_app w' = w_app w.

Lemma answered_trans w1 w2 w3 l1 l2 :
  answered w1 w2 l1 -> answered w2 w3 l2 -> answered w1 w3 (l1 ++ l2).
Proof.
  intros [wr1 E1] [wr2 E2]. exists wr2. rewrite E2, E1, sent_sent. unfold stream_list.
  by rewrite map_app, concat_app.
Qed.

Lemma answered_room w w' l : answered w w' l -> room (w_wire w') = room (w_wire w).
Proof. by intros [wr ->]. Qed.

Lemma stream_list_one s abs : stream_list [(s, abs)] = stream_messages s abs.
Proof. unfold stream_list. cbn. by rewrite app_nil_r. Qed.

Lemma on_wire_write s abs (w : world) :
  room (w_wire w) = None -> Forall (fits s) abs ->
  on_wire (write_ipc_stream s abs) w =
    (Done tt, set_wire w (sent (w_wire w) (stream_messages s abs) None)).
Proof.
  intros Hr Hf. unfold on_wire, zoom.
  by rewrite (write_ipc_stream_spec s abs) by (done || apply writer_total).
Qed.

Lemma set_wire_answered (w : world) s abs :
  answered w (set_wire w (sent (w_wire w) (stream_messages s abs) None)) [(s, abs)].
Proof. exists None. by rewrite stream_list_one. Qed.

(** An error batch on a schema. *)
Lemma Result_error_total scope s type message sid rid kind extras :
  exists b md, Result_error scope s type message sid rid kind extras =
      Ok (Result_from_annotated_batch (with_metadata b md)) /\
    make_error_metadata scope type message sid rid kind extras = Ok md /\
    num_rows b = 0 /\ schema_equal (schema b) s = true.
Proof.
  unfold Result_error. destruct (make_empty_batch_total s) as [b Eb]. rewrite Eb.
  destruct (make_error_metadata_total scope type message sid rid kind extras) as [md Em]. rewrite Em.
  cbn. exists b, md. apply make_empty_batch_ok in Eb as [Hr Hs]. rewrite Hs.
  split; [done|]. split; [done|]. split; [done|]. apply schema_equal_refl.
Qed.

Lemma Result_exception_total scope s e sid rid tb :
  exists b md, Result_exception scope s e sid rid tb =
      Ok (Result_from_annotated_batch (with_metadata b md)) /\
    make_exception_metadata scope e sid rid tb = Ok md /\
    num_rows b = 0 /\ schema_equal (schema b) s = true.
Proof.
  unfold Result_exception, make_exception_metadata.
  destruct (Result_error_total scope s (exception_type_of e) (ex_what e) sid rid (error_kind_of e)
    (error_extras_of e tb)) as (b & md & E & Em & Hr & Hs).
  unfold Result_error in E. destruct (make_empty_batch s) as [b'|]; [|done].
  cbn [mbind res_bind] in *. rewrite Em in *. cbn [mbind res_bind] in *. injection E as ->.
  exists b, md. done.
Qed.

(** A framework refusal is one stream on the empty schema and touches nothing
    else. *)
Lemma respond_error_spec type message kind extras (w : world) :
  room (w_wire w) = None ->
  exists b md,
    respond_error pf srv type message kind extras w =
      (Done tt, set_wire w (sent (w_wire w)
        (stream_messages empty_schema [with_metadata b md]) None)) /\
    make_error_metadata (current_scope srv w) type message (server_id_ srv) (pf_request_id pf) kind
      extras = Ok md /\ num_rows b = 0.
Proof.
  intros Hr. unfold respond_error.
  destruct (Result_error_total (current_scope srv w) empty_schema type message (server_id_ srv)
    (pf_request_id pf) kind extras) as (b & md & E & Em & Hrows & Hs).
  exists b, md. split; [|done]. rewrite (bind_done _ _ w w w) by done. cbv beta. rewrite E. cbn [lift].
  rewrite (bind_done _ _ w (Result_from_annotated_batch (with_metadata b md)) w) by done.
  apply on_wire_write; [done|]. by repeat constructor.
Qed.

Lemma emit_record_spec r (w : world) :
  exists w', emit_record srv r w = (Done tt, w') /\ w_wire w' = w_wire w /\ w_app w' = w_app w /\
    w_conn w' = w_conn w.
Proof. unfold emit_record. destruct (access_log_enabled srv); eexists; done. Qed.

Lemma route_output_plain ab (w : world) :
  call_shm (w_conn w) = false -> route_output pf ab w = (Done ab, w).
Proof.
  intros Hc. unfold route_output. rewrite (bind_done _ _ w w w) by done. cbv beta zeta. rewrite Hc.
  cbn [maybe_write_to_shm lift]. rewrite (bind_done _ _ w (Some (ab_batch ab), Some (custom_metadata ab), None) w) by done.
  cbv beta iota. rewrite (bind_done _ _ w tt w) by done. by destruct ab.
Qed.

Lemma route_output_spec ab (w : world) :
  exists ab' w', route_output pf ab w = (Done ab', w') /\
    w_wire w' = w_wire w /\ w_app w' = w_app w /\ w_access w' = w_access w /\ w_sink w' = w_sink w /\
    schema_equal (schema (ab_batch ab')) (schema (ab_batch ab)) = true /\
    (num_rows (ab_batch ab) = 0 \/ call_shm (w_conn w) = false -> ab' = ab).
Proof.
  destruct (call_shm (w_conn w)) eqn:Hc; cycle 1.
  { exists ab, w. rewrite route_output_plain by done. do 5 (split; [done|]).
    split; [apply schema_equal_refl|done]. }
  unfold route_output. rewrite (bind_done _ _ w w w) by done. cbv beta zeta. rewrite Hc.
  destruct (maybe_write_to_shm_total (pf_shm_min pf) (ab_batch ab) (custom_metadata ab)
    (shm (w_conn w))) as (b & md & seg & -> & Hs & Hz).
  cbn [lift]. rewrite (bind_done _ _ w (Some b, Some md, seg) w) by done. cbv beta iota.
  set (w' := set_conn w (set_segment (w_conn w) seg)).
  rewrite (bind_done _ _ w tt w') by done.
  exists {| ab_batch := b; custom_metadata := md |}, w'.
  split; [done|]. do 4 (split; [done|]). split; [done|].
  intros [Hrows|]; [|done]. destruct (Hz Hrows) as [-> ->]. by destruct ab.
Qed.

(** *** Logs *)

Definition log_keys (md : kv_list) : Prop := LOG_LEVEL ∈ md.*1 /\ LOG_MESSAGE ∈ md.*1.
Definition sink_wf (sink : LogSink) : Prop := Forall log_keys (buffered_ sink).

Lemma LogSink_emit_wf sink m : sink_wf sink -> sink_wf (LogSink_emit sink m).
Proof.
  intros H. unfold sink_wf, LogSink_emit. cbn [buffered_]. apply Forall_app. split; [done|].
  constructor; [|done]. split; apply id_md_in, append_if_in, log_md_keys.
Qed.

Lemma emit_all_wf sink ms : sink_wf sink -> sink_wf (emit_all sink ms).
Proof.
  revert sink; induction ms as [|m ms IH]; intros sink H; [done|]. apply IH. by apply LogSink_emit_wf.
Qed.

Lemma new_sink_wf sid rid : sink_wf (new_LogSink sid rid).
Proof. constructor. Qed.

Lemma run_turn_sink_wf (t : turn App) out sink :
  sink_wf sink -> sink_wf (run_turn array_length t out sink).1.2.
Proof.
  revert out sink; induction t as [| |m k IH|b md k IH|a k IH|l m k IH|k IH]; intros out sink H;
    cbn [run_turn]; cbv zeta; auto using LogSink_emit_wf.
Qed.

Lemma flush_logs_spec s (w : world) :
  sink_wf (w_sink w) ->
  exists logs w', flush_logs s w = (Done logs, w') /\ w_wire w' = w_wire w /\ w_app w' = w_app w /\
    w_where w' = w_where w /\ sink_wf (w_sink w') /\ Forall (fits s) logs /\
    Forall (fun ab => is_log ab = true) logs.
Proof.
  intros Hwf. unfold flush_logs, zoom, LogSink_flush.
  destruct (make_empty_batch_total s) as [b Eb]. rewrite Eb. cbn [lift].
  apply make_empty_batch_ok in Eb as [Hr Hs].
  do 2 eexists. split; [reflexivity|]. do 3 (split; [done|]). split; [constructor|].
  split; apply Forall_forall; intros ab [md [-> Hin]]%list_elem_of_fmap.
  - unfold fits. cbn. rewrite Hs. apply schema_equal_refl.
  - unfold sink_wf in Hwf. rewrite Forall_forall in Hwf. destruct (Hwf _ Hin).
    by apply is_log_with_keys.
Qed.

Lemma flush_logs_plain s empty (w : world) :
  make_empty_batch s = Ok empty ->
  flush_logs s w = (Done (map (with_metadata empty) (buffered_ (w_sink w))),
    set_sink w (new_LogSink (ls_server_id (w_sink w)) (ls_request_id (w_sink w)))).
Proof. intros E. unfold flush_logs, zoom, LogSink_flush. by rewrite E. Qed.

Lemma log_batches_ok s empty mds :
  make_empty_batch s = Ok empty -> Forall log_keys mds ->
  Forall (fits s) (map (with_metadata empty) mds) /\
  Forall (fun ab => is_log ab = true) (map (with_metadata empty) mds).
Proof.
  intros E Hl. apply make_empty_batch_ok in E as [Er Es].
  split; apply Forall_forall; intros ab [md [-> Hin]]%list_elem_of_fmap.
  - unfold fits. cbn. rewrite Es. apply schema_equal_refl.
  - rewrite Forall_forall in Hl. destruct (Hl _ Hin). by apply is_log_with_keys.
Qed.

(** ** Unary calls *)

(** A result of the schema its method was registered with; a reference has none. *)
Definition result_typed (mi : @MethodInfo arrow Caller App) (r : outcome Result) : Prop :=
  match r with
  | Done x => external_ref_ x = None -> fits (mi_result_schema mi) (batch_ x)
  | Raised _ => True
  end.

(** What the last batch of the response is. *)
Definition unary_answer (mi : @MethodInfo arrow Caller App) (owner : ProtocolIdentity) (w : world)
    (r : outcome Result) (last : AnnotatedBatch) : Prop :=
  match r with
  | Raised e =>
      exists b md, last = with_metadata b md /\ num_rows b = 0 /\
        make_exception_metadata (current_scope srv w) e (server_id_ srv) (pf_request_id pf)
          (traceback_for srv owner (mi_name mi) (exception_type_of e) (ex_what e)) = Ok md
  | Done res =>
      match external_ref_ res with
      | Some x => pointer_batch x (mi_result_schema mi) = Ok last
      | None =>
          num_rows (ab_batch (batch_ res)) = 0 \/ call_shm (w_conn w) = false -> last = batch_ res
      end
  end.

Lemma pointer_batch_total x s :
  exists ab, pointer_batch x s = Ok ab /\ fits s ab.
Proof.
  unfold pointer_batch. destruct (make_empty_batch_total s) as [b Eb]. rewrite Eb. cbn.
  apply make_empty_batch_ok in Eb as [_ Es]. eexists. split; [done|]. unfold fits. cbn. rewrite Es.
  apply schema_equal_refl.
Qed.

Lemma log_call_spec owner method is_stream caller failure cancelled request (w : world) :
  exists w', log_call pf srv owner method is_stream caller failure cancelled request w = (Done tt, w') /\
    w_wire w' = w_wire w /\ w_app w' = w_app w /\ w_conn w' = w_conn w.
Proof. apply emit_record_spec. Qed.

Lemma log_call_access owner method is_stream caller failure cancelled request (w w' : world) :
  w_access w' = w_access w ->
  w_access (log_call pf srv owner method is_stream caller failure cancelled request w').2 =
  w_access (log_call pf srv owner method is_stream caller failure cancelled request w).2.
Proof.
  intros Ha. unfold log_call, emit_record. destruct (access_log_enabled srv); cbn; by rewrite Ha.
Qed.

(** Running the handler, or turning what it threw into an error result. *)
Definition run_or_error (mi : @MethodInfo arrow Caller App) (owner : ProtocolIdentity)
    (request : Request) (ctx : CallContext Caller) : M world (Result * option exception) :=
  try_catch
    (r ← run_handler (mi_handler mi) request ctx; mret (r, None))
    (fun e =>
       w ← get;
       r ← lift (Result_exception (current_scope srv w) (mi_result_schema mi) e (server_id_ srv)
                   (pf_request_id pf)
                   (traceback_for srv owner (mi_name mi) (exception_type_of e) (ex_what e)));
       mret (r, Some e)).

Definition raised {R} (r : outcome R) : option exception :=
  match r with Done _ => None | Raised e => Some e end.

(** The world a handler leaves. *)
Definition handled (w : world) (logs : list Message) (app : App) : world :=
  set_sink (set_app w app) (emit_all (w_sink w) logs).

Lemma run_or_error_spec mi owner request ctx (w : world) logs r app :
  mi_handler mi request ctx (w_app w) = (logs, r, app) ->
  exists res, run_or_error mi owner request ctx w = (Done (res, raised r), handled w logs app) /\
    match r with
    | Done x => res = x
    | Raised _ => unary_answer mi owner w r (batch_ res) /\ num_rows (ab_batch (batch_ res)) = 0 /\
        fits (mi_result_schema mi) (batch_ res)
    end.
Proof.
  intros Eh. unfold run_or_error, try_catch. set (w1 := handled w logs app).
  assert (run_handler (mi_handler mi) request ctx w = (r, w1)) as Er
    by (unfold run_handler; by rewrite Eh).
  destruct r as [x|e].
  - rewrite (bind_done _ _ _ _ _ Er). by exists x.
  - rewrite (bind_raised _ _ _ _ _ Er). rewrite (bind_done _ _ w1 w1 w1) by done. cbv beta.
    destruct (Result_exception_total (current_scope srv w1) (mi_result_schema mi) e (server_id_ srv)
      (pf_request_id pf) (traceback_for srv owner (mi_name mi) (exception_type_of e) (ex_what e)))
      as (b & md & -> & Em & Hr & Hsch).
    cbn [lift]. rewrite (bind_done _ _ w1 (Result_from_annotated_batch (with_metadata b md)) w1) by done.
    exists (Result_from_annotated_batch (with_metadata b md)). split; [done|]. split; [|done].
    by exists b, md.
Qed.

(** The batch that carries the result, or its pointer. *)
Definition last_batch (mi : @MethodInfo arrow Caller App) (res : Result) (failure : option exception)
    : M world AnnotatedBatch :=
  match (match failure with None => external_ref_ res | Some _ => None end) with
  | Some x => lift (pointer_batch x (mi_result_schema mi))
  | None => route_output pf (batch_ res)
  end.

Lemma last_batch_spec mi owner (w w1 : world) r res :
  match r with
  | Done x => res = x /\ (external_ref_ x = None -> fits (mi_result_schema mi) (batch_ x))
  | Raised _ => unary_answer mi owner w r (batch_ res) /\ num_rows (ab_batch (batch_ res)) = 0 /\
      fits (mi_result_schema mi) (batch_ res)
  end ->
  call_shm (w_conn w1) = call_shm (w_conn w) ->
  exists ab w', last_batch mi res (raised r) w1 = (Done ab, w') /\
    w_wire w' = w_wire w1 /\ w_app w' = w_app w1 /\ w_access w' = w_access w1 /\
    fits (mi_result_schema mi) ab /\ unary_answer mi owner w r ab.
Proof.
  intros Hres Hc. unfold last_batch. destruct r as [x|e]; cbn [raised].
  - destruct Hres as [-> Hfit]. cbn [unary_answer]. destruct (external_ref_ x) as [y|].
    + destruct (pointer_batch_total y (mi_result_schema mi)) as (ab & Eab & Hfab). rewrite Eab.
      by exists ab, w1.
    + destruct (route_output_spec (batch_ x) w1) as (ab & w3 & Er & Hw3 & Ha3 & Hx3 & _ & Hsch & Hz).
      exists ab, w3. rewrite Hc in Hz. split_and!; try done.
      specialize (Hfit eq_refl). unfold fits in *. by eapply schema_equal_trans.
  - destruct Hres as (Hu & Hr & Hfit).
    destruct (route_output_spec (batch_ res) w1) as (ab & w3 & Er & Hw3 & Ha3 & Hx3 & _ & Hsch & Hz).
    rewrite (Hz (or_introl Hr)) in Er. by exists (batch_ res), w3.
Qed.

(** The reference a handler returned. *)
Definition published (r : outcome Result) : option ExternalRef :=
  match r with Done x => external_ref_ x | Raised _ => None end.

(** A unary call is answered by one complete stream on the result schema: what
    the handler logged, then the result or the error, and it is recorded. *)
Lemma serve_unary_impl_spec mi owner request ctx empty (w : world) logs r app :
  room (w_wire w) = None -> sink_wf (w_sink w) -> result_typed mi r ->
  mi_handler mi request ctx (w_app w) = (logs, r, app) ->
  make_empty_batch (mi_result_schema mi) = Ok empty ->
  exists w' last,
    serve_unary_impl pf srv mi owner request ctx w
      = (Done (bool_decide (is_Some (raised r)), bool_decide (is_Some (published r))), w') /\
    answered w w' [(mi_result_schema mi,
      map (with_metadata empty) (buffered_ (emit_all (w_sink w) logs)) ++ [last])] /\
    unary_answer mi owner w r last /\ w_app w' = app /\
    w_access w' = w_access (log_call pf srv owner (mi_name mi) false (ctx_caller Caller ctx) (raised r)
                              false request w).2 /\
    writer (w_wire w') = None /\ fits (mi_result_schema mi) last.
Proof.
  intros Hroom Hs Ht Eh Ee. unfold serve_unary_impl.
  assert (exists v, void_result = Ok v) as [v Ev].
  { unfold void_result. destruct (make_empty_batch_total empty_schema) as [b ->]. by eexists. }
  rewrite Ev. cbn [lift]. rewrite (bind_done _ _ w v w) by done. cbv beta.
  destruct (run_or_error_spec mi owner request ctx w logs r app Eh) as (res & E1 & Hres).
  unfold run_or_error in E1. rewrite (bind_done _ _ _ _ _ E1). cbv beta iota.
  rewrite (bind_done _ _ _ _ _ (flush_logs_plain _ empty _ Ee)). cbv beta zeta.
  set (w2 := set_sink (handled w logs app) _). set (lbs := map _ _).
  destruct (last_batch_spec mi owner w w2 r res) as (ab & w3 & E3 & Hw3 & Ha3 & Hx3 & Hfit3 & Hans);
    [|done|].
  { by destruct r as [x|e]. }
  unfold last_batch in E3. rewrite (bind_done _ _ _ _ _ E3). cbv beta.
  assert (on_wire (write_ipc_stream (mi_result_schema mi) (lbs ++ [ab])) w3 =
    (Done tt, set_wire w3 (sent (w_wire w3) (stream_messages (mi_result_schema mi) (lbs ++ [ab])) None)))
    as E4.
  { apply on_wire_write; [by rewrite Hw3|]. apply Forall_app. split; [|by repeat constructor].
    apply (log_batches_ok _ empty); [done|]. by apply emit_all_wf. }
  rewrite (bind_done _ _ _ _ _ E4). cbv beta. set (w4 := set_wire w3 _).
  destruct (log_call_spec owner (mi_name mi) false (ctx_caller Caller ctx) (raised r) false request w4)
    as (w5 & E5 & Hw5 & Ha5 & _).
  rewrite (bind_done _ _ _ _ _ E5). exists w5, ab.
  split; [destruct r as [x|e]; [by rewrite Hres|done]|]. split; [|split; [done|]; split; [|split; [|split; [by rewrite Hw5|done]]]].
  - exists None. rewrite Hw5, stream_list_one. subst w4. cbn [w_wire set_wire]. by rewrite Hw3.
  - by rewrite Ha5.
  - rewrite <- (log_call_access _ _ _ _ _ _ _ w w4) by exact Hx3. by rewrite E5.
Qed.

(** ** Streams *)

(** Batches that are not logs or errors. *)
Definition non_logs (abs : list AnnotatedBatch) : nat :=
  length (List.filter (fun ab => negb (is_log ab)) abs).

Lemma non_logs_app abs abs' : non_logs (abs ++ abs') = (non_logs abs + non_logs abs')%nat.
Proof. unfold non_logs. by rewrite List.filter_app, length_app. Qed.

Lemma non_logs_logs abs : Forall (fun ab => is_log ab = true) abs -> non_logs abs = 0%nat.
Proof.
  unfold non_logs. induction 1 as [|ab abs H _ IH]; cbn [List.filter]; [done|]. by rewrite H.
Qed.

(** The writer is open on [s] and has written [abs]. *)
Record streaming (o : list message) (s : Schema) (abs : list AnnotatedBatch) (w : world) : Prop := {
  st_output : output (w_wire w) =
    o ++ match abs with [] => [] | _ => MsgSchema s :: map ab_message abs end;
  st_writer : writer (w_wire w) = Some (s, match abs with [] => false | _ => true end);
  st_room : room (w_wire w) = None;
  st_sink : sink_wf (w_sink w);
}.

Definition same_input (w w' : world) : Prop :=
  input (w_wire w') = input (w_wire w) /\ at_eos (w_wire w') = at_eos (w_wire w).

Lemma streaming_wire o s abs (w w' : world) :
  streaming o s abs w -> w_wire w' = w_wire w -> sink_wf (w_sink w') -> streaming o s abs w'.
Proof. intros [] E Hs. by split; rewrite ?E. Qed.

Lemma streaming_batch o s abs b md (w : world) :
  streaming o s abs w -> schema_equal (schema b) s = true ->
  exists w', on_wire (WriteRecordBatch b md) w = (Done tt, w') /\
    streaming o s (abs ++ [{| ab_batch := b; custom_metadata := md |}]) w' /\ same_input w w' /\
    w_conn w' = w_conn w.
Proof.
  intros [Ho Hw Hr Hs] Hf. unfold on_wire, zoom.
  rewrite (WriteRecordBatch_spec s (match abs with [] => false | _ => true end)) by done.
  eexists. split; [reflexivity|]. split; [|done].
  split; cbn [w_wire set_wire sent output writer room w_sink]; [|by destruct abs|done|done].
  rewrite Ho, <- app_assoc. f_equal. destruct abs; cbn; [done|]. by rewrite map_app.
Qed.

Lemma streaming_write o s abs ab (w : world) :
  streaming o s abs w -> fits s ab ->
  exists w', on_wire (write_annotated ab) w = (Done tt, w') /\ streaming o s (abs ++ [ab]) w' /\
    same_input w w'.
Proof.
  intros H Hf. destruct (streaming_batch o s abs _ (custom_metadata ab) w H Hf) as (w' & E & Hs & Hi & _).
  exists w'. destruct ab. done.
Qed.

Lemma same_input_trans w1 w2 w3 : same_input w1 w2 -> same_input w2 w3 -> same_input w1 w3.
Proof. intros [] []. split; congruence. Qed.

Lemma set_wire_same (w : world) : set_wire w (w_wire w) = w.
Proof. by destruct w. Qed.

Lemma write_each_spec o s abs l (w : world) :
  streaming o s abs w -> Forall (fits s) l ->
  exists x, write_each l w = (Done tt, set_wire w x) /\ streaming o s (abs ++ l) (set_wire w x) /\
    same_input w (set_wire w x).
Proof.
  revert abs w; induction l as [|ab l IH]; intros abs w H Hf; cbn [write_each].
  - exists (w_wire w). by rewrite app_nil_r, set_wire_same.
  - inversion Hf as [|? ? Hab Hf']; subst.
    destruct (streaming_write o s abs ab w H Hab) as (w1 & E1 & H1 & S1).
    rewrite (bind_done _ _ _ _ _ E1).
    assert (w1 = set_wire w (w_wire w1)) as Ew.
    { unfold on_wire, zoom in E1. destruct (write_annotated ab (w_wire w)). by injection E1 as _ <-. }
    destruct (IH _ _ H1 Hf') as (x & E2 & H2 & S2). rewrite Ew in E2, H2, S2.
    exists x. rewrite <- app_assoc in H2. rewrite Ew, E2. split; [done|]. split; [done|].
    eapply same_input_trans; [|exact S2]. by rewrite <- Ew.
Qed.

(** Logs have no rows, so they are not sent as pointers. *)
Lemma is_log_rows ab : is_log ab = true -> num_rows (ab_batch ab) = 0.
Proof.
  unfold is_log, ab_type, classify_batch. destruct (custom_metadata ab) as [md|]; [|done].
  pose proof (num_rows_nonneg (ab_batch ab)).
  destruct (Z.ltb_spec 0 (num_rows (ab_batch ab))); [done|]. lia.
Qed.

Lemma write_routed_spec o s abs l (w : world) :
  streaming o s abs w -> Forall (fits s) l ->
  exists l' w', write_routed pf l w = (Done tt, w') /\ streaming o s (abs ++ l') w' /\
    same_input w w' /\ (non_logs l' <= non_logs l)%nat.
Proof.
  revert abs w; induction l as [|ab l IH]; intros abs w H Hf; cbn [write_routed].
  - exists [], w. rewrite app_nil_r. done.
  - inversion Hf as [|? ? Hab Hf']; subst.
    destruct (route_output_spec ab w) as (ab' & w1 & E1 & Hw1 & _ & _ & Hs1 & Hsch & Hsame).
    rewrite (bind_done _ _ _ _ _ E1). cbv beta.
    assert (streaming o s abs w1) as H1 by (eapply streaming_wire; [done|done|]; rewrite Hs1; apply H).
    assert (fits s ab') as Hfit by (unfold fits in *; by eapply schema_equal_trans).
    destruct (streaming_write o s abs ab' w1 H1 Hfit) as (w2 & E2 & H2 & S2).
    rewrite (bind_done _ _ _ _ _ E2). destruct (IH _ _ H2 Hf') as (l' & w3 & E3 & H3 & S3 & Hn).
    exists (ab' :: l'), w3. rewrite <- app_assoc in H3. split; [done|]. split; [done|]. split.
    { assert (same_input w w1) as S1 by (unfold same_input; by rewrite Hw1).
      exact (same_input_trans _ _ _ S1 (same_input_trans _ _ _ S2 S3)). }
    change (ab' :: l') with ([ab'] ++ l'). change (ab :: l) with ([ab] ++ l).
    rewrite !non_logs_app. enough (non_logs [ab'] <= non_logs [ab])%nat by lia.
    unfold non_logs. cbn [List.filter]. destruct (is_log ab) eqn:El; cbn [negb].
    + rewrite (Hsame (or_introl (is_log_rows _ El))), El. done.
    + destruct (is_log ab'); cbn; lia.
Qed.

Lemma non_logs_unique abs :
  (forall i j a b, abs !! i = Some a -> abs !! j = Some b -> is_log a = false -> is_log b = false ->
     i = j) ->
  (non_logs abs <= 1)%nat.
Proof.
  induction abs as [|a abs IH]; intros H; [cbn; lia|].
  change (a :: abs) with ([a] ++ abs). rewrite non_logs_app.
  assert (non_logs abs <= 1)%nat as Hl.
  { apply IH. intros i j x y Hx Hy Lx Ly. apply (H (S i) (S j) x y) in Hx; try done. by injection Hx. }
  destruct (is_log a) eqn:Ea.
  - assert (non_logs [a] = 0%nat) as -> by (apply non_logs_logs; by repeat constructor). lia.
  - assert (non_logs abs = 0%nat) as ->.
    { apply non_logs_logs, Forall_forall. intros b Hb. apply list_elem_of_lookup in Hb as [j Hj].
      destruct (is_log b) eqn:Eb; [done|]. by specialize (H 0%nat (S j) a b eq_refl Hj Ea Eb). }
    unfold non_logs. cbn. rewrite Ea. cbn. lia.
Qed.
(** *** A turn *)

Lemma resolve_input_same b md (w : world) : exists r, resolve_input b md w = (r, w).
Proof.
  unfold resolve_input. destruct (is_shm_pointer_batch (Some b) md); [|by eexists].
  rewrite (bind_done _ _ w w w) by done. cbv beta. destruct (shm (w_conn w)) as [seg|]; [|by eexists].
  destruct (resolve_shm_batch _ _ _) as [[[b' md'] off]|e]; by eexists.
Qed.

Lemma coerce_input_batch_same {S} b target (w : S) : exists r, coerce_input_batch b target w = (r, w).
Proof.
  unfold coerce_input_batch. destruct (schema_equal _ _); [by eexists|].
  destruct (negb _); [by eexists|]. destruct (coerce_columns _ _); by eexists.
Qed.

Lemma process_turn_spec st ctx input_ab s producer sid rid (w : world) :
  sink_wf (w_sink w) ->
  exists r w', process_turn array_length st ctx input_ab (new_OutputCollector s producer sid rid) w = (r, w') /\
    w_wire w' = w_wire w /\ sink_wf (w_sink w') /\
    match r with
    | Done out => Forall (fits s) (batches_ out) /\ (non_logs (batches_ out) <= 1)%nat
    | Raised _ => True
    end.
Proof.
  intros Hs. unfold process_turn.
  pose proof (run_turn_sink_wf (process st ctx input_ab (w_app w)) (new_OutputCollector s producer sid rid)
    (w_sink w) Hs) as Hs'.
  destruct (run_turn_wf array_length (process st ctx input_ab (w_app w))
    (new_OutputCollector s producer sid rid) (w_sink w) (new_collector_wf _ _ _ _)) as [Hwf [Ho _]].
  destruct (run_turn _ _ _ _) as [[[r out] sink] app]. cbn [fst snd] in *. cbn in Ho.
  destruct r as [u|e]; do 2 eexists; (split; [reflexivity|]); split; try done; split; try done.
  split; [rewrite <- Ho; apply (cw_fits _ Hwf)|].
  apply non_logs_unique. intros i j a b Ha Hb La Lb.
  destruct (decide (data_batch_idx_ out = Some i)) as [Ei|Hne];
    [|by rewrite (cw_logs _ Hwf i a Ha Hne) in La].
  destruct (decide (data_batch_idx_ out = Some j)) as [Ej|Hne]; [congruence|].
  by rewrite (cw_logs _ Hwf j b Hb Hne) in Lb.
Qed.

Lemma free_input_spec off (w : world) :
  exists w', free_input off w = (Done tt, w') /\ w_wire w' = w_wire w /\ w_sink w' = w_sink w /\
    w_app w' = w_app w.
Proof. unfold free_input, modify. destruct (0 <=? off); eexists; done. Qed.

(** A turn that raises has sent nothing. *)
Lemma stream_turn_spec st ctx input_schema s b md o abs (w : world) :
  streaming o s abs w ->
  exists r w' abs', stream_turn array_length pf srv st ctx input_schema s b md w = (r, w') /\
    streaming o s (abs ++ abs') w' /\ same_input w w' /\ (non_logs abs' <= 1)%nat /\
    match r with Raised _ => abs' = [] | Done _ => True end.
Proof.
  intros H. unfold stream_turn. cbv zeta.
  assert (forall (w1 : world), w_wire w1 = w_wire w -> sink_wf (w_sink w1) ->
    streaming o s (abs ++ []) w1 /\ same_input w w1) as Hquiet.
  { intros w1 E1 S1. rewrite app_nil_r. split; [by eapply streaming_wire|].
    unfold same_input. by rewrite E1. }
  destruct (resolve_input_same b md w) as [[[[raw md'] off]|e] E]; cycle 1.
  { rewrite (bind_raised _ _ _ _ _ E). exists (Raised e), w, []. split; [done|].
    destruct (Hquiet w eq_refl (st_sink _ _ _ _ H)). by split_and!; [..|cbn; lia|]. }
  rewrite (bind_done _ _ _ _ _ E). cbv beta iota. clear E.
  set (producer := (length (fields input_schema) =? 0)%nat).
  assert (exists r, (if producer then mret raw else coerce_input_batch raw input_schema) w = (r, w))
    as [[b'|e] E] by (destruct producer; [by eexists|apply coerce_input_batch_same]); cycle 1.
  { rewrite (bind_raised _ _ _ _ _ E). exists (Raised e), w, []. split; [done|].
    destruct (Hquiet w eq_refl (st_sink _ _ _ _ H)). by split_and!; [..|cbn; lia|]. }
  rewrite (bind_done _ _ _ _ _ E). cbv beta. clear E.
  destruct (process_turn_spec st ctx {| ab_batch := b'; custom_metadata := md' |} s producer
    (server_id_ srv) (pf_request_id pf) w (st_sink _ _ _ _ H)) as ([out|e] & w1 & E & Hw1 & Hs1 & Hout);
    cycle 1.
  { rewrite (bind_raised _ _ _ _ _ E). exists (Raised e), w1, []. split; [done|].
    destruct (Hquiet w1 Hw1 Hs1). by split_and!; [..|cbn; lia|]. }
  rewrite (bind_done _ _ _ _ _ E). cbv beta. destruct Hout as [Hfit Hone]. clear E.
  destruct (flush_logs_spec s w1 Hs1) as (logs & w2 & E & Hw2 & _ & _ & Hs2 & Hlfit & Hllog).
  rewrite (bind_done _ _ _ _ _ E). cbv beta. clear E.
  assert (streaming o s abs w2) as H2 by (eapply streaming_wire; [done|congruence|done]).
  destruct (write_each_spec o s abs logs w2 H2 Hlfit) as (x & E & H3 & I3).
  rewrite (bind_done _ _ _ _ _ E). clear E.
  destruct (write_routed_spec o s (abs ++ logs) (batches_ out) _ H3 Hfit) as (l & w4 & E & H4 & I4 & Hn).
  rewrite (bind_done _ _ _ _ _ E). clear E.
  destruct (free_input_spec off w4) as (w5 & E & Hw5 & Hs5 & _). rewrite (bind_done _ _ _ _ _ E).
  exists (Done (finished_ out)), w5, (logs ++ l). split; [done|]. split; [|split; [|split; [|done]]].
  - rewrite app_assoc. eapply streaming_wire; [exact H4|done|]. rewrite Hs5. apply H4.
  - assert (same_input w w2) as I2 by (unfold same_input; by rewrite Hw2, Hw1).
    assert (same_input w4 w5) as I5 by (unfold same_input; by rewrite Hw5).
    eapply same_input_trans; [exact I2|]. eapply same_input_trans; [exact I3|].
    by eapply same_input_trans.
  - rewrite non_logs_app, (non_logs_logs logs Hllog). lia.
Qed.
(** *** The loop *)

(** What the open input stream still holds. *)
Definition pending (tks : list AnnotatedBatch) (rest : list message) (w : world) : Prop :=
  at_eos (w_wire w) = false /\ input (w_wire w) = map ab_message tks ++ MsgEos :: rest.

Definition drained (rest : list message) (w : world) : Prop :=
  at_eos (w_wire w) = true /\ input (w_wire w) = rest.

Lemma pending_same tks rest w w' : pending tks rest w -> same_input w w' -> pending tks rest w'.
Proof. intros [] []. split; congruence. Qed.

Lemma read_next_batch tk tks rest (w : world) :
  pending (tk :: tks) rest w ->
  exists w', on_wire read_next w = (Done (NextBatch (ab_batch tk) (custom_metadata tk)), w') /\
    pending tks rest w' /\ output (w_wire w') = output (w_wire w) /\
    writer (w_wire w') = writer (w_wire w) /\ room (w_wire w') = room (w_wire w) /\
    w_sink w' = w_sink w /\ w_app w' = w_app w /\ w_conn w' = w_conn w /\ w_peer w' = w_peer w /\
    w_where w' = w_where w.
Proof. intros [He Hi]. unfold on_wire, zoom, read_next. rewrite He, Hi. by eexists. Qed.

Lemma read_next_end rest (w : world) :
  pending [] rest w ->
  exists w', on_wire read_next w = (Done NextEnd, w') /\ drained rest w' /\
    output (w_wire w') = output (w_wire w) /\ writer (w_wire w') = writer (w_wire w) /\
    room (w_wire w') = room (w_wire w) /\ w_sink w' = w_sink w /\ w_app w' = w_app w.
Proof. intros [He Hi]. unfold on_wire, zoom, read_next. rewrite He, Hi. by eexists. Qed.

Lemma peer_acts_spec (w : world) :
  exists w', peer_acts w = (Done tt, w') /\ w_wire w' = w_wire w /\ w_sink w' = w_sink w /\
    w_app w' = w_app w /\ w_where w' = w_where w.
Proof. unfold peer_acts. destruct (w_peer w); eexists; done. Qed.

Lemma streaming_read o s abs (w w' : world) :
  streaming o s abs w -> output (w_wire w') = output (w_wire w) ->
  writer (w_wire w') = writer (w_wire w) -> room (w_wire w') = room (w_wire w) ->
  w_sink w' = w_sink w -> streaming o s abs w'.
Proof. intros [] Eo Ew Er Es. split; congruence. Qed.

Lemma run_on_cancel_spec st ctx (w : world) :
  sink_wf (w_sink w) ->
  exists w', run_on_cancel st ctx w = (Done tt, w') /\ w_wire w' = w_wire w /\ sink_wf (w_sink w').
Proof.
  intros Hs. unfold run_on_cancel. destruct (on_cancel _ _ _) as [[logs r] app].
  eexists. split; [reflexivity|]. split; [done|]. by apply emit_all_wf.
Qed.

(** However the loop ends, the writer is still open, what was sent answers the
    batches taken, and what was not taken is still there. *)
Lemma stream_loop_spec st ctx input_schema s rest o fuel :
  forall tks abs (w : world),
  (length tks < fuel)%nat -> streaming o s abs w -> pending tks rest w ->
  exists r w' abs' tks',
    stream_loop array_length pf srv fuel st ctx input_schema s w = (r, w') /\
    streaming o s (abs ++ abs') w' /\
    (pending tks' rest w' \/ (drained rest w' /\ tks' = [])) /\
    (exists taken, tks = taken ++ tks' /\ non_logs abs' <= length taken)%nat /\
    match r with Raised _ => (0 < length tks)%nat | Done _ => True end.
Proof.
  induction fuel as [|fuel IH]; intros tks abs w Hf H Hp; [lia|]. cbn [stream_loop].
  destruct tks as [|tk tks].
  - destruct (read_next_end rest w Hp) as (w1 & E & Hd & Ho & Hw & Hr & Hs & _).
    rewrite (bind_done _ _ _ _ _ E). cbv beta.
    destruct (peer_acts_spec w1) as (w2 & E2 & Hw2 & Hs2 & _). rewrite (bind_done _ _ _ _ _ E2).
    exists (Done false), w2, [], []. split; [done|]. rewrite app_nil_r. split; [|split; [|split; [|done]]].
    + eapply streaming_read; [done|congruence..].
    + right. split; [|done]. unfold drained in *. by rewrite Hw2.
    + exists []. done.
  - destruct (read_next_batch tk tks rest w Hp) as (w1 & E & Hp1 & Ho & Hw & Hr & Hs & _).
    rewrite (bind_done _ _ _ _ _ E). cbv beta.
    destruct (peer_acts_spec w1) as (w2 & E2 & Hw2 & Hs2 & _). rewrite (bind_done _ _ _ _ _ E2).
    assert (streaming o s abs w2) as H2 by (eapply streaming_read; [done|congruence..]).
    assert (pending tks rest w2) as Hp2 by (unfold pending in *; by rewrite Hw2).
    cbv beta iota. destruct (is_cancel (custom_metadata tk)).
    + destruct (run_on_cancel_spec st ctx w2 (st_sink _ _ _ _ H2)) as (w3 & E3 & Hw3 & Hs3).
      rewrite (bind_done _ _ _ _ _ E3). exists (Done true), w3, [], tks. split; [done|].
      rewrite app_nil_r. split; [by eapply streaming_wire|]. split; [|split; [|done]].
      * left. eapply pending_same; [done|]. unfold same_input. by rewrite Hw3.
      * exists [tk]. split; [done|]. cbn. lia.
    + destruct (stream_turn_spec st ctx input_schema s (ab_batch tk) (custom_metadata tk) o abs w2 H2)
        as (r & w3 & abs1 & E3 & H3 & I3 & Hn & Hr3).
      assert (pending tks rest w3) as Hp3 by by eapply pending_same.
      destruct r as [[|]|e].
      * rewrite (bind_done _ _ _ _ _ E3). exists (Done false), w3, abs1, tks. split; [done|].
        split; [done|]. split; [by left|]. split; [|done]. exists [tk]. split; [done|]. cbn. lia.
      * rewrite (bind_done _ _ _ _ _ E3). cbv beta iota.
        destruct (IH tks _ w3 ltac:(cbn in Hf; lia) H3 Hp3)
          as (r & w' & abs2 & tks' & E' & H' & Hrest & (taken & -> & Hl) & Hr').
        exists r, w', (abs1 ++ abs2), tks'. split; [done|]. rewrite app_assoc. split; [done|].
        split; [done|]. split.
        { exists (tk :: taken). split; [done|]. rewrite non_logs_app. cbn. lia. }
        destruct r; [done|]. cbn. lia.
      * rewrite (bind_raised _ _ _ _ _ E3). exists (Raised e), w3, abs1, tks. split; [done|].
        split; [done|]. split; [by left|]. split; [|cbn; lia].
        exists [tk]. subst abs1. split; [done|]. cbn. lia.
Qed.

(** The error of a stream is a log batch. *)
Lemma error_md_log scope type message sid rid kind extras md b :
  make_error_metadata scope type message sid rid kind extras = Ok md -> num_rows b = 0 ->
  is_log (with_metadata b md) = true.
Proof.
  unfold make_error_metadata. intros E Hb.
  destruct (build_error_metadata _ _ _ _ _ _ _) as [[md' x]|] eqn:Eb; [|done].
  cbn in E. injection E as ->. apply build_error_metadata_ok in Eb as (?&?&?&?&?&_&_&_&_&_&_&->).
  by apply is_log_with_keys; [done|cbn; set_solver..].
Qed.

Lemma write_stream_error_spec o s abs type e tb (w : world) :
  streaming o s abs w ->
  exists b md w', write_stream_error pf srv s type e tb w = (Done tt, w') /\
    make_error_metadata (current_scope srv w) type (ex_what e) (server_id_ srv) (pf_request_id pf)
      (error_kind_of e) (error_extras_of e tb) = Ok md /\
    make_empty_batch s = Ok b /\
    streaming o s (abs ++ [with_metadata b md]) w' /\ same_input w w' /\
    is_log (with_metadata b md) = true /\ w_app w' = w_app w /\ w_access w' = w_access w.
Proof.
  intros H. unfold write_stream_error. rewrite (bind_done _ _ w w w) by done. cbv beta.
  destruct (make_empty_batch_total s) as [b Eb]. rewrite Eb. cbn [lift].
  rewrite (bind_done _ _ w b w) by done. cbv beta.
  destruct (make_error_metadata_total (current_scope srv w) type (ex_what e) (server_id_ srv)
    (pf_request_id pf) (error_kind_of e) (error_extras_of e tb)) as [md Em]. rewrite Em. cbn [lift].
  rewrite (bind_done _ _ w md w) by done. pose proof Eb as Eb'.
  apply make_empty_batch_ok in Eb as [Hr Hs].
  destruct (streaming_batch o s abs b (Some md) w H) as (w' & E & H' & I' & Hc).
  { rewrite Hs. apply schema_equal_refl. }
  exists b, md, w'. split; [done|]. do 4 (split; [done|]). split; [by eapply error_md_log|].
  unfold on_wire, zoom in E. destruct (WriteRecordBatch _ _ _). by injection E as _ <-.
Qed.

(** The connection after a stream has been served. *)
Definition served (w w' : world) (l : list (Schema * list AnnotatedBatch)) (rest : list message) : Prop :=
  w_wire w' = {| input := rest; at_eos := true; output := output (w_wire w) ++ stream_list l;
                 writer := None; room := None |}.

Lemma streaming_close o s abs (w : world) :
  streaming o s abs w ->
  exists w', on_wire Close w = (Done tt, w') /\ output (w_wire w') = o ++ stream_messages s abs /\
    writer (w_wire w') = None /\ room (w_wire w') = None /\ same_input w w' /\ w_app w' = w_app w /\
    w_access w' = w_access w.
Proof.
  intros [Ho Hw Hr Hs]. unfold on_wire, zoom.
  rewrite (Close_spec s (match abs with [] => false | _ => true end)) by done.
  eexists. split; [reflexivity|]. split; [|done]. cbn [w_wire set_wire sent output].
  rewrite Ho, <- app_assoc. f_equal. unfold stream_messages. by destruct abs.
Qed.

Lemma drain_spec tks rest (w : world) :
  pending tks rest w \/ (drained rest w /\ tks = []) ->
  exists w', on_wire drain_reader w = (Done tt, w') /\ w_app w' = w_app w /\ w_access w' = w_access w /\
    w_wire w' = with_input (w_wire w) rest true.
Proof.
  intros H. unfold on_wire, zoom, drain_reader, modify. eexists. split; [reflexivity|]. do 2 (split; [done|]).
  cbn [w_wire set_wire]. destruct H as [[He Hi]|[[He Hi] _]]; rewrite He.
  - by rewrite Hi, drain_messages_spec.
  - unfold with_input. rewrite <- Hi, <- He. by destruct (w_wire w).
Qed.

(** What [serve_turns] does once the writer is open and the first log messages
    are out. *)
Definition turns (mi : @MethodInfo arrow Caller App) (owner : ProtocolIdentity) (request : Request)
    (ctx : CallContext Caller) (st : StreamState) (input_schema output_schema : Schema)
    : M world unit :=
  w ← get;
  '(cancelled, failure) ←
    try_catch
      (c ← stream_loop array_length pf srv (S (length (input (w_wire w)))) st ctx input_schema output_schema;
       mret (c, None))
      (fun e =>
         write_stream_error pf srv output_schema (exception_type_of e) e
           (traceback_for srv owner (mi_name mi) (exception_type_of e) (ex_what e));;
         mret (false, Some e));
  try_catch (on_wire Close) (fun _ => mret tt);;
  on_wire drain_reader;;
  log_call pf srv owner (mi_name mi) true (ctx_caller _ ctx) failure cancelled request.

Lemma serve_turns_opens mi owner request ctx st input_schema s s_in tks rest empty (w : world) :
  room (w_wire w) = None -> sink_wf (w_sink w) -> make_empty_batch s = Ok empty ->
  input (w_wire w) = stream_messages s_in tks ++ rest ->
  exists x, let w' := set_wire (set_sink w (new_LogSink (ls_server_id (w_sink w)) (ls_request_id (w_sink w)))) x in
    serve_turns array_length pf srv mi owner request ctx st input_schema s w =
      turns mi owner request ctx st input_schema s w' /\
    streaming (output (w_wire w)) s (map (with_metadata empty) (buffered_ (w_sink w))) w' /\
    pending tks rest w'.
Proof.
  intros Hr Hs Ee Hi. unfold stream_messages in Hi. cbn [app] in Hi. rewrite <- app_assoc in Hi. cbn [app] in Hi.
  unfold serve_turns.
  set (w1 := set_wire w (with_writer (with_input (w_wire w) (map ab_message tks ++ MsgEos :: rest) false)
    (Some (s, false)))).
  rewrite (bind_done _ _ w (OpenOk s_in)
    (set_wire w (with_input (w_wire w) (map ab_message tks ++ MsgEos :: rest) false)))
    by (unfold on_wire, zoom, open_reader; by rewrite Hi).
  cbv beta iota. rewrite (bind_done _ _ _ true w1)
    by (unfold on_wire, zoom, MakeStreamWriter; by rewrite writer_total).
  cbn [negb]. rewrite (bind_done _ _ _ _ _ (flush_logs_plain s empty w1 Ee)). cbv beta.
  destruct (log_batches_ok s empty (buffered_ (w_sink w)) Ee Hs) as [Hfit _].
  set (w2 := set_sink w1 _).
  assert (streaming (output (w_wire w)) s [] w2) as H2
    by (split; cbn; [by rewrite app_nil_r|done|done|apply new_sink_wf]).
  destruct (write_each_spec _ s [] _ w2 H2 Hfit) as (x & E & H3 & I3).
  exists x. cbv zeta. rewrite (bind_done _ _ _ _ _ E). split; [done|]. split; [done|].
  by apply (pending_same tks rest w2).
Qed.

(** The error batch that closes a failed stream. *)
Definition error_tail (owner : ProtocolIdentity) (method : bytes) (scope : option TracebackScope)
    (s : Schema) (r : outcome bool) (tail : list AnnotatedBatch) : Prop :=
  match r with
  | Done _ => tail = []
  | Raised e => exists b md, tail = [with_metadata b md] /\ make_empty_batch s = Ok b /\
      make_error_metadata scope (exception_type_of e) (ex_what e) (server_id_ srv) (pf_request_id pf)
        (error_kind_of e)
        (error_extras_of e (traceback_for srv owner method (exception_type_of e) (ex_what e))) = Ok md
  end.

Definition failure_in (r : outcome bool) : option exception :=
  match r with Done _ => None | Raised e => Some e end.
Definition cancelled_in (r : outcome bool) : bool :=
  match r with Done c => c | Raised _ => false end.

Lemma error_tail_logs owner method scope s r tail :
  error_tail owner method scope s r tail -> non_logs tail = 0%nat.
Proof.
  destruct r as [c|e]; cbn; [by intros ->|]. intros (b & md & -> & Eb & Em).
  apply non_logs_logs. constructor; [|done].
  apply make_empty_batch_ok in Eb as [Hr _]. by eapply error_md_log.
Qed.

(** Whatever the loop ends with, the stream is completed, the input taken and
    one record logged. *)
Lemma turns_close mi owner request ctx st input_schema s rest o abs tks' r (w w1 : world) :
  stream_loop array_length pf srv (S (length (input (w_wire w)))) st ctx input_schema s w = (r, w1) ->
  streaming o s abs w1 -> pending tks' rest w1 \/ (drained rest w1 /\ tks' = []) ->
  exists w' tail,
    turns mi owner request ctx st input_schema s w = (Done tt, w') /\
    error_tail owner (mi_name mi) (current_scope srv w1) s r tail /\
    w_wire w' = {| input := rest; at_eos := true; output := o ++ stream_messages s (abs ++ tail);
                   writer := None; room := None |} /\
    w_app w' = w_app w1 /\
    w_access w' = w_access (log_call pf srv owner (mi_name mi) true (ctx_caller Caller ctx)
                              (failure_in r) (cancelled_in r) request w1).2.
Proof.
  intros E H1 Hrest. unfold turns. rewrite (bind_done _ _ w w w) by done. cbv beta.
  assert (exists w2 tail, try_catch
      (c ← stream_loop array_length pf srv (S (length (input (w_wire w)))) st ctx input_schema s;
       mret (c, None))
      (fun e => write_stream_error pf srv s (exception_type_of e) e
           (traceback_for srv owner (mi_name mi) (exception_type_of e) (ex_what e));;
         mret (false, Some e)) w = (Done (cancelled_in r, failure_in r), w2) /\
      error_tail owner (mi_name mi) (current_scope srv w1) s r tail /\
      streaming o s (abs ++ tail) w2 /\ same_input w1 w2 /\ w_app w2 = w_app w1 /\
      w_access w2 = w_access w1) as (w2 & tail & E2 & Ht & H2 & I2 & Ha2 & Hx2).
  { unfold try_catch. destruct r as [c|e].
    - rewrite (bind_done _ _ _ _ _ E). exists w1, []. by rewrite app_nil_r.
    - rewrite (bind_raised _ _ _ _ _ E).
      destruct (write_stream_error_spec o s abs (exception_type_of e) e
        (traceback_for srv owner (mi_name mi) (exception_type_of e) (ex_what e)) w1 H1)
        as (b & md & w2 & Ew & Em & Eb & H2 & I2 & _ & Ha2 & Hx2).
      rewrite (bind_done _ _ _ _ _ Ew). exists w2, [with_metadata b md]. split; [done|].
      split; [by exists b, md|]. done. }
  rewrite (bind_done _ _ _ _ _ E2). cbv beta iota.
  destruct (streaming_close o s (abs ++ tail) w2 H2) as (w3 & E3 & Ho3 & Hw3 & Hr3 & I3 & Ha3 & Hx3).
  erewrite bind_done by (unfold try_catch; rewrite E3; reflexivity). cbv beta.
  destruct (drain_spec tks' rest w3) as (w4 & E4 & Ha4 & Hx4 & Hw4).
  { destruct Hrest as [Hp|[[He Hi] ->]]; [left|right].
    - eapply pending_same; [done|]. by eapply same_input_trans.
    - split; [|done]. destruct I2 as [I2 I2'], I3 as [I3 I3']. split; congruence. }
  rewrite (bind_done _ _ _ _ _ E4). cbv beta.
  destruct (log_call_spec owner (mi_name mi) true (ctx_caller Caller ctx) (failure_in r) (cancelled_in r)
    request w4) as (w5 & E5 & Hw5 & Ha5 & _). exists w5, tail. split; [done|]. split; [done|]. split.
  - rewrite Hw5, Hw4. unfold with_input. by rewrite Ho3, Hw3, Hr3.
  - split; [congruence|]. rewrite <- (log_call_access _ _ _ _ _ _ _ w1 w4) by congruence. by rewrite E5.
Qed.

(** From the first input message to the drained input: one complete stream on
    the output schema, at most one batch per input that is not a log, and the
    input stream taken whole. *)
Lemma serve_turns_spec mi owner request ctx st input_schema s s_in tks rest (w : world) :
  room (w_wire w) = None -> sink_wf (w_sink w) ->
  input (w_wire w) = stream_messages s_in tks ++ rest ->
  exists w' abs, serve_turns array_length pf srv mi owner request ctx st input_schema s w = (Done tt, w') /\
    served w w' [(s, abs)] rest /\ (non_logs abs <= length tks)%nat.
Proof.
  intros Hr Hs Hi. destruct (make_empty_batch_total s) as [empty Ee].
  destruct (serve_turns_opens mi owner request ctx st input_schema s s_in tks rest empty w Hr Hs Ee Hi)
    as (x & -> & H1 & Hp1).
  destruct (log_batches_ok s empty (buffered_ (w_sink w)) Ee Hs) as [_ Hlog].
  set (w1 := set_wire _ x) in *.
  destruct (stream_loop_spec st ctx input_schema s rest _ (S (length (input (w_wire w1)))) tks _ w1 ltac:(by destruct Hp1 as [_ ->]; rewrite length_app, length_map; lia) H1 Hp1)
    as (r & w2 & abs & tks' & E & H2 & Hrest & (taken & -> & Hn) & _).
  destruct (turns_close mi owner request ctx st input_schema s rest _ _ tks' r w1 w2 E H2 Hrest)
    as (w' & tail & -> & Ht & Hw' & _). eexists w', _. split; [done|]. split.
  - unfold served. rewrite stream_list_one. exact Hw'.
  - rewrite !non_logs_app, (non_logs_logs _ Hlog), (error_tail_logs _ _ _ _ _ _ Ht), length_app. lia.
Qed.

(** *** A stream request *)

Lemma read_after_error s_in tks rest (w : world) :
  input (w_wire w) = stream_messages s_in tks ++ rest ->
  try_catch (_ ← on_wire read_ipc_stream; mret tt) (fun _ => mret tt) w =
    (Done tt, set_wire w (with_input (w_wire w) rest true)).
Proof.
  intros Hi. unfold try_catch.
  rewrite (bind_done _ _ w (Some (s_in, tks)) (set_wire w (with_input (w_wire w) rest true))); [done|].
  unfold on_wire, zoom. by rewrite (read_ipc_stream_spec s_in tks rest) by done.
Qed.

(** A factory that fails is answered by one error, and the input stream the
    client sends all the same is taken. *)
Lemma handle_factory_error_spec owner mi type message cause s_in tks rest (w : world) :
  room (w_wire w) = None -> input (w_wire w) = stream_messages s_in tks ++ rest ->
  exists w' b md, handle_factory_error pf srv owner mi type message cause w = (Done tt, w') /\
    served w w' [(empty_schema, [with_metadata b md])] rest /\ w_app w' = w_app w /\ num_rows b = 0.
Proof.
  intros Hr Hi. unfold handle_factory_error. cbv zeta.
  match goal with |- context [respond_error _ _ ?t ?m ?k ?x] =>
    destruct (respond_error_spec t m k x w Hr) as (b & md & E & _ & Hb) end.
  rewrite (bind_done _ _ _ _ _ E).
  rewrite (read_after_error s_in tks rest) by done.
  eexists _, b, md. split; [reflexivity|]. split; [|done].
  unfold served. rewrite stream_list_one. unfold with_input, sent. cbn. by rewrite Hr.
Qed.

Lemma write_header_spec header (w : world) :
  room (w_wire w) = None -> sink_wf (w_sink w) ->
  exists w' logs, write_header header w = (Done tt, w') /\
    answered w w' [(schema header, logs ++ [data header])] /\ sink_wf (w_sink w') /\
    w_app w' = w_app w /\ Forall (fun ab => is_log ab = true) logs.
Proof.
  intros Hr Hs. unfold write_header.
  destruct (flush_logs_spec (schema header) w Hs) as (logs & w1 & E & Hw1 & Ha1 & _ & Hs1 & Hf & Hl).
  rewrite (bind_done _ _ _ _ _ E). cbv beta. rewrite on_wire_write; [|by rewrite Hw1|].
  - eexists _, logs. split; [reflexivity|]. split; [|done].
    exists None. rewrite stream_list_one. cbn [w_wire set_wire]. by rewrite Hw1.
  - apply Forall_app. split; [done|]. constructor; [apply schema_equal_refl|done].
Qed.

Lemma served_after w w1 w2 l1 l2 rest :
  answered w w1 l1 -> served w1 w2 l2 rest -> served w w2 (l1 ++ l2) rest.
Proof.
  intros [wr E1] E2. unfold served in *. rewrite E2, E1. cbn. unfold stream_list.
  by rewrite map_app, concat_app, app_assoc.
Qed.

(** A stream request with its input stream behind it: one or two complete
    streams go out, and the input stream is taken whole, whatever the
    application does. *)
Lemma serve_stream_spec mi owner request kind caller s_in tks rest (w : world) :
  room (w_wire w) = None -> input (w_wire w) = stream_messages s_in tks ++ rest ->
  exists w' l, serve_stream array_length pf srv mi owner request kind caller w = (Done tt, w') /\
    served w w' l rest /\ (1 <= length l <= 2)%nat.
Proof.
  intros Hr Hi. unfold serve_stream. cbv zeta.
  set (w1 := set_sink w (new_LogSink (server_id_ srv) (pf_request_id pf))).
  rewrite (bind_done _ _ w tt w1) by done.
  set (ctx := new_context _ _ _ _). clearbody ctx.
  assert (exists r w2, try_catch (s ← run_handler (mi_stream_factory mi) request ctx; mret (inl s))
      (fun e => mret (inr e)) w1 = (Done r, w2) /\ w_wire w2 = w_wire w /\ sink_wf (w_sink w2))
    as (factory & w2 & E & Hw2 & Hs2).
  { unfold try_catch, run_handler, mbind, M_bind.
    destruct (mi_stream_factory mi request ctx (w_app w1)) as [[logs [x|e]] app];
      do 2 eexists; (split; [reflexivity|]); (split; [done|]); apply emit_all_wf, new_sink_wf. }
  rewrite (bind_done _ _ _ _ _ E). cbv beta. clear E.
  assert (served w2 = served w) as Hsv by (unfold served; by rewrite Hw2).
  rewrite <- Hw2 in Hr, Hi.
  assert (forall type message cause, exists w' l,
    handle_factory_error pf srv owner mi type message cause w2 = (Done tt, w') /\
    served w w' l rest /\ (1 <= length l <= 2)%nat) as Herr.
  { intros type message cause.
    destruct (handle_factory_error_spec owner mi type message cause s_in tks rest w2 Hr Hi)
      as (w' & b & md & E & Hs & _ & _).
    eexists w', _. split; [exact E|]. split; [by rewrite <- Hsv|cbn; lia]. }
  destruct factory as [x|e]; [|apply Herr].
  destruct (st_output_schema x) as [s|]; [|apply Herr]. destruct (st_input_schema x) as [s'|]; [|apply Herr].
  destruct (st_state x) as [st|]; [|apply Herr].
  assert (exists w3 l, match st_header x with Some h => write_header h | None => mret tt end w2 =
      (Done tt, w3) /\ answered w2 w3 l /\ sink_wf (w_sink w3) /\ (length l <= 1)%nat)
    as (w3 & l & E & Hans & Hs3 & Hl).
  { destruct (st_header x) as [h|].
    - destruct (write_header_spec h w2 Hr Hs2) as (w3 & logs & E & Ha & Hs3 & _).
      do 2 eexists. split; [exact E|]. split; [exact Ha|]. split; [done|]. cbn. lia.
    - exists w2, []. split; [done|]. split; [|split; [done|cbn; lia]].
      exists (writer (w_wire w2)). unfold sent, stream_list. cbn. rewrite app_nil_r. by destruct (w_wire w2). }
  rewrite (bind_done _ _ _ _ _ E). clear E.
  destruct (serve_turns_spec mi owner request ctx st s' s s_in tks rest w3) as (w4 & abs & E & Hs4 & _);
    [by rewrite (answered_room _ _ _ Hans)|done|by destruct Hans as [wr ->]|].
  exists w4, (l ++ [(s, abs)]). split; [done|]. split; [|rewrite length_app; cbn; lia].
  rewrite <- Hsv. by eapply served_after.
Qed.
End effects.
