(* ===== verification/Streams.v ===== *)
(** * What a stream sends

    An abstract stream, a function from the client's batches and the
    application's state to the batches the client gets back and how the stream
    ends, and the theorem that [serve_turns] implements it on an unbroken pipe
    when shared memory is not used. *)

From S2P Require Import Prelude Memory Arrow Json Crypto Grants Errors Shm ShmPointer.
From S2P Require Import Wire Calls ProtocolHash Reflection Server Dispatch Demo Serving.

(** ** The abstract stream *)

Inductive stream_end :=
  | Ended
  | Cancelled
  | Failed (e : exception).

Section spec.
Context {arrow : Arrow} {afields : ArrowFields} {streams : ArrowStreams} {kvm : KeyValueMetadata}
  {J : JsonText} {Caller App : Type} (array_length : Array -> Z) (st : @StreamState arrow Caller App)
  (ctx : CallContext Caller) (input_schema s : Schema) (sid rid : bytes) (empty : RecordBatch).

(** The batch a turn is given. *)
Definition turn_input (tk : AnnotatedBatch) : outcome RecordBatch :=
  if (length (fields input_schema) =? 0)%nat then Done (ab_batch tk)
  else (coerce_input_batch (ab_batch tk) input_schema tt).1.

Definition log_batches (sink : LogSink) : list AnnotatedBatch := map (with_metadata empty) (buffered_ sink).

(** One turn: what it sends and whether the stream is finished. *)
Definition turn_spec (tk : AnnotatedBatch) (app : App)
    : outcome (list AnnotatedBatch * bool) * LogSink * App :=
  match turn_input tk with
  | Raised e => (Raised e, new_LogSink sid rid, app)
  | Done b =>
      let '(r, out, sink, app) :=
        run_turn array_length
          (process st ctx {| ab_batch := b; custom_metadata := custom_metadata tk |} app)
          (new_OutputCollector s (length (fields input_schema) =? 0)%nat sid rid)
          (new_LogSink sid rid) in
      match r with
      | Raised e => (Raised e, sink, app)
      | Done _ => (Done (log_batches sink ++ batches_ out, finished_ out), sink, app)
      end
  end.

(** A turn per batch, until one finishes, fails or is cancelled. *)
Fixpoint stream_spec (tks : list AnnotatedBatch) (app : App)
    : list AnnotatedBatch * stream_end * App :=
  match tks with
  | [] => ([], Ended, app)
  | tk :: tks' =>
      if is_cancel (custom_metadata tk) then
        let '(_, _, app) := on_cancel st ctx app in ([], Cancelled, app)
      else
        match turn_spec tk app with
        | (Raised e, _, app) => ([], Failed e, app)
        | (Done (abs, true), _, app) => (abs, Ended, app)
        | (Done (abs, false), _, app) =>
            let '(abs', fin, app) := stream_spec tks' app in (abs ++ abs', fin, app)
        end
  end.
End spec.

(** ** [serve_turns] implements it *)

Section plain.
Context {arrow : Arrow} {afields : ArrowFields} {types : ArrowTypes} {streams : ArrowStreams}
  {build_ : ArrowBuild} {kvm : KeyValueMetadata} {J : JsonText} {D : Digests} {Caller App : Type}
  {identity : IdentityService Caller App}
  {alaws : ArrowLaws} {slaws : ArrowStreamsLaws} {total : ArrowTotal} {kvlaws : KeyValueMetadataLaws}
  {jtotal : JsonTextTotal}
  (array_length : Array -> Z) (pf : Platform) (srv : Server Caller App).

Abbreviation world := (World Caller App).

Lemma write_routed_plain abs (w : world) :
  call_shm (w_conn w) = false -> write_routed pf abs w = write_each abs w.
Proof.
  revert w; induction abs as [|ab abs IH]; intros w Hc; cbn [write_routed write_each]; [done|].
  rewrite (bind_done _ _ w ab w) by by apply route_output_plain.
  unfold mbind, M_bind, on_wire, zoom. destruct (write_annotated ab (w_wire w)) as [[u|e] wire']; [|done].
  by apply IH.
Qed.

Lemma resolve_input_plain tk (w : world) :
  is_shm_pointer_batch (Some (ab_batch tk)) (custom_metadata tk) = false ->
  resolve_input (ab_batch tk) (custom_metadata tk) w =
    (Done (ab_batch tk, custom_metadata tk, -1), w).
Proof. unfold resolve_input. by intros ->. Qed.

Lemma coerce_input_batch_pure {S} b target (w : S) :
  coerce_input_batch b target w = ((coerce_input_batch b target tt).1, w).
Proof.
  unfold coerce_input_batch. destruct (schema_equal _ _); [done|].
  destruct (negb _); [done|]. by destruct (coerce_columns _ _).
Qed.

Lemma LogSink_emit_ids sink m :
  ls_server_id (LogSink_emit sink m) = ls_server_id sink /\
  ls_request_id (LogSink_emit sink m) = ls_request_id sink.
Proof. done. Qed.

Lemma run_turn_ids (t : turn App) out sink :
  ls_server_id (run_turn array_length t out sink).1.2 = ls_server_id sink /\
  ls_request_id (run_turn array_length t out sink).1.2 = ls_request_id sink.
Proof.
  revert out sink; induction t as [| |m k IH|b md k IH|a k IH|l m k IH|k IH]; intros out sink;
    cbn [run_turn]; cbv zeta; auto. apply (IH out (LogSink_emit sink m)).
Qed.

Lemma log_batches_fit s empty sink :
  make_empty_batch s = Ok empty -> Forall (fits s) (log_batches empty sink).
Proof.
  intros E. apply make_empty_batch_ok in E as [_ Es]. apply Forall_forall.
  intros ab [md [-> _]]%list_elem_of_fmap. unfold fits. cbn. rewrite Es. apply schema_equal_refl.
Qed.

Abbreviation sid := (server_id_ srv).
Abbreviation rid := (pf_request_id pf).

(** A turn does what [turn_spec] says, and nothing else changes. *)
Lemma stream_turn_plain st ctx input_schema s empty tk o abs (w : world) :
  streaming o s abs w -> w_sink w = new_LogSink sid rid -> call_shm (w_conn w) = false ->
  is_shm_pointer_batch (Some (ab_batch tk)) (custom_metadata tk) = false ->
  make_empty_batch s = Ok empty ->
  let '(r, sink, app) := turn_spec array_length st ctx input_schema s sid rid empty tk (w_app w) in
  match r with
  | Raised e =>
      stream_turn array_length pf srv st ctx input_schema s (ab_batch tk) (custom_metadata tk) w =
        (Raised e, set_sink (set_app w app) sink)
  | Done (l, finished) => exists wire' w',
      stream_turn array_length pf srv st ctx input_schema s (ab_batch tk) (custom_metadata tk) w =
        (Done finished, w') /\
      w' = set_wire (set_sink (set_app w app) (new_LogSink sid rid)) wire' /\
      streaming o s (abs ++ l) w' /\ same_input w w'
  end.
Proof.
  intros H Hsink Hc Hptr Eempty. unfold stream_turn. cbv zeta.
  rewrite (bind_done _ _ _ _ _ (resolve_input_plain tk w Hptr)). cbv beta iota.
  assert ((if (length (fields input_schema) =? 0)%nat then mret (ab_batch tk)
           else coerce_input_batch (ab_batch tk) input_schema) w = (turn_input input_schema tk, w)) as Ei.
  { unfold turn_input. destruct (_ =? 0)%nat; [done|]. by rewrite coerce_input_batch_pure. }
  unfold turn_spec. destruct (turn_input input_schema tk) as [b|e]; cycle 1.
  { rewrite (bind_raised _ _ _ _ _ Ei). rewrite <- Hsink. by destruct w. }
  rewrite (bind_done _ _ _ _ _ Ei). cbv beta.
  set (ab := {| ab_batch := b; custom_metadata := custom_metadata tk |}).
  set (out0 := new_OutputCollector s _ sid rid).
  pose proof (run_turn_ids (process st ctx ab (w_app w)) out0 (new_LogSink sid rid)) as [Hid1 Hid2].
  destruct (run_turn_wf array_length (process st ctx ab (w_app w)) out0 (new_LogSink sid rid)
    (new_collector_wf _ _ _ _)) as [Hwf [Ho _]].
  pose proof (run_turn_sink_wf array_length (process st ctx ab (w_app w)) out0 (new_LogSink sid rid)
    (new_sink_wf _ _)) as Hswf.
  assert (process_turn array_length st ctx ab out0 w =
    let '(r, out, sink, app) := run_turn array_length (process st ctx ab (w_app w)) out0 (new_LogSink sid rid) in
    match r with
    | Done _ => (Done out, set_sink (set_app w app) sink)
    | Raised e => (Raised e, set_sink (set_app w app) sink)
    end) as Ep by (unfold process_turn; by rewrite Hsink).
  destruct (run_turn _ _ _ _) as [[[r out] sink] app]. cbn [fst snd] in *.
  destruct r as [u|e]; [|by rewrite (bind_raised _ _ _ _ _ Ep)].
  rewrite (bind_done _ _ _ _ _ Ep). cbv beta. set (w1 := set_sink (set_app w app) sink).
  rewrite (bind_done _ _ _ _ _ (flush_logs_plain s empty w1 Eempty)). cbv beta.
  change (w_sink w1) with sink. rewrite Hid1, Hid2. cbn [ls_server_id ls_request_id new_LogSink].
  set (w2 := set_sink w1 _).
  assert (streaming o s abs w2) as H2 by (eapply streaming_wire; [exact H|done|apply new_sink_wf]).
  destruct (write_each_spec o s abs _ w2 H2 (log_batches_fit s empty sink Eempty)) as (wire3 & E3 & H3 & I3).
  rewrite (bind_done _ _ _ _ _ E3).
  destruct (write_each_spec o s _ (batches_ out) _ H3) as (wire4 & E4 & H4 & I4).
  { cbn in Ho. rewrite <- Ho. apply (cw_fits _ Hwf). }
  rewrite <- write_routed_plain in E4 by done. rewrite (bind_done _ _ _ _ _ E4).
  rewrite (bind_done _ _ _ tt (set_wire (set_wire w2 wire3) wire4)) by done.
  exists wire4. eexists. split; [reflexivity|]. split; [done|]. rewrite app_assoc. split; [done|].
  by eapply same_input_trans.
Qed.

(** The loop does what [stream_spec] says. *)
Definition loop_result (fin : stream_end) : outcome bool :=
  match fin with Ended => Done false | Cancelled => Done true | Failed e => Raised e end.

Definition not_pointer (tk : AnnotatedBatch) : Prop :=
  is_shm_pointer_batch (Some (ab_batch tk)) (custom_metadata tk) = false.

(** What the loop and the steps around it leave as it was. *)
Definition same_context (w w' : world) : Prop :=
  w_where w' = w_where w /\ w_access w' = w_access w.

Lemma same_context_trans w1 w2 w3 : same_context w1 w2 -> same_context w2 w3 -> same_context w1 w3.
Proof. intros [] []. split; congruence. Qed.

Lemma peer_acts_plain (w : world) :
  exists w', peer_acts w = (Done tt, w') /\ w_wire w' = w_wire w /\ w_sink w' = w_sink w /\
    w_app w' = w_app w /\ call_shm (w_conn w') = call_shm (w_conn w) /\ same_context w w'.
Proof. unfold peer_acts. destruct (w_peer w); eexists; done. Qed.

(** Reading the next message of the input stream. *)
Lemma next_plain o s abs tks rest (w : world) :
  streaming o s abs w -> pending tks rest w ->
  exists r w', (next ← on_wire read_next; peer_acts;; mret next) w = (Done r, w') /\
    r = match tks with [] => NextEnd | tk :: _ => NextBatch (ab_batch tk) (custom_metadata tk) end /\
    streaming o s abs w' /\
    match tks with [] => drained rest w' | _ :: tks' => pending tks' rest w' end /\
    w_sink w' = w_sink w /\ w_app w' = w_app w /\ call_shm (w_conn w') = call_shm (w_conn w) /\
    same_context w w'.
Proof.
  intros H [He Hi].
  set (w1 := set_wire w (read_next (w_wire w)).2).
  set (r := match tks with [] => NextEnd | tk :: _ => NextBatch (ab_batch tk) (custom_metadata tk) end).
  assert (on_wire read_next w = (Done r, w1) /\ output (w_wire w1) = output (w_wire w) /\
    writer (w_wire w1) = writer (w_wire w) /\ room (w_wire w1) = room (w_wire w) /\
    match tks with [] => drained rest w1 | _ :: tks' => pending tks' rest w1 end)
    as (E & Ho & Hw & Hr & Hp).
  { subst w1 r. unfold on_wire, zoom, read_next. rewrite He, Hi. by destruct tks. }
  rewrite (bind_done _ _ _ _ _ E). cbv beta.
  assert (w_sink w1 = w_sink w /\ w_app w1 = w_app w /\ w_conn w1 = w_conn w /\ same_context w w1)
    as (Hs1 & Ha1 & Hc1 & Hx1) by done.
  clearbody w1. destruct (peer_acts_plain w1) as (w2 & E2 & Hw2 & Hs2 & Ha2 & Hc2 & Hx2).
  rewrite (bind_done _ _ _ _ _ E2). exists r, w2. split; [done|]. split; [done|]. split.
  - by eapply streaming_read; [exact H|congruence..].
  - split; [unfold drained, pending in *; by destruct tks; rewrite Hw2|].
    rewrite Hs2, Ha2, Hc2, Hc1. destruct Hx1, Hx2. split_and!; try done. split; congruence.
Qed.

Lemma stream_loop_plain st ctx input_schema s empty rest o fuel :
  make_empty_batch s = Ok empty ->
  forall tks abs (w : world),
  (length tks < fuel)%nat -> streaming o s abs w -> pending tks rest w ->
  w_sink w = new_LogSink sid rid -> call_shm (w_conn w) = false -> Forall not_pointer tks ->
  let '(l, fin, app) := stream_spec array_length st ctx input_schema s sid rid empty tks (w_app w) in
  exists w' tks',
    stream_loop array_length pf srv fuel st ctx input_schema s w = (loop_result fin, w') /\
    streaming o s (abs ++ l) w' /\ (pending tks' rest w' \/ (drained rest w' /\ tks' = [])) /\
    w_app w' = app /\ same_context w w'.
Proof.
  intros Eempty. induction fuel as [|fuel IH]; intros tks abs w Hf H Hp Hsink Hc Hptr; [lia|].
  cbn [stream_loop].
  destruct (next_plain o s abs tks rest w H Hp) as (r & w1 & E & -> & H1 & Hp1 & Hs1 & Ha1 & Hc1 & Hx1).
  apply bind_done_inv in E as (r & w0 & E & E0). rewrite (bind_done _ _ _ _ _ E). cbv beta.
  apply bind_done_inv in E0 as ([] & w1' & E0 & E1). rewrite (bind_done _ _ _ _ _ E0). cbv beta.
  injection E1 as -> ->. destruct tks as [|tk tks]; cbn [stream_spec].
  - exists w1, []. rewrite app_nil_r. split_and!; try done. by right.
  - inversion Hptr as [|? ? Hptr1 Hptr']; subst. destruct (is_cancel (custom_metadata tk)).
    + unfold run_on_cancel. destruct (on_cancel st ctx (w_app w)) as [[logs x] app] eqn:Ec.
      erewrite bind_done by (rewrite Ha1, Ec; reflexivity).
      eexists _, tks. split; [reflexivity|]. rewrite app_nil_r. split; [|split; [by left|done]].
      eapply streaming_wire; [exact H1|done|]. apply emit_all_wf, H1.
    + rewrite <- Ha1.
      pose proof (stream_turn_plain st ctx input_schema s empty tk o abs w1 H1) as Ht.
      rewrite Hs1, Hc1 in Ht. specialize (Ht Hsink Hc Hptr1 Eempty).
      pose proof (st_sink _ _ _ _ H1) as Hsw.
      destruct (turn_spec _ _ _ _ _ _ _ _ tk (w_app w1)) as [[[[l finished]|e] sink] app] eqn:Et; cycle 1.
      { rewrite (bind_raised _ _ _ _ _ Ht). eexists _, tks. split; [reflexivity|]. rewrite app_nil_r.
        split; [|split; [by left|done]]. eapply streaming_wire; [exact H1|done|].
        unfold turn_spec in Et. destruct (turn_input _ _) as [b|e'].
        - pose proof (run_turn_sink_wf array_length (process st ctx {| ab_batch := b;
            custom_metadata := custom_metadata tk |} (w_app w1))
            (new_OutputCollector s (length (fields input_schema) =? 0)%nat sid rid)
            (new_LogSink sid rid) (new_sink_wf _ _)) as Hw.
          destruct (run_turn _ _ _ _) as [[[[u|e''] out] sink'] app']; [done|].
          by injection Et as <- <- <-.
        - injection Et as <- <- <-. apply new_sink_wf. }
      destruct Ht as (wire2 & w2 & E2 & Hw2 & H2 & I2). rewrite (bind_done _ _ _ _ _ E2).
      assert (pending tks rest w2) as Hp2 by by eapply pending_same.
      assert (w_app w2 = app /\ w_sink w2 = new_LogSink sid rid /\ call_shm (w_conn w2) = false /\
        same_context w w2) as (Ha2 & Hs2 & Hc2 & Hx2) by (subst w2; by rewrite <- Hc, <- Hc1).
      destruct finished.
      { exists w2, tks. do 2 (split; [done|]). split; [by left|]. split; [done|].
        by eapply same_context_trans. }
      pose proof (IH tks (abs ++ l) w2 ltac:(cbn in Hf; lia) H2 Hp2 Hs2 Hc2 Hptr') as Hrec.
      rewrite Ha2 in Hrec. destruct (stream_spec _ _ _ _ _ _ _ _ tks app) as [[l' fin] app'].
      destruct Hrec as (w' & tks' & E3 & H3 & Hr3 & Ha3 & Hx3). exists w', tks'.
      rewrite app_assoc. do 4 (split; [done|]).
      by eapply same_context_trans.
Qed.
End plain.

(** ** Properties *)

(** C24: a stream does what the abstract stream says.  On an unbroken pipe, with
    the client's batches sent as one complete stream and no shared memory, the
    client gets exactly one complete stream on the output schema: the log
    messages pending at the start, then what each turn logged and emitted up to
    the turn that finishes, is cancelled or fails, and after a failure one error
    batch that carries the exception (the failing turn's own batches and
    messages are not sent).  The input stream is taken whole, the application's
    state is the abstract stream's, and one access record tells how it ended. *)
Theorem stream_served_as_specified
    {arrow : Arrow} {afields : ArrowFields} {streams : ArrowStreams} {kvm : KeyValueMetadata}
    {J : JsonText} {Caller App : Type} {identity : IdentityService Caller App}
    {alaws : ArrowLaws} {slaws : ArrowStreamsLaws} {total : ArrowTotal}
    {kvlaws : KeyValueMetadataLaws} {jtotal : JsonTextTotal}
    array_length pf (srv : Server Caller App) mi owner request ctx st input_schema s s_in tks rest
    empty buffered (w : World Caller App) :
  room (w_wire w) = None -> input (w_wire w) = stream_messages s_in tks ++ rest ->
  call_shm (w_conn w) = false -> Forall not_pointer tks ->
  w_sink w = {| ls_server_id := server_id_ srv; ls_request_id := pf_request_id pf; buffered_ := buffered |} ->
  Forall log_keys buffered -> make_empty_batch s = Ok empty ->
  let '(abs, fin, app) := stream_spec array_length st ctx input_schema s (server_id_ srv)
                            (pf_request_id pf) empty tks (w_app w) in
  exists w' tail,
    serve_turns array_length pf srv mi owner request ctx st input_schema s w = (Done tt, w') /\
    error_tail pf srv owner (mi_name mi) (current_scope srv w) s (loop_result fin) tail /\
    served w w' [(s, map (with_metadata empty) buffered ++ abs ++ tail)] rest /\
    w_app w' = app /\
    w_access w' = w_access (log_call pf srv owner (mi_name mi) true (ctx_caller _ ctx)
                              (failure_in (loop_result fin)) (cancelled_in (loop_result fin)) request w).2.
Proof.
  intros Hr Hi Hc Hptr Hsink Hkeys Ee.
  assert (sink_wf (w_sink w)) as Hs by by rewrite Hsink.
  destruct (serve_turns_opens array_length pf srv mi owner request ctx st input_schema s s_in tks rest empty w
    Hr Hs Ee Hi) as (x & E0 & H1 & Hp1). rewrite Hsink in E0, H1, Hp1.
  cbn [ls_server_id ls_request_id buffered_] in E0, H1, Hp1. rewrite E0.
  set (w1 := set_wire _ x) in *.
  assert (length tks < S (length (input (w_wire w1))))%nat as Hfuel
    by (destruct Hp1 as [_ ->]; rewrite length_app, length_map; lia).
  pose proof (stream_loop_plain array_length pf srv st ctx input_schema s empty rest _ _ Ee tks _ w1 Hfuel
    H1 Hp1 eq_refl Hc Hptr) as Hloop.
  change (w_app w1) with (w_app w) in Hloop.
  destruct (stream_spec _ _ _ _ _ _ _ _ tks (w_app w)) as [[abs fin] app].
  destruct Hloop as (w2 & tks' & E & H2 & Hrest & Ha2 & [Hw2 Hx2]).
  destruct (turns_close array_length pf srv mi owner request ctx st input_schema s rest _ _ tks' _ w1 w2 E H2
    Hrest) as (w' & tail & Et & Htail & Hw' & Ha' & Hx'). exists w', tail. split; [done|]. split.
  - unfold current_scope in *. by rewrite Hw2 in Htail.
  - split; [unfold served; rewrite stream_list_one, app_assoc; exact Hw'|]. split; [congruence|].
    rewrite Hx'. by apply log_call_access.
Qed.

(** ** Witnesses *)

Import ToyArrow ToyStreams ToyJson ToyTypes ToyBuild Toy ToyIdentity ToyDispatch.

Definition toy_empty : @RecordBatch toy_arrow := toy_data_batch [].

Definition copy_method : @MethodInfo toy_arrow unit Z :=
  {| mi_name := str "copy"; mi_method_type := STREAM; mi_params_schema := toy_schema;
     mi_result_schema := toy_schema; mi_handler := no_handler; mi_doc := []; mi_has_return := false;
     mi_input_schema := Some toy_schema; mi_output_schema := Some toy_schema; mi_header_schema := None;
     mi_stream_factory := copy; mi_is_exchange := true |}.

Definition copy_context : CallContext unit := new_context demo_platform demo_server PIPE tt.

Definition copy_inputs : list AnnotatedBatch :=
  [data (toy_data_batch [x01]); data (toy_data_batch [x02]); data (toy_data_batch [x00]);
   data (toy_data_batch [x03])].

Definition copy_request : Request :=
  {| req_batch := toy_data_batch [x09]; req_metadata := None |}.

Definition copy_world : World unit Z :=
  set_sink (demo_world (stream_messages toy_schema copy_inputs)) (new_LogSink (str "srv") (str "r1")).

(** Two batches are copied with their logs, the third fails. *)
Definition copied : list AnnotatedBatch * stream_end * Z :=
  stream_spec (fun _ => 0) copy_state copy_context toy_schema toy_schema (str "srv") (str "r1")
    toy_empty copy_inputs 0.

Lemma stream_served_as_specified_witness :
  copied.1.2 = Failed (EOther (str "zero")) /\ length copied.1.1 = 4%nat /\ copied.2 = 3 /\
  exists w' tail,
    serve_turns (fun _ => 0) demo_platform demo_server copy_method no_binding copy_request copy_context
      copy_state toy_schema toy_schema copy_world = (Done tt, w') /\
    length tail = 1%nat /\
    served copy_world w' [(toy_schema, copied.1.1 ++ tail)] [] /\ w_app w' = 3.
Proof.
  split; [reflexivity|]. split; [reflexivity|]. split; [reflexivity|].
  destruct (stream_served_as_specified (fun _ => 0) demo_platform demo_server copy_method no_binding
    copy_request copy_context copy_state toy_schema toy_schema toy_schema copy_inputs [] toy_empty []
    copy_world) as (w' & tail & E & Ht & Hs & Ha & _);
    [reflexivity|vm_compute; reflexivity|reflexivity|repeat constructor|reflexivity|constructor|reflexivity|].
  exists w', tail. split; [exact E|]. split; [|split; [exact Hs|exact Ha]].
  destruct Ht as (b & md & -> & _). reflexivity.
Defined.
