(* ===== verification/Admission.v ===== *)
(** * What runs application code, and when a connection ends

    A small logic for relations that every function of the dispatch monad
    keeps, whatever it returns or throws; with it: application code runs only
    for an admitted request, and the serving loop ends.  Nothing here assumes
    that the pipe holds. *)

From S2P Require Import Prelude Memory Arrow Json Crypto Grants Errors Shm ShmPointer.
From S2P Require Import Wire Calls ProtocolHash Reflection Server Dispatch Demo.

(** ** Relations a function keeps *)

Definition always {S A} (R : S -> S -> Prop) (m : M S A) : Prop := forall s, R s (m s).2.

Create HintDb frame discriminated.

Section always.
Context {S : Type} (R : S -> S -> Prop) {HR : PreOrder R}.

Lemma always_ret {A} (a : A) : always R (mret a).
Proof. intros s. cbn. reflexivity. Qed.

Lemma always_raise {A} e : always R (raise (A := A) e).
Proof. intros s. cbn. reflexivity. Qed.

Lemma always_get : always R get.
Proof. intros s. cbn. reflexivity. Qed.

Lemma always_lift {A} (r : res A) : always R (lift r).
Proof. destruct r; [apply always_ret|apply always_raise]. Qed.

Lemma always_bind {A B} (m : M S A) (f : A -> M S B) :
  always R m -> (forall a, always R (f a)) -> always R (m ≫= f).
Proof.
  intros Hm Hf s. unfold mbind, M_bind. specialize (Hm s).
  destruct (m s) as [[a|e] s']; cbn [snd] in *; [|done]. transitivity s'; [done|]. apply Hf.
Qed.

Lemma always_try {A} (m : M S A) h :
  always R m -> (forall e, always R (h e)) -> always R (try_catch m h).
Proof.
  intros Hm Hh s. unfold try_catch. specialize (Hm s).
  destruct (m s) as [[a|e] s']; cbn [snd] in *; [done|]. transitivity s'; [done|]. apply Hh.
Qed.

Lemma always_modify f : (forall s, R s (f s)) -> always R (modify f).
Proof. intros Hf s. apply Hf. Qed.

Lemma always_zoom {T A} (part : S -> T) with_part (m : M T A) (Q : T -> T -> Prop) :
  always Q m -> (forall s t, Q (part s) t -> R s (with_part s t)) -> always R (zoom part with_part m).
Proof.
  intros Hm Hq s. unfold zoom. specialize (Hm (part s)). destruct (m (part s)) as [r t]. by apply Hq.
Qed.
End always.

#[export] Hint Resolve always_ret always_raise always_get always_lift : frame.

(** Splits binds, tries, conditionals and pattern matches. *)
Ltac frame_step :=
  match goal with
  | |- forall _, _ => intros ?
  | |- always _ (mbind _ _) => apply always_bind; [typeclasses eauto| |]
  | |- always _ (try_catch _ _) => apply always_try; [typeclasses eauto| |]
  | |- always _ (let _ := _ in _) => cbv zeta
  | |- always _ (match ?x with _ => _ end) => destruct x
  | |- always _ _ => solve [eauto 3 with frame typeclass_instances]
  end.
Ltac frame := repeat frame_step.

(** *** The connection's input only shrinks *)

Section wire_frames.
Context {arrow : Arrow} {streams : ArrowStreams}.

Definition shrinks (w w' : wire) : Prop := (length (input w') <= length (input w))%nat.

#[export] Instance shrinks_preorder : PreOrder shrinks.
Proof. split; [intros w; unfold shrinks; lia|intros w1 w2 w3; unfold shrinks; lia]. Qed.

(** An opened reader has taken the schema message. *)
Lemma open_reader_takes w :
  match open_reader w with
  | (Done (OpenOk _), w') => (length (input w') < length (input w))%nat
  | (_, w') => shrinks w w'
  end.
Proof.
  unfold open_reader, shrinks. destruct (input w) as [|[s|b md| |[] what] i] eqn:Ei; cbn; rewrite ?Ei; cbn; lia.
Qed.

Lemma open_reader_shrinks : always shrinks open_reader.
Proof.
  intros w. pose proof (open_reader_takes w) as H. destruct (open_reader w) as [[[]|] w'];
    cbn [snd]; unfold shrinks in *; lia.
Qed.

Lemma read_next_shrinks : always shrinks read_next.
Proof.
  intros w. unfold read_next, shrinks. destruct (at_eos w); [cbn; lia|].
  destruct (input w) as [|[] i]; cbn; lia.
Qed.

Lemma read_batches_shrinks fuel acc : always shrinks (read_batches fuel acc).
Proof.
  revert acc; induction fuel as [|fuel IH]; intros acc; cbn [read_batches]; [frame|].
  apply always_bind; [typeclasses eauto|apply read_next_shrinks|]. intros []; auto with frame typeclass_instances.
Qed.

Lemma read_ipc_stream_shrinks : always shrinks read_ipc_stream.
Proof.
  unfold read_ipc_stream. apply always_bind; [typeclasses eauto|apply open_reader_shrinks|].
  intros []; frame. apply read_batches_shrinks.
Qed.

(** Contents mean that a message was taken. *)
Lemma read_ipc_stream_takes w c w' :
  read_ipc_stream w = (Done (Some c), w') -> (length (input w') < length (input w))%nat.
Proof.
  unfold read_ipc_stream. intros E.
  apply bind_done_inv in E as (o & w1 & E1 & E). pose proof (open_reader_takes w) as H. rewrite E1 in H.
  destruct o; try discriminate. apply bind_done_inv in E as (w1' & w2 & E2 & E). injection E2 as -> ->.
  apply bind_done_inv in E as (bs & w3 & E3 & E). injection E as _ <-.
  pose proof (read_batches_shrinks (S (length (input w2))) [] w2) as H3. rewrite E3 in H3. cbn in H3.
  unfold shrinks in H3. lia.
Qed.

Lemma drain_reader_shrinks : always shrinks drain_reader.
Proof.
  intros w. unfold drain_reader, modify, shrinks. cbn [snd].
  destruct (at_eos w); [done|]. cbn. induction (input w) as [|[] i IH]; cbn; lia.
Qed.

Lemma send_shrinks m : always shrinks (send m).
Proof. intros w. unfold send, shrinks. destruct (room w) as [[]|]; cbn; lia. Qed.

Lemma modify_writer_shrinks wr : always shrinks (modify (fun w => with_writer w wr)).
Proof. intros w. unfold shrinks. done. Qed.

Lemma check_started_shrinks : always shrinks check_started.
Proof. unfold check_started. frame; [apply send_shrinks|apply modify_writer_shrinks]. Qed.

Lemma Close_shrinks : always shrinks Close.
Proof.
  unfold Close. frame; [apply check_started_shrinks|apply send_shrinks|apply modify_writer_shrinks].
Qed.

Lemma WriteRecordBatch_shrinks b md : always shrinks (WriteRecordBatch b md).
Proof. unfold WriteRecordBatch. frame; [apply check_started_shrinks|apply send_shrinks]. Qed.

Lemma MakeStreamWriter_shrinks s : always shrinks (MakeStreamWriter s).
Proof. intros w. unfold MakeStreamWriter. destruct (stream_writer_ok s); unfold shrinks; cbn; lia. Qed.

Lemma write_ipc_stream_shrinks s abs : always shrinks (write_ipc_stream s abs).
Proof.
  unfold write_ipc_stream. frame; [apply MakeStreamWriter_shrinks| |apply Close_shrinks].
  induction abs; cbn [write_batches]; frame. apply WriteRecordBatch_shrinks.
Qed.
End wire_frames.

#[export] Hint Resolve open_reader_shrinks read_next_shrinks read_ipc_stream_shrinks
  drain_reader_shrinks Close_shrinks WriteRecordBatch_shrinks MakeStreamWriter_shrinks
  write_ipc_stream_shrinks : frame.

(** *** Dispatch *)

(** The identity protocol's server reads nothing from the connection. *)
Class IdentityDispatchQuiet `{IdentityDispatch} `{!ArrowStreams} := {
  identity_reads_nothing pf srv method batch caller (w : World Caller App) :
    shrinks (w_wire w) (w_wire (serve_identity pf srv method batch caller w).2);
}.

(** ** What a request must be

    The conditions of the gates, in words of their own. *)

Section conditions.
Context {arrow : Arrow} {afields : ArrowFields}.

Definition same_field (got want : Field) : Prop :=
  field_name got = field_name want /\ type_equal (field_type got) (field_type want) = true /\
  field_nullable got = field_nullable want.

(** The batch is one row of the parameters, in their order; a method without
    parameters takes any number of rows of no columns. *)
Definition meets_contract (b : RecordBatch) (want : Schema) : Prop :=
  (fields want <> [] -> num_rows b = 1) /\ Forall2 same_field (fields (schema b)) (fields want).

Lemma field_mismatch_iff i got want :
  length got = length want -> field_mismatch i got want = [] <-> Forall2 same_field got want.
Proof.
  revert i want; induction got as [|g got IH]; intros i [|x want]; try done. intros [= Hl]. cbn [field_mismatch].
  rewrite Forall2_cons. unfold same_field at 1.
  destruct (bool_decide_reflect (field_name g = field_name x)); cbn [negb orb]; [|split; [done|tauto]].
  destruct (type_equal _ _); cbn [negb orb]; [|split; [done|intros [(_ & ? & _) _]; done]].
  destruct (field_nullable g), (field_nullable x); cbn [Bool.eqb negb];
    rewrite ?IH by done; split; try done; try tauto; intros [(_ & _ & ?) _]; done.
Qed.

Lemma meets_contract_iff b want : parameter_contract_error b want = [] <-> meets_contract b want.
Proof.
  unfold parameter_contract_error, meets_contract. cbv zeta.
  destruct (Nat.eqb_spec (length (fields want)) 0) as [E|E]; cbn [negb andb].
  - destruct (Nat.eqb_spec (length (fields (schema b))) (length (fields want))) as [El|El]; cbn [negb].
    + rewrite field_mismatch_iff by done. apply nil_length_inv in E. rewrite E. tauto.
    + split; [done|]. intros [_ H]. by apply Forall2_length in H.
  - assert (fields want <> []) as Hn by by destruct (fields want).
    destruct (Z.eqb_spec (num_rows b) 1) as [H1|H1]; cbn [negb]; [|split; [done|tauto]].
    destruct (Nat.eqb_spec (length (fields (schema b))) (length (fields want))) as [El|El]; cbn [negb].
    + rewrite field_mismatch_iff by done. tauto.
    + split; [done|]. intros [_ H]. by apply Forall2_length in H.
Qed.

Context {kvm : KeyValueMetadata} {Caller App : Type} {identity : IdentityService Caller App}
  (srv : Server Caller App).

(** The binding declares no version, or the request declares one with the same
    major and minor numbers. *)
Definition version_accepted (p : ServedProtocol Caller App) (md : metadata) : Prop :=
  forall major minor patch, sp_version p <> [] -> parse_semver (sp_version p) = Some (major, minor, patch) ->
    exists kvs declared patch', md = Some kvs /\ find_value kvs PROTOCOL_VERSION = Some declared /\
      parse_semver declared = Some (major, minor, patch').

Lemma version_accepted_iff p md : protocol_version_error p md = [] <-> version_accepted p md.
Proof.
  unfold version_accepted. destruct (parse_semver (sp_version p)) as [[[M m] q]|] eqn:Ep; cycle 1.
  { split; [done|]. intros _. unfold protocol_version_error. by destruct (sp_version p); [|rewrite Ep]. }
  rewrite version_gate_iff by (right; by rewrite Ep). split.
  - intros [H|(kvs & d & M' & m' & p1 & p2 & -> & Hf & Hd & Hs)] ? ? ? Hne [= <- <- <-]; [done|].
    rewrite Ep in Hs. injection Hs as -> -> _. by exists kvs, d, p1.
  - intros H. destruct (sp_version p) as [|c v] eqn:Ev; [by left|right].
    destruct (H M m q ltac:(done) eq_refl) as (kvs & d & p1 & -> & Hf & Hd).
    by exists kvs, d, M, m, p1, q.
Qed.

(** The request must name its protocol: a server with a named protocol routes
    application methods by name, and everything else goes to its first one. *)
Definition keyed (name : bytes) : Prop :=
  IsApplicationMethod name = true /\ sp_name (front_protocol srv) <> [].

(** The binding a request addresses: the first of the name it gives. *)
Definition addresses (name : bytes) (md : metadata) (target : ServedProtocol Caller App) : Prop :=
  let protocol := get_metadata_value md PROTOCOL [] in
  (keyed name -> protocol <> [] /\ sp_name target = protocol /\
    exists before after, protocols_ srv = before ++ target :: after /\
      Forall (fun p => sp_name p <> protocol) before) /\
  (~ keyed name -> target = front_protocol srv).

Lemma keyed_reflect name :
  reflect (keyed name) (IsApplicationMethod name && negb (length (sp_name (front_protocol srv)) =? 0)%nat).
Proof.
  unfold keyed. destruct (IsApplicationMethod name); cbn [andb]; [|constructor; by intros [? _]].
  destruct (sp_name (front_protocol srv)); constructor; [by intros [_ ?]|done].
Qed.

(** The first binding of the name. *)
Lemma find_protocol_first name p :
  name <> [] ->
  find_protocol srv name = Some p <->
  sp_name p = name /\ exists before after, protocols_ srv = before ++ p :: after /\
    Forall (fun q => sp_name q <> name) before.
Proof.
  intros Hne. unfold find_protocol. induction (protocols_ srv) as [|q qs IH]; cbn [List.find].
  { split; [done|]. intros (_ & [|? ?] & after & [=] & _). }
  destruct (decide (sp_name q = name)) as [Hq|Hq].
  - rewrite (bool_decide_eq_true_2 (sp_name q = name)) by done.
    assert (negb (length (sp_name q) =? 0)%nat = true) as -> by (rewrite Hq; by destruct name). cbn [andb]. split.
    + intros [= <-]. split; [done|]. exists [], qs. split; [done|constructor].
    + intros (Hp & [|x before] & after & [= -> ->] & Hb); [done|]. by inversion Hb.
  - rewrite (bool_decide_eq_false_2 (sp_name q = name)) by done. rewrite andb_false_r, IH. split.
    + intros (Hp & before & after & -> & Hb). split; [done|]. exists (q :: before), after.
      split; [done|by constructor].
    + intros (Hp & [|x before] & after & [= -> ->] & Hb); [done|]. split; [done|].
      inversion Hb; subst. by exists before, after.
Qed.

Lemma find_protocol_none name :
  name <> [] -> find_protocol srv name = None <-> Forall (fun q => sp_name q <> name) (protocols_ srv).
Proof.
  intros Hne. unfold find_protocol. induction (protocols_ srv) as [|q qs IH]; cbn [List.find]; [done|].
  rewrite Forall_cons. destruct (decide (sp_name q = name)) as [Hq|Hq].
  - rewrite (bool_decide_eq_true_2 (sp_name q = name)) by done.
    assert (negb (length (sp_name q) =? 0)%nat = true) as -> by (rewrite Hq; by destruct name).
    split; [done|]. by intros [? _].
  - rewrite (bool_decide_eq_false_2 (sp_name q = name)), andb_false_r, IH by done. tauto.
Qed.

Lemma route_addresses name md target : route srv name md = inr target <-> addresses name md target.
Proof.
  unfold route, addresses. cbv zeta. destruct (keyed_reflect name) as [K|K].
  2: { split; [by intros [= <-]|]. intros [_ ->]; done. }
  destruct (Nat.eqb_spec (length (get_metadata_value md PROTOCOL [])) 0) as [Hl|Hl].
  { apply nil_length_inv in Hl. rewrite Hl. split; [done|]. intros [H _]. by destruct (H K). }
  assert (get_metadata_value md PROTOCOL [] <> []) as Hne by by destruct (get_metadata_value _ _ _).
  pose proof (find_protocol_first (get_metadata_value md PROTOCOL [])) as Hf.
  destruct (find_protocol srv _) as [p|] eqn:Ef.
  - split.
    + intros [= <-]. split; [|done]. intros _. split; [done|]. by apply Hf.
    + intros [H _]. destruct (H K) as (_ & H'). specialize (Hf target Hne) as [_ Hf]. f_equal.
      specialize (Hf H'). by injection Hf.
  - split; [done|]. intros [H _]. destruct (H K) as (_ & H').
    specialize (Hf target Hne) as [_ Hf]. by specialize (Hf H').
Qed.

End conditions.

Section dispatch_frames.
Context {arrow : Arrow} {afields : ArrowFields} {types : ArrowTypes} {streams : ArrowStreams}
  {build_ : ArrowBuild} {kvm : KeyValueMetadata} {J : JsonText} {D : Digests} {Caller App : Type}
  {identity : IdentityService Caller App} {identity_dispatch : IdentityDispatch Caller App}
  {identity_quiet : IdentityDispatchQuiet}
  (array_length : Array -> Z) (pf : Platform) (srv : Server Caller App).

Abbreviation world := (World Caller App).

Definition input_shrinks (w w' : world) : Prop := shrinks (w_wire w) (w_wire w').

(** No application code has run. *)
Definition quiet (w w' : world) : Prop := w_app w' = w_app w /\ input_shrinks w w'.

#[export] Instance input_shrinks_preorder : PreOrder input_shrinks.
Proof. split; [intros w|intros w1 w2 w3]; unfold input_shrinks; [done|apply transitivity]. Qed.

#[export] Instance quiet_preorder : PreOrder quiet.
Proof.
  split; [by intros w|]. intros w1 w2 w3 [E1 S1] [E2 S2].
  split; [congruence|]. by transitivity w2.
Qed.

Lemma input_shrinks_same (w w' : world) : w_wire w' = w_wire w -> input_shrinks w w'.
Proof. intros Hw. unfold input_shrinks. by rewrite Hw. Qed.

Lemma quiet_shrinks {A} (m : M world A) : always quiet m -> always input_shrinks m.
Proof. intros H w. apply H. Qed.

Lemma quiet_same (w w' : world) : w_app w' = w_app w -> w_wire w' = w_wire w -> quiet w w'.
Proof. intros Ha Hw. split; [done|]. unfold input_shrinks. by rewrite Hw. Qed.

Lemma quiet_modify (f : world -> world) :
  (forall w, w_app (f w) = w_app w /\ w_wire (f w) = w_wire w) -> always quiet (modify f).
Proof.
  intros Hf w. cbn. destruct (Hf w) as [Ha Hw]. split; [done|]. unfold input_shrinks. by rewrite Hw.
Qed.

Lemma on_wire_quiet {A} (m : M wire A) : always shrinks m -> always quiet (on_wire m : M world A).
Proof. intros H. eapply always_zoom; [exact H|]. by intros. Qed.

#[local] Hint Resolve on_wire_quiet : frame.

Lemma respond_error_quiet type message kind extras :
  always quiet (respond_error pf srv type message kind extras).
Proof. unfold respond_error. frame. Qed.

Lemma emit_record_quiet r : always quiet (emit_record srv r).
Proof. unfold emit_record. frame. by apply quiet_modify. Qed.

Lemma flush_logs_quiet s : always quiet (flush_logs s : M world _).
Proof.
  eapply always_zoom with (Q := fun _ _ => True); [done|]. intros w t _. by apply quiet_same.
Qed.

Lemma set_where_quiet x : always quiet (set_where x : M world _).
Proof. by apply quiet_modify. Qed.

Lemma set_call_shm_quiet b : always quiet (set_call_shm b : M world _).
Proof. by apply quiet_modify. Qed.

Lemma reset_sink_quiet : always quiet (reset_sink pf srv).
Proof. by apply quiet_modify. Qed.

Lemma refresh_shm_quiet md : always quiet (refresh_shm pf md : M world _).
Proof.
  apply quiet_modify. intros w. cbv zeta. destruct (_ || _); [done|].
  by destruct (stoull _) as [size|].
Qed.

Lemma free_input_quiet off : always quiet (free_input off : M world _).
Proof. apply quiet_modify. intros w. cbv zeta. by destruct (0 <=? off). Qed.

Lemma peer_acts_quiet : always quiet (peer_acts : M world _).
Proof. intros w. unfold peer_acts. destruct (w_peer w); by apply quiet_same. Qed.

Lemma route_output_quiet ab : always quiet (route_output pf ab : M world _).
Proof.
  intros w. unfold route_output. rewrite (bind_done _ _ w w w) by done. cbv beta zeta.
  destruct (maybe_write_to_shm _ _ _ _) as [[[b md] seg]|e]; [|by apply quiet_same].
  cbn [lift]. apply quiet_same; cbn; by destruct (call_shm (w_conn w)).
Qed.

Lemma resolve_input_quiet b md : always quiet (resolve_input b md : M world _).
Proof. unfold resolve_input. frame. Qed.

Lemma resolve_request_quiet b md : always quiet (resolve_request b md : M world _).
Proof. unfold resolve_request. frame. Qed.

#[local] Hint Resolve respond_error_quiet emit_record_quiet flush_logs_quiet set_where_quiet
  reset_sink_quiet
  set_call_shm_quiet refresh_shm_quiet free_input_quiet peer_acts_quiet route_output_quiet
  resolve_input_quiet resolve_request_quiet : frame.

Lemma write_each_quiet abs : always quiet (write_each abs : M world _).
Proof.
  induction abs; cbn [write_each]; frame.
Qed.

Lemma write_routed_quiet abs : always quiet (write_routed pf abs : M world _).
Proof. induction abs; cbn [write_routed]; frame. Qed.

Lemma write_stream_error_quiet s type e tb : always quiet (write_stream_error pf srv s type e tb).
Proof. unfold write_stream_error. frame. Qed.

Lemma handle_factory_error_quiet owner mi type message cause :
  always quiet (handle_factory_error pf srv owner mi type message cause).
Proof. unfold handle_factory_error. frame. Qed.

Lemma write_header_quiet h : always quiet (write_header h : M world _).
Proof. unfold write_header. frame. Qed.

Lemma serve_reflection_quiet name batch : always quiet (serve_reflection pf srv name batch).
Proof.
  assert (forall payload, always quiet (send_payload pf srv name batch payload)) as Hs.
  { intros [payload|e]; unfold send_payload, reflection_fail, log_framework_call; frame. }
  unfold serve_reflection, reflection_fail, log_framework_call. frame; auto.
Qed.

#[local] Hint Resolve write_each_quiet write_routed_quiet write_stream_error_quiet
  handle_factory_error_quiet write_header_quiet serve_reflection_quiet : frame.

(** *** Application code does not touch the connection *)

#[local] Hint Resolve quiet_shrinks | 3 : frame.

Lemma run_handler_shrinks {R} (h : Request -> CallContext Caller -> App -> list Message * outcome R * App)
    request ctx : always input_shrinks (run_handler h request ctx : M world R).
Proof. intros w. unfold run_handler. destruct (h request ctx (w_app w)) as [[logs r] app].
  by apply input_shrinks_same. Qed.

Lemma process_turn_shrinks st ctx ab out :
  always input_shrinks (process_turn array_length st ctx ab out : M world _).
Proof.
  intros w. unfold process_turn. destruct (run_turn _ _ _ _) as [[[[] out'] sink] app]; by apply input_shrinks_same.
Qed.

Lemma run_on_cancel_shrinks st ctx : always input_shrinks (run_on_cancel st ctx : M world _).
Proof. intros w. unfold run_on_cancel. destruct (on_cancel _ _ _) as [[logs r] app].
  by apply input_shrinks_same. Qed.

#[local] Hint Resolve run_handler_shrinks process_turn_shrinks run_on_cancel_shrinks : frame.

Lemma coerce_input_batch_quiet b target : always quiet (coerce_input_batch b target : M world _).
Proof. unfold coerce_input_batch. frame. Qed.

#[local] Hint Resolve coerce_input_batch_quiet : frame.

Lemma stream_turn_shrinks st ctx input_schema s b md :
  always input_shrinks (stream_turn array_length pf srv st ctx input_schema s b md : M world _).
Proof. unfold stream_turn. frame. Qed.

#[local] Hint Resolve stream_turn_shrinks : frame.

Lemma stream_loop_shrinks fuel st ctx input_schema s :
  always input_shrinks (stream_loop array_length pf srv fuel st ctx input_schema s : M world _).
Proof. induction fuel; cbn [stream_loop]; frame. Qed.

#[local] Hint Resolve stream_loop_shrinks : frame.

Lemma serve_turns_shrinks mi owner request ctx st input_schema s :
  always input_shrinks (serve_turns array_length pf srv mi owner request ctx st input_schema s).
Proof. unfold serve_turns, log_call. frame. Qed.

#[local] Hint Resolve serve_turns_shrinks : frame.

Lemma serve_stream_shrinks mi owner request kind caller :
  always input_shrinks (serve_stream array_length pf srv mi owner request kind caller).
Proof. unfold serve_stream. frame. Qed.

Lemma serve_unary_shrinks mi owner request kind caller :
  always input_shrinks (serve_unary pf srv mi owner request kind caller).
Proof. unfold serve_unary, serve_unary_impl, log_call. frame. Qed.

#[local] Hint Resolve serve_stream_shrinks serve_unary_shrinks : frame.

Lemma call_method_shrinks target mi batch md kind caller :
  always input_shrinks (call_method array_length pf srv target mi batch md kind caller).
Proof. unfold call_method, refuse. frame. Qed.

#[local] Hint Resolve call_method_shrinks : frame.

Lemma serve_request_shrinks batch md kind caller :
  always input_shrinks (serve_request array_length pf srv batch md kind caller).
Proof.
  unfold serve_request, serve_application, refuse. frame. intros w. apply identity_reads_nothing.
Qed.
(** ** Admission *)

(** What the message finds when it is there: the peer's writes are in the segment. *)
Definition met_by_request (w : world) : ConnectionState :=
  match w_peer w with
  | [] => w_conn w
  | step :: _ =>
      set_segment (w_conn w) (option_map (fun seg => with_base seg (step (base_ seg))) (shm (w_conn w)))
  end.

(** The segment a request's pointer is followed in: the one it names, attached
    anew unless it is the one the connection has, or the connection's. *)
Definition segment_of_request (c : ConnectionState) (md : metadata) : option ShmSegment :=
  let name := get_metadata_value md SHM_SEGMENT_NAME [] in
  if bool_decide (name = []) || bool_decide (name = shm_name c) then shm c
  else match stoull (get_metadata_value md SHM_SEGMENT_SIZE []) with
       | None => shm c
       | Some size => attach (pf_posix pf) name size
       end.

(** The batch of a request's parameters: the request's own, or, for a pointer
    request, the one whose bytes the pointer designates in the segment, if any. *)
Definition parameters_of (c : ConnectionState) (batch : RecordBatch) (md : metadata)
    : option RecordBatch :=
  if is_shm_pointer_batch (Some batch) md then
    seg ← segment_of_request c md;
    '(offset, _) ← stoll (get_metadata_value md SHM_OFFSET []);
    '(length, _) ← stoll (get_metadata_value md SHM_LENGTH []);
    match (stored ← read seg offset length; deserialize_from_shm stored (schema batch)) with
    | Ok b => Some b
    | Throw _ => None
    end
  else Some batch.

(** A request the gates let through to application code: it names a method and
    the supported request version, and either the identity protocol is
    addressed or the request addresses a binding whose version it satisfies,
    whose method it names and whose parameters its batch has, be it in the
    request or in the segment. *)
Definition admitted (c : ConnectionState) (batch : RecordBatch) (md : metadata) : Prop :=
  let name := get_metadata_value md METHOD [] in
  let protocol := get_metadata_value md PROTOCOL [] in
  name <> [] /\ get_metadata_value md REQUEST_VERSION [] = str "1" /\
  protocol <> kReflectionProtocolName /\
  (protocol = kIdentityProtocolName \/
   exists target mi params,
     addresses srv name md target /\
     (IsApplicationMethod name = true -> version_accepted target md) /\
     sp_methods target !! name = Some mi /\
     parameters_of c batch md = Some params /\
     meets_contract params (mi_params_schema mi)).

Lemma resolve_request_parameters c batch md (w : world) :
  shm (w_conn w) = segment_of_request c md ->
  exists r, resolve_request batch md w = (Done r, w) /\
    match r with
    | inl _ => parameters_of c batch md = None
    | inr (params, _, _) => parameters_of c batch md = Some params
    end.
Proof.
  unfold resolve_request, parameters_of. intros Hs.
  destruct (is_shm_pointer_batch (Some batch) md) eqn:Hp; [|by eexists].
  rewrite (bind_done _ _ w w w) by done. rewrite Hs.
  destruct (segment_of_request c md) as [seg|]; [|by eexists]. unfold resolve_shm_batch. rewrite Hp.
  destruct md as [kvs|]; [|done]. cbn [negb].
  destruct (stoll (get_metadata_value _ SHM_OFFSET [])) as [[offset ?]|]; [|by eexists].
  destruct (stoll (get_metadata_value _ SHM_LENGTH [])) as [[len ?]|]; [|by eexists].
  cbn [mbind option_bind]. destruct (read seg offset len) as [stored|e]; [|by eexists]. cbn.
  by destruct (deserialize_from_shm stored (schema batch)) as [b|e]; eexists.
Qed.

Lemma refresh_shm_segment md (w : world) :
  exists w', refresh_shm pf md w = (Done tt, w') /\ w_app w' = w_app w /\ w_wire w' = w_wire w /\
    shm (w_conn w') = segment_of_request (w_conn w) md.
Proof.
  eexists. split; [done|]. cbv zeta. unfold segment_of_request.
  destruct (get_metadata_value md SHM_SEGMENT_NAME []) as [|b name] eqn:En; [done|].
  cbn [length Nat.eqb orb]. rewrite (bool_decide_eq_false_2 (b :: name = [])) by done. cbn [orb].
  destruct (bool_decide (b :: name = _)); [done|]. by destruct (stoull _).
Qed.

Lemma call_method_admitted target mi batch md kind caller (w : world) :
  w_app (call_method array_length pf srv target mi batch md kind caller w).2 = w_app w \/
  exists params, parameters_of (w_conn w) batch md = Some params /\
    meets_contract params (mi_params_schema mi).
Proof.
  unfold call_method. destruct (refresh_shm_segment md w) as (w1 & E1 & Ha & _ & Hs).
  rewrite (bind_done _ _ _ _ _ E1). set (w2 := (set_call_shm (uses_shm md) w1).2).
  rewrite (bind_done _ _ w1 tt w2) by done. rewrite <- Ha. change (w_app w1) with (w_app w2).
  destruct (resolve_request_parameters (w_conn w) batch md w2 Hs) as (resolved & E3 & Hp).
  rewrite (bind_done _ _ _ _ _ E3).
  assert (forall text, w_app ((refuse pf srv (str "ProtocolError") text [];; mret true) w2).2 = w_app w2)
    as Hrefuse.
  { intros text. assert (always quiet (refuse pf srv (str "ProtocolError") text [];; mret true)) as Hr
      by (unfold refuse; frame). apply Hr. }
  destruct resolved as [text|[[params md'] off]]; [left; apply Hrefuse|]. cbv zeta.
  destruct (nonempty (parameter_contract_error params (mi_params_schema mi))) eqn:Ec;
    [left; apply Hrefuse|].
  right. exists params. split; [done|]. apply meets_contract_iff. by apply nonempty_false.
Qed.

Lemma serve_request_admitted batch md kind caller (w : world) :
  w_app (serve_request array_length pf srv batch md kind caller w).2 = w_app w \/ admitted (w_conn w) batch md.
Proof.
  unfold serve_request. cbv zeta.
  assert (forall (m : M world bool), always quiet m -> w_app (m w).2 = w_app w \/ admitted (w_conn w) batch md)
    as Hq by (intros m Hm; left; apply Hm).
  destruct (Nat.eqb_spec (length (get_metadata_value md METHOD [])) 0) as [|Hname];
    [apply Hq; unfold refuse; frame|].
  destruct (_ =? 0)%nat; [apply Hq; unfold refuse; frame|].
  destruct (bool_decide_reflect (get_metadata_value md REQUEST_VERSION [] = REQUEST_VERSION_VALUE))
    as [Hv|]; cbn [negb]; [|apply Hq; unfold refuse; frame].
  destruct (bool_decide_reflect (get_metadata_value md PROTOCOL [] = kReflectionProtocolName)) as [|Hr];
    [apply Hq; frame|].
  assert (get_metadata_value md METHOD [] <> []) as Hn by (intros E; by rewrite E in Hname).
  destruct (bool_decide_reflect (get_metadata_value md PROTOCOL [] = kIdentityProtocolName)) as [Hi|Hi];
    [right; split_and!; try done; by left|].
  unfold serve_application. destruct (route _ _ _) as [[[type message] error_kind]|target] eqn:Er;
    [apply Hq; unfold refuse; frame|].
  cbv zeta.
  match goal with |- context [set_where ?x] => set (w1 := (set_where x w).2 : world) end.
  rewrite (bind_done _ _ w tt w1) by done.
  assert (w_app w1 = w_app w) as <- by done.
  change (w_conn w) with (w_conn w1).
  assert (forall (m : M world bool), always quiet m -> w_app (m w1).2 = w_app w1 \/ admitted (w_conn w1) batch md)
    as Hq1 by (intros m Hm; left; apply Hm). clear Hq.
  destruct (nonempty (if IsApplicationMethod _ then _ else _)) eqn:Eg; [apply Hq1; frame|].
  destruct (find_method target _) as [[[type message] error_kind]|mi] eqn:Ef;
    [apply Hq1; unfold refuse; frame|].
  destruct (call_method_admitted target mi batch md kind caller w1) as [Hw|(params & Hp & Hc)];
    [by left|right].
  split_and!; try done. right. exists target, mi, params. split_and!; try done.
  - by apply route_addresses.
  - intros Ha. rewrite Ha in Eg. apply version_accepted_iff. by apply nonempty_false.
  - unfold find_method in Ef. destruct (sp_methods target !! _); [by injection Ef as <-|].
    by destruct (bool_decide _).
Qed.

(** A served request has taken a message. *)
Lemma serve_one_takes kind caller (w w' : world) :
  serve_one_with_state array_length pf srv kind caller w = (Done true, w') ->
  (length (input (w_wire w')) < length (input (w_wire w)))%nat.
Proof.
  unfold serve_one_with_state. intros E.
  apply bind_done_inv in E as ([] & w1 & E1 & E). unfold zoom in E1.
  destruct (notify_serve_start srv kind (w_bound w, w_app w)) as [r t]. injection E1 as -> <-.
  apply bind_done_inv in E as ([] & w2 & E2 & E). injection E2 as <-.
  apply bind_done_inv in E as (contents & w3 & E3 & E). unfold on_wire, zoom in E3.
  destruct (read_ipc_stream _) as [r' wire'] eqn:Er. injection E3 as -> <-.
  apply bind_done_inv in E as ([] & w4 & E4 & E).
  destruct contents as [c|]; [|done]. apply read_ipc_stream_takes in Er.
  match type of E4 with peer_acts ?x = _ => pose proof (peer_acts_quiet x) as [_ Hq] end.
  rewrite E4 in Hq.
  destruct c as [s [|first more]]; [done|].
  pose proof (serve_request_shrinks (ab_batch first) (custom_metadata first) kind caller w4) as Hs.
  rewrite E in Hs. unfold input_shrinks, shrinks in *. cbn in *. lia.
Qed.
End dispatch_frames.

#[export] Hint Resolve on_wire_quiet respond_error_quiet emit_record_quiet : frame.
#[export] Hint Resolve quiet_shrinks | 3 : frame.

(** ** Properties *)

(** C25: application code is run only for an admitted request.  Whatever the
    request carries, whether the pipe breaks, and whatever the shared memory
    holds: unless the request names a method and the supported version, routes
    to a hosted protocol, passes its version gate, names one of its methods and
    the parameters meet the contract of that method (or the identity protocol is
    addressed), the application's state after [serve_one] is what
    [on_serve_start] left.  The parameters are the request's batch, or, when it
    is a shared-memory pointer, the batch read where it points in the segment
    the request names (attached when it is not the connection's), as the peer
    has left it when the request arrives; a pointer that designates no batch
    admits nothing.  A call of the identity protocol has guards of its own. *)
Theorem application_runs_only_when_admitted
    {arrow : Arrow} {afields : ArrowFields} {types : ArrowTypes} {streams : ArrowStreams}
    {build_ : ArrowBuild} {kvm : KeyValueMetadata} {J : JsonText} {D : Digests} {Caller App : Type}
    {identity : IdentityService Caller App} {identity_dispatch : IdentityDispatch Caller App}
    array_length pf (srv : Server Caller App) kind caller (w : World Caller App) :
  let started := (notify_serve_start srv kind (w_bound w, w_app w)).2.2 in
  w_app (serve_one_with_state array_length pf srv kind caller w).2 = started \/
  exists s first more connection,
    read_ipc_stream (w_wire w) = (Done (Some (s, first :: more)), connection) /\
    admitted pf srv (met_by_request w) (ab_batch first) (custom_metadata first).
Proof.
  cbv zeta. unfold serve_one_with_state, zoom at 1, mbind at 1, M_bind at 1.
  destruct (notify_serve_start srv kind (w_bound w, w_app w)) as [[u|e] [bound app]]; [|by left].
  cbn [snd].
  assert (exists w2, set_where [] (set_bound w (bound, app)) = (Done tt, w2) /\
    w_wire w2 = w_wire w /\ w_conn w2 = w_conn w /\ w_peer w2 = w_peer w /\ w_app w2 = app)
    as (w2 & E2 & Hw2 & Hc2 & Hp2 & <-) by by eexists.
  rewrite (bind_done _ _ _ _ _ E2). clear E2.
  destruct (read_ipc_stream (w_wire w2)) as [[contents|e] wire'] eqn:E; cycle 1.
  { left. assert (on_wire read_ipc_stream w2 = (Raised e, set_wire w2 wire')) as E2
      by (unfold on_wire, zoom; by rewrite E).
    by rewrite (bind_raised _ _ _ _ _ E2). }
  assert (on_wire read_ipc_stream w2 = (Done contents, set_wire w2 wire')) as E2
    by (unfold on_wire, zoom; by rewrite E).
  rewrite (bind_done _ _ _ _ _ E2). cbv beta.
  assert (exists w3, peer_acts (set_wire w2 wire') = (Done tt, w3) /\ w_app w3 = w_app w2 /\
    w_conn w3 = met_by_request w) as (w3 & E3 & <- & Hc3).
  { unfold peer_acts, met_by_request. rewrite <- Hc2, <- Hp2. cbn [w_peer set_wire].
    destruct (w_peer w2); by eexists. }
  rewrite (bind_done _ _ _ _ _ E3).
  destruct contents as [[s [|first more]]|]; [by left| |by left].
  destruct (serve_request_admitted array_length pf srv (ab_batch first) (custom_metadata first) kind caller w3)
    as [H|H]; [by left|right]. rewrite Hw2 in E. rewrite Hc3 in H. by exists s, first, more, wire'.
Qed.

(** [Server::run] ends.  Every request that is served takes at least one
    message from the connection, whatever it carries and whatever the
    application and the peer do, so the loop leaves with the end of the input,
    with a fatal error, or with the exception of the start hook, before it has
    gone round more often than there are messages.  What the application does
    inside one request is a function here, so it returns. *)
Theorem run_terminates
    {arrow : Arrow} {afields : ArrowFields} {types : ArrowTypes} {streams : ArrowStreams}
    {build_ : ArrowBuild} {kvm : KeyValueMetadata} {J : JsonText} {D : Digests} {Caller App : Type}
    {identity : IdentityService Caller App} {identity_dispatch : IdentityDispatch Caller App}
    {identity_quiet : IdentityDispatchQuiet}
    array_length (srv : Server Caller App) platform caller fuel (w : World Caller App) :
  (length (input (w_wire w)) < fuel)%nat ->
  (run array_length srv platform caller fuel w).1 <> Unfinished.
Proof.
  unfold run, zoom. destruct (notify_serve_start _ _ _) as [[u|e] t]; [|done].
  set (w0 := set_bound w t). change (w_wire w) with (w_wire w0). clearbody w0. generalize 0%nat as n.
  revert w0. induction fuel as [|fuel IH]; intros w0 n Hf; [lia|]. cbn [run_loop].
  destruct (serve_one_with_state _ _ _ _ _ _) as [[[]|e] w'] eqn:E; [|done|done].
  apply IH. apply serve_one_takes in E. lia.
Qed.

(** ** Witnesses *)

Import ToyArrow ToyStreams ToyJson ToyTypes ToyBuild Toy ToyIdentity ToyDispatch.

#[export] Instance toy_quiet {App} : IdentityDispatchQuiet (Caller := unit) (App := App).
Proof.
  split. intros pf srv method batch caller w. unfold serve_identity. cbn [toy_dispatch].
  pose proof (respond_error_quiet pf srv (str "RuntimeError")
    (str "This server does not host protocol 'vgi_rpc.Identity.v2'.") [] no_extras w) as [_ H].
  unfold refuse, mbind, M_bind. by destruct (respond_error _ _ _ _ _ _ w) as [[[]|e] w'].
Qed.

Definition two_requests : list message :=
  stream_messages toy_schema [demo_request (str "echo") x07] ++
  stream_messages toy_schema [demo_request (str "fail") x08].

(** Two requests are served and the connection closes. *)
Lemma run_terminates_witness :
  (length (input (w_wire (demo_world two_requests))) < 7)%nat /\
  let r := run (fun _ => 0) demo_server (fun _ => demo_platform) tt 7 (demo_world two_requests) in
  r.1 <> Unfinished /\ r.1 = Closed /\ w_app r.2 = 2.
Proof.
  split; [cbn; lia|]. split; [|split; reflexivity].
  apply (run_terminates (fun _ => 0) demo_server (fun _ => demo_platform) tt 7 (demo_world two_requests)).
  cbn. lia.
Defined.
