(* ===== verification/Requests.v ===== *)
(** * How a request is answered

    The gates a request passes, in their order, as one function and as the
    conditions they stand for; what the client gets for a request that one of
    them refuses and for a unary call that all of them admit; and that every
    request is answered by complete streams. *)

From S2P Require Import Prelude Memory Arrow Json Crypto Grants Errors Shm ShmPointer.
From S2P Require Import Wire Calls ProtocolHash Reflection Server Dispatch Demo Serving Admission.

(** ** The gates *)

(** A refusal, with the place its traceback names. *)
Record refusal := {
  rf_type : bytes;
  rf_message : bytes;
  rf_kind : bytes;
  rf_extras : ErrorExtras;
  rf_where : bytes;
}.

Section gates.
Context {arrow : Arrow} {afields : ArrowFields} {kvm : KeyValueMetadata} {Caller App : Type}
  {identity : IdentityService Caller App} (srv : Server Caller App).

Definition refusal_of (where_ : bytes) (r : bytes * bytes * bytes) : refusal :=
  {| rf_type := r.1.1; rf_message := r.1.2; rf_kind := r.2; rf_extras := no_extras; rf_where := where_ |}.

(** The place a resolved request's errors name. *)
Definition method_where (target : ServedProtocol Caller App) (name : bytes) : bytes :=
  match sp_name target with [] => name | p => p ++ str "/" ++ name end.

(** [serve_one] on a request for an application protocol. *)
Definition gate (batch : RecordBatch) (md : metadata)
    : refusal + (ServedProtocol Caller App * @MethodInfo arrow Caller App) :=
  let name := get_metadata_value md METHOD [] in
  let version := get_metadata_value md REQUEST_VERSION [] in
  if bool_decide (name = []) then
    inl (refusal_of [] (str "ProtocolError",
      str "Missing 'vgi_rpc.method' in request batch custom_metadata.", []))
  else if bool_decide (version = []) then
    inl (refusal_of [] (str "VersionError", str "Missing 'vgi_rpc.request_version' in request batch custom_metadata. Set the 'vgi_rpc.request_version' custom_metadata value to '1'.", []))
  else if negb (bool_decide (version = REQUEST_VERSION_VALUE)) then
    inl (refusal_of [] (str "VersionError",
      str "Unsupported request version '" ++ version ++ str "', expected '1'.", []))
  else
    match route srv name md with
    | inl r => inl (refusal_of [] r)
    | inr target =>
        let where_ := method_where target name in
        let reason := if IsApplicationMethod name then protocol_version_error target md else [] in
        if negb (bool_decide (reason = [])) then
          inl {| rf_type := str "ProtocolVersionError"; rf_message := reason;
                 rf_kind := ERROR_KIND_PROTOCOL_VERSION_MISMATCH;
                 rf_extras := protocol_version_extras target md; rf_where := where_ |}
        else
          match find_method target name with
          | inl r => inl (refusal_of where_ r)
          | inr mi =>
              let error := parameter_contract_error batch (mi_params_schema mi) in
              if negb (bool_decide (error = [])) then
                inl (refusal_of where_ (str "ProtocolError", error, []))
              else inr (target, mi)
          end
    end.

(** The same refusals as conditions on the request, in the words of
    [Admission]: what is wrong with it, when what the gates before look at is
    right. *)
Definition versioned (md : metadata) : Prop :=
  get_metadata_value md METHOD [] <> [] /\ get_metadata_value md REQUEST_VERSION [] = str "1".

(** The request gets as far as the methods of [target]. *)
Definition reaches (md : metadata) (target : ServedProtocol Caller App) : Prop :=
  versioned md /\ addresses srv (get_metadata_value md METHOD []) md target /\
  (IsApplicationMethod (get_metadata_value md METHOD []) = true -> version_accepted target md).

Definition hosted_names : bytes :=
  concat (map (fun p => quoted (sp_name p) ++ str ", ") (protocols_ srv)) ++ str "'vgi_rpc.Reflection.v1'".

Inductive refused_for (batch : RecordBatch) (md : metadata) : refusal -> Prop :=
  | no_method :
      get_metadata_value md METHOD [] = [] ->
      refused_for batch md (refusal_of [] (str "ProtocolError",
        str "Missing 'vgi_rpc.method' in request batch custom_metadata.", []))
  | no_version :
      get_metadata_value md METHOD [] <> [] -> get_metadata_value md REQUEST_VERSION [] = [] ->
      refused_for batch md (refusal_of [] (str "VersionError", str "Missing 'vgi_rpc.request_version' in request batch custom_metadata. Set the 'vgi_rpc.request_version' custom_metadata value to '1'.", []))
  | other_version version :
      get_metadata_value md METHOD [] <> [] -> get_metadata_value md REQUEST_VERSION [] = version ->
      version <> [] -> version <> str "1" ->
      refused_for batch md (refusal_of [] (str "VersionError",
        str "Unsupported request version '" ++ version ++ str "', expected '1'.", []))
  | no_protocol_named :
      versioned md -> keyed srv (get_metadata_value md METHOD []) -> get_metadata_value md PROTOCOL [] = [] ->
      refused_for batch md (refusal_of [] (str "ProtocolNotSpecifiedError",
        str "Request carries no 'vgi_rpc.protocol' routing key. Every request must name the protocol it addresses. This server hosts: ["
          ++ hosted_names ++ str "]"
          ++ (match identity_ srv with Some _ => str " and 'vgi_rpc.Identity.v2'" | None => [] end) ++ str ".",
        str "protocol_not_specified"))
  | not_hosted :
      versioned md -> keyed srv (get_metadata_value md METHOD []) -> get_metadata_value md PROTOCOL [] <> [] ->
      Forall (fun p => sp_name p <> get_metadata_value md PROTOCOL []) (protocols_ srv) ->
      refused_for batch md (refusal_of [] (str "ProtocolNotSupportedError",
        str "This server does not host the named protocol. It hosts: "
          ++ comma_list (map (fun p => quoted (sp_name p)) (protocols_ srv)) ++ str ".",
        str "protocol_not_supported"))
  | other_protocol_version target :
      versioned md -> addresses srv (get_metadata_value md METHOD []) md target ->
      IsApplicationMethod (get_metadata_value md METHOD []) = true -> ~ version_accepted target md ->
      refused_for batch md
        {| rf_type := str "ProtocolVersionError"; rf_message := protocol_version_error target md;
           rf_kind := str "protocol_version_mismatch"; rf_extras := protocol_version_extras target md;
           rf_where := method_where target (get_metadata_value md METHOD []) |}
  | retired_method target :
      reaches md target -> get_metadata_value md METHOD [] = str "__describe__" ->
      sp_methods target !! str "__describe__" = None ->
      refused_for batch md (refusal_of (method_where target (str "__describe__"))
        (str "MethodNotImplementedError", RETIRED_DESCRIBE_MESSAGE, str "method_not_implemented"))
  | unknown_method target name :
      reaches md target -> get_metadata_value md METHOD [] = name -> name <> str "__describe__" ->
      sp_methods target !! name = None ->
      refused_for batch md (refusal_of (method_where target name)
        (str "MethodNotImplementedError",
         str "Unknown method: '" ++ name ++ str "'. Available methods: ["
           ++ comma_list (map quoted (foldr insert_name [] (map fst (map_to_list (sp_methods target))))) ++ str "]",
         str "method_not_implemented"))
  | other_parameters target mi :
      reaches md target -> sp_methods target !! get_metadata_value md METHOD [] = Some mi ->
      ~ meets_contract batch (mi_params_schema mi) ->
      refused_for batch md (refusal_of (method_where target (get_metadata_value md METHOD []))
        (str "ProtocolError", parameter_contract_error batch (mi_params_schema mi), [])).

Lemma gate_reaches batch md target :
  reaches md target ->
  gate batch md =
    match find_method target (get_metadata_value md METHOD []) with
    | inl r => inl (refusal_of (method_where target (get_metadata_value md METHOD [])) r)
    | inr mi =>
        if bool_decide (parameter_contract_error batch (mi_params_schema mi) = []) then inr (target, mi)
        else inl (refusal_of (method_where target (get_metadata_value md METHOD []))
               (str "ProtocolError", parameter_contract_error batch (mi_params_schema mi), []))
    end.
Proof.
  intros ((Hn & Hv) & Ha & Hg). unfold gate. cbv zeta. rewrite (bool_decide_eq_false_2 _ Hn), Hv.
  cbn [negb]. change (bool_decide (str "1" = [])) with false. cbv iota.
  change (bool_decide (str "1" = REQUEST_VERSION_VALUE)) with true. cbn [negb].
  apply route_addresses in Ha. rewrite Ha.
  assert ((if IsApplicationMethod (get_metadata_value md METHOD []) then protocol_version_error target md else [])
    = []) as ->.
  { destruct (IsApplicationMethod _); [|done]. apply version_accepted_iff. by apply Hg. }
  rewrite (bool_decide_eq_true_2 ([] = [])) by done. cbn [negb].
  destruct (find_method _ _) as [r|mi]; [done|]. by destruct (bool_decide _).
Qed.

(** The gates refuse exactly the requests that have one of these faults. *)
Lemma refused_for_gate batch md rf : refused_for batch md rf -> gate batch md = inl rf.
Proof.
  intros H. destruct H as [Hn|Hn Hv|v Hn Hv He H1|[Hn Hv] Hk Hp|[Hn Hv] Hk Hp Hf|target [Hn Hv] Ha Hi Hg
    |target Hr En Hm|target name Hr <- Hne Hm|target mi Hr Hm Hc].
  1-3: unfold gate; cbv zeta; rewrite ?Hn; try done; rewrite (bool_decide_eq_false_2 _ Hn), Hv; try done.
  - by rewrite (bool_decide_eq_false_2 _ He), (bool_decide_eq_false_2 (v = REQUEST_VERSION_VALUE)).
  - unfold gate. cbv zeta. rewrite (bool_decide_eq_false_2 _ Hn), Hv. cbn [negb].
    unfold route. destruct (keyed_reflect srv (get_metadata_value md METHOD [])) as [_|?]; [|done].
    by rewrite Hp.
  - unfold gate. cbv zeta. rewrite (bool_decide_eq_false_2 _ Hn), Hv. cbn [negb].
    unfold route. destruct (keyed_reflect srv (get_metadata_value md METHOD [])) as [_|?]; [|done].
    cbv zeta. apply (find_protocol_none srv _ Hp) in Hf. rewrite Hf.
    by destruct (get_metadata_value md PROTOCOL []).
  - unfold gate. cbv zeta. rewrite (bool_decide_eq_false_2 _ Hn), Hv. cbn [negb].
    apply route_addresses in Ha. rewrite Ha, Hi.
    destruct (bool_decide_reflect (protocol_version_error target md = [])) as [E|E]; [|done].
    by apply version_accepted_iff in E.
  - rewrite (gate_reaches _ _ _ Hr), En. unfold find_method. by rewrite Hm.
  - rewrite (gate_reaches _ _ _ Hr). unfold find_method. rewrite Hm.
    by rewrite (bool_decide_eq_false_2 (_ = RETIRED_DESCRIBE_METHOD)).
  - rewrite (gate_reaches _ _ _ Hr). unfold find_method. rewrite Hm.
    rewrite bool_decide_eq_false_2; [done|]. by rewrite meets_contract_iff.
Qed.

Lemma gate_refused_for batch md rf : gate batch md = inl rf -> refused_for batch md rf.
Proof.
  unfold gate. cbv zeta. destruct (bool_decide_reflect (get_metadata_value md METHOD [] = [])) as [Hn|Hn];
    [intros [= <-]; by apply no_method|].
  destruct (bool_decide_reflect (get_metadata_value md REQUEST_VERSION [] = [])) as [Hv|Hv];
    [intros [= <-]; by apply no_version|].
  destruct (bool_decide_reflect (get_metadata_value md REQUEST_VERSION [] = REQUEST_VERSION_VALUE)) as [H1|H1];
    cbn [negb]; [|intros [= <-]; by apply other_version].
  assert (versioned md) as Hver by done.
  destruct (route srv _ md) as [r|target] eqn:Er.
  { intros [= <-]. unfold route in Er.
    destruct (keyed_reflect srv (get_metadata_value md METHOD [])) as [Hk|]; [|done]. cbv zeta in Er.
    destruct (Nat.eqb_spec (length (get_metadata_value md PROTOCOL [])) 0) as [Hl|Hl].
    - injection Er as <-. apply nil_length_inv in Hl. by apply no_protocol_named.
    - assert (get_metadata_value md PROTOCOL [] <> []) as Hne by (intros E; by rewrite E in Hl).
      destruct (find_protocol srv _) eqn:Ef; [done|]. injection Er as <-.
      apply not_hosted; try done. by apply find_protocol_none. }
  apply route_addresses in Er.
  destruct (bool_decide_reflect ((if IsApplicationMethod (get_metadata_value md METHOD [])
    then protocol_version_error target md else []) = [])) as [Hg|Hg]; cbn [negb].
  2: { destruct (IsApplicationMethod _) eqn:Ei; [|done]. intros [= <-].
       apply other_protocol_version; try done. by rewrite <- version_accepted_iff. }
  assert (reaches md target) as Hr.
  { split; [done|]. split; [done|]. intros Hi. rewrite Hi in Hg. by apply version_accepted_iff. }
  unfold find_method. destruct (sp_methods target !! _) as [mi|] eqn:Em.
  - destruct (bool_decide_reflect (parameter_contract_error batch (mi_params_schema mi) = [])) as [|Hc];
      cbn [negb]; [done|]. intros [= <-]. apply other_parameters; try done. by rewrite <- meets_contract_iff.
  - destruct (bool_decide_reflect (get_metadata_value md METHOD [] = RETIRED_DESCRIBE_METHOD)) as [Hd|Hd];
      intros [= <-]; [rewrite Hd in *; by apply retired_method|by apply unknown_method].
Qed.

(** An application request that does not use shared memory. *)
Definition plain_request (md : metadata) : Prop :=
  uses_shm md = false /\
  get_metadata_value md PROTOCOL [] <> kReflectionProtocolName /\
  get_metadata_value md PROTOCOL [] <> kIdentityProtocolName.
End gates.

(** What a request needs of the identity protocol's server: on an unbroken pipe
    it answers with one stream, when the server was set up for it. *)
Class IdentityDispatchAnswers `{IdentityDispatch} `{!ArrowStreams} := {
  identity_ready : Server Caller App -> Prop;
  identity_answers pf srv method batch caller (w : World Caller App) :
    identity_ready srv -> room (w_wire w) = None ->
    exists r w' st, serve_identity pf srv method batch caller w = (Done r, w') /\ answered w w' [st];
}.

Section answers.
Context {arrow : Arrow} {afields : ArrowFields} {types : ArrowTypes} {streams : ArrowStreams}
  {build_ : ArrowBuild} {kvm : KeyValueMetadata} {J : JsonText} {D : Digests} {Caller App : Type}
  {identity : IdentityService Caller App} {identity_dispatch : IdentityDispatch Caller App}
  {alaws : ArrowLaws} {slaws : ArrowStreamsLaws} {total : ArrowTotal} {kvlaws : KeyValueMetadataLaws}
  {jtotal : JsonTextTotal}
  (array_length : Array -> Z) (pf : Platform) (srv : Server Caller App).

Abbreviation world := (World Caller App).

(** The world at the routing of a request: its messages are taken and nothing
    else has happened but the start hook. *)
Record at_request (w w0 : world) (bound : option TransportKind) (app : App) (next : list message)
    : Prop := {
  ar_bound : w_bound w0 = bound;
  ar_wire : w_wire w0 = with_input (w_wire w) next true;
  ar_app : w_app w0 = app;
  ar_where : w_where w0 = [];
  ar_access_ : w_access w0 = w_access w;
  ar_conn : w_conn w0 = met_by_request w;
}.

Lemma serve_one_reads kind caller (w : world) bound app s first more next :
  notify_serve_start srv kind (w_bound w, w_app w) = (Done tt, (bound, app)) ->
  input (w_wire w) = stream_messages s (first :: more) ++ next ->
  exists w0, serve_one_with_state array_length pf srv kind caller w =
      serve_request array_length pf srv (ab_batch first) (custom_metadata first) kind caller w0 /\
    at_request w w0 bound app next.
Proof.
  intros En Hi. unfold serve_one_with_state.
  set (w1 := set_bound w (bound, app)).
  rewrite (bind_done _ _ w tt w1) by (unfold zoom; by rewrite En).
  assert (exists w2, set_where [] w1 = (Done tt, w2) /\ w_wire w2 = w_wire w /\ w_app w2 = app /\
    w_where w2 = [] /\ w_access w2 = w_access w /\ w_bound w2 = bound /\ w_conn w2 = w_conn w /\
    w_peer w2 = w_peer w) as (w2 & E2 & Hw2 & Ha2 & Hp2 & Hx2 & Hb2 & Hc2 & Hq2) by by eexists.
  rewrite (bind_done _ _ _ _ _ E2).
  assert (on_wire read_ipc_stream w2 =
    (Done (Some (s, first :: more)), set_wire w2 (with_input (w_wire w2) next true))) as E3.
  { unfold on_wire, zoom. rewrite <- Hw2 in Hi. by rewrite (read_ipc_stream_spec s _ _ _ Hi). }
  rewrite (bind_done _ _ _ _ _ E3). cbv beta.
  set (w3 := set_wire w2 _).
  assert (exists w4, peer_acts w3 = (Done tt, w4) /\ w_wire w4 = w_wire w3 /\ w_app w4 = w_app w3 /\
    w_where w4 = w_where w3 /\ w_access w4 = w_access w3 /\ w_bound w4 = w_bound w3 /\
    w_conn w4 = met_by_request w) as (w4 & E4 & Hw4 & Ha4 & Hp4 & Hx4 & Hb4 & Hc4).
  { unfold peer_acts, met_by_request. rewrite <- Hc2, <- Hq2. subst w3. cbn [w_peer set_wire].
    destruct (w_peer w2); by eexists. }
  rewrite (bind_done _ _ _ _ _ E4). exists w4. split; [done|].
  subst w3. cbn [w_wire w_app w_where w_access w_bound set_wire] in *.
  split; [congruence|by rewrite Hw4, Hw2|congruence..|done].
Qed.

(** Without connection or segment keys the shared-memory steps do nothing. *)
Lemma no_shm md :
  uses_shm md = false ->
  (forall b, is_shm_pointer_batch (Some b) md = false) /\
  (forall w : world, refresh_shm pf md w = (Done tt, w)).
Proof.
  unfold uses_shm, is_shm_pointer_batch, refresh_shm, modify, get_metadata_value.
  destruct md as [md|]; [|done]. intros [Ho Hn]%orb_false_iff.
  split; intros x.
  - destruct (negb _); [done|]. destruct (Z.ltb_spec (FindKey md SHM_OFFSET) 0); [done|].
    apply Z.leb_gt in Ho. lia.
  - destruct (Z.ltb_spec (FindKey md SHM_SEGMENT_NAME) 0); [done|]. apply Z.leb_gt in Hn. lia.
Qed.

Lemma nonempty_decide (s : bytes) : nonempty s = negb (bool_decide (s = [])).
Proof. by destruct s. Qed.

Lemma length_decide (s : bytes) : (length s =? 0)%nat = bool_decide (s = []).
Proof. by destruct s. Qed.

Definition with_where (w : world) (x : bytes) : world := (set_where x w).2.

(** What an admitted request runs. *)
Definition run_method (target : ServedProtocol Caller App) (mi : @MethodInfo arrow Caller App)
    (batch : RecordBatch) (md : metadata) (kind : TransportKind) (caller : Caller) : M world bool :=
  let request := {| req_batch := batch; req_metadata := md |} in
  match mi_method_type mi with
  | UNARY => serve_unary pf srv mi (sp_binding target) request kind caller
  | STREAM => serve_stream array_length pf srv mi (sp_binding target) request kind caller
  end;;
  free_input (-1);;
  set_call_shm false;;
  mret true.

Lemma call_method_plain target mi batch md kind caller (w : world) :
  uses_shm md = false ->
  call_method array_length pf srv target mi batch md kind caller w =
    (if bool_decide (parameter_contract_error batch (mi_params_schema mi) = []) then
       run_method target mi batch md kind caller
     else refuse pf srv (str "ProtocolError") (parameter_contract_error batch (mi_params_schema mi)) [];;
          mret true) (set_call_shm false w).2.
Proof.
  intros Hs. destruct (no_shm md Hs) as [Hptr Href]. unfold call_method.
  rewrite (bind_done _ _ _ _ _ (Href w)), Hs.
  set (w1 := (set_call_shm false w).2). rewrite (bind_done _ _ w tt w1) by done.
  rewrite (bind_done _ _ w1 (inr (batch, md, -1)) w1) by (unfold resolve_request; by rewrite Hptr).
  cbv beta iota zeta. rewrite nonempty_decide. by destruct (bool_decide _).
Qed.

(** [serve_request] passes the gates in their order. *)
Lemma serve_request_gate batch md kind caller (w : world) :
  plain_request md -> w_where w = [] ->
  match gate srv batch md with
  | inl rf => exists w1,
      serve_request array_length pf srv batch md kind caller w =
        (respond_error pf srv (rf_type rf) (rf_message rf) (rf_kind rf) (rf_extras rf);; mret true) w1 /\
      w_wire w1 = w_wire w /\ w_app w1 = w_app w /\ w_where w1 = rf_where rf /\ w_access w1 = w_access w /\
      w_bound w1 = w_bound w
  | inr (target, mi) => exists w1,
      serve_request array_length pf srv batch md kind caller w =
        run_method target mi batch md kind caller w1 /\
      w_wire w1 = w_wire w /\ w_app w1 = w_app w /\ w_access w1 = w_access w /\
      call_shm (w_conn w1) = false /\
      w_where w1 = method_where target (get_metadata_value md METHOD [])
  end.
Proof.
  intros (Hs & Hr & Hi) Hw. unfold gate, serve_request, refuse. cbv zeta. rewrite !length_decide.
  set (name := get_metadata_value md METHOD []).
  destruct (bool_decide (name = [])); [by exists w|].
  destruct (bool_decide (get_metadata_value md REQUEST_VERSION [] = [])); [by exists w|].
  destruct (negb _); [by exists w|].
  rewrite (bool_decide_eq_false_2 _ Hr), (bool_decide_eq_false_2 _ Hi).
  unfold serve_application, refuse. destruct (route srv name md) as [[[type message] kind']|target]; [by exists w|].
  cbv zeta. fold (method_where target name). set (where_ := method_where target name).
  rewrite (bind_done _ _ w tt (with_where w where_)) by done. rewrite nonempty_decide.
  destruct (negb _); [by exists (with_where w where_)|].
  destruct (find_method target name) as [[[type message] kind']|mi]; [by exists (with_where w where_)|].
  rewrite call_method_plain by done. destruct (bool_decide _); cbn [negb]; eexists; split_and!; try done;
    reflexivity.
Qed.

(** The connection after a request has been answered by [ms], with [next] unread. *)
Definition wire_after (w : wire) (ms next : list message) : wire :=
  {| input := next; at_eos := true; output := output w ++ ms; writer := None; room := None |}.

(** A refused request gets one error stream and nothing else happens. *)
Lemma refused_answer kind caller (w : world) bound app s first more next rf :
  room (w_wire w) = None ->
  notify_serve_start srv kind (w_bound w, w_app w) = (Done tt, (bound, app)) ->
  input (w_wire w) = stream_messages s (first :: more) ++ next ->
  plain_request (custom_metadata first) ->
  gate srv (ab_batch first) (custom_metadata first) = inl rf ->
  exists w' b md,
    serve_one_with_state array_length pf srv kind caller w = (Done true, w') /\
    w_wire w' = wire_after (w_wire w) (stream_messages empty_schema [with_metadata b md]) next /\
    num_rows b = 0 /\
    make_error_metadata (Some {| ts_include := include_tracebacks_ srv; ts_where := rf_where rf |})
      (rf_type rf) (rf_message rf) (server_id_ srv) (pf_request_id pf) (rf_kind rf) (rf_extras rf) = Ok md /\
    w_app w' = app /\ w_access w' = w_access w /\ w_bound w' = bound.
Proof.
  intros Hr En Hi Hp Hg. destruct (serve_one_reads kind caller w bound app s first more next En Hi)
    as (w0 & -> & [Hb0 Hw0 Ha0 Hp0 Hx0 _]).
  pose proof (serve_request_gate (ab_batch first) (custom_metadata first) kind caller w0 Hp Hp0) as Hgate.
  rewrite Hg in Hgate. destruct Hgate as (w1 & -> & Hw1 & Ha1 & Hp1 & Hx1 & Hb1).
  destruct (respond_error_spec pf srv (rf_type rf) (rf_message rf) (rf_kind rf) (rf_extras rf) w1)
    as (b & md & E & Em & Hb); [by rewrite Hw1, Hw0|].
  rewrite (bind_done _ _ _ _ _ E). do 3 eexists. split; [reflexivity|].
  cbn [w_wire w_app w_access w_bound set_wire]. split.
  - rewrite Hw1, Hw0. unfold sent, wire_after. cbn. by rewrite Hr.
  - split; [done|]. split; [|split_and!; congruence]. unfold current_scope in Em. by rewrite Hp1 in Em.
Qed.

(** A stream without batches ends the connection. *)
Lemma empty_stream_closes kind caller (w : world) bound app s rest :
  notify_serve_start srv kind (w_bound w, w_app w) = (Done tt, (bound, app)) ->
  input (w_wire w) = stream_messages s [] ++ rest ->
  exists w', serve_one_with_state array_length pf srv kind caller w = (Done false, w') /\
    w_wire w' = with_input (w_wire w) rest true /\ w_app w' = app.
Proof.
  intros En Hi. unfold serve_one_with_state. set (w1 := set_bound w (bound, app)).
  rewrite (bind_done _ _ w tt w1) by (unfold zoom; by rewrite En).
  assert (exists w2, set_where [] w1 = (Done tt, w2) /\ w_wire w2 = w_wire w /\ w_app w2 = app)
    as (w2 & E2 & Hw2 & Ha2) by by eexists.
  rewrite (bind_done _ _ _ _ _ E2). rewrite <- Hw2 in Hi.
  assert (on_wire read_ipc_stream w2 = (Done (Some (s, [])), set_wire w2 (with_input (w_wire w2) rest true)))
    as E3 by (unfold on_wire, zoom; by rewrite (read_ipc_stream_spec s [] rest _ Hi)).
  rewrite (bind_done _ _ _ _ _ E3). set (w3 := set_wire w2 _).
  assert (exists w4, peer_acts w3 = (Done tt, w4) /\ w_wire w4 = w_wire w3 /\ w_app w4 = w_app w3)
    as (w4 & E4 & Hw4 & Ha4) by (unfold peer_acts; destruct (w_peer w3); by eexists).
  rewrite (bind_done _ _ _ _ _ E4). exists w4. split; [done|]. rewrite Hw4, Ha4. subst w3.
  cbn [w_wire w_app set_wire]. by rewrite Hw2.
Qed.

Lemma reset_sink_done (w : world) :
  reset_sink pf srv w = (Done tt, set_sink w (new_LogSink (server_id_ srv) (pf_request_id pf))).
Proof. done. Qed.

Lemma run_unary target mi batch md kind caller empty (w : world) logs r app :
  mi_method_type mi = UNARY -> room (w_wire w) = None -> result_typed mi r ->
  call_shm (w_conn w) = false -> make_empty_batch (mi_result_schema mi) = Ok empty ->
  mi_handler mi {| req_batch := batch; req_metadata := md |} (new_context pf srv kind caller) (w_app w) =
    (logs, r, app) ->
  exists w' last,
    run_method target mi batch md kind caller w = (Done true, w') /\
    answered w w' [(mi_result_schema mi,
      map (with_metadata empty)
        (buffered_ (emit_all (new_LogSink (server_id_ srv) (pf_request_id pf)) logs)) ++ [last])] /\
    unary_answer pf srv mi (sp_binding target) w r last /\ w_app w' = app /\
    w_access w' = w_access (log_call pf srv (sp_binding target) (mi_name mi) false caller (raised r) false
                              {| req_batch := batch; req_metadata := md |} w).2 /\
    writer (w_wire w') = None.
Proof.
  intros Hu Hr Ht Hc Ee Eh. unfold run_method, serve_unary. rewrite Hu.
  set (w1 := set_sink w (new_LogSink (server_id_ srv) (pf_request_id pf))).
  destruct (serve_unary_impl_spec pf srv mi (sp_binding target) {| req_batch := batch; req_metadata := md |}
    (new_context pf srv kind caller) empty w1 logs r app)
    as (w2 & last & E & Hans & Hlast & Ha & Hx & Hwr & _); [done|apply new_sink_wf|done|done|done|].
  rewrite (bind_done _ _ w tt w2); cycle 1.
  { rewrite (bind_done _ _ _ _ _ (reset_sink_done w)). by rewrite (bind_done _ _ _ _ _ E). }
  rewrite (bind_done _ _ w2 tt w2) by done.
  rewrite (bind_done _ _ w2 tt (set_call_shm false w2).2) by done.
  exists (set_call_shm false w2).2, last. split; [done|]. split; [done|]. split; [done|]. split; [done|].
  split; [|done]. cbn [set_call_shm modify snd w_access set_conn]. rewrite Hx. by apply log_call_access.
Qed.
Lemma unary_answered kind caller (w : world) bound app0 s first more next target mi empty logs r app :
  room (w_wire w) = None ->
  notify_serve_start srv kind (w_bound w, w_app w) = (Done tt, (bound, app0)) ->
  input (w_wire w) = stream_messages s (first :: more) ++ next ->
  plain_request (custom_metadata first) ->
  gate srv (ab_batch first) (custom_metadata first) = inr (target, mi) ->
  mi_method_type mi = UNARY -> result_typed mi r -> make_empty_batch (mi_result_schema mi) = Ok empty ->
  mi_handler mi {| req_batch := ab_batch first; req_metadata := custom_metadata first |}
    (new_context pf srv kind caller) app0 = (logs, r, app) ->
  exists w' last,
    serve_one_with_state array_length pf srv kind caller w = (Done true, w') /\
    w_wire w' = wire_after (w_wire w)
      (stream_messages (mi_result_schema mi)
        (map (with_metadata empty)
           (buffered_ (emit_all (new_LogSink (server_id_ srv) (pf_request_id pf)) logs)) ++ [last])) next /\
    match r with
    | Done res =>
        match external_ref_ res with
        | Some x => pointer_batch x (mi_result_schema mi) = Ok last
        | None => last = batch_ res
        end
    | Raised e => exists b md,
        last = with_metadata b md /\ num_rows b = 0 /\
        make_exception_metadata (Some {| ts_include := include_tracebacks_ srv;
            ts_where := method_where target (get_metadata_value (custom_metadata first) METHOD []) |})
          e (server_id_ srv) (pf_request_id pf)
          (traceback_for srv (sp_binding target) (mi_name mi) (exception_type_of e) (ex_what e)) = Ok md
    end /\
    w_app w' = app /\
    w_access w' = w_access (log_call pf srv (sp_binding target) (mi_name mi) false caller (raised r) false
      {| req_batch := ab_batch first; req_metadata := custom_metadata first |} w).2.
Proof.
  intros Hr En Hi Hp Hg Hu Ht Ee Eh.
  destruct (serve_one_reads kind caller w bound app0 s first more next En Hi)
    as (w0 & -> & [Hb0 Hw0 Ha0 Hp0 Hx0 _]).
  pose proof (serve_request_gate (ab_batch first) (custom_metadata first) kind caller w0 Hp Hp0) as Hgate.
  rewrite Hg in Hgate. destruct Hgate as (w1 & -> & Hw1 & Ha1 & Hx1 & Hc1 & Hp1).
  rewrite <- Ha0, <- Ha1 in Eh.
  destruct (run_unary target mi (ab_batch first) (custom_metadata first) kind caller
    empty w1 logs r app) as (w' & last & E & [wr Hans] & Hlast & Ha & Hx & Hwr); try done;
    [by rewrite Hw1, Hw0|].
  exists w', last. split; [done|]. split; [|split; [|split; [done|]]].
  - rewrite Hans in Hwr |- *. cbn in Hwr. subst wr. rewrite Hw1, Hw0, stream_list_one.
    unfold sent, wire_after. cbn. by rewrite Hr.
  - destruct r as [res|e]; cbn [unary_answer] in Hlast; [|unfold current_scope in Hlast; by rewrite Hp1 in Hlast]. destruct (external_ref_ res); [done|].
    apply Hlast. by right.
  - rewrite Hx. apply log_call_access. congruence.
Qed.

(** *** Every request *)

Definition is_stream (mi : @MethodInfo arrow Caller App) : bool :=
  match mi_method_type mi with STREAM => true | UNARY => false end.

(** Whether the request is for a stream that is opened: it passes the gates of
    an application protocol, and its method is a stream. *)
Definition takes_input (c : ConnectionState) (batch : RecordBatch) (md : metadata) : bool :=
  let name := get_metadata_value md METHOD [] in
  let protocol := get_metadata_value md PROTOCOL [] in
  negb (bool_decide (name = [])) && bool_decide (get_metadata_value md REQUEST_VERSION [] = REQUEST_VERSION_VALUE)
  && negb (bool_decide (protocol = kReflectionProtocolName))
  && negb (bool_decide (protocol = kIdentityProtocolName))
  && match route srv name md with
     | inl _ => false
     | inr target =>
         (negb (IsApplicationMethod name) || bool_decide (protocol_version_error target md = []))
         && match find_method target name, parameters_of pf c batch md with
            | inr mi, Some params =>
                is_stream mi
                && bool_decide (parameter_contract_error params (mi_params_schema mi) = [])
            | _, _ => false
            end
     end.

(** One complete stream has gone out, or, for a stream that is opened, one or
    two (its header first); the input is at [left]. *)
Definition answers (stream : bool) (left : list message) (w w' : world) : Prop := exists l,
  output (w_wire w') = output (w_wire w) ++ stream_list l /\
  (if stream : bool then 1 <= length l <= 2 else length l = 1)%nat /\
  room (w_wire w') = None /\ input (w_wire w') = left.

Lemma answered_answers left (w w' : world) st :
  answered w w' [st] -> room (w_wire w) = None -> input (w_wire w) = left -> answers false left w w'.
Proof. intros [wr E] Hr Hi. exists [st]. rewrite E. cbn. by split_and!. Qed.

Lemma served_answers rest (w w' : world) l :
  served w w' l rest -> (1 <= length l <= 2)%nat -> answers true rest w w'.
Proof. intros E Hl. exists l. rewrite E. cbn. split_and!; done || lia. Qed.

Lemma answers_wire stream left (w w1 w2 w' : world) :
  w_wire w1 = w_wire w -> w_wire w' = w_wire w2 -> answers stream left w1 w2 -> answers stream left w w'.
Proof. intros E1 E2 (l & H). exists l. by rewrite E2, <- E1. Qed.

Lemma respond_error_answers type message kind extras next (w : world) :
  room (w_wire w) = None -> input (w_wire w) = next ->
  exists w', respond_error pf srv type message kind extras w = (Done tt, w') /\ answers false next w w'.
Proof.
  intros Hr Hi. destruct (respond_error_spec pf srv type message kind extras w Hr) as (b & md & E & _).
  eexists. split; [exact E|]. eapply answered_answers; [apply set_wire_answered|done|done].
Qed.

(** *** Reflection *)

Hypothesis BinaryArray_total : forall values, exists a, BinaryArray values = Ok a.

Lemma serve_reflection_answers name batch next (w : world) :
  room (w_wire w) = None -> input (w_wire w) = next ->
  exists r w', serve_reflection pf srv name batch w = (Done r, w') /\ answers false next w w'.
Proof.
  intros Hr Hi.
  assert (forall type message kind, exists r w', reflection_fail pf srv name batch type message kind w = (Done r, w') /\
    answers false next w w') as Hfail.
  { intros type message kind. unfold reflection_fail, log_framework_call.
    destruct (respond_error_answers type message kind no_extras next w Hr Hi) as (w1 & E1 & H1).
    rewrite (bind_done _ _ _ _ _ E1).
    match goal with |- context [emit_record srv ?r] =>
      destruct (emit_record_spec srv r w1) as (w2 & E2 & Hw2 & _) end.
    rewrite (bind_done _ _ _ _ _ E2). do 2 eexists. split; [reflexivity|]. by eapply answers_wire. }
  assert (forall payload, exists r w', send_payload pf srv name batch payload w = (Done r, w') /\
    answers false next w w') as Hsend.
  { intros [payload|e]; cbn [send_payload]; [|apply Hfail]. cbv zeta.
    destruct (BinaryArray_total [payload]) as [arr ->]. cbn [lift].
    rewrite (bind_done _ _ w arr w) by done. cbv beta. set (s := make_schema _).
    set (b := RecordBatch_Make s 1 [arr]).
    rewrite (bind_done _ _ _ _ _ (on_wire_write s [data b] w Hr ltac:(repeat constructor; unfold fits; cbn;
      subst b; rewrite Make_schema; apply schema_equal_refl))).
    unfold log_framework_call. set (w1 := set_wire w _).
    match goal with |- context [emit_record srv ?r] =>
      destruct (emit_record_spec srv r w1) as (w2 & E2 & Hw2 & _) end.
    rewrite (bind_done _ _ _ _ _ E2). do 2 eexists. split; [reflexivity|].
    eapply (answers_wire false next w w w1); [done|done|].
    eapply answered_answers; [apply set_wire_answered|done|done]. }
  unfold serve_reflection. destruct (bool_decide _); [apply Hsend|]. destruct (bool_decide _); [|apply Hfail].
  cbv zeta. destruct (describe_payload _ _); [apply Hsend|apply Hfail].
Qed.

(** *** Calls *)

Lemma serve_unary_answers mi owner request kind caller next (w : world) :
  (forall r ctx app, result_typed mi (mi_handler mi r ctx app).1.2) ->
  room (w_wire w) = None -> input (w_wire w) = next ->
  exists w', serve_unary pf srv mi owner request kind caller w = (Done tt, w') /\ answers false next w w'.
Proof.
  intros Ht Hr Hi. unfold serve_unary. rewrite (bind_done _ _ _ _ _ (reset_sink_done w)).
  set (w1 := set_sink w _). destruct (make_empty_batch_total (mi_result_schema mi)) as [empty Ee].
  specialize (Ht request (new_context pf srv kind caller) (w_app w)).
  destruct (mi_handler mi request (new_context pf srv kind caller) (w_app w)) as [[logs r] app] eqn:Eh.
  destruct (serve_unary_impl_spec pf srv mi owner request (new_context pf srv kind caller) empty w1 logs r app)
    as (w2 & last & E & Hans & _); [done|apply new_sink_wf|done|done|done|].
  rewrite (bind_done _ _ _ _ _ E). exists w2. split; [done|].
  eapply (answers_wire false next w w1 w2); [done|done|]. by eapply answered_answers.
Qed.

(** The call takes its input when it is for a stream and its parameters are right. *)
Definition opens (c : ConnectionState) (mi : @MethodInfo arrow Caller App) (batch : RecordBatch)
    (md : metadata) : bool :=
  match parameters_of pf c batch md with
  | Some params =>
      is_stream mi
      && bool_decide (parameter_contract_error params (mi_params_schema mi) = [])
  | None => false
  end.

Lemma call_method_answers target mi batch md kind caller s_in tks rest next (w : world) :
  (forall r ctx app, result_typed mi (mi_handler mi r ctx app).1.2) ->
  room (w_wire w) = None -> input (w_wire w) = next ->
  let stream := opens (w_conn w) mi batch md in
  (stream = true -> next = stream_messages s_in tks ++ rest) ->
  exists w', call_method array_length pf srv target mi batch md kind caller w = (Done true, w') /\
    answers stream (if stream : bool then rest else next) w w'.
Proof.
  intros Ht Hr Hi stream Hs. unfold call_method.
  destruct (refresh_shm_segment pf md w) as (w1 & E1 & _ & Hw1 & Hseg).
  rewrite (bind_done _ _ _ _ _ E1). set (w2 := (set_call_shm (uses_shm md) w1).2).
  rewrite (bind_done _ _ w1 tt w2) by done. assert (w_wire w2 = w_wire w) as Hw2 by exact Hw1.
  destruct (resolve_request_parameters pf (w_conn w) batch md w2 Hseg) as (r & E2 & Hp).
  clearbody w2. rewrite <- Hw2 in Hr, Hi. rewrite (bind_done _ _ _ _ _ E2). cbv beta.
  assert (forall message, exists w', (refuse pf srv (str "ProtocolError") message [];; mret true) w2 = (Done true, w') /\
    answers false next w w') as Href.
  { intros message. destruct (respond_error_answers (str "ProtocolError") message [] no_extras _ w2 Hr Hi)
      as (w3 & E3 & H3). unfold refuse. rewrite (bind_done _ _ _ _ _ E3). exists w3. split; [done|].
    by eapply answers_wire. }
  subst stream. unfold opens in Hs |- *.
  destruct r as [message|[[b md'] off]]; rewrite Hp in Hs |- *; [apply Href|]. cbv zeta.
  rewrite nonempty_decide. destruct (bool_decide (parameter_contract_error b _ = [])); cbn [negb] in *;
    [|rewrite andb_false_r; apply Href]. rewrite andb_true_r in Hs |- *.
  unfold is_stream in Hs |- *.
  assert (exists w3, match mi_method_type mi with
    | UNARY => serve_unary pf srv mi (sp_binding target) {| req_batch := b; req_metadata := md' |} kind caller
    | STREAM => serve_stream array_length pf srv mi (sp_binding target)
                  {| req_batch := b; req_metadata := md' |} kind caller
    end w2 = (Done tt, w3) /\ (let stream := match mi_method_type mi with STREAM => true | UNARY => false end in
       answers stream (if stream : bool then rest else next) w2 w3)) as (w3 & E3 & H3).
  { destruct (mi_method_type mi); cbn in Hs |- *; [by apply serve_unary_answers|].
    destruct (serve_stream_spec array_length pf srv mi (sp_binding target)
      {| req_batch := b; req_metadata := md' |} kind caller s_in tks rest w2 Hr ltac:(by rewrite Hi, Hs))
      as (w3 & l & E & Hsv & Hl).
    exists w3. split; [done|]. by eapply served_answers. }
  rewrite (bind_done _ _ _ _ _ E3). destruct (free_input_spec off w3) as (w4 & E4 & Hw4 & _).
  rewrite (bind_done _ _ _ _ _ E4). rewrite (bind_done _ _ w4 tt (set_call_shm false w4).2) by done.
  eexists. split; [reflexivity|]. eapply (answers_wire _ _ w w2 w3); [done|exact Hw4|done].
Qed.

Lemma serve_request_answers {identity_answered : IdentityDispatchAnswers} batch md kind caller s_in tks rest
    next (w : world) :
  identity_ready srv ->
  (forall target mi, route srv (get_metadata_value md METHOD []) md = inr target ->
     find_method target (get_metadata_value md METHOD []) = inr mi ->
     forall r ctx app, result_typed mi (mi_handler mi r ctx app).1.2) ->
  room (w_wire w) = None -> input (w_wire w) = next ->
  let stream := takes_input (w_conn w) batch md in
  (stream = true -> next = stream_messages s_in tks ++ rest) ->
  exists w', serve_request array_length pf srv batch md kind caller w = (Done true, w') /\
    answers stream (if stream : bool then rest else next) w w'.
Proof.
  intros Hid Ht Hr Hi stream. subst stream. unfold serve_request, takes_input. cbv zeta. rewrite !length_decide.
  assert (forall (w1 : world) type message kind extras, w_wire w1 = w_wire w -> exists w',
    (respond_error pf srv type message kind extras;; mret true) w1 = (Done true, w') /\
    answers false next w w') as Href.
  { intros w1 type message kind' extras Hw1. rewrite <- Hw1 in Hr, Hi.
    destruct (respond_error_answers type message kind' extras _ w1 Hr Hi) as (w2 & E & H).
    rewrite (bind_done _ _ _ _ _ E). exists w2. split; [done|]. by eapply answers_wire. }
  unfold refuse. destruct (bool_decide (get_metadata_value md METHOD [] = [])); [intros _; by apply Href|].
  destruct (bool_decide_reflect (get_metadata_value md REQUEST_VERSION [] = [])) as [Hv|Hv].
  { rewrite Hv. intros _. by apply Href. }
  destruct (bool_decide (_ = REQUEST_VERSION_VALUE)); cbn [negb andb]; [|intros _; by apply Href].
  destruct (bool_decide (_ = kReflectionProtocolName)); cbn [negb andb].
  { intros _. match goal with |- context [set_where ?x] => set (w1 := (set_where x w).2 : world);
      rewrite (bind_done (set_where x) _ w tt w1) by done end.
    destruct (serve_reflection_answers (get_metadata_value md METHOD []) batch _ w1 Hr Hi)
      as (r & w2 & E & H). rewrite (bind_done _ _ _ _ _ E). exists w2. split; [done|].
    by eapply (answers_wire _ _ w w1 w2). }
  destruct (bool_decide (_ = kIdentityProtocolName)); cbn [negb andb].
  { intros _. match goal with |- context [set_where ?x] => set (w1 := (set_where x w).2 : world);
      rewrite (bind_done (set_where x) _ w tt w1) by done end.
    destruct (identity_answers pf srv (get_metadata_value md METHOD []) batch caller w1 Hid Hr)
      as (r & w2 & st & E & H). rewrite (bind_done _ _ _ _ _ E). exists w2. split; [done|].
    eapply (answers_wire _ _ w w1 w2); [done|done|]. by eapply answered_answers. }
  unfold serve_application.
  destruct (route _ _ _) as [[[type message] kind']|target] eqn:Er; [intros _; by apply Href|]. cbv zeta.
  match goal with |- context [set_where ?x] => set (w1 := (set_where x w).2 : world);
    rewrite (bind_done (set_where x) _ w tt w1) by done end.
  rewrite nonempty_decide.
  replace (bool_decide ((if IsApplicationMethod _ then _ else _) = [])) with
    (negb (IsApplicationMethod (get_metadata_value md METHOD [])) || bool_decide (protocol_version_error target md = []))
    by (by destruct (IsApplicationMethod _)).
  destruct (_ || _); cbn [negb andb]; [|intros _; by apply Href].
  destruct (find_method _ _) as [[[type message] kind']|mi] eqn:Ef; [intros _; by apply Href|].
  intros Hs. change (w_conn w) with (w_conn w1) in Hs |- *.
  destruct (call_method_answers target mi batch md kind caller s_in tks rest next w1 (Ht target mi eq_refl Ef) Hr Hi Hs)
    as (w2 & E & H). exists w2. split; [done|]. by eapply (answers_wire _ _ w w1 w2).
Qed.
End answers.

(** ** Properties *)

(** C23: every request is answered.  On a pipe that does not break, whatever
    the request (malformed, refused, unary, streaming, reflection, identity,
    with its batch or its answer in shared memory or not) and whatever the
    application throws, the answer is complete streams and the pipe stays
    usable.  A request that opens a stream, that is one that passes the gates
    and names a stream method, is answered by one or two streams, its header
    first, and the input stream that follows it is taken, whether the factory
    succeeds or not; any other request is answered by exactly one stream, and
    nothing of what follows it is read.  The request is a complete stream with a
    batch, the start hook accepts the transport, the results of the unary method
    it names have the schema the method declares, and a request that opens a
    stream is followed by a complete stream. *)
Theorem request_answered
    {arrow : Arrow} {afields : ArrowFields} {types : ArrowTypes} {streams : ArrowStreams}
    {build_ : ArrowBuild} {kvm : KeyValueMetadata} {J : JsonText} {D : Digests} {Caller App : Type}
    {identity : IdentityService Caller App} {identity_dispatch : IdentityDispatch Caller App}
    {identity_answered : IdentityDispatchAnswers}
    {alaws : ArrowLaws} {slaws : ArrowStreamsLaws} {total : ArrowTotal} {kvlaws : KeyValueMetadataLaws}
    {jtotal : JsonTextTotal}
    array_length pf (srv : Server Caller App) kind caller (w : World Caller App) bound app s first more
    s_in tks rest next :
  (forall values, exists a, BinaryArray values = Ok a) -> identity_ready srv ->
  (forall target mi,
     let name := get_metadata_value (custom_metadata first) METHOD [] in
     route srv name (custom_metadata first) = inr target -> find_method target name = inr mi ->
     forall r ctx a, result_typed mi (mi_handler mi r ctx a).1.2) ->
  room (w_wire w) = None ->
  notify_serve_start srv kind (w_bound w, w_app w) = (Done tt, (bound, app)) ->
  input (w_wire w) = stream_messages s (first :: more) ++ next ->
  let stream := takes_input pf srv (met_by_request w) (ab_batch first) (custom_metadata first) in
  (stream = true -> next = stream_messages s_in tks ++ rest) ->
  exists w' answer,
    serve_one_with_state array_length pf srv kind caller w = (Done true, w') /\
    output (w_wire w') = output (w_wire w) ++ stream_list answer /\
    (if stream : bool then 1 <= length answer <= 2 else length answer = 1)%nat /\
    room (w_wire w') = None /\ input (w_wire w') = (if stream : bool then rest else next).
Proof.
  intros Hb Hid Ht Hr En Hi stream Hs.
  destruct (serve_one_reads array_length pf srv kind caller w bound app s first more _ En Hi)
    as (w0 & -> & [_ Hw0 _ _ _ Hc0]). subst stream. rewrite <- Hc0 in Hs |- *.
  destruct (serve_request_answers array_length pf srv Hb (ab_batch first) (custom_metadata first) kind caller
    s_in tks rest next w0 Hid Ht) as (w' & E & l & Ho & H); [by rewrite Hw0|by rewrite Hw0|done|].
  exists w', l. rewrite Hw0 in Ho. done.
Qed.


(** C26: the answer to a refused request.  A request has a fault when it names no
    method; else no version; else another version; else no protocol or one that
    is not hosted, on a server that routes by name; else another version of the
    protocol; else the retired or an unknown method; else when its batch is not
    one row of the parameters the method declares ([refused_for] states each
    fault and its refusal).  On a pipe that does not break, a request for an
    application protocol that carries no shared-memory keys and has a fault
    gets exactly one error stream, with the type, message, kind and code of that
    fault, the application is not called, nothing of what follows the request is
    read, and no access record is written.  The request is a complete stream
    with a batch, and the start hook accepts the transport. *)
Theorem refused_request_answered
    {arrow : Arrow} {afields : ArrowFields} {types : ArrowTypes} {streams : ArrowStreams}
    {build_ : ArrowBuild} {kvm : KeyValueMetadata} {J : JsonText} {D : Digests} {Caller App : Type}
    {identity : IdentityService Caller App} {identity_dispatch : IdentityDispatch Caller App}
    {alaws : ArrowLaws} {slaws : ArrowStreamsLaws} {total : ArrowTotal} {kvlaws : KeyValueMetadataLaws}
    {jtotal : JsonTextTotal}
    array_length pf (srv : Server Caller App) kind caller (w : World Caller App) bound app s first more
    next rf :
  room (w_wire w) = None ->
  notify_serve_start srv kind (w_bound w, w_app w) = (Done tt, (bound, app)) ->
  input (w_wire w) = stream_messages s (first :: more) ++ next ->
  plain_request (custom_metadata first) ->
  refused_for srv (ab_batch first) (custom_metadata first) rf ->
  exists w' b md,
    serve_one_with_state array_length pf srv kind caller w = (Done true, w') /\
    w_wire w' = wire_after (w_wire w) (stream_messages empty_schema [with_metadata b md]) next /\
    num_rows b = 0 /\
    make_error_metadata (Some {| ts_include := include_tracebacks_ srv; ts_where := rf_where rf |})
      (rf_type rf) (rf_message rf) (server_id_ srv) (pf_request_id pf) (rf_kind rf) (rf_extras rf) = Ok md /\
    w_app w' = app /\ w_access w' = w_access w /\ w_bound w' = bound.
Proof.
  intros Hr En Hi Hp Hf. apply refused_for_gate in Hf. by eapply refused_answer.
Qed.

(** C28: after a refusal the client's input stream is read as a request.  A client
    of a stream method sends the stream's input whether or not its request was
    refused; a failing factory drains it, the gates do not.  On a connection that
    serves already: a refused request followed by an input stream without
    batches makes the server close the connection with the rest unread, and one
    followed by batches gets a second error stream, for a request the client
    did not make. *)
Theorem refused_stream_desynchronises
    {arrow : Arrow} {afields : ArrowFields} {types : ArrowTypes} {streams : ArrowStreams}
    {build_ : ArrowBuild} {kvm : KeyValueMetadata} {J : JsonText} {D : Digests} {Caller App : Type}
    {identity : IdentityService Caller App} {identity_dispatch : IdentityDispatch Caller App}
    {alaws : ArrowLaws} {slaws : ArrowStreamsLaws} {total : ArrowTotal} {kvlaws : KeyValueMetadataLaws}
    {jtotal : JsonTextTotal}
    array_length pf (srv : Server Caller App) kind caller (w : World Caller App) s first more s_in tks
    rest rf :
  room (w_wire w) = None -> w_bound w = Some kind ->
  input (w_wire w) = stream_messages s (first :: more) ++ stream_messages s_in tks ++ rest ->
  plain_request (custom_metadata first) ->
  gate srv (ab_batch first) (custom_metadata first) = inl rf ->
  Forall (fun tk => custom_metadata tk = None) tks ->
  exists w1, serve_one_with_state array_length pf srv kind caller w = (Done true, w1) /\
    exists w2 answers,
      serve_one_with_state array_length pf srv kind caller w1 = (Done (bool_decide (tks <> [])), w2) /\
      w_app w2 = w_app w /\
      w_wire w2 = wire_after (w_wire w) (stream_list answers) rest /\
      length answers = (1 + Nat.min 1 (length tks))%nat.
Proof.
  intros Hr Hb Hi Hp Hg Ht.
  assert (forall w' : World Caller App, w_bound w' = Some kind -> notify_serve_start srv kind (w_bound w', w_app w') =
    (Done tt, (Some kind, w_app w'))) as Hn.
  { intros w' ->. cbn. by rewrite bool_decide_eq_true_2. }
  destruct (refused_answer array_length pf srv kind caller w _ _ s first more _ rf Hr (Hn w Hb) Hi Hp Hg)
    as (w1 & b & md & E1 & Hw1 & _ & _ & Ha1 & _ & Hb1).
  exists w1. split; [done|]. destruct tks as [|tk tks].
  - destruct (empty_stream_closes array_length pf srv kind caller w1 _ _ s_in rest (Hn w1 Hb1))
      as (w2 & E2 & Hw2 & Ha2); [by rewrite Hw1|].
    exists w2, [(empty_schema, [with_metadata b md])]. split; [by rewrite E2|]. split; [congruence|].
    split; [|done]. by rewrite Hw2, Hw1, stream_list_one.
  - inversion Ht as [|? ? Htk _]; subst.
    assert (gate srv (ab_batch tk) (custom_metadata tk) = inl (refusal_of []
      (str "ProtocolError", str "Missing 'vgi_rpc.method' in request batch custom_metadata.", []))) as Hg2
      by (by rewrite Htk).
    destruct (refused_answer array_length pf srv kind caller w1 _ _ s_in tk tks rest _
      ltac:(by rewrite Hw1) (Hn w1 Hb1) ltac:(by rewrite Hw1) ltac:(by rewrite Htk) Hg2)
      as (w2 & b2 & md2 & E2 & Hw2 & _ & _ & Ha2 & _).
    exists w2, [(empty_schema, [with_metadata b md]); (empty_schema, [with_metadata b2 md2])].
    split; [by rewrite E2|]. split; [congruence|]. split; [|done]. rewrite Hw2, Hw1.
    unfold wire_after. cbn [output]. by rewrite <- app_assoc.
Qed.

(** ** Witnesses *)

Import ToyArrow ToyStreams ToyJson ToyTypes ToyBuild Toy ToyIdentity ToyDispatch.

Definition bound_world (i : list message) : World unit Z :=
  set_bound (demo_world i) (Some PIPE, 0).

(** Its parameters are right and its method is unknown. *)
Definition unknown_request : AnnotatedBatch := demo_request (str "nope") x07.

Definition unknown_refusal : refusal :=
  refusal_of (str "demo.v1/nope")
    (str "MethodNotImplementedError",
     str "Unknown method: 'nope'. Available methods: ['copy', 'echo', 'fail']",
     ERROR_KIND_METHOD_NOT_IMPLEMENTED).

Lemma refused_request_answered_witness :
  exists w' b md,
    serve_one_with_state (fun _ => 0) demo_platform demo_server PIPE tt
      (bound_world (stream_messages toy_schema [unknown_request])) = (Done true, w') /\
    output (w_wire w') = stream_messages toy_schema [with_metadata b md] /\
    find_value md ERROR_KIND = Some ERROR_KIND_METHOD_NOT_IMPLEMENTED /\ w_app w' = 0.
Proof.
  destruct (refused_request_answered (fun _ => 0) demo_platform demo_server PIPE tt
    (bound_world (stream_messages toy_schema [unknown_request])) (Some PIPE) 0 toy_schema unknown_request []
    [] unknown_refusal) as (w' & b & md & E & Hw & _ & Em & Ha & _);
    [reflexivity|reflexivity|reflexivity|by split_and!; vm_compute
    |apply gate_refused_for; vm_compute; reflexivity|].
  exists w', b, md. split; [exact E|]. split; [by rewrite Hw|]. split; [|exact Ha].
  vm_compute in Em. injection Em as <-. reflexivity.
Defined.

Definition demo_target : ServedProtocol unit Z := front_protocol demo_server.

Definition demo_echo : @MethodInfo toy_arrow unit Z :=
  {| mi_name := str "echo"; mi_method_type := UNARY; mi_params_schema := toy_schema;
     mi_result_schema := toy_schema; mi_handler := echo; mi_doc := []; mi_has_return := true;
     mi_input_schema := None; mi_output_schema := None; mi_header_schema := None;
     mi_stream_factory := no_handler; mi_is_exchange := false |}.

Definition echo_request : AnnotatedBatch := demo_request (str "echo") x07.

Definition wrong_version : AnnotatedBatch :=
  with_metadata (toy_data_batch [x07])
    [(METHOD, str "copy"); (REQUEST_VERSION, str "1"); (PROTOCOL, str "demo.v1");
     (PROTOCOL_VERSION, str "2.0.0")].

(** The stream method exists; its request names another protocol version. *)
Lemma refused_stream_desynchronises_witness :
  exists w1 w2 answers,
    serve_one_with_state (fun _ => 0) demo_platform demo_server PIPE tt
      (bound_world (stream_messages toy_schema [wrong_version] ++
                    stream_messages toy_schema [data (toy_data_batch [x01])] ++ [])) = (Done true, w1) /\
    serve_one_with_state (fun _ => 0) demo_platform demo_server PIPE tt w1 = (Done true, w2) /\
    output (w_wire w2) = stream_list answers /\ length answers = 2%nat.
Proof.
  destruct (gate demo_server (ab_batch wrong_version) (custom_metadata wrong_version)) as [rf|x] eqn:Eg;
    [|vm_compute in Eg; discriminate Eg].
  destruct (refused_stream_desynchronises (fun _ => 0) demo_platform demo_server PIPE tt
    (bound_world (stream_messages toy_schema [wrong_version] ++
                  stream_messages toy_schema [data (toy_data_batch [x01])] ++ []))
    toy_schema wrong_version [] toy_schema [data (toy_data_batch [x01])] [] rf)
    as (w1 & E1 & w2 & answers & E2 & _ & Hw & Hl);
    [reflexivity|reflexivity|reflexivity|by split_and!; vm_compute|exact Eg|by repeat constructor|].
  exists w1, w2, answers. split; [exact E1|]. split; [exact E2|]. split; [by rewrite Hw|exact Hl].
Defined.

Definition copy_call : AnnotatedBatch := demo_request (str "copy") x07.

Definition copy_conversation : list message :=
  stream_messages toy_schema [copy_call] ++
  stream_messages toy_schema [data (toy_data_batch [x01]); data (toy_data_batch [x00])] ++
  stream_messages toy_schema [echo_request].

Lemma demo_methods_typed :
  map_Forall (fun _ mi => forall r ctx a, result_typed mi (mi_handler mi r ctx a).1.2)
    (sp_methods demo_target).
Proof.
  apply map_Forall_to_list.
  match goal with |- Forall _ ?l => let l' := eval vm_compute in l in change l with l' end.
  repeat (constructor; [intros r ctx a; cbn; try done; intros _; reflexivity|]). constructor.
Qed.

#[export] Instance toy_answers {App} : IdentityDispatchAnswers (Caller := unit) (App := App).
Proof.
  exists (fun _ => True). intros pf srv method batch caller w _ Hr. unfold serve_identity. cbn [toy_dispatch].
  destruct (respond_error_spec pf srv (str "RuntimeError")
    (str "This server does not host protocol 'vgi_rpc.Identity.v2'.") [] no_extras w Hr) as (b & md & E & _).
  unfold refuse. rewrite (bind_done _ _ _ _ _ E). do 3 eexists. split; [reflexivity|]. apply set_wire_answered.
Defined.

(** A stream is opened, and its input is taken with it. *)
Lemma request_answered_witness :
  exists w' answer, serve_one_with_state (fun _ => 0) demo_platform demo_server PIPE tt
      (bound_world copy_conversation) = (Done true, w') /\
    output (w_wire w') = stream_list answer /\ (1 <= length answer <= 2)%nat /\
    input (w_wire w') = stream_messages toy_schema [echo_request].
Proof.
  destruct (request_answered (fun _ => 0) demo_platform demo_server PIPE tt (bound_world copy_conversation)
    (Some PIPE) 0 toy_schema copy_call [] toy_schema
    [data (toy_data_batch [x01]); data (toy_data_batch [x00])] (stream_messages toy_schema [echo_request])
    (stream_messages toy_schema [data (toy_data_batch [x01]); data (toy_data_batch [x00])] ++
     stream_messages toy_schema [echo_request]))
    as (w' & l & E & Ho & Hl & _ & Hi); [by eexists|exact I| |reflexivity|reflexivity|reflexivity|done|].
  - intros target mi name Hr Hf.
    assert (route demo_server name (custom_metadata copy_call) = inr demo_target) as Hr' by reflexivity.
    assert (target = demo_target) as -> by (rewrite Hr in Hr'; by injection Hr').
    unfold find_method in Hf. destruct (sp_methods demo_target !! name) as [mi'|] eqn:El;
      [|destruct (bool_decide _); discriminate Hf].
    injection Hf as <-. exact (demo_methods_typed name mi' El).
  - assert (takes_input demo_platform demo_server (met_by_request (bound_world copy_conversation))
      (ab_batch copy_call) (custom_metadata copy_call) = true) as Et by (vm_compute; reflexivity).
    rewrite Et in Hl, Hi. exists w', l. split; [exact E|]. split; [by rewrite Ho|]. split; [exact Hl|exact Hi].
Defined.
