(* ===== verification/IdentityServer.v ===== *)
(** * The identity protocol's surface (src/src/token_identity.cpp)

    The payloads, the method table and [Server::serve_identity]: the
    implementation of the interfaces [IdentityService] and [IdentityDispatch] that
    the server is built and run against.  A call's caller is its authentication
    and the evidence of its peer. *)

From Stdlib Require Import Floats.SpecFloat.
From S2P Require Import Prelude Arrow Json Crypto Grants Errors PeerIdentity FloatText Wire TokenIdentity.
From S2P Require Import Calls RequestParams ProtocolHash Reflection Server Dispatch Demo Serving Requests Admission.

Abbreviation Caller := (AuthContext * PeerEvidenceSet)%type.

(** What the payloads use of Arrow beyond strings. *)
Class IdentityArrow `{Arrow} := {
  int64 : DataType;
  timestamp_us_utc : DataType;
  Int64Array : list Z -> res Array;
  TimestampArray : list Z -> res Array;
}.

Section surface.
Context {arrow : Arrow} {afields : ArrowFields} {columns : ArrowColumns} {types : ArrowTypes}
  {streams : ArrowStreams} {build_ : ArrowBuild} {ib : IdentityArrow} {kvm : KeyValueMetadata}
  {J : JsonText} {D : Digests} {aead : Aead} {App : Type}.

Definition plain_field (name : bytes) (t : DataType) : Field :=
  {| field_name := name; field_type := t; field_nullable := false |}.

(** ** Payloads *)

Definition TokenIdentity_arrow_schema : Schema :=
  make_schema [Utf8Field (str "principal"); Utf8Field (str "token_name"); plain_field (str "ttl_seconds") int64].

Definition TokenIdentity_serialize_to_bytes (self : TokenIdentity) : res bytes :=
  principal ← StringArray [ti_principal self];
  token_name ← StringArray [ti_token_name self];
  ttl_seconds ← Int64Array [ti_ttl_seconds self];
  BatchToIpc (RecordBatch_Make TokenIdentity_arrow_schema 1 [principal; token_name; ttl_seconds]).

Definition IssuedGrant_arrow_schema : Schema :=
  make_schema [Utf8Field (str "token"); plain_field (str "expires_at") timestamp_us_utc;
               Utf8Field (str "grant_id")].

Definition IssuedGrant_serialize_to_bytes (self : IssuedGrant) : res bytes :=
  token ← StringArray [ig_token self];
  expires_at ← TimestampArray [ig_expires_at self];
  grant_id ← StringArray [ig_grant_id self];
  BatchToIpc (RecordBatch_Make IssuedGrant_arrow_schema 1 [token; expires_at; grant_id]).

(** ** The method table *)

Definition identity_result_schema : Schema := make_schema [BinaryField (str "result")].

Definition identity_method (name : bytes) (params : Schema) (doc : bytes) : @MethodInfo arrow Caller App :=
  {| mi_name := name; mi_method_type := UNARY; mi_params_schema := params;
     mi_result_schema := identity_result_schema; mi_handler := no_handler; mi_doc := doc;
     mi_has_return := true; mi_input_schema := None; mi_output_schema := None;
     mi_header_schema := None; mi_stream_factory := no_handler; mi_is_exchange := false |}.

Definition introspect_method : @MethodInfo arrow Caller App :=
  identity_method (str "introspect_token") (make_schema [Utf8Field (str "token")])
    (str "Resolve an opaque bearer credential to the identity it authenticates as.").

Definition issue_method : @MethodInfo arrow Caller App :=
  identity_method (str "issue_grant")
    (make_schema [Utf8Field (str "purpose"); plain_field (str "scopes") (list_type (item_field utf8));
                  plain_field (str "ttl_seconds") int64])
    (str "Mint a standing delegation credential for the calling user.").

Definition identity_method_table (offered : list bytes) : gmap bytes (@MethodInfo arrow Caller App) :=
  let methods := if bool_decide (str "introspect_token" ∈ offered)
                 then <[str "introspect_token" := introspect_method]> ∅ else ∅ in
  if bool_decide (str "issue_grant" ∈ offered) then <[str "issue_grant" := issue_method]> methods else methods.

(** ** The interface the server is built against *)

Definition only_grants (keys : GrantKeys) : IdentityOptions App :=
  {| io_resolve_token := None; io_mint_grant := None; introspect_principals := [];
     io_max_auth_age := kDefaultMaxAuthAge; io_grant_keys := Some keys |}.

#[export] Instance identity_service : IdentityService Caller App := {|
  IdentityImpl := TokenIdentity.IdentityImpl App;
  identity_grant_keys := TokenIdentity.grant_keys_;
  grants_identity keys := new_IdentityImpl (only_grants keys);
  IdentityMethods impl := identity_method_table (offered_methods impl);
|}.

(** ** [Server::serve_identity] *)

Section serve.
Context (pf : Platform) (srv : Server Caller App).

Abbreviation world := (World Caller App).

Definition identity_fail (method_name : bytes) (request_batch : RecordBatch) (type message kind : bytes)
    (auth : Caller) : M world bool :=
  respond_error pf srv type message kind no_extras;;
  (if negb (length (pi_name (identity_binding_ srv)) =? 0)%nat then
     log_framework_call pf srv (identity_binding_ srv) method_name request_batch type message
       (code_name (default_error_code type kind)) (Some auth)
   else mret tt);;
  mret true.

(** What the call reads of the system. *)
Definition call_env : Env :=
  {| freshness_ns := pf_freshness_ns pf; mint_ns := pf_mint_ns pf; mint_random_id := pf_random_id pf;
     mint_random_nonce := pf_random_nonce pf |}.

Definition on_app {A} (m : M App A) : M world A := zoom w_app set_app m.

(** The body of the [try]; the arguments of a call are read in order. *)
Definition identity_payload (identity : TokenIdentity.IdentityImpl App) (method_name : bytes)
    (request_batch : RecordBatch) (auth : AuthContext) : M world bytes :=
  let request := {| req_batch := request_batch; req_metadata := None |} in
  if bool_decide (method_name = str "introspect_token") then
    token ← lift (get_param PString request (str "token"));
    found ← on_app (introspect_token identity token auth);
    lift (TokenIdentity_serialize_to_bytes found)
  else
    purpose ← lift (get_param PString request (str "purpose"));
    scopes ← lift (get_param PStrings request (str "scopes"));
    ttl_seconds ← lift (get_param PInt64 request (str "ttl_seconds"));
    grant ← on_app (issue_grant identity call_env purpose scopes ttl_seconds auth);
    lift (IssuedGrant_serialize_to_bytes grant).

Definition send_identity_error (method_name : bytes) (request_batch : RecordBatch) (e : exception)
    (auth : Caller) : M world bool :=
  w ← get;
  err ← lift (Result_exception (current_scope srv w) empty_schema e (server_id_ srv) (pf_request_id pf) []);
  on_wire (write_ipc_stream empty_schema [batch_ err]);;
  log_framework_call pf srv (identity_binding_ srv) method_name request_batch (exception_type_of e)
    (ex_what e) (code_name (error_code_of e)) (Some auth);;
  mret true.

Definition send_identity_result (info : @MethodInfo arrow Caller App) (method_name : bytes)
    (request_batch : RecordBatch) (payload : bytes) (auth : Caller) : M world bool :=
  column ← lift (BinaryArray [payload]);
  on_wire (write_ipc_stream (mi_result_schema info)
             [batch_ (Result_value (RecordBatch_Make (mi_result_schema info) 1 [column]))]);;
  log_framework_call pf srv (identity_binding_ srv) method_name request_batch [] [] [] (Some auth);;
  mret true.

Definition serve_identity_call (method_name : bytes) (request_batch : RecordBatch) (caller : Caller)
    : M world bool :=
  let fail type message kind := identity_fail method_name request_batch type message kind caller in
  match identity_ srv with
  | None =>
      fail (str "RuntimeError")
        (str "This server does not host protocol '" ++ kIdentityProtocolName ++ str "'.") []
  | Some identity =>
      let offered := offered_methods identity in
      if negb (bool_decide (method_name ∈ offered)) then
        fail (str "MethodNotImplementedError")
          (str "Protocol '" ++ kIdentityProtocolName ++ str "' has no method '" ++ method_name
           ++ str "'. Available: [" ++ comma_list (map quoted offered) ++ str "]")
          ERROR_KIND_METHOD_NOT_IMPLEMENTED
      else
        match identity_methods_ srv !! method_name with
        | None => raise (EOutOfRange (str "_Map_base::at"))
        | Some info =>
            let error := parameter_contract_error request_batch (mi_params_schema info) in
            if nonempty error then fail (str "ProtocolError") error []
            else
              payload ← try_catch
                (p ← identity_payload identity method_name request_batch caller.1; mret (inl p))
                (fun e => mret (inr e));
              match payload with
              | inr e => send_identity_error method_name request_batch e caller
              | inl payload => send_identity_result info method_name request_batch payload caller
              end
        end
  end.
End serve.

#[export] Instance identity_dispatch : IdentityDispatch Caller App := {|
  serve_identity := serve_identity_call;
|}.
End surface.

(** ** Lemmas: the surface on an unbroken pipe *)

Section surface_lemmas.
Context {arrow : Arrow} {afields : ArrowFields} {columns : ArrowColumns} {types : ArrowTypes}
  {streams : ArrowStreams} {build_ : ArrowBuild} {ib : IdentityArrow} {kvm : KeyValueMetadata}
  {J : JsonText} {D : Digests} {aead : Aead} {App : Type}
  {alaws : ArrowLaws} {slaws : ArrowStreamsLaws} {total : ArrowTotal} {kvlaws : KeyValueMetadataLaws}
  {jtotal : JsonTextTotal}
  (pf : Platform) (srv : Server Caller App).

Abbreviation world := (World Caller App).
Hypothesis BinaryArray_total : forall values, exists a, BinaryArray values = Ok a.

Lemma identity_fail_spec name batch type message kind caller (w : world) :
  room (w_wire w) = None ->
  exists b md w', identity_fail pf srv name batch type message kind caller w = (Done true, w') /\
    w_wire w' = sent (w_wire w) (stream_messages empty_schema [with_metadata b md]) None /\
    make_error_metadata (current_scope srv w) type message (server_id_ srv) (pf_request_id pf) kind
      no_extras = Ok md /\ num_rows b = 0 /\ w_app w' = w_app w.
Proof.
  intros Hr. unfold identity_fail, log_framework_call.
  destruct (respond_error_spec pf srv type message kind no_extras w Hr) as (b & md & E & Em & Hb).
  rewrite (bind_done _ _ _ _ _ E). exists b, md. destruct (negb _).
  - match goal with |- context [emit_record srv ?r] =>
      destruct (emit_record_spec srv r (set_wire w (sent (w_wire w) (stream_messages empty_schema [with_metadata b md]) None)))
        as (w2 & E2 & Hw2 & Ha2 & _) end.
    rewrite (bind_done _ _ _ _ _ E2). exists w2. by rewrite Hw2, Ha2.
  - eexists. split; [reflexivity|done].
Qed.

Lemma send_identity_error_spec name batch e caller (w : world) :
  room (w_wire w) = None ->
  exists b md w', send_identity_error pf srv name batch e caller w = (Done true, w') /\
    w_wire w' = sent (w_wire w) (stream_messages empty_schema [with_metadata b md]) None /\
    make_exception_metadata (current_scope srv w) e (server_id_ srv) (pf_request_id pf) [] = Ok md /\
    num_rows b = 0 /\ w_app w' = w_app w.
Proof.
  intros Hr. unfold send_identity_error, log_framework_call. rewrite (bind_done _ _ w w w) by done.
  destruct (Result_exception_total (current_scope srv w) empty_schema e (server_id_ srv) (pf_request_id pf) [])
    as (b & md & E & Em & Hb & Hs).
  rewrite E. cbn [lift]. rewrite (bind_done _ _ w (Result_from_annotated_batch (with_metadata b md)) w) by done.
  rewrite (bind_done _ _ _ _ _ (on_wire_write empty_schema [with_metadata b md] w Hr ltac:(by repeat constructor))).
  match goal with |- context [emit_record srv ?r] =>
    destruct (emit_record_spec srv r (set_wire w (sent (w_wire w) (stream_messages empty_schema [with_metadata b md]) None)))
      as (w2 & E2 & Hw2 & Ha2 & _) end.
  rewrite (bind_done _ _ _ _ _ E2). exists b, md, w2. by rewrite Hw2, Ha2.
Qed.

Lemma send_identity_result_spec info name batch payload caller (w : world) :
  room (w_wire w) = None ->
  exists column w', send_identity_result pf srv info name batch payload caller w = (Done true, w') /\
    BinaryArray [payload] = Ok column /\
    w_wire w' = sent (w_wire w) (stream_messages (mi_result_schema info)
                  [data (RecordBatch_Make (mi_result_schema info) 1 [column])]) None /\
    w_app w' = w_app w.
Proof.
  intros Hr. unfold send_identity_result, log_framework_call.
  destruct (BinaryArray_total [payload]) as [column Ec]. rewrite Ec. cbn [lift].
  rewrite (bind_done _ _ w column w) by done. set (s := mi_result_schema info). set (b := RecordBatch_Make s 1 [column]).
  rewrite (bind_done _ _ _ _ _ (on_wire_write s [data b] w Hr ltac:(repeat constructor; unfold fits; cbn;
    subst b; rewrite Make_schema; apply schema_equal_refl))).
  set (w1 := set_wire w _).
  match goal with |- context [emit_record srv ?r] => destruct (emit_record_spec srv r w1) as (w2 & E2 & Hw2 & Ha2 & _) end.
  rewrite (bind_done _ _ _ _ _ E2). exists column, w2. by rewrite Hw2, Ha2.
Qed.

(** What a call that reaches the hooks leaves: the application's state and
    nothing else. *)
Lemma on_app_spec {A} (m : M App A) (w : world) :
  on_app m w = ((m (w_app w)).1, set_app w (m (w_app w)).2).
Proof. unfold on_app, zoom. by destruct (m (w_app w)). Qed.

Lemma identity_payload_effect impl name batch auth (w : world) :
  exists r app, identity_payload pf impl name batch auth w = (r, set_app w app).
Proof.
  assert (w = set_app w (w_app w)) as Hw by by destruct w.
  assert (forall app x, exists r, lift (S := world) (x : res bytes) (set_app w app) = (r, set_app w app)) as Hlift.
  { intros app [a|e]; by eexists. }
  assert (forall A (x : res A) (k : A -> M world bytes),
    (forall a, exists r app, k a w = (r, set_app w app)) -> exists r app, (lift x ≫= k) w = (r, set_app w app)) as Hbind.
  { intros A [a|e] k Hk; [apply Hk|]. exists (Raised (exception_of e)), (w_app w). by rewrite <- Hw. }
  unfold identity_payload. cbv zeta. destruct (bool_decide _).
  - apply Hbind. intros token. unfold mbind at 1, M_bind. rewrite on_app_spec.
    destruct (introspect_token _ _ _ _) as [[i|e] app]; cbn [fst snd]; [|by do 2 eexists].
    destruct (Hlift app (TokenIdentity_serialize_to_bytes i)) as [r ->]. by do 2 eexists.
  - do 3 (apply Hbind; intros ?). unfold mbind at 1, M_bind. rewrite on_app_spec.
    destruct (issue_grant _ _ _ _ _ _ _) as [[i|e] app]; cbn [fst snd]; [|by do 2 eexists].
    destruct (Hlift app (IssuedGrant_serialize_to_bytes i)) as [r ->]. by do 2 eexists.
Qed.

(** The server's table is the implementation's. *)
Definition hosts (impl : option (TokenIdentity.IdentityImpl App)) : Prop :=
  identity_ srv = impl /\
  identity_methods_ srv = match impl with Some i => identity_method_table (offered_methods i) | None => ∅ end.

Lemma method_table_lookup offered name :
  name ∈ offered -> Forall (fun n => n = str "introspect_token" \/ n = str "issue_grant") offered ->
  is_Some ((identity_method_table offered : gmap bytes (@MethodInfo arrow Caller App)) !! name).
Proof.
  intros Hin Hall. rewrite Forall_forall in Hall. unfold identity_method_table.
  destruct (Hall name Hin) as [-> | ->]; repeat case_bool_decide; try done;
    rewrite ?lookup_insert_eq, ?lookup_insert_ne, ?lookup_insert_eq by done; by eexists.
Qed.

Lemma offered_names (impl : TokenIdentity.IdentityImpl App) :
  Forall (fun n => n = str "introspect_token" \/ n = str "issue_grant") (offered_methods impl).
Proof.
  unfold offered_methods. destruct (resolve_token_ impl), (mint_grant_ impl); cbn [app];
    repeat first [apply Forall_nil_2 | apply Forall_cons_2]; auto.
Qed.

(** A call to a method that is offered, whose parameters fit. *)
Lemma identity_call_spec impl name batch caller info r app (w : world) :
  hosts (Some impl) -> name ∈ offered_methods impl -> identity_methods_ srv !! name = Some info ->
  parameter_contract_error batch (mi_params_schema info) = [] ->
  identity_payload pf impl name batch caller.1 w = (r, set_app w app) -> room (w_wire w) = None ->
  exists s ab w', serve_identity_call pf srv name batch caller w = (Done true, w') /\
    w_wire w' = sent (w_wire w) (stream_messages s [ab]) None /\ w_app w' = app /\
    match r with
    | Raised e => s = empty_schema /\ num_rows (ab_batch ab) = 0 /\
        exists md, custom_metadata ab = Some md /\
          make_exception_metadata (current_scope srv w) e (server_id_ srv) (pf_request_id pf) [] = Ok md
    | Done payload => s = mi_result_schema info /\
        exists column, BinaryArray [payload] = Ok column /\ ab = data (RecordBatch_Make s 1 [column])
    end.
Proof.
  intros [Hi _] Hin Hinfo Hc Ep Hr. unfold serve_identity_call. rewrite Hi, Hinfo, Hc.
  rewrite bool_decide_eq_true_2 by done. change (nonempty []) with false. cbn [negb]. cbv zeta iota.
  set (w1 := set_app w app) in *. assert (room (w_wire w1) = None) as Hr1 by done.
  destruct r as [payload|e].
  - rewrite (bind_done _ _ w (inl payload) w1).
    + destruct (send_identity_result_spec info name batch payload caller w1 Hr1) as (column & w' & E & Ec & Hw & Ha).
      do 3 eexists. split; [exact E|]. split; [exact Hw|]. split; [done|]. split; [done|]. by exists column.
    + unfold try_catch. by rewrite (bind_done _ _ _ _ _ Ep).
  - rewrite (bind_done _ _ w (inr e) w1).
    + destruct (send_identity_error_spec name batch e caller w1 Hr1) as (b & md & w' & E & Hw & Em & Hb & Ha).
      do 3 eexists. split; [exact E|]. split; [exact Hw|]. split; [done|]. split; [done|]. split; [done|]. by exists md.
    + unfold try_catch. by rewrite (bind_raised _ _ _ _ _ Ep).
Qed.

(** Every call is answered by one stream. *)
Lemma serve_identity_call_answers impl name batch caller (w : world) :
  hosts impl -> room (w_wire w) = None ->
  exists w' st, serve_identity_call pf srv name batch caller w = (Done true, w') /\ answered w w' [st].
Proof.
  intros Hh Hr. pose proof Hh as [Hi Hm].
  assert (forall type message kind, exists w' st,
    identity_fail pf srv name batch type message kind caller w = (Done true, w') /\ answered w w' [st]) as Hfail.
  { intros type message kind. destruct (identity_fail_spec name batch type message kind caller w Hr)
      as (b & md & w' & E & Hw & _).
    exists w', (empty_schema, [with_metadata b md]). split; [done|]. exists None. by rewrite stream_list_one. }
  destruct impl as [impl|]; cycle 1. { unfold serve_identity_call. rewrite Hi. apply Hfail. }
  destruct (decide (name ∈ offered_methods impl)) as [Hin|Hin]; cycle 1.
  { unfold serve_identity_call. rewrite Hi, bool_decide_eq_false_2 by done. apply Hfail. }
  destruct (method_table_lookup _ _ Hin (offered_names impl)) as [info Hinfo]. rewrite <- Hm in Hinfo.
  destruct (decide (parameter_contract_error batch (mi_params_schema info) = [])) as [Hc|Hc].
  - destruct (identity_payload_effect impl name batch caller.1 w) as (r & app & Ep).
    destruct (identity_call_spec impl name batch caller info r app w Hh Hin Hinfo Hc Ep Hr)
      as (s & ab & w' & E & Hw & _).
    exists w', (s, [ab]). split; [done|]. exists None. by rewrite stream_list_one.
  - unfold serve_identity_call. rewrite Hi, Hinfo, bool_decide_eq_true_2 by done. cbn [negb]. cbv zeta.
    destruct (parameter_contract_error batch (mi_params_schema info)); [done|]. apply Hfail.
Qed.

(** The call takes nothing from the connection. *)
Lemma identity_payload_shrinks impl name batch auth :
  always (fun w w' : world => shrinks (w_wire w) (w_wire w')) (identity_payload pf impl name batch auth).
Proof.
  intros w. destruct (identity_payload_effect impl name batch auth w) as (r & app & ->). by apply reflexivity.
Qed.

(** The payload leaves the application alone unless a guard lets a hook run. *)
Lemma identity_payload_guarded impl name batch auth (w : world) :
  w_app (identity_payload pf impl name batch auth w).2 = w_app w \/
  (name = str "introspect_token" /\ may_introspect (principals_ impl) auth /\
   exists token, get_param PString {| req_batch := batch; req_metadata := None |} (str "token") = Ok token /\
     acceptable token) \/
  (name <> str "introspect_token" /\ exists t, authenticated_at auth t /\
   dbl_gt (dbl_sub (WallSeconds (pf_freshness_ns pf)) t) (max_auth_age_ impl) = false).
Proof.
  unfold identity_payload. cbv zeta. case_bool_decide as Hn.
  - destruct (get_param PString _ _) as [token|e] eqn:Et; [|by left].
    rewrite (bind_done _ _ w token w) by done. unfold mbind, M_bind. rewrite on_app_spec.
    destruct (introspect_token_effect impl token auth (w_app w)) as [He|[Hm Ha]]; [left|by right; left; eauto].
    destruct (introspect_token _ _ _ _) as [[i|e] app]; cbn [fst snd] in *; subst app; [|by destruct w].
    by destruct (TokenIdentity_serialize_to_bytes i), w.
  - destruct (get_param PString _ _) as [purpose|e]; [|by left]. rewrite (bind_done _ _ w purpose w) by done.
    destruct (get_param PStrings _ _) as [scopes|e]; [|by left]. rewrite (bind_done _ _ w scopes w) by done.
    destruct (get_param PInt64 _ _) as [ttl|e]; [|by left]. rewrite (bind_done _ _ w ttl w) by done.
    unfold mbind, M_bind. rewrite on_app_spec.
    destruct (issue_grant_effect impl (call_env pf) purpose scopes ttl auth (w_app w)) as [He|(t & Ht & Hg)];
      [left|right; right; split; [done|]; by exists t].
    destruct (issue_grant _ _ _ _ _ _ _) as [[i|e] app]; cbn [fst snd] in *; subst app; [|by destruct w].
    by destruct (IssuedGrant_serialize_to_bytes i), w.
Qed.

(** *** What leaves the application alone *)

Lemma log_framework_call_quiet owner name batch type message code auth :
  always quiet (log_framework_call pf srv owner name batch type message code auth : M world unit).
Proof. unfold log_framework_call. frame. Qed.
#[local] Hint Resolve log_framework_call_quiet : frame.

Lemma identity_fail_quiet name batch type message kind auth :
  always quiet (identity_fail pf srv name batch type message kind auth : M world bool).
Proof. unfold identity_fail. frame. Qed.

Lemma send_identity_error_quiet name batch e auth :
  always quiet (send_identity_error pf srv name batch e auth : M world bool).
Proof. unfold send_identity_error. frame. Qed.

Lemma send_identity_result_quiet info name batch payload auth :
  always quiet (send_identity_result pf srv info name batch payload auth : M world bool).
Proof. unfold send_identity_result. frame. Qed.

(** The whole call changes the application only through its payload. *)
Lemma serve_identity_call_effect name batch caller (w : world) :
  quiet w (serve_identity_call pf srv name batch caller w).2 \/
  exists impl info, identity_ srv = Some impl /\ name ∈ offered_methods impl /\
    identity_methods_ srv !! name = Some info /\ parameter_contract_error batch (mi_params_schema info) = [] /\
    input_shrinks w (serve_identity_call pf srv name batch caller w).2 /\
    w_app (serve_identity_call pf srv name batch caller w).2 =
      w_app (identity_payload pf impl name batch caller.1 w).2.
Proof.
  unfold serve_identity_call. destruct (identity_ srv) as [impl|]; [|left; apply identity_fail_quiet].
  case_bool_decide as Hin; cbn [negb]; [|left; apply identity_fail_quiet].
  destruct (identity_methods_ srv !! name) as [info|]; [|left; by apply reflexivity].
  destruct (parameter_contract_error batch (mi_params_schema info)) eqn:Hc; [|left; apply identity_fail_quiet].
  change (nonempty []) with false. cbv zeta iota. right. exists impl, info. do 4 (split; [done|]).
  destruct (identity_payload_effect impl name batch caller.1 w) as (r & app & Ep). rewrite Ep. cbn [snd].
  destruct r as [payload|e].
  - rewrite (bind_done _ _ w (inl payload) (set_app w app)) by (unfold try_catch; by rewrite (bind_done _ _ _ _ _ Ep)).
    destruct (send_identity_result_quiet info name batch payload caller (set_app w app)) as [Ha Hs]. done.
  - rewrite (bind_done _ _ w (inr e) (set_app w app)) by (unfold try_catch; by rewrite (bind_raised _ _ _ _ _ Ep)).
    destruct (send_identity_error_quiet name batch e caller (set_app w app)) as [Ha Hs]. done.
Qed.
End surface_lemmas.

(** ** The interfaces of the dispatcher *)

#[export] Instance identity_dispatch_quiet
    {arrow : Arrow} {afields : ArrowFields} {columns : ArrowColumns} {types : ArrowTypes}
    {streams : ArrowStreams} {build_ : ArrowBuild} {ib : IdentityArrow} {kvm : KeyValueMetadata}
    {J : JsonText} {D : Digests} {aead : Aead} {App : Type} :
  IdentityDispatchQuiet (Caller := Caller) (App := App).
Proof.
  split. intros pf srv method batch caller w.
  destruct (serve_identity_call_effect pf srv method batch caller w) as [[_ Hs]|(? & ? & _ & _ & _ & _ & Hs & _)];
    exact Hs.
Qed.

#[export] Instance identity_dispatch_answers
    {arrow : Arrow} {afields : ArrowFields} {columns : ArrowColumns} {types : ArrowTypes}
    {streams : ArrowStreams} {build_ : ArrowBuild} {ib : IdentityArrow} {kvm : KeyValueMetadata}
    {J : JsonText} {D : Digests} {aead : Aead} {App : Type}
    {alaws : ArrowLaws} {slaws : ArrowStreamsLaws} {total : ArrowTotal} {kvlaws : KeyValueMetadataLaws}
    {jtotal : JsonTextTotal} (BinaryArray_total : forall values, exists a, BinaryArray values = Ok a) :
  IdentityDispatchAnswers (Caller := Caller) (App := App).
Proof.
  exists (fun srv => exists impl, hosts srv impl). intros pf srv method batch caller w [impl Hh] Hr.
  destruct (serve_identity_call_answers pf srv BinaryArray_total impl method batch caller w Hh Hr)
    as (w' & st & E & Ha). by exists true, w', st.
Defined.

(** ** Properties *)

(** A login at [t] is recent enough at [now]: its age is at most the ceiling.  A
    comparison with NaN holds nothing against it, so a credential whose
    [auth_time] reads as NaN is recent, and so is every login when the ceiling
    is NaN. *)
Definition recent (now t max_age : binary64) : Prop :=
  SFleb (dbl_sub now t) max_age = true \/ dbl_sub now t = S754_nan \/ max_age = S754_nan.

Lemma not_gt_recent now t max_age : dbl_gt (dbl_sub now t) max_age = false -> recent now t max_age.
Proof.
  unfold recent, dbl_gt. generalize (dbl_sub now t) as age. intros age. unfold SFltb, SFleb.
  destruct max_age as [[]|[]| |[] m e], age as [[]|[]| |[] m' e']; cbn; try tauto; try (intros; by left);
    intros H; left; revert H; rewrite (Z.compare_antisym e e');
    destruct (Z.compare e e'); cbn; try done;
    change (Pos.compare_cont Eq m m') with (Pos.compare m m');
    change (Pos.compare_cont Eq m' m) with (Pos.compare m' m);
    rewrite (Pos.compare_antisym m m'); by destruct (Pos.compare m m').
Qed.

(** C35: the worker's identity hooks run only behind their guards.  Whatever the
    request carries and whether or not the pipe breaks, an identity call leaves
    the application's state as it was unless it names an offered method with the
    declared parameters and either an authenticated caller of the allowlist
    presents an acceptable credential, or an authenticated caller asks for a
    grant whose credential says when it logged in, an age that is at most the
    ceiling or is not a number: a login at NaN seconds, which a credential may
    claim (a finding), is never too old. *)
Theorem identity_hooks_guarded
    {arrow : Arrow} {afields : ArrowFields} {columns : ArrowColumns} {types : ArrowTypes}
    {streams : ArrowStreams} {build_ : ArrowBuild} {ib : IdentityArrow} {kvm : KeyValueMetadata}
    {J : JsonText} {D : Digests} {aead : Aead} {App : Type}
    pf (srv : Server Caller App) name batch auth evidence (w : World Caller App) :
  w_app (serve_identity_call pf srv name batch (auth, evidence) w).2 = w_app w \/
  exists impl info, identity_ srv = Some impl /\ name ∈ offered_methods impl /\
    identity_methods_ srv !! name = Some info /\ parameter_contract_error batch (mi_params_schema info) = [] /\
    ((name = str "introspect_token" /\ may_introspect (principals_ impl) auth /\
      exists token, get_param PString {| req_batch := batch; req_metadata := None |} (str "token") = Ok token /\
        acceptable token) \/
     (name <> str "introspect_token" /\ exists t, authenticated_at auth t /\
      let age := dbl_sub (WallSeconds (pf_freshness_ns pf)) t in
      (SFleb age (max_auth_age_ impl) = true \/ age = S754_nan \/ max_auth_age_ impl = S754_nan))).
Proof.
  destruct (serve_identity_call_effect pf srv name batch (auth, evidence) w)
    as [[Ha _]|(impl & info & Hi & Hin & Hm & Hc & _ & Happ)]; [by left|].
  rewrite Happ. clear Happ. cbn [fst].
  destruct (identity_payload_guarded pf impl name batch auth w) as [Ha|Hg]; [by left|]. right.
  exists impl, info. split_and!; try done.
  destruct Hg as [Hg|(Hn & t & Ht & Hg)]; [by left|right]. split; [done|]. exists t. split; [done|].
  by apply not_gt_recent.
Qed.

(** Every server that [build] returns hosts exactly the identity it settled on. *)
Lemma built_server_hosts
    {arrow : Arrow} {afields : ArrowFields} {columns : ArrowColumns} {types : ArrowTypes}
    {streams : ArrowStreams} {build_ : ArrowBuild} {ib : IdentityArrow}
    {D : Digests} {aead : Aead} {App : Type}
    log_opens env shm rid (b : ServerBuilder Caller App) srv b' :
  build log_opens env shm rid b = (Ok srv, b') -> exists impl, hosts srv impl.
Proof.
  unfold build. destruct (built_ b); [done|]. intros [= E _]. unfold build_server, new_Server in E. inv_res.
  subst srv. eexists. split; cbn [identity_ identity_methods_]; [reflexivity|].
  by match goal with |- match ?i with _ => _ end = _ => destruct i end.
Qed.

(** The answer to an introspection.  A call with the declared parameters gets
    exactly one stream: the identity the resolver found, in the one binary column
    of the protocol, or the error model of what the guards or the resolver threw,
    with its kind and code; and the application's state is what the resolver left. *)
Theorem introspection_answered
    {arrow : Arrow} {afields : ArrowFields} {columns : ArrowColumns} {types : ArrowTypes}
    {streams : ArrowStreams} {build_ : ArrowBuild} {ib : IdentityArrow} {kvm : KeyValueMetadata}
    {J : JsonText} {D : Digests} {aead : Aead} {App : Type}
    {alaws : ArrowLaws} {slaws : ArrowStreamsLaws} {total : ArrowTotal} {kvlaws : KeyValueMetadataLaws}
    {jtotal : JsonTextTotal}
    pf (srv : Server Caller App) impl batch token auth evidence (w : World Caller App) :
  (forall values, exists a, BinaryArray values = Ok a) ->
  hosts srv (Some impl) -> is_Some (resolve_token_ impl) ->
  parameter_contract_error batch (mi_params_schema (introspect_method (App := App))) = [] ->
  get_param PString {| req_batch := batch; req_metadata := None |} (str "token") = Ok token ->
  room (w_wire w) = None ->
  exists s ab w',
    serve_identity pf srv (str "introspect_token") batch (auth, evidence) w = (Done true, w') /\
    w_wire w' = sent (w_wire w) (stream_messages s [ab]) None /\
    w_app w' = (introspect_token impl token auth (w_app w)).2 /\
    match (introspect_token impl token auth (w_app w)).1 with
    | Raised e => s = empty_schema /\ num_rows (ab_batch ab) = 0 /\ exists md, custom_metadata ab = Some md /\
        make_exception_metadata (current_scope srv w) e (server_id_ srv) (pf_request_id pf) [] = Ok md
    | Done i => forall payload, TokenIdentity_serialize_to_bytes i = Ok payload ->
        s = identity_result_schema /\ exists column, BinaryArray [payload] = Ok column /\
          ab = data (RecordBatch_Make identity_result_schema 1 [column])
    end.
Proof.
  intros Hb Hh [resolve Hres] Hc Ht Hr. pose proof Hh as [_ Hm].
  assert (str "introspect_token" ∈ offered_methods impl) as Hin.
  { unfold offered_methods. rewrite Hres. apply elem_of_app. left. by apply list_elem_of_singleton. }
  assert (identity_methods_ srv !! str "introspect_token" = Some introspect_method) as Hinfo.
  { rewrite Hm. unfold identity_method_table. repeat case_bool_decide; try done;
      rewrite ?lookup_insert_ne by done; by rewrite lookup_insert_eq. }
  assert (identity_payload pf impl (str "introspect_token") batch (auth, evidence).1 w =
    match introspect_token impl token auth (w_app w) with
    | (Done i, app) => lift (TokenIdentity_serialize_to_bytes i) (set_app w app)
    | (Raised e, app) => (Raised e, set_app w app)
    end) as Ep.
  { unfold identity_payload. cbv zeta. rewrite bool_decide_eq_true_2 by done. rewrite Ht. cbn [lift fst].
    rewrite (bind_done _ _ w token w) by done. unfold mbind, M_bind. rewrite on_app_spec.
    by destruct (introspect_token _ _ _ _) as [[i|e] app]. }
  destruct (introspect_token impl token auth (w_app w)) as [[i|e] app]; cbn [fst snd].
  - destruct (TokenIdentity_serialize_to_bytes i) as [payload|e] eqn:Es; cbn [lift] in Ep.
    + destruct (identity_call_spec pf srv Hb impl _ batch (auth, evidence) _ _ app w Hh Hin Hinfo Hc Ep Hr)
        as (s & ab & w' & E & Hw & Ha & -> & column & Ec & Hab).
      do 3 eexists. split; [exact E|]. split; [exact Hw|]. split; [done|].
      intros p [= <-]. split; [done|]. by exists column.
    + destruct (identity_call_spec pf srv Hb impl _ batch (auth, evidence) _ _ app w Hh Hin Hinfo Hc Ep Hr)
        as (s & ab & w' & E & Hw & Ha & _).
      do 3 eexists. split; [exact E|]. split; [exact Hw|]. split; [done|]. done.
  - by destruct (identity_call_spec pf srv Hb impl _ batch (auth, evidence) _ _ app w Hh Hin Hinfo Hc Ep Hr)
      as (s & ab & w' & E & Hw & Ha & Hs & Hn & Hmd); do 3 eexists.
Qed.

(** ** Witnesses *)

Import ToyStreams.

Section witnesses.
#[local] Existing Instances ToyArrow.toy_metadata ToyArrow.toy_metadata_laws ToyArrow.toy_arrow
  ToyArrow.toy_arrow_laws ToyStreams.toy_streams ToyStreams.toy_streams_laws ToyStreams.toy_total
  ToyTypes.toy_types ToyBuild.toy_build ToyJson.toy_json ToyJson.toy_json_total Toy.digests Toy.aead.

(** Every column of a request is the credential that the first byte names. *)
#[local] Instance token_fields : ArrowFields := {|
  fields s := [{| field_name := str "data"; field_type := s; field_nullable := false |}];
  type_equal := Bool.eqb; Field_ToString _ := str "data"; Schema_ToString _ := str "data";
  DataType_ToString _ := str "uint8"; GetColumnByName _ _ := Some tt; array_type _ := false; Cast _ _ := Some tt;
|}.
#[local] Instance token_columns : ArrowColumns := fun _ => StringColumn false [(str "opaque", true)].
#[local] Instance token_ib : IdentityArrow := {|
  int64 := false; timestamp_us_utc := false; Int64Array _ := Ok tt; TimestampArray _ := Ok tt;
|}.

Definition identity_demo_server : Server Caller nat :=
  {| protocols_ := []; server_id_ := str "srv"; include_tracebacks_ := false;
     reflection_binding_ := no_binding; identity_binding_ := {| pi_name := kIdentityProtocolName; pi_hash := [] |};
     identity_methods_ := identity_method_table (offered_methods demo_identity);
     access_log_enabled := true; identity_ := Some demo_identity; on_serve_start_ := None |}.

Definition identity_world : World Caller nat :=
  {| w_wire := toy_wire []; w_app := 0%nat; w_bound := None; w_conn := new_ConnectionState;
     w_access := []; w_peer := []; w_sink := new_LogSink [] []; w_where := [] |}.

Definition introspection : RecordBatch := toy_data_batch [x07].

Lemma demo_server_hosts : hosts identity_demo_server (Some demo_identity).
Proof. by split. Qed.

(** The proxy gets an answer and the resolver ran once; another caller gets a
    refusal and the resolver did not run. *)
Lemma introspection_answered_witness :
  (exists s ab w',
    serve_identity demo_platform identity_demo_server (str "introspect_token") introspection
      (demo_auth (str "proxy") [], no_evidence) identity_world = (Done true, w') /\
    w_wire w' = sent (w_wire identity_world) (stream_messages s [ab]) None /\
    w_app w' = 1%nat /\ s = identity_result_schema) /\
  (exists s ab w',
    serve_identity demo_platform identity_demo_server (str "introspect_token") introspection
      (demo_auth (str "bob") [], no_evidence) identity_world = (Done true, w') /\
    w_wire w' = sent (w_wire identity_world) (stream_messages s [ab]) None /\
    w_app w' = 0%nat /\ exists md, custom_metadata ab = Some md /\
      make_exception_metadata (current_scope identity_demo_server identity_world)
        (IntrospectionRefusedError (str "caller is not an introspector")) (str "srv") (str "r1") [] = Ok md).
Proof.
  split.
  - destruct (introspection_answered demo_platform identity_demo_server demo_identity introspection (str "opaque")
      (demo_auth (str "proxy") []) no_evidence identity_world)
      as (s & ab & w' & E & Hw & Ha & Hr);
      [by eexists|apply demo_server_hosts|by eexists|by vm_compute|reflexivity|reflexivity|].
    exists s, ab, w'. split; [exact E|]. split; [exact Hw|].
    assert (introspect_token demo_identity (str "opaque") (demo_auth (str "proxy") []) 0%nat =
      (Done {| ti_principal := str "alice"; ti_token_name := str "laptop"; ti_ttl_seconds := 300 |}, 1%nat))
      as Ei by (vm_compute; reflexivity).
    cbn [w_app identity_world] in *. rewrite Ei in *. split; [exact Ha|].
    by destruct (Hr _ eq_refl).
  - destruct (introspection_answered demo_platform identity_demo_server demo_identity introspection (str "opaque")
      (demo_auth (str "bob") []) no_evidence identity_world)
      as (s & ab & w' & E & Hw & Ha & Hr);
      [by eexists|apply demo_server_hosts|by eexists|by vm_compute|reflexivity|reflexivity|].
    exists s, ab, w'. split; [exact E|]. split; [exact Hw|].
    assert (introspect_token demo_identity (str "opaque") (demo_auth (str "bob") []) 0%nat =
      (Raised (IntrospectionRefusedError (str "caller is not an introspector")), 0%nat))
      as Ei by (vm_compute; reflexivity).
    cbn [w_app identity_world] in *. rewrite Ei in *. split; [exact Ha|]. apply Hr.
Defined.
End witnesses.
