(* ===== verification/Client.v ===== *)
(** * The raw client (src/src/client.cpp)

    [RpcClient] and [ClientStream]: the metadata of a request, the remote exception
    and the log messages read back from a response, a unary call, and a stream with
    its ticks, exchanges, cancellation and closing.  The connection is a [wire],
    whose input is what the server will have sent; pointer batches are fetched by
    [ClientExternal].  A thrown [RpcException] is the left of a sum, every other
    exception is [Raised]. *)

From S2P Require Import Prelude Memory Arrow Json Crypto Errors IdentityInternal Shm ShmPointer Wire Calls.
From S2P Require Import ProxyProtocol ExternalUrl ClientExternal Server Dispatch.

(** The texts of the library's errors: the status of a reader that does not open,
    and the [what()] of nlohmann's parser. *)
Class ClientTexts `{ArrowStreams} := {
  open_error_text : open_status -> bytes;
  parse_error_text : bytes -> bytes;
}.

(** ** Metadata *)

Section request.
Context {kvm : KeyValueMetadata}.

Definition copy_metadata (md : metadata) : kv_list := default [] md.

Definition remove_metadata (md : kv_list) (key : bytes) : kv_list := delete_key (length md) md key.

Definition replace_metadata (md : kv_list) (key value : bytes) : kv_list := Append (remove_metadata md key) key value.

Definition transport_controls : list bytes :=
  [SHM_OFFSET; SHM_LENGTH; SHM_SOURCE; SHM_SEGMENT_NAME; SHM_SEGMENT_SIZE; LOCATION; LOCATION_SHA256;
   LOCATION_SOURCE; LOCATION_FETCH_MS; CANCEL; STATE_B64; CALL_STATE_B64; STREAM_STATE].

Definition strip_transport_controls (md : kv_list) : kv_list := foldl remove_metadata md transport_controls.

Definition is_reserved_method (method : bytes) : bool :=
  (4 <? blen method) && starts_with (str "__") method
  && bool_decide (drop (length method - 2) method = str "__").

Definition no_protocol (method : bytes) : bytes :=
  str "RpcClient: no protocol configured for '" ++ method
  ++ str "': every application request must name the protocol it addresses (WIRE_PROTOCOL.md §3.1). Set RpcClientOptions::protocol.".

(** The segment's name without its leading slashes. *)
Definition wire_name (name : bytes) : bytes := drop_while (Byte.eqb "/") name.

(** [random_id] is [random_hex(32)]. *)
Definition request_metadata (method protocol protocol_version : bytes) (extras : metadata)
    (shm : option ShmSegment) (random_id : bytes) : res kv_list :=
  _ ← throw_if (bool_decide (method = [])) (InvalidArgument (str "RPC method must not be empty"));
  _ ← throw_if (bool_decide (protocol = []) && negb (is_reserved_method method))
        (InvalidArgument (no_protocol method));
  let md := strip_transport_controls (copy_metadata extras) in
  let md := replace_metadata md METHOD method in
  let md := if is_reserved_method method then md else replace_metadata md PROTOCOL protocol in
  let md := replace_metadata md REQUEST_VERSION REQUEST_VERSION_VALUE in
  let md := replace_metadata md REQUEST_ID random_id in
  let md := match protocol_version with [] => md | v => replace_metadata md PROTOCOL_VERSION v end in
  Ok (match shm with
      | Some seg =>
          replace_metadata (replace_metadata md SHM_SEGMENT_NAME (wire_name (name_ seg)))
            SHM_SEGMENT_SIZE (to_string (size_ seg))
      | None => md
      end).
End request.

(** ** What a response says *)

Record RpcException := {
  rx_exception_type : bytes;
  rx_message : bytes;
  rx_status : RemoteStatus;
  rx_server_id : bytes;
  rx_request_id : bytes;
}.

Section decode.
Context {arrow : Arrow} {streams : ArrowStreams} {kvm : KeyValueMetadata} {J : JsonText} {texts : ClientTexts}.

(** The [log_extra] object; text that does not parse, or is not an object, is
    ignored. *)
Definition extra_object (md : metadata) : json :=
  match get_metadata_value md LOG_EXTRA [] with
  | [] => JObject []
  | extra => match parse_text extra with Some (JObject ms) => JObject ms | _ => JObject [] end
  end.

Definition remote_exception (response : AnnotatedBatch) : RpcException :=
  let md := custom_metadata response in
  let extra := extra_object md in
  {| rx_exception_type :=
       match jfind extra (str "exception_type") with Some (JString t) => t | _ => str "RemoteError" end;
     rx_message := get_metadata_value md LOG_MESSAGE (str "remote RPC exception");
     rx_status := decode_remote_status md extra;
     rx_server_id := get_metadata_value md SERVER_ID [];
     rx_request_id := get_metadata_value md REQUEST_ID [] |}.

Definition log_message (response : AnnotatedBatch) : res Message :=
  let md := custom_metadata response in
  level ← log_level_from_string (get_metadata_value md LOG_LEVEL []);
  extra ← match get_metadata_value md LOG_EXTRA [] with
          | [] => Ok (JObject [])
          | extra =>
              match parse_text extra with
              | Some v => Ok v
              | None => Throw (RuntimeError (str "invalid JSON in RPC log metadata: " ++ parse_error_text extra))
              end
          end;
  Ok {| msg_level := level; msg_message := get_metadata_value md LOG_MESSAGE []; msg_extra := extra |}.
End decode.

(** ** The client *)

(** [App] is what the log handler acts on; it throws no [RpcException]. *)
Record RpcClientOptions (App : Type) := {
  opt_protocol : bytes;
  opt_protocol_version : bytes;
  opt_on_log : option (Message -> M App unit);
  opt_external_http : option ClientExternalHttpOptions;
}.
Arguments opt_protocol {App} _.
Arguments opt_protocol_version {App} _.
Arguments opt_on_log {App} _.
Arguments opt_external_http {App} _.

(** [RpcClient::Impl]; [c_open] is [transport.is_open()]. *)
Record RpcClient `{Arrow} `{Network} (App : Type) := {
  c_wire : wire;
  c_exchange : Exchange App;
  c_shm : option ShmSegment;
  c_open : bool;
  c_active : bool;
  c_closed : bool;
}.
Arguments Build_RpcClient {_ _ App}.
Arguments c_wire {_ _ App} _.
Arguments c_exchange {_ _ App} _.
Arguments c_shm {_ _ App} _.
Arguments c_open {_ _ App} _.
Arguments c_active {_ _ App} _.
Arguments c_closed {_ _ App} _.

Inductive ClientStreamKind := PRODUCER_STREAM | EXCHANGE_STREAM.

#[export] Instance ClientStreamKind_eq_decision : EqDecision ClientStreamKind.
Proof. solve_decision. Defined.

(** [ClientStream::Impl] and the client it holds.  [cs_writing] and [cs_reading]: the
    writer and the reader exist. *)
Record ClientStream `{Arrow} `{Network} (App : Type) := {
  cs_client : RpcClient App;
  cs_kind : ClientStreamKind;
  cs_header : option AnnotatedBatch;
  cs_input_schema : option Schema;
  cs_writing : bool;
  cs_reading : bool;
  cs_cancelled : bool;
  cs_finished : bool;
  cs_closed : bool;
  cs_released : bool;
}.
Arguments Build_ClientStream {_ _ App}.
Arguments cs_client {_ _ App} _.
Arguments cs_kind {_ _ App} _.
Arguments cs_header {_ _ App} _.
Arguments cs_input_schema {_ _ App} _.
Arguments cs_writing {_ _ App} _.
Arguments cs_reading {_ _ App} _.
Arguments cs_cancelled {_ _ App} _.
Arguments cs_finished {_ _ App} _.
Arguments cs_closed {_ _ App} _.
Arguments cs_released {_ _ App} _.

Section client.
Context {arrow : Arrow} {streams : ArrowStreams} {kvm : KeyValueMetadata} {buffers : BufferStreams}
  {J : JsonText} {D : Digests} {pton : InetPton} {ntop : InetNtop} {network : Network} {zstd : Zstd}
  {texts : ClientTexts} {App : Type}.

Abbreviation client := (RpcClient App).
Abbreviation stream := (ClientStream App).

Context (options : RpcClientOptions App).

(** *** State *)

Definition set_c_wire (c : client) (x : wire) : client :=
  Build_RpcClient x (c_exchange c) (c_shm c) (c_open c) (c_active c) (c_closed c).
Definition set_c_exchange (c : client) (x : Exchange App) : client :=
  Build_RpcClient (c_wire c) x (c_shm c) (c_open c) (c_active c) (c_closed c).
Definition set_c_shm (c : client) (x : option ShmSegment) : client :=
  Build_RpcClient (c_wire c) (c_exchange c) x (c_open c) (c_active c) (c_closed c).
Definition set_c_active (c : client) (x : bool) : client :=
  Build_RpcClient (c_wire c) (c_exchange c) (c_shm c) (c_open c) x (c_closed c).

Definition on_c_wire {A} (m : M wire A) : M client A := zoom c_wire set_c_wire m.
Definition on_exchange {A} (m : M (Exchange App) A) : M client A := zoom c_exchange set_c_exchange m.

Definition set_ex_app (x : Exchange App) (app : App) : Exchange App :=
  {| ex_net := ex_net x; ex_requests := ex_requests x; ex_app := app |}.

(** *** [RpcClient::Impl] *)

Definition reserve_call : M client unit :=
  c ← get;
  if c_closed c || negb (c_open c) then raise (EOther (str "RPC client is closed"))
  else if c_active c then
    raise (ELogicError (str "raw RPC client already has an active call; close its stream before reusing it"))
  else put (set_c_active c true).

Definition release_call : M client unit := modify (fun c => set_c_active c false).

Definition abort_transport : M client unit := modify (fun c =>
  Build_RpcClient (c_wire c) (c_exchange c) (c_shm c) false false true).

Definition dispatch_log (response : AnnotatedBatch) : M App unit :=
  match opt_on_log options with
  | None => mret tt
  | Some on_log => m ← lift (log_message response); on_log m
  end.

Definition dispatch_client_log (response : AnnotatedBatch) : M client unit :=
  on_exchange (zoom ex_app set_ex_app (dispatch_log response)).

(** [resolve_pointer] has no other result ([ClientExternal.fetch_returns]). *)
Definition resolve_data (response : AnnotatedBatch) : M client AnnotatedBatch :=
  match ab_type response with
  | SHM_POINTER =>
      c ← get;
      match c_shm c with
      | None => raise (EOther (str "server returned a shared-memory pointer without a negotiated segment"))
      | Some seg =>
          '(batch, md, free_offset) ←
            lift (resolve_shm_batch (Some (ab_batch response)) (Some (custom_metadata response)) (Some seg));
          (if 0 <=? free_offset then put (set_c_shm c (Some (free_alloc seg free_offset))) else mret tt);;
          mret {| ab_batch := default (ab_batch response) batch;
                  custom_metadata := default (custom_metadata response) md |}
      end
  | EXTERNAL_POINTER =>
      match opt_external_http options with
      | None =>
          raise (EOther (str "server returned an external-location batch but this client has no external transfer policy configured"))
      | Some external =>
          resolved ← on_exchange (resolve_pointer (redirect_rounds external) external response (Some dispatch_log));
          match resolved with Some ab => mret ab | None => raise (EOther []) end
      end
  | STATE_TOKEN => raise (EOther (str "state-token batch is invalid on a live raw stream transport"))
  | DATA | LOG | EXCEPTION => mret response
  end.

(** *** A whole response stream *)

Fixpoint substream_data (batches : list AnnotatedBatch) (found : option AnnotatedBatch)
    : M client (RpcException + option AnnotatedBatch) :=
  match batches with
  | [] => mret (inr found)
  | response :: batches' =>
      match ab_type response with
      | LOG => dispatch_client_log response;; substream_data batches' found
      | EXCEPTION => mret (inl (remote_exception response))
      | DATA | SHM_POINTER | EXTERNAL_POINTER =>
          match found with
          | Some _ => raise (EOther (str "RPC response contains multiple data batches"))
          | None => data ← resolve_data response; substream_data batches' (Some data)
          end
      | STATE_TOKEN => resolve_data response;; substream_data batches' found
      end
  end.

Definition read_substream : M client (RpcException + option AnnotatedBatch) :=
  contents ← on_c_wire read_ipc_stream;
  match contents with
  | None => raise (EOther (str "transport closed before RPC response schema"))
  | Some (_, batches) => substream_data batches None
  end.

(** The scope of a [CallReservation] that is not transferred. *)
Definition reserved {A} (m : M client A) : M client A :=
  reserve_call;;
  ((fun c => let '(r, c) := m c in (r, (release_call c).2)) : M client A).

(** [catch (const RpcException&) { throw; } catch (...) { abort_transport(); throw; }]. *)
Definition or_abort {A} (m : M client A) : M client A := try_catch m (fun e => abort_transport;; raise e).

Definition send_params (params : RecordBatch) (md : kv_list) : M client unit :=
  on_c_wire (write_ipc_stream (schema params) [with_metadata params md]).

Definition call_with (params : RecordBatch) (md : kv_list) : M client (RpcException + AnnotatedBatch) :=
  reserved (or_abort
    (send_params params md;;
     response ← read_substream;
     match response with
     | inl e => mret (inl e)
     | inr None => raise (EOther (str "RPC response contains no data batch"))
     | inr (Some ab) => mret (inr ab)
     end)).

Definition call_unary (method : bytes) (params : RecordBatch) (md : metadata) (random_id : bytes)
    : M client (RpcException + AnnotatedBatch) :=
  c ← get;
  request_md ← lift (request_metadata method (opt_protocol options) (opt_protocol_version options) md
                       (c_shm c) random_id);
  call_with params request_md.

Definition call_reflection (method : bytes) (params : RecordBatch) (random_id : bytes)
    : M client (RpcException + AnnotatedBatch) :=
  c ← get;
  request_md ← lift (request_metadata method kReflectionProtocolName [] None (c_shm c) random_id);
  call_with params request_md.

Definition transport_options (random_id : bytes) : M client (RpcException + (bool * kv_list)) :=
  params ← lift (make_empty_batch empty_schema);
  response ← call_unary TRANSPORT_OPTIONS_METHOD_NAME params None random_id;
  mret (match response with
        | inl e => inl e
        | inr ab => inr (bool_decide (get_metadata_value (custom_metadata ab) TRANSPORT_SHM [] = str "true"),
                         copy_metadata (custom_metadata ab))
        end).

(** [name] is the random text of the segment's name. *)
Definition enable_shared_memory (posix : bytes -> PosixShm) (shm_available : bool) (bytes_ : Z)
    (random_id name : bytes) : M client (RpcException + bool) :=
  c ← get;
  if bytes_ <=? kShmHeaderSize then
    raise (EInvalidArgument (str "shared-memory segment must be larger than its allocator header"))
  else if bool_decide (is_Some (c_shm c)) then mret (inr true)
  else if negb shm_available then mret (inr false)
  else
    options_ ← transport_options random_id;
    match options_ with
    | inl e => mret (inl e)
    | inr (false, _) => mret (inr false)
    | inr (true, _) =>
        match create posix (str "vgi_rpc_" ++ name) bytes_ with
        | None => raise (EOther (str "cannot create POSIX shared-memory segment"))
        | Some seg => modify (fun c => set_c_shm c (Some seg));; mret (inr true)
        end
    end.

Definition close_client : M client unit :=
  c ← get;
  if c_active c then raise (ELogicError (str "cannot close RPC client while a stream is active"))
  else if c_closed c then mret tt
  else put (Build_RpcClient (c_wire c) (c_exchange c) None false (c_active c) true).

(** ** Streams *)

Definition set_cs_client (s : stream) (c : client) : stream :=
  Build_ClientStream c (cs_kind s) (cs_header s) (cs_input_schema s) (cs_writing s) (cs_reading s)
    (cs_cancelled s) (cs_finished s) (cs_closed s) (cs_released s).
Definition set_cs_writer (s : stream) (x : Schema) : stream :=
  Build_ClientStream (cs_client s) (cs_kind s) (cs_header s) (Some x) true (cs_reading s)
    (cs_cancelled s) (cs_finished s) (cs_closed s) (cs_released s).
Definition set_cs_reading (s : stream) : stream :=
  Build_ClientStream (cs_client s) (cs_kind s) (cs_header s) (cs_input_schema s) (cs_writing s) true
    (cs_cancelled s) (cs_finished s) (cs_closed s) (cs_released s).
Definition set_cs_cancelled (s : stream) : stream :=
  Build_ClientStream (cs_client s) (cs_kind s) (cs_header s) (cs_input_schema s) (cs_writing s)
    (cs_reading s) true (cs_finished s) (cs_closed s) (cs_released s).
Definition set_cs_finished (s : stream) : stream :=
  Build_ClientStream (cs_client s) (cs_kind s) (cs_header s) (cs_input_schema s) (cs_writing s)
    (cs_reading s) (cs_cancelled s) true (cs_closed s) (cs_released s).
Definition set_cs_closed (s : stream) : stream :=
  Build_ClientStream (cs_client s) (cs_kind s) (cs_header s) (cs_input_schema s) (cs_writing s)
    (cs_reading s) (cs_cancelled s) (cs_finished s) true (cs_released s).
Definition set_cs_released (s : stream) : stream :=
  Build_ClientStream (cs_client s) (cs_kind s) (cs_header s) (cs_input_schema s) (cs_writing s)
    (cs_reading s) (cs_cancelled s) (cs_finished s) (cs_closed s) true.

Definition on_client {A} (m : M client A) : M stream A := zoom cs_client set_cs_client m.
Definition on_s_wire {A} (m : M wire A) : M stream A := on_client (on_c_wire m).

Definition other_schema : exception :=
  EInvalidArgument (str "all exchange inputs in one stream must use the same Arrow schema").

Definition ensure_input_writer (s : Schema) : M stream unit :=
  st ← get;
  if cs_writing st then
    match cs_input_schema st with
    | Some input_schema => if schema_equal_metadata input_schema s then mret tt else raise other_schema
    | None => mret tt
    end
  else
    opened ← on_s_wire (MakeStreamWriter s);
    if negb opened then raise (EOther (str "cannot open stream input writer: " ++ stream_writer_error s))
    else modify (fun st => set_cs_writer st s).

Definition ensure_output_reader : M stream unit :=
  st ← get;
  if cs_reading st then mret tt
  else
    opened ← on_s_wire open_reader;
    match opened with
    | OpenOk _ => modify set_cs_reading
    | status => raise (EOther (str "cannot open stream output reader: " ++ open_error_text status))
    end.

(** The connection is lost, and with it the stream. *)
Definition lose_stream : M stream unit :=
  modify (fun st => set_cs_released (set_cs_closed st));;
  on_client abort_transport.

Definition or_lose {A} (m : M stream A) : M stream A := try_catch m (fun e => lose_stream;; raise e).

(** [while (true)]: every round takes a message. *)
Fixpoint next_data (fuel : nat) : M stream (RpcException + option AnnotatedBatch) :=
  match fuel with
  | O => mret (inr None)
  | S fuel' =>
      next ← on_s_wire read_next;
      match next with
      | NextError what => raise (EOther (str "cannot read stream response: " ++ what))
      | NextEnd => modify set_cs_finished;; mret (inr None)
      | NextBatch b md =>
          let response := {| ab_batch := b; custom_metadata := md |} in
          match ab_type response with
          | LOG => on_client (dispatch_client_log response);; next_data fuel'
          | EXCEPTION =>
              modify set_cs_finished;;
              on_s_wire drain_reader;;
              mret (inl (remote_exception response))
          | DATA | SHM_POINTER | EXTERNAL_POINTER =>
              data ← on_client (resolve_data response);
              mret (inr (Some data))
          | STATE_TOKEN => on_client (resolve_data response);; next_data fuel'
          end
      end
  end.

Definition read_next_data : M stream (RpcException + option AnnotatedBatch) :=
  or_lose
    (ensure_output_reader;;
     st ← get;
     next_data (S (length (input (c_wire (cs_client st)))))).

Definition require_step_allowed (expected : ClientStreamKind) (operation : bytes) : M stream unit :=
  st ← get;
  if negb (bool_decide (cs_kind st = expected)) then
    raise (ELogicError (operation ++ str " on wrong stream kind"))
  else if cs_cancelled st || cs_closed st then
    raise (ELogicError (operation ++ str " after stream close"))
  else mret tt.

Definition release : M stream unit :=
  st ← get;
  if cs_released st then mret tt
  else modify set_cs_released;; on_client release_call.

(** Metadata is sent without the transport's controls, and absent when nothing is left. *)
Definition tick_metadata (md : metadata) : metadata :=
  match strip_transport_controls (copy_metadata md) with [] => None | kvs => Some kvs end.

Definition tick (md : metadata) : M stream (RpcException + option AnnotatedBatch) :=
  require_step_allowed PRODUCER_STREAM (str "tick");;
  st ← get;
  if cs_finished st then mret (inr None)
  else
    or_lose
      (ensure_input_writer empty_schema;;
       empty ← lift (make_empty_batch empty_schema);
       on_s_wire (WriteRecordBatch empty (tick_metadata md)));;
    read_next_data.

(** What an input is sent as, and the region it takes.  [env] is
    [VGI_RPC_SHM_MIN_BATCH_BYTES]. *)
Definition outbound_batch (env : option bytes) (b : RecordBatch) (md : metadata)
    : M stream (RecordBatch * metadata * Z) :=
  st ← get;
  match c_shm (cs_client st) with
  | Some seg =>
      '(sent, sent_md, seg) ←
        lift (maybe_write_to_shm env (Some b) (Some (Some (strip_transport_controls (copy_metadata md)))) (Some seg));
      on_client (modify (fun c => set_c_shm c seg));;
      let sent_md := default None sent_md in
      let offset := get_metadata_value sent_md SHM_OFFSET [] in
      mret (default b sent, sent_md,
            match stoll offset with Some (offset, _) => offset | None => -1 end)
  | None => mret (b, strip_transport_controls <$> md, -1)
  end.

Definition free_outbound (offset : Z) : M stream unit := on_client (modify (fun c =>
  if 0 <=? offset then set_c_shm c (option_map (fun seg => free_alloc seg offset) (c_shm c)) else c)).

Definition exchange (env : option bytes) (b : RecordBatch) (md : metadata)
    : M stream (RpcException + option AnnotatedBatch) :=
  require_step_allowed EXCHANGE_STREAM (str "exchange");;
  st ← get;
  if cs_finished st then mret (inr None)
  else if match cs_input_schema st with Some s => negb (schema_equal_metadata s (schema b)) | None => false end then
    raise other_schema
  else
    or_lose
      (ensure_input_writer (schema b);;
       '(sent, sent_md, offset) ← outbound_batch env b md;
       try_catch (on_s_wire (WriteRecordBatch sent sent_md)) (fun e => free_outbound offset;; raise e));;
    read_next_data.

Definition send_cancel : M stream unit :=
  st ← get;
  let s := default empty_schema (cs_input_schema st) in
  ensure_input_writer s;;
  empty ← lift (make_empty_batch s);
  on_s_wire (WriteRecordBatch empty (Some (Append [] CANCEL (str "1")))).

(** The rest of the output: the first exception in it is kept. *)
Fixpoint drain_batches (fuel : nat) (pending : option RpcException) : M stream (option RpcException) :=
  match fuel with
  | O => mret pending
  | S fuel' =>
      next ← on_s_wire read_next;
      match next with
      | NextError what => raise (EOther (str "cannot drain stream response: " ++ what))
      | NextEnd => mret pending
      | NextBatch b md =>
          let response := {| ab_batch := b; custom_metadata := md |} in
          match ab_type response with
          | LOG => on_client (dispatch_client_log response);; drain_batches fuel' pending
          | EXCEPTION => drain_batches fuel' (match pending with Some _ => pending | None => Some (remote_exception response) end)
          | SHM_POINTER => on_client (resolve_data response);; drain_batches fuel' pending
          | _ => drain_batches fuel' pending
          end
      end
  end.

Definition drain_output : M stream (option RpcException) :=
  ensure_output_reader;;
  st ← get;
  pending ← drain_batches (S (length (input (c_wire (cs_client st))))) None;
  modify set_cs_finished;;
  mret pending.

Definition close_writer : M stream unit :=
  st ← get;
  (if cs_writing st then mret tt else ensure_input_writer empty_schema);;
  on_s_wire Close.

(** An exception of the peer is caught with the others. *)
Definition or_lose_pending (m : M stream (option RpcException)) : M stream (option RpcException) :=
  pending ← or_lose m;
  match pending with
  | Some e => lose_stream;; mret (Some e)
  | None => mret None
  end.

Definition cancel : M stream (option RpcException) :=
  st ← get;
  if cs_cancelled st || cs_closed st then modify set_cs_cancelled;; release;; mret None
  else if cs_finished st then
    modify (fun st => set_cs_closed (set_cs_cancelled st));;
    or_lose (close_writer;; release);;
    mret None
  else
    let always_cancelled (m : M stream (option RpcException)) : M stream (option RpcException) :=
      fun st => let '(r, st) := m st in (r, set_cs_cancelled st) in
    always_cancelled (or_lose_pending
      (send_cancel;;
       modify set_cs_cancelled;;
       pending ← drain_output;
       match pending with
       | Some e => mret (Some e)
       | None =>
           on_s_wire Close;;
           modify set_cs_closed;;
           release;;
           mret None
       end)).

Definition close : M stream (option RpcException) :=
  st ← get;
  if cs_closed st then release;; mret None
  else
    modify set_cs_closed;;
    or_lose_pending
      (close_writer;;
       pending ← drain_output;
       match pending with
       | Some e => mret (Some e)
       | None => release;; mret None
       end).

(** [~Impl]: the client that is left. *)
Definition destroy (st : stream) : client :=
  if cs_closed st then cs_client st else (abort_transport (cs_client st)).2.

(** ** Opening a stream *)

(** [input_writer->Close()] of an empty stream. *)
Definition empty_input : M client unit :=
  opened ← on_c_wire (MakeStreamWriter empty_schema);
  if negb opened then raise (EOther (stream_writer_error empty_schema)) else on_c_wire Close.

Definition read_header (has_header : bool) : M client (RpcException + option AnnotatedBatch) :=
  if has_header then
    header ← or_abort
      (r ← read_substream;
       match r with
       | inr None => raise (EOther (str "stream response contains no declared header"))
       | r => mret r
       end);
    match header with
    | inl e => try_catch empty_input (fun _ => abort_transport);; mret (inl e)
    | inr header => mret (inr header)
    end
  else mret (inr None).

Definition new_stream (kind : ClientStreamKind) (header : option AnnotatedBatch) (c : client) : stream :=
  Build_ClientStream c kind header None false false false false false false.

(** The reservation passes to the stream. *)
Definition open_stream (method : bytes) (params : RecordBatch) (has_header : bool) (md : metadata)
    (kind : ClientStreamKind) (random_id : bytes) : M client (RpcException + stream) :=
  c ← get;
  request_md ← lift (request_metadata method (opt_protocol options) (opt_protocol_version options) md
                       (c_shm c) random_id);
  reserve_call;;
  ((fun c =>
    match (or_abort (send_params params request_md);; read_header has_header) c with
    | (Done (inr header), c) => (Done (inr (new_stream kind header c)), c)
    | (Done (inl e), c) => (Done (inl e), (release_call c).2)
    | (Raised e, c) => (Raised e, (release_call c).2)
    end) : M client (RpcException + stream)).
End client.
