(* ===== verification/ClientCalls.v ===== *)
(** * A client against the server

    What a client sends and how it reads what the server of [Dispatch] answers: the
    metadata of a request, the logs and the error of a response, a unary call from
    its caller to the handler and back. *)

From S2P Require Import Prelude Memory Arrow Json Crypto Grants Errors Shm ShmPointer.
From S2P Require Import IdentityInternal ProxyProtocol Wire Calls ExternalUrl ClientExternal ProtocolHash Reflection Server Dispatch.
From S2P Require Import Demo Serving Requests Client.

(** ** The metadata of a request *)

Section metadata.
Context `{KeyValueMetadataLaws}.

Abbreviation outside keys := (filter (fun kv : bytes * bytes => kv.1 ∉ (keys : list bytes))).

Lemma remove_metadata_filter md key :
  remove_metadata md key = filter (fun kv : bytes * bytes => kv.1 <> key) md.
Proof. by apply delete_key_filter. Qed.

Lemma strip_outside md : strip_transport_controls md = outside transport_controls md.
Proof.
  unfold strip_transport_controls. generalize transport_controls. intros keys. revert md.
  induction keys as [|key keys IH]; intros md; cbn [foldl].
  - symmetry. apply filter_all, Forall_forall. intros kv _ Hin. by apply not_elem_of_nil in Hin.
  - rewrite IH, remove_metadata_filter, list_filter_filter. apply list_filter_iff. intros kv.
    rewrite not_elem_of_cons. tauto.
Qed.

Lemma outside_twice keys keys' (md : kv_list) : outside keys (outside keys' md) = outside (keys' ++ keys) md.
Proof. rewrite list_filter_filter. apply list_filter_iff. intros kv. rewrite not_elem_of_app. tauto. Qed.

(** Entries put one after another, with keys of their own. *)
Lemma replace_all es md :
  NoDup es.*1 -> foldl (fun md kv => replace_metadata md kv.1 kv.2) md es = outside es.*1 md ++ es.
Proof.
  revert md; induction es as [|[k v] es IH]; intros md Hnd; cbn [foldl fst snd].
  - rewrite app_nil_r. symmetry. apply filter_all, Forall_forall. intros kv _ Hin. by apply not_elem_of_nil in Hin.
  - rewrite fmap_cons in Hnd. apply NoDup_cons in Hnd as [Hk Hnd]. cbn [fst] in Hk.
    rewrite IH by done. unfold replace_metadata, Append.
    rewrite filter_app, (filter_cons_True _ (k, v)) by done. rewrite filter_nil, <- app_assoc. cbn [app].
    f_equal. rewrite remove_metadata_filter, list_filter_filter. apply list_filter_iff. intros kv.
    rewrite fmap_cons, not_elem_of_cons. cbn [fst]. tauto.
Qed.

(** What the client itself says in a request. *)
Definition framework_entries (method protocol protocol_version : bytes) (shm : option ShmSegment) (random_id : bytes)
    : kv_list :=
  [(METHOD, method)] ++ (if is_reserved_method method then [] else [(PROTOCOL, protocol)])
  ++ [(REQUEST_VERSION, REQUEST_VERSION_VALUE); (REQUEST_ID, random_id)]
  ++ match protocol_version with [] => [] | v => [(PROTOCOL_VERSION, v)] end
  ++ match shm with
     | Some seg => [(SHM_SEGMENT_NAME, wire_name (name_ seg)); (SHM_SEGMENT_SIZE, to_string (size_ seg))]
     | None => []
     end.

Lemma framework_entries_NoDup method protocol protocol_version shm random_id :
  NoDup (framework_entries method protocol protocol_version shm random_id).*1.
Proof.
  unfold framework_entries. destruct (is_reserved_method method), protocol_version, shm;
    refine (bool_decide_unpack _ _); vm_compute; exact I.
Qed.

(** The keys a caller's own metadata may not have. *)
Definition caller_entries (es : kv_list) (extras : metadata) : kv_list :=
  outside (transport_controls ++ es.*1) (default [] extras).

Lemma request_metadata_spec method protocol protocol_version extras shm random_id :
  request_metadata method protocol protocol_version extras shm random_id =
  if bool_decide (method = []) then Throw (InvalidArgument (str "RPC method must not be empty"))
  else if bool_decide (protocol = []) && negb (is_reserved_method method) then
    Throw (InvalidArgument (no_protocol method))
  else let es := framework_entries method protocol protocol_version shm random_id in
    Ok (caller_entries es extras ++ es).
Proof.
  unfold request_metadata, throw_if. destruct (bool_decide (method = [])); [done|]. cbn [mbind res_bind].
  destruct (_ && _); [done|]. cbn [mbind res_bind]. cbv zeta.
  pose proof (replace_all _ (strip_transport_controls (copy_metadata extras))
    (framework_entries_NoDup method protocol protocol_version shm random_id)) as Hall.
  rewrite strip_outside, outside_twice in Hall. unfold caller_entries. unfold copy_metadata in *.
  rewrite strip_outside, <- Hall. unfold framework_entries.
  by destruct (is_reserved_method method), protocol_version, shm.
Qed.

(** What a reader finds in it. *)
Lemma entry_found es md key value :
  NoDup es.*1 -> (key, value) ∈ es -> key ∉ md.*1 -> find_value (md ++ es) key = Some value.
Proof.
  intros Hnd Hin Hmd. unfold find_value. destruct (Z.ltb_spec (FindKey (md ++ es) key) 0) as [Hn|Hn].
  - apply FindKey_absent in Hn. exfalso. apply Hn. rewrite fmap_app. apply elem_of_app. right.
    apply list_elem_of_fmap. by exists (key, value).
  - destruct (FindKey_present _ key Hn) as [v Hv]. rewrite (list_lookup_total_correct _ _ _ Hv). cbn [snd].
    apply list_elem_of_lookup_2, elem_of_app in Hv as [Hv|Hv].
    + exfalso. apply Hmd. apply list_elem_of_fmap. by exists (key, v).
    + pose proof (assoc_some _ _ _ Hnd Hin). pose proof (assoc_some _ _ _ Hnd Hv). congruence.
Qed.

Lemma entry_absent es md key : key ∉ es.*1 -> key ∉ md.*1 -> FindKey (md ++ es) key < 0.
Proof. intros He Hmd. apply FindKey_absent. rewrite fmap_app, elem_of_app. tauto. Qed.

Lemma caller_entries_outside es extras key :
  key ∈ transport_controls \/ key ∈ es.*1 -> key ∉ (caller_entries es extras).*1.
Proof.
  intros Hk ([k v] & -> & Hin)%list_elem_of_fmap. apply list_elem_of_filter in Hin as [Hn _]. cbn [fst] in *.
  apply Hn. by apply elem_of_app.
Qed.

Lemma request_entries method protocol protocol_version extras shm random_id md :
  request_metadata method protocol protocol_version extras shm random_id = Ok md ->
  let es := framework_entries method protocol protocol_version shm random_id in
  md = caller_entries es extras ++ es /\
  (forall key value, (key, value) ∈ es -> find_value md key = Some value) /\
  (forall key, key ∈ transport_controls -> key ∉ es.*1 -> FindKey md key < 0).
Proof.
  rewrite request_metadata_spec. destruct (bool_decide (method = [])); [done|]. destruct (_ && _); [done|].
  cbv zeta. intros [= <-]. split; [done|]. split.
  - intros key value Hin. apply entry_found; [apply framework_entries_NoDup|done|]. apply caller_entries_outside.
    right. apply list_elem_of_fmap. by exists (key, value).
  - intros key Hk Hn. apply entry_absent; [done|]. apply caller_entries_outside. by left.
Qed.
End metadata.

(** ** Reading a response *)

(** The entry a sink writes for a message. *)
Definition log_entry `{JsonText} (server_id request_id : bytes) (m : Message) : kv_list :=
  id_md server_id request_id
    (append_if (negb (json_is_empty (msg_extra m))) (log_md (msg_level m) (msg_message m))
       LOG_EXTRA (json_dump_replace (msg_extra m))).

Lemma emit_all_entries `{JsonText} sink ms :
  buffered_ (emit_all sink ms) = buffered_ sink ++ map (log_entry (ls_server_id sink) (ls_request_id sink)) ms.
Proof.
  revert sink; induction ms as [|m ms IH]; intros sink; cbn [emit_all foldl map]; [by rewrite app_nil_r|].
  unfold emit_all in IH. rewrite IH. unfold LogSink_emit. cbn [buffered_ ls_server_id ls_request_id].
  by rewrite <- app_assoc.
Qed.

Section reading.
Context {arrow : Arrow} {streams : ArrowStreams} {kvm : KeyValueMetadata} {J : JsonText} {texts : ClientTexts}
  {kvlaws : KeyValueMetadataLaws} {jlaws : JsonTextLaws} {jtotal : JsonTextTotal}.

(** A message as the client's log handler gets it: an extra that is an empty document
    arrives as an empty object. *)
Definition received_as (m m' : Message) : Prop :=
  msg_level m' = msg_level m /\ msg_message m' = msg_message m /\
  if json_is_empty (msg_extra m) then msg_extra m' = JObject []
  else parse_text (json_dump_replace (msg_extra m)) = Some (msg_extra m').

Lemma classify_level b md level text :
  num_rows b = 0 -> find_value md LOG_LEVEL = Some level -> find_value md LOG_MESSAGE = Some text ->
  classify_batch (Some b) (Some md) = if bool_decide (level = str "EXCEPTION") then EXCEPTION else LOG.
Proof.
  intros Hb Hl Ht. unfold classify_batch. rewrite Hb. cbn [Z.ltb Z.compare]. unfold find_value in Hl, Ht. cbv zeta.
  destruct (Z.ltb_spec (FindKey md LOG_LEVEL) 0); [done|]. destruct (Z.ltb_spec (FindKey md LOG_MESSAGE) 0); [done|].
  injection Hl as <-. by rewrite !(proj2 (Z.leb_le _ _)) by done.
Qed.

Lemma log_entry_NoDup sid rid m : NoDup (log_entry sid rid m).*1.
Proof.
  unfold log_entry, id_md, append_if, log_md, Append.
  destruct (json_is_empty _), (nonempty sid), (nonempty rid); refine (bool_decide_unpack _ _); vm_compute; exact I.
Qed.

Lemma log_entry_values sid rid m :
  find_value (log_entry sid rid m) LOG_LEVEL = Some (log_level_to_string (msg_level m)) /\
  find_value (log_entry sid rid m) LOG_MESSAGE = Some (msg_message m) /\
  find_value (log_entry sid rid m) LOG_EXTRA =
    (if json_is_empty (msg_extra m) then None else Some (json_dump_replace (msg_extra m))).
Proof.
  rewrite !find_value_assoc by apply log_entry_NoDup. unfold log_entry, id_md, append_if, log_md, Append.
  by destruct (json_is_empty _), (nonempty sid), (nonempty rid).
Qed.

Lemma log_level_roundtrip level : log_level_from_string (log_level_to_string level) = Ok level.
Proof. by destruct level. Qed.

Lemma log_entry_log sid rid m b :
  num_rows b = 0 -> msg_level m <> LEVEL_EXCEPTION -> ab_type (with_metadata b (log_entry sid rid m)) = LOG.
Proof.
  intros Hb Hm. destruct (log_entry_values sid rid m) as (El & Et & _).
  unfold ab_type. cbn [ab_batch custom_metadata with_metadata].
  rewrite (classify_level b _ _ _ Hb El Et). by destruct (msg_level m).
Qed.

Lemma log_entry_read sid rid m b :
  exists m', log_message (with_metadata b (log_entry sid rid m)) = Ok m' /\ received_as m m'.
Proof.
  destruct (log_entry_values sid rid m) as (El & Et & Ex).
  unfold log_message. cbn [custom_metadata with_metadata]. rewrite !get_metadata_value_find, El, Et, Ex.
  cbn [from_option id]. rewrite log_level_roundtrip. cbn [mbind res_bind].
  unfold received_as. destruct (json_is_empty (msg_extra m)); cbn [from_option id].
  - by eexists.
  - destruct (replace_parses (msg_extra m)) as [v Hv].
    destruct (json_dump_replace (msg_extra m)) as [|c t] eqn:E; [by rewrite parse_empty in Hv|].
    rewrite Hv. cbn [mbind res_bind]. by eexists.
Qed.

(** A message of the level of an exception is one to the client. *)
Lemma log_entry_exception sid rid m b :
  num_rows b = 0 -> msg_level m = LEVEL_EXCEPTION ->
  ab_type (with_metadata b (log_entry sid rid m)) = EXCEPTION /\
  rx_message (remote_exception (with_metadata b (log_entry sid rid m))) = msg_message m.
Proof.
  intros Hb Hm. destruct (log_entry_values sid rid m) as (El & Et & _). split.
  - unfold ab_type. cbn [ab_batch custom_metadata with_metadata]. rewrite (classify_level b _ _ _ Hb El Et), Hm. done.
  - unfold remote_exception. cbn [custom_metadata with_metadata rx_message]. by rewrite get_metadata_value_find, Et.
Qed.

(** The messages a client hands to its handler, and the one it takes for an exception. *)
Fixpoint heard (logs : list Message) : list Message * option Message :=
  match logs with
  | [] => ([], None)
  | m :: logs' =>
      match msg_level m with LEVEL_EXCEPTION => ([], Some m) | _ => (m :: (heard logs').1, (heard logs').2) end
  end.

Lemma heard_parts logs :
  Forall (fun m => msg_level m <> LEVEL_EXCEPTION) (heard logs).1 /\
  match (heard logs).2 with
  | None => logs = (heard logs).1
  | Some m => msg_level m = LEVEL_EXCEPTION /\ exists after, logs = (heard logs).1 ++ m :: after
  end.
Proof.
  induction logs as [|m logs [IH1 IH2]]; [done|].
  assert (msg_level m = LEVEL_EXCEPTION \/ msg_level m <> LEVEL_EXCEPTION) as [Hm|Hm] by (destruct (msg_level m); auto).
  - cbn [heard]. rewrite Hm. split; [done|]. split; [done|]. by exists logs.
  - assert (heard (m :: logs) = (m :: (heard logs).1, (heard logs).2)) as -> by (cbn [heard]; by destruct (msg_level m)).
    cbn [fst snd]. split; [by constructor|]. destruct (heard logs).2.
    + destruct IH2 as [? [after E]]. split; [done|]. exists after. cbn [app]. by f_equal.
    + by f_equal.
Qed.

(** What the client makes of the error a server writes: the texts as they can be
    written, the code, the details that pass the rules, and who answered. *)
Definition remote_error (scope : option TracebackScope) (type message server_id request_id kind : bytes)
    (extras : ErrorExtras) (rx : RpcException) : Prop :=
  wire_safe_text type = Ok (rx_exception_type rx) /\ wire_safe_text message = Ok (rx_message rx) /\
  wire_safe_text kind = Ok (rs_error_kind (rx_status rx)) /\
  RemoteStatus_code (rx_status rx) =
    (if nonempty (ee_code extras) then parse_code (ee_code extras) else default_error_code type kind) /\
  rs_error_details (rx_status rx) =
    match encode_error_details (ee_details extras) with Some _ => ee_details extras | None => JArray [] end /\
  (let traceback := synthesized_traceback scope type message (ee_traceback extras) in
   if nonempty traceback then wire_safe_text traceback = Ok (rs_traceback (rx_status rx))
   else rs_traceback (rx_status rx) = []) /\
  rx_server_id rx = server_id /\ rx_request_id rx = request_id.

Lemma error_read scope type message sid rid kind extras b md :
  canonical_json (ee_details extras) -> num_rows b = 0 ->
  make_error_metadata scope type message sid rid kind extras = Ok md ->
  ab_type (with_metadata b md) = EXCEPTION /\
  remote_error scope type message sid rid kind extras (remote_exception (with_metadata b md)).
Proof.
  intros Hc Hb E.
  destruct (make_error_metadata_parts _ _ _ _ _ _ _ _ E) as (st & sm & sk & stb & txt & E1 & E2 & E3 & E4 & Ed & ->).
  destruct (error_extra_parses st sm sk stb type kind extras txt Hc Ed) as (Hp & Ht & Hf).
  pose proof (error_status_decoded st sm sk stb txt sid rid type kind extras _ Hc E4) as (_ & H1 & H2 & H3 & H4).
  split.
  { unfold ab_type. cbn [ab_batch custom_metadata with_metadata].
    by rewrite (classify_level b _ _ _ Hb (error_md_level _ _ _ _ _ _ _) (error_md_message _ _ _ _ _ _ _)). }
  unfold remote_exception. cbn [custom_metadata with_metadata].
  set (md := error_md _ _ _ _ _ _ _) in *.
  assert (extra_object (Some md) = extra_of st sm sk stb type kind extras) as ->.
  { unfold extra_object. rewrite get_metadata_value_find. unfold md. rewrite error_md_extra. cbn [from_option id].
    destruct txt; [done|]. by rewrite Hp. }
  destruct (error_md_ids sm txt sid rid (error_code_text type kind extras) sk
    (encode_error_details (ee_details extras))) as [Hs Hr]. fold md in Hs, Hr.
  unfold remote_error. cbn [rx_exception_type rx_message rx_status rx_server_id rx_request_id].
  rewrite Hf, !get_metadata_value_find, Hs, Hr. unfold md at 1. rewrite error_md_message. cbn [from_option id].
  split; [done|]. split; [done|]. split; [rewrite E3; by f_equal|]. split; [done|]. split; [done|]. split; [done|].
  by destruct sid, rid.
Qed.
End reading.

(** ** A call *)

Section calling.
Context {arrow : Arrow} {streams : ArrowStreams} {kvm : KeyValueMetadata} {buffers : BufferStreams}
  {J : JsonText} {D : Digests} {pton : InetPton} {ntop : InetNtop} {network : Network} {zstd : Zstd}
  {texts : ClientTexts} {alaws : ArrowLaws} {slaws : ArrowStreamsLaws} {total : ArrowTotal}
  {kvlaws : KeyValueMetadataLaws} {jlaws : JsonTextLaws} {jtotal : JsonTextTotal} {App : Type}
  (options : RpcClientOptions App).

Abbreviation client := (RpcClient App).

Definition log_to (m : Message) : M App unit :=
  match opt_on_log options with None => mret tt | Some on_log => on_log m end.

Fixpoint deliver (ms : list Message) : M App unit :=
  match ms with [] => mret tt | m :: ms' => log_to m;; deliver ms' end.

(** The log handler does not throw. *)
Definition logs_taken : Prop := forall m a, exists a', log_to m a = (Done tt, a').

Definition with_app (c : client) (a : App) : client := set_c_exchange c (set_ex_app (c_exchange c) a).

Definition app_of (c : client) : App := ex_app (c_exchange c).

Lemma dispatch_client_log_done ab m c a :
  log_message ab = Ok m -> log_to m (app_of c) = (Done tt, a) ->
  dispatch_client_log options ab c = (Done tt, with_app c a).
Proof.
  unfold log_to, app_of, dispatch_client_log, on_exchange, zoom, dispatch_log. intros Em Ea.
  destruct (opt_on_log options) as [on_log|].
  - rewrite Em. cbn [lift]. rewrite (bind_done _ _ _ m (ex_app (c_exchange c))) by done. by rewrite Ea.
  - by injection Ea as ->.
Qed.

(** The logs before the answer go to the handler, in order. *)
Lemma substream_logs logs sid rid empty after found (c : client) :
  logs_taken -> num_rows empty = 0 -> Forall (fun m => msg_level m <> LEVEL_EXCEPTION) logs ->
  exists received a, Forall2 received_as logs received /\ deliver received (app_of c) = (Done tt, a) /\
    substream_data options (map (with_metadata empty) (map (log_entry sid rid) logs) ++ after) found c =
    substream_data options after found (with_app c a).
Proof.
  intros Ht He Hall. revert c. induction Hall as [|m logs Hm _ IH]; intros c.
  { exists [], (app_of c). split; [constructor|]. split; [done|]. by destruct c as [w [] shm o a cl]. }
  destruct (log_entry_read sid rid m empty) as (m' & Em & Hr).
  destruct (Ht m' (app_of c)) as [a1 Ea].
  destruct (IH (with_app c a1)) as (received & a & Hrs & Ed & E).
  exists (m' :: received), a. split; [by constructor|]. split.
  { cbn [deliver]. rewrite (bind_done _ _ _ _ _ Ea). exact Ed. }
  cbn [map app substream_data]. rewrite log_entry_log by done.
  rewrite (bind_done _ _ _ _ _ (dispatch_client_log_done _ _ _ _ Em Ea)). exact E.
Qed.

Definition idle (c : client) : Prop := c_closed c = false /\ c_open c = true /\ c_active c = false.

(** The client after a call whose answer it has taken. *)
Definition called (c : client) (request rest : list message) (active : bool) : client :=
  Build_RpcClient (wire_after (c_wire c) request rest) (c_exchange c) (c_shm c) true active false.

Definition one_answer (answer : RpcException + AnnotatedBatch) : RpcException + option AnnotatedBatch :=
  match answer with inl e => inl e | inr ab => inr (Some ab) end.

Lemma call_with_reads params md s batches rest answer (c c' : client) :
  idle c -> room (c_wire c) = None -> input (c_wire c) = stream_messages s batches ++ rest ->
  let request := stream_messages (schema params) [with_metadata params md] in
  substream_data options batches None (called c request rest true) = (Done (one_answer answer), c') ->
  call_with options params md c = (Done answer, set_c_active c' false).
Proof.
  intros (Hc & Ho & Ha) Hr Hi request E. unfold call_with, reserved.
  set (c1 := set_c_active c true). rewrite (bind_done reserve_call _ c tt c1); cycle 1.
  { unfold reserve_call. rewrite (bind_done get _ c c c) by done. by rewrite Hc, Ho, Ha. }
  set (c2 := set_c_wire c1 (sent (c_wire c1) request None)).
  assert (send_params params md c1 = (Done tt, c2)) as Es.
  { unfold send_params, on_c_wire, zoom. rewrite (write_ipc_stream_spec (schema params)); [done|done|..].
    - apply writer_total.
    - repeat constructor. apply schema_equal_refl. }
  assert (on_c_wire read_ipc_stream c2 = (Done (Some (s, batches)), called c request rest true)) as Er.
  { unfold on_c_wire, zoom. rewrite (read_ipc_stream_spec s batches rest) by done.
    unfold called, wire_after, c2, c1, with_input, sent, set_c_wire, set_c_active. cbn. by rewrite Hr, Ho, Hc. }
  unfold or_abort, try_catch. rewrite (bind_done _ _ _ _ _ Es).
  rewrite (bind_done (read_substream options) _ c2 (one_answer answer) c').
  - by destruct answer.
  - unfold read_substream. by rewrite (bind_done _ _ _ _ _ Er).
Qed.
End calling.

(** C5: the metadata of a request.  It is refused exactly when it names no method, or no
    protocol where one is needed; otherwise it is what the client itself says (the
    method, its protocol unless the method is reserved, the request version and id,
    the configured version, the segment), preceded by those of the caller's entries that
    are none of these and no control of a transport, in their order: no caller's entry
    hides, repeats or forges one of the client's, or names a segment, a location, a
    cancellation or a stream's state. *)
Theorem request_metadata_owned {kvm : KeyValueMetadata} {kvlaws : KeyValueMetadataLaws}
    method protocol protocol_version extras shm random_id :
  let es := framework_entries method protocol protocol_version shm random_id in
  match request_metadata method protocol protocol_version extras shm random_id with
  | Throw _ => method = [] \/ protocol = [] /\ is_reserved_method method = false
  | Ok md =>
      method <> [] /\ (protocol = [] -> is_reserved_method method = true) /\
      md = filter (fun kv : bytes * bytes => kv.1 ∉ transport_controls ++ es.*1) (default [] extras) ++ es /\
      (forall key value, (key, value) ∈ es -> find_value md key = Some value) /\
      (forall key, key ∈ transport_controls -> key ∉ es.*1 -> find_value md key = None)
  end.
Proof.
  cbv zeta. destruct (request_metadata _ _ _ _ _ _) as [md|e] eqn:E.
  - destruct (request_entries _ _ _ _ _ _ _ E) as (Hmd & Hfind & Habs). rewrite request_metadata_spec in E.
    destruct (bool_decide_reflect (method = [])) as [|Hm]; [done|].
    destruct (bool_decide_reflect (protocol = [])) as [|Hp]; destruct (is_reserved_method method); try done;
      (split; [done|]; split; [done|]; split; [exact Hmd|]; split; [exact Hfind|]);
      intros key Hk Hn; specialize (Habs key Hk Hn); unfold find_value; by rewrite (proj2 (Z.ltb_lt _ _) Habs).
  - rewrite request_metadata_spec in E. destruct (bool_decide_reflect (method = [])); [by left|].
    right. destruct (bool_decide_reflect (protocol = [])), (is_reserved_method method); done.
Qed.

(** ** A call from the client to the handler and back *)

Section end_to_end.
Context {arrow : Arrow} {afields : ArrowFields} {types : ArrowTypes} {streams : ArrowStreams}
  {build_ : ArrowBuild} {kvm : KeyValueMetadata} {buffers : BufferStreams}
  {J : JsonText} {D : Digests} {pton : InetPton} {ntop : InetNtop} {network : Network} {zstd : Zstd}
  {texts : ClientTexts} {Caller App User : Type}
  {identity : IdentityService Caller App} {identity_dispatch : IdentityDispatch Caller App}
  {alaws : ArrowLaws} {slaws : ArrowStreamsLaws} {total : ArrowTotal} {kvlaws : KeyValueMetadataLaws}
  {jlaws : JsonTextLaws} {jtotal : JsonTextTotal}
  (options : RpcClientOptions User).

(** An application request of a client without a segment is a plain one, and says what the
    client was asked. *)
Lemma client_request_plain method extras random_id md :
  request_metadata method (opt_protocol options) (opt_protocol_version options) extras None random_id = Ok md ->
  is_reserved_method method = false ->
  opt_protocol options <> kReflectionProtocolName -> opt_protocol options <> kIdentityProtocolName ->
  plain_request (Some md) /\ get_metadata_value (Some md) METHOD [] = method /\
  get_metadata_value (Some md) PROTOCOL [] = opt_protocol options.
Proof.
  intros E Hres Hrefl Hid. destruct (request_entries _ _ _ _ _ _ _ E) as (_ & Hfind & Habs). clear E.
  set (es := framework_entries _ _ _ _ _) in *.
  assert (find_value md METHOD = Some method) as Hm by (apply Hfind; by left).
  assert (find_value md PROTOCOL = Some (opt_protocol options)) as Hp.
  { apply Hfind. unfold es, framework_entries. rewrite Hres. right. by left. }
  assert ((SHM_OFFSET ∉ es.*1) /\ (SHM_SEGMENT_NAME ∉ es.*1)) as [Ho Hn].
  { unfold es, framework_entries. rewrite Hres.
    destruct (opt_protocol_version options); split; refine (bool_decide_unpack _ _); vm_compute; exact I. }
  unfold plain_request. rewrite !get_metadata_value_find, Hm, Hp. cbn [from_option id].
  split; [|done]. split; [|done]. unfold uses_shm. apply orb_false_iff.
  split; apply Z.leb_gt, Habs; try done; refine (bool_decide_unpack _ _); vm_compute; exact I.
Qed.

Section served.
Context (pf : Platform) (srv : Server Caller App) (target : ServedProtocol Caller App)
  (mi : @MethodInfo arrow Caller App) (method : bytes).

Definition unary_traceback (e : exception) : bytes :=
  traceback_for srv (sp_binding target) (mi_name mi) (exception_type_of e) (ex_what e).

(** A result that is neither published nor written as a control batch, an error with
    details that are JSON. *)
Definition readable (r : outcome Result) : Prop :=
  match r with
  | Done res => external_ref_ res = None /\ ab_type (batch_ res) = DATA
  | Raised e => canonical_json (ee_details (error_extras_of e (unary_traceback e)))
  end.

(** What the caller gets for what the handler did. *)
Definition call_outcome (r : outcome Result) (answer : RpcException + AnnotatedBatch) : Prop :=
  match r, answer with
  | Done res, inr ab => ab = batch_ res
  | Raised e, inl rx =>
      remote_error (Some {| ts_include := include_tracebacks_ srv; ts_where := method_where target method |})
        (exception_type_of e) (ex_what e) (server_id_ srv) (pf_request_id pf) (error_kind_of e)
        (error_extras_of e (unary_traceback e)) rx
  | _, _ => False
  end.

(** The last batch of a unary answer ends the client's reading. *)
Lemma last_read r last :
  readable r ->
  match r with
  | Done res =>
      match external_ref_ res with
      | Some x => pointer_batch x (mi_result_schema mi) = Ok last
      | None => last = batch_ res
      end
  | Raised e => exists b md,
      last = with_metadata b md /\ num_rows b = 0 /\
      make_exception_metadata (Some {| ts_include := include_tracebacks_ srv; ts_where := method_where target method |})
        e (server_id_ srv) (pf_request_id pf) (unary_traceback e) = Ok md
  end ->
  exists answer, (forall c : RpcClient User, substream_data options [last] None c = (Done (one_answer answer), c)) /\
    call_outcome r answer.
Proof.
  destruct r as [res|e]; cbn [readable].
  - intros [Hx Ht] Hl. rewrite Hx in Hl. subst last. exists (inr (batch_ res)). split; [|done]. intros c.
    cbn [substream_data]. rewrite Ht. rewrite (bind_done _ _ c (batch_ res) c) by (unfold resolve_data; by rewrite Ht).
    done.
  - intros Hc (b & md & -> & Hb & Em). unfold make_exception_metadata in Em.
    destruct (error_read _ _ _ _ _ _ _ b md Hc Hb Em) as [Ht Hr].
    exists (inl (remote_exception (with_metadata b md))). split; [|done]. intros c. cbn [substream_data]. by rewrite Ht.
Qed.
End served.

(** The logs of a call and its last batch, as the client reads them. *)
Lemma answer_read pf (srv : Server Caller App) target (mi : @MethodInfo arrow Caller App) method r last logs sid rid
    empty (c : RpcClient User) :
  logs_taken options -> num_rows empty = 0 ->
  (exists answer, (forall c : RpcClient User, substream_data options [last] None c = (Done (one_answer answer), c))
     /\ call_outcome pf srv target mi method r answer) ->
  exists received user answer,
    Forall2 received_as (heard logs).1 received /\ deliver options received (app_of c) = (Done tt, user) /\
    substream_data options (map (with_metadata empty) (map (log_entry sid rid) logs) ++ [last]) None c =
      (Done (one_answer answer), with_app c user) /\
    match (heard logs).2 with
    | None => call_outcome pf srv target mi method r answer
    | Some m => exists rx, answer = inl rx /\ rx_message rx = msg_message m
    end.
Proof.
  intros Htaken Hrows (answer & Eans & Hout). destruct (heard_parts logs) as [Hall Hparts].
  destruct (heard logs) as [before [m|]]; cbn [fst snd] in *.
  - destruct Hparts as [Hm [after ->]]. destruct (log_entry_exception sid rid m empty Hrows Hm) as [Hty Hmsg].
    destruct (substream_logs options before sid rid empty
      (map (with_metadata empty) (map (log_entry sid rid) (m :: after)) ++ [last]) None c Htaken Hrows Hall)
      as (received & user & Hrec & Hdel & E).
    exists received, user, (inl (remote_exception (with_metadata empty (log_entry sid rid m)))).
    split; [done|]. split; [done|]. split; [|by eexists]. rewrite !map_app, <- app_assoc, E. cbn [map app substream_data].
    by rewrite Hty.
  - subst before. destruct (substream_logs options logs sid rid empty [last] None c Htaken Hrows Hall)
      as (received & user & Hrec & Hdel & E).
    exists received, user, answer. split; [done|]. split; [done|]. split; [|done]. by rewrite E, Eans.
Qed.

(** C1: a unary call, from the client through the server and back, over a pipe that does
    not break in either direction and without a shared-memory segment.  What the client
    writes for an application method (its name is not reserved, and its protocol is
    neither reflection nor the identity), the server reads as that request.  When it
    passes the gates and the handler runs, the server writes one stream with which any
    idle client that made the call, and whose log handler does not throw, gets, through
    that handler and in order, the messages the handler logged, and then exactly what the
    handler did: the batch it returned, or an [RpcException] with the type, message, kind,
    code, details and traceback of what it threw and the ids of the server and the
    request.  A message logged at the level EXCEPTION cuts this short: the client takes
    it for an error of the call, with its text, and hands over only the messages before
    it.  Afterwards the connection is where it should be for the next call, and the
    client is idle again, after an error as well.
    This is stated for results of the method's schema that are not published to a storage
    and that the client does not take for a control batch, and for errors whose details
    are JSON that its own text gives back. *)
Theorem unary_call_answered array_length pf (srv : Server Caller App) kind caller method params extras random_id md
    (w : World Caller App) bound app0 next target mi logs r app :
  request_metadata method (opt_protocol options) (opt_protocol_version options) extras None random_id = Ok md ->
  is_reserved_method method = false ->
  opt_protocol options <> kReflectionProtocolName -> opt_protocol options <> kIdentityProtocolName ->
  logs_taken options ->
  room (w_wire w) = None ->
  notify_serve_start srv kind (w_bound w, w_app w) = (Done tt, (bound, app0)) ->
  let request := stream_messages (schema params) [with_metadata params md] in
  input (w_wire w) = request ++ next ->
  gate srv params (Some md) = inr (target, mi) ->
  mi_method_type mi = UNARY -> result_typed mi r ->
  mi_handler mi {| req_batch := params; req_metadata := Some md |} (new_context pf srv kind caller) app0 = (logs, r, app) ->
  readable srv target mi r ->
  exists w' response,
    serve_one_with_state array_length pf srv kind caller w = (Done true, w') /\
    w_wire w' = wire_after (w_wire w) response next /\ w_app w' = app /\
    forall (c : RpcClient User) rest,
      idle c -> c_shm c = None -> room (c_wire c) = None -> input (c_wire c) = response ++ rest ->
      exists received user answer,
        call_unary options method params extras random_id c = (Done answer, with_app (called c request rest false) user) /\
        Forall2 received_as (heard logs).1 received /\ deliver options received (app_of c) = (Done tt, user) /\
        match (heard logs).2 with
        | None => call_outcome pf srv target mi method r answer
        | Some m => exists rx, answer = inl rx /\ rx_message rx = msg_message m
        end.
Proof.
  intros Emd Hres Hrefl Hid Htaken Hr En request Hi Hg Hu Ht Eh Hread.
  destruct (client_request_plain method extras random_id md Emd Hres Hrefl Hid) as (Hp & Hm & _).
  destruct (make_empty_batch_total (mi_result_schema mi)) as [empty Ee].
  destruct (unary_answered array_length pf srv kind caller w bound app0 (schema params) (with_metadata params md) []
    next target mi empty logs r app Hr En Hi Hp Hg Hu Ht Ee Eh) as (w' & last & Es & Hw & Hlast & Ha & _).
  cbn [custom_metadata with_metadata] in Hlast. rewrite Hm in Hlast.
  rewrite emit_all_entries in Hw. cbn [buffered_ new_LogSink ls_server_id ls_request_id Datatypes.app] in Hw.
  exists w'. eexists. split; [exact Es|]. split; [exact Hw|]. split; [exact Ha|].
  intros c rest Hidle Hshm Hroom Hin.
  pose proof (make_empty_batch_ok _ _ Ee) as [Hrows _].
  destruct (answer_read pf srv target mi method r last logs (server_id_ srv) (pf_request_id pf) empty
    (called c request rest true) Htaken Hrows) as (received & user & answer & Hrec & Hdel & Elogs & Hout).
  { by apply last_read. }
  exists received, user, answer. split; [|done].
  unfold call_unary. rewrite (bind_done get _ c c c) by done. rewrite Hshm, Emd.
  rewrite (bind_done (lift (Ok md)) _ c md c) by done.
  by rewrite (call_with_reads options params md _ _ rest answer c _ Hidle Hroom Hin Elogs).
Qed.
End end_to_end.

(** ** Witnesses *)

Import ToyArrow ToyStreams Json.ToyJson ToyTypes ToyBuild ToyIdentity ToyDispatch ToyInet ToyNetwork.

(** Clients of the demo server that keep the messages they are handed. *)
Module ToyClient.
#[export] Instance toy_texts : ClientTexts := {| open_error_text _ := str "no schema"; parse_error_text _ := str "no JSON" |}.

Definition demo_options : RpcClientOptions (list Message) :=
  {| opt_protocol := str "demo.v1"; opt_protocol_version := str "1.2.9";
     opt_on_log := Some (fun m => modify (fun seen => seen ++ [m])); opt_external_http := None |}.

Definition demo_client (i : list message) : RpcClient (list Message) :=
  Build_RpcClient (toy_wire i) {| ex_net := 0%nat; ex_requests := []; ex_app := [] |} None true false false.

Definition demo_md (method : bytes) : kv_list :=
  [(str "k", str "v"); (METHOD, method); (PROTOCOL, str "demo.v1"); (REQUEST_VERSION, REQUEST_VERSION_VALUE);
   (REQUEST_ID, str "id"); (PROTOCOL_VERSION, str "1.2.9")].

(** What a caller adds, with controls it may not set. *)
Definition demo_extras : metadata := Some [(METHOD, str "fail"); (str "k", str "v"); (CANCEL, str "1")].
End ToyClient.
Import ToyClient.

Section witnesses.
#[local] Existing Instances Toy.digests Toy.digest_laws.

Lemma request_metadata_owned_witness :
  exists md, request_metadata (str "echo") (str "demo.v1") (str "1.2.9") demo_extras None (str "id") = Ok md /\
    find_value md METHOD = Some (str "echo") /\ find_value md PROTOCOL = Some (str "demo.v1") /\
    find_value md CANCEL = None.
Proof.
  pose proof (request_metadata_owned (str "echo") (str "demo.v1") (str "1.2.9") demo_extras None (str "id")) as H.
  cbv zeta in H. destruct (request_metadata _ _ _ _ _ _) as [md|e] eqn:E; [|vm_compute in E; discriminate E].
  destruct H as (_ & _ & _ & Hfound & Habsent). exists md. split; [reflexivity|].
  split; [apply Hfound; by left|]. split; [apply Hfound; right; by left|].
  apply Habsent; refine (bool_decide_unpack _ _); vm_compute; exact I.
Defined.

Lemma unary_call_answered_witness :
  exists w' response,
    serve_one_with_state (fun _ => 0) demo_platform demo_server PIPE tt
      (bound_world (stream_messages toy_schema [with_metadata (toy_data_batch [x07]) (demo_md (str "echo"))])) = (Done true, w') /\
    w_wire w' = wire_after (toy_wire []) response [] /\ w_app w' = 1 /\
    exists c', call_unary demo_options (str "echo") (toy_data_batch [x07]) demo_extras (str "id")
        (demo_client (response ++ [MsgEos])) = (Done (inr (data (toy_data_batch [x07]))), c') /\
      map msg_message (app_of c') = [str "echoing"] /\ idle c' /\ input (c_wire c') = [MsgEos].
Proof.
  destruct (unary_call_answered demo_options (fun _ => 0) demo_platform demo_server PIPE tt (str "echo")
    (toy_data_batch [x07]) demo_extras (str "id") (demo_md (str "echo"))
    (bound_world (stream_messages toy_schema [with_metadata (toy_data_batch [x07]) (demo_md (str "echo"))]))
    (Some PIPE) 0 [] demo_target demo_echo [a_message (str "echoing")] (Done (Result_value (toy_data_batch [x07]))) 1)
    as (w' & response & E & Hw & Ha & Hclient);
    [vm_compute; reflexivity|reflexivity|by vm_compute|by vm_compute|intros m a; by eexists|reflexivity|reflexivity|
     reflexivity|vm_compute; reflexivity|reflexivity|intros _; reflexivity|reflexivity|by split|].
  exists w', response. split; [exact E|]. split; [exact Hw|]. split; [exact Ha|].
  destruct (Hclient (demo_client (response ++ [MsgEos])) [MsgEos]) as (received & user & answer & Ec & Hr & Hd & Ho);
    [by split_and!|reflexivity|reflexivity|reflexivity|].
  cbn [heard a_message msg_level snd] in Ho. destruct answer as [rx|ab]; cbn [call_outcome] in Ho; [destruct Ho|subst ab].
  eexists. split; [exact Ec|].
  inversion Hr as [|? m' ? received' (_ & Hm & _) Hrest]; subst. inversion Hrest; subst.
  cbn in Hd. injection Hd as <-.
  split; [cbn; rewrite Hm; reflexivity|]. split; [repeat split|reflexivity].
Defined.
End witnesses.
