(* ===== verification/ClientStreams.v ===== *)
(** * A client's streams

    What every operation of a client and of its stream keeps: at most one call holds
    the connection, a stream holds it until it is closed, and a connection that lost
    its place is never used again.  Then what a producer stream reads from a well-formed
    response, and where it leaves the connection. *)

From stdpp Require Import relations.
From S2P Require Import Prelude Memory Arrow Json Crypto Grants Errors Shm ShmPointer.
From S2P Require Import IdentityInternal ProxyProtocol Wire Calls ExternalUrl ClientExternal ProtocolHash Reflection Server Dispatch.
From S2P Require Import Demo Serving Requests Admission Client ClientCalls.

Section frames.
Context {arrow : Arrow} {streams : ArrowStreams} {kvm : KeyValueMetadata} {buffers : BufferStreams}
  {J : JsonText} {D : Digests} {pton : InetPton} {ntop : InetNtop} {network : Network} {zstd : Zstd}
  {texts : ClientTexts} {App : Type} (options : RpcClientOptions App).

Abbreviation client := (RpcClient App).
Abbreviation stream := (ClientStream App).

(** ** What does not touch the reservation *)

(** The client's flags are as they were. *)
Definition same_call (c c' : client) : Prop :=
  c_open c' = c_open c /\ c_active c' = c_active c /\ c_closed c' = c_closed c.

#[export] Instance same_call_preorder : PreOrder same_call.
Proof. split; [by intros c|]. intros c1 c2 c3 (? & ? & ?) (? & ? & ?). split_and!; congruence. Qed.

Lemma on_c_wire_same {A} (m : M wire A) : always same_call (on_c_wire m : M client A).
Proof. apply (always_zoom _ _ _ _ (fun _ _ => True)); done. Qed.

Lemma on_exchange_same {A} (m : M (Exchange App) A) : always same_call (on_exchange m).
Proof. apply (always_zoom _ _ _ _ (fun _ _ => True)); done. Qed.

Lemma set_c_shm_same f : always same_call (modify (fun c => set_c_shm c (f c))).
Proof. by apply always_modify. Qed.

#[local] Hint Resolve on_c_wire_same on_exchange_same set_c_shm_same : frame.

(** Binding what was just read. *)
Lemma always_get_bind {S A} (R : S -> S -> Prop) (f : S -> M S A) :
  (forall s, R s (f s s).2) -> always R (get ≫= f).
Proof. intros H s. exact (H s). Qed.

Lemma dispatch_client_log_same ab : always same_call (dispatch_client_log options ab).
Proof. apply on_exchange_same. Qed.

#[local] Hint Resolve dispatch_client_log_same : frame.

Lemma resolve_data_same ab : always same_call (resolve_data options ab).
Proof.
  unfold resolve_data. destruct (ab_type ab); try (by apply always_ret; apply _); [frame| |by apply always_raise; apply _].
  apply always_get_bind. intros c. destruct (c_shm c) as [seg|]; [|reflexivity].
  destruct (resolve_shm_batch _ _ _) as [[[b md] off]|e]; [|reflexivity].
  cbn [lift]. rewrite (bind_done _ _ c (b, md, off) c) by done. by destruct (0 <=? off).
Qed.

#[local] Hint Resolve resolve_data_same : frame.

Lemma substream_data_same abs found : always same_call (substream_data options abs found).
Proof. revert found; induction abs as [|ab abs IH]; intros found; cbn [substream_data]; [frame|]. frame; apply IH. Qed.

#[local] Hint Resolve substream_data_same : frame.

Lemma read_substream_same : always same_call (read_substream options).
Proof. unfold read_substream. frame. Qed.

Lemma send_params_same params md : always same_call (send_params params md : M client unit).
Proof. apply on_c_wire_same. Qed.

Lemma empty_input_same : always same_call (empty_input : M client unit).
Proof. unfold empty_input. frame. Qed.

#[local] Hint Resolve read_substream_same send_params_same empty_input_same : frame.

(** ** A stream's own operations *)

(** Neither the reservation nor the end of the stream is touched. *)
Definition steady (st st' : stream) : Prop :=
  same_call (cs_client st) (cs_client st') /\ cs_cancelled st' = cs_cancelled st /\
  cs_closed st' = cs_closed st /\ cs_released st' = cs_released st.

#[export] Instance steady_preorder : PreOrder steady.
Proof.
  split; [intros st; by split|]. intros st1 st2 st3 (Hc1 & ? & ? & ?) (Hc2 & ? & ? & ?).
  split; [by transitivity (cs_client st2)|]. split_and!; congruence.
Qed.

Lemma on_client_steady {A} (m : M client A) : always same_call m -> always steady (on_client m).
Proof. intros Hm. apply (always_zoom _ _ _ _ same_call); [done|]. by intros st c H. Qed.

Lemma on_s_wire_steady {A} (m : M wire A) : always steady (on_s_wire m : M stream A).
Proof. apply on_client_steady, on_c_wire_same. Qed.

Lemma set_cs_writer_steady s : always steady (modify (fun st => set_cs_writer st s)).
Proof. by apply always_modify. Qed.

Lemma set_cs_reading_steady : always steady (modify set_cs_reading).
Proof. by apply always_modify. Qed.

Lemma set_cs_finished_steady : always steady (modify set_cs_finished).
Proof. by apply always_modify. Qed.

#[local] Hint Resolve on_client_steady on_s_wire_steady set_cs_writer_steady set_cs_reading_steady
  set_cs_finished_steady : frame.

Lemma ensure_input_writer_steady s : always steady (ensure_input_writer s).
Proof. unfold ensure_input_writer. frame. Qed.

Lemma ensure_output_reader_steady : always steady ensure_output_reader.
Proof. unfold ensure_output_reader. frame. Qed.

#[local] Hint Resolve ensure_input_writer_steady ensure_output_reader_steady : frame.

Lemma next_data_steady fuel : always steady (next_data options fuel).
Proof. induction fuel as [|fuel IH]; cbn [next_data]; frame; apply IH. Qed.

Lemma free_outbound_steady off : always steady (free_outbound off).
Proof. apply on_client_steady, always_modify. intros c. by destruct (0 <=? off). Qed.

Lemma outbound_batch_steady env b md : always steady (outbound_batch env b md).
Proof. unfold outbound_batch. frame. Qed.

Lemma send_cancel_steady : always steady (send_cancel).
Proof. unfold send_cancel. frame. Qed.

Lemma drain_batches_steady fuel pending : always steady (drain_batches options fuel pending).
Proof. revert pending; induction fuel as [|fuel IH]; intros pending; cbn [drain_batches]; frame; apply IH. Qed.

#[local] Hint Resolve next_data_steady free_outbound_steady outbound_batch_steady send_cancel_steady
  drain_batches_steady : frame.

Lemma drain_output_steady : always steady (drain_output options).
Proof. unfold drain_output. frame. Qed.

Lemma close_writer_steady : always steady close_writer.
Proof. unfold close_writer. frame. Qed.

#[local] Hint Resolve drain_output_steady close_writer_steady : frame.

(** ** The reservation *)

(** Closed exactly when its transport is. *)
Definition sound (c : client) : Prop := c_closed c = negb (c_open c).

(** No call holds the connection. *)
Definition free_client (c : client) : Prop := c_active c = false /\ sound c.

(** The call, and its stream, hold it. *)
Definition held (c : client) : Prop := c_active c = true /\ c_open c = true /\ c_closed c = false.

Definition live (st : stream) : Prop :=
  held (cs_client st) /\ cs_cancelled st = false /\ cs_closed st = false /\ cs_released st = false.

(** The stream is over and the connection free, for the next call or for none. *)
Definition ended (st : stream) : Prop :=
  free_client (cs_client st) /\ cs_closed st = true /\ cs_released st = true.

(** The connection is closed for good. *)
Definition lost (c : client) : Prop := c_active c = false /\ c_open c = false /\ c_closed c = true.

Lemma lost_free (c : client) : lost c -> free_client c.
Proof. intros (Ha & Ho & Hc). split; [done|]. unfold sound. by rewrite Ho. Qed.

Lemma release_lost (c : client) : lost c -> lost (release_call c).2.
Proof. by intros (_ & Ho & Hc). Qed.

Lemma release_held (c : client) : held c -> idle (release_call c).2.
Proof. by intros (_ & Ho & Hc). Qed.

Lemma live_steady st st' : steady st st' -> live st -> live st'.
Proof.
  intros ((Ho & Ha & Hc) & H1 & H2 & H3) ((? & ? & ?) & ? & ? & ?). split; [split_and!|split_and!]; congruence.
Qed.

Lemma same_call_held c c' : same_call c c' -> held c -> held c'.
Proof. intros (Ho & Ha & Hc) (? & ? & ?). split_and!; congruence. Qed.

Lemma same_call_free c c' : same_call c c' -> free_client c -> free_client c'.
Proof. unfold free_client, sound. intros (Ho & Ha & Hc) (? & ?). split; congruence. Qed.

Lemma reserve_idle (c : client) : idle c -> reserve_call c = (Done tt, set_c_active c true).
Proof. intros (Hc & Ho & Ha). unfold reserve_call. rewrite (bind_done get _ c c c) by done. by rewrite Hc, Ho, Ha. Qed.

(** Anything but an idle client refuses, unchanged. *)
Lemma reserve_refused (c : client) : ~ idle c -> exists e, reserve_call c = (Raised e, c).
Proof.
  intros Hn. unfold reserve_call. rewrite (bind_done get _ c c c) by done.
  destruct (c_closed c) eqn:Ec; [by eexists|]. destruct (c_open c) eqn:Eo; [|by eexists].
  destruct (c_active c) eqn:Ea; [by eexists|]. exfalso. by apply Hn.
Qed.

Lemma idle_dec (c : client) : idle c \/ ~ idle c.
Proof.
  unfold idle. destruct (c_closed c), (c_open c), (c_active c); (by left) || (right; by intros (? & ? & ?)).
Qed.

Lemma idle_free (c : client) : idle c -> free_client c.
Proof. intros (Hc & Ho & Ha). split; [done|]. unfold sound. by rewrite Hc, Ho. Qed.

(** [or_abort]: the connection is given up with the exception. *)
Lemma or_abort_spec {A} (m : M client A) (c : client) :
  always same_call m ->
  match or_abort m c with
  | (Done _, c') => same_call c c'
  | (Raised _, c') => lost c'
  end.
Proof.
  intros Hm. specialize (Hm c). unfold or_abort, try_catch. destruct (m c) as [[a|e] c']; [done|].
  cbv iota beta. rewrite (bind_done abort_transport _ c' tt (abort_transport c').2) by done. done.
Qed.

Lemma or_lose_spec {A} (m : M stream A) st :
  always steady m ->
  match or_lose m st with
  | (Done _, st') => steady st st'
  | (Raised _, st') => ended st' /\ lost (cs_client st')
  end.
Proof.
  intros Hm. specialize (Hm st). unfold or_lose, try_catch. destruct (m st) as [[a|e] st']; [done|].
  cbv iota beta. rewrite (bind_done lose_stream _ st' tt (lose_stream st').2) by done. done.
Qed.

(** A unary call leaves a free client free: usable when it got an answer, lost
    when anything else went wrong. *)
Lemma call_with_free params md (c : client) :
  free_client c ->
  match call_with options params md c with
  | (Done _, c') => idle c /\ idle c'
  | (Raised _, c') => c' = c /\ ~ idle c \/ lost c'
  end.
Proof.
  intros Hf. unfold call_with, reserved. destruct (idle_dec c) as [Hi|Hn].
  - rewrite (bind_done _ _ _ _ _ (reserve_idle c Hi)).
    match goal with |- context [or_abort ?m (set_c_active c true)] =>
      pose proof (or_abort_spec m (set_c_active c true)) as Hm end.
    destruct (or_abort _ _) as [[a|e] c']; (lapply Hm; [clear Hm; intros (Ho & Ha & Hc)|frame]); [|by right].
    cbn in Ho, Hc. destruct Hi as (Hci & Hoi & Hai). split; [done|]. split_and!; cbn; congruence.
  - destruct (reserve_refused c Hn) as [e E]. rewrite (bind_raised _ _ _ _ _ E). by left.
Qed.

(** A request that is not made: it has no metadata, or the client is not idle. *)
Definition not_called (method : bytes) (md : metadata) (random_id : bytes) (c : client) : Prop :=
  (exists e, request_metadata method (opt_protocol options) (opt_protocol_version options) md (c_shm c) random_id = Throw e)
  \/ ~ idle c.

Lemma call_unary_left method params md random_id (c : client) :
  free_client c ->
  match call_unary options method params md random_id c with
  | (Done _, c') => idle c'
  | (Raised _, c') => c' = c /\ not_called method md random_id c \/ lost c'
  end.
Proof.
  intros Hf. unfold call_unary, not_called. rewrite (bind_done get _ c c c) by done.
  destruct (request_metadata _ _ _ _ _ _) as [rmd|e]; [|left; split; [done|]; left; by exists e].
  cbn [lift]. rewrite (bind_done _ _ c rmd c) by done. pose proof (call_with_free params rmd c Hf) as H.
  destruct (call_with _ _ _ _) as [[a|e] c']; [apply H|]. destruct H as [[-> H]|H]; [left|by right]. split; [done|by right].
Qed.

Lemma not_called_free {A} (r : outcome A) refused (c c' : client) :
  free_client c ->
  match r with Done _ => idle c' | Raised _ => c' = c /\ refused \/ lost c' end -> free_client c'.
Proof. intros Hf. destruct r; [apply idle_free|]. intros [[-> _]|H]; [done|by apply lost_free]. Qed.

Lemma call_unary_free method params md random_id (c : client) :
  free_client c -> free_client (call_unary options method params md random_id c).2.
Proof.
  intros Hf. pose proof (call_unary_left method params md random_id c Hf) as H.
  destruct (call_unary _ _ _ _ _ c) as [r c']. by apply (not_called_free r _ c) in H.
Qed.

(** A client in a call refuses another one and is not touched. *)
Lemma call_unary_held method params md random_id (c : client) :
  held c -> exists e, call_unary options method params md random_id c = (Raised e, c).
Proof.
  intros (Ha & Ho & Hc). unfold call_unary. rewrite (bind_done get _ c c c) by done.
  destruct (request_metadata _ _ _ _ _ _) as [rmd|e]; [|by eexists]. cbn [lift].
  rewrite (bind_done _ _ c rmd c) by done. unfold call_with, reserved.
  destruct (reserve_refused c) as [e E]; [by intros (_ & _ & ?); congruence|].
  exists e. by rewrite (bind_raised _ _ _ _ _ E).
Qed.

(** A stream opens on an idle client, and holds it. *)
Lemma open_stream_spec method params has_header md kind random_id (c : client) :
  free_client c ->
  match open_stream options method params has_header md kind random_id c with
  | (Done (inr st), _) => live st
  | (Done (inl _), c') => idle c' \/ lost c'
  | (Raised _, c') => c' = c /\ not_called method md random_id c \/ lost c'
  end.
Proof.
  intros Hf. unfold open_stream, not_called. rewrite (bind_done get _ c c c) by done.
  destruct (request_metadata _ _ _ _ _ _) as [rmd|e]; [|left; split; [done|]; left; by exists e]. cbn [lift].
  rewrite (bind_done _ _ c rmd c) by done. destruct (idle_dec c) as [Hi|Hn]; cycle 1.
  { destruct (reserve_refused c Hn) as [e E]. rewrite (bind_raised _ _ _ _ _ E). left. split; [done|by right]. }
  rewrite (bind_done _ _ _ _ _ (reserve_idle c Hi)). cbv beta. set (c1 := set_c_active c true).
  assert (held c1) as Hh by (destruct Hi as (? & ? & ?); by split_and!).
  pose proof (or_abort_spec (send_params params rmd) c1 (send_params_same params rmd)) as Hs.
  unfold mbind at 1, M_bind at 1. destruct (or_abort _ c1) as [[[]|e] c2]; [|right; by apply release_lost].
  pose proof (same_call_held _ _ Hs Hh) as Hh2. unfold read_header. destruct has_header; [|done].
  match goal with |- context [or_abort ?m] => pose proof (or_abort_spec m c2) as Hr end.
  unfold mbind at 1, M_bind at 1. destruct (or_abort _ c2) as [[[rx|header]|e] c3];
    (lapply Hr; [clear Hr; intros Hr|frame]).
  - unfold mbind at 1, M_bind at 1. unfold try_catch. pose proof (empty_input_same c3) as He.
    pose proof (same_call_held _ _ Hr Hh2) as Hh3.
    destruct (empty_input c3) as [[[]|e] c4]; cbn [snd] in He.
    + left. apply release_held. by apply (same_call_held c3).
    + right. by apply release_lost.
  - split; [|by split_and!]. by apply (same_call_held c2).
  - right. by apply release_lost.
Qed.

(** ** Ticks, exchanges and the end of a stream *)

(** What holds of a result and the state it leaves; a throw is free. *)
Definition yields {S A} (P : S -> Prop) (m : M S A) (Q : A -> S -> Prop) : Prop :=
  forall s, P s -> match m s with (Done a, s') => Q a s' | (Raised _, _) => True end.

Lemma yields_ret {S A} (P : S -> Prop) (a : A) (Q : A -> S -> Prop) :
  (forall s, P s -> Q a s) -> yields P (mret a) Q.
Proof. intros H s. apply H. Qed.

Lemma yields_bind {S A B} (P : S -> Prop) (R : A -> S -> Prop) (Q : B -> S -> Prop) (m : M S A) (f : A -> M S B) :
  yields P m R -> (forall a, yields (R a) (f a) Q) -> yields P (m ≫= f) Q.
Proof.
  intros Hm Hf s Hs. specialize (Hm s Hs). unfold mbind, M_bind. destruct (m s) as [[a|e] s']; [|done].
  by apply Hf.
Qed.

Lemma yields_modify {S} (P : S -> Prop) (f : S -> S) (Q : unit -> S -> Prop) :
  (forall s, P s -> Q tt (f s)) -> yields P (modify f) Q.
Proof. intros H s. apply H. Qed.

(** The stream still has the connection. *)
Definition closing (st : stream) : Prop := held (cs_client st) /\ cs_released st = false.

Lemma yields_steady {A} (m : M stream A) : always steady m -> yields closing m (fun _ => closing).
Proof.
  intros Hm st [Hh Hr]. specialize (Hm st). destruct (m st) as [[a|e] st']; [|done].
  cbn [snd] in Hm. destruct Hm as (Hc & _ & _ & Hr'). split; [by apply (same_call_held (cs_client st))|]. congruence.
Qed.

(** The stream gives the connection back. *)
Definition given_back (st : stream) : Prop := ended st /\ idle (cs_client st).

Lemma release_gives st :
  closing st -> cs_closed st = true ->
  exists st', release st = (Done tt, st') /\ given_back st'.
Proof.
  intros ((Ha & Ho & Hc) & Hr) Hcl. unfold release. rewrite (bind_done get _ st st st) by done. rewrite Hr.
  eexists. split; [reflexivity|]. split; [|by split_and!]. split; [|by split]. split; [done|].
  unfold sound. cbn. by rewrite Ho, Hc.
Qed.

Lemma release_yields : yields (fun st => closing st /\ cs_closed st = true) release (fun _ => given_back).
Proof. intros st [H Hc]. by destruct (release_gives st H Hc) as (st' & -> & ?). Qed.

Lemma or_lose_yields {A} (m : M stream A) (P : stream -> Prop) Q st :
  yields P m Q -> P st ->
  match or_lose m st with
  | (Done a, st') => Q a st'
  | (Raised _, st') => ended st' /\ lost (cs_client st')
  end.
Proof.
  intros Hm HP. specialize (Hm st HP). unfold or_lose, try_catch. destruct (m st) as [[a|e] st']; [done|].
  cbv iota beta. by rewrite (bind_done lose_stream _ st' tt (lose_stream st').2) by done.
Qed.

Definition gone (st : stream) : Prop := ended st /\ lost (cs_client st).

(** The result of an operation that ends the stream. *)
Definition finished_as (r : outcome (option RpcException)) (st : stream) : Prop :=
  match r with Done None => given_back st | _ => gone st end.

Lemma or_lose_pending_yields m P st :
  yields P m (fun pending st' => pending = None -> given_back st') -> P st ->
  let '(r, st') := or_lose_pending m st in finished_as r st'.
Proof.
  intros Hm HP. pose proof (or_lose_yields m P _ st Hm HP) as H. unfold or_lose_pending, mbind at 1, M_bind at 1.
  destruct (or_lose m st) as [[[rx|]|e] st']; [|by apply H|done].
  cbv iota beta. by rewrite (bind_done lose_stream _ st' tt (lose_stream st').2) by done.
Qed.

(** What a step on a live stream leaves. *)
Definition step_left {A} (refused : Prop) (st : stream) (r : outcome A) (st' : stream) : Prop :=
  match r with
  | Done _ => live st'
  | Raised _ => st' = st /\ refused \/ gone st'
  end.

Lemma or_lose_left {A} (m : M stream A) refused st0 st :
  always steady m -> live st -> let '(r, st') := or_lose m st in step_left refused st0 r st'.
Proof.
  intros Hm Hl. pose proof (or_lose_spec m st Hm) as H. destruct (or_lose m st) as [[a|e] st']; [|by right].
  by apply (live_steady st).
Qed.

Lemma read_next_data_left refused st0 st :
  live st -> let '(r, st') := read_next_data options st in step_left refused st0 r st'.
Proof.
  intros Hl. unfold read_next_data. apply or_lose_left; [|done].
  apply always_bind; [apply _|apply ensure_output_reader_steady|intros _]. apply always_get_bind.
  intros st'. apply next_data_steady.
Qed.

Lemma lose_then_read (m : M stream unit) refused st0 st :
  always steady m -> live st ->
  let '(r, st') := (or_lose m;; read_next_data options) st in step_left refused st0 r st'.
Proof.
  intros Hm Hl. pose proof (or_lose_spec m st Hm) as H. unfold mbind at 1, M_bind at 1.
  destruct (or_lose m st) as [[[]|e] st']; [|by right]. apply read_next_data_left. by apply (live_steady st).
Qed.

Lemma require_cases expected operation (st : stream) :
  require_step_allowed expected operation st = (Done tt, st) /\ cs_closed st = false \/
  exists e, require_step_allowed expected operation st = (Raised e, st).
Proof.
  unfold require_step_allowed. rewrite (bind_done get _ st st st) by done.
  destruct (negb _); [right; by eexists|]. destruct (cs_cancelled st); [right; by eexists|].
  destruct (cs_closed st); [right; by eexists|by left].
Qed.

(** A live stream refuses only steps of the other kind. *)
Lemma require_live expected operation (st : stream) :
  live st ->
  require_step_allowed expected operation st = (Done tt, st) \/
  cs_kind st <> expected /\ exists e, require_step_allowed expected operation st = (Raised e, st).
Proof.
  intros (_ & Hca & Hc & _). unfold require_step_allowed. rewrite (bind_done get _ st st st) by done.
  rewrite Hca, Hc. case_bool_decide as Hk; cbn [negb]; [by left|right]. split; [done|by eexists].
Qed.

Lemma tick_left md st :
  live st -> let '(r, st') := tick options md st in step_left (cs_kind st <> PRODUCER_STREAM) st r st'.
Proof.
  intros Hl. unfold tick. destruct (require_live PRODUCER_STREAM (str "tick") st Hl) as [E|[Hk [e E]]]; cycle 1.
  { rewrite (bind_raised _ _ _ _ _ E). by left. }
  rewrite (bind_done _ _ _ _ _ E). rewrite (bind_done get _ st st st) by done.
  destruct (cs_finished st); [done|]. apply lose_then_read; [|done]. frame.
Qed.

(** Another schema than the stream's input began with. *)
Definition other_input (b : RecordBatch) (st : stream) : Prop :=
  exists s, cs_input_schema st = Some s /\ schema_equal_metadata s (schema b) = false.

Lemma exchange_left env b md st :
  live st ->
  let '(r, st') := exchange options env b md st in
  step_left (cs_kind st <> EXCHANGE_STREAM \/ cs_finished st = false /\ other_input b st) st r st'.
Proof.
  intros Hl. unfold exchange. destruct (require_live EXCHANGE_STREAM (str "exchange") st Hl) as [E|[Hk [e E]]]; cycle 1.
  { rewrite (bind_raised _ _ _ _ _ E). left. split; [done|by left]. }
  rewrite (bind_done _ _ _ _ _ E). rewrite (bind_done get _ st st st) by done.
  destruct (cs_finished st) eqn:Ef; [done|]. unfold other_input.
  destruct (cs_input_schema st) as [s|]; [destruct (schema_equal_metadata s (schema b)) eqn:Es|]; cbn [negb].
  - apply lose_then_read; [|done]. frame.
  - left. split; [done|]. right. split; [done|]. by exists s.
  - apply lose_then_read; [|done]. frame.
Qed.

Lemma step_left_ok {A} refused st (r : outcome A) st' : live st -> step_left refused st r st' -> live st' \/ ended st'.
Proof. intros Hl. destruct r; cbn [step_left]; [by left|]. intros [[-> _]|[H _]]; [by left|by right]. Qed.

(** After its end a stream does nothing more. *)
Lemma ended_refuses expected operation st :
  ended st -> exists e, require_step_allowed expected operation st = (Raised e, st).
Proof.
  intros (_ & Hc & _). destruct (require_cases expected operation st) as [[_ ?]|?]; [congruence|done].
Qed.

Lemma close_ended st : ended st -> close options st = (Done None, st).
Proof.
  intros (_ & Hc & Hr). unfold close. rewrite (bind_done get _ st st st) by done. rewrite Hc.
  rewrite (bind_done release _ st tt st); [done|]. unfold release. rewrite (bind_done get _ st st st) by done.
  by rewrite Hr.
Qed.

Lemma cancel_ended st : ended st -> cancel options st = (Done None, set_cs_cancelled st).
Proof.
  intros (_ & Hc & Hr). unfold cancel. rewrite (bind_done get _ st st st) by done. rewrite Hc, orb_true_r.
  rewrite (bind_done (modify set_cs_cancelled) _ st tt (set_cs_cancelled st)) by done.
  rewrite (bind_done release _ _ tt (set_cs_cancelled st)); [done|]. unfold release.
  rewrite (bind_done get _ _ (set_cs_cancelled st) (set_cs_cancelled st)) by done. cbn. by rewrite Hr.
Qed.

Lemma drained_yields (P : stream -> Prop) (after : M stream (option RpcException)) :
  (forall st, closing st -> P st -> forall st', steady st st' -> P st') ->
  yields (fun st => closing st /\ P st) after (fun pending st' => pending = None -> given_back st') ->
  yields (fun st => closing st /\ P st)
    (pending ← drain_output options; match pending with Some e => mret (Some e) | None => after end)
    (fun pending st' => pending = None -> given_back st').
Proof.
  intros HP Ha. apply (yields_bind _ (fun _ st => closing st /\ P st)).
  - intros st [Hc Hp]. pose proof (yields_steady _ drain_output_steady st Hc) as H1.
    pose proof (drain_output_steady st) as H2. destruct (drain_output options st) as [[a|e] st']; [|done].
    split; [done|]. by apply (HP st).
  - intros [e|]; [|done]. by apply yields_ret.
Qed.

(** Closing a live stream gives the connection back, or gives it up. *)
Lemma close_live st : live st -> let '(r, st') := close options st in finished_as r st'.
Proof.
  intros (Hh & _ & Hc & Hr). unfold close. rewrite (bind_done get _ st st st) by done. rewrite Hc.
  rewrite (bind_done (modify set_cs_closed) _ st tt (set_cs_closed st)) by done.
  apply (or_lose_pending_yields _ (fun st => closing st /\ cs_closed st = true)); [|by repeat split; try apply Hh].
  apply (yields_bind _ (fun _ st => closing st /\ cs_closed st = true)).
  - intros st1 [Hc1 Hcl]. pose proof (yields_steady _ close_writer_steady st1 Hc1) as H1.
    pose proof (close_writer_steady st1) as H2. destruct (close_writer st1) as [[a|e] st']; [|done].
    split; [done|]. destruct H2 as (_ & _ & H2 & _). cbn [snd] in H2. congruence.
  - intros _. apply (drained_yields (fun st => cs_closed st = true)).
    + intros st1 _ Hcl st2 (_ & _ & H2 & _). congruence.
    + apply (yields_bind _ (fun _ => given_back)); [apply release_yields|]. intros _. by apply yields_ret.
Qed.

(** So does cancelling it. *)
Lemma cancel_live st : live st -> let '(r, st') := cancel options st in finished_as r st'.
Proof.
  intros (Hh & Hca & Hc & Hr). unfold cancel. rewrite (bind_done get _ st st st) by done. rewrite Hca, Hc.
  cbn [orb]. destruct (cs_finished st).
  - rewrite (bind_done (modify (fun st => set_cs_closed (set_cs_cancelled st))) _ st tt (set_cs_closed (set_cs_cancelled st))) by done.
    unfold mbind at 1, M_bind at 1.
    pose proof (or_lose_yields (close_writer;; release) (fun st => closing st /\ cs_closed st = true)
      (fun _ => given_back) (set_cs_closed (set_cs_cancelled st))) as H.
    destruct (or_lose _ _) as [[[]|e] st']; apply H; try (by repeat split; try apply Hh).
    all: apply (yields_bind _ (fun _ st => closing st /\ cs_closed st = true)); [|intros _; apply release_yields].
    all: intros st1 [Hc1 Hcl]; pose proof (yields_steady _ close_writer_steady st1 Hc1) as H1;
      pose proof (close_writer_steady st1) as H2; destruct (close_writer st1) as [[a|e'] st2]; [|done];
      split; [done|]; destruct H2 as (_ & _ & H2 & _); cbn [snd] in H2; congruence.
  - cbv zeta. match goal with |- context [or_lose_pending ?m] =>
      pose proof (or_lose_pending_yields m closing st) as H end.
    destruct (or_lose_pending _ st) as [r st']. lapply H; clear H.
    + intros H. specialize (H (conj Hh Hr)). destruct r as [[e|]|e]; exact H.
    + apply (yields_bind _ (fun _ => closing)); [apply yields_steady, send_cancel_steady|]. intros _.
      apply (yields_bind _ (fun _ => closing)); [by apply yields_modify|]. intros _.
      pose proof (drained_yields (fun _ => True)) as Hd.
      intros st1 Hc1. apply (Hd _ ltac:(done)); [|by split].
      apply (yields_bind _ (fun _ => closing)); [intros st2 [Hc2 _]; by apply (yields_steady _ (on_s_wire_steady Close))|].
      intros _. apply (yields_bind _ (fun _ st => closing st /\ cs_closed st = true)); [by apply yields_modify|].
      intros _. apply (yields_bind _ (fun _ => given_back)); [apply release_yields|]. intros _. by apply yields_ret.
Qed.

(** ** Using a client *)

(** What a caller may do with a client, and with its stream while it has one, in any
    order; calls on the client are possible during a stream as well. *)
Inductive session :=
  | Between (c : client)
  | During (st : stream).

Inductive client_step : session -> session -> Prop :=
  | step_call method params md random_id c :
      client_step (Between c) (Between (call_unary options method params md random_id c).2)
  | step_open method params has_header md kind random_id c st c' :
      open_stream options method params has_header md kind random_id c = (Done (inr st), c') ->
      client_step (Between c) (During st)
  | step_refused method params has_header md kind random_id c r c' :
      open_stream options method params has_header md kind random_id c = (r, c') ->
      (forall st, r <> Done (inr st)) ->
      client_step (Between c) (Between c')
  | step_close_client c : client_step (Between c) (Between (close_client c).2)
  | step_tick md st : client_step (During st) (During (tick options md st).2)
  | step_exchange env b md st : client_step (During st) (During (exchange options env b md st).2)
  | step_cancel st : client_step (During st) (During (cancel options st).2)
  | step_close st : client_step (During st) (During (close options st).2)
  | step_call_during method params md random_id st :
      client_step (During st) (During (on_client (call_unary options method params md random_id) st).2)
  | step_close_client_during st : client_step (During st) (During (on_client close_client st).2)
  | step_destroy st : client_step (During st) (Between (destroy st)).

Definition session_ok (x : session) : Prop :=
  match x with
  | Between c => free_client c
  | During st => live st \/ ended st
  end.

Lemma close_client_free c : free_client c -> free_client (close_client c).2.
Proof.
  intros [Ha Hs]. unfold close_client. rewrite (bind_done get _ c c c) by done. rewrite Ha.
  destruct (c_closed c); [by split|]. by split.
Qed.

Lemma finished_ok r st : finished_as r st -> live st \/ ended st.
Proof. destruct r as [[?|]|?]; intros [H _]; by right. Qed.

Lemma on_client_ended {A} (m : M client A) st :
  (forall c, free_client c -> free_client (m c).2) -> ended st -> ended (on_client m st).2.
Proof.
  intros Hm ((Ha & Hs) & Hc & Hr). unfold on_client, zoom. specialize (Hm (cs_client st) (conj Ha Hs)).
  destruct (m (cs_client st)) as [r c']. by split.
Qed.

Lemma tick_ended md st : ended st -> (tick options md st).2 = st.
Proof.
  intros H. unfold tick. destruct (ended_refuses PRODUCER_STREAM (str "tick") st H) as [e E].
  by rewrite (bind_raised _ _ _ _ _ E).
Qed.

Lemma exchange_ended env b md st : ended st -> (exchange options env b md st).2 = st.
Proof.
  intros H. unfold exchange. destruct (ended_refuses EXCHANGE_STREAM (str "exchange") st H) as [e E].
  by rewrite (bind_raised _ _ _ _ _ E).
Qed.

Lemma client_step_ok x y : client_step x y -> session_ok x -> session_ok y.
Proof.
  intros Hs. destruct Hs; cbn [session_ok]; intros Hok.
  - by apply call_unary_free.
  - pose proof (open_stream_spec method params has_header md kind random_id c Hok) as Hspec.
    rewrite H in Hspec. by left.
  - pose proof (open_stream_spec method params has_header md kind random_id c Hok) as Hspec.
    rewrite H in Hspec. destruct r as [[rx|st]|e]; [|by destruct (H0 st)|].
    + destruct Hspec; [by apply idle_free|by apply lost_free].
    + by apply (not_called_free (Raised e : outcome unit) _ c) in Hspec.
  - by apply close_client_free.
  - destruct Hok as [Hl|He]; [|rewrite tick_ended by done; by right].
    pose proof (tick_left md st Hl) as H. destruct (tick options md st) as [r st']. by apply step_left_ok in H.
  - destruct Hok as [Hl|He]; [|rewrite exchange_ended by done; by right].
    pose proof (exchange_left env b md st Hl) as H. destruct (exchange options env b md st) as [r st']. by apply step_left_ok in H.
  - destruct Hok as [Hl|He]; [|rewrite cancel_ended by done; by right].
    pose proof (cancel_live st Hl) as Hf. destruct (cancel options st) as [r st']. by apply (finished_ok r).
  - destruct Hok as [Hl|He]; [|rewrite close_ended by done; by right].
    pose proof (close_live st Hl) as Hf. destruct (close options st) as [r st']. by apply (finished_ok r).
  - destruct Hok as [Hl|He]; [left|right; apply on_client_ended; [by intros; apply call_unary_free|done]].
    destruct Hl as [Hh Hl]. destruct (call_unary_held method params md random_id (cs_client st) Hh) as [e E].
    unfold on_client, zoom. rewrite E. by split.
  - destruct Hok as [Hl|He]; [left|right; apply on_client_ended; [apply close_client_free|done]].
    destruct Hl as [Hh Hl]. unfold on_client, zoom, close_client. rewrite (bind_done get _ _ (cs_client st) (cs_client st)) by done.
    rewrite (proj1 Hh). by split.
  - unfold destroy. destruct Hok as [(Hh & _ & Hc & _)|(Hf & Hc & _)]; rewrite Hc; [|done]. by split.
Qed.

Lemma client_steps_ok x y : rtc client_step x y -> session_ok x -> session_ok y.
Proof. induction 1 as [|x z y Hs _ IH]; [done|]. intros Hx. by apply IH, (client_step_ok x z). Qed.

Lemma free_cases (c : client) : free_client c -> idle c \/ lost c.
Proof. intros [Ha Hs]. unfold sound in Hs. destruct (c_open c) eqn:Eo; [left|right]; by split_and!. Qed.
End frames.

(** ** What a stream reads

    A response as a list of batches, the abstract stream: every step takes the logs up to
    the next answer, and an error or the end finishes it. *)

Section abstract_stream.
Context {arrow : Arrow} {streams : ArrowStreams} {kvm : KeyValueMetadata} {J : JsonText} {texts : ClientTexts}.

(** A log that can be read, a data batch, or an error. *)
Definition plain_answer (ab : AnnotatedBatch) : Prop :=
  match ab_type ab with
  | LOG => is_Some (match log_message ab with Ok m => Some m | Throw _ => None end)
  | DATA | EXCEPTION => True
  | _ => False
  end.

Definition log_of (ab : AnnotatedBatch) : list Message :=
  match log_message ab with Ok m => [m] | Throw _ => [] end.

(** The logs, the result and the batches after it. *)
Fixpoint next_spec (abs : list AnnotatedBatch) : list Message * (RpcException + option AnnotatedBatch) * list AnnotatedBatch :=
  match abs with
  | [] => ([], inr None, [])
  | ab :: abs' =>
      match ab_type ab with
      | LOG => let '(logs, r, after) := next_spec abs' in (log_of ab ++ logs, r, after)
      | EXCEPTION => ([], inl (remote_exception ab), [])
      | _ => ([], inr (Some ab), abs')
      end
  end.

Definition ends_stream (r : RpcException + option AnnotatedBatch) : bool :=
  match r with inr (Some _) => false | _ => true end.

(** [n] steps: the logs in order, the results, what is left when the stream is not
    finished, and how many steps were sent: a finished stream sends nothing more. *)
Fixpoint read_spec (n : nat) (abs : list AnnotatedBatch)
    : list Message * list (RpcException + option AnnotatedBatch) * option (list AnnotatedBatch) * nat :=
  match n with
  | O => ([], [], Some abs, O)
  | S n' =>
      let '(logs, r, after) := next_spec abs in
      if ends_stream r then (logs, r :: replicate n' (inr None), None, 1%nat)
      else let '(logs', rs, unread, k) := read_spec n' after in (logs ++ logs', r :: rs, unread, S k)
  end.

(** What closing reads: every log that is left, and the first error. *)
Fixpoint drain_spec (abs : list AnnotatedBatch) : list Message * option RpcException :=
  match abs with
  | [] => ([], None)
  | ab :: abs' =>
      let '(logs, e) := drain_spec abs' in
      match ab_type ab with
      | LOG => (log_of ab ++ logs, e)
      | EXCEPTION => (logs, Some (remote_exception ab))
      | _ => (logs, e)
      end
  end.

(** A finished stream has nothing left. *)
Definition close_spec (unread : option (list AnnotatedBatch)) : list Message * option RpcException :=
  match unread with Some abs => drain_spec abs | None => ([], None) end.
End abstract_stream.

Section stream_reads.
Context {arrow : Arrow} {streams : ArrowStreams} {kvm : KeyValueMetadata} {buffers : BufferStreams}
  {J : JsonText} {D : Digests} {pton : InetPton} {ntop : InetNtop} {network : Network} {zstd : Zstd}
  {texts : ClientTexts} {alaws : ArrowLaws} {slaws : ArrowStreamsLaws} {total : ArrowTotal} {App : Type}
  (options : RpcClientOptions App) (taken : logs_taken options)
  (kind : ClientStreamKind) (header : option AnnotatedBatch) (env : option bytes) (x : Exchange App)
  (empty : RecordBatch) (empty_ok : make_empty_batch empty_schema = Ok empty)
  (in_schema out_schema : Schema) (same_in : schema_equal_metadata in_schema in_schema = true)
  (out0 rest : list message).

Abbreviation stream := (ClientStream App).

(** What the caller passes: the batch of an exchange, and metadata. *)
Abbreviation step_input := (RecordBatch * metadata)%type.

Definition input_ok (i : step_input) : Prop :=
  match kind with PRODUCER_STREAM => in_schema = empty_schema | EXCHANGE_STREAM => schema i.1 = in_schema end.

Definition sent_as (i : step_input) : AnnotatedBatch :=
  match kind with
  | PRODUCER_STREAM => {| ab_batch := empty; custom_metadata := tick_metadata i.2 |}
  | EXCHANGE_STREAM => {| ab_batch := i.1; custom_metadata := strip_transport_controls <$> i.2 |}
  end.

Definition step (i : step_input) : M stream (RpcException + option AnnotatedBatch) :=
  match kind with PRODUCER_STREAM => tick options i.2 | EXCHANGE_STREAM => exchange options env i.1 i.2 end.

(** A stream without segment on an unbroken pipe: what is unread, whether the reader has
    seen the end, what is written, the flags. *)
Definition stream_at (app : App) (i : list message) (eos : bool) (out : list message) (wr : option (Schema * bool))
    (writing reading finished : bool) : stream :=
  Build_ClientStream
    (Build_RpcClient {| input := i; at_eos := eos; output := out; writer := wr; room := None |}
       (set_ex_app x app) None true true false)
    kind header (if writing then Some in_schema else None) writing reading false finished false false.

(** The messages of a stream whose end is still to come. *)
Definition to_read (abs : list AnnotatedBatch) : list message := map ab_message abs ++ MsgEos :: rest.

(** After a step with result [r]. *)
Definition stream_after (app : App) (r : RpcException + option AnnotatedBatch) (after : list AnnotatedBatch)
    (out : list message) : stream :=
  if ends_stream r then stream_at app rest true out (Some (in_schema, true)) true true true
  else stream_at app (to_read after) false out (Some (in_schema, true)) true true false.

Lemma next_data_reads fuel abs app out :
  Forall plain_answer abs -> (length abs < fuel)%nat ->
  let '(logs, r, after) := next_spec abs in
  exists app', deliver options logs app = (Done tt, app') /\
    next_data options fuel (stream_at app (to_read abs) false out (Some (in_schema, true)) true true false) =
      (Done r, stream_after app' r after out).
Proof.
  intros Hall. revert fuel app. induction Hall as [|ab abs Hab _ IH]; intros fuel app Hf;
    (destruct fuel as [|fuel]; [cbn in Hf; lia|]); cbn [next_spec next_data].
  { exists app. split; [done|]. by erewrite bind_done by reflexivity. }
  set (st1 := stream_at app (to_read abs) false out (Some (in_schema, true)) true true false).
  rewrite (bind_done (on_s_wire read_next) _ _ (NextBatch (ab_batch ab) (custom_metadata ab)) st1) by done.
  cbv beta iota zeta. assert ({| ab_batch := ab_batch ab; custom_metadata := custom_metadata ab |} = ab) as ->
    by by destruct ab.
  unfold plain_answer in Hab. destruct (ab_type ab) eqn:Et; try done.
  - exists app. split; [done|]. rewrite (bind_done _ _ st1 ab st1); [done|].
    unfold on_client, zoom, resolve_data. by rewrite Et.
  - cbn in Hf. specialize (IH fuel). destruct (next_spec abs) as [[logs r] after].
    unfold log_of. destruct (log_message ab) as [m|e] eqn:Em; [|by destruct Hab]. cbn [Datatypes.app deliver].
    destruct (taken m app) as [app1 E1]. destruct (IH app1 ltac:(lia)) as (app2 & Ed & E2).
    exists app2. split; [by rewrite (bind_done _ _ _ _ _ E1)|].
    rewrite (bind_done _ _ st1 tt (stream_at app1 (to_read abs) false out (Some (in_schema, true)) true true false)); [done|].
    unfold on_client, zoom. by rewrite (dispatch_client_log_done _ _ m _ app1).
  - exists app. split; [done|]. erewrite bind_done by reflexivity. erewrite bind_done by reflexivity.
    cbn. unfold to_read. by rewrite drain_messages_spec.
Qed.

Lemma read_next_data_reads (b : bool) abs app eos out :
  Forall plain_answer abs ->
  let '(logs, r, after) := next_spec abs in
  exists app', deliver options logs app = (Done tt, app') /\
    read_next_data options (stream_at app (if b then to_read abs else MsgSchema out_schema :: to_read abs)
                              (if b then false else eos) out (Some (in_schema, true)) true b false) =
      (Done r, stream_after app' r after out).
Proof.
  intros Hall. set (st1 := stream_at app (to_read abs) false out (Some (in_schema, true)) true true false).
  pose proof (next_data_reads (S (length (to_read abs))) abs app out Hall) as H.
  destruct (next_spec abs) as [[logs r] after]. destruct H as (app' & Ed & E).
  { unfold to_read. rewrite length_app, length_map. lia. }
  exists app'. split; [done|]. unfold read_next_data, or_lose, try_catch.
  rewrite (bind_done ensure_output_reader _ _ tt st1); cycle 1.
  { unfold ensure_output_reader. erewrite bind_done by reflexivity. by destruct b. }
  erewrite bind_done by reflexivity. cbv beta. change (input (c_wire (cs_client st1))) with (to_read abs).
  fold st1 in E. by rewrite E.
Qed.

Lemma require_allowed operation expected (st : stream) :
  cs_kind st = expected -> cs_cancelled st = false -> cs_closed st = false ->
  require_step_allowed expected operation st = (Done tt, st).
Proof.
  intros Hk Hca Hc. unfold require_step_allowed. rewrite (bind_done get _ st st st) by done.
  by rewrite bool_decide_eq_true_2, Hca, Hc.
Qed.

(** The writer is there, opened by the first step. *)
Lemma writer_ensured (b : bool) app i eos out wr :
  ensure_input_writer in_schema (stream_at app i eos out (if b then Some (in_schema, true) else wr) b b false) =
    (Done tt, stream_at app i eos out (Some (in_schema, b)) true b false).
Proof.
  unfold ensure_input_writer. erewrite bind_done by reflexivity. destruct b; cbn.
  - by rewrite same_in.
  - erewrite bind_done; [|unfold on_s_wire, on_client, on_c_wire, zoom, MakeStreamWriter; rewrite writer_total; reflexivity].
    done.
Qed.

Lemma batch_written (b : bool) app i eos out rb md :
  schema_equal (schema rb) in_schema = true ->
  on_s_wire (WriteRecordBatch rb md) (stream_at app i eos out (Some (in_schema, b)) true b false) =
    (Done tt, stream_at app i eos (out ++ started_messages in_schema b ++ [MsgBatch rb md]) (Some (in_schema, true)) true b false).
Proof.
  intros Hs. unfold on_s_wire, on_client, on_c_wire, zoom.
  by rewrite (WriteRecordBatch_spec in_schema b) by done.
Qed.

Lemma step_reads (b : bool) i abs app eos out wr :
  input_ok i -> Forall plain_answer abs ->
  let '(logs, r, after) := next_spec abs in
  exists app', deliver options logs app = (Done tt, app') /\
    step i (stream_at app (if b then to_read abs else MsgSchema out_schema :: to_read abs)
              (if b then false else eos) out (if b then Some (in_schema, true) else wr) b b false) =
      (Done r, stream_after app' r after (out ++ started_messages in_schema b ++ [ab_message (sent_as i)])).
Proof.
  intros Hi Hall.
  pose proof (read_next_data_reads b abs app eos (out ++ started_messages in_schema b ++ [ab_message (sent_as i)]) Hall) as H.
  destruct (next_spec abs) as [[logs r] after]. destruct H as (app' & Ed & E). exists app'. split; [done|].
  rewrite <- E. set (inp := if b then to_read abs else _). set (eos' := if b then false else eos). clearbody inp eos'.
  pose proof (writer_ensured b app inp eos' out wr) as Hw. pose proof (batch_written b app inp eos' out) as Hb. unfold step, input_ok, sent_as in *.
  set (st := stream_at app inp eos' out _ b b false) in *. set (st2 := stream_at app inp eos' out (Some (in_schema, b)) true b false) in *.
  destruct kind eqn:Ek.
  - unfold tick. rewrite (bind_done _ _ st tt st) by by apply require_allowed.
    rewrite (bind_done get _ st st st) by done. cbn [cs_finished st stream_at].
    assert (make_empty_batch in_schema = Ok empty) as Ee by (by rewrite Hi). rewrite <- Hi.
    erewrite (bind_done (or_lose _) _ st tt); [reflexivity|]. unfold or_lose, try_catch.
    rewrite (bind_done _ _ _ _ _ Hw), Ee. erewrite bind_done by reflexivity. cbv beta.
    rewrite Hb; [done|]. apply make_empty_batch_ok in Ee as [_ ->]. apply schema_equal_refl.
  - unfold exchange. rewrite (bind_done _ _ st tt st) by by apply require_allowed.
    rewrite (bind_done get _ st st st) by done. cbn [cs_finished st stream_at]. rewrite Hi.
    assert ((match cs_input_schema st with Some s => negb (schema_equal_metadata s in_schema) | None => false end) = false)
      as -> by (unfold st; cbn [cs_input_schema stream_at]; destruct b; [by rewrite same_in|done]).
    erewrite (bind_done (or_lose _) _ st tt); [reflexivity|]. unfold or_lose, try_catch.
    rewrite (bind_done _ _ _ _ _ Hw). erewrite bind_done by reflexivity. cbv beta iota.
    rewrite Hb; [done|]. rewrite Hi. apply schema_equal_refl.
Qed.

(** A finished stream answers nothing more, and sends nothing. *)
Lemma step_finished i app inp eos out wr :
  input_ok i ->
  let st := stream_at app inp eos out wr true true true in step i st = (Done (inr None), st).
Proof.
  intros _ st. unfold step. destruct kind eqn:Ek.
  - unfold tick. rewrite (bind_done _ _ st tt st) by by apply require_allowed. done.
  - unfold exchange. rewrite (bind_done _ _ st tt st) by by apply require_allowed. done.
Qed.

Fixpoint steps (ins : list step_input) : M stream (list (RpcException + option AnnotatedBatch)) :=
  match ins with
  | [] => mret []
  | i :: ins' => r ← step i; rs ← steps ins'; mret (r :: rs)
  end.

Lemma steps_finished ins app inp eos out wr :
  Forall input_ok ins ->
  let st := stream_at app inp eos out wr true true true in
  steps ins st = (Done (replicate (length ins) (inr None)), st).
Proof.
  intros Hall st. induction Hall as [|i ins Hi _ IH]; [done|]. cbn [steps length replicate].
  rewrite (bind_done _ _ _ _ _ (step_finished i app inp eos out wr Hi)). fold st.
  by rewrite (bind_done _ _ _ _ _ IH).
Qed.

Lemma deliver_app ms ms' (a a1 a2 : App) :
  deliver options ms a = (Done tt, a1) -> deliver options ms' a1 = (Done tt, a2) ->
  deliver options (ms ++ ms') a = (Done tt, a2).
Proof.
  revert a; induction ms as [|m ms IH]; intros a; cbn [deliver Datatypes.app]; [by intros [= ->]|].
  intros (u & a' & E & Hd)%bind_done_inv Hd'. rewrite (bind_done _ _ _ _ _ E). by eapply IH.
Qed.

(** The stream where [steps] leaves it. *)
Definition stream_left (app : App) (unread : option (list AnnotatedBatch)) (out : list message) : stream :=
  match unread with
  | None => stream_at app rest true out (Some (in_schema, true)) true true true
  | Some abs => stream_at app (to_read abs) false out (Some (in_schema, true)) true true false
  end.

Lemma next_spec_plain abs :
  Forall plain_answer abs -> let '(_, _, after) := next_spec abs in Forall plain_answer after.
Proof.
  induction 1 as [|ab abs Hab Hall IH]; cbn [next_spec]; [done|].
  destruct (ab_type ab); try done. by destruct (next_spec abs) as [[logs r] after].
Qed.

Lemma steps_read ins abs app out :
  Forall input_ok ins -> Forall plain_answer abs ->
  let '(logs, rs, unread, k) := read_spec (length ins) abs in
  exists app', deliver options logs app = (Done tt, app') /\
    steps ins (stream_at app (to_read abs) false out (Some (in_schema, true)) true true false) =
      (Done rs, stream_left app' unread (out ++ map ab_message (map sent_as (take k ins)))).
Proof.
  intros His. revert abs app out. induction His as [|i ins Hi His IH]; intros abs app out Hall; cbn [length read_spec].
  { exists app. cbn. by rewrite app_nil_r. }
  pose proof (step_reads true i abs app false out None Hi Hall) as Hs.
  pose proof (next_spec_plain abs Hall) as Hafter. cbn [started_messages Datatypes.app] in Hs.
  destruct (next_spec abs) as [[logs r] after]. destruct Hs as (app1 & Hd & E1).
  destruct (ends_stream r) eqn:Er.
  - exists app1. split; [done|]. cbn [steps]. rewrite (bind_done _ _ _ _ _ E1). cbv beta. unfold stream_after.
    rewrite Er. rewrite (bind_done _ _ _ _ _ (steps_finished ins _ _ _ _ _ His)). done.
  - specialize (IH after app1 (out ++ [ab_message (sent_as i)]) Hafter).
    destruct (read_spec (length ins) after) as [[[logs' rs] unread] k]. destruct IH as (app2 & Hd2 & E2).
    exists app2. split; [by eapply deliver_app|]. cbn [steps]. rewrite (bind_done _ _ _ _ _ E1). cbv beta.
    unfold stream_after. rewrite Er. rewrite (bind_done _ _ _ _ _ E2). cbn [take map]. by rewrite <- app_assoc.
Qed.

(** The first step opens the writer and the reader. *)
Lemma steps_read_fresh i ins abs app eos wr :
  Forall input_ok (i :: ins) -> Forall plain_answer abs ->
  let '(logs, rs, unread, k) := read_spec (length (i :: ins)) abs in
  exists app', deliver options logs app = (Done tt, app') /\
    steps (i :: ins) (stream_at app (MsgSchema out_schema :: to_read abs) eos out0 wr false false false) =
      (Done rs, stream_left app' unread (out0 ++ MsgSchema in_schema :: map ab_message (map sent_as (take k (i :: ins))))).
Proof.
  intros [Hi His]%Forall_cons Hall. cbn [length read_spec].
  pose proof (step_reads false i abs app eos out0 wr Hi Hall) as Hs.
  pose proof (next_spec_plain abs Hall) as Hafter. cbn [started_messages Datatypes.app] in Hs.
  destruct (next_spec abs) as [[logs r] after]. destruct Hs as (app1 & Hd & E1).
  destruct (ends_stream r) eqn:Er.
  - exists app1. split; [done|]. cbn [steps]. rewrite (bind_done _ _ _ _ _ E1). cbv beta. unfold stream_after.
    rewrite Er. rewrite (bind_done _ _ _ _ _ (steps_finished ins _ _ _ _ _ His)). done.
  - pose proof (steps_read ins after app1 (out0 ++ [MsgSchema in_schema; ab_message (sent_as i)]) His Hafter) as IH.
    destruct (read_spec (length ins) after) as [[[logs' rs] unread] k]. destruct IH as (app2 & Hd2 & E2).
    exists app2. split; [by eapply deliver_app|]. cbn [steps]. rewrite (bind_done _ _ _ _ _ E1). cbv beta.
    unfold stream_after. rewrite Er. rewrite (bind_done _ _ _ _ _ E2). cbn [take map]. by rewrite <- app_assoc.
Qed.

Lemma read_spec_plain n abs :
  Forall plain_answer abs ->
  let '(_, _, unread, _) := read_spec n abs in Forall plain_answer (default [] unread).
Proof.
  revert abs; induction n as [|n IH]; intros abs Hall; cbn [read_spec]; [done|].
  pose proof (next_spec_plain abs Hall) as Hafter. destruct (next_spec abs) as [[logs r] after].
  destruct (ends_stream r); [constructor|]. specialize (IH after Hafter).
  by destruct (read_spec n after) as [[[logs' rs] unread] k].
Qed.

(** *** Closing *)

(** A stream that is being closed: its input has ended. *)
Definition ending_stream (app : App) (i : list message) (eos finished : bool) (out : list message) : stream :=
  set_cs_closed (stream_at app i eos (out ++ [MsgEos]) None true true finished).

Lemma drain_reads fuel abs pending app out :
  Forall plain_answer abs -> (length abs < fuel)%nat ->
  exists app', deliver options (drain_spec abs).1 app = (Done tt, app') /\
    drain_batches options fuel pending (ending_stream app (to_read abs) false false out) =
      (Done (match pending with Some _ => pending | None => (drain_spec abs).2 end), ending_stream app' rest true false out).
Proof.
  intros Hall. revert fuel pending app. induction Hall as [|ab abs Hab _ IH]; intros fuel pending app Hf;
    (destruct fuel as [|fuel]; [cbn in Hf; lia|]); cbn [drain_batches].
  { exists app. split; [done|]. erewrite bind_done by reflexivity. by destruct pending. }
  cbn in Hf. set (st1 := ending_stream app (to_read abs) false false out).
  rewrite (bind_done (on_s_wire read_next) _ _ (NextBatch (ab_batch ab) (custom_metadata ab)) st1) by done.
  cbv beta iota zeta. assert ({| ab_batch := ab_batch ab; custom_metadata := custom_metadata ab |} = ab) as ->
    by by destruct ab.
  cbn [drain_spec]. specialize (IH fuel). destruct (drain_spec abs) as [logs e].
  unfold plain_answer in Hab. destruct (ab_type ab) eqn:Et; try done; cbn [fst snd] in *.
  - apply IH. lia.
  - unfold log_of. destruct (log_message ab) as [m|err] eqn:Em; [|by destruct Hab]. cbn [Datatypes.app deliver].
    destruct (taken m app) as [app1 E1]. destruct (IH pending app1 ltac:(lia)) as (app2 & Ed & E2).
    exists app2. split; [by rewrite (bind_done _ _ _ _ _ E1)|].
    rewrite (bind_done _ _ st1 tt (ending_stream app1 (to_read abs) false false out)); [done|].
    unfold on_client, zoom. by rewrite (dispatch_client_log_done _ _ m _ app1).
  - destruct (IH (match pending with Some _ => pending | None => Some (remote_exception ab) end) app ltac:(lia))
      as (app2 & Ed & E2). exists app2. split; [done|]. refine (eq_trans E2 _). by destruct pending.
Qed.

(** The rest of the output is read, finished or not. *)
Lemma drain_left app unread out :
  Forall plain_answer (default [] unread) ->
  let st := match unread with
            | Some abs => ending_stream app (to_read abs) false false out
            | None => ending_stream app rest true true out
            end in
  exists app', deliver options (close_spec unread).1 app = (Done tt, app') /\
    drain_output options st = (Done (close_spec unread).2, ending_stream app' rest true true out).
Proof.
  intros Hall st. unfold drain_output. destruct unread as [abs|]; cbn [default close_spec] in *.
  - destruct (drain_reads (S (length (to_read abs))) abs None app out Hall) as (app' & Ed & E).
    { unfold to_read. rewrite length_app, length_map. lia. }
    exists app'. split; [done|]. rewrite (bind_done ensure_output_reader _ st tt st) by done.
    erewrite bind_done by reflexivity. change (input (c_wire (cs_client st))) with (to_read abs).
    fold st in E. by rewrite (bind_done _ _ _ _ _ E).
  - exists app. split; [done|]. rewrite (bind_done ensure_output_reader _ st tt st) by done.
    by rewrite (bind_done get _ st st st) by done.
Qed.

(** Closing ends the input, reads what is left, and gives the connection back, or up
    when an error is in it. *)
Lemma left_closes app unread out :
  Forall plain_answer (default [] unread) ->
  exists app' st', close options (stream_left app unread out) = (Done (close_spec unread).2, st') /\
    deliver options (close_spec unread).1 app = (Done tt, app') /\ app_of (cs_client st') = app' /\
    match (close_spec unread).2 with
    | None => given_back st' /\ c_wire (cs_client st') =
        {| input := rest; at_eos := true; output := out ++ [MsgEos]; writer := None; room := None |}
    | Some _ => lost (cs_client st')
    end.
Proof.
  intros Hall. set (st := stream_left app unread out). unfold close.
  assert (cs_closed st = false) as Hc by by destruct unread.
  rewrite (bind_done get _ st st st) by done. rewrite Hc.
  rewrite (bind_done (modify set_cs_closed) _ st tt (set_cs_closed st)) by done.
  destruct (drain_left app unread out Hall) as (app' & Hd & Edrain).
  set (st2 := match unread with Some abs => ending_stream app (to_read abs) false false out | None => _ end) in Edrain.
  assert (close_writer (set_cs_closed st) = (Done tt, st2)) as Ew.
  { unfold close_writer. rewrite (bind_done get _ _ (set_cs_closed st) (set_cs_closed st)) by done.
    rewrite (bind_done _ _ _ tt (set_cs_closed st)) by by destruct unread.
    unfold on_s_wire, on_client, on_c_wire, zoom. unfold st, st2.
    destruct unread; by rewrite (Close_spec in_schema true) by done. }
  unfold or_lose_pending. destruct (close_spec unread) as [logs [e|]]; cbn [fst snd] in *; do 2 eexists.
  - erewrite (bind_done (or_lose _)).
    2:{ unfold or_lose, try_catch. rewrite (bind_done _ _ _ _ _ Ew), (bind_done _ _ _ _ _ Edrain). reflexivity. }
    split; [reflexivity|]. split; [exact Hd|]. split; [reflexivity|]. by split_and!.
  - erewrite (bind_done (or_lose _)).
    2:{ unfold or_lose, try_catch. rewrite (bind_done _ _ _ _ _ Ew), (bind_done _ _ _ _ _ Edrain). reflexivity. }
    split; [reflexivity|]. split; [exact Hd|]. split; [reflexivity|].
    split; [|done]. split; [|by split_and!]. split; [by split|done].
Qed.
End stream_reads.

(** ** Properties *)

(** C3: the discipline of a client's connection.  However calls, streams, ticks,
    exchanges, cancellations, closings and destructions follow each other, whatever the
    server writes and the log handler throws: a client between calls holds no
    reservation and is closed exactly when its transport is; a call leaves it idle when
    it is answered, with an error of the worker as well, and gives the connection up for
    good when anything is thrown, unless the call was refused before it began (its
    metadata cannot be built, or the client was not idle), which changes nothing; and so
    does opening a stream, after which the stream holds the connection.  A stream that is
    not over holds the connection and refuses every other call without touching it; a
    tick or an exchange leaves it holding the connection, or throws and gives the
    connection up for good, unless it was refused before it began (the stream is of the
    other kind, or the batch is of another schema than the first), which changes nothing.
    Closing or cancelling it gives the connection back for the next call, or gives it up
    with the exception that was thrown or read; destroying it gives it up.  A stream that
    is over refuses every step and touches nothing. *)
Theorem client_session_invariant
    {arrow : Arrow} {streams : ArrowStreams} {kvm : KeyValueMetadata} {buffers : BufferStreams}
    {J : JsonText} {D : Digests} {pton : InetPton} {ntop : InetNtop} {network : Network} {zstd : Zstd}
    {texts : ClientTexts} {App : Type} (options : RpcClientOptions App) (c : RpcClient App) x :
  free_client c -> rtc (client_step options) (Between c) x ->
  match x with
  | Between c' =>
      c_active c' = false /\ (idle c' \/ lost c') /\
      (forall method params md random_id,
         match call_unary options method params md random_id c' with
         | (Done _, c'') => idle c''
         | (Raised _, c'') => c'' = c' /\ not_called options method md random_id c' \/ lost c''
         end) /\
      (forall method params has_header md kind random_id,
         match open_stream options method params has_header md kind random_id c' with
         | (Done (inr st), _) => live st
         | (Done (inl _), c'') => idle c'' \/ lost c''
         | (Raised _, c'') => c'' = c' /\ not_called options method md random_id c' \/ lost c''
         end)
  | During st =>
      live st /\
      (forall method params md random_id, exists e,
         on_client (call_unary options method params md random_id) st = (Raised e, st)) /\
      (forall md, match tick options md st with
         | (Done _, st') => live st'
         | (Raised _, st') => st' = st /\ cs_kind st <> PRODUCER_STREAM \/ ended st' /\ lost (cs_client st')
         end) /\
      (forall env b md, match exchange options env b md st with
         | (Done _, st') => live st'
         | (Raised _, st') =>
             st' = st /\ (cs_kind st <> EXCHANGE_STREAM \/ cs_finished st = false /\ other_input b st)
             \/ ended st' /\ lost (cs_client st')
         end) /\
      (forall r st', close options st = (r, st') \/ cancel options st = (r, st') ->
         cs_closed st' = true /\
         match r with Done None => idle (cs_client st') | _ => lost (cs_client st') end) /\
      lost (destroy st)
      \/
      ended st /\
      (forall md, exists e, tick options md st = (Raised e, st)) /\
      (forall env b md, exists e, exchange options env b md st = (Raised e, st)) /\
      close options st = (Done None, st) /\ destroy st = cs_client st
  end.
Proof.
  intros Hc Hr. pose proof (client_steps_ok options (Between c) x Hr Hc) as Hok.
  destruct x as [c'|st]; cbn [session_ok] in Hok.
  { split; [apply Hok|]. split; [by apply free_cases|]. split.
    - intros method params md random_id. by apply call_unary_left.
    - intros method params has_header md kind random_id. by apply open_stream_spec. }
  destruct Hok as [Hl|He]; [left|right].
  - split; [done|]. split; [|split; [|split; [|split]]].
    + intros method params md random_id.
      destruct (call_unary_held options method params md random_id (cs_client st) (proj1 Hl)) as [e E].
      exists e. unfold on_client, zoom. rewrite E. by destruct st.
    + intros md. pose proof (tick_left options md st Hl) as H. by destruct (tick options md st) as [[a|e] st'].
    + intros env b md. pose proof (exchange_left options env b md st Hl) as H.
      by destruct (exchange options env b md st) as [[a|e] st'].
    + intros r st' Hend. assert (finished_as r st') as Hf.
      { pose proof (close_live options st Hl) as H1. pose proof (cancel_live options st Hl) as H2.
        destruct Hend as [E|E]; [by rewrite E in H1|by rewrite E in H2]. }
      destruct r as [[?|]|?]; destruct Hf as [(_ & ? & _) ?]; by split.
    + unfold destroy. destruct Hl as (_ & _ & -> & _). by split_and!.
  - split; [done|]. split; [|split; [|split]].
    + intros md. destruct (ended_refuses PRODUCER_STREAM (str "tick") st He) as [e E].
      exists e. unfold tick. by rewrite (bind_raised _ _ _ _ _ E).
    + intros env b md. destruct (ended_refuses EXCHANGE_STREAM (str "exchange") st He) as [e E].
      exists e. unfold exchange. by rewrite (bind_raised _ _ _ _ _ E).
    + by apply close_ended.
    + unfold destroy. by destruct He as (_ & -> & _).
Qed.

Lemma stream_opens {arrow : Arrow} {streams : ArrowStreams} {kvm : KeyValueMetadata} {buffers : BufferStreams}
    {J : JsonText} {D : Digests} {pton : InetPton} {ntop : InetNtop} {network : Network} {zstd : Zstd}
    {texts : ClientTexts} {slaws : ArrowStreamsLaws} {total : ArrowTotal} {App : Type}
    (options : RpcClientOptions App) kind in_schema method params md rmd random_id (c : RpcClient App) i :
  idle c -> c_shm c = None -> room (c_wire c) = None -> input (c_wire c) = i ->
  request_metadata method (opt_protocol options) (opt_protocol_version options) md None random_id = Ok rmd ->
  let request := stream_messages (schema params) [with_metadata params rmd] in
  exists c1, open_stream options method params false md kind random_id c =
    (Done (inr (stream_at kind None (c_exchange c) in_schema (app_of c) i (at_eos (c_wire c))
                  (output (c_wire c) ++ request) None false false false)), c1).
Proof.
  intros Hi Hs Hr Hin E request. unfold open_stream. rewrite (bind_done get _ c c c) by done. rewrite Hs, E.
  rewrite (bind_done (lift (Ok rmd)) _ c rmd c) by done. rewrite (bind_done _ _ _ _ _ (reserve_idle c Hi)). cbv beta.
  set (c1 := set_c_active c true). set (c2 := set_c_wire c1 (sent (c_wire c1) request None)).
  rewrite (bind_done (or_abort _) _ c1 tt c2); cycle 1.
  { unfold or_abort, try_catch, send_params, on_c_wire, zoom. rewrite (write_ipc_stream_spec (schema params)); [done|done|..].
    - apply writer_total.
    - repeat constructor. apply schema_equal_refl. }
  exists c2. cbn [read_header mret M_ret]. destruct Hi as (Hc & Ho & Ha), c as [w x shm o a cl].
  cbn in Hs, Hr, Hin, Hc, Ho, Ha. subst. unfold new_stream, c2, c1, stream_at, sent. cbn. rewrite Hr. by destruct x.
Qed.

(** C2: a client's stream is read as the response it is.  The stream is one without a
    header and without a shared-memory segment, on a pipe that does not break; the
    server's answer to it is a complete stream of logs that parse, data batches and
    errors, none of them moved to a storage or a segment; the log handler does not throw;
    and every exchange has the schema of the first.  Then opening the stream, one or more
    ticks or exchanges, and closing it write exactly the request and one complete input
    stream with a batch for every step up to the one that finished; the steps return
    exactly the data batches in their order, then the error or the end, and nothing after
    it; the log handler gets exactly the logs before each answer, in order.  Closing
    hands over every log that is left.  When no error is among what was not read, the
    connection is left behind the response, with the client idle; otherwise closing
    returns the first such error and the connection is given up for good. *)
Theorem stream_read_as_response
    {arrow : Arrow} {streams : ArrowStreams} {kvm : KeyValueMetadata} {buffers : BufferStreams}
    {J : JsonText} {D : Digests} {pton : InetPton} {ntop : InetNtop} {network : Network} {zstd : Zstd}
    {texts : ClientTexts} {alaws : ArrowLaws} {slaws : ArrowStreamsLaws} {total : ArrowTotal} {App : Type}
    (options : RpcClientOptions App) kind env empty in_schema out_schema method params md rmd random_id
    (c : RpcClient App) i ins abs rest :
  logs_taken options -> make_empty_batch empty_schema = Ok empty ->
  schema_equal_metadata in_schema in_schema = true ->
  idle c -> c_shm c = None -> room (c_wire c) = None ->
  request_metadata method (opt_protocol options) (opt_protocol_version options) md None random_id = Ok rmd ->
  input (c_wire c) = stream_messages out_schema abs ++ rest ->
  Forall (input_ok kind in_schema) (i :: ins) -> Forall plain_answer abs ->
  let '(logs, rs, unread, k) := read_spec (length (i :: ins)) abs in
  exists st c1 st',
    open_stream options method params false md kind random_id c = (Done (inr st), c1) /\
    steps options kind env (i :: ins) st = (Done rs, st') /\
    deliver options logs (app_of c) = (Done tt, app_of (cs_client st')) /\
    exists st'', close options st' = (Done (close_spec unread).2, st'') /\
      deliver options (close_spec unread).1 (app_of (cs_client st')) = (Done tt, app_of (cs_client st'')) /\
      match (close_spec unread).2 with
      | None => idle (cs_client st'') /\ c_wire (cs_client st'') = wire_after (c_wire c)
          (stream_messages (schema params) [with_metadata params rmd]
           ++ stream_messages in_schema (map (sent_as kind empty) (take k (i :: ins)))) rest
      | Some _ => lost (cs_client st'')
      end.
Proof.
  intros Ht He Hsame Hidle Hshm Hroom Hmd Hin Hins Habs.
  assert (input (c_wire c) = MsgSchema out_schema :: to_read rest abs) as Hin'
    by (rewrite Hin; unfold stream_messages, to_read; cbn; by rewrite <- app_assoc).
  destruct (stream_opens options kind in_schema method params md rmd random_id c _ Hidle Hshm Hroom Hin' Hmd)
    as [c1 Eopen].
  pose proof (steps_read_fresh options Ht kind None env (c_exchange c) empty He in_schema out_schema Hsame
    (output (c_wire c) ++ stream_messages (schema params) [with_metadata params rmd]) rest i ins abs (app_of c)
    (at_eos (c_wire c)) None Hins Habs) as Hsteps.
  pose proof (read_spec_plain (length (i :: ins)) abs Habs) as Hplain.
  destruct (read_spec (length (i :: ins)) abs) as [[[logs rs] unread] k]. destruct Hsteps as (app' & Hd & Es).
  eexists _, c1, _. split; [exact Eopen|]. split; [exact Es|]. split; [by destruct unread|].
  match goal with |- context [stream_left _ _ _ _ _ _ _ ?o] =>
    destruct (left_closes options Ht kind None (c_exchange c) in_schema rest app' unread o Hplain)
      as (app2 & st'' & Ec & Hd2 & Ha & Hend) end.
  exists st''. split; [exact Ec|]. split; [rewrite Ha; by destruct unread|].
  destruct (close_spec unread).2; [exact Hend|]. destruct Hend as [Hg Hw]. split; [apply Hg|]. rewrite Hw. unfold wire_after.
  f_equal. unfold stream_messages. cbn. by rewrite <- !app_assoc.
Qed.

(** ** Witnesses *)

Import ToyArrow ToyStreams Json.ToyJson ToyTypes ToyBuild ToyInet ToyNetwork ToyClient.

Section witnesses.
#[local] Existing Instances Toy.digests Toy.digest_laws.

Definition read_log (text : bytes) : Message := {| msg_level := INFO; msg_message := text; msg_extra := JObject [] |}.

Definition log_batch (text : bytes) : AnnotatedBatch :=
  with_metadata (toy_data_batch []) (log_entry (str "srv") (str "r1") (a_message text)).

Definition demo_response : list AnnotatedBatch :=
  [log_batch (str "opened"); data (toy_data_batch [x01]); log_batch (str "copying"); data (toy_data_batch [x02])].

Definition demo_inputs : list (RecordBatch * metadata) :=
  [(toy_data_batch [x02], None); (toy_data_batch [x03], None)].

Definition copy_md : kv_list :=
  [(METHOD, str "copy"); (PROTOCOL, str "demo.v1"); (REQUEST_VERSION, REQUEST_VERSION_VALUE);
   (REQUEST_ID, str "id"); (PROTOCOL_VERSION, str "1.2.9")].

Lemma stream_read_as_response_witness :
  exists st c1 st' st'',
    open_stream demo_options (str "copy") (toy_data_batch [x09]) false None EXCHANGE_STREAM (str "id")
      (demo_client (stream_messages toy_schema demo_response ++ [MsgEos])) = (Done (inr st), c1) /\
    steps demo_options EXCHANGE_STREAM None ((toy_data_batch [x01], None) :: demo_inputs) st =
      (Done [inr (Some (data (toy_data_batch [x01]))); inr (Some (data (toy_data_batch [x02]))); inr None], st') /\
    close demo_options st' = (Done None, st'') /\
    app_of (cs_client st'') = [read_log (str "opened"); read_log (str "copying")] /\
    input (c_wire (cs_client st'')) = [MsgEos].
Proof.
  pose proof (stream_read_as_response demo_options EXCHANGE_STREAM None (toy_data_batch []) toy_schema toy_schema
    (str "copy") (toy_data_batch [x09]) None copy_md (str "id")
    (demo_client (stream_messages toy_schema demo_response ++ [MsgEos])) (toy_data_batch [x01], None) demo_inputs
    demo_response [MsgEos]) as H.
  change (length ((toy_data_batch [x01], None) :: demo_inputs)) with 3%nat in H.
  assert (read_spec 3 demo_response =
    ([read_log (str "opened"); read_log (str "copying")],
     [inr (Some (data (toy_data_batch [x01]))); inr (Some (data (toy_data_batch [x02]))); inr None], None, 3%nat)) as E
    by (vm_compute; reflexivity).
  rewrite E in H. destruct H as (st & c1 & st' & Eo & Es & Ed & Hc);
    [intros m a; by eexists|reflexivity|reflexivity|by repeat split|reflexivity|reflexivity|vm_compute; reflexivity|
     reflexivity|by repeat constructor|repeat constructor; vm_compute; by eexists|].
  destruct Hc as (st'' & Ec & Ha & _ & Hw). exists st, c1, st', st''.
  split; [exact Eo|]. split; [exact Es|]. split; [exact Ec|]. split; [|by rewrite Hw].
  cbn in Ha. injection Ha as <-. cbn in Ed. injection Ed as <-. reflexivity.
Defined.

(** Opening, dropping the stream: the connection is lost. *)
Lemma client_session_invariant_witness :
  exists st, rtc (client_step demo_options) (Between (demo_client [])) (During st) /\ lost (destroy st).
Proof.
  destruct (stream_opens demo_options EXCHANGE_STREAM toy_schema (str "copy") (toy_data_batch [x09]) None copy_md
    (str "id") (demo_client []) []) as [c1 E]; [by repeat split|reflexivity|reflexivity|reflexivity|vm_compute; reflexivity|].
  match type of E with _ = (Done (inr ?st0), _) => set (st := st0) in E end.
  assert (rtc (client_step demo_options) (Between (demo_client [])) (During st)) as Hr
    by (exact (rtc_once _ _ (step_open _ _ _ _ _ _ _ _ _ _ E))).
  exists st. split; [exact Hr|].
  destruct (client_session_invariant demo_options (demo_client []) (During st) (conj eq_refl eq_refl) Hr)
    as [(_ & _ & _ & _ & _ & Hd)|(He & _)]; [exact Hd|]. destruct He as (_ & Hc & _). discriminate Hc.
Defined.
End witnesses.
