(* ===== verification/ClientDescription.v ===== *)
(** * What a client reads of a server's protocols (src/src/client_description.cpp,
    the reflection calls of client.cpp)

    The decoders of the replies of [list_protocols] and [describe], and the calls of
    [RpcClient] that use them.  Arrow arrays are what their casts reveal. *)

From S2P Require Import Prelude Arrow Json Crypto Errors IdentityInternal ProxyProtocol Shm Wire Calls.
From S2P Require Import ExternalUrl ClientExternal ProtocolHash Reflection Server Dispatch Client.

(** [std::dynamic_pointer_cast] to an array class, and the slots it then gives: a null
    slot is [None].  A list array's slot is its [value_slice]. *)
Class ArrowViews `{Arrow} := {
  strings_of : Array -> option (list (option bytes));
  binaries_of : Array -> option (list (option bytes));
  booleans_of : Array -> option (list (option bool));
  lists_of : Array -> option (list (option Array));
  struct_rows : Array -> option Z;
  GetFieldByName : Array -> bytes -> option Array;
  ReadSchema : bytes -> res Schema;
}.

(** ** Descriptions *)

Section description.
Context {arrow : Arrow}.

Record MethodDescription := {
  md_name : bytes;
  md_method_type : bytes;
  md_has_return : bool;
  md_params_schema : Schema;
  md_result_schema : Schema;
  md_has_header : bool;
  md_header_schema : option Schema;
  md_is_exchange : option bool;
}.

Record ServiceDescription := {
  sd_protocol_name : bytes;
  sd_request_version : bytes;
  sd_describe_version : bytes;
  sd_protocol_hash : bytes;
  sd_server_id : bytes;
  sd_protocol_version : bytes;
  sd_methods : gmap bytes MethodDescription;
}.

Definition method (sd : ServiceDescription) (name : bytes) : option MethodDescription := sd_methods sd !! name.
End description.

Record HostedProtocol := {
  hp_name : bytes;
  hp_version : bytes;
  hp_hash : bytes;
  hp_deprecated : bool;
  hp_deprecation_message : bytes;
  hp_features : list bytes;
}.

Record ProtocolListing := {
  pl_server_id : bytes;
  pl_server_version : bytes;
  pl_request_version : bytes;
  pl_protocols : list HostedProtocol;
}.

(** The first protocol that is not one of the framework's. *)
Definition application (listing : ProtocolListing) : option HostedProtocol :=
  List.find (fun s => negb (starts_with (str "vgi_rpc.") (hp_name s))) (pl_protocols listing).

Definition is_xdigit (c : byte) : bool :=
  let z := b2z c in ((48 <=? z) && (z <=? 57)) || ((65 <=? z) && (z <=? 70)) || ((97 <=? z) && (z <=? 102)).

Definition is_sha256_hex (value : bytes) : bool := (blen value =? 64) && forallb is_xdigit value.

Definition DESCRIBE_VERSION_VALUE : bytes := str "5".

(** A decoder per row, in order. *)
Fixpoint decode_rows {A} (decode : nat -> res A) (row n : nat) : res (list A) :=
  match n with
  | O => Ok []
  | S n' => x ← decode row; xs ← decode_rows decode (S row) n'; Ok (x :: xs)
  end.

Section decode.
Context {arrow : Arrow} {afields : ArrowFields} {streams : ArrowStreams} {views : ArrowViews}.

Definition reflection_payload (response : AnnotatedBatch) (what : bytes) : res RecordBatch :=
  let no_payload := Throw (RuntimeError (what ++ str " reply has no 'result' payload")) in
  match GetColumnByName (ab_batch response) (str "result") with
  | None => no_payload
  | Some column =>
      match binaries_of column with
      | Some (Some data :: _) =>
          batch ← read_stream data;
          match batch with
          | Some batch =>
              if num_rows batch <? 1 then Throw (RuntimeError (what ++ str " reply payload is empty")) else Ok batch
          | None => Throw (RuntimeError (what ++ str " reply payload is empty"))
          end
      | _ => no_payload
      end
  end.

Definition missing_required {A} (what name : bytes) : res A :=
  Throw (RuntimeError (what ++ str " reply is missing required field '" ++ name ++ str "'")).

Definition wrong_type {A} (what name : bytes) : res A :=
  Throw (RuntimeError (what ++ str " reply field '" ++ name ++ str "' has the wrong Arrow type")).

(** The slot of a row: [row] is one of the array's. *)
Definition slot {A} (vs : list (option A)) (row : nat) : option A := match vs !! row with Some v => v | None => None end.

Definition take_string (column : option Array) (row : nat) (what name : bytes) (fallback : option bytes) : res bytes :=
  match column with
  | None => match fallback with Some v => Ok v | None => missing_required what name end
  | Some column =>
      match strings_of column with
      | None => wrong_type what name
      | Some vs => Ok (match slot vs row with Some v => v | None => default [] fallback end)
      end
  end.

Definition take_bool (column : option Array) (row : nat) (what name : bytes) (fallback : option bool) : res bool :=
  match column with
  | None => match fallback with Some v => Ok v | None => missing_required what name end
  | Some column =>
      match booleans_of column with
      | None => wrong_type what name
      | Some vs => Ok (match slot vs row with Some v => v | None => default false fallback end)
      end
  end.

Definition take_binary (column : option Array) (row : nat) (what name : bytes) : res bytes :=
  match column with
  | None => missing_required what name
  | Some column =>
      match binaries_of column with
      | None => wrong_type what name
      | Some vs => Ok (default [] (slot vs row))
      end
  end.

Definition take_string_list (column : option Array) (row : nat) (what name : bytes) : res (list bytes) :=
  match column with
  | None => missing_required what name
  | Some column =>
      match lists_of column with
      | None => wrong_type what name
      | Some vs =>
          match slot vs row with
          | None => Ok []
          | Some items =>
              match strings_of items with
              | None => wrong_type what name
              | Some items => Ok (map (default []) items)
              end
          end
      end
  end.

Definition take_struct_list (column : option Array) (row : nat) (what name : bytes) : res (option (Array * Z)) :=
  match column with
  | None => missing_required what name
  | Some column =>
      match lists_of column with
      | None => wrong_type what name
      | Some vs =>
          match slot vs row with
          | None => Ok None
          | Some values =>
              match struct_rows values with
              | None => wrong_type what name
              | Some n => Ok (Some (values, n))
              end
          end
      end
  end.

Definition schema_from_ipc (b : bytes) : res Schema := match b with [] => Ok empty_schema | _ => ReadSchema b end.

(** The field of a batch or of a struct, required. *)
Abbreviation batch_string batch what name := (take_string (GetColumnByName batch (str name)) 0 what (str name) None).
Abbreviation row_string values row what name := (take_string (GetFieldByName values (str name)) row what (str name) None).
Abbreviation row_bool values row what name := (take_bool (GetFieldByName values (str name)) row what (str name) None).
Abbreviation row_binary values row what name := (take_binary (GetFieldByName values (str name)) row what (str name)).

Definition decode_summary (values : Array) (what : bytes) (row : nat) : res HostedProtocol :=
  name ← row_string values row what "protocol";
  version ← row_string values row what "protocol_version";
  hash ← row_string values row what "protocol_hash";
  deprecated ← row_bool values row what "deprecated";
  message ← row_string values row what "deprecation_message";
  features ← take_string_list (GetFieldByName values (str "features")) row what (str "features");
  Ok {| hp_name := name; hp_version := version; hp_hash := hash; hp_deprecated := deprecated;
        hp_deprecation_message := message; hp_features := features |}.

Definition decode_protocol_list (response : AnnotatedBatch) : res ProtocolListing :=
  let kWhat := str "list_protocols" in
  batch ← reflection_payload response kWhat;
  server_id ← batch_string batch kWhat "server_id";
  server_version ← batch_string batch kWhat "server_version";
  request_version ← batch_string batch kWhat "request_version";
  _ ← throw_if (negb (bool_decide (request_version = REQUEST_VERSION_VALUE)))
        (RuntimeError (str "unsupported request version in list_protocols reply: " ++ request_version));
  values ← take_struct_list (GetColumnByName batch (str "protocols")) 0 kWhat (str "protocols");
  protocols ← match values with
              | Some (values, n) => decode_rows (decode_summary values kWhat) 0 (Z.to_nat n)
              | None => Ok []
              end;
  Ok {| pl_server_id := server_id; pl_server_version := server_version;
        pl_request_version := request_version; pl_protocols := protocols |}.

Definition decode_method (methods : Array) (what : bytes) (row : nat) : res MethodDescription :=
  name ← row_string methods row what "name";
  _ ← throw_if (bool_decide (name = [])) (RuntimeError (str "describe reply contains an empty method name"));
  type ← row_string methods row what "method_type";
  _ ← throw_if (negb (bool_decide (type = str "unary")) && negb (bool_decide (type = str "stream")))
        (RuntimeError (str "describe reply contains an invalid method type for '" ++ name ++ str "'"));
  has_return ← row_bool methods row what "has_return";
  has_header ← row_bool methods row what "has_header";
  params_ipc ← row_binary methods row what "params_schema_ipc";
  params ← schema_from_ipc params_ipc;
  result_ipc ← row_binary methods row what "result_schema_ipc";
  result ← schema_from_ipc result_ipc;
  header_ipc ← row_binary methods row what "header_schema_ipc";
  header ← (if has_header then s ← schema_from_ipc header_ipc; Ok (Some s) else Ok None);
  kind ← row_string methods row what "stream_kind";
  Ok {| md_name := name; md_method_type := type; md_has_return := has_return; md_params_schema := params;
        md_result_schema := result; md_has_header := has_header; md_header_schema := header;
        md_is_exchange := if bool_decide (kind = str "exchange") then Some true
                          else if bool_decide (kind = str "producer") then Some false else None |}.

(** [emplace], row by row: the name is checked after the rest of the row. *)
Fixpoint decode_methods (methods : Array) (what : bytes) (row n : nat) (out : gmap bytes MethodDescription)
    : res (gmap bytes MethodDescription) :=
  match n with
  | O => Ok out
  | S n' =>
      m ← decode_method methods what row;
      match out !! md_name m with
      | Some _ => Throw (RuntimeError (str "describe reply contains duplicate method names"))
      | None => decode_methods methods what (S row) n' (<[md_name m := m]> out)
      end
  end.

Definition decode_service_description (response : AnnotatedBatch) (listing : option ProtocolListing)
    : res ServiceDescription :=
  let kWhat := str "describe" in
  batch ← reflection_payload response kWhat;
  name ← batch_string batch kWhat "protocol";
  version ← batch_string batch kWhat "protocol_version";
  hash ← batch_string batch kWhat "protocol_hash";
  _ ← throw_if (negb (is_sha256_hex hash)) (RuntimeError (str "describe reply contains an invalid protocol hash"));
  methods ← take_struct_list (GetColumnByName batch (str "methods")) 0 kWhat (str "methods");
  methods ← match methods with
            | Some (methods, n) => decode_methods methods kWhat 0 (Z.to_nat n) ∅
            | None => Ok ∅
            end;
  Ok {| sd_protocol_name := name;
        sd_request_version := match listing with Some l => pl_request_version l | None => [] end;
        sd_describe_version := DESCRIBE_VERSION_VALUE; sd_protocol_hash := hash;
        sd_server_id := match listing with Some l => pl_server_id l | None => [] end;
        sd_protocol_version := version; sd_methods := methods |}.
End decode.

(** ** The calls of the client *)

(** [reflection_client_internal.h]. *)
Definition reflection_not_hosted (error_kind error_code exception_type : bytes) : bool :=
  bool_decide (error_kind = str "protocol_not_supported") || bool_decide (error_kind = str "method_not_implemented")
  || bool_decide (error_code = str "UNIMPLEMENTED") || bool_decide (exception_type = str "ProtocolNotSupportedError")
  || bool_decide (exception_type = str "MethodNotImplementedError").

(** [ReflectionNotSupportedError] is an [RpcException] of its own class. *)
Inductive RemoteFailure :=
  | RemoteError (rx : RpcException)
  | ReflectionNotSupported (rx : RpcException).

Section calls.
Context {arrow : Arrow} {afields : ArrowFields} {streams : ArrowStreams} {build_ : ArrowBuild} {views : ArrowViews}
  {kvm : KeyValueMetadata} {buffers : BufferStreams} {J : JsonText} {D : Digests} {pton : InetPton} {ntop : InetNtop}
  {network : Network} {zstd : Zstd} {texts : ClientTexts} {App : Type} (options : RpcClientOptions App).

Abbreviation client := (RpcClient App).

Definition describe_params (protocol : bytes) : res RecordBatch :=
  column ← StringArray [protocol];
  Ok (RecordBatch_Make (make_schema [Utf8Field (str "protocol")]) 1 [column]).

(** The exceptions of a decoder are not those of the peer. *)
Definition protocol_listing (random_id : bytes) : M client (RemoteFailure + ProtocolListing) :=
  empty ← lift (make_empty_batch empty_schema);
  response ← call_reflection options (str "list_protocols") empty random_id;
  match response with
  | inl rx =>
      mret (inl (if reflection_not_hosted (rs_error_kind (rx_status rx)) (rs_error_code (rx_status rx)) (rx_exception_type rx)
                 then ReflectionNotSupported rx else RemoteError rx))
  | inr ab => listing ← lift (decode_protocol_list ab); mret (inr listing)
  end.

Definition list_protocols (random_id : bytes) : M client (RemoteFailure + list HostedProtocol) :=
  listing ← protocol_listing random_id;
  mret (match listing with inl e => inl e | inr listing => inr (pl_protocols listing) end).

Definition describe_named (name : bytes) (listing : ProtocolListing) (random_id : bytes)
    : M client (RemoteFailure + ServiceDescription) :=
  params ← lift (describe_params name);
  response ← call_reflection options (str "describe") params random_id;
  match response with
  | inl rx => mret (inl (RemoteError rx))
  | inr ab => sd ← lift (decode_service_description ab (Some listing)); mret (inr sd)
  end.

Definition describe_protocol (name random_id1 random_id2 : bytes) : M client (RemoteFailure + ServiceDescription) :=
  listing ← protocol_listing random_id1;
  match listing with
  | inl e => mret (inl e)
  | inr listing => describe_named name listing random_id2
  end.

Definition describe (random_id1 random_id2 : bytes) : M client (RemoteFailure + ServiceDescription) :=
  listing ← protocol_listing random_id1;
  match listing with
  | inl e => mret (inl e)
  | inr listing =>
      match application listing with
      | None => raise (EOther (str "server " ++ pl_server_id listing ++ str " hosts no application protocol"))
      | Some p => describe_named (hp_name p) listing random_id2
      end
  end.
End calls.

(** ** What the decoders make of the server's arrays *)

Class ArrowViewsLaws `{ArrowViews} `{!ArrowFields} `{!ArrowBuild} := {
  strings_built vs a : StringArray vs = Ok a -> strings_of a = Some (map Some vs);
  binaries_built vs a : BinaryArray vs = Ok a -> binaries_of a = Some (map Some vs);
  booleans_built vs a : BooleanArray vs = Ok a -> booleans_of a = Some (map Some vs);
  list_built f n values a :
    ListArray f [0; n] values = Ok a -> struct_rows values = Some n -> lists_of a = Some [Some values];
  empty_lists_built n a :
    EmptyListArray n = Ok a ->
    exists e, lists_of a = Some (replicate (Z.to_nat n) (Some e)) /\ strings_of e = Some [];
  struct_built fs n cols : struct_rows (StructArray fs n cols) = Some n;
  struct_field fs n cols i f c :
    NoDup (map field_name fs) -> fs !! i = Some f -> cols !! i = Some c ->
    GetFieldByName (StructArray fs n cols) (field_name f) = Some c;
  batch_column fs n cols i f c :
    NoDup (map field_name fs) -> fs !! i = Some f -> cols !! i = Some c ->
    GetColumnByName (RecordBatch_Make (make_schema fs) n cols) (field_name f) = Some c;
  schema_read s b : SerializeSchema s = Ok b -> b <> [] /\ ReadSchema b = Ok s;
  first_built v vs a : StringArray (v :: vs) = Ok a -> first_string a = Some v;
}.

(** What fails only when memory cannot be allocated. *)
Class ArrowBuildTotal `{ArrowBuild} := {
  string_total vs : exists a, StringArray vs = Ok a;
  boolean_total vs : exists a, BooleanArray vs = Ok a;
  binary_total vs : exists a, BinaryArray vs = Ok a;
  empty_lists_total n : exists a, EmptyListArray n = Ok a;
  list_total f offsets values : exists a, ListArray f offsets values = Ok a;
  schema_total s : exists b, SerializeSchema s = Ok b;
}.

Section decoding.
Context {arrow : Arrow} {afields : ArrowFields} {streams : ArrowStreams} {build_ : ArrowBuild} {views : ArrowViews}
  {alaws : ArrowLaws} {vlaws : ArrowViewsLaws} {btotal : ArrowBuildTotal}.

Lemma slot_map {A} (vs : list A) row v : vs !! row = Some v -> slot (map Some vs) row = Some v.
Proof. intros E. unfold slot. by rewrite list_lookup_fmap, E. Qed.

Lemma take_string_built vs a row what name fallback v :
  StringArray vs = Ok a -> vs !! row = Some v -> take_string (Some a) row what name fallback = Ok v.
Proof. intros Ea Ev. unfold take_string. rewrite (strings_built _ _ Ea). by rewrite (slot_map _ _ _ Ev). Qed.

Lemma string_column {B} (f : B -> bytes) l a row what name fallback x :
  StringArray (map f l) = Ok a -> l !! row = Some x -> take_string (Some a) row what name fallback = Ok (f x).
Proof. intros Ea Ex. apply (take_string_built _ _ _ _ _ _ _ Ea). by rewrite list_lookup_fmap, Ex. Qed.

Lemma take_bool_built vs a row what name fallback v :
  BooleanArray vs = Ok a -> vs !! row = Some v -> take_bool (Some a) row what name fallback = Ok v.
Proof. intros Ea Ev. unfold take_bool. rewrite (booleans_built _ _ Ea). by rewrite (slot_map _ _ _ Ev). Qed.

Lemma take_binary_built vs a row what name v :
  BinaryArray vs = Ok a -> vs !! row = Some v -> take_binary (Some a) row what name = Ok v.
Proof. intros Ea Ev. unfold take_binary. rewrite (binaries_built _ _ Ea). by rewrite (slot_map _ _ _ Ev). Qed.

Lemma bool_column {B} (f : B -> bool) l a row what name fallback x :
  BooleanArray (map f l) = Ok a -> l !! row = Some x -> take_bool (Some a) row what name fallback = Ok (f x).
Proof. intros Ea Ex. apply (take_bool_built _ _ _ _ _ _ _ Ea). by rewrite list_lookup_fmap, Ex. Qed.

Lemma take_features_built n a row what name :
  EmptyListArray n = Ok a -> (row < Z.to_nat n)%nat -> take_string_list (Some a) row what name = Ok [].
Proof.
  intros Ea Hr. destruct (empty_lists_built _ _ Ea) as (e & El & Es). unfold take_string_list. rewrite El.
  unfold slot. rewrite lookup_replicate_2 by done. by rewrite Es.
Qed.

Lemma take_structs_built f n fs cols a what name :
  ListArray f [0; n] (StructArray fs n cols) = Ok a ->
  take_struct_list (Some a) 0 what name = Ok (Some (StructArray fs n cols, n)).
Proof.
  intros Ea. unfold take_struct_list. rewrite (list_built _ _ _ _ Ea (struct_built _ _ _)). cbn.
  by rewrite struct_built.
Qed.

Lemma decode_rows_map {A B} (decode : nat -> res A) (g : B -> A) (l : list B) base :
  (forall i x, l !! i = Some x -> decode (base + i)%nat = Ok (g x)) ->
  decode_rows decode base (length l) = Ok (map g l).
Proof.
  revert base; induction l as [|x l IH]; intros base H; cbn [length decode_rows map]; [done|].
  rewrite <- (Nat.add_0_r base) at 1. rewrite (H 0%nat x eq_refl). cbn [mbind res_bind].
  rewrite (IH (S base)); [done|]. intros i y Hi. rewrite <- (H (S i) y Hi). f_equal. lia.
Qed.

(** The reply around a payload. *)
Definition reply (arr : Array) : AnnotatedBatch :=
  data (RecordBatch_Make (make_schema [BinaryField (str "result")]) 1 [arr]).

Lemma reply_read payload arr what batch :
  BinaryArray [payload] = Ok arr -> stream_to_buffer batch = Ok payload -> num_rows batch = 1 ->
  reflection_payload (reply arr) what = Ok batch.
Proof.
  intros Ea Eb Hn. unfold reflection_payload, reply. cbn [ab_batch data].
  rewrite (batch_column [BinaryField (str "result")] 1 [arr] 0 (BinaryField (str "result")) arr); try done.
  - rewrite (binaries_built _ _ Ea). cbn [map]. rewrite (read_stream_written _ _ Eb). cbn [mbind res_bind].
    by rewrite Hn.
  - repeat constructor. by apply not_elem_of_nil.
Qed.

(** The summaries a client reads: no protocol is deprecated or has features. *)
Definition hosted (p : ProtocolSummary) : HostedProtocol :=
  {| hp_name := ps_protocol p; hp_version := ps_version p; hp_hash := ps_hash p; hp_deprecated := false;
     hp_deprecation_message := []; hp_features := [] |}.

Lemma summary_decoded ps pa va ha da ma fa row p what :
  StringArray (map ps_protocol ps) = Ok pa -> StringArray (map ps_version ps) = Ok va ->
  StringArray (map ps_hash ps) = Ok ha -> BooleanArray (map (fun _ => false) ps) = Ok da ->
  StringArray (map (fun _ => []) ps) = Ok ma -> EmptyListArray (Z.of_nat (length ps)) = Ok fa ->
  ps !! row = Some p ->
  decode_summary (StructArray ProtocolSummaryFields (Z.of_nat (length ps)) [pa; va; ha; da; ma; fa]) what row
    = Ok (hosted p).
Proof.
  intros Ep Ev Eh Ed Em Ef Hrow. set (values := StructArray _ _ _).
  assert (NoDup (map field_name ProtocolSummaryFields)) as Hnd by (refine (bool_decide_unpack _ _); vm_compute; exact I).
  pose proof (fun i f c => struct_field ProtocolSummaryFields (Z.of_nat (length ps)) [pa; va; ha; da; ma; fa] i f c Hnd) as Hf.
  fold values in Hf. unfold decode_summary.
  rewrite (Hf 0%nat _ pa eq_refl eq_refl : GetFieldByName values (str "protocol") = Some pa),
    (Hf 1%nat _ va eq_refl eq_refl : GetFieldByName values (str "protocol_version") = Some va),
    (Hf 2%nat _ ha eq_refl eq_refl : GetFieldByName values (str "protocol_hash") = Some ha),
    (Hf 3%nat _ da eq_refl eq_refl : GetFieldByName values (str "deprecated") = Some da),
    (Hf 4%nat _ ma eq_refl eq_refl : GetFieldByName values (str "deprecation_message") = Some ma),
    (Hf 5%nat _ fa eq_refl eq_refl : GetFieldByName values (str "features") = Some fa).
  erewrite (string_column ps_protocol ps pa), (string_column ps_version ps va), (string_column ps_hash ps ha),
    (bool_column _ ps da), (string_column _ ps ma), (take_features_built _ fa) by eassumption || (apply lookup_lt_Some in Hrow; lia).
  done.
Qed.

(** What a server says about its protocols, a client reads. *)
Lemma listing_decoded server_id ps payload arr :
  BuildProtocolList server_id [] REQUEST_VERSION_VALUE ps = Ok payload -> BinaryArray [payload] = Ok arr ->
  decode_protocol_list (reply arr) =
    Ok {| pl_server_id := server_id; pl_server_version := []; pl_request_version := REQUEST_VERSION_VALUE;
          pl_protocols := map hosted ps |}.
Proof.
  intros E Ea. unfold BuildProtocolList in E. cbv zeta in E.
  apply res_bind_ok in E as (pa & Ep & E). apply res_bind_ok in E as (va & Ev & E).
  apply res_bind_ok in E as (ha & Eh & E). apply res_bind_ok in E as (da & Ed & E).
  apply res_bind_ok in E as (ma & Em & E). apply res_bind_ok in E as (fa & Ef & E).
  apply res_bind_ok in E as (la & El & E). unfold MakeOneRowBatch, OneString in E. cbn [mbind res_bind] in E.
  destruct (string_total [server_id]) as [ia Ei]. destruct (string_total [[]]) as [na En].
  destruct (string_total [REQUEST_VERSION_VALUE]) as [ra Er].
  rewrite Ei, En, Er in E. unfold BatchToIpc in E. unfold OneRowList in El.
  set (fs := [_; _; _; _]) in E. set (batch := RecordBatch_Make _ 1 _) in E.
  assert (NoDup (map field_name fs)) as Hnd by (refine (bool_decide_unpack _ _); vm_compute; exact I).
  pose proof (fun i f c => batch_column fs 1 [ia; na; ra; la] i f c Hnd) as Hc. fold batch in Hc.
  unfold decode_protocol_list. cbv zeta. rewrite (reply_read payload arr _ batch Ea E) by by apply Make_num_rows.
  cbn [mbind res_bind].
  rewrite (Hc 0%nat _ ia eq_refl eq_refl : GetColumnByName batch (str "server_id") = Some ia),
    (Hc 1%nat _ na eq_refl eq_refl : GetColumnByName batch (str "server_version") = Some na),
    (Hc 2%nat _ ra eq_refl eq_refl : GetColumnByName batch (str "request_version") = Some ra),
    (Hc 3%nat _ la eq_refl eq_refl : GetColumnByName batch (str "protocols") = Some la).
  erewrite (take_string_built [server_id] ia), (take_string_built [[]] na), (take_string_built [REQUEST_VERSION_VALUE] ra)
    by done. cbn [mbind res_bind].
  rewrite bool_decide_eq_true_2 by done. cbn [negb throw_if mbind res_bind].
  rewrite (take_structs_built _ _ _ _ _ _ _ El). cbn [mbind res_bind]. rewrite Nat2Z.id.
  rewrite (decode_rows_map _ hosted ps 0) by (intros i p Hi; by apply summary_decoded). done.
Qed.

(** *** Methods *)

Context {Caller App : Type}.

Abbreviation method_info := (@MethodInfo arrow Caller App).

(** What a client knows of a method. *)
Definition described (m : method_info) : MethodDescription :=
  {| md_name := mi_name m; md_method_type := method_type_text m; md_has_return := UnaryHasReturn m;
     md_params_schema := mi_params_schema m;
     md_result_schema := if UnaryHasReturn m then mi_result_schema m else empty_schema;
     md_has_header := bool_decide (is_Some (mi_header_schema m)); md_header_schema := mi_header_schema m;
     md_is_exchange := match mi_method_type m with UNARY => None | STREAM => Some (mi_is_exchange m) end |}.

Lemma schemas_ipc_lookup (f : method_info -> option Schema) ms l row m :
  schemas_ipc f ms = Ok l -> ms !! row = Some m -> exists b, l !! row = Some b /\ SchemaIpc (f m) = Ok b.
Proof.
  revert l row; induction ms as [|m' ms IH]; intros l row E Hr; [done|]. cbn [schemas_ipc] in E.
  apply res_bind_ok in E as (b & Eb & E). apply res_bind_ok in E as (l' & El & [= <-]).
  destruct row as [|row]; cbn in Hr; [injection Hr as <-; by exists b|]. by apply (IH l').
Qed.

Lemma ipc_column (f : method_info -> option Schema) ms l a row m what name :
  schemas_ipc f ms = Ok l -> BinaryArray l = Ok a -> ms !! row = Some m ->
  exists b, take_binary (Some a) row what name = Ok b /\
    schema_from_ipc b = Ok (default empty_schema (f m)).
Proof.
  intros El Ea Hr. destruct (schemas_ipc_lookup _ _ _ _ _ El Hr) as (b & Eb & Es). exists b.
  split; [by apply (take_binary_built _ _ _ _ _ _ Ea)|]. unfold SchemaIpc in Es. destruct (f m) as [s|].
  - destruct (schema_read _ _ Es) as [Hb Hs]. by destruct b.
  - by injection Es as <-.
Qed.

(** The columns of the methods of a protocol. *)
Record method_columns (ms : list method_info) (cols : list Array) : Prop := {
  mc_name : exists a, cols !! 0%nat = Some a /\ StringArray (map mi_name ms) = Ok a;
  mc_type : exists a, cols !! 1%nat = Some a /\ StringArray (map method_type_text ms) = Ok a;
  mc_return : exists a, cols !! 2%nat = Some a /\ BooleanArray (map UnaryHasReturn ms) = Ok a;
  mc_header : exists a, cols !! 3%nat = Some a /\
    BooleanArray (map (fun m => bool_decide (is_Some (mi_header_schema m))) ms) = Ok a;
  mc_kind : exists a, cols !! 4%nat = Some a /\ StringArray (map StreamKindFor ms) = Ok a;
  mc_params : exists l a, cols !! 5%nat = Some a /\ BinaryArray l = Ok a /\
    schemas_ipc (fun m => Some (mi_params_schema m)) ms = Ok l;
  mc_result : exists l a, cols !! 6%nat = Some a /\ BinaryArray l = Ok a /\
    schemas_ipc (fun m => if UnaryHasReturn m then Some (mi_result_schema m) else None) ms = Ok l;
  mc_header_ipc : exists l a, cols !! 7%nat = Some a /\ BinaryArray l = Ok a /\ schemas_ipc mi_header_schema ms = Ok l;
}.

Lemma method_decoded ms cols n row m what :
  method_columns ms cols -> ms !! row = Some m -> mi_name m <> [] ->
  decode_method (StructArray MethodInfoFields n cols) what row = Ok (described m).
Proof.
  intros [(na & Cn & En) (ta & Ct & Et) (ra & Cr & Er) (ha & Ch & Eh) (ka & Ck & Ek) (pl & pa & Cp & Ep & Lp)
    (sl & sa & Cs & Es & Ls) (hl & xa & Cx & Ex & Lx)] Hrow Hne.
  set (values := StructArray _ _ _).
  assert (NoDup (map field_name MethodInfoFields)) as Hnd by (refine (bool_decide_unpack _ _); vm_compute; exact I).
  pose proof (fun i f c => struct_field MethodInfoFields n cols i f c Hnd) as Hf. fold values in Hf.
  destruct (ipc_column _ _ _ _ _ _ what (str "params_schema_ipc") Lp Ep Hrow) as (b1 & T1 & S1).
  destruct (ipc_column _ _ _ _ _ _ what (str "result_schema_ipc") Ls Es Hrow) as (b2 & T2 & S2).
  destruct (ipc_column _ _ _ _ _ _ what (str "header_schema_ipc") Lx Ex Hrow) as (b3 & T3 & S3).
  unfold decode_method.
  rewrite (Hf 0%nat _ na eq_refl Cn : GetFieldByName values (str "name") = Some na),
    (Hf 1%nat _ ta eq_refl Ct : GetFieldByName values (str "method_type") = Some ta),
    (Hf 2%nat _ ra eq_refl Cr : GetFieldByName values (str "has_return") = Some ra),
    (Hf 3%nat _ ha eq_refl Ch : GetFieldByName values (str "has_header") = Some ha),
    (Hf 4%nat _ ka eq_refl Ck : GetFieldByName values (str "stream_kind") = Some ka),
    (Hf 5%nat _ pa eq_refl Cp : GetFieldByName values (str "params_schema_ipc") = Some pa),
    (Hf 6%nat _ sa eq_refl Cs : GetFieldByName values (str "result_schema_ipc") = Some sa),
    (Hf 7%nat _ xa eq_refl Cx : GetFieldByName values (str "header_schema_ipc") = Some xa).
  erewrite (string_column mi_name ms na), (string_column method_type_text ms ta), (bool_column UnaryHasReturn ms ra),
    (bool_column _ ms ha), (string_column StreamKindFor ms ka) by eassumption.
  cbn [mbind res_bind]. rewrite (bool_decide_eq_false_2 (mi_name m = [])) by done. cbn [throw_if mbind res_bind].
  rewrite T1, T2, T3. cbn [mbind res_bind]. rewrite S1, S2. cbn [mbind res_bind from_option id].
  assert (forall header, schema_from_ipc b3 = Ok (default empty_schema header) ->
    (if bool_decide (is_Some header) then s ← schema_from_ipc b3; Ok (Some s) else Ok None) = Ok header) as Hh
    by (intros [s|] Eh'; [rewrite bool_decide_eq_true_2 by done; by rewrite Eh'|done]).
  rewrite (Hh _ S3). cbn [mbind res_bind].
  unfold described, method_type_text, StreamKindFor, UnaryHasReturn.
  destruct (mi_method_type m); [by destruct (mi_has_return m && _)|by destruct (mi_is_exchange m)].
Qed.

(** Names of their own all enter the map. *)
Definition add_described (out : gmap bytes MethodDescription) (m : method_info) : gmap bytes MethodDescription :=
  <[mi_name m := described m]> out.

Lemma methods_decoded ms values what row out :
  (forall i m, ms !! i = Some m -> decode_method values what (row + i)%nat = Ok (described m)) ->
  NoDup (map mi_name ms) -> Forall (fun m => out !! mi_name m = None) ms ->
  decode_methods values what row (length ms) out = Ok (foldl add_described out ms).
Proof.
  revert row out; induction ms as [|m ms IH]; intros row out Hd Hnd Hout; cbn [length decode_methods foldl]; [done|].
  rewrite <- (Nat.add_0_r row) at 1. rewrite (Hd 0%nat m eq_refl). cbn [mbind res_bind md_name described].
  apply NoDup_cons in Hnd as [Hn Hnd]. inversion Hout as [|? ? Hm Hms]; subst. rewrite Hm. apply IH; [|done|].
  - intros i m' Hi. rewrite <- (Hd (S i) m' Hi). f_equal. lia.
  - apply Forall_forall. intros m' Hin. rewrite Forall_forall in Hms. unfold add_described.
    rewrite lookup_insert_ne; [by apply Hms|]. intros E. apply Hn. rewrite E. apply list_elem_of_fmap. by exists m'.
Qed.

Lemma add_described_lookup ms out name :
  NoDup (map mi_name ms) ->
  (forall m, m ∈ ms -> mi_name m = name -> foldl add_described out ms !! name = Some (described m)) /\
  ((forall m, m ∈ ms -> mi_name m <> name) -> foldl add_described out ms !! name = out !! name).
Proof.
  revert out; induction ms as [|m ms IH]; intros out Hnd; cbn [foldl].
  { split; [by intros m Hin%not_elem_of_nil|done]. }
  apply NoDup_cons in Hnd as [Hn Hnd]. destruct (IH (add_described out m) Hnd) as [IH1 IH2]. split.
  - intros m' [->|Hin]%elem_of_cons Hname; [|by apply IH1]. rewrite IH2.
    + unfold add_described. subst name. by rewrite lookup_insert_eq.
    + intros m2 Hin E. apply Hn. subst name. rewrite <- E. apply list_elem_of_fmap. by exists m2.
  - intros Hall. rewrite IH2 by (intros m' Hin; apply Hall; by right). unfold add_described.
    apply lookup_insert_ne. apply Hall. by left.
Qed.

Lemma insert_info_perm m (ms : list method_info) : insert_info m ms ≡ₚ m :: ms.
Proof.
  induction ms as [|m' ms IH]; cbn [insert_info]; [done|]. destruct (bytes_ltb _ _); [done|].
  rewrite IH. apply Permutation_swap.
Qed.

Lemma ordered_perm (ms : list method_info) : foldr insert_info [] ms ≡ₚ ms.
Proof. induction ms as [|m ms IH]; cbn [foldr]; [done|]. by rewrite insert_info_perm, IH. Qed.

Lemma application_methods_elem (methods : gmap bytes method_info) m :
  keyed methods ->
  m ∈ application_methods methods <-> methods !! mi_name m = Some m /\ IsApplicationMethod (mi_name m) = true.
Proof.
  intros Hk. unfold application_methods. rewrite list_elem_of_In, filter_In, <- list_elem_of_In. split.
  - intros [([k m'] & -> & Hin)%list_elem_of_fmap Ha]. apply elem_of_map_to_list in Hin. cbn [snd] in *.
    split; [by rewrite (Hk _ _ Hin)|done].
  - intros [Hm Ha]. split; [|done]. apply list_elem_of_fmap. exists (mi_name m, m). split; [done|].
    by apply elem_of_map_to_list.
Qed.

Lemma application_methods_NoDup (methods : gmap bytes method_info) :
  keyed methods -> NoDup (map mi_name (application_methods methods)).
Proof.
  intros Hk. unfold application_methods. pose proof (NoDup_fst_map_to_list methods) as Hnd.
  assert (map mi_name (map snd (map_to_list methods)) = (map_to_list methods).*1) as E.
  { rewrite map_map. apply map_ext_in. intros [k m] Hin. cbn. apply Hk. apply elem_of_map_to_list.
    by apply list_elem_of_In. }
  rewrite <- E in Hnd. clear E Hk. induction (map snd (map_to_list methods)) as [|m ms IH]; [constructor|].
  cbn [map] in Hnd. apply NoDup_cons in Hnd as [Hn Hnd]. cbn [List.filter]. destruct (IsApplicationMethod _); [|by apply IH].
  cbn [map]. apply NoDup_cons. split; [|by apply IH]. intros (m' & E & Hin)%list_elem_of_fmap.
  apply list_elem_of_In, filter_In in Hin as [Hin _]. apply Hn. rewrite E. apply list_elem_of_fmap.
  exists m'. split; [done|]. by apply list_elem_of_In.
Qed.

(** What a client knows of a protocol: its own methods, each under its name. *)
Definition describes (name version hash : bytes) (listing : option ProtocolListing)
    (methods : gmap bytes method_info) (sd : ServiceDescription) : Prop :=
  sd_protocol_name sd = name /\ sd_protocol_version sd = version /\ sd_protocol_hash sd = hash /\
  sd_describe_version sd = DESCRIBE_VERSION_VALUE /\
  sd_server_id sd = match listing with Some l => pl_server_id l | None => [] end /\
  forall n, method sd n = if IsApplicationMethod n then option_map described (methods !! n) else None.

Lemma described_map (methods : gmap bytes method_info) name :
  keyed methods ->
  foldl add_described ∅ (foldr insert_info [] (application_methods methods)) !! name =
    if IsApplicationMethod name then option_map described (methods !! name) else None.
Proof.
  intros Hk. set (ms := foldr insert_info [] _).
  assert (ms ≡ₚ application_methods methods) as Hp by apply ordered_perm.
  assert (NoDup (map mi_name ms)) as Hnd.
  { change (map mi_name ms) with (mi_name <$> ms). rewrite Hp. by apply application_methods_NoDup. }
  destruct (add_described_lookup ms ∅ name Hnd) as [Hin Hout].
  assert (forall m, m ∈ ms <-> methods !! mi_name m = Some m /\ IsApplicationMethod (mi_name m) = true) as Hms
    by (intros m; rewrite Hp; by apply application_methods_elem).
  destruct (IsApplicationMethod name) eqn:Ea; [destruct (methods !! name) as [m|] eqn:Em|].
  - pose proof (Hk _ _ Em) as Hn. apply (Hin m); [|done]. apply Hms. rewrite Hn. done.
  - rewrite Hout; [done|]. intros m [Hm _]%Hms Hn. congruence.
  - rewrite Hout; [done|]. intros m [_ Hm]%Hms Hn. congruence.
Qed.

Lemma description_decoded (name version hash : bytes) (methods : gmap bytes method_info) listing payload arr :
  keyed methods -> (forall m, methods !! [] <> Some m) -> is_sha256_hex hash = true ->
  BuildServiceDescription name version hash methods = Ok payload -> BinaryArray [payload] = Ok arr ->
  exists sd, decode_service_description (reply arr) listing = Ok sd /\
    describes name version hash listing methods sd.
Proof.
  intros Hk Hempty Hhash E Ea. unfold BuildServiceDescription in E. cbv zeta in E.
  set (ms := foldr insert_info [] (application_methods methods)) in *.
  apply res_bind_ok in E as (pl & Lp & E). apply res_bind_ok in E as (sl & Ls & E). apply res_bind_ok in E as (hl & Lh & E).
  apply res_bind_ok in E as (na & En & E). apply res_bind_ok in E as (ta & Et & E). apply res_bind_ok in E as (ra & Er & E).
  apply res_bind_ok in E as (ha & Eh & E). apply res_bind_ok in E as (ka & Ek & E). apply res_bind_ok in E as (pa & Ep & E).
  apply res_bind_ok in E as (sa & Es & E). apply res_bind_ok in E as (xa & Ex & E). apply res_bind_ok in E as (ia & Ei & E).
  apply res_bind_ok in E as (da & Ed & E). apply res_bind_ok in E as (ma & Em & E). apply res_bind_ok in E as (la & El & E).
  apply res_bind_ok in E as (fa & Ef & E). unfold MakeOneRowBatch, OneString in E. cbn [mbind res_bind] in E.
  destruct (string_total [name]) as [a1 E1]. destruct (string_total [version]) as [a2 E2].
  destruct (string_total [hash]) as [a3 E3]. destruct (string_total [[]]) as [a4 E4].
  rewrite E1, E2, E3, E4 in E. unfold BatchToIpc in E. unfold OneRowList in El.
  set (fs := ProtocolSummaryFields ++ _) in E. set (batch := RecordBatch_Make _ 1 _) in E.
  assert (NoDup (map field_name fs)) as Hnd by (refine (bool_decide_unpack _ _); vm_compute; exact I).
  pose proof (fun i f c => batch_column fs 1 [a1; a2; a3; OneBool false; a4; fa; la] i f c Hnd) as Hc. fold batch in Hc.
  unfold decode_service_description. cbv zeta. rewrite (reply_read payload arr _ batch Ea E) by by apply Make_num_rows.
  cbn [mbind res_bind].
  rewrite (Hc 0%nat _ a1 eq_refl eq_refl : GetColumnByName batch (str "protocol") = Some a1),
    (Hc 1%nat _ a2 eq_refl eq_refl : GetColumnByName batch (str "protocol_version") = Some a2),
    (Hc 2%nat _ a3 eq_refl eq_refl : GetColumnByName batch (str "protocol_hash") = Some a3),
    (Hc 6%nat _ la eq_refl eq_refl : GetColumnByName batch (str "methods") = Some la).
  erewrite (take_string_built [name] a1), (take_string_built [version] a2), (take_string_built [hash] a3) by done.
  cbn [mbind res_bind]. rewrite Hhash. cbn [negb throw_if mbind res_bind].
  rewrite (take_structs_built _ _ _ _ _ _ _ El). cbn [mbind res_bind]. rewrite Nat2Z.id.
  rewrite (methods_decoded ms).
  - eexists. split; [reflexivity|]. split_and!; try done. intros n. unfold method. cbn [sd_methods].
    by apply described_map.
  - intros i m Hi. apply (method_decoded ms); [|done|].
    + split; by (eexists _, _ || eexists); (split_and! || split); try done.
    + intros Hn. assert (m ∈ application_methods methods) as Hin.
      { rewrite <- ordered_perm. by apply list_elem_of_lookup_2 in Hi. }
      apply application_methods_elem in Hin as [Hm _]; [|done]. rewrite Hn in Hm. by apply (Hempty m).
  - change (map mi_name ms) with (mi_name <$> ms). unfold ms. rewrite ordered_perm. by apply application_methods_NoDup.
  - by apply Forall_forall.
Qed.

(** ** Both payloads can be built *)

Lemma schemas_ipc_total (f : method_info -> option Schema) ms : exists l, schemas_ipc f ms = Ok l.
Proof.
  induction ms as [|m ms [l IH]]; cbn [schemas_ipc]; [by eexists|].
  assert (exists b, SchemaIpc (f m) = Ok b) as [b ->]
    by (unfold SchemaIpc; destruct (f m); [apply schema_total|by eexists]).
  cbn [mbind res_bind]. rewrite IH. by eexists.
Qed.

Lemma listing_built (server_id version request_version : bytes) ps :
  (forall b, exists bs, stream_to_buffer b = Ok bs) ->
  exists payload, BuildProtocolList server_id version request_version ps = Ok payload.
Proof.
  intros Hbuf. unfold BuildProtocolList. cbv zeta.
  repeat match goal with
  | |- context [StringArray ?vs] => let a := fresh in destruct (string_total vs) as [a ->]; cbn [mbind res_bind]
  | |- context [BooleanArray ?vs] => let a := fresh in destruct (boolean_total vs) as [a ->]; cbn [mbind res_bind]
  | |- context [EmptyListArray ?n] => let a := fresh in destruct (empty_lists_total n) as [a ->]; cbn [mbind res_bind]
  end.
  unfold OneRowList. match goal with |- context [ListArray ?f ?o ?v] => destruct (list_total f o v) as [l ->] end.
  cbn [mbind res_bind MakeOneRowBatch]. apply Hbuf.
Qed.

Lemma description_built (name version hash_ : bytes) (methods : gmap bytes method_info) :
  (forall b, exists bs, stream_to_buffer b = Ok bs) ->
  exists payload, BuildServiceDescription name version hash_ methods = Ok payload.
Proof.
  intros Hbuf. unfold BuildServiceDescription. cbv zeta.
  repeat match goal with
  | |- context [schemas_ipc ?f ?ms] => let l := fresh in destruct (schemas_ipc_total f ms) as [l ->]; cbn [mbind res_bind]
  end.
  repeat match goal with
  | |- context [StringArray ?vs] => let a := fresh in destruct (string_total vs) as [a ->]; cbn [mbind res_bind]
  | |- context [BooleanArray ?vs] => let a := fresh in destruct (boolean_total vs) as [a ->]; cbn [mbind res_bind]
  | |- context [BinaryArray ?vs] => let a := fresh in destruct (binary_total vs) as [a ->]; cbn [mbind res_bind]
  end.
  unfold OneRowList. match goal with |- context [ListArray ?f ?o ?v] => destruct (list_total f o v) as [l ->] end.
  cbn [mbind res_bind]. unfold EmptyStringList. destruct (empty_lists_total 1) as [e ->].
  cbn [mbind res_bind MakeOneRowBatch]. apply Hbuf.
Qed.
End decoding.
