(* ===== verification/Tables.v ===== *)
(** * An instance of the Arrow classes whose batches keep their columns

    Types, schemas, arrays and batches as finite trees; a message is the code of one,
    bit by bit.  It has every law the client's and the reflection protocol's theorems
    ask for at once. *)

From S2P Require Import Prelude Memory Arrow Json Crypto Grants Errors Shm IdentityInternal ProxyProtocol Wire Calls.
From S2P Require Import ExternalUrl ClientExternal ProtocolHash Reflection Server Dispatch Client ClientDescription.

Module ToyTables.

Definition column_type : Type := gen_tree bytes.
Definition table_schema : Type := list (bytes * column_type * bool).

(** What an array holds: strings, booleans, bytes, empty lists of strings, a struct's
    names and length. *)
Definition cells : Type := (list bytes + list bool) + (list bytes + (Z + (list bytes * Z))).
Definition column : Type := gen_tree cells.
Definition table : Type := table_schema * N * list column.

Definition strings (vs : list bytes) : column := GenLeaf (inl (inl vs)).
Definition booleans (vs : list bool) : column := GenLeaf (inl (inr vs)).
Definition binaries (vs : list bytes) : column := GenLeaf (inr (inl vs)).
Definition empty_lists (n : Z) : column := GenLeaf (inr (inr (inl n))).
Definition struct_of (names : list bytes) (n : Z) (cols : list column) : column :=
  GenNode 0 (GenLeaf (inr (inr (inr (names, n)))) :: cols).
Definition list_of (values : column) : column := GenNode 1 [values].
Definition nulls : column := GenNode 2 [].

(** A message: the bits of a code, and an end. *)
Fixpoint frame (p : positive) : bytes :=
  match p with
  | xH => [x02]
  | xO p => x00 :: frame p
  | xI p => x01 :: frame p
  end.

Fixpoint next_frame (s : bytes) : option (positive * bytes) :=
  match s with
  | x00 :: s' => '(p, rest) ← next_frame s'; Some (xO p, rest)
  | x01 :: s' => '(p, rest) ← next_frame s'; Some (xI p, rest)
  | x02 :: s' => Some (xH, s')
  | _ => None
  end.

Lemma next_frame_read p rest : next_frame (frame p ++ rest) = Some (p, rest).
Proof. induction p as [p IH|p IH|]; cbn; [by rewrite IH..|done]. Qed.

Lemma frame_not_nil p : frame p <> [].
Proof. by destruct p. Qed.

Definition no_frame {A} : res A := Throw (RuntimeError (str "no message")).

Definition read_frame {A} `{Countable A} (s : bytes) : option (A * bytes) :=
  '(p, rest) ← next_frame s; x ← decode p; Some (x, rest).

Lemma read_frame_read {A} `{Countable A} (x : A) rest : read_frame (frame (encode x) ++ rest) = Some (x, rest).
Proof. unfold read_frame. rewrite next_frame_read. cbn. by rewrite decode_encode. Qed.

Definition table_stream (t : table) : bytes :=
  frame (encode t.1.1) ++ frame (encode (t.1.2, t.2)) ++ kIpcEos.

Definition read_table (s : bytes) : res (option table) :=
  match read_frame (A := table_schema) s with
  | Some (schema, rest) =>
      match read_frame (A := N * list column) rest with
      | Some ((n, cols), _) => Ok (Some (schema, n, cols))
      | None => Ok None
      end
  | None => no_frame
  end.

#[export] Instance tables : Arrow := {|
  DataType := column_type; Schema := table_schema; Array := column; RecordBatch := table; Arrow.Message := positive;
  is_dictionary _ := false;
  field_types s := map (fun f => f.1.2) s;
  schema t := t.1.1;
  num_rows t := Z.of_N t.1.2;
  column_buffers _ := [];
  MakeArrayOfNull _ _ := Ok nulls;
  RecordBatch_Make s n cols := (s, Z.to_N n, cols);
  stream_writes t := ([table_stream t], true);
  stream_to_buffer t := Ok (table_stream t);
  empty_stream s := Ok (frame (encode (s : table_schema)) ++ kIpcEos);
  GetRecordBatchSize t := Some (blen (table_stream t));
  ReadNextMessage s :=
    match s with
    | xff :: _ => Ok None
    | _ => match next_frame s with Some (p, rest) => Ok (Some (p, rest)) | None => no_frame end
    end;
  SerializeTo p := Ok (frame p);
  read_stream := read_table;
|}.

#[export] Instance tables_laws : ArrowLaws.
Proof.
  split.
  - intros t. cbn. lia.
  - intros s n a Hn. cbn. lia.
  - done.
  - intros t chunks [= <-]. cbn. by rewrite app_nil_r.
  - intros t s [= <-]. exists (encode t.1.1), (frame (encode t.1.1)), [encode (t.1.2, t.2)], [frame (encode (t.1.2, t.2))].
    split_and!; [done|by repeat constructor| |done]. cbn [concat]. by rewrite app_nil_r.
  - intros p b rest [= <-]. split; [apply frame_not_nil|]. cbn [ReadNextMessage tables].
    rewrite next_frame_read. by destruct p.
  - done.
  - intros [[s n] cols] b [= <-]. cbn [read_stream tables]. unfold read_table, table_stream. cbn [fst snd].
    rewrite read_frame_read. by rewrite read_frame_read.
Qed.

(** Nothing when no column or more than one has the name. *)
Definition column_named (names : list bytes) (cols : list column) (name : bytes) : option column :=
  match List.filter (fun c : bytes * column => bool_decide (c.1 = name)) (zip names cols) with
  | [(_, c)] => Some c
  | _ => None
  end.

Lemma no_column names (cols : list column) name :
  name ∉ names -> List.filter (fun c : bytes * column => bool_decide (c.1 = name)) (zip names cols) = [].
Proof.
  revert cols; induction names as [|n names IH]; intros [|c cols] Hn; try done. cbn [zip zip_with List.filter fst].
  apply not_elem_of_cons in Hn as [Hne Hn]. rewrite bool_decide_eq_false_2 by done. by apply IH.
Qed.

Lemma column_named_lookup names cols i name c :
  NoDup names -> names !! i = Some name -> cols !! i = Some c -> column_named names cols name = Some c.
Proof.
  unfold column_named. revert cols i; induction names as [|n names IH]; intros [|c' cols] i Hnd Hn Hc; try by destruct i.
  apply NoDup_cons in Hnd as [Hnot Hnd]. cbn [zip zip_with List.filter fst]. destruct i as [|i]; cbn in Hn, Hc.
  - injection Hn as ->. injection Hc as ->. rewrite bool_decide_eq_true_2 by done.
    change (zip_with pair names cols) with (zip names cols). by rewrite no_column.
  - rewrite bool_decide_eq_false_2; [by apply (IH cols i)|]. intros ->. apply Hnot. by apply list_elem_of_lookup_2 in Hn.
Qed.

Definition triple (f : Field) : bytes * column_type * bool := (field_name f, field_type f, field_nullable f).

#[export] Instance table_fields : ArrowFields := {|
  fields s := map (fun f => {| field_name := f.1.1; field_type := f.1.2 : @DataType tables; field_nullable := f.2 |}) s;
  type_equal s t := bool_decide (s = t :> column_type);
  Field_ToString f := field_name f;
  Schema_ToString s := concat (map (fun f => f.1.1) s);
  DataType_ToString _ := str "type";
  GetColumnByName t name := column_named (map (fun f => f.1.1) t.1.1) t.2 name;
  array_type _ := GenNode 0 [];
  Cast a _ := Some a;
|}.

#[export] Instance table_streams : ArrowStreams := {|
  schema_equal s t := bool_decide (s = t :> table_schema);
  empty_schema := [] : table_schema;
  stream_writer_ok _ := true;
  stream_writer_error _ := [];
|}.

#[export] Instance table_streams_laws : ArrowStreamsLaws.
Proof.
  split; cbn.
  - intros s. by apply bool_decide_eq_true.
  - intros s t u ->%bool_decide_eq_true ->%bool_decide_eq_true. by apply bool_decide_eq_true.
  - intros s t ->%bool_decide_eq_true. by apply bool_decide_eq_true.
Qed.

#[export] Instance table_total : ArrowTotal.
Proof. split; [by eexists|done|by eexists]. Qed.

Definition utf8_type : column_type := GenLeaf (str "utf8").

(** A nested type is a string to the hash. *)
#[export] Instance table_types : ArrowTypes :=
  {| type_of t := if bool_decide (t = utf8_type :> column_type) then T_SIMPLE T_STRING else T_SIMPLE T_BINARY |}.

Definition first_of (vs : option (list (option bytes))) : option bytes :=
  match vs with Some (v :: _) => v | _ => None end.

Definition column_strings (c : column) : option (list (option bytes)) :=
  match c with GenLeaf (inl (inl vs)) => Some (map Some vs) | _ => None end.

#[export] Instance table_build : ArrowBuild := {|
  utf8 := utf8_type : @DataType tables;
  boolean := GenLeaf (str "bool") : @DataType tables;
  binary := GenLeaf (str "binary") : @DataType tables;
  list_type f := GenNode 0 [field_type f] : @DataType tables;
  struct_type fs := GenNode 1 (map field_type fs) : @DataType tables;
  make_schema fs := map triple fs : @Schema tables;
  StringArray vs := Ok (strings vs : @Array tables);
  BooleanArray vs := Ok (booleans vs : @Array tables);
  BinaryArray vs := Ok (binaries vs : @Array tables);
  EmptyListArray n := Ok (empty_lists n : @Array tables);
  StructArray fs n cols := struct_of (map field_name fs) n cols : @Array tables;
  ListArray _ _ values := Ok (list_of values : @Array tables);
  null_array := nulls : @Array tables;
  first_string c := first_of (column_strings c);
  SerializeSchema s := Ok (frame (encode (s : table_schema)));
|}.

#[export] Instance table_views : ArrowViews := {|
  strings_of c := column_strings c;
  binaries_of c := match c : column with GenLeaf (inr (inl vs)) => Some (map Some vs) | _ => None end;
  booleans_of c := match c : column with GenLeaf (inl (inr vs)) => Some (map Some vs) | _ => None end;
  lists_of c :=
    match c : column with
    | GenLeaf (inr (inr (inl n))) => Some (replicate (Z.to_nat n) (Some (strings [] : @Array tables)))
    | GenNode 1 [values] => Some [Some values]
    | _ => None
    end;
  struct_rows c :=
    match c : column with GenNode 0 (GenLeaf (inr (inr (inr (_, n)))) :: _) => Some n | _ => None end;
  GetFieldByName c name :=
    match c : column with
    | GenNode 0 (GenLeaf (inr (inr (inr (names, _)))) :: cols) => column_named names cols name
    | _ => None
    end;
  ReadSchema s :=
    match read_frame (A := table_schema) s with Some (schema, _) => Ok (schema : @Schema tables) | None => no_frame end;
|}.

#[export] Instance table_views_laws : ArrowViewsLaws.
Proof.
  split.
  - by intros vs a [= <-].
  - by intros vs a [= <-].
  - by intros vs a [= <-].
  - by intros f n values a [= <-] _.
  - intros n a [= <-]. by exists (strings []).
  - done.
  - intros fs n cols i f c Hnd Hf Hc. cbn. apply (column_named_lookup _ _ i); [done| |done].
    change (map field_name fs) with (field_name <$> fs). by rewrite list_lookup_fmap, Hf.
  - intros fs n cols i f c Hnd Hf Hc. cbn [GetColumnByName RecordBatch_Make make_schema table_fields tables table_build].
    cbn [fst snd]. rewrite map_map. apply (column_named_lookup _ _ i); [done| |done].
    change (map _ fs) with (field_name <$> fs). by rewrite list_lookup_fmap, Hf.
  - intros s b [= <-]. split; [apply frame_not_nil|]. cbn [ReadSchema table_views].
    by rewrite <- (app_nil_r (frame _)), read_frame_read.
  - by intros v vs a [= <-].
Qed.

#[export] Instance table_build_total : ArrowBuildTotal.
Proof. split; by eexists. Qed.

(** Payloads held in memory are not read here. *)
#[export] Instance table_buffers : BufferStreams :=
  {| buffer_reader _ := {| input := []; at_eos := false; output := []; writer := None; room := None |};
     buffer_tell _ _ := None; schema_equal_metadata s t := schema_equal s t |}.

#[export] Instance table_texts : ClientTexts :=
  {| open_error_text _ := str "no schema"; parse_error_text _ := str "no JSON" |}.

#[export] Instance table_identity {App} : IdentityService unit App := {|
  IdentityImpl := GrantKeys; identity_grant_keys k := Some k; grants_identity k := Ok k; IdentityMethods _ := ∅;
|}.

#[export] Instance table_dispatch `{KeyValueMetadata, JsonText} {App} : IdentityDispatch unit App := {|
  serve_identity pf srv _ _ _ :=
    refuse pf srv (str "RuntimeError") (str "This server does not host protocol 'vgi_rpc.Identity.v2'.") [];;
    mret true;
|}.
End ToyTables.
