(* ===== verification/ClientReflection.v ===== *)
(** * A client asks a server what it hosts

    The reflection calls of a client against the server of [Dispatch], from the
    client's request to the description it returns: what a client learns of a
    protocol is what was registered. *)

From S2P Require Import Prelude Memory Arrow Json Crypto Grants Errors Shm ShmPointer.
From S2P Require Import IdentityInternal ProxyProtocol Wire Calls ExternalUrl ClientExternal ProtocolHash Reflection Server Dispatch.
From S2P Require Import Demo Serving Requests Client ClientCalls ClientDescription Tables.

(** ** The hashes of a built server *)

Section hashes.
Context {arrow : Arrow} {afields : ArrowFields} {types : ArrowTypes} {streams : ArrowStreams}
  {build_ : ArrowBuild} {D : Digests} {dlaws : DigestLaws D} {Caller App : Type}
  {identity : IdentityService Caller App}.

Lemma hex_pairs (l : bytes) :
  let h := concat (map (fun b => [kHex !!! Z.to_nat (b2z b / 16); kHex !!! Z.to_nat (b2z b mod 16)]) l) in
  length h = (2 * length l)%nat /\ forallb is_xdigit h = true.
Proof.
  cbv zeta. induction l as [|c l [IH1 IH2]]; [done|]. cbn [map concat length app forallb]. rewrite IH1, IH2.
  split; [lia|]. destruct c; reflexivity.
Qed.

Lemma binding_hash_hex (name : bytes) (methods : gmap bytes (@MethodInfo arrow Caller App)) (h : bytes) :
  binding_hash_or_throw name methods = Ok h -> is_sha256_hex h = true.
Proof.
  unfold binding_hash_or_throw, BindingHash, ComputeProtocolHash.
  destruct (CanonicalDescription _ _) as [d|e]; [|done]. cbn [mbind res_bind]. intros [= <-].
  set (h := concat _).
  assert (length h = (2 * length (sha256 (kProtocolHashDomain ++ d)))%nat /\ forallb is_xdigit h = true) as [Hl Hx]
    by exact (hex_pairs _).
  unfold is_sha256_hex, blen. by rewrite Hl, Hx, sha256_length.
Qed.

Lemma built_hashes log_opens env shm rid (b : ServerBuilder Caller App) srv :
  build_server log_opens env shm rid b = Ok srv ->
  Forall (fun p => is_sha256_hex (pi_hash (sp_binding p)) = true) (protocols_ srv).
Proof.
  unfold build_server. intros E. apply res_bind_ok in E as (names & _ & E). apply res_bind_ok in E as (u & _ & E).
  apply res_bind_ok in E as (names' & _ & E). apply res_bind_ok in E as (impl & _ & E).
  unfold new_Server in E. apply res_bind_ok in E as (u1 & _ & E).
  apply res_bind_ok in E as (ps & Eb & E). apply bind_protocols_ok in Eb.
  apply res_bind_ok in E as (rh & _ & E). apply res_bind_ok in E as (ib & _ & [= <-]). cbn [protocols_].
  apply Forall_forall. intros q Hq. apply list_elem_of_lookup in Hq as [i Hi].
  destruct (Forall2_lookup_r _ _ _ _ _ Eb Hi) as (p & _ & _ & _ & _ & Hh & _). by apply (binding_hash_hex _ _ _ Hh).
Qed.
End hashes.

(** ** What a request for a protocol is answered with *)

Section payloads.
Context {arrow : Arrow} {afields : ArrowFields} {types : ArrowTypes} {streams : ArrowStreams}
  {build_ : ArrowBuild} {D : Digests} {Caller App : Type} {identity : IdentityService Caller App}.

(** A protocol of a built server is described under its name, the front one also
    when it has none. *)
Lemma hosted_payload log_opens env shm rid (b : ServerBuilder Caller App) srv p :
  build_server log_opens env shm rid b = Ok srv -> p ∈ protocols_ srv ->
  describe_payload srv (sp_name p) =
    Some (BuildServiceDescription (sp_name p) (sp_version p) (pi_hash (sp_binding p)) (sp_methods p)).
Proof.
  intros E Hin. destruct (build_server_ok _ _ _ _ _ _ E) as (_ & _ & Hx & Hnd & Hnames & _).
  unfold describe_payload. destruct (sp_name p) as [|c n] eqn:En.
  - cbn [length Nat.eqb]. destruct (protocols_ srv) as [|q qs] eqn:Ep; [by apply not_elem_of_nil in Hin|].
    unfold front_protocol. rewrite Ep. cbn [head from_option id].
    apply elem_of_cons in Hin as [->|Hin]; [rewrite bool_decide_eq_true_2 by done; cbv beta iota; by rewrite En|]. exfalso.
    cbn [map] in Hnames. injection Hnames as _ Hnames. rewrite <- Hnames in Hx. rewrite Forall_forall in Hx.
    assert (([] : bytes) ∈ map sp_name qs) as Hp.
    { rewrite <- En. change (map sp_name qs) with (sp_name <$> qs). by apply list_elem_of_fmap_2. }
    destruct (Hx _ Hp) as [Hv _]. vm_compute in Hv. discriminate Hv.
  - cbn [length Nat.eqb]. rewrite <- En. rewrite find_protocol_unique; [done|by rewrite Hnames|done|by rewrite En].
Qed.

(** The first protocol of the list is an application's. *)
Lemma application_front log_opens env shm rid (b : ServerBuilder Caller App) srv sid sv rv :
  build_server log_opens env shm rid b = Ok srv ->
  application {| pl_server_id := sid; pl_server_version := sv; pl_request_version := rv;
                 pl_protocols := map ClientDescription.hosted (protocol_summaries srv) |} =
    Some (ClientDescription.hosted {| ps_protocol := sp_name (front_protocol srv);
                                      ps_version := sp_version (front_protocol srv);
                                      ps_hash := pi_hash (sp_binding (front_protocol srv)) |}).
Proof.
  intros E. destruct (build_server_ok _ _ _ _ _ _ E) as (_ & Hp & _ & _ & Hnames & _).
  unfold application, protocol_summaries, front_protocol. cbn [pl_protocols].
  destruct (protocols_ srv) as [|q qs]; [done|]. cbn [map Datatypes.app List.find head from_option id].
  cbn [map] in Hnames. injection Hnames as Hq _. cbn [ClientDescription.hosted hp_name ps_protocol]. rewrite Hq.
  destruct (pb_name (primary_ b)) as [|c n] eqn:En; [done|].
  destruct Hp as [_ Hr]; [done|]. change (starts_with (str "vgi_rpc.") (c :: n)) with
    (starts_with kReservedProtocolPrefix (c :: n)). by rewrite Hr.
Qed.
End payloads.

(** ** A reflection request and its answer *)

Section answering.
Context {arrow : Arrow} {afields : ArrowFields} {types : ArrowTypes} {streams : ArrowStreams}
  {build_ : ArrowBuild} {views : ArrowViews} {kvm : KeyValueMetadata} {buffers : BufferStreams}
  {J : JsonText} {D : Digests} {pton : InetPton} {ntop : InetNtop} {network : Network} {zstd : Zstd}
  {texts : ClientTexts} {Caller App User : Type}
  {identity : IdentityService Caller App} {identity_dispatch : IdentityDispatch Caller App}
  {alaws : ArrowLaws} {slaws : ArrowStreamsLaws} {total : ArrowTotal} {kvlaws : KeyValueMetadataLaws}
  {vlaws : ArrowViewsLaws} {btotal : ArrowBuildTotal}.

(** What a client without a segment asks of the reflection protocol. *)
Definition reflection_md (method random_id : bytes) : kv_list :=
  framework_entries method kReflectionProtocolName [] None random_id.

Definition reflection_request (method : bytes) (params : RecordBatch) (random_id : bytes) : list message :=
  stream_messages (schema params) [with_metadata params (reflection_md method random_id)].

Definition reflection_response (arr : Array) : list message :=
  stream_messages (make_schema [BinaryField (str "result")]) [reply arr].

Lemma reply_data arr : ab_type (reply arr) = DATA.
Proof. done. Qed.

Lemma reflection_metadata method random_id :
  method <> [] ->
  request_metadata method kReflectionProtocolName [] None None random_id = Ok (reflection_md method random_id).
Proof.
  intros Hm. rewrite request_metadata_spec. rewrite bool_decide_eq_false_2 by done. done.
Qed.

Lemma reflection_entry method random_id key value :
  (key, value) ∈ reflection_md method random_id -> get_metadata_value (Some (reflection_md method random_id)) key [] = value.
Proof.
  intros Hin. rewrite get_metadata_value_find. unfold reflection_md in *.
  rewrite (find_value_assoc _ _ (framework_entries_NoDup _ _ _ _ _)).
  by rewrite (assoc_some _ _ _ (framework_entries_NoDup _ _ _ _ _) Hin).
Qed.

(** The client's side of the call. *)
Lemma reflection_called (options : RpcClientOptions User) method params random_id arr rest (c : RpcClient User) :
  method <> [] -> idle c -> c_shm c = None -> room (c_wire c) = None ->
  input (c_wire c) = reflection_response arr ++ rest ->
  call_reflection options method params random_id c =
    (Done (inr (reply arr)), called c (reflection_request method params random_id) rest false).
Proof.
  intros Hm Hidle Hshm Hroom Hin. unfold call_reflection. rewrite (bind_done get _ c c c) by done.
  rewrite Hshm, reflection_metadata by done. rewrite (bind_done (lift (Ok _)) _ c (reflection_md method random_id) c) by done.
  set (c1 := called c (reflection_request method params random_id) rest true).
  assert (substream_data options [reply arr] None c1 = (Done (one_answer (inr (reply arr))), c1)) as E.
  { cbn [substream_data]. rewrite reply_data.
    by rewrite (bind_done _ _ c1 (reply arr) c1) by (unfold resolve_data; by rewrite reply_data). }
  by rewrite (call_with_reads options params _ _ _ rest (inr (reply arr)) c c1 Hidle Hroom Hin E).
Qed.

Context (array_length : Array -> Z) (pf : Platform) (srv : Server Caller App).

Lemma emit_record_bound r (w : World Caller App) : w_bound (emit_record srv r w).2 = w_bound w.
Proof. unfold emit_record. by destruct (access_log_enabled srv). Qed.

Lemma send_payload_spec method params payload arr (w : World Caller App) :
  room (w_wire w) = None -> BinaryArray [payload] = Ok arr ->
  exists w', send_payload pf srv method params (Ok payload) w = (Done false, w') /\
    w_wire w' = sent (w_wire w) (reflection_response arr) None /\ w_bound w' = w_bound w /\ w_app w' = w_app w.
Proof.
  intros Hr Ea. unfold send_payload. cbv zeta. rewrite Ea. cbn [lift]. rewrite (bind_done _ _ w arr w) by done.
  cbv beta. set (s := make_schema [BinaryField (str "result")]). set (b := RecordBatch_Make s 1 [arr]).
  assert (Forall (fits s) [data b]) as Hfit
    by (repeat constructor; unfold fits; cbn; subst b; rewrite Make_schema; apply schema_equal_refl).
  rewrite (bind_done _ _ _ _ _ (on_wire_write s [data b] w Hr Hfit)). set (w2 := set_wire w _).
  unfold log_framework_call.
  match goal with |- context [emit_record srv ?r] =>
    destruct (emit_record_spec srv r w2) as (w3 & E3 & Hw3 & Ha3 & _); pose proof (emit_record_bound r w2) as Hb3 end.
  rewrite E3 in Hb3. rewrite (bind_done _ _ _ _ _ E3). by exists w3.
Qed.

(** The server's side, when it has a payload. *)
Lemma payload_sent kind caller (w : World Caller App) app method params random_id next payload arr :
  is_reserved_method method = false -> method <> [] -> room (w_wire w) = None ->
  notify_serve_start srv kind (w_bound w, w_app w) = (Done tt, (Some kind, app)) ->
  input (w_wire w) = reflection_request method params random_id ++ next ->
  serve_reflection pf srv method params = send_payload pf srv method params (Ok payload) ->
  BinaryArray [payload] = Ok arr ->
  exists w', serve_one_with_state array_length pf srv kind caller w = (Done true, w') /\
    w_wire w' = wire_after (w_wire w) (reflection_response arr) next /\ w_bound w' = Some kind /\ w_app w' = app.
Proof.
  intros Hres Hm Hr En Hi Hs Ea.
  destruct (serve_one_reads array_length pf srv kind caller w _ app _ _ _ _ En Hi) as (w0 & -> & [Hb0 Hw0 Ha0 _ _]).
  cbn [ab_batch custom_metadata with_metadata]. unfold serve_request. cbv zeta.
  pose proof (reflection_entry method random_id) as He. unfold reflection_md, framework_entries in He. rewrite Hres in He.
  unfold reflection_md, framework_entries. rewrite Hres.
  rewrite (He METHOD method) by by left. rewrite (He REQUEST_VERSION REQUEST_VERSION_VALUE) by (do 2 right; by left).
  rewrite (He PROTOCOL kReflectionProtocolName) by (right; by left).
  rewrite length_decide, (bool_decide_eq_false_2 (method = [])) by done.
  change (length REQUEST_VERSION_VALUE =? 0)%nat with false. rewrite !bool_decide_eq_true_2 by done. cbn [negb].
  set (w1 := (set_where (kReflectionProtocolName ++ str "/" ++ method) w0).2).
  rewrite (bind_done _ _ w0 tt w1) by done. rewrite Hs.
  destruct (send_payload_spec method params payload arr w1) as (w2 & E2 & Hw2 & Hb2 & Ha2);
    [change (w_wire w1) with (w_wire w0); by rewrite Hw0|done|].
  rewrite (bind_done _ _ _ _ _ E2). exists w2. split; [done|].
  rewrite Hw2, Hb2, Ha2. change (w_wire w1) with (w_wire w0). rewrite Hw0. split; [|done].
  unfold sent, wire_after. cbn. by rewrite Hr.
Qed.

Lemma list_request_read params (payload : bytes) :
  BuildProtocolList (server_id_ srv) [] REQUEST_VERSION_VALUE (protocol_summaries srv) = Ok payload ->
  serve_reflection pf srv (str "list_protocols") params = send_payload pf srv (str "list_protocols") params (Ok payload).
Proof. intros E. unfold serve_reflection. rewrite bool_decide_eq_true_2 by done. by rewrite E. Qed.

Lemma describe_request_read name params payload :
  describe_params name = Ok params -> describe_payload srv name = Some (Ok payload) ->
  serve_reflection pf srv (str "describe") params = send_payload pf srv (str "describe") params (Ok payload).
Proof.
  unfold describe_params. intros (column & Ec & [= <-])%res_bind_ok E. unfold serve_reflection.
  rewrite bool_decide_eq_false_2, bool_decide_eq_true_2 by done. cbv zeta. unfold requested_protocol.
  rewrite (batch_column [Utf8Field (str "protocol")] 1 [column] 0 (Utf8Field (str "protocol")) column
    ltac:(apply NoDup_singleton) eq_refl eq_refl : GetColumnByName _ (str "protocol") = Some column).
  rewrite (first_built _ _ _ Ec). cbn [from_option id]. by rewrite E.
Qed.
End answering.

(** *** The client's steps *)

Section asking.
Context {arrow : Arrow} {afields : ArrowFields} {types : ArrowTypes} {streams : ArrowStreams}
  {build_ : ArrowBuild} {views : ArrowViews} {kvm : KeyValueMetadata} {buffers : BufferStreams}
  {J : JsonText} {D : Digests} {dlaws : DigestLaws D} {pton : InetPton} {ntop : InetNtop} {network : Network}
  {zstd : Zstd} {texts : ClientTexts} {Caller App User : Type}
  {identity : IdentityService Caller App} {identity_dispatch : IdentityDispatch Caller App}
  {alaws : ArrowLaws} {slaws : ArrowStreamsLaws} {total : ArrowTotal} {kvlaws : KeyValueMetadataLaws}
  {vlaws : ArrowViewsLaws} {btotal : ArrowBuildTotal} (options : RpcClientOptions User) (srv : Server Caller App).

(** What a client knows of all the protocols. *)
Definition listing_of : ProtocolListing :=
  {| pl_server_id := server_id_ srv; pl_server_version := []; pl_request_version := REQUEST_VERSION_VALUE;
     pl_protocols := map hosted (protocol_summaries srv) |}.

Lemma protocols_listed empty payload arr id rest (c : RpcClient User) :
  make_empty_batch empty_schema = Ok empty ->
  BuildProtocolList (server_id_ srv) [] REQUEST_VERSION_VALUE (protocol_summaries srv) = Ok payload ->
  BinaryArray [payload] = Ok arr ->
  idle c -> c_shm c = None -> room (c_wire c) = None -> input (c_wire c) = reflection_response arr ++ rest ->
  protocol_listing options id c =
    (Done (inr listing_of), called c (reflection_request (str "list_protocols") empty id) rest false).
Proof.
  intros Ee Ep Ea Hidle Hshm Hroom Hin. unfold protocol_listing. rewrite Ee.
  rewrite (bind_done (lift (Ok empty)) _ c empty c) by done.
  rewrite (bind_done _ _ _ _ _ (reflection_called options (str "list_protocols") empty id arr rest c ltac:(done)
    Hidle Hshm Hroom Hin)).
  rewrite (listing_decoded _ _ _ _ Ep Ea). reflexivity.
Qed.

Lemma protocol_told name params arr id sd rest (c : RpcClient User) :
  describe_params name = Ok params ->
  decode_service_description (reply arr) (Some listing_of) = Ok sd ->
  idle c -> c_shm c = None -> room (c_wire c) = None -> input (c_wire c) = reflection_response arr ++ rest ->
  describe_named options name listing_of id c =
    (Done (inr sd), called c (reflection_request (str "describe") params id) rest false).
Proof.
  intros Ep Ed Hidle Hshm Hroom Hin. unfold describe_named. rewrite Ep.
  rewrite (bind_done (lift (Ok params)) _ c params c) by done.
  rewrite (bind_done _ _ _ _ _ (reflection_called options (str "describe") params id arr rest c ltac:(done)
    Hidle Hshm Hroom Hin)).
  rewrite Ed. reflexivity.
Qed.
End asking.

(** The server's steps. *)
Lemma both_sent {arrow : Arrow} {afields : ArrowFields} {types : ArrowTypes} {streams : ArrowStreams}
    {build_ : ArrowBuild} {views : ArrowViews} {kvm : KeyValueMetadata} {J : JsonText} {D : Digests} {Caller App : Type}
    {identity : IdentityService Caller App} {identity_dispatch : IdentityDispatch Caller App}
    {alaws : ArrowLaws} {slaws : ArrowStreamsLaws} {total : ArrowTotal} {kvlaws : KeyValueMetadataLaws}
    {vlaws : ArrowViewsLaws} array_length pf1 pf2 (srv : Server Caller App) kind caller (w : World Caller App) app
    name empty params id1 id2 next pay1 pay2 arr1 arr2 :
  room (w_wire w) = None ->
  notify_serve_start srv kind (w_bound w, w_app w) = (Done tt, (Some kind, app)) ->
  describe_params name = Ok params ->
  BuildProtocolList (server_id_ srv) [] REQUEST_VERSION_VALUE (protocol_summaries srv) = Ok pay1 ->
  BinaryArray [pay1] = Ok arr1 ->
  describe_payload srv name = Some (Ok pay2) -> BinaryArray [pay2] = Ok arr2 ->
  input (w_wire w) = reflection_request (str "list_protocols") empty id1 ++
    reflection_request (str "describe") params id2 ++ next ->
  exists w1 w2,
    serve_one_with_state array_length pf1 srv kind caller w = (Done true, w1) /\
    serve_one_with_state array_length pf2 srv kind caller w1 = (Done true, w2) /\
    w_wire w2 = wire_after (w_wire w) (reflection_response arr1 ++ reflection_response arr2) next /\ w_app w2 = app.
Proof.
  intros Hr En Epar E1 Ea1 E2 Ea2 Hi.
  destruct (payload_sent array_length pf1 srv kind caller w app (str "list_protocols") empty id1 _ pay1
    arr1 eq_refl ltac:(done) Hr En Hi (list_request_read _ _ _ _ E1) Ea1) as (w1 & S1 & W1 & B1 & A1).
  assert (notify_serve_start srv kind (w_bound w1, w_app w1) = (Done tt, (Some kind, app))) as En1
    by (rewrite B1, A1; cbn; by rewrite bool_decide_eq_true_2).
  destruct (payload_sent array_length pf2 srv kind caller w1 app (str "describe") params id2 next pay2 arr2 eq_refl
    ltac:(done) ltac:(by rewrite W1) En1 ltac:(by rewrite W1) (describe_request_read _ _ _ _ _ Epar E2) Ea2)
    as (w2 & S2 & W2 & _ & A2).
  exists w1, w2. split; [exact S1|]. split; [exact S2|]. split; [|exact A2].
  rewrite W2, W1. unfold wire_after. cbn [output]. by rewrite app_assoc.
Qed.

(** C4: a client learns what was registered.  Any server that [build] returns, asked by
    any idle client, first for its protocols and then for one of them that has no method
    with an empty name ([build] accepts one, and the client rejects the description that
    lists it), answers both requests with one stream each, on the pipe and on any
    transport.  The pipe does not break in either direction, the client has no
    shared-memory segment, and the hook that is told of the start of serving does not
    throw.  The client gets the list of the protocols with their versions and hashes, and
    of the described one its name, version and hash and, under the name of each method
    that is the protocol's own, that method's type, schemas, header and stream kind, and
    nothing under any other name; [describe], which takes the first protocol that is not
    the framework's, describes the front one.  The server's application is not called,
    and the client and the server are ready for the next call. *)
Theorem server_described
    {arrow : Arrow} {afields : ArrowFields} {types : ArrowTypes} {streams : ArrowStreams}
    {build_ : ArrowBuild} {views : ArrowViews} {kvm : KeyValueMetadata} {buffers : BufferStreams}
    {J : JsonText} {D : Digests} {dlaws : DigestLaws D} {pton : InetPton} {ntop : InetNtop} {network : Network}
    {zstd : Zstd} {texts : ClientTexts} {Caller App User : Type}
    {identity : IdentityService Caller App} {identity_dispatch : IdentityDispatch Caller App}
    {alaws : ArrowLaws} {slaws : ArrowStreamsLaws} {total : ArrowTotal} {kvlaws : KeyValueMetadataLaws}
    {vlaws : ArrowViewsLaws} {btotal : ArrowBuildTotal} (options : RpcClientOptions User)
    array_length pf1 pf2 log_opens env shm server_rid (b : ServerBuilder Caller App) b' (srv : Server Caller App)
    kind caller (w : World Caller App) app p id1 id2 empty params next :
  build log_opens env shm server_rid b = (Ok srv, b') ->
  p ∈ protocols_ srv -> sp_methods p !! [] = None ->
  room (w_wire w) = None ->
  notify_serve_start srv kind (w_bound w, w_app w) = (Done tt, (Some kind, app)) ->
  make_empty_batch empty_schema = Ok empty -> describe_params (sp_name p) = Ok params ->
  let request1 := reflection_request (str "list_protocols") empty id1 in
  let request2 := reflection_request (str "describe") params id2 in
  input (w_wire w) = request1 ++ request2 ++ next ->
  exists w1 w2 response1 response2 sd,
    serve_one_with_state array_length pf1 srv kind caller w = (Done true, w1) /\
    serve_one_with_state array_length pf2 srv kind caller w1 = (Done true, w2) /\
    w_wire w2 = wire_after (w_wire w) (response1 ++ response2) next /\ w_app w2 = app /\
    describes (sp_name p) (sp_version p) (pi_hash (sp_binding p)) (Some (listing_of srv)) (sp_methods p) sd /\
    forall (c : RpcClient User) rest,
      idle c -> c_shm c = None -> room (c_wire c) = None -> input (c_wire c) = response1 ++ response2 ++ rest ->
      let c1 := called c request1 (response2 ++ rest) false in
      let c2 := called c1 request2 rest false in
      list_protocols options id1 c = (Done (inr (map hosted (protocol_summaries srv))), c1) /\
      describe_protocol options (sp_name p) id1 id2 c = (Done (inr sd), c2) /\
      (p = front_protocol srv -> describe options id1 id2 c = (Done (inr sd), c2)).
Proof.
  intros Eb Hp Hne Hr En Ee Epar request1 request2 Hi.
  unfold build in Eb. destruct (built_ b); [done|]. injection Eb as Eb _.
  destruct (build_server_ok _ _ _ _ _ _ Eb) as (_ & _ & _ & _ & _ & Hall). rewrite Forall_forall in Hall.
  destruct (Hall p Hp) as [Hk _]. pose proof (built_hashes _ _ _ _ _ _ Eb) as Hhash. rewrite Forall_forall in Hhash.
  specialize (Hhash p Hp). pose proof (hosted_payload _ _ _ _ _ _ _ Eb Hp) as Hpay.
  destruct (listing_built (server_id_ srv) [] REQUEST_VERSION_VALUE (protocol_summaries srv) buffer_total) as [pay1 E1].
  destruct (description_built (sp_name p) (sp_version p) (pi_hash (sp_binding p)) (sp_methods p) buffer_total) as [pay2 E2].
  destruct (binary_total [pay1]) as [arr1 Ea1]. destruct (binary_total [pay2]) as [arr2 Ea2].
  rewrite E2 in Hpay.
  destruct (both_sent array_length pf1 pf2 srv kind caller w app (sp_name p) empty params id1 id2 next pay1 pay2 arr1
    arr2 Hr En Epar E1 Ea1 Hpay Ea2 Hi) as (w1 & w2 & S1 & S2 & W2 & A2).
  destruct (description_decoded (sp_name p) (sp_version p) (pi_hash (sp_binding p)) (sp_methods p) (Some (listing_of srv))
    pay2 arr2 Hk ltac:(by rewrite Hne) Hhash E2 Ea2) as (sd & Ed & Hd).
  exists w1, w2, (reflection_response arr1), (reflection_response arr2), sd. split; [exact S1|]. split; [exact S2|].
  split; [exact W2|]. split; [exact A2|]. split; [exact Hd|].
  intros c rest Hidle Hshm Hroom Hin c1 c2.
  pose proof (protocols_listed options srv empty pay1 arr1 id1 (reflection_response arr2 ++ rest) c Ee E1 Ea1 Hidle Hshm
    Hroom Hin) as Hl.
  assert (describe_named options (sp_name p) (listing_of srv) id2 c1 = (Done (inr sd), c2)) as Hn
    by (by apply (protocol_told options srv (sp_name p) params arr2 id2 sd rest c1)).
  split; [unfold list_protocols; by rewrite (bind_done _ _ _ _ _ Hl)|].
  split; [unfold describe_protocol; by rewrite (bind_done _ _ _ _ _ Hl)|].
  intros ->. unfold describe. rewrite (bind_done _ _ _ _ _ Hl). unfold listing_of.
  rewrite (application_front _ _ _ _ _ _ _ _ _ Eb). exact Hn.
Qed.

(** ** Witnesses *)

Import ToyTables.

Section witnesses.
#[local] Existing Instances Toy.digests Toy.digest_laws Json.ToyJson.toy_json ToyArrow.toy_metadata
  ToyArrow.toy_metadata_laws ToyInet.ntop ToyInet.pton ToyNetwork.network ToyNetwork.zstd.

Definition names_schema : @Schema tables := make_schema [Utf8Field (str "name"); Utf8Field (str "greeting")].
Definition text_schema : @Schema tables := make_schema [Utf8Field (str "text")].

(** A protocol with a method, an exchange with a header and a method of the framework's. *)
Definition greeter : res (ProtocolBuilder unit Z) :=
  b ← add_unary (str "greet") (Some names_schema) (Some text_schema) no_handler []
        {| pb_name := str "greet.v1"; pb_version := str "1.2.0"; pb_methods := [] |};
  add_exchange (str "talk") (Some names_schema) (Some text_schema) (Some text_schema) no_handler []
    (Some names_schema) b.

Definition greeter_builder : ServerBuilder unit Z :=
  set_protocols new_ServerBuilder (match greeter with Ok b => b | Throw _ => {| pb_name := []; pb_version := []; pb_methods := [] |} end)
    [{| pb_name := str "void.v1"; pb_version := []; pb_methods := [] |}].

Definition greeter_built : res (Server unit Z) * ServerBuilder unit Z :=
  build (fun _ => true) (fun _ => None) false (str "srv") greeter_builder.

Definition table_wire (i : list message) : wire :=
  {| input := i; at_eos := false; output := []; writer := None; room := None |}.

Definition greeter_world (i : list message) : World unit Z :=
  {| w_wire := table_wire i; w_app := 0; w_bound := Some PIPE; w_conn := new_ConnectionState;
     w_access := []; w_peer := []; w_sink := new_LogSink [] []; w_where := [] |}.

Definition greeter_options : RpcClientOptions unit :=
  {| opt_protocol := str "greet.v1"; opt_protocol_version := []; opt_on_log := None; opt_external_http := None |}.

Definition greeter_client (i : list message) : RpcClient unit :=
  Build_RpcClient (table_wire i) {| ex_net := 0%nat; ex_requests := []; ex_app := tt |} None true false false.

Definition no_params : @RecordBatch tables := ([], 0%N, []).
Definition greeter_params : @RecordBatch tables :=
  (map triple [Utf8Field (str "protocol")], 1%N, [strings [str "greet.v1"]]).

Definition greeter_requests : list message :=
  reflection_request (str "list_protocols") no_params (str "id1") ++
  reflection_request (str "describe") greeter_params (str "id2").

(** A description, as data. *)
Definition shown (d : @MethodDescription tables)
    : bytes * bytes * bool * table_schema * table_schema * bool * option table_schema * option bool :=
  (md_name d, md_method_type d, md_has_return d, md_params_schema d, md_result_schema d, md_has_header d,
   md_header_schema d, md_is_exchange d).

Definition talk_shown : bytes * bytes * bool * table_schema * table_schema * bool * option table_schema * option bool :=
  (str "talk", str "stream", false, names_schema, [], true, Some names_schema, Some true).

Definition missing {A} (x : option A) : bool := match x with Some _ => false | None => true end.

Lemma greeter_facts :
  match greeter_built.1 with
  | Ok s =>
      let p := front_protocol s in
      map sp_name (protocols_ s) = [str "greet.v1"; str "void.v1"] /\ sp_name p = str "greet.v1" /\
      sp_version p = str "1.2.0" /\ server_id_ s = str "srv" /\ missing (sp_methods p !! []) = true /\
      option_map (fun m => shown (described m)) (sp_methods p !! str "talk") = Some talk_shown /\
      missing (sp_methods p !! str "sing") = true
  | Throw _ => False
  end.
Proof. vm_compute. repeat split. Qed.

Lemma server_described_witness :
  exists srv w1 w2 responses sd c',
    greeter_built.1 = Ok srv /\
    serve_one_with_state (fun _ => 0) demo_platform srv PIPE tt (greeter_world greeter_requests) = (Done true, w1) /\
    serve_one_with_state (fun _ => 0) demo_platform srv PIPE tt w1 = (Done true, w2) /\
    output (w_wire w2) = responses /\
    describe greeter_options (str "id1") (str "id2") (greeter_client responses) = (Done (inr sd), c') /\
    idle c' /\ sd_protocol_version sd = str "1.2.0" /\ sd_server_id sd = str "srv" /\
    option_map shown (method sd (str "talk")) = Some talk_shown /\ method sd (str "sing") = None.
Proof.
  pose proof greeter_facts as H. destruct greeter_built as [[srv|e] b'] eqn:E; [|destruct H]. cbn [fst] in H.
  destruct H as (Hps & Hn & Hv & Hid & Hempty & Htalk & Hsing). set (p := front_protocol srv) in *.
  destruct (server_described greeter_options (fun _ => 0) demo_platform demo_platform (fun _ => true) (fun _ => None) false
    (str "srv") greeter_builder b' srv PIPE tt (greeter_world greeter_requests) 0 p (str "id1") (str "id2") no_params
    greeter_params []) as (w1 & w2 & r1 & r2 & sd & S1 & S2 & Hw & _ & Hd & Hc).
  - exact E.
  - unfold p, front_protocol. destruct (protocols_ srv) as [|q qs]; [discriminate Hps|apply list_elem_of_here].
  - destruct (sp_methods p !! []); [discriminate Hempty|reflexivity].
  - reflexivity.
  - reflexivity.
  - reflexivity.
  - rewrite Hn. reflexivity.
  - reflexivity.
  - destruct (Hc (greeter_client (r1 ++ r2 ++ [])) [] ltac:(repeat split) eq_refl eq_refl eq_refl) as (_ & _ & Hdesc).
    destruct Hd as (_ & Hd2 & _ & _ & Hd5 & Hm).
    exists srv, w1, w2, (r1 ++ r2), sd. eexists. split; [reflexivity|]. split; [exact S1|]. split; [exact S2|].
    split; [by rewrite Hw|]. rewrite <- (app_nil_r r2) at 1. split; [exact (Hdesc eq_refl)|].
    split; [repeat split|]. split; [by rewrite Hd2|]. split; [by rewrite Hd5|].
    split; [rewrite Hm; by destruct (sp_methods p !! str "talk")|]. rewrite Hm. destruct (sp_methods p !! str "sing"); [discriminate Hsing|reflexivity].
Defined.
End witnesses.
