(* ===== verification/AccessLog.v ===== *)
(** * The access log (src/src/access_log.cpp)

    The line a call leaves in the log: its JSON document, the timestamp, the shorter
    form of a document that is too long; and padded base64.  The clock reads and the
    duration of a call are arguments; the log's file is its content, whose writes
    succeed. *)

From Stdlib Require Import Floats.SpecFloat.
From S2P Require Import Prelude Memory Arrow Json Crypto Grants Errors Wire Calls Server Dispatch PeerIdentity.

(** ** Base64 *)

Definition kBase64 : bytes := str "ABCDEFGHIJKLMNOPQRSTUVWXYZabcdefghijklmnopqrstuvwxyz0123456789+/".

Fixpoint base64_encode (data : bytes) : bytes :=
  match data with
  | d0 :: d1 :: d2 :: rest =>
      let n := Z.lor (Z.lor (Z.shiftl (b2z d0) 16) (Z.shiftl (b2z d1) 8)) (b2z d2) in
      b64_char kBase64 (Z.land (Z.shiftr n 18) 63)
      :: b64_char kBase64 (Z.land (Z.shiftr n 12) 63)
      :: b64_char kBase64 (Z.land (Z.shiftr n 6) 63)
      :: b64_char kBase64 (Z.land n 63)
      :: base64_encode rest
  | [d0] =>
      let n := Z.shiftl (b2z d0) 16 in
      [b64_char kBase64 (Z.land (Z.shiftr n 18) 63); b64_char kBase64 (Z.land (Z.shiftr n 12) 63);
       "="%byte; "="%byte]
  | [d0; d1] =>
      let n := Z.lor (Z.shiftl (b2z d0) 16) (Z.shiftl (b2z d1) 8) in
      [b64_char kBase64 (Z.land (Z.shiftr n 18) 63); b64_char kBase64 (Z.land (Z.shiftr n 12) 63);
       b64_char kBase64 (Z.land (Z.shiftr n 6) 63); "="%byte]
  | [] => []
  end.

(** ** Timestamps *)

(** A day of a year that starts in March: its month and day. *)
Definition month_of_day (doy : Z) : Z * Z :=
  let mp := (5 * doy + 2) / 153 in
  (if mp <? 10 then mp + 3 else mp - 9, doy - (153 * mp + 2) / 5 + 1).

(** [gmtime_r]: the proleptic Gregorian calendar from the days since 1970, by eras of
    400 years from the first of March, their centuries, blocks of four years and years. *)
Definition civil_of_days (days : Z) : Z * Z * Z :=
  let z := days + 719468 in
  let era := z / 146097 in
  let doe := z mod 146097 in
  let century := Z.min 3 (doe / 36524) in
  let doc := doe - century * 36524 in
  let block := doc / 1461 in
  let dob := doc - block * 1461 in
  let year := Z.min 3 (dob / 365) in
  let '(m, d) := month_of_day (dob - year * 365) in
  (era * 400 + century * 100 + block * 4 + year + (if m <=? 2 then 1 else 0), m, d).

Definition two_digits (z : Z) : bytes := [z2b (48 + z / 10 mod 10); z2b (48 + z mod 10)].

(** [%Y]: no padding. *)
Definition strftime_utc (t : Z) : bytes :=
  let '(y, m, d) := civil_of_days (t / 86400) in
  let s := t mod 86400 in
  to_string y ++ str "-" ++ two_digits m ++ str "-" ++ two_digits d ++ str "T" ++ two_digits (s / 3600)
  ++ str ":" ++ two_digits (s / 60 mod 60) ++ str ":" ++ two_digits (s mod 60).

(** [%03d]: a sign takes a place. *)
Definition three_places (z : Z) : bytes :=
  if z <? 0 then
    let t := to_string (- z) in str "-" ++ replicate (2 - length t) "0"%byte ++ t
  else let t := to_string z in replicate (3 - length t) "0"%byte ++ t.

(** [now] is the system clock, in nanoseconds; [duration_cast] drops the fraction. *)
Definition utc_timestamp_ms (now : Z) : bytes :=
  let secs := Z.quot now 1000000000 in
  let ms := Z.quot (now - secs * 1000000000) 1000000 in
  strftime_utc secs ++ str "." ++ three_places ms ++ str "Z".

(** ** Records *)

(** [std::round]: to the nearest integer, halves away from zero. *)
Definition std_round (f : binary64) : binary64 :=
  match f with
  | S754_finite s m e =>
      if 0 <=? e then f
      else
        let q := (Zpos m + 2 ^ (- e - 1)) / 2 ^ (- e) in
        if q =? 0 then S754_zero s else binary_normalize 53 1024 (if s then - q else q) 0 s
  | _ => f
  end.

Definition hundred : binary64 := dbl_of_Z 100.

Definition rounded_duration (duration_ms : binary64) : binary64 :=
  SFdiv 53 1024 (std_round (SFmul 53 1024 duration_ms hundred)) hundred.

Definition kEnvelopeKeys : list bytes :=
  [str "timestamp"; str "level"; str "logger"; str "message"; str "server_id"; str "protocol";
   str "protocol_hash"; str "method"; str "method_type"; str "principal"; str "auth_domain";
   str "authenticated"; str "remote_addr"; str "duration_ms"; str "status"; str "error_type"].

Definition kDefaultMaxRecordBytes : Z := 1048576.

Record AccessLogWriter := {
  al_enabled : bool;
  al_out : bytes;
  al_server_id : bytes;
  al_max_record_bytes : Z;
}.

(** [opens]: what the file at a path holds when it opens for appending. *)
Definition new_AccessLogWriter (opens : bytes -> option bytes) (path server_id : bytes) (max_record_bytes : Z)
    : AccessLogWriter :=
  let content := match path with [] => None | _ => opens path end in
  {| al_enabled := bool_decide (is_Some content); al_out := default [] content; al_server_id := server_id;
     al_max_record_bytes := if 0 <? max_record_bytes then max_record_bytes else kDefaultMaxRecordBytes |}.

Section emit.
Context {J : JsonText}.

Abbreviation record := (AccessRecord AuthContext).

(** [set_auth], when the site called it. *)
Definition record_principal (rec : record) : bytes :=
  match ar_caller _ rec with Some auth => default [] (auth_principal auth) | None => [] end.
Definition record_domain (rec : record) : bytes :=
  match ar_caller _ rec with Some auth => auth_domain auth | None => [] end.
Definition record_authenticated (rec : record) : bool :=
  match ar_caller _ rec with Some auth => authenticated auth | None => false end.

Definition is_error (rec : record) : bool := bool_decide (ar_status _ rec = str "error").

Definition envelope (server_id : bytes) (now : Z) (duration_ms : binary64) (rec : record) : members :=
  [(str "timestamp", JString (utc_timestamp_ms now));
   (str "level", JString (str "INFO"));
   (str "logger", JString (str "vgi_rpc.access"));
   (str "message", JString (ar_protocol _ rec ++ str "." ++ ar_method _ rec
      ++ if bool_decide (ar_status _ rec = str "ok") then str " ok" else str " error"));
   (str "server_id", JString server_id);
   (str "protocol", JString (ar_protocol _ rec));
   (str "protocol_hash", JString (ar_protocol_hash _ rec));
   (str "method", JString (ar_method _ rec));
   (str "method_type", JString (if ar_is_stream _ rec then str "stream" else str "unary"));
   (str "principal", JString (record_principal rec));
   (str "auth_domain", JString (record_domain rec));
   (str "authenticated", JBool (record_authenticated rec));
   (str "remote_addr", JString []);
   (str "duration_ms", JFloat (rounded_duration duration_ms));
   (str "status", JString (ar_status _ rec));
   (str "error_type", JString (ar_error_type _ rec))].

Definition error_members (rec : record) : members :=
  if is_error rec then
    [(str "error_message",
      JString (match ar_error_message _ rec with [] => str "error" | m => m end));
     (str "error_code",
      JString (match ar_error_code _ rec with [] => code_name (default_error_code (ar_error_type _ rec) []) | c => c end))]
  else [].

Definition request_field (f : bytes * bytes) : json :=
  jobject [(str "name", JString f.1); (str "type", JString f.2)].

Definition optional_size (key : bytes) (size : Z) : members :=
  if 0 <=? size then [(key, JInteger size)] else [].

Definition access_members (server_id : bytes) (now : Z) (duration_ms : binary64) (rec : record) : members :=
  envelope server_id now duration_ms rec ++ error_members rec
  ++ match ar_request_id _ rec with [] => [] | id => [(str "request_id", JString id)] end
  ++ (if ar_is_stream _ rec then
        (str "stream_id", JString (ar_stream_id _ rec))
        :: (if ar_cancelled _ rec then [(str "cancelled", JBool true)] else [])
      else [])
  ++ (if 0 <=? ar_request_rows _ rec then
        [(str "request_fields", JArray (map request_field (ar_request_fields _ rec)));
         (str "request_rows", JInteger (ar_request_rows _ rec))]
      else [])
  ++ optional_size (str "request_state_bytes") (ar_request_state_bytes _ rec)
  ++ optional_size (str "response_state_bytes") (ar_response_state_bytes _ rec).

(** The members of the short form, read from the long one. *)
Fixpoint kept_members (keys : list bytes) (j : json) : members :=
  match keys with
  | [] => []
  | key :: keys' =>
      match jfind j key with Some v => (key, v) :: kept_members keys' j | None => kept_members keys' j end
  end.

Definition sentinel (rec : record) (j : json) : json :=
  let required key := match jfind j key with Some v => v | None => JNull end in
  jobject (kept_members kEnvelopeKeys j
    ++ (if is_error rec then
          [(str "error_message", required (str "error_message")); (str "error_code", required (str "error_code"))]
        else [])
    ++ [(str "truncated", JString (str "record_too_large"))]).

Definition access_line (w : AccessLogWriter) (now : Z) (duration_ms : binary64) (rec : record) : bytes :=
  let j := jobject (access_members (al_server_id w) now duration_ms rec) in
  let line := json_dump_replace j in
  if al_max_record_bytes w <? blen line then json_dump_replace (sentinel rec j) else line.

Definition AccessLogWriter_emit (w : AccessLogWriter) (now : Z) (duration_ms : binary64) (rec : record)
    : AccessLogWriter :=
  if negb (al_enabled w) then w
  else
    {| al_enabled := al_enabled w; al_out := al_out w ++ access_line w now duration_ms rec ++ [x0a];
       al_server_id := al_server_id w; al_max_record_bytes := al_max_record_bytes w |}.
End emit.

(** ** Base64, as the server's own decoder reads it *)

(** The symbols of one alphabet in the other. *)
Definition standard_symbol (c : byte) : byte :=
  if Byte.eqb c "-" then "+"%byte else if Byte.eqb c "_" then "/"%byte else c.

Lemma standard_symbol_value c : 0 <= b64url_value c -> standard_b64_value (standard_symbol c) = b64url_value c.
Proof. by destruct c. Qed.

Lemma standard_char i : 0 <= i < 64 -> b64_char kBase64 i = standard_symbol (b64_char kB64Url i).
Proof.
  intros Hi. assert (Forall (fun n => b64_char kBase64 (Z.of_nat n) = standard_symbol (b64_char kB64Url (Z.of_nat n)))
    (seq 0 64)) as H by (vm_compute; repeat constructor).
  rewrite Forall_forall in H. rewrite <- (Z2Nat.id i) by lia. apply H, list_elem_of_In, in_seq. lia.
Qed.

Lemma standard_loop cs acc bits out :
  Forall (fun c => 0 <= b64url_value c) cs ->
  b64_decode_loop standard_b64_value (map standard_symbol cs) acc bits out = b64_decode_loop b64url_value cs acc bits out.
Proof.
  intros H. revert acc bits out. induction H as [|c cs Hc _ IH]; intros acc bits out; cbn [map b64_decode_loop]; [done|].
  rewrite standard_symbol_value by done. destruct (_ <? 0); [done|]. destruct (8 <=? _); apply IH.
Qed.

Definition padding_of (n : nat) : nat := match (n mod 3)%nat with 1%nat => 2 | 2%nat => 1 | _ => 0 end.

Lemma sextet_range n : 0 <= Z.land n 63 < 64.
Proof. change 63 with (Z.ones 6). rewrite Z.land_ones by lia. apply Z.mod_pos_bound. lia. Qed.

Lemma base64_standard data :
  base64_encode data = map standard_symbol (base64url_encode data) ++ replicate (padding_of (length data)) "="%byte.
Proof.
  induction data as [|a|a b|a b c l IH] using triples_ind; [done|..].
  - cbn [base64_encode base64url_encode map]. cbv zeta. rewrite !standard_char by apply sextet_range. done.
  - cbn [base64_encode base64url_encode map]. cbv zeta. rewrite !standard_char by apply sextet_range. done.
  - cbn [base64_encode base64url_encode map app]. cbv zeta. rewrite !standard_char by apply sextet_range.
    rewrite IH. do 4 f_equal. f_equal. f_equal. unfold padding_of. cbn [length].
    replace (S (S (S (length l)))) with (length l + 1 * 3)%nat by lia. by rewrite Nat.Div0.mod_add.
Qed.

Lemma base64_length data :
  (length (base64url_encode data) + padding_of (length data) = 4 * ((length data + 2) / 3))%nat.
Proof.
  rewrite b64_encode_length. unfold padding_of.
  pose proof (Nat.div_mod_eq (length data) 3) as H. pose proof (Nat.mod_upper_bound (length data) 3 ltac:(lia)) as Hr.
  set (q := (length data / 3)%nat) in *. set (r := (length data mod 3)%nat) in *. clearbody q r. rewrite H.
  replace ((3 * q + r) * 4 + 2)%nat with (4 * q * 3 + (r * 4 + 2))%nat by lia.
  replace (3 * q + r + 2)%nat with (q * 3 + (r + 2))%nat by lia. rewrite !Nat.div_add_l by lia.
  destruct r as [|[|[|r]]]; cbn; lia.
Qed.

Lemma standard_not_pad c : 0 <= b64url_value c -> Byte.eqb (standard_symbol c) "=" = false.
Proof. by destruct c. Qed.

Lemma base64_decoded data : decode_standard_base64 (base64_encode data) = Some data.
Proof.
  unfold decode_standard_base64. rewrite base64_standard.
  assert (Forall (fun c => Byte.eqb c "=" = false) (map standard_symbol (base64url_encode data))) as Hpad.
  { apply Forall_map. eapply Forall_impl; [apply b64_encode_alphabet|]. apply standard_not_pad. }
  rewrite pop_back_while_app by (apply Forall_replicate, byte_eqb_refl). rewrite pop_back_while_id by done.
  rewrite length_app, length_replicate, length_map.
  replace (length (base64url_encode data) + padding_of (length data) - length (base64url_encode data))%nat
    with (padding_of (length data)) by lia.
  rewrite b64_encode_length_mod, base64_length. rewrite Nat.mul_comm, Nat.Div0.mod_mul.
  assert ((2 <? padding_of (length data))%nat = false) as ->
    by (unfold padding_of; by destruct (length data mod 3)%nat as [|[|[|]]]).
  cbn [orb Nat.eqb negb]. rewrite andb_false_r. rewrite standard_loop by apply b64_encode_alphabet.
  pose proof (b64_decode_encode data) as E. unfold base64url_decode in E.
  rewrite pop_back_while_id in E by (by apply encode_no_pad). by rewrite b64_encode_length_mod in E.
Qed.

(** ** The calendar *)

Definition leap (y : Z) : bool := (y mod 4 =? 0) && (negb (y mod 100 =? 0) || (y mod 400 =? 0)).

Definition month_days (y m : Z) : Z :=
  if m =? 2 then if leap y then 29 else 28 else if (m =? 4) || (m =? 6) || (m =? 9) || (m =? 11) then 30 else 31.

Definition leaps (y : Z) : Z := y / 4 - y / 100 + y / 400.

(** The days of the months before one. *)
Definition days_before_month (y m : Z) : Z :=
  match m with
  | 1 => 0 | 2 => 31 | 3 => 59 | 4 => 90 | 5 => 120 | 6 => 151 | 7 => 181 | 8 => 212 | 9 => 243 | 10 => 273
  | 11 => 304 | _ => 334
  end + (if (2 <? m) && leap y then 1 else 0).

(** The days from 1970 to a date. *)
Definition day_number (date : Z * Z * Z) : Z :=
  let '(y, m, d) := date in
  365 * (y - 1970) + leaps (y - 1) - leaps 1969 + days_before_month y m + d - 1.

Definition valid_date (date : Z * Z * Z) : Prop :=
  let '(y, m, d) := date in 1 <= m <= 12 /\ 1 <= d <= month_days y m.

(** The months of a year that starts in March. *)
Definition month_day_ok (doy : Z) : bool :=
  let '(m, d) := month_of_day doy in
  (1 <=? m) && (m <=? 12) && (1 <=? d)
  && (d <=? month_days 1970 m + (if (doy =? 365) && (m =? 2) then 1 else 0))
  && (days_before_month 1970 m + d - 1 =? (if m <=? 2 then doy - 306 else doy + 59)).

Lemma month_day_checked doy : 0 <= doy < 366 -> month_day_ok doy = true.
Proof.
  intros Hd. assert (forallb (fun n => month_day_ok (Z.of_nat n)) (seq 0 366) = true) as H by (vm_compute; reflexivity).
  rewrite forallb_forall in H. rewrite <- (Z2Nat.id doy) by lia. apply H, in_seq. lia.
Qed.

Lemma leaps_step y : leaps y = leaps (y - 1) + (if leap y then 1 else 0).
Proof.
  unfold leaps, leap.
  destruct (Z.eqb_spec (y mod 4) 0), (Z.eqb_spec (y mod 100) 0), (Z.eqb_spec (y mod 400) 0); cbn [andb orb negb];
    Z.to_euclidean_division_equations; lia.
Qed.

(** The first of March of a year, and whether it has a leap day before. *)
Lemma year_parts era century block year :
  0 <= century <= 3 -> 0 <= block <= 24 -> 0 <= year <= 3 ->
  let y := era * 400 + century * 100 + block * 4 + year in
  leaps y = era * 97 + century * 24 + block /\
  (year = 3 -> block <= 23 \/ century = 3 -> leap (y + 1) = true).
Proof.
  intros Hc Hb Hy y. split.
  - unfold leaps.
    assert (y / 4 = era * 100 + century * 25 + block) as -> by (unfold y; Z.to_euclidean_division_equations; lia).
    assert (y / 100 = era * 4 + century) as -> by (unfold y; Z.to_euclidean_division_equations; lia).
    assert (y / 400 = era) as -> by (unfold y; Z.to_euclidean_division_equations; lia). lia.
  - intros -> Hl. unfold leap, y. rewrite orb_comm.
    destruct (Z.eqb_spec ((era * 400 + century * 100 + block * 4 + 3 + 1) mod 4) 0) as [_|Hn];
      [|exfalso; apply Hn; Z.to_euclidean_division_equations; lia].
    destruct (Z.eqb_spec ((era * 400 + century * 100 + block * 4 + 3 + 1) mod 400) 0); [done|].
    destruct (Z.eqb_spec ((era * 400 + century * 100 + block * 4 + 3 + 1) mod 100) 0); [|done].
    exfalso. Z.to_euclidean_division_equations; lia.
Qed.

Lemma month_days_leap y m : month_days y m = month_days 1970 m + (if (m =? 2) && leap y then 1 else 0).
Proof. unfold month_days. by destruct (m =? 2), (leap y), ((m =? 4) || (m =? 6) || (m =? 9) || (m =? 11)). Qed.

Lemma days_before_month_leap y m :
  days_before_month y m = days_before_month 1970 m + (if (2 <? m) && leap y then 1 else 0).
Proof. unfold days_before_month. change (leap 1970) with false. rewrite andb_false_r. lia. Qed.

(** A day of a March year as a date. *)
Lemma march_date y doy :
  0 <= doy < 366 -> (doy = 365 -> leap (y + 1) = true) ->
  let '(m, d) := month_of_day doy in
  let date := (y + (if m <=? 2 then 1 else 0), m, d) in
  valid_date date /\ day_number date = 365 * y + leaps y + doy - 719468.
Proof.
  intros Hd Hleap. pose proof (month_day_checked doy Hd) as H. unfold month_day_ok in H.
  destruct (month_of_day doy) as [m d]. cbv zeta. unfold valid_date, day_number.
  rewrite month_days_leap, days_before_month_leap. change (leaps 1969) with 477.
  destruct (Z.leb_spec m 2).
  - replace (y + 1 - 1) with y by lia. rewrite (proj2 (Z.ltb_ge 2 m)) by done. cbn [andb].
    destruct (Z.eqb_spec doy 365) as [E|E]; [rewrite (Hleap E)|]; destruct (Z.eqb_spec m 2); cbn [andb] in *;
      destruct (leap (y + 1)); lia.
  - rewrite Z.add_0_r, (proj2 (Z.ltb_lt 2 m)), (leaps_step y) by lia. cbn [andb].
    destruct (Z.eqb_spec m 2); [lia|]. rewrite andb_false_r in H. cbn [andb]. destruct (leap y); lia.
Qed.

Lemma civil_valid days : valid_date (civil_of_days days) /\ day_number (civil_of_days days) = days.
Proof.
  unfold civil_of_days. cbv zeta. set (era := (days + 719468) / 146097). set (doe := (days + 719468) mod 146097).
  assert (0 <= doe < 146097) as Hdoe by (apply Z.mod_pos_bound; lia).
  assert (days = era * 146097 + doe - 719468) as E
    by (pose proof (Z.div_mod (days + 719468) 146097 ltac:(lia)); unfold era, doe; lia).
  clearbody era doe. set (century := Z.min 3 (doe / 36524)). set (doc := doe - century * 36524).
  assert (0 <= century <= 3 /\ 0 <= doc <= 36524 /\ (doc = 36524 -> century = 3)) as (Hc & Hdoc & Hdc)
    by (unfold doc, century; Z.to_euclidean_division_equations; lia).
  assert (doe = century * 36524 + doc) as Ed by (unfold doc; lia). clearbody century doc.
  set (block := doc / 1461). set (dob := doc - block * 1461).
  assert (0 <= block <= 24 /\ 0 <= dob <= 1460 /\ doc = block * 1461 + dob) as (Hb & Hdob & Edoc)
    by (unfold dob, block; Z.to_euclidean_division_equations; lia).
  clearbody block dob. set (year := Z.min 3 (dob / 365)).
  assert (0 <= year <= 3 /\ 0 <= dob - year * 365 < 366 /\ (dob - year * 365 = 365 -> year = 3 /\ dob = 1460))
    as (Hy & Hdoy & Hlast) by (unfold year; Z.to_euclidean_division_equations; lia).
  clearbody year. destruct (year_parts era century block year Hc Hb Hy) as [Hleaps Hleap].
  set (y := era * 400 + century * 100 + block * 4 + year) in *.
  pose proof (march_date y (dob - year * 365) Hdoy) as H.
  destruct (month_of_day (dob - year * 365)) as [m d]. cbv zeta in H.
  destruct H as [Hv Hn]; [intros Hl; destruct (Hlast Hl); apply Hleap; lia|]. split; [exact Hv|].
  rewrite Hn, Hleaps. unfold y. lia.
Qed.

Definition three_digits (z : Z) : bytes := [z2b (48 + z / 100); z2b (48 + z / 10 mod 10); z2b (48 + z mod 10)].

Lemma three_places_digits z : 0 <= z < 1000 -> three_places z = three_digits z.
Proof.
  intros Hz. assert (Forall (fun n => three_places (Z.of_nat n) = three_digits (Z.of_nat n)) (seq 0 1000)) as H
    by (refine (bool_decide_unpack _ _); vm_compute; exact I).
  rewrite Forall_forall in H. rewrite <- (Z2Nat.id z) by lia. apply H, list_elem_of_In, in_seq. lia.
Qed.

(** A moment as a date and a time of day. *)
Definition timestamp_text (y m d h mi s ms : Z) : bytes :=
  to_string y ++ str "-" ++ two_digits m ++ str "-" ++ two_digits d ++ str "T" ++ two_digits h ++ str ":"
  ++ two_digits mi ++ str ":" ++ two_digits s ++ str "." ++ three_digits ms ++ str "Z".

Definition moment_ms (y m d h mi s ms : Z) : Z :=
  (day_number (y, m, d) * 86400 + h * 3600 + mi * 60 + s) * 1000 + ms.

Lemma timestamp_read now :
  0 <= now ->
  exists y m d h mi s ms,
    utc_timestamp_ms now = timestamp_text y m d h mi s ms /\ valid_date (y, m, d) /\ 0 <= h < 24 /\ 0 <= mi < 60 /\
    0 <= s < 60 /\ 0 <= ms < 1000 /\ moment_ms y m d h mi s ms = now / 1000000.
Proof.
  intros Hn. unfold utc_timestamp_ms. cbv zeta. set (secs := Z.quot now 1000000000).
  assert (secs = now / 1000000000) as Es by (apply Z.quot_div_nonneg; lia).
  assert (0 <= now - secs * 1000000000 < 1000000000) as Hrem
    by (rewrite Es; pose proof (Z.mod_pos_bound now 1000000000 ltac:(lia)); rewrite Z.mod_eq in * by lia; lia).
  set (ms := Z.quot _ 1000000). assert (ms = (now - secs * 1000000000) / 1000000) as Ems
    by (apply Z.quot_div_nonneg; lia).
  assert (0 <= ms < 1000) as Hms by (rewrite Ems; Z.to_euclidean_division_equations; lia).
  unfold strftime_utc. destruct (civil_valid (secs / 86400)) as [Hv Hd].
  destruct (civil_of_days (secs / 86400)) as [[y m] d].
  set (t := secs mod 86400). assert (0 <= t < 86400) as Ht by (apply Z.mod_pos_bound; lia).
  exists y, m, d, (t / 3600), (t / 60 mod 60), (t mod 60), ms. cbv zeta. rewrite three_places_digits by done.
  split; [unfold timestamp_text; by rewrite <- !app_assoc|]. split; [done|].
  assert (secs = secs / 86400 * 86400 + t) as Et by (pose proof (Z.div_mod secs 86400 ltac:(lia)); unfold t; lia).
  assert (t = t / 3600 * 3600 + t / 60 mod 60 * 60 + t mod 60) as Eh
    by (clear -Ht; Z.to_euclidean_division_equations; lia).
  split; [clear -Ht; Z.to_euclidean_division_equations; lia|].
  split; [apply Z.mod_pos_bound; lia|]. split; [apply Z.mod_pos_bound; lia|]. split; [done|].
  unfold moment_ms. rewrite Hd. rewrite <- !Z.add_assoc. rewrite (Z.add_assoc (_ * 3600)), <- Eh, <- Et, Ems.
  clear -Es Hn. rewrite Es. Z.to_euclidean_division_equations; lia.
Qed.

(** ** Lines *)

(** Without indentation a document is written on one line, and the handlers of invalid
    text differ only on invalid text. *)
Class JsonLines `{JsonText} := {
  dump_replace_line v : x0a ∉ json_dump_replace v;
  dump_replace_same v t : json_dump v = Some t -> json_dump_replace v = t;
}.

Lemma find_member_app ms ms' key :
  find_member (ms ++ ms') key = match find_member ms key with Some v => Some v | None => find_member ms' key end.
Proof. induction ms as [|[k v] ms IH]; cbn [app find_member]; [done|]. by destruct (decide (k = key)). Qed.

Lemma find_member_found ms key : is_Some (find_member ms key) <-> key ∈ ms.*1.
Proof.
  destruct (find_member ms key) as [v|] eqn:E.
  - split; [intros _|by eexists]. destruct (decide (key ∈ ms.*1)) as [|Hn]; [done|].
    apply find_member_none in Hn. congruence.
  - apply find_member_none in E. split; [by intros []|done].
Qed.

Lemma kept_members_find keys j key :
  find_member (kept_members keys j) key = if decide (key ∈ keys) then jfind j key else None.
Proof.
  induction keys as [|k keys IH]; cbn [kept_members]; [done|].
  destruct (jfind j k) as [v|] eqn:E; cbn [find_member].
  - destruct (decide (k = key)) as [->|Hne]; [by rewrite decide_True by by left|]. rewrite IH.
    destruct (decide (key ∈ keys)); [by rewrite decide_True by by right|].
    rewrite decide_False; [done|]. rewrite elem_of_cons. by intros [->|].
  - rewrite IH. destruct (decide (key ∈ keys)); [by rewrite decide_True by by right|].
    destruct (decide (key ∈ k :: keys)) as [[->|]%elem_of_cons|]; done.
Qed.

Lemma kept_members_NoDup keys j : NoDup keys -> NoDup (kept_members keys j).*1.
Proof.
  induction 1 as [|k keys Hk _ IH]; cbn [kept_members]; [constructor|]. destruct (jfind j k) as [v|]; [|done].
  rewrite fmap_cons. constructor; [|done]. intros Hin. apply find_member_found in Hin as [u Hu].
  rewrite kept_members_find, decide_False in Hu by done. done.
Qed.

Section lines.
Context {J : JsonText}.

Abbreviation record := (AccessRecord AuthContext).

Lemma access_members_NoDup sid now duration (rec : record) : NoDup (access_members sid now duration rec).*1.
Proof.
  unfold access_members, error_members, optional_size.
  destruct (is_error rec), (ar_request_id _ rec), (ar_is_stream _ rec), (ar_cancelled _ rec),
    (0 <=? ar_request_rows _ rec), (0 <=? ar_request_state_bytes _ rec), (0 <=? ar_response_state_bytes _ rec);
    refine (bool_decide_unpack _ _); vm_compute; exact I.
Qed.

Lemma access_members_canonical sid now duration (rec : record) :
  isfinite (rounded_duration duration) = true ->
  Forall (fun m => canonical_json m.2) (access_members sid now duration rec).
Proof.
  intros Hf. unfold access_members, error_members, optional_size. repeat apply Forall_app_2.
  - unfold envelope. repeat (constructor; [first [exact I|exact Hf]|]). constructor.
  - destruct (is_error rec); repeat constructor.
  - destruct (ar_request_id _ rec); repeat constructor.
  - destruct (ar_is_stream _ rec); [|constructor]. destruct (ar_cancelled _ rec); repeat constructor.
  - destruct (0 <=? ar_request_rows _ rec); [|constructor]. constructor; [|repeat constructor]. cbn [snd canonical_json].
    induction (ar_request_fields _ rec) as [|f fs IH]; cbn; [done|]. split; [|exact IH].
    apply (jobject_canonical [(str "name", JString f.1); (str "type", JString f.2)]);
      [refine (bool_decide_unpack _ _); vm_compute; exact I|repeat constructor].
  - destruct (0 <=? ar_request_state_bytes _ rec); repeat constructor.
  - destruct (0 <=? ar_response_state_bytes _ rec); repeat constructor.
Qed.

(** The document of a call, and what is written of one that is too long. *)
Definition record_document (sid : bytes) (now : Z) (duration : binary64) (rec : record) : json :=
  jobject (access_members sid now duration rec).

Definition written_document (w : AccessLogWriter) (now : Z) (duration : binary64) (rec : record) : json :=
  let j := record_document (al_server_id w) now duration rec in
  if al_max_record_bytes w <? blen (json_dump_replace j) then sentinel rec j else j.

Lemma record_document_find sid now duration (rec : record) key :
  jfind (record_document sid now duration rec) key = find_member (access_members sid now duration rec) key.
Proof. apply jobject_find. Qed.

Lemma envelope_keys sid now duration (rec : record) : (envelope sid now duration rec).*1 = kEnvelopeKeys.
Proof. done. Qed.

Lemma record_envelope sid now duration (rec : record) key :
  key ∈ kEnvelopeKeys ->
  jfind (record_document sid now duration rec) key = find_member (envelope sid now duration rec) key.
Proof.
  intros Hk. rewrite record_document_find. unfold access_members. rewrite find_member_app.
  rewrite <- (envelope_keys sid now duration rec) in Hk. apply find_member_found in Hk as [v Hv]. by rewrite Hv.
Qed.

(** The members that tell of an error. *)
Definition kErrorKeys : list bytes := [str "error_message"; str "error_code"].

Lemma record_error sid now duration (rec : record) key :
  key ∈ kErrorKeys ->
  jfind (record_document sid now duration rec) key = find_member (error_members rec) key.
Proof.
  intros Hk. rewrite record_document_find. unfold access_members, optional_size.
  rewrite !find_member_app.
  apply elem_of_cons in Hk as [->|Hk]; [|apply elem_of_cons in Hk as [->|Hk]; [|by apply not_elem_of_nil in Hk]];
    unfold error_members; destruct (is_error rec); try reflexivity;
    destruct (ar_request_id _ rec), (ar_is_stream _ rec), (ar_cancelled _ rec),
      (0 <=? ar_request_rows _ rec), (0 <=? ar_request_state_bytes _ rec), (0 <=? ar_response_state_bytes _ rec);
    reflexivity.
Qed.

Lemma sentinel_find sid now duration (rec : record) key :
  jfind (sentinel rec (record_document sid now duration rec)) key =
    if decide (key ∈ kEnvelopeKeys ++ kErrorKeys) then jfind (record_document sid now duration rec) key
    else if decide (key = str "truncated") then Some (JString (str "record_too_large")) else None.
Proof.
  set (j := record_document sid now duration rec). unfold sentinel. rewrite jobject_find, !find_member_app, kept_members_find.
  assert (forall k, k ∈ kErrorKeys -> jfind j k = find_member (error_members rec) k) as He
    by (intros k Hk; by apply record_error).
  destruct (decide (key ∈ kEnvelopeKeys)) as [Hk|Hk].
  - rewrite decide_True by (apply elem_of_app; by left). unfold j. rewrite record_envelope by done.
    rewrite <- (envelope_keys sid now duration rec) in Hk. apply find_member_found in Hk as [v ->]. done.
  - destruct (decide (key ∈ kErrorKeys)) as [Hr|Hr].
    + rewrite decide_True by (apply elem_of_app; by right).
      rewrite (He key Hr), (He (str "error_message")) by by left.
      rewrite (He (str "error_code")) by (right; by left). unfold error_members.
      apply elem_of_cons in Hr as [->|Hr]; [|apply elem_of_cons in Hr as [->|Hr]; [|by apply not_elem_of_nil in Hr]];
        by destruct (is_error rec).
    + rewrite decide_False by (rewrite elem_of_app; tauto).
      assert (key <> str "error_message" /\ key <> str "error_code") as [H1 H2]
        by (unfold kErrorKeys in Hr; rewrite !elem_of_cons in Hr; tauto).
      destruct (is_error rec); cbn [find_member]; rewrite ?decide_False by congruence;
        destruct (decide (key = str "truncated")) as [->|]; [by rewrite decide_True|by rewrite decide_False by congruence
          |by rewrite decide_True|by rewrite decide_False by congruence].
Qed.

Lemma find_member_value (P : json -> Prop) ms key v :
  Forall (fun m => P m.2) ms -> find_member ms key = Some v -> P v.
Proof.
  induction 1 as [|[k x] ms Hx _ IH]; cbn [find_member]; [done|]. destruct (decide (k = key)); [|done].
  by intros [= <-].
Qed.

Lemma written_canonical (w : AccessLogWriter) now duration (rec : record) :
  isfinite (rounded_duration duration) = true -> canonical_json (written_document w now duration rec).
Proof.
  intros Hf. pose proof (access_members_canonical (al_server_id w) now duration rec Hf) as Hall.
  pose proof (access_members_NoDup (al_server_id w) now duration rec) as Hnd.
  unfold written_document. cbv zeta. destruct (_ <? _); [|by apply jobject_canonical].
  unfold sentinel. set (j := record_document _ _ _ _).
  assert (forall key v, jfind j key = Some v -> canonical_json v) as Hj.
  { intros key v. unfold j. rewrite record_document_find. by apply (find_member_value canonical_json). }
  assert (forall key, canonical_json (match jfind j key with Some v => v | None => JNull end)) as Hr
    by (intros key; destruct (jfind j key) as [v|] eqn:E; [by apply (Hj key)|exact I]).
  assert (NoDup kEnvelopeKeys) as Hkeys by (refine (bool_decide_unpack _ _); vm_compute; exact I).
  assert (forall key, key ∈ (kept_members kEnvelopeKeys j).*1 -> key ∈ kEnvelopeKeys) as Hkept.
  { intros key Hin. apply find_member_found in Hin as [v Hv]. rewrite kept_members_find in Hv.
    by destruct (decide (key ∈ kEnvelopeKeys)). }
  apply jobject_canonical.
  - rewrite fmap_app. apply NoDup_app. split; [by apply kept_members_NoDup|]. split.
    + intros key Hin Hin2. apply Hkept in Hin.
      assert (Forall (fun k => k ∉ kEnvelopeKeys) (kErrorKeys ++ [str "truncated"])) as Hdis
        by (refine (bool_decide_unpack _ _); vm_compute; exact I).
      rewrite Forall_forall in Hdis. apply (Hdis key); [|done].
      destruct (is_error rec); [exact Hin2|]. apply elem_of_app. by right.
    + destruct (is_error rec); refine (bool_decide_unpack _ _); vm_compute; exact I.
  - apply Forall_app_2; [|apply Forall_app_2; [destruct (is_error rec); repeat (constructor; [apply Hr|]); constructor|by repeat constructor]].
    clear Hkeys Hkept. induction kEnvelopeKeys as [|k keys IH]; cbn [kept_members]; [constructor|].
    destruct (jfind j k) as [v|] eqn:E; [constructor; [by apply (Hj k)|done]|done].
Qed.

Context {jlaws : JsonTextLaws} {jtotal : JsonTextTotal} {jlines : JsonLines}.

(** The members every document of a call has. *)
Record document_tells (server_id : bytes) (now : Z) (duration : binary64) (rec : record) (doc : json) : Prop := {
  tells_call :
    Forall (fun m => jfind doc m.1 = Some m.2)
      [(str "server_id", JString server_id); (str "protocol", JString (ar_protocol _ rec));
       (str "protocol_hash", JString (ar_protocol_hash _ rec)); (str "method", JString (ar_method _ rec));
       (str "method_type", JString (str (if ar_is_stream _ rec then "stream" else "unary")));
       (str "status", JString (ar_status _ rec)); (str "error_type", JString (ar_error_type _ rec));
       (str "message", JString (ar_protocol _ rec ++ str "." ++ ar_method _ rec
          ++ str (if bool_decide (ar_status _ rec = str "ok") then " ok" else " error")));
       (str "duration_ms", JFloat (rounded_duration duration)); (str "remote_addr", JString []);
       (str "level", JString (str "INFO")); (str "logger", JString (str "vgi_rpc.access"))];
  tells_caller :
    Forall (fun m => jfind doc m.1 = Some m.2)
      match ar_caller _ rec with
      | Some auth =>
          [(str "principal", JString (default [] (auth_principal auth)));
           (str "auth_domain", JString (auth_domain auth)); (str "authenticated", JBool (authenticated auth))]
      | None => [(str "principal", JString []); (str "auth_domain", JString []); (str "authenticated", JBool false)]
      end;
  tells_time :
    0 <= now ->
    exists y m d h mi s ms,
      jfind doc (str "timestamp") = Some (JString (timestamp_text y m d h mi s ms)) /\
      valid_date (y, m, d) /\ 0 <= h < 24 /\ 0 <= mi < 60 /\ 0 <= s < 60 /\ 0 <= ms < 1000 /\
      moment_ms y m d h mi s ms = now / 1000000;
  tells_error :
    (jfind doc (str "error_message"), jfind doc (str "error_code")) =
    if bool_decide (ar_status _ rec = str "error") then
      (Some (JString (match ar_error_message _ rec with [] => str "error" | m => m end)),
       Some (JString (match ar_error_code _ rec with
                      | [] => code_name (default_error_code (ar_error_type _ rec) [])
                      | c => c
                      end)))
    else (None, None);
}.

(** The members of a document that is written whole. *)
Record whole_tells (rec : record) (doc : json) : Prop := {
  tells_whole : jfind doc (str "truncated") = None;
  tells_request_id :
    jfind doc (str "request_id") = match ar_request_id _ rec with [] => None | id => Some (JString id) end;
  tells_stream :
    (jfind doc (str "stream_id"), jfind doc (str "cancelled")) =
    if ar_is_stream _ rec
    then (Some (JString (ar_stream_id _ rec)), if ar_cancelled _ rec then Some (JBool true) else None)
    else (None, None);
  tells_request :
    (jfind doc (str "request_fields"), jfind doc (str "request_rows")) =
    if 0 <=? ar_request_rows _ rec
    then (Some (JArray (map (fun f => jobject [(str "name", JString f.1); (str "type", JString f.2)])
                            (ar_request_fields _ rec))),
          Some (JInteger (ar_request_rows _ rec)))
    else (None, None);
  tells_state :
    (jfind doc (str "request_state_bytes"), jfind doc (str "response_state_bytes")) =
    (if 0 <=? ar_request_state_bytes _ rec then Some (JInteger (ar_request_state_bytes _ rec)) else None,
     if 0 <=? ar_response_state_bytes _ rec then Some (JInteger (ar_response_state_bytes _ rec)) else None);
}.

(** What a reader of the log finds in the line of a call. *)
Definition line_tells (w : AccessLogWriter) (call : Z * binary64 * record) (l : bytes) : Prop :=
  let '(now, duration, rec) := call in
  let whole := record_document (al_server_id w) now duration rec in
  (x0a ∉ l) /\ is_Some (parse_text l) /\
  exists doc,
    (json_strings Json.text_ok doc -> isfinite (rounded_duration duration) = true -> parse_text l = Some doc) /\
    document_tells (al_server_id w) now duration rec doc /\
    if blen (json_dump_replace whole) <=? al_max_record_bytes w then
      l = json_dump_replace doc /\ blen l <= al_max_record_bytes w /\ whole_tells rec doc
    else jfind doc (str "truncated") = Some (JString (str "record_too_large")) /\
         forall key, key ∉ str "truncated" :: kEnvelopeKeys ++ kErrorKeys -> jfind doc key = None.

(** A document with the members of the envelope and of the error tells the call. *)
Lemma members_tell sid now duration (rec : record) doc :
  (forall key, key ∈ kEnvelopeKeys -> jfind doc key = find_member (envelope sid now duration rec) key) ->
  (forall key, key ∈ kErrorKeys -> jfind doc key = find_member (error_members rec) key) ->
  document_tells sid now duration rec doc.
Proof.
  intros Henv Herr. split.
  - repeat (constructor; [cbn [fst snd]; rewrite Henv by (refine (bool_decide_unpack _ _); vm_compute; exact I);
      unfold envelope; cbn [find_member]; repeat (rewrite decide_False by done); rewrite decide_True by done;
      try reflexivity; by case_match|]). constructor.
  - assert (forall key, key ∈ [str "principal"; str "auth_domain"; str "authenticated"] -> key ∈ kEnvelopeKeys) as Hin.
    { intros key. rewrite !elem_of_cons. intros [->|[->|[->|H]]]; [..|by apply not_elem_of_nil in H];
        refine (bool_decide_unpack _ _); vm_compute; exact I. }
    assert (jfind doc (str "principal") = Some (JString (record_principal rec))) as H1
      by (rewrite Henv by (apply Hin; by left); reflexivity).
    assert (jfind doc (str "auth_domain") = Some (JString (record_domain rec))) as H2
      by (rewrite Henv by (apply Hin; right; by left); reflexivity).
    assert (jfind doc (str "authenticated") = Some (JBool (record_authenticated rec))) as H3
      by (rewrite Henv by (apply Hin; do 2 right; by left); reflexivity).
    unfold record_principal, record_domain, record_authenticated in *. by destruct (ar_caller _ rec); repeat constructor.
  - intros Hn. destruct (timestamp_read now Hn) as (y & m & d & h & mi & s & ms & E & H).
    exists y, m, d, h, mi, s, ms. split; [|exact H]. rewrite Henv by by left.
    unfold envelope. cbn [find_member]. rewrite decide_True by done. by rewrite E.
  - rewrite !Herr by (refine (bool_decide_unpack _ _); vm_compute; exact I).
    unfold error_members, is_error. by destruct (bool_decide _).
Qed.

Lemma record_document_tells sid now duration (rec : record) :
  whole_tells rec (record_document sid now duration rec).
Proof.
  split; rewrite !record_document_find; unfold access_members, error_members, optional_size;
    rewrite !find_member_app;
    destruct (is_error rec), (ar_request_id _ rec), (ar_is_stream _ rec), (ar_cancelled _ rec),
      (0 <=? ar_request_rows _ rec), (0 <=? ar_request_state_bytes _ rec), (0 <=? ar_response_state_bytes _ rec);
    reflexivity.
Qed.

Lemma access_line_tells w call : line_tells w call (access_line w call.1.1 call.1.2 call.2).
Proof.
  destruct call as [[now duration] rec]. cbn [fst snd line_tells].
  assert (access_line w now duration rec = json_dump_replace (written_document w now duration rec)) as El
    by (unfold access_line, written_document, record_document; cbv zeta; by destruct (_ <? _)).
  split; [rewrite El; apply dump_replace_line|]. split; [rewrite El; apply replace_parses|].
  exists (written_document w now duration rec). split_and!.
  - intros Hs Hf. apply dump_text in Hs as [t Ht]. rewrite El, (dump_replace_same _ _ Ht).
    apply parse_dump; [by apply written_canonical|done].
  - apply members_tell.
    + intros key Hk. unfold written_document. cbv zeta. destruct (_ <? _); [|by apply record_envelope].
      rewrite sentinel_find, decide_True by (apply elem_of_app; by left). by apply record_envelope.
    + intros key Hk. unfold written_document. cbv zeta. destruct (_ <? _); [|by apply record_error].
      rewrite sentinel_find, decide_True by (apply elem_of_app; by right). by apply record_error.
  - rewrite El. unfold written_document. cbv zeta. set (whole := record_document _ _ _ _).
    destruct (Z.ltb_spec (al_max_record_bytes w) (blen (json_dump_replace whole))) as [Hl|Hl].
    + rewrite (proj2 (Z.leb_gt _ _)) by done. unfold whole.
      split; [by rewrite sentinel_find|]. intros key Hk. rewrite not_elem_of_cons in Hk. destruct Hk as [H1 H2].
      rewrite sentinel_find, decide_False by done. by rewrite decide_False.
    + rewrite (proj2 (Z.leb_le _ _)) by done. split_and!; [done|done|]. apply record_document_tells.
Qed.

(** The writer over a run of calls. *)
Definition emit_all_records (w : AccessLogWriter) (calls : list (Z * binary64 * record)) : AccessLogWriter :=
  foldl (fun w call => AccessLogWriter_emit w call.1.1 call.1.2 call.2) w calls.

Lemma emit_same_writer w w' call l :
  al_server_id w' = al_server_id w -> al_max_record_bytes w' = al_max_record_bytes w ->
  line_tells w' call l -> line_tells w call l.
Proof. destruct call as [[now duration] rec]. intros Hs Hm. unfold line_tells. by rewrite Hs, Hm. Qed.
End lines.

(** C19: the access log.  An enabled writer, whose writes succeed, appends one line
    per call, in the order of the calls and nothing else.  A line is a JSON text
    without a newline, whatever the peer put into the error message.  There is a
    document it stands for: what the line parses to, when the document's texts
    are valid and the duration is finite (invalid text is replaced on the line).
    The document, whole or cut down for its size, says the server, the protocol,
    the method and its type, the status, the message of the log, the caller, the
    duration, the date and time of the clock's millisecond, and, exactly when the
    status is an error, the error's message in full and its code.  When the whole
    document fits the limit it is what is written, with the request's id, fields
    and rows, the stream's id, and the sizes of the state where there are any;
    otherwise what is written is marked as truncated and has no member besides
    those of the envelope and of the error. *)
Theorem access_log_lines {J : JsonText} {jlaws : JsonTextLaws} {jtotal : JsonTextTotal} {jlines : JsonLines}
    (w : AccessLogWriter) (calls : list (Z * binary64 * AccessRecord AuthContext)) :
  al_enabled w = true ->
  exists ls,
    al_out (emit_all_records w calls) = al_out w ++ concat (map (fun l => l ++ [x0a]) ls) /\
    Forall2 (line_tells w) calls ls.
Proof.
  revert w; induction calls as [|call calls IH]; intros w He; cbn [emit_all_records foldl].
  - exists []. cbn. by rewrite app_nil_r.
  - set (l := access_line w call.1.1 call.1.2 call.2).
    assert (AccessLogWriter_emit w call.1.1 call.1.2 call.2 =
      {| al_enabled := true; al_out := al_out w ++ l ++ [x0a]; al_server_id := al_server_id w;
         al_max_record_bytes := al_max_record_bytes w |}) as ->
      by (unfold AccessLogWriter_emit; by rewrite He).
    match goal with |- context [foldl _ ?w' _] => destruct (IH w' eq_refl) as (ls & Eo & Hls) end.
    exists (l :: ls). split; [unfold emit_all_records in Eo; rewrite Eo; cbn; by rewrite <- !app_assoc|].
    constructor; [apply access_line_tells|]. eapply Forall2_impl; [exact Hls|]. intros c l'. by apply emit_same_writer.
Qed.

(** Padded base64 is read back by the decoder of the server's keys. *)
Lemma base64_roundtrip data :
  decode_standard_base64 (base64_encode data) = Some data /\
  length (base64_encode data) = (4 * ((length data + 2) / 3))%nat.
Proof.
  split; [apply base64_decoded|]. rewrite base64_standard, length_app, length_replicate, length_map. apply base64_length.
Qed.

(** ** Witnesses *)

Import Json.ToyJson.

#[export] Instance toy_lines : JsonLines.
Proof.
  split.
  - intros v. cbn. unfold toy_text. generalize (encode (to_tree v)). intros p.
    apply not_elem_of_cons. split; [done|]. induction p as [p IH|p IH|]; cbn;
      [rewrite not_elem_of_cons; by split|rewrite not_elem_of_cons; by split|apply not_elem_of_nil].
  - by intros v t [= <-].
Qed.

Definition failed_call : AccessRecord AuthContext :=
  {| ar_protocol := str "demo.v1"; ar_protocol_hash := str "00"; ar_method := str "fail"; ar_is_stream := false;
     ar_status := str "error"; ar_error_type := str "AuthUnavailableError"; ar_error_message := str "no good"; ar_error_code := [];
     ar_caller := Some anonymous; ar_request_id := str "r1"; ar_stream_id := []; ar_cancelled := false;
     ar_request_fields := [(str "n", str "int64")]; ar_request_rows := 1; ar_request_state_bytes := -1;
     ar_response_state_bytes := -1 |}.

Definition demo_writer : AccessLogWriter :=
  new_AccessLogWriter (fun _ => Some (str "{}")) (str "log") (str "srv") 0.

(** 29 February 2024, in nanoseconds. *)
Definition leap_day : Z := 1709210096789000000.

Example leap_day_timestamp : utc_timestamp_ms leap_day = str "2024-02-29T12:34:56.789Z".
Proof. vm_compute. reflexivity. Qed.

Example duration_rounded : rounded_duration (dbl_of_Z 3) = dbl_of_Z 3 /\ kDefaultMaxRecordBytes = 1024 * 1024.
Proof. vm_compute. split; reflexivity. Qed.

Lemma access_log_lines_witness :
  exists l, al_out (emit_all_records demo_writer [(leap_day, dbl_of_Z 3, failed_call)]) = str "{}" ++ l ++ [x0a] /\
    (x0a ∉ l) /\ exists doc, parse_text l = Some doc /\
      jfind doc (str "method") = Some (JString (str "fail")) /\
      jfind doc (str "error_message") = Some (JString (str "no good")) /\
      jfind doc (str "error_code") = Some (JString (str "UNAVAILABLE")) /\
      jfind doc (str "request_rows") = Some (JInteger 1).
Proof.
  destruct (access_log_lines demo_writer [(leap_day, dbl_of_Z 3, failed_call)] eq_refl) as (ls & E & H).
  inversion H as [|? l ? ls' Hl Hrest]; subst. inversion Hrest; subst. unfold line_tells in Hl.
  destruct Hl as (Hline & _ & doc & Hdoc & Htells & Hsize).
  exists l. split; [rewrite E; cbn; by rewrite app_nil_r|]. split; [exact Hline|].
  exists doc.
  match type of Hsize with context [if ?b then _ else _] =>
    assert (b = true) as Hfits by (vm_compute; reflexivity) end.
  rewrite Hfits in Hsize. destruct Hsize as (El & _ & [_ _ _ Hrows _]). injection Hrows as _ Hrows. split.
  - apply Hdoc; [|reflexivity]. apply (proj1 (dump_text doc)). eexists. reflexivity.
  - destruct Htells as [Hcall _ _ Herr]. injection Herr as Hm Hc.
    apply Forall_cons in Hcall as [_ Hcall]. apply Forall_cons in Hcall as [_ Hcall].
    apply Forall_cons in Hcall as [_ Hcall]. apply Forall_cons in Hcall as [Hmethod _].
    split; [exact Hmethod|]. split; [exact Hm|]. split; [exact Hc|exact Hrows].
Defined.
