(* ===== verification/HttpTurn.v ===== *)
(** * One HTTP request's state and its parts (src/src/http_transport.cpp)

    What the dispatch of a request acts on, the body and the response it builds,
    the record of a stream turn, external payloads, the sticky slot and one turn
    of a producer.  Requests are served one at a time; what the system and other
    requests supply to one (random text, clocks, the streams ended while it
    waited) is the record [HttpEnv]. *)

From S2P Require Import Prelude Memory Arrow Json Crypto Grants Errors Session PeerIdentity FloatText.
From S2P Require Import ProxyProof Wire TokenIdentity Calls RequestParams ClientExternal External.
From S2P Require Import ProtocolHash Reflection Server HttpRoute HttpAuth HttpReply CallState.
From S2P Require Import Dispatch IdentityServer.

Definition SESSION_HEADER : bytes := str "VGI-Session".
Definition SESSION_ACCEPT_HEADER : bytes := str "VGI-Session-Accept".
Definition SESSION_CLOSE_HEADER : bytes := str "VGI-Session-Close".
Definition ERROR_KIND_SESSION_LOST : bytes := str "session_lost".

(** ** State *)

(** A null pointer is [None]. *)
Record HttpStreamSession `{Arrow} (App : Type) := {
  hs_state : option (@StreamState _ Caller App);
  hs_output_schema : Schema;
  hs_input_schema : option Schema;
  hs_is_exchange : bool;
  hs_method_name : bytes;
  hs_aad : bytes;
  hs_response_limit_bytes : option Z;
  hs_preferred_response_bytes : option Z;
  hs_stream_id : bytes;
}.
Arguments hs_state {_ App} _.
Arguments hs_output_schema {_ App} _.
Arguments hs_input_schema {_ App} _.
Arguments hs_is_exchange {_ App} _.
Arguments hs_method_name {_ App} _.
Arguments hs_aad {_ App} _.
Arguments hs_response_limit_bytes {_ App} _.
Arguments hs_preferred_response_bytes {_ App} _.
Arguments hs_stream_id {_ App} _.

(** The world of dispatch (its connection is the buffer a body is built in), the
    registry of streams, the proof verifier, the response, and the record of the
    turn in progress. *)
Record HttpState `{Arrow} (App : Type) := {
  h_world : World Caller App;
  h_streams : gmap bytes (HttpStreamSession App);
  h_proof : ProofVerifier;
  h_reply : Reply;
  h_turn : option (AccessRecord Caller);
}.
Arguments Build_HttpState {_ App}.
Arguments h_world {_ App} _.
Arguments h_streams {_ App} _.
Arguments h_proof {_ App} _.
Arguments h_reply {_ App} _.
Arguments h_turn {_ App} _.

(** [he_waited]: the cursors whose streams other requests ended while this one
    waited for the stream's lock. *)
Record HttpEnv := {
  he_request_id : bytes;
  he_stream_id : bytes;
  he_cursor : bytes;
  he_call_nonce : bytes;
  he_proof_now : Z;
  he_proof_now' : Z;
  he_steady_ms : Z;
  he_wall : binary64;
  he_session_wall : Z;
  he_session_steady : Z;
  he_fetch_started : Z;
  he_fetch_finished : Z;
  he_time : Z;
  he_waited : list bytes;
  he_platform : Platform;
}.

Section state.
Context {arrow : Arrow} {App : Type}.

Abbreviation state := (HttpState App).

Definition with_world (s : state) (w : World Caller App) : state :=
  Build_HttpState w (h_streams s) (h_proof s) (h_reply s) (h_turn s).
Definition with_streams (s : state) (x : gmap bytes (HttpStreamSession App)) : state :=
  Build_HttpState (h_world s) x (h_proof s) (h_reply s) (h_turn s).
Definition with_proof (s : state) (x : ProofVerifier * Reply) : state :=
  Build_HttpState (h_world s) (h_streams s) x.1 x.2 (h_turn s).
Definition with_reply (s : state) (x : Reply) : state :=
  Build_HttpState (h_world s) (h_streams s) (h_proof s) x (h_turn s).
Definition with_record (s : state) (x : option (AccessRecord Caller)) : state :=
  Build_HttpState (h_world s) (h_streams s) (h_proof s) (h_reply s) x.

Definition on_world {A} (m : M (World Caller App) A) : M state A := zoom h_world with_world m.
Definition on_http_app {A} (m : M App A) : M state A := on_world (zoom w_app set_app m).
Definition on_response {A} (m : M Reply A) : M state A := zoom h_reply with_reply m.
Definition reply (f : Reply -> Reply) : M state unit := on_response (modify f).

(** An authentication that ran to its end, one way or the other. *)
Definition on_auth {A} (m : Auth App A) : M state (auth_error + A) :=
  on_http_app (fun app => let '(r, app) := m app in (Done r, app)).

(** What the code leaves undefined. *)
Definition undefined {A} : M state A := raise (EOther (str "undefined behaviour")).

(** *** The registry of streams *)

Definition register_stream (cursor : bytes) (session : HttpStreamSession App) : M state unit :=
  modify (fun s => with_streams s (<[cursor := session]> (h_streams s))).
Definition erase_stream (cursor : bytes) : M state unit :=
  modify (fun s => with_streams s (delete cursor (h_streams s))).

(** *** [build_body]

    [fn] writes to a fresh buffer. *)
Context {streams : ArrowStreams} {ipc : IpcBytes}.

Definition build_body {A} (fn : M state A) : M state (A * bytes) := fun s =>
  let w := h_world s in
  let '(r, s) := fn (with_world s (set_wire w buffer_wire)) in
  let body := ipc_bytes (output (w_wire (h_world s))) in
  let s := with_world s (set_wire (h_world s) (w_wire w)) in
  match r with Done a => (Done (a, body), s) | Raised e => (Raised e, s) end.

(** *** [TurnRecord] *)

Definition turn_change (f : AccessRecord Caller -> AccessRecord Caller) : M state unit :=
  modify (fun s => with_record s (f <$> h_turn s)).

Definition failed_record (type message code : bytes) (rec : AccessRecord Caller) : AccessRecord Caller :=
  {| ar_protocol := ar_protocol _ rec; ar_protocol_hash := ar_protocol_hash _ rec; ar_method := ar_method _ rec;
     ar_is_stream := ar_is_stream _ rec; ar_status := str "error"; ar_error_type := type;
     ar_error_message := message; ar_error_code := code; ar_caller := ar_caller _ rec;
     ar_request_id := ar_request_id _ rec; ar_stream_id := ar_stream_id _ rec; ar_cancelled := ar_cancelled _ rec;
     ar_request_fields := ar_request_fields _ rec; ar_request_rows := ar_request_rows _ rec;
     ar_request_state_bytes := ar_request_state_bytes _ rec; ar_response_state_bytes := -1 |}.

Definition turn_failed (type message code : bytes) : M state unit := turn_change (failed_record type message code).

(** [record().cancelled = true] and [record().response_state_bytes = n]. *)
Definition turn_cancelled : M state unit := turn_change (fun rec =>
  {| ar_protocol := ar_protocol _ rec; ar_protocol_hash := ar_protocol_hash _ rec; ar_method := ar_method _ rec;
     ar_is_stream := ar_is_stream _ rec; ar_status := ar_status _ rec; ar_error_type := ar_error_type _ rec;
     ar_error_message := ar_error_message _ rec; ar_error_code := ar_error_code _ rec; ar_caller := ar_caller _ rec;
     ar_request_id := ar_request_id _ rec; ar_stream_id := ar_stream_id _ rec; ar_cancelled := true;
     ar_request_fields := ar_request_fields _ rec; ar_request_rows := ar_request_rows _ rec;
     ar_request_state_bytes := ar_request_state_bytes _ rec;
     ar_response_state_bytes := ar_response_state_bytes _ rec |}).
Definition turn_response_state (n : Z) : M state unit := turn_change (fun rec =>
  {| ar_protocol := ar_protocol _ rec; ar_protocol_hash := ar_protocol_hash _ rec; ar_method := ar_method _ rec;
     ar_is_stream := ar_is_stream _ rec; ar_status := ar_status _ rec; ar_error_type := ar_error_type _ rec;
     ar_error_message := ar_error_message _ rec; ar_error_code := ar_error_code _ rec; ar_caller := ar_caller _ rec;
     ar_request_id := ar_request_id _ rec; ar_stream_id := ar_stream_id _ rec; ar_cancelled := ar_cancelled _ rec;
     ar_request_fields := ar_request_fields _ rec; ar_request_rows := ar_request_rows _ rec;
     ar_request_state_bytes := ar_request_state_bytes _ rec; ar_response_state_bytes := n |}).

(** The scope of a [TurnRecord]: the record is filed on every way out. *)
Definition with_turn `{!IdentityService Caller App} (srv : Server Caller App) (rec : AccessRecord Caller)
    (body : M state unit) : M state unit := fun s =>
  let '(r, s) := body (with_record s (Some rec)) in
  let rec := default rec (h_turn s) in
  let rec :=
    match r with
    | Raised _ =>
        if bool_decide (ar_status _ rec = str "ok") then
          failed_record (str "RpcError") (str "unhandled exception during dispatch") (ar_error_code _ rec) rec
        else rec
    | Done _ => rec
    end in
  (r, (on_world (emit_record srv rec) (with_record s None)).2).
End state.

(** ** One request *)

Section request.
Context {arrow : Arrow} {afields : ArrowFields} {columns : ArrowColumns} {types : ArrowTypes}
  {streams : ArrowStreams} {build_ : ArrowBuild} {ib : IdentityArrow} {kvm : KeyValueMetadata}
  {buffers : BufferStreams} {ipc : IpcBytes} {J : JsonText} {D : Digests} {aead : Aead}
  {compressor : ZstdCompressor} {gzip : GzipCompressor} {User : Type}.

Abbreviation app := (HttpApp User).
Abbreviation state := (HttpState app).
Abbreviation method_info := (@MethodInfo arrow Caller app).

Context (array_length : Array -> Z) (http : HttpServer app) (srv : Server Caller app) (env : HttpEnv)
  (req : HttpRequestHead).

Abbreviation cfg := (cfg_ http).

(** The client's request id, or a random one. *)
Definition request_id : bytes :=
  match get_header_value req REQUEST_ID_HEADER with [] => he_request_id env | id => id end.

Definition http_platform : Platform :=
  let pf := he_platform env in
  {| pf_posix := pf_posix pf; pf_shm_min := pf_shm_min pf; pf_request_id := request_id;
     pf_stream_id := he_stream_id env; pf_freshness_ns := pf_freshness_ns pf; pf_mint_ns := pf_mint_ns pf;
     pf_random_id := pf_random_id pf; pf_random_nonce := pf_random_nonce pf |}.

(** *** Error responses *)

Definition set_arrow_body (body : bytes) : M state unit := reply (set_arrow_content cfg req body).

Definition error_text (s : Schema) (type message kind : bytes) : M state bytes :=
  st ← get;
  error_body (current_scope srv (h_world st)) s type message (server_id_ srv) request_id kind.

(** [fail] of [handle_rpc]. *)
Definition fail (status : Z) (type message kind : bytes) : M state unit :=
  reply (set_status status);;
  reply (set_header RPC_ERROR_HEADER (str "true"));;
  body ← error_text empty_schema type message kind;
  set_arrow_body body.

(** An error with status 200 on the schema of the call. *)
Definition respond_error_on (s : Schema) (type message kind : bytes) : M state unit :=
  reply (set_status 200);;
  reply (set_header RPC_ERROR_HEADER (str "true"));;
  body ← error_text s type message kind;
  set_arrow_body body.

(** [Result::error] of an exception, as a body. *)
Definition exception_text (owner : ProtocolIdentity) (method : bytes) (s : Schema) (e : exception) : M state bytes :=
  st ← get;
  err ← lift (Result_exception (current_scope srv (h_world st)) s e (server_id_ srv) request_id
                (traceback_for srv owner method (exception_type_of e) (ex_what e)));
  to_buffer (write_ipc_stream s [batch_ err]).

Definition too_large (method : bytes) (size limit : Z) : bytes :=
  str "method '" ++ method ++ str "' exceeds max_response_bytes (" ++ to_string size ++ str " > "
  ++ to_string limit ++ str ")".

Definition too_large_external (method : bytes) (size limit : Z) : bytes :=
  str "Externalised payload exceeds max_externalized_response_bytes (" ++ to_string size ++ str " > "
  ++ to_string limit ++ str ") for method '" ++ method ++ str "'".

(** The limit a body exceeds, if it does. *)
Definition exceeded (limit : option Z) (body : bytes) : option Z :=
  match limit with Some limit => if limit <? blen body then Some limit else None | None => None end.

Definition external_exceeded (externalized : Z) : bool :=
  (0 <=? max_externalized_response_bytes cfg) && (max_externalized_response_bytes cfg <? externalized).

(** *** External locations *)

Definition location_metadata (uploaded : ExternalUpload) : kv_list :=
  Append (Append [] LOCATION (eu_url uploaded)) LOCATION_SHA256 (eu_sha256 uploaded).

(** The body to send, and what it adds to [*externalized_bytes]. *)
Definition maybe_externalize (body : bytes) (s : Schema) : M state (bytes * Z) :=
  match storage_ http with
  | None => mret (body, 0)
  | Some storage =>
      if (externalize_threshold cfg <? 0) || (blen body <? externalize_threshold cfg) then mret (body, 0)
      else
        uploaded ← on_http_app (upload_ipc_stream body storage (externalize_compression cfg));
        empty ← lift (make_empty_batch s);
        pointer ← to_buffer (write_ipc_stream s [with_metadata empty (location_metadata uploaded)]);
        mret (pointer, eu_uploaded_bytes uploaded)
  end.

Definition has_data (batches : list AnnotatedBatch) : bool :=
  existsb (fun ab => negb (is_log_type (ab_type ab))) batches.

Definition externalize_cycle (batches : list AnnotatedBatch) (s : Schema) : M state (option kv_list * Z) :=
  match storage_ http with
  | None => mret (None, 0)
  | Some storage =>
      if (externalize_threshold cfg <? 0) || negb (has_data batches) then mret (None, 0)
      else
        cycle ← to_buffer (write_ipc_stream s batches);
        if blen cycle <? externalize_threshold cfg then mret (None, 0)
        else
          uploaded ← on_http_app (upload_ipc_stream cycle storage (externalize_compression cfg));
          mret (Some (location_metadata uploaded), eu_uploaded_bytes uploaded)
  end.

Definition resolve_request_pointer (first : AnnotatedBatch) : M state (option AnnotatedBatch) :=
  let url := get_metadata_value (custom_metadata first) LOCATION [] in
  match storage_ http with
  | Some storage =>
      if bool_decide (url = []) then mret None
      else
        fetched ← on_http_app (es_fetch storage url);
        let expected_sha256 := get_metadata_value (custom_metadata first) LOCATION_SHA256 [] in
        let actual_sha256 := hex_encode (sha256 fetched) in
        if bool_decide (expected_sha256 <> []) && negb (bool_decide (actual_sha256 = expected_sha256)) then
          raise (EOther (str "external location checksum mismatch: expected " ++ expected_sha256
                         ++ str ", got " ++ actual_sha256))
        else
          match (read_ipc_stream (buffer_reader fetched)).1 with
          | Raised e => raise e
          | Done None | Done (Some (_, [])) =>
              raise (EOther (str "externalized request resolved to an empty stream"))
          | Done (Some (_, batch :: _)) =>
              if match custom_metadata batch with Some md => 0 <=? FindKey md LOCATION | None => false end then
                raise (EOther (str "externalized request redirects to another location"))
              else mret (Some batch)
          end
  | None => mret None
  end.

(** *** The sticky slot *)

Definition set_slot (slot : option StickySlot) : M state unit :=
  on_http_app (modify (fun a => with_sticky a slot)).

(** The slot of the request; [None] is a session that is lost. *)
Definition sticky_slot (aad : bytes) : M state (option StickySlot) :=
  st ← get;
  let a := w_app (h_world st) in
  let token := get_header_value req SESSION_HEADER in
  let slot found := {| sl_resolved := match found with Some (st, _) => st | None => None end;
                       sl_session_id := match found with Some (_, sid) => sid | None => [] end;
                       sl_client_accepts := bool_decide (get_header_value req SESSION_ACCEPT_HEADER = str "true");
                       sl_draining := draining_ (app_sessions a); sl_aad := aad; sl_resumed_token := token;
                       sl_minted_token := []; sl_closed := false |} in
  if bool_decide (token = []) then mret (Some (slot None))
  else
    let '(sessions, (status, found, hooks)) :=
      resolve (he_session_wall env) (he_session_steady env) (app_sessions a) token aad in
    on_http_app (put (with_sessions a sessions hooks));;
    mret (if bool_decide (status = Session.OK) then Some (slot found) else None).

(** The rest of the request under its slot, which ends with it. *)
Definition with_sticky_slot (aad : bytes) (result_schema : Schema) (body : M state unit) : M state unit :=
  if sticky cfg then
    slot ← sticky_slot aad;
    match slot with
    | None => respond_error_on result_schema (str "SessionLostError") (str "session lost") ERROR_KIND_SESSION_LOST
    | Some slot =>
        set_slot (Some slot);;
        ((fun s => let '(r, s) := body s in (r, (set_slot None s).2)) : M state unit)
    end
  else body.

Fixpoint echo_headers (fields : list (bytes * bytes)) (res : Reply) : Reply :=
  match fields with
  | [] => res
  | (name, value) :: fields' => echo_headers fields' (set_header (str "VGI-Echo-" ++ name) value res)
  end.

Definition apply_sticky : M state unit :=
  st ← get;
  match app_sticky (w_app (h_world st)) with
  | None => mret tt
  | Some slot =>
      (if bool_decide (sl_minted_token slot <> []) then
         reply (set_header SESSION_HEADER (sl_minted_token slot));;
         reply (echo_headers (sticky_echo_headers cfg))
       else mret tt);;
      reply (set_header_if (sl_closed slot) SESSION_CLOSE_HEADER (str "true"))
  end.

(** *** Stream turns *)

Definition cursor_metadata (cursor : bytes) : kv_list := Append [] STATE_B64 cursor.

Definition init_metadata (cursor call_token : bytes) : kv_list :=
  Append (Append [] STATE_B64 cursor) CALL_STATE_B64 call_token.

Definition is_turn_key (key : bytes) : bool :=
  bool_decide (key = STATE_B64) || bool_decide (key = CALL_STATE_B64) || bool_decide (key = CANCEL).

Definition turn_input_metadata (request provenance : metadata) : metadata :=
  let md := List.filter (fun kv => negb (is_turn_key kv.1)) (default [] request) in
  let md := foldl (fun md kv => Append (delete_key (length md) md kv.1) kv.1 kv.2) md (default [] provenance) in
  match md with [] => None | _ => Some md end.

Definition http_context (caller : Caller) (response_limit preferred : option Z) : CallContext Caller :=
  {| ctx_server_id := server_id_ srv; ctx_request_id := request_id; ctx_transport_kind := HTTP;
     ctx_caller := caller; ctx_response_limit_bytes := response_limit;
     ctx_preferred_response_bytes := preferred |}.

Definition write_cycle (batches : list AnnotatedBatch) : M state unit := on_world (write_each batches).

(** Whether the stream is finished, what the turn raised, and the bytes that were
    externalized. *)
Definition run_producer_turns (st : @StreamState arrow Caller app) (s : Schema) (ctx : CallContext Caller)
    (owner : ProtocolIdentity) (method : bytes) (input : AnnotatedBatch) : M state (bool * option exception * Z) :=
  turn ← try_catch
    (oc ← on_world (process_turn array_length st ctx input
                      (new_OutputCollector s true (server_id_ srv) request_id)); mret (inl oc))
    (fun e => mret (inr e));
  match turn with
  | inr e =>
      h ← get;
      md ← lift (make_exception_metadata (current_scope srv (h_world h)) e (server_id_ srv) request_id
                   (traceback_for srv owner method (exception_type_of e) (ex_what e)));
      b ← lift (make_empty_batch s);
      on_world (on_wire (WriteRecordBatch b (Some md)));;
      mret (true, Some e, 0)
  | inl oc =>
      '(pointer, externalized) ← externalize_cycle (batches_ oc) s;
      match pointer with
      | Some pointer =>
          b ← lift (make_empty_batch s);
          on_world (on_wire (WriteRecordBatch b (Some pointer)))
      | None => write_cycle (batches_ oc)
      end;;
      mret (finished_ oc, None, externalized)
  end.

(** The record of a stream turn or of a framework endpoint. *)
Definition access_record (owner : ProtocolIdentity) (method : bytes) (is_stream : bool) (stream_id : bytes)
    (caller : Caller) (shape : option RecordBatch) (request_state : Z) : AccessRecord Caller :=
  {| ar_protocol := pi_name owner; ar_protocol_hash := pi_hash owner; ar_method := method;
     ar_is_stream := is_stream; ar_status := str "ok"; ar_error_type := []; ar_error_message := [];
     ar_error_code := []; ar_caller := Some caller; ar_request_id := request_id; ar_stream_id := stream_id;
     ar_cancelled := false;
     ar_request_fields := match shape with Some batch => request_shape batch | None => [] end;
     ar_request_rows := match shape with Some batch => num_rows batch | None => -1 end;
     ar_request_state_bytes := request_state; ar_response_state_bytes := -1 |}.

Definition turn_raised (e : exception) : M state unit :=
  turn_failed (exception_type_of e) (ex_what e) (code_name (error_code_of e)).
End request.
