(* ===== verification/HttpRpc.v ===== *)
(** * Dispatch of an HTTP request (src/src/http_transport.cpp)

    [HttpServer::handle_rpc] from the headers to the response, the entry point
    around it that reads the body, and the deletion of a session. *)

From S2P Require Import Prelude Memory Arrow Json Crypto Grants Errors Session PeerIdentity FloatText.
From S2P Require Import ProxyProof Wire TokenIdentity Calls RequestParams ClientExternal External.
From S2P Require Import ProtocolHash Reflection Server HttpRoute HttpAuth HttpReply CallState.
From S2P Require Import Dispatch IdentityServer HttpTurn.

Section rpc.
Context {arrow : Arrow} {afields : ArrowFields} {columns : ArrowColumns} {types : ArrowTypes}
  {streams : ArrowStreams} {build_ : ArrowBuild} {ib : IdentityArrow} {kvm : KeyValueMetadata}
  {buffers : BufferStreams} {ipc : IpcBytes} {J : JsonText} {D : Digests} {aead : Aead}
  {compressor : ZstdCompressor} {gzip : GzipCompressor} {User : Type}.

Abbreviation app := (HttpApp User).
Abbreviation state := (HttpState app).
Abbreviation method_info := (@MethodInfo arrow Caller app).

Context (array_length : Array -> Z) (http : HttpServer app) (srv : Server Caller app) (env : HttpEnv)
  (req : HttpRequestHead).

Abbreviation cfg := (cfg_ http).
Abbreviation pf := (http_platform env req).
Abbreviation fail := (fail http srv env req).

(** What the gates before dispatch established: who calls, the associated data of
    its session, the route and its binding, and the response budgets. *)
Record Routed := {
  rq_caller : Caller;
  rq_aad : bytes;
  rq_route : RoutedRequest;
  rq_protocol : ServedProtocol Caller app;
  rq_response_limit : option Z;
  rq_preferred : option Z;
}.

(** The decoded request: its batch, its metadata, and the provenance of a
    resolved pointer. *)
Record Decoded := { dq_batch : RecordBatch; dq_metadata : metadata; dq_provenance : metadata }.

(** ** Framework protocols *)

Definition offered (r : RoutedRequest) : list bytes :=
  if bool_decide (rt_target r = REFLECTION) then [str "describe"; str "list_protocols"]
  else match identity_ srv with Some impl => offered_methods impl | None => [] end.

Definition serve_framework (q : Routed) (d : Decoded) : M state unit :=
  let r := rq_route q in
  let method_name := rt_method r in
  if negb (bool_decide (method_name ∈ offered r)) || rt_is_init r || rt_is_exchange r then
    fail 404 (str "MethodNotImplementedError") (str "Protocol has no such method") ERROR_KIND_METHOD_NOT_IMPLEMENTED
  else
    '(errored, body) ← build_body (on_world
      (if bool_decide (rt_target r = REFLECTION) then serve_reflection pf srv method_name (dq_batch d)
       else serve_identity pf srv method_name (dq_batch d) (rq_caller q)));
    match exceeded (rq_response_limit q) body with
    | Some limit =>
        respond_error_on http srv env req empty_schema (str "ResponseTooLargeError")
          (too_large method_name (blen body) limit) []
    | None =>
        reply (set_status 200);;
        reply (set_header_if errored RPC_ERROR_HEADER (str "true"));;
        set_arrow_body http req body
    end.

(** ** [__upload_url__] *)

(** The column [count], clamped. *)
Definition upload_count (batch : RecordBatch) : Z :=
  let count :=
    match GetColumnByName batch (str "count") with
    | Some col => match column_of col with Int64Column ((v, _) :: _) => v | _ => 1 end
    | None => 1
    end in
  Z.min 100 (Z.max 1 count).

Definition nullable_field (name : bytes) (t : DataType) : Field :=
  {| field_name := name; field_type := t; field_nullable := true |}.

Definition upload_schema : Schema :=
  make_schema [nullable_field (str "upload_url") utf8; nullable_field (str "download_url") utf8;
               nullable_field (str "expires_at") timestamp_us_utc].

Definition upload_batch (pairs : list UploadUrlPair) : res RecordBatch :=
  let expires_us := (he_time env + 3600) * 1000000 in
  up ← StringArray (map upup_upload_url pairs);
  down ← StringArray (map upup_download_url pairs);
  exp ← TimestampArray (map (fun _ => expires_us) pairs);
  Ok (RecordBatch_Make upload_schema (blen pairs) [up; down; exp]).

(** The body of the [try]. *)
Definition vend_upload_urls (storage : ExternalStorage app) (q : Routed) (d : Decoded) : M state unit :=
  let method_name := rt_method (rq_route q) in
  pairs ← on_http_app (es_upload_urls storage (upload_count (dq_batch d)));
  out_batch ← lift (upload_batch pairs);
  reply (set_status 200);;
  body ← to_buffer (write_ipc_stream upload_schema [data out_batch]);
  match exceeded (rq_response_limit q) body with
  | Some limit =>
      let msg := too_large method_name (blen body) limit in
      reply (set_header RPC_ERROR_HEADER (str "true"));;
      turn_failed (str "ResponseTooLargeError") msg [];;
      body ← error_text srv env req upload_schema (str "ResponseTooLargeError") msg [];
      set_arrow_body http req body
  | None => set_arrow_body http req body
  end.

Definition serve_upload_urls (q : Routed) (d : Decoded) : M state unit :=
  match storage_ http with
  | None => fail 404 (str "AttributeError") (str "Upload URLs are not configured") []
  | Some storage =>
      with_turn srv
        (access_record env req (sp_binding (rq_protocol q)) (rt_method (rq_route q)) false []
           (rq_caller q) (Some (dq_batch d)) (-1))
        (try_catch (vend_upload_urls storage q d)
           (fun e =>
              let msg := str "cannot vend upload URLs: " ++ ex_what e in
              turn_failed (str "RuntimeError") msg [];;
              fail 500 (str "RuntimeError") msg []))
  end.

(** ** Unary calls *)

Definition serve_unary_http (mi : method_info) (q : Routed) (request : Request) (ctx : CallContext Caller)
    : M state unit :=
  let method_name := rt_method (rq_route q) in
  let s := mi_result_schema mi in
  let respond_error type message := respond_error_on http srv env req s type message [] in
  '(errored, external_ref, body) ←
    build_body (on_world (set_call_shm false;;
                          serve_unary_impl pf srv mi (sp_binding (rq_protocol q)) request ctx));
  apply_sticky http;;
  stored ←
    (if negb errored && negb external_ref then
       try_catch (b ← maybe_externalize http body s; mret (inl b)) (fun e => mret (inr e))
     else mret (inl (body, 0)));
  match stored with
  | inr e => respond_error (str "RpcError") (str "externalization failed: " ++ ex_what e)
  | inl (body, externalized) =>
      if external_exceeded http externalized then
        respond_error (str "RpcError")
          (too_large_external method_name externalized (max_externalized_response_bytes cfg))
      else
        match exceeded (rq_response_limit q) body with
        | Some limit => respond_error (str "ResponseTooLargeError") (too_large method_name (blen body) limit)
        | None =>
            reply (set_status 200);;
            reply (set_header_if errored RPC_ERROR_HEADER (str "true"));;
            set_arrow_body http req body
        end
  end.

(** ** Opening a stream *)

Definition opened_session (q : Routed) (stream : Stream) (s : Schema) (exchange : bool) (scope : bytes)
    : HttpStreamSession app :=
  {| hs_state := st_state stream; hs_output_schema := s; hs_input_schema := st_input_schema stream;
     hs_is_exchange := exchange; hs_method_name := rt_method (rq_route q); hs_aad := scope;
     hs_response_limit_bytes := rq_response_limit q; hs_preferred_response_bytes := rq_preferred q;
     hs_stream_id := he_stream_id env |}.

Definition call_token (method_name cursor scope : bytes) : bytes :=
  base64url_encode (aead_seal (he_call_nonce env) (token_key cfg) (method_name ++ [x00] ++ cursor) scope).

(** The record says a token went out, and the registry holds its stream. *)
Definition hand_out (cursor : bytes) (session : HttpStreamSession app) : M state unit :=
  turn_response_state (blen cursor);;
  register_stream cursor session.

(** What [build_body] writes: the failure of the first turn, and the bytes
    externalized. *)
Definition init_body (q : Routed) (d : Decoded) (ctx : CallContext Caller) (stream : Stream) (s : Schema)
    (st : option StreamState) (exchange : bool) (scope : bytes) : M state (option exception * Z) :=
  let cursor := he_cursor env in
  let tokens := init_metadata cursor (call_token (rt_method (rq_route q)) cursor scope) in
  let session := opened_session q stream s exchange scope in
  match st_header stream with Some header => on_world (write_header header) | None => mret tt end;;
  let init_logs := match st_header stream with Some _ => mret [] | None => on_world (flush_logs s) end in
  match st with
  | None =>
      logs ← init_logs;
      empty ← lift (make_empty_batch s);
      on_world (on_wire (write_ipc_stream s (logs ++ [with_metadata empty tokens])));;
      hand_out cursor session;;
      mret (None, 0)
  | Some st =>
      ok ← on_world (on_wire (MakeStreamWriter s));
      if negb ok then raise (EOther (stream_writer_error s))
      else
        logs ← init_logs;
        write_cycle logs;;
        tick ← lift (make_empty_batch empty_schema);
        '(finished, failure, externalized) ←
          run_producer_turns array_length http srv env req st s ctx (sp_binding (rq_protocol q))
            (rt_method (rq_route q))
            {| ab_batch := tick; custom_metadata := turn_input_metadata (dq_metadata d) None |};
        (if finished : bool then mret tt
         else
           empty ← lift (make_empty_batch s);
           on_world (on_wire (WriteRecordBatch empty (Some tokens)));;
           hand_out cursor session);;
        on_world (on_wire Close);;
        mret (failure, externalized)
  end.

(** A response that carries no usable token: the stream it opened is gone. *)
Definition init_refused (q : Routed) (s : Schema) (type message : bytes) : M state unit :=
  erase_stream (he_cursor env);;
  reply (set_status 200);;
  reply (set_header RPC_ERROR_HEADER (str "true"));;
  apply_sticky http;;
  turn_failed type message [];;
  body ← error_text srv env req s type message [];
  set_arrow_body http req body.

Definition raised_response (q : Routed) (method : bytes) (s : Schema) (e : exception) : M state unit :=
  turn_raised e;;
  reply (set_status 200);;
  reply (set_header RPC_ERROR_HEADER (str "true"));;
  apply_sticky http;;
  body ← exception_text srv env req (sp_binding (rq_protocol q)) method s e;
  set_arrow_body http req body.

Definition serve_opened (q : Routed) (d : Decoded) (mi : method_info) (ctx : CallContext Caller)
    (stream : Stream) (scope : bytes) : M state unit :=
  let method_name := rt_method (rq_route q) in
  let exchange := mi_is_exchange mi
                  && negb (match st_state stream with Some st => is_producer_state st | None => false end) in
  match st_output_schema stream, (if exchange then Some None else Some <$> st_state stream) with
  | Some s, Some st =>
      built ← try_catch (b ← build_body (init_body q d ctx stream s st exchange scope); mret (inl b))
                (fun e => mret (inr e));
      match built with
      | inr e => erase_stream (he_cursor env);; raised_response q method_name s e
      | inl (failure, externalized, body) =>
          if external_exceeded http externalized then
            init_refused q s (str "RpcError")
              (too_large_external method_name externalized (max_externalized_response_bytes cfg))
          else
            match exceeded (rq_response_limit q) body with
            | Some limit =>
                init_refused q s (str "ResponseTooLargeError") (too_large method_name (blen body) limit)
            | None =>
                reply (set_status 200);;
                match failure with
                | Some e => turn_raised e;; reply (set_header RPC_ERROR_HEADER (str "true"))
                | None => mret tt
                end;;
                apply_sticky http;;
                set_arrow_body http req body
            end
      end
  | _, _ => undefined
  end.

Definition serve_init (q : Routed) (d : Decoded) (mi : method_info) (request : Request)
    (ctx : CallContext Caller) (scope : bytes) : M state unit :=
  let method_name := rt_method (rq_route q) in
  with_turn srv
    (access_record env req (sp_binding (rq_protocol q)) method_name true (he_stream_id env) (rq_caller q)
       (Some (req_batch request)) (-1))
    (opened ← try_catch (s ← on_world (run_handler (mi_stream_factory mi) request ctx); mret (inl s))
                (fun e => mret (inr e));
     match opened with
     | inr e => raised_response q method_name empty_schema e
     | inl stream => serve_opened q d mi ctx stream scope
     end).

(** ** Continuing a stream *)

Definition unknown_token : M state unit :=
  fail 400 (str "ProtocolError") (str "Unknown or missing stream state token") [].

(** The token names the method and the cursor it was minted with. *)
Definition call_token_resolves (token method_name cursor scope : bytes) : bool :=
  match token with
  | [] => false
  | _ =>
      match base64url_decode token ≫= fun raw => aead_open (token_key cfg) raw scope with
      | None => false
      | Some opened =>
          match list_find (eq x00) opened with
          | None => false
          | Some (sep, _) =>
              bool_decide (take sep opened = method_name) && bool_decide (drop (S sep) opened = cursor)
          end
      end
  end.

(** A response that ends the stream with an error. *)
Definition turn_refused (cursor : bytes) (s : Schema) (type message : bytes) : M state unit :=
  erase_stream cursor;;
  reply (set_status 200);;
  reply (set_header RPC_ERROR_HEADER (str "true"));;
  apply_sticky http;;
  turn_failed type message [];;
  body ← error_text srv env req s type message [];
  set_arrow_body http req body.

(** The response of a turn within its caps, [finish] sends it. *)
Definition within_caps (q : Routed) (sess : HttpStreamSession app) (cursor : bytes) (limit : option Z)
    (externalized : Z) (body : bytes) (before finish : M state unit) : M state unit :=
  let s := hs_output_schema sess in
  let method := hs_method_name sess in
  if external_exceeded http externalized then
    turn_refused cursor s (str "RpcError")
      (too_large_external method externalized (max_externalized_response_bytes cfg))
  else
    before;;
    match exceeded limit body with
    | Some limit => turn_refused cursor s (str "ResponseTooLargeError") (too_large method (blen body) limit)
    | None => finish
    end.

Definition cancel_stream (sess : HttpStreamSession app) (st : StreamState) (ctx : CallContext Caller)
    (cursor : bytes) (limit : option Z) : M state unit :=
  let s := hs_output_schema sess in
  turn_cancelled;;
  on_world (run_on_cancel st ctx);;
  erase_stream cursor;;
  reply (set_status 200);;
  apply_sticky http;;
  body ← to_buffer (write_ipc_stream s []);
  match exceeded limit body with
  | Some limit =>
      let msg := too_large (hs_method_name sess) (blen body) limit in
      reply (set_header RPC_ERROR_HEADER (str "true"));;
      turn_failed (str "ResponseTooLargeError") msg [];;
      body ← error_text srv env req s (str "ResponseTooLargeError") msg [];
      set_arrow_body http req body
  | None => set_arrow_body http req body
  end.

(** The cursor rides every batch with rows. *)
Definition add_cursor (cursor : bytes) (ab : AnnotatedBatch) : AnnotatedBatch :=
  if 0 <? num_rows (ab_batch ab) then
    {| ab_batch := ab_batch ab;
       custom_metadata := merge_metadata (custom_metadata ab) (Some (cursor_metadata cursor)) |}
  else ab.

Definition trailing_cursor (batches : list AnnotatedBatch) : bool :=
  match last batches with Some ab => num_rows (ab_batch ab) =? 0 | None => true end.

Definition exchange_turn (q : Routed) (d : Decoded) (sess : HttpStreamSession app) (st : StreamState)
    (input_schema : Schema) (ctx : CallContext Caller) (cursor : bytes) (limit : option Z) : M state unit :=
  let s := hs_output_schema sess in
  coerced ← coerce_input_batch (dq_batch d) input_schema;
  oc ← on_world (process_turn array_length st ctx
         {| ab_batch := coerced;
            custom_metadata := turn_input_metadata (dq_metadata d) (dq_provenance d) |}
         (new_OutputCollector s false (server_id_ srv) (request_id env req)));
  let batches := map (add_cursor cursor) (batches_ oc) in
  '(pointer, externalized) ← externalize_cycle http batches s;
  wire ← match pointer with
         | Some pointer => empty ← lift (make_empty_batch s); mret [with_metadata empty pointer]
         | None => mret batches
         end;
  tail ← (if trailing_cursor batches then
            empty ← lift (make_empty_batch s); mret [with_metadata empty (cursor_metadata cursor)]
          else mret []);
  body ← to_buffer (write_ipc_stream s (wire ++ tail));
  within_caps q sess cursor limit externalized body
    (turn_response_state (blen cursor))
    (reply (set_status 200);; apply_sticky http;; set_arrow_body http req body).

(** What [build_body] writes in one producer turn. *)
Definition producer_body (q : Routed) (d : Decoded) (sess : HttpStreamSession app) (st : StreamState)
    (ctx : CallContext Caller) (cursor : bytes) : M state (bool * option exception * Z) :=
  let s := hs_output_schema sess in
  ok ← on_world (on_wire (MakeStreamWriter s));
  if negb ok then raise (EOther (stream_writer_error s))
  else
    '(finished, failure, externalized) ←
      run_producer_turns array_length http srv env req st s ctx (sp_binding (rq_protocol q))
        (rt_method (rq_route q))
        {| ab_batch := dq_batch d;
           custom_metadata := turn_input_metadata (dq_metadata d) (dq_provenance d) |};
    (if finished : bool then mret tt
     else
       empty ← lift (make_empty_batch s);
       on_world (on_wire (WriteRecordBatch empty (Some (cursor_metadata cursor))));;
       turn_response_state (blen cursor));;
    on_world (on_wire Close);;
    mret (finished, failure, externalized).

Definition producer_turn (q : Routed) (d : Decoded) (sess : HttpStreamSession app) (st : StreamState)
    (ctx : CallContext Caller) (cursor : bytes) (limit : option Z) : M state unit :=
  '(finished, failure, externalized, body) ← build_body (producer_body q d sess st ctx cursor);
  within_caps q sess cursor limit externalized body (mret tt)
    ((if finished : bool then erase_stream cursor else mret tt);;
     reply (set_status 200);;
     match failure with
     | Some e => turn_raised e;; reply (set_header RPC_ERROR_HEADER (str "true"))
     | None => mret tt
     end;;
     apply_sticky http;;
     set_arrow_body http req body).

(** [stream_error]. *)
Definition stream_error (q : Routed) (sess : HttpStreamSession app) (cursor : bytes) (e : exception) : M state unit :=
  erase_stream cursor;;
  raised_response q (rt_method (rq_route q)) (hs_output_schema sess) e.

(** From the turn's record on.  A null state is undefined before the input is
    looked at. *)
Definition run_turn_of (q : Routed) (d : Decoded) (sess : HttpStreamSession app) (ctx : CallContext Caller)
    (cursor : bytes) (limit : option Z) : M state unit :=
  match hs_state sess with
  | None => undefined
  | Some st =>
      if is_cancel (dq_metadata d) then cancel_stream sess st ctx cursor limit
      else if hs_is_exchange sess then
        match hs_input_schema sess with
        | None => undefined
        | Some input_schema =>
            try_catch (exchange_turn q d sess st input_schema ctx cursor limit) (stream_error q sess cursor)
        end
      else try_catch (producer_turn q d sess st ctx cursor limit) (stream_error q sess cursor)
  end.

(** The budgets of a continuation. *)
Definition turn_limits (q : Routed) (sess : HttpStreamSession app) : option Z * option Z :=
  let limit := min_limit (rq_response_limit q) (hs_response_limit_bytes sess) in
  (limit, min_limit (min_limit (rq_preferred q) (hs_preferred_response_bytes sess)) limit).

(** [find] under the registry lock, the wait for the stream's lock, and the second
    look; a session is replaced only by its end. *)
Definition live_session (cursor : bytes) : M state (option (HttpStreamSession app)) :=
  st ← get;
  match (if bool_decide (cursor = []) then None else h_streams st !! cursor) with
  | None => mret None
  | Some sess =>
      put (with_streams st (foldr delete (h_streams st) (he_waited env)));;
      st ← get;
      mret (match h_streams st !! cursor with Some _ => Some sess | None => None end)
  end.

Definition serve_continuation (q : Routed) (d : Decoded) (scope : bytes) : M state unit :=
  let cursor := get_metadata_value (dq_metadata d) STATE_B64 [] in
  found ← live_session cursor;
  match found with
  | None => unknown_token
  | Some sess =>
      if negb (bool_decide (hs_aad sess = scope)) then unknown_token
      else
        let '(limit, preferred) := turn_limits q sess in
        let ctx := http_context srv env req (rq_caller q) limit preferred in
        let token := get_metadata_value (dq_metadata d) CALL_STATE_B64 [] in
        if negb (call_state_cache cfg)
           && negb (call_token_resolves token (hs_method_name sess) cursor scope) then
          fail 400 (str "ProtocolError") (str "Stream continuation is missing its call token; a client must echo vgi_rpc.call_state#b64 alongside vgi_rpc.stream_state#b64 on every turn") []
        else
          with_turn srv
            (access_record env req (sp_binding (rq_protocol q)) (hs_method_name sess) true
               (hs_stream_id sess) (rq_caller q) None (blen cursor))
            (run_turn_of q d sess ctx cursor limit)
  end.

(** ** Methods *)

Definition serve_method (q : Routed) (d : Decoded) (mi : method_info) : M state unit :=
  let r := rq_route q in
  let scope := stream_aad (rq_aad q) (rt_protocol r) in
  let request := {| req_batch := dq_batch d; req_metadata := dq_metadata d |} in
  let ctx := http_context srv env req (rq_caller q) (rq_response_limit q) (rq_preferred q) in
  on_world (reset_sink pf srv);;
  with_sticky_slot http srv env req (rq_aad q) (mi_result_schema mi)
    (if negb (rt_is_init r) && negb (rt_is_exchange r) then serve_unary_http mi q request ctx
     else if rt_is_init r then serve_init q d mi request ctx scope
     else serve_continuation q d scope).

Definition find_http_method (q : Routed) : option method_info :=
  match sp_methods (rq_protocol q) !! rt_method (rq_route q) with
  | Some mi =>
      if Bool.eqb (IsApplicationMethod (rt_method (rq_route q)))
           (bool_decide (rt_target (rq_route q) = APPLICATION))
      then Some mi else None
  | None => None
  end.

Definition serve_application_http (q : Routed) (d : Decoded) : M state unit :=
  let method_name := rt_method (rq_route q) in
  if bool_decide (method_name = str "__upload_url__") && rt_is_init (rq_route q) then serve_upload_urls q d
  else
    match find_http_method q with
    | None =>
        fail 404 (str "MethodNotImplementedError")
          (if bool_decide (method_name = RETIRED_DESCRIBE_METHOD) then RETIRED_DESCRIBE_MESSAGE
           else str "Unknown method: '" ++ method_name ++ str "'") ERROR_KIND_METHOD_NOT_IMPLEMENTED
    | Some mi =>
        let error := if rt_is_exchange (rq_route q) then []
                     else parameter_contract_error (dq_batch d) (mi_params_schema mi) in
        if nonempty error then fail 400 (str "ProtocolError") error []
        else serve_method q d mi
    end.

(** ** The gates on a decoded request *)

(** What a decoded request is refused with: type, message, kind and extras. *)
Definition request_refusal (q : Routed) (d : Decoded) : option (bytes * bytes * bytes * ErrorExtras) :=
  let r := rq_route q in
  let wire_protocol := get_metadata_value (dq_metadata d) PROTOCOL [] in
  let wire_method := get_metadata_value (dq_metadata d) METHOD [] in
  let reason := if bool_decide (rt_target r = APPLICATION)
                then protocol_version_error (rq_protocol q) (dq_metadata d) else [] in
  if negb (bool_decide (rt_target r = RESERVED)) && bool_decide (wire_protocol <> [])
     && negb (bool_decide (wire_protocol = rt_protocol r)) then
    Some (str "ProtocolNotSupportedError", str "Request routing key disagrees with the protocol in its path",
          ERROR_KIND_PROTOCOL_NOT_SUPPORTED, no_extras)
  else if rt_is_exchange r then None
  else if negb (bool_decide (wire_method = rt_method r)) then
    Some (str "ProtocolError",
          (if bool_decide (wire_method = []) then str "Missing 'vgi_rpc.method' in request batch custom_metadata."
           else str "Method name in request does not match the HTTP route."), [], no_extras)
  else if negb (bool_decide (get_metadata_value (dq_metadata d) REQUEST_VERSION [] = REQUEST_VERSION_VALUE)) then
    Some (str "VersionError", str "Unsupported or missing request version, expected '1'.", [], no_extras)
  else if nonempty reason then
    Some (str "ProtocolVersionError", reason, ERROR_KIND_PROTOCOL_VERSION_MISMATCH,
          protocol_version_extras (rq_protocol q) (dq_metadata d))
  else None.

(** The refusal of a request, with status 400. *)
Definition refuse_request (refusal : bytes * bytes * bytes * ErrorExtras) : M state unit :=
  let '(type, message, kind, extras) := refusal in
  reply (set_status 400);;
  reply (set_header RPC_ERROR_HEADER (str "true"));;
  st ← get;
  err ← lift (Result_error (current_scope srv (h_world st)) empty_schema type message (server_id_ srv)
                (request_id env req) kind extras);
  body ← to_buffer (write_ipc_stream empty_schema [batch_ err]);
  set_arrow_body http req body.

Definition serve_decoded (q : Routed) (d : Decoded) : M state unit :=
  match request_refusal q d with
  | Some refusal => refuse_request refusal
  | None =>
      match rt_target (rq_route q) with
      | REFLECTION | IDENTITY => serve_framework q d
      | RESERVED | APPLICATION => serve_application_http q d
      end
  end.

(** ** Decoding the body *)

Definition read_provenance (url : bytes) : kv_list :=
  Append (Append [] LOCATION_SOURCE url) LOCATION_FETCH_MS
    (format_fixed 1 (elapsed_ms (he_fetch_finished env - he_fetch_started env))).

Definition serve_body (q : Routed) (request_body : bytes) : M state unit :=
  match (read_ipc_stream (buffer_reader request_body)).1 with
  | Raised e => fail 400 (str "ProtocolError") (str "Invalid request IPC: " ++ ex_what e) []
  | Done None | Done (Some (_, [])) => fail 400 (str "ProtocolError") (str "Empty request body") []
  | Done (Some (_, first :: _)) =>
      let pointer_url := get_metadata_value (custom_metadata first) LOCATION [] in
      resolved ← try_catch (r ← resolve_request_pointer http first; mret (inl r)) (fun e => mret (inr e));
      match resolved with
      | inr e =>
          fail 200 (str "ProtocolError") (str "Could not resolve externalized request: " ++ ex_what e) []
      | inl None =>
          serve_decoded q {| dq_batch := ab_batch first; dq_metadata := custom_metadata first;
                             dq_provenance := None |}
      | inl (Some batch) =>
          serve_decoded q {| dq_batch := ab_batch batch; dq_metadata := custom_metadata batch;
                             dq_provenance := Some (read_provenance pointer_url) |}
      end
  end.

(** ** The gates on the headers *)

(** The route and its binding; a server has at least one protocol. *)
Definition http_route : RoutedRequest :=
  route_path (fun name => bool_decide (is_Some (find_protocol srv name)))
    (bool_decide (is_Some (identity_ srv))) (routed_path (prefix cfg) req).

Definition routed_protocol (r : RoutedRequest) : ServedProtocol Caller app :=
  match (if bool_decide (rt_target r = APPLICATION) then find_protocol srv (rt_protocol r) else None) with
  | Some p => p
  | None => front_protocol srv
  end.

Definition route_where (r : RoutedRequest) : bytes :=
  match rt_protocol r with [] => rt_method r | protocol => protocol ++ str "/" ++ rt_method r end.

Definition serve_identified (caller : Caller) (request_body : bytes) : M state unit :=
  let principal := default [] (auth_principal caller.1) in
  let aad := session_aad (auth_domain caller.1) principal (authenticated caller.1) in
  if negb (starts_with ARROW_CONTENT_TYPE (get_header_value req (str "Content-Type"))) then
    reply (set_status 415);;
    reply (set_content (str "Unsupported Media Type") (str "text/plain"))
  else
    let r := http_route in
    (if bool_decide (rt_error r = NO_ROUTE_ERROR) then on_world (set_where (route_where r)) else mret tt);;
    match parse_accepted_response_limit req with
    | inl error => fail 400 (str "ValueError") error []
    | inr accepted =>
        let response_limit := min_limit (configured_response_limit cfg) accepted in
        let preferred := if 0 <=? preferred_response_bytes cfg then Some (preferred_response_bytes cfg) else None in
        match rt_error r with
        | NOT_FOUND_PATH => fail 404 (str "AttributeError") (str "No RPC route for this path") []
        | PROTOCOL_NOT_SUPPORTED =>
            fail 404 (str "ProtocolNotSupportedError") (str "This server does not host the named protocol")
              ERROR_KIND_PROTOCOL_NOT_SUPPORTED
        | NO_ROUTE_ERROR =>
            serve_body {| rq_caller := caller; rq_aad := aad; rq_route := r; rq_protocol := routed_protocol r;
                          rq_response_limit := response_limit;
                          rq_preferred := min_limit preferred response_limit |} request_body
        end
    end.

(** [HttpServer::handle_rpc]. *)
Definition handle_rpc (request_body : bytes) : M state unit :=
  on_world (set_where []);;
  reply (stamp_common cfg req (request_id env req));;
  refused ← zoom (fun s => (h_proof s, h_reply s)) with_proof
              (refuse_if_unauthorized cfg (he_proof_now env) (he_proof_now' env) req);
  if refused : bool then mret tt
  else
    resolved ← on_auth (resolve_http_identity cfg (identity_ srv) req (he_steady_ms env) (he_wall env));
    match resolved with
    | inl e => on_response (write_auth_error cfg req e)
    | inr caller => serve_identified caller request_body
    end.

(** [HttpServer::handle_session_delete]. *)
Definition handle_session_delete : M state unit :=
  reply (stamp_common cfg req (he_request_id env));;
  if negb (sticky cfg) then reply (set_status 404)
  else
    resolved ← on_auth (resolve_http_identity cfg (identity_ srv) req (he_steady_ms env) (he_wall env));
    match resolved with
    | inl e => on_response (write_auth_error cfg req e)
    | inr caller =>
        let aad := session_aad (auth_domain caller.1) (default [] (auth_principal caller.1))
                     (authenticated caller.1) in
        st ← get;
        let a := w_app (h_world st) in
        let '(sessions, (hit, hooks)) :=
          Session.close (he_session_wall env) (app_sessions a) (get_header_value req SESSION_HEADER) aad in
        on_http_app (put (with_sessions a sessions hooks));;
        reply (set_status (if hit then 204 else 200))
    end.
End rpc.
