(* ===== verification/HttpEntry.v ===== *)
(** * The HTTP listener's handlers (src/src/http_transport.cpp, HttpServer::run)

    What [HttpServer::run] registers: the RPC route with its body reader, the
    health endpoint, session deletion, preflight, static assets, the drain switch
    of the tests, and the handler of exceptions that leave them.  The library
    matches the routes and reads the bodies. *)

From S2P Require Import Prelude Memory Arrow Json Crypto Grants Errors Session PeerIdentity FloatText.
From S2P Require Import ProxyProof Wire TokenIdentity Calls RequestParams ClientExternal External.
From S2P Require Import ProtocolHash Reflection Server HttpRoute HttpAuth HttpReply CallState.
From S2P Require Import Dispatch IdentityServer HttpTurn HttpRpc.

(** What [httplib::ContentReader] does: the chunks it hands to the receiver,
    whether the body was complete, and the status it set when it was not. *)
Record ContentReader := { cr_chunks : list bytes; cr_ok : bool; cr_status : Z }.

Record HttpStaticAsset := { sa_body : bytes; sa_content_type : bytes; sa_json_body : option bytes }.

(** The receiver: [None] when the body exceeds the cap. *)
Fixpoint receive_capped (cap : Z) (chunks : list bytes) (body : bytes) : option bytes :=
  match chunks with
  | [] => Some body
  | data :: chunks' =>
      if (0 <=? cap) && ((cap <? blen data) || (cap - blen data <? blen body)) then None
      else receive_capped cap chunks' (body ++ data)
  end.

(** [std::getline] up to each comma, trimmed, without the weakness mark. *)
Definition validators (header : bytes) : list bytes :=
  map (fun value => if starts_with (str "W/") value then drop 2 value else value)
    (List.filter nonempty
       (map (fun piece => pop_back_while blank (drop_while blank piece)) (split_on "," header))).

Section entry.
Context {arrow : Arrow} {afields : ArrowFields} {columns : ArrowColumns} {types : ArrowTypes}
  {streams : ArrowStreams} {build_ : ArrowBuild} {ib : IdentityArrow} {kvm : KeyValueMetadata}
  {buffers : BufferStreams} {ipc : IpcBytes} {J : JsonText} {D : Digests} {aead : Aead}
  {compressor : ZstdCompressor} {gzip : GzipCompressor} {User : Type}.

Abbreviation app := (HttpApp User).
Abbreviation state := (HttpState app).

Context (array_length : Array -> Z) (http : HttpServer app) (srv : Server Caller app) (env : HttpEnv)
  (req : HttpRequestHead).

Abbreviation cfg := (cfg_ http).

Definition notify_http : M state unit :=
  on_world (zoom (fun w => (w_bound w, w_app w)) set_bound (notify_serve_start srv HTTP)).

(** The cap of a request body; negative is none. *)
Definition request_cap : Z :=
  match configured_request_limit cfg with
  | Some limit => limit
  | None => match storage_ http with Some _ => externalize_threshold cfg | None => -1 end
  end.

(** The POST route.  The body is read even when the startup hook fails. *)
Definition handle_post (reader : ContentReader) : M state unit := fun s =>
  let '(started, s) := notify_http s in
  match started with
  | Raised e => (Raised e, s)
  | Done _ =>
      match receive_capped request_cap (cr_chunks reader) [], cr_ok reader with
      | Some body, true => handle_rpc array_length http srv env req body s
      | received, _ =>
          let status := if cr_ok reader then reply_status (h_reply s) else cr_status reader in
          (reply (stamp_common cfg req (he_request_id env));;
           if negb (bool_decide (is_Some received)) || (status =? 413) then
             reply (set_status 413);;
             reply (set_content (str "Request body exceeds VGI-Max-Request-Bytes") (str "text/plain"))
           else if status <? 400 then
             reply (set_status 400);;
             reply (set_content (str "Invalid compressed request body") (str "text/plain"))
           else reply (set_status status)) s
      end
  end.

(** The handler of exceptions that leave a route. *)
Definition exception_handler (e : exception) : M state unit :=
  reply (set_status 500);;
  reply (set_content (json_dump_replace (jobject [(str "error", JString (str "internal"));
                                                  (str "detail", JString (ex_what e))]))
           (str "application/json")).

(** A route as the library runs it: a regular handler after the startup hook, a
    content reader by itself. *)
Definition guarded (handler : M state unit) : M state unit := try_catch handler exception_handler.
Definition regular (handler : M state unit) : M state unit := guarded (notify_http;; handler).

Definition serve_post (reader : ContentReader) : M state unit := guarded (handle_post reader).

Definition serve_health : M state unit :=
  regular (on_response (handle_health cfg (server_id_ srv) (sp_name (front_protocol srv)) (he_request_id env) req)).

Definition serve_session_delete : M state unit := regular (handle_session_delete http srv env req).

Definition serve_preflight : M state unit :=
  regular (reply (stamp_common cfg req (he_request_id env));; reply (set_status 204)).

(** *** Static assets

    [format] is the query parameter of that name. *)
Definition etag (asset : HttpStaticAsset) : bytes := [x22] ++ hex_encode (sha256 (sa_body asset)) ++ [x22].

Definition asset_json (asset : HttpStaticAsset) (format : bytes) : option bytes :=
  let accept := get_header_value req (str "Accept") in
  if bool_decide (format = str "json")
     || (contains (str "application/json") accept && negb (contains (str "text/html") accept))
  then sa_json_body asset else None.

Definition send_asset (asset : HttpStaticAsset) (format : bytes) : M state unit :=
  match asset_json asset format with
  | Some json =>
      reply (set_header (str "Cache-Control") (str "no-store"));;
      reply (set_content json (str "application/json"))
  | None =>
      reply (set_header (str "Cache-Control") (str "private, no-cache"));;
      reply (set_header (str "ETag") (etag asset));;
      if existsb (fun v => bool_decide (v = etag asset) || bool_decide (v = str "*"))
           (validators (get_header_value req (str "If-None-Match")))
      then reply (set_status 304)
      else reply (set_content (sa_body asset) (sa_content_type asset))
  end.

Definition handle_asset (asset : HttpStaticAsset) (format : bytes) : M state unit :=
  reply (stamp_common cfg req (he_request_id env));;
  refused ← zoom (fun s => (h_proof s, h_reply s)) with_proof
              (refuse_if_unauthorized cfg (he_proof_now env) (he_proof_now' env) req);
  if refused : bool then mret tt
  else
    resolved ← on_auth (resolve_http_identity cfg (identity_ srv) req (he_steady_ms env) (he_wall env));
    match resolved with
    | inl e => on_response (write_auth_error cfg req e)
    | inr _ => send_asset asset format
    end.

(** The paths and ETags are fixed when the server starts. *)
Definition asset_path_ok (path : bytes) : bool :=
  bool_decide (head path = Some (chr "/")) && forallb (fun c => negb (Byte.eqb c "?" || Byte.eqb c "#")) path.

(** *** Draining *)

Definition change_sessions (f : SessionRegistry -> SessionRegistry) : M state unit :=
  on_http_app (modify (fun a => with_sessions a (f (app_sessions a)) [])).

Definition handle_drain (reader : ContentReader) : M state unit := fun s =>
  let '(started, s) := notify_http s in
  match started with
  | Raised e => (Raised e, s)
  | Done _ =>
      (if cr_ok reader then change_sessions Session.drain;; reply (set_status 204)
       else reply (set_status (if cr_status reader <? 400 then 400 else cr_status reader))) s
  end.

Definition handle_undrain : M state unit := change_sessions Session.undrain;; reply (set_status 204).
End entry.
