(* ===== verification/HttpDemo.v ===== *)
(** * A concrete HTTP server

    One protocol with the unary method [echo] and the exchange stream [copy], behind
    an [HttpServer] without storage, over the toy instances of the Arrow, digest and
    compressor interfaces; the properties of HTTP dispatch are instantiated on it. *)

From S2P Require Import Prelude Memory Arrow Json Crypto Grants Errors Session PeerIdentity FloatText.
From S2P Require Import ProxyProof Wire TokenIdentity Calls RequestParams ClientExternal External.
From S2P Require Import ProtocolHash Reflection Server HttpRoute HttpAuth HttpReply CallState.
From S2P Require Import Dispatch Demo IdentityServer HttpTurn HttpRpc HttpEntry.

Module HttpToy.
Import ToyArrow ToyStreams.

#[export] Instance toy_columns : ArrowColumns := fun _ => StringColumn false [(str "opaque", true)].
#[export] Instance toy_ib : IdentityArrow := {|
  int64 := false; timestamp_us_utc := false; Int64Array _ := Ok tt; TimestampArray _ := Ok tt;
|}.

(** The first byte of a payload tells the request it stands for: [E] and [O] call
    the methods, [C] continues the stream of the cursor [c1]. *)
Definition toy_request_metadata (payload : bytes) : kv_list :=
  let common := [(REQUEST_VERSION, str "1"); (PROTOCOL, str "demo.v1"); (PROTOCOL_VERSION, str "1.2.9")] in
  if bool_decide (head payload = Some "E"%byte) then (METHOD, str "echo") :: common
  else if bool_decide (head payload = Some "O"%byte) then (METHOD, str "copy") :: common
  else [(PROTOCOL, str "demo.v1"); (STATE_B64, str "c1")].

#[export] Instance toy_buffers : BufferStreams := {|
  buffer_reader p := toy_wire [MsgSchema toy_schema;
    MsgBatch (toy_data_batch (drop 1 p)) (Some (toy_request_metadata p)); MsgEos];
  buffer_tell p _ := Some (blen p); schema_equal_metadata s t := Bool.eqb s t;
|}.

(** A message is its kind and what it carries. *)
Definition toy_bytes (m : message) : bytes :=
  match m with
  | MsgSchema s => [x53; toy_bool s]
  | MsgBatch b _ => [x42; toy_bool (toy_dictionary b)] ++ toy_data b
  | MsgEos => [x45]
  | _ => []
  end.
#[export] Instance toy_ipc : IpcBytes := fun ms => concat (map toy_bytes ms).
#[export] Instance no_zstd : ZstdCompressor := fun _ => None.
#[export] Instance no_gzip : GzipCompressor := fun _ => None.
End HttpToy.

Import ToyArrow ToyStreams ToyTypes ToyBuild Json.ToyJson HttpToy.

Section demo.
#[local] Existing Instances Toy.digests Toy.digest_laws Toy.aead Toy.aead_laws.

Abbreviation app := (HttpApp Z).

Definition on_calls (f : Z -> Z) (a : app) : app :=
  Build_HttpApp (f (app_user a)) (app_sessions a) (app_sticky a) (app_closed a).

Definition http_echo (request : Request) (ctx : CallContext Caller) (a : app)
    : list Message * outcome Result * app :=
  ([a_message (str "echoing")], Done (Result_value (toy_data_batch (toy_data (req_batch request)))),
   on_calls (Z.add 1) a).

Definition http_copy_state : @StreamState toy_arrow Caller app := {|
  is_producer_state := false;
  process ctx input a :=
    if bool_decide (toy_data (ab_batch input) = [x00]) then
      TRaise (EOther (str "zero")) (on_calls (Z.add 1) a)
    else TCollectorLog INFO (str "copying") (fun _ =>
           TEmitBatch (ab_batch input) None (fun _ => TReturn (on_calls (Z.add 1) a)));
  on_cancel ctx a := ([], Done tt, on_calls (Z.add 100) a);
|}.

Definition http_copy (request : Request) (ctx : CallContext Caller) (a : app)
    : list Message * outcome Stream * app :=
  ([a_message (str "opened")],
   Done {| st_output_schema := Some toy_schema; st_input_schema := Some toy_schema;
           st_state := Some http_copy_state; st_header := None |}, on_calls (Z.add 1) a).

Definition http_builder : res (ProtocolBuilder Caller app) :=
  b ← add_unary (str "echo") (Some toy_schema) (Some toy_schema) http_echo []
        {| pb_name := str "demo.v1"; pb_version := str "1.2.0"; pb_methods := [] |};
  add_exchange (str "copy") (Some toy_schema) (Some toy_schema) (Some toy_schema) http_copy [] None b.

Definition http_build : res (Server Caller app) :=
  b ← http_builder;
  (build (fun _ => true) (fun _ => None) false (str "srv")
     (access_log (str "/log") (set_protocols new_ServerBuilder b []))).1.

Definition http_demo_server : Server Caller app :=
  match http_build with
  | Ok srv => srv
  | Throw _ =>
      {| protocols_ := []; server_id_ := []; include_tracebacks_ := false;
         reflection_binding_ := no_binding; identity_binding_ := no_binding; identity_methods_ := ∅;
         access_log_enabled := false; identity_ := None; on_serve_start_ := None |}
  end.

(** Anonymous callers, no proofs, no storage and no limits. *)
Definition demo_config : HttpConfig app :=
  {| prefix := str "/vgi"; max_response_bytes := -1; max_externalized_response_bytes := -1;
     max_request_bytes := -1; external_storage_url := []; externalize_threshold := 4096;
     externalize_compression := []; compression := false; cors_origin := []; sticky := false;
     sticky_default_ttl := 300; sticky_echo_headers := []; sticky_header_auth := false;
     token_key := replicate 32 x05; call_state_cache := true; reject_all := NONE;
     honour_requested_auth_reason := false; proof_mode := ProxyProof.OFF; proof_origin_id := [];
     proof_secrets := []; proof_skew_seconds := 30; proof_replay_cache := true;
     peer_identity_providers := []; peer_authentication_policy := None; peer_service_name := None;
     peer_identity_resolution_timeout := 1000; hosting_max_request_bytes := -1;
     hosting_max_response_bytes := -1; preferred_response_bytes := -1; max_upload_bytes := 2 ^ 31;
     bearer_authenticate := None; identity_bearer := false; bearer_optional := true |}.

Definition demo_http : HttpServer app := {| cfg_ := demo_config; storage_ := None |}.

Definition demo_env (cursor : bytes) : HttpEnv :=
  {| he_request_id := str "r1"; he_stream_id := str "s1"; he_cursor := cursor;
     he_call_nonce := replicate 12 x01; he_proof_now := 0; he_proof_now' := 0; he_steady_ms := 0;
     he_wall := dbl_of_Z 1000; he_session_wall := 1000; he_session_steady := 1000; he_fetch_started := 0;
     he_fetch_finished := 0; he_time := 0; he_waited := []; he_platform := demo_platform |}.

Definition demo_post (path : bytes) : HttpRequestHead :=
  {| rh_method := str "POST"; rh_target := path; rh_path := path;
     rh_headers := fun name => if bool_decide (name = str "Content-Type") then [ARROW_CONTENT_TYPE] else [];
     rh_fields := [(str "Content-Type", ARROW_CONTENT_TYPE)]; rh_remote_addr := str "10.0.0.1";
     rh_remote_port := 4000; rh_local_addr := str "::1"; rh_local_port := 80 |}.

Definition demo_start : HttpState app :=
  {| h_world := {| w_wire := toy_wire [];
       w_app := Build_HttpApp 0 (new_registry (replicate 32 x05) (str "srv") 300) None [];
       w_bound := None; w_conn := new_ConnectionState; w_access := []; w_peer := [];
       w_sink := new_LogSink [] []; w_where := [] |};
     h_streams := ∅;
     h_proof := {| mode_ := ProxyProof.OFF; origin_id_ := []; secrets_ := ∅; skew_seconds_ := 30;
                   replay_cache_ := true; replay_capacity_ := 100000; nonces_ := ∅; nonce_order_ := [] |};
     h_reply := new_Reply; h_turn := None |}.

(** A request with [payload] to [path]. *)
Definition demo_send (path payload : bytes) (s : HttpState app) : HttpState app :=
  (serve_post (fun _ => 0) demo_http http_demo_server (demo_env (str "c1")) (demo_post path)
     {| cr_chunks := [payload]; cr_ok := true; cr_status := 200 |} (with_reply s new_Reply)).2.

(** The status, the payload, the calls of the application and the open streams. *)
Definition demo_seen (s : HttpState app) : Z * option bytes * Z * list bytes :=
  (reply_status (h_reply s), fst <$> reply_content (h_reply s), app_user (w_app (h_world s)),
   (map_to_list (h_streams s)).*1).

Definition demo_opened : HttpState app := demo_send (str "/vgi/demo.v1/copy/init") (str "Oa") demo_start.

Definition demo_turn (payload : bytes) (s : HttpState app) : HttpState app :=
  demo_send (str "/vgi/demo.v1/copy/exchange") payload s.

(** A unary call; a stream that is opened, performs a turn and fails in the next,
    after which it takes no other; a path that is not routed. *)
Example http_demo_runs :
  demo_seen (demo_send (str "/vgi/demo.v1/echo") (str "Ea") demo_start)
    = (200, Some (str "S" ++ [x00] ++ str "B" ++ [x00] ++ str "B" ++ [x00] ++ str "aE"), 1, [])
  /\ demo_seen demo_opened
    = (200, Some (str "S" ++ [x00] ++ str "B" ++ [x00] ++ str "B" ++ [x00] ++ str "E"), 1, [str "c1"])
  /\ demo_seen (demo_turn (str "Cx") demo_opened)
    = (200, Some (str "S" ++ [x00] ++ str "B" ++ [x00] ++ str "B" ++ [x00] ++ str "xE"), 2, [str "c1"])
  /\ demo_seen (demo_turn [x43; x00] (demo_turn (str "Cx") demo_opened))
    = (200, Some (str "S" ++ [x00] ++ str "B" ++ [x00] ++ str "E"), 3, [])
  /\ demo_seen (demo_turn (str "Cx") (demo_turn [x43; x00] demo_opened))
    = (400, Some (str "S" ++ [x00] ++ str "B" ++ [x00] ++ str "E"), 2, [])
  /\ demo_seen (demo_send (str "/demo.v2/echo") (str "Ea") demo_start)
    = (404, Some (str "S" ++ [x00] ++ str "B" ++ [x00] ++ str "E"), 0, []).
Proof. vm_compute. split_and!; reflexivity. Qed.
End demo.
