(* ===== verification/HttpLaws.v ===== *)
(** * Lemmas on the parts of an HTTP request

    The steps of [HttpTurn] as equations (no error response can fail to be built),
    and what each leaves alone: the registry of streams, the access log, the
    record of the turn, the application's state. *)

From S2P Require Import Prelude Memory Arrow Json Crypto Grants Errors Session PeerIdentity FloatText.
From S2P Require Import ProxyProof Wire TokenIdentity Calls RequestParams ClientExternal External.
From S2P Require Import ProtocolHash Reflection Server HttpRoute HttpAuth HttpReply CallState.
From S2P Require Import Dispatch Demo Serving Admission IdentityServer HttpTurn.

(** ** Relations *)

Section relations.
Context {arrow : Arrow} {App : Type}.

Abbreviation world := (World Caller App).
Abbreviation state := (HttpState App).

(** The access log, and the application's state. *)
Definition same_log (w w' : world) : Prop := w_access w' = w_access w.
Definition same_state (w w' : world) : Prop := w_app w' = w_app w.

(** The registry, the access log and the record of the turn are as they were. *)
Definition same_book (s s' : state) : Prop :=
  h_streams s' = h_streams s /\ w_access (h_world s') = w_access (h_world s) /\ h_turn s' = h_turn s.

(** Records of the same call: who called what, under which ids. *)
Definition same_call (rec rec' : AccessRecord Caller) : Prop :=
  ar_protocol _ rec' = ar_protocol _ rec /\ ar_method _ rec' = ar_method _ rec
  /\ ar_is_stream _ rec' = ar_is_stream _ rec /\ ar_caller _ rec' = ar_caller _ rec
  /\ ar_request_id _ rec' = ar_request_id _ rec /\ ar_stream_id _ rec' = ar_stream_id _ rec.

#[export] Instance same_call_preorder : PreOrder same_call.
Proof. split; [done|]. intros r1 r2 r3 (? & ? & ? & ? & ? & ?) (? & ? & ? & ? & ? & ?). split_and!; congruence. Qed.

(** The record may have changed, and is still one of the same call. *)
Definition turn_only (s s' : state) : Prop :=
  h_streams s' = h_streams s /\ w_access (h_world s') = w_access (h_world s)
  /\ (forall rec, h_turn s = Some rec -> exists rec', h_turn s' = Some rec' /\ same_call rec rec').

(** No application code has run. *)
Definition unserved (s s' : state) : Prop := w_app (h_world s') = w_app (h_world s).

#[export] Instance same_log_preorder : PreOrder same_log.
Proof. split; [done|]. unfold same_log. intros w1 w2 w3. congruence. Qed.
#[export] Instance same_state_preorder : PreOrder same_state.
Proof. split; [done|]. unfold same_state. intros w1 w2 w3. congruence. Qed.
#[export] Instance same_book_preorder : PreOrder same_book.
Proof. split; [done|]. intros s1 s2 s3 (? & ? & ?) (? & ? & ?). split_and!; congruence. Qed.
#[export] Instance turn_only_preorder : PreOrder turn_only.
Proof.
  split; [intros s; split_and!; [done..|]; intros rec ->; by exists rec|].
  intros s1 s2 s3 (? & ? & H12) (? & ? & H23). split_and!; [congruence..|]. intros rec Hr.
  destruct (H12 rec Hr) as (rec2 & Hr2 & E2). destruct (H23 rec2 Hr2) as (rec3 & Hr3 & E3).
  exists rec3. split; [done|]. by transitivity rec2.
Qed.
#[export] Instance unserved_preorder : PreOrder unserved.
Proof. split; [done|]. unfold unserved. intros s1 s2 s3. congruence. Qed.

Lemma book_turn s s' : same_book s s' -> turn_only s s'.
Proof. intros (? & ? & E). split_and!; [done..|]. intros rec Hr. exists rec. by rewrite E. Qed.

Lemma always_book_turn {A} (m : M state A) : always same_book m -> always turn_only m.
Proof. intros H s. by apply book_turn. Qed.

(** *** Worlds *)

Lemma on_wire_log {A} (m : M wire A) : always same_log (on_wire m : M world A).
Proof. intros w. unfold on_wire, zoom. by destruct (m (w_wire w)). Qed.
Lemma on_wire_state {A} (m : M wire A) : always same_state (on_wire m : M world A).
Proof. intros w. unfold on_wire, zoom. by destruct (m (w_wire w)). Qed.
Lemma zoom_app_log {A} (m : M App A) : always same_log (zoom w_app set_app m : M world A).
Proof. intros w. unfold zoom. by destruct (m (w_app w)). Qed.
Lemma set_where_log x : always same_log (set_where x : M world unit).
Proof. done. Qed.
Lemma set_where_state x : always same_state (set_where x : M world unit).
Proof. done. Qed.

(** *** States *)

Lemma on_world_book {A} (m : M world A) : always same_log m -> always same_book (on_world m).
Proof. intros H s. unfold on_world, zoom. specialize (H (h_world s)). by destruct (m (h_world s)). Qed.
Lemma on_world_unserved {A} (m : M world A) : always same_state m -> always unserved (on_world m).
Proof. intros H s. unfold on_world, zoom. specialize (H (h_world s)). by destruct (m (h_world s)). Qed.
Lemma on_http_app_book {A} (m : M App A) : always same_book (on_http_app m : M state A).
Proof. apply on_world_book, zoom_app_log. Qed.
Lemma on_response_book {A} (m : M Reply A) : always same_book (on_response m : M state A).
Proof. intros s. unfold on_response, zoom. by destruct (m (h_reply s)). Qed.
Lemma on_response_unserved {A} (m : M Reply A) : always unserved (on_response m : M state A).
Proof. intros s. unfold on_response, zoom. by destruct (m (h_reply s)). Qed.
Lemma reply_book f : always same_book (reply f : M state unit).
Proof. apply on_response_book. Qed.
Lemma reply_unserved f : always unserved (reply f : M state unit).
Proof. apply on_response_unserved. Qed.
Lemma turn_change_turn f : (forall rec, same_call rec (f rec)) -> always turn_only (turn_change f : M state unit).
Proof. intros Hf s. split_and!; [done..|]. cbn. intros rec ->. by eexists. Qed.
Lemma turn_failed_turn type message code : always turn_only (turn_failed type message code : M state unit).
Proof. by apply turn_change_turn. Qed.
Lemma turn_cancelled_turn : always turn_only (turn_cancelled : M state unit).
Proof. by apply turn_change_turn. Qed.
Lemma turn_response_state_turn n : always turn_only (turn_response_state n : M state unit).
Proof. by apply turn_change_turn. Qed.
Lemma turn_change_unserved f : always unserved (turn_change f : M state unit).
Proof. done. Qed.
Lemma erase_stream_unserved c : always unserved (erase_stream c : M state unit).
Proof. done. Qed.

Lemma build_body_always `{IpcBytes} (R : state -> state -> Prop) {A} (m : M state A) :
  always R m ->
  (forall s s' w, R (with_world s (set_wire (h_world s) buffer_wire)) s' ->
     R s (with_world s' (set_wire (h_world s') w))) ->
  always R (build_body m).
Proof.
  intros Hm Hr s. unfold build_body. specialize (Hm (with_world s (set_wire (h_world s) buffer_wire))).
  destruct (m _) as [[a|e] s']; cbn [snd] in *; by apply Hr.
Qed.

Lemma to_buffer_always `{IpcBytes} {S} (R : S -> S -> Prop) {HR : PreOrder R} m : always R (to_buffer m : M S bytes).
Proof. intros s. unfold to_buffer. destruct (m buffer_wire) as [[]]; reflexivity. Qed.
End relations.

#[export] Hint Resolve on_wire_log on_wire_state zoom_app_log set_where_log set_where_state on_world_book
  on_world_unserved on_http_app_book on_response_book on_response_unserved reply_book reply_unserved
  turn_failed_turn turn_cancelled_turn turn_response_state_turn turn_change_unserved erase_stream_unserved to_buffer_always always_book_turn : frame.

(** ** What the parts leave alone *)

Section frames.
Context {arrow : Arrow} {afields : ArrowFields} {columns : ArrowColumns} {types : ArrowTypes}
  {streams : ArrowStreams} {build_ : ArrowBuild} {ib : IdentityArrow} {kvm : KeyValueMetadata}
  {buffers : BufferStreams} {ipc : IpcBytes} {J : JsonText} {D : Digests} {aead : Aead}
  {compressor : ZstdCompressor} {gzip : GzipCompressor} {User : Type}.

Abbreviation app := (HttpApp User).
Abbreviation world := (World Caller app).
Abbreviation state := (HttpState app).

Context (array_length : Array -> Z) (http : HttpServer app) (srv : Server Caller app) (env : HttpEnv)
  (req : HttpRequestHead).

Lemma flush_logs_log s : always same_log (flush_logs s : M world _).
Proof. intros w. unfold flush_logs, zoom. by destruct (LogSink_flush s (w_sink w)). Qed.
Lemma write_each_log abs : always same_log (write_each abs : M world _).
Proof. induction abs; cbn [write_each]; frame. Qed.
Lemma write_each_state abs : always same_state (write_each abs : M world _).
Proof. induction abs; cbn [write_each]; frame. Qed.
Lemma write_header_log header : always same_log (write_header header : M world _).
Proof. unfold write_header. frame. apply flush_logs_log. Qed.
Lemma process_turn_log st ctx input out : always same_log (process_turn array_length st ctx input out : M world _).
Proof. intros w. unfold process_turn. by destruct (run_turn _ _ _ _) as [[[[] ?] ?] ?]. Qed.
Lemma run_on_cancel_log st ctx : always same_log (run_on_cancel st ctx : M world _).
Proof. intros w. unfold run_on_cancel. by destruct (on_cancel _ _ _) as [[? ?] ?]. Qed.
Lemma run_handler_log {R} (h : Request -> CallContext Caller -> app -> list Message * outcome R * app) request ctx :
  always same_log (run_handler h request ctx : M world R).
Proof. intros w. unfold run_handler. by destruct (h request ctx (w_app w)) as [[? ?] ?]. Qed.
Lemma coerce_input_same {S} (R : S -> S -> Prop) {HR : PreOrder R} b target :
  always R (coerce_input_batch b target : M S _).
Proof. intros s. destruct (coerce_input_batch_same b target s) as [r ->]. reflexivity. Qed.

#[local] Hint Resolve flush_logs_log write_each_log write_header_log process_turn_log run_on_cancel_log
  run_handler_log coerce_input_same write_each_state : frame.

Lemma turn_raised_turn e : always turn_only (turn_raised e : M state unit).
Proof. apply turn_failed_turn. Qed.
Lemma set_arrow_body_book body : always same_book (set_arrow_body http req body : M state _).
Proof. unfold set_arrow_body. frame. Qed.
Lemma error_text_book s type message kind : always same_book (error_text srv env req s type message kind : M state _).
Proof. unfold error_text, error_body. frame. Qed.
Lemma error_text_unserved s type message kind : always unserved (error_text srv env req s type message kind : M state _).
Proof. unfold error_text, error_body. frame. Qed.
Lemma exception_text_book owner method s e : always same_book (exception_text srv env req owner method s e : M state _).
Proof. unfold exception_text. frame. Qed.
Lemma apply_sticky_book : always same_book (apply_sticky http : M state _).
Proof. unfold apply_sticky. frame. Qed.
Lemma maybe_externalize_book body s : always same_book (maybe_externalize http body s : M state _).
Proof. unfold maybe_externalize. frame. Qed.
Lemma externalize_cycle_book batches s : always same_book (externalize_cycle http batches s : M state _).
Proof. unfold externalize_cycle. frame. Qed.
Lemma write_cycle_book batches : always same_book (write_cycle batches : M state _).
Proof. unfold write_cycle. frame. Qed.

#[local] Hint Resolve set_arrow_body_book error_text_book exception_text_book apply_sticky_book
  maybe_externalize_book externalize_cycle_book write_cycle_book : frame.

Lemma run_producer_turns_book st s ctx owner method input :
  always same_book (run_producer_turns array_length http srv env req st s ctx owner method input : M state _).
Proof. unfold run_producer_turns. frame. Qed.

Lemma set_arrow_body_unserved body : always unserved (set_arrow_body http req body : M state _).
Proof. unfold set_arrow_body. frame. Qed.
Lemma fail_unserved status type message kind : always unserved (HttpTurn.fail http srv env req status type message kind : M state _).
Proof. unfold fail. frame; apply error_text_unserved. Qed.
Lemma respond_error_on_unserved s type message kind :
  always unserved (respond_error_on http srv env req s type message kind : M state _).
Proof. unfold respond_error_on. frame; apply error_text_unserved. Qed.
End frames.

#[export] Hint Resolve flush_logs_log write_each_log write_header_log process_turn_log run_on_cancel_log
  run_handler_log coerce_input_same write_each_state set_arrow_body_book error_text_book error_text_unserved
  exception_text_book apply_sticky_book maybe_externalize_book externalize_cycle_book write_cycle_book
  run_producer_turns_book turn_raised_turn set_arrow_body_unserved fail_unserved respond_error_on_unserved : frame.

(** ** The steps as equations *)

Section steps.
Context {arrow : Arrow} {afields : ArrowFields} {columns : ArrowColumns} {types : ArrowTypes}
  {streams : ArrowStreams} {build_ : ArrowBuild} {ib : IdentityArrow} {kvm : KeyValueMetadata}
  {buffers : BufferStreams} {ipc : IpcBytes} {J : JsonText} {D : Digests} {aead : Aead}
  {compressor : ZstdCompressor} {gzip : GzipCompressor} {User : Type}
  {alaws : ArrowLaws} {slaws : ArrowStreamsLaws} {total : ArrowTotal} {kvlaws : KeyValueMetadataLaws}
  {jtotal : JsonTextTotal}.

Abbreviation app := (HttpApp User).
Abbreviation world := (World Caller app).
Abbreviation state := (HttpState app).

Context (http : HttpServer app) (srv : Server Caller app) (env : HttpEnv) (req : HttpRequestHead).

(** An Arrow body, under the status [n]. *)
Definition arrow_reply (n : Z) (res : Reply) : Prop :=
  reply_status res = n /\ exists body, reply_content res = Some (body, ARROW_CONTENT_TYPE).

Lemma to_buffer_stream {S} s abs (st : S) : Forall (fits s) abs ->
  to_buffer (write_ipc_stream s abs) st = (Done (ipc_bytes (stream_messages s abs)), st).
Proof.
  intros Hf. unfold to_buffer. by rewrite (write_ipc_stream_spec s abs) by (done || apply writer_total).
Qed.

Lemma set_arrow_body_done body (s : state) :
  set_arrow_body http req body s = (Done tt, with_reply s (set_arrow_content (cfg_ http) req body (h_reply s))).
Proof. done. Qed.

Lemma set_arrow_content_status body res :
  arrow_reply (reply_status res) (set_arrow_content (cfg_ http) req body res).
Proof. unfold set_arrow_content. cbv zeta. destruct (if bool_decide _ then _ else _); split; try done; by eexists. Qed.

Lemma error_text_done s type message kind (st : state) : exists body,
  error_text srv env req s type message kind st = (Done body, st).
Proof.
  unfold error_text, error_body. rewrite (bind_done _ _ st st st) by done. cbv beta.
  destruct (Result_error_total (current_scope srv (h_world st)) s type message (server_id_ srv)
    (request_id env req) kind no_extras) as (b & md & -> & _ & _ & Hs). cbn [lift].
  rewrite (bind_done _ _ st (Result_from_annotated_batch (with_metadata b md)) st) by done.
  rewrite to_buffer_stream by (repeat constructor; exact Hs). by eexists.
Qed.

Lemma exception_text_done owner method s e (st : state) : exists body,
  exception_text srv env req owner method s e st = (Done body, st).
Proof.
  unfold exception_text. rewrite (bind_done _ _ st st st) by done. cbv beta.
  destruct (Result_exception_total (current_scope srv (h_world st)) s e (server_id_ srv)
    (request_id env req) (traceback_for srv owner method (exception_type_of e) (ex_what e)))
    as (b & md & -> & _ & _ & Hs). cbn [lift].
  rewrite (bind_done _ _ st (Result_from_annotated_batch (with_metadata b md)) st) by done.
  rewrite to_buffer_stream by (repeat constructor; exact Hs). by eexists.
Qed.

Lemma fail_done status type message kind (s : state) : exists res,
  HttpTurn.fail http srv env req status type message kind s = (Done tt, with_reply s res)
  /\ arrow_reply status res.
Proof.
  unfold HttpTurn.fail. set (s1 := with_reply s (set_header RPC_ERROR_HEADER (str "true") (set_status status (h_reply s)))).
  rewrite (bind_done _ _ s tt (with_reply s (set_status status (h_reply s)))) by done.
  rewrite (bind_done _ _ _ tt s1) by done.
  destruct (error_text_done empty_schema type message kind s1) as [body E]. rewrite (bind_done _ _ _ _ _ E).
  rewrite set_arrow_body_done. eexists. split; [reflexivity|]. apply set_arrow_content_status.
Qed.

Lemma respond_error_on_done sch type message kind (s : state) : exists res,
  respond_error_on http srv env req sch type message kind s = (Done tt, with_reply s res)
  /\ arrow_reply 200 res.
Proof.
  unfold respond_error_on. set (s1 := with_reply s (set_header RPC_ERROR_HEADER (str "true") (set_status 200 (h_reply s)))).
  rewrite (bind_done _ _ s tt (with_reply s (set_status 200 (h_reply s)))) by done.
  rewrite (bind_done _ _ _ tt s1) by done.
  destruct (error_text_done sch type message kind s1) as [body E]. rewrite (bind_done _ _ _ _ _ E).
  rewrite set_arrow_body_done. eexists. split; [reflexivity|]. apply set_arrow_content_status.
Qed.

Lemma echo_headers_status fields res : reply_status (echo_headers fields res) = reply_status res.
Proof. revert res; induction fields as [|[n v] fields IH]; intros res; [done|]. cbn [echo_headers]. by rewrite IH. Qed.

Lemma apply_sticky_done (s : state) : exists res,
  apply_sticky http s = (Done tt, with_reply s res) /\ reply_status res = reply_status (h_reply s).
Proof.
  unfold apply_sticky. rewrite (bind_done _ _ s s s) by done. cbv beta.
  destruct (app_sticky _) as [slot|]; [|exists (h_reply s); by destruct s].
  assert (forall (s1 : state), exists res, reply (set_header_if (sl_closed slot) SESSION_CLOSE_HEADER (str "true")) s1
    = (Done tt, with_reply s1 res) /\ reply_status res = reply_status (h_reply s1)) as Hlast.
  { intros s1. eexists. split; [reflexivity|]. by unfold set_header_if; destruct (sl_closed slot). }
  case_bool_decide.
  - set (r1 := set_header SESSION_HEADER (sl_minted_token slot) (h_reply s)).
    set (r2 := echo_headers (sticky_echo_headers (cfg_ http)) r1).
    destruct (Hlast (with_reply s r2)) as (res & E & Hs). exists res. split; [exact E|].
    rewrite Hs. cbn [h_reply with_reply]. subst r2. by rewrite echo_headers_status.
  - apply Hlast.
Qed.
End steps.
