(* ===== verification/HttpCalls.v ===== *)
(** * Unary calls over HTTP

    The response to a unary call carries the same stream as the pipe's answer, under
    the response's limit, and the call is recorded once. *)

From S2P Require Import Prelude Memory Arrow Json Crypto Grants Errors Session PeerIdentity FloatText.
From S2P Require Import ProxyProof Wire TokenIdentity Calls RequestParams ClientExternal External.
From S2P Require Import ProtocolHash Reflection Server HttpRoute HttpAuth HttpReply CallState.
From S2P Require Import Dispatch Demo Serving IdentityServer HttpTurn HttpRpc HttpDemo HttpLaws.

Section calls.
Context {arrow : Arrow} {afields : ArrowFields} {columns : ArrowColumns} {types : ArrowTypes}
  {streams : ArrowStreams} {build_ : ArrowBuild} {ib : IdentityArrow} {kvm : KeyValueMetadata}
  {buffers : BufferStreams} {ipc : IpcBytes} {J : JsonText} {D : Digests} {aead : Aead}
  {compressor : ZstdCompressor} {gzip : GzipCompressor} {User : Type}
  {alaws : ArrowLaws} {slaws : ArrowStreamsLaws} {total : ArrowTotal} {kvlaws : KeyValueMetadataLaws}
  {jtotal : JsonTextTotal}.

Abbreviation app := (HttpApp User).
Abbreviation world := (World Caller app).
Abbreviation state := (HttpState app).

Context (http : HttpServer app) (srv : Server Caller app) (env : HttpEnv) (req : HttpRequestHead).

Abbreviation pf := (http_platform env req).

(** The body a unary call writes, without the wire it is written to. *)
Lemma unary_body_built mi owner request ctx empty (s : state) logs r a :
  sink_wf (w_sink (h_world s)) -> result_typed mi r ->
  mi_handler mi request ctx (w_app (h_world s)) = (logs, r, a) ->
  make_empty_batch (mi_result_schema mi) = Ok empty ->
  exists s' last,
    build_body (on_world (set_call_shm false;; serve_unary_impl pf srv mi owner request ctx)) s
      = (Done (bool_decide (is_Some (raised r)), bool_decide (is_Some (published r)), ipc_bytes (stream_messages (mi_result_schema mi)
           (map (with_metadata empty) (buffered_ (emit_all (w_sink (h_world s)) logs)) ++ [last]))), s')
    /\ unary_answer pf srv mi owner (set_call_shm false (h_world s)).2 r last
    /\ w_app (h_world s') = a /\ h_streams s' = h_streams s /\ h_reply s' = h_reply s
    /\ w_access (h_world s') = w_access (log_call pf srv owner (mi_name mi) false (ctx_caller Caller ctx)
                                   (raised r) false request (h_world s)).2
    /\ Forall (fits (mi_result_schema mi))
         (map (with_metadata empty) (buffered_ (emit_all (w_sink (h_world s)) logs)) ++ [last]).
Proof.
  intros Hs Ht Eh Ee. set (w0 := set_wire (h_world s) buffer_wire). set (w1 := (set_call_shm false w0).2).
  destruct (serve_unary_impl_spec pf srv mi owner request ctx empty w1 logs r a)
    as (w2 & last & E & [wr Hans] & Hlast & Ha & Hx & _ & Hfit); [done..|].
  exists (with_world s (set_wire w2 (w_wire (h_world s)))), last. split.
  { unfold build_body. fold w0. unfold on_world at 1, zoom at 1. cbn [h_world with_world].
    rewrite (bind_done (set_call_shm false) _ w0 tt w1) by done. rewrite E. cbv beta iota zeta. cbn [h_world with_world].
    rewrite Hans, stream_list_one. reflexivity. }
  split; [exact Hlast|]. split; [exact Ha|]. split; [done|]. split; [done|].
  cbn [h_world with_world set_wire w_access]. split; [rewrite Hx; by apply log_call_access|].
  apply Forall_app. split; [|by repeat constructor]. apply (log_batches_ok _ empty); [done|]. by apply emit_all_wf.
Qed.

(** The body leaves as it is: it is not uploaded. *)
Definition sent_inline (body : bytes) : Prop :=
  storage_ http = None \/ externalize_threshold (cfg_ http) < 0 \/ blen body < externalize_threshold (cfg_ http).

Lemma maybe_externalize_inline body sch (s : state) :
  sent_inline body -> maybe_externalize http body sch s = (Done (body, 0), s).
Proof.
  unfold sent_inline, maybe_externalize. intros H. destruct (storage_ http) as [storage|]; [|done].
  destruct H as [[=]|[H|H]]; apply Z.ltb_lt in H; rewrite H; [done|]. by rewrite orb_true_r.
Qed.

Lemma nothing_exceeds : external_exceeded http 0 = false.
Proof. unfold external_exceeded. destruct (Z.leb_spec 0 (max_externalized_response_bytes (cfg_ http))); [|done]. by apply Z.ltb_ge. Qed.
Lemma unary_stored (errored published : bool) body sch (s : state) :
  sent_inline body \/ errored = true \/ published = true ->
  (if negb errored && negb published then
     try_catch (b ← maybe_externalize http body sch; mret (inl b)) (fun e => mret (inr e))
   else mret (inl (body, 0)) : M state (bytes * Z + exception)) s = (Done (inl (body, 0)), s).
Proof.
  intros H. destruct errored, published; try done. destruct H as [H|[[=]|[=]]]. cbn [negb andb]. unfold try_catch.
  by rewrite (bind_done _ _ _ _ _ (maybe_externalize_inline _ _ _ H)).
Qed.

Lemma unary_sends mi q request ctx (s s1 : state) errored published body res :
  build_body (on_world (set_call_shm false;; serve_unary_impl pf srv mi (sp_binding (rq_protocol q)) request ctx)) s
    = (Done (errored, published, body), s1) ->
  apply_sticky http s1 = (Done tt, with_reply s1 res) ->
  sent_inline body \/ errored = true \/ published = true ->
  serve_unary_http http srv env req mi q request ctx s =
  match exceeded (rq_response_limit q) body with
  | Some limit => respond_error_on http srv env req (mi_result_schema mi) (str "ResponseTooLargeError")
                    (too_large (rt_method (rq_route q)) (blen body) limit) [] (with_reply s1 res)
  | None => (Done tt, with_reply s1 (set_arrow_content (cfg_ http) req body
                        (set_header_if errored RPC_ERROR_HEADER (str "true") (set_status 200 res))))
  end.
Proof.
  intros E Es H. unfold serve_unary_http. rewrite (bind_done _ _ _ _ _ E). cbv beta iota.
  rewrite (bind_done _ _ _ _ _ Es). rewrite (bind_done _ _ _ _ _ (unary_stored _ _ _ _ _ H)). cbv beta iota.
  rewrite nothing_exceeds. by destruct (exceeded _ body).
Qed.
End calls.

(** ** Properties *)

Section properties.
Context {arrow : Arrow} {afields : ArrowFields} {columns : ArrowColumns} {types : ArrowTypes}
  {streams : ArrowStreams} {build_ : ArrowBuild} {ib : IdentityArrow} {kvm : KeyValueMetadata}
  {buffers : BufferStreams} {ipc : IpcBytes} {J : JsonText} {D : Digests} {aead : Aead}
  {compressor : ZstdCompressor} {gzip : GzipCompressor} {User : Type}
  {alaws : ArrowLaws} {slaws : ArrowStreamsLaws} {total : ArrowTotal} {kvlaws : KeyValueMetadataLaws}
  {jtotal : JsonTextTotal}.

Abbreviation app := (HttpApp User).
Abbreviation state := (HttpState app).

(** C14: the response to a unary call over HTTP whose body is not moved to a storage:
    the call failed, its result was published, no storage is configured, or the body is
    under the threshold (a larger one is uploaded and replaced by a pointer, or by the
    error of the upload; that case is not stated here).  The body is the stream the pipe
    answers with (what the sink held and what the handler logged, in order, then its
    result, the pointer of a published one, or the error of what it threw), under status
    200 and marked as an error exactly when the handler threw; a body above the response's
    limit is replaced by an error.  The handler runs once, no stream is touched, and the
    call is recorded once with the handler's outcome.  The handler's result is of the
    method's schema, and the sink holds only messages (every operation on it keeps that). *)
Theorem unary_over_http_answered (http : HttpServer app) (srv : Server Caller app) env req mi q request ctx
    (s : state) logs r a empty :
  sink_wf (w_sink (h_world s)) -> result_typed mi r ->
  mi_handler mi request ctx (w_app (h_world s)) = (logs, r, a) ->
  make_empty_batch (mi_result_schema mi) = Ok empty ->
  let owner := sp_binding (rq_protocol q) in
  exists s' last, unary_answer (http_platform env req) srv mi owner (set_call_shm false (h_world s)).2 r last
  /\ let body := ipc_bytes (stream_messages (mi_result_schema mi)
          (map (with_metadata empty) (buffered_ (emit_all (w_sink (h_world s)) logs)) ++ [last])) in
    (sent_inline http body \/ is_Some (raised r) \/ is_Some (published r) ->
     serve_unary_http http srv env req mi q request ctx s = (Done tt, s')
     /\ w_app (h_world s') = a /\ h_streams s' = h_streams s
     /\ w_access (h_world s') = w_access (log_call (http_platform env req) srv owner (mi_name mi) false
                                    (ctx_caller Caller ctx) (raised r) false request (h_world s)).2
     /\ match exceeded (rq_response_limit q) body with
        | None => exists res, reply_status res = 200 /\ h_reply s'
            = set_arrow_content (cfg_ http) req body
                (set_header_if (bool_decide (is_Some (raised r))) RPC_ERROR_HEADER (str "true") res)
        | Some limit => exists s1, respond_error_on http srv env req (mi_result_schema mi)
            (str "ResponseTooLargeError") (too_large (rt_method (rq_route q)) (blen body) limit) [] s1 = (Done tt, s')
        end).
Proof.
  intros Hs Ht Eh Ee owner.
  destruct (unary_body_built srv env req mi owner request ctx empty s logs r a Hs Ht Eh Ee)
    as (s1 & last & E & Hlast & Ha & Hst & Hre & Hx & _).
  set (body := ipc_bytes _) in E.
  destruct (apply_sticky_done http s1) as (res & Es & _).
  pose proof (unary_sends http srv env req mi q request ctx s s1 _ _ body res E Es) as Hsend.
  rewrite !bool_decide_eq_true in Hsend.
  destruct (exceeded (rq_response_limit q) body) as [limit|] eqn:Ex.
  - destruct (respond_error_on_done http srv env req (mi_result_schema mi) (str "ResponseTooLargeError")
      (too_large (rt_method (rq_route q)) (blen body) limit) [] (with_reply s1 res)) as (res' & Er & _).
    exists (with_reply (with_reply s1 res) res'), last. split; [exact Hlast|]. cbv zeta. fold body. rewrite Ex. intros Hin.
    rewrite Er in Hsend. split; [exact (Hsend Hin)|]. split_and!; try done. by exists (with_reply s1 res).
  - eexists _, last. split; [exact Hlast|]. cbv zeta. fold body. rewrite Ex. intros Hin.
    split; [exact (Hsend Hin)|]. split_and!; try done. by exists (set_status 200 res).
Qed.
End properties.

(** ** Witnesses *)

Import ToyArrow ToyStreams ToyTypes ToyBuild Json.ToyJson HttpToy.

Section witnesses.
#[local] Existing Instances Toy.digests Toy.digest_laws Toy.aead Toy.aead_laws.

Definition echo_head : HttpRequestHead := demo_post (str "/vgi/demo.v1/echo").

Definition echo_routed : Routed :=
  let route := http_route demo_http http_demo_server echo_head in
  {| rq_caller := (anonymous, no_evidence); rq_aad := session_aad [] [] false; rq_route := route;
     rq_protocol := routed_protocol http_demo_server route; rq_response_limit := Some 100; rq_preferred := None |}.

Definition echo_request : Request := {| req_batch := toy_data_batch [x07]; req_metadata := None |}.

(** [echo] logs and returns its batch: both are in the body. *)
Lemma unary_over_http_answered_witness : exists mi s',
  find_http_method echo_routed = Some mi
  /\ serve_unary_http demo_http http_demo_server (demo_env []) echo_head mi echo_routed echo_request
       (http_context http_demo_server (demo_env []) echo_head (anonymous, no_evidence) (Some 100) None) demo_start
     = (Done tt, s')
  /\ app_user (w_app (h_world s')) = 1
  /\ exists res, reply_status res = 200 /\ h_reply s' = set_arrow_content demo_config echo_head
       (str "S" ++ [x00] ++ str "B" ++ [x00] ++ str "B" ++ [x00; x07] ++ str "E") res.
Proof.
  set (ctx := http_context _ _ _ _ _ _).
  destruct (find_http_method echo_routed) as [mi|] eqn:Em; [|vm_compute in Em; discriminate Em].
  assert (exists a empty, mi_handler mi echo_request ctx (w_app (h_world demo_start))
      = ([a_message (str "echoing")], Done (Result_value (toy_data_batch [x07])), a)
    /\ make_empty_batch (mi_result_schema mi) = Ok empty /\ app_user a = 1
    /\ mi_result_schema mi = toy_schema /\ toy_data empty = [] /\ toy_dictionary empty = false) as (a & empty & Eh & Ee & Ha & Esch & Ed & Ed').
  { vm_compute in Em. injection Em as <-. do 2 eexists. split_and!; vm_compute; reflexivity. }
  assert (result_typed mi (Done (Result_value (toy_data_batch [x07])))) as Ht by (intros _; rewrite Esch; reflexivity).
  destruct (unary_over_http_answered demo_http http_demo_server (demo_env []) echo_head mi echo_routed echo_request ctx
    demo_start _ _ a empty (new_sink_wf _ _) Ht Eh Ee) as (s' & last & Hlast & H).
  assert (last = batch_ (Result_value (toy_data_batch [x07]))) as -> by (apply Hlast; right; reflexivity).
  destruct empty as [dict data]. cbn in Ed, Ed'. subst dict data. rewrite Esch in H.
  destruct H as (E & Happ & _ & _ & Hre); [left; left; reflexivity|].
  exists mi, s'. split; [done|]. split; [exact E|]. split; [by rewrite Happ|].
  vm_compute in Hre. destruct Hre as (res & Hst & Hre). exists res. split; [exact Hst|]. exact Hre.
Defined.
End witnesses.
