(* ===== verification/HttpStreams.v ===== *)
(** * Streams over HTTP: what continues one, and what ends it

    A stream lives in the registry between the requests of one call.  The theorems
    say who may continue it, that the access log and the registry agree on whether
    it can be continued, and that a request performs one turn of it. *)

From S2P Require Import Prelude Memory Arrow Json Crypto Grants Errors Session PeerIdentity FloatText.
From S2P Require Import ProxyProof Wire TokenIdentity Calls RequestParams ClientExternal External.
From S2P Require Import ProtocolHash Reflection Server HttpRoute HttpAuth HttpReply CallState.
From S2P Require Import Dispatch Demo Serving Streams Admission IdentityServer HttpTurn HttpRpc HttpDemo HttpLaws.

(** ** Functions that end in one of two relations *)

(** [Q] between the states when [m] returns, [R] when it throws. *)
Definition ends {S A} (R Q : S -> S -> Prop) (m : M S A) : Prop := forall s,
  match m s with (Done _, s') => Q s s' | (Raised _, s') => R s s' end.

Section ends.
Context {S : Type} (R Q : S -> S -> Prop) (HR : forall s1 s2 s3, R s1 s2 -> Q s2 s3 -> Q s1 s3).

Lemma ends_bind {T : PreOrder R} {A B} (m : M S A) (f : A -> M S B) :
  always R m -> (forall a, ends R Q (f a)) -> ends R Q (m ≫= f).
Proof using HR.
  intros Hm Hf s. unfold mbind, M_bind. specialize (Hm s).
  destruct (m s) as [[a|e] s1]; cbn [snd] in *; [|done]. specialize (Hf a s1).
  destruct (f a s1) as [[b|e] s2]; [by eapply HR|by transitivity s1].
Qed.

Lemma ends_raise {A} e {T : PreOrder R} : ends R Q (raise (A := A) e).
Proof. intros s. cbn. reflexivity. Qed.

(** A handler that always returns. *)
Lemma ends_try {A} (R' : S -> S -> Prop) (m : M S A) h :
  ends R Q m -> (forall e s, exists a s', h e s = (Done a, s') /\ Q s s') -> ends R' Q (try_catch m h).
Proof using HR.
  intros Hm Hh s. unfold try_catch. specialize (Hm s). destruct (m s) as [[a|e] s1]; [done|].
  destruct (Hh e s1) as (a & s2 & -> & Hq). by eapply HR.
Qed.
End ends.

(** One step of a computation that is known to return. *)
Ltac step := erewrite bind_done by reflexivity.
Ltac step_with H := erewrite bind_done by (apply H).

Section streams.
Context {arrow : Arrow} {afields : ArrowFields} {columns : ArrowColumns} {types : ArrowTypes}
  {streams : ArrowStreams} {build_ : ArrowBuild} {ib : IdentityArrow} {kvm : KeyValueMetadata}
  {buffers : BufferStreams} {ipc : IpcBytes} {J : JsonText} {D : Digests} {aead : Aead}
  {compressor : ZstdCompressor} {gzip : GzipCompressor} {User : Type}
  {alaws : ArrowLaws} {slaws : ArrowStreamsLaws} {total : ArrowTotal} {kvlaws : KeyValueMetadataLaws}
  {jtotal : JsonTextTotal}.

Abbreviation app := (HttpApp User).
Abbreviation world := (World Caller app).
Abbreviation state := (HttpState app).

Context (array_length : Array -> Z) (http : HttpServer app) (srv : Server Caller app) (env : HttpEnv)
  (req : HttpRequestHead).

(** ** The end of a turn *)

(** The record says that a token went out exactly when the stream is registered. *)
Definition token_settled (cursor : bytes) (s : state) (rec : AccessRecord Caller) : Prop :=
  ar_response_state_bytes _ rec = (if bool_decide (is_Some (h_streams s !! cursor)) then blen cursor else -1).

(** The other streams are as they were. *)
Definition others_kept (cursor : bytes) (s s' : state) : Prop :=
  forall c, c <> cursor -> h_streams s' !! c = h_streams s !! c.

(** From a record that says that no token went out yet. *)
Definition turn_ended (cursor : bytes) (s s' : state) : Prop :=
  forall rec, h_turn s = Some rec -> ar_response_state_bytes _ rec = -1 -> is_Some (h_streams s !! cursor) ->
  w_access (h_world s') = w_access (h_world s) /\ others_kept cursor s s'
  /\ exists rec', h_turn s' = Some rec' /\ same_call rec rec' /\ token_settled cursor s' rec'.

Lemma turn_ended_after cursor s1 s2 s3 : same_book s1 s2 -> turn_ended cursor s2 s3 -> turn_ended cursor s1 s3.
Proof.
  intros (Hs & Hl & Ht) Hq rec Hr Hn Hs1. unfold turn_ended in Hq. rewrite Ht, Hs in Hq.
  destruct (Hq rec Hr Hn Hs1) as (Hl' & Ho & Hrec). split; [congruence|]. split; [|done].
  intros c Hc. by rewrite (Ho c Hc), Hs.
Qed.

(** The stream is gone and the record says so. *)
Definition turn_closed (cursor : bytes) (s s' : state) : Prop :=
  w_access (h_world s') = w_access (h_world s) /\ h_streams s' = delete cursor (h_streams s)
  /\ forall rec, h_turn s = Some rec -> exists rec', h_turn s' = Some rec' /\ same_call rec rec'
       /\ ar_response_state_bytes _ rec' = -1.

Lemma closed_ended cursor s s1 s' :
  turn_only s s1 -> turn_closed cursor s1 s' -> turn_ended cursor s s'.
Proof.
  intros (Hs1 & Hl1 & Ht1) (Hl & Hs & Hrec) rec0 Ht _ _. split; [congruence|]. split.
  - intros c Hc. by rewrite Hs, lookup_delete_ne, Hs1.
  - destruct (Ht1 _ Ht) as (rec1 & Hr1 & E1). destruct (Hrec _ Hr1) as (rec & Hr & E & Hn).
    exists rec. split; [done|]. split; [by transitivity rec1|]. unfold token_settled.
    rewrite Hs, lookup_delete_eq. by rewrite bool_decide_eq_false_2.
Qed.

Lemma turn_refused_done cursor sch type message (s : state) : exists s',
  turn_refused http srv env req cursor sch type message s = (Done tt, s')
  /\ turn_closed cursor s s'.
Proof.
  unfold turn_refused. step. step. step.
  edestruct (apply_sticky_done http) as (res & E & _). rewrite (bind_done _ _ _ _ _ E). clear E. step.
  edestruct (error_text_done (User := User) srv env req) as [body E]. rewrite (bind_done _ _ _ _ _ E).
  rewrite set_arrow_body_done. eexists. split; [reflexivity|]. split; [done|]. split; [done|].
  intros rec Hr. eexists. split; [cbn; by rewrite Hr|]. done.
Qed.

Lemma raised_response_done q method sch e (s : state) : exists s',
  raised_response http srv env req q method sch e s = (Done tt, s')
  /\ h_streams s' = h_streams s /\ w_access (h_world s') = w_access (h_world s)
  /\ (forall rec, h_turn s = Some rec -> exists rec', h_turn s' = Some rec'
        /\ same_call rec rec' /\ ar_response_state_bytes _ rec' = -1).
Proof.
  unfold raised_response. step. step. step.
  edestruct (apply_sticky_done http) as (res & E & _). rewrite (bind_done _ _ _ _ _ E). clear E.
  edestruct (exception_text_done (User := User) srv env req) as [body E]. rewrite (bind_done _ _ _ _ _ E).
  rewrite set_arrow_body_done. eexists. split; [reflexivity|]. split; [done|]. split; [done|].
  intros rec Hr. eexists. split; [cbn; by rewrite Hr|]. done.
Qed.

Lemma stream_error_done q sess cursor e (s0 s : state) : turn_only s0 s -> exists s',
  stream_error http srv env req q sess cursor e s = (Done tt, s') /\ turn_ended cursor s0 s'.
Proof.
  intros H. unfold stream_error. step. edestruct raised_response_done as (s' & E & Hs & Hl & Hr). rewrite E.
  exists s'. split; [done|]. eapply closed_ended; [exact H|]. split; [done|]. by split.
Qed.

(** A response that carries the cursor leaves the registry and says so. *)
Lemma within_caps_ends q sess cursor limit externalized body before finish (s0 s : state) :
  turn_only s0 s ->
  (exists s1, before s = (Done tt, s1) /\ turn_only s s1
     /\ exists s3, finish s1 = (Done tt, s3) /\ turn_ended cursor s0 s3) ->
  exists s', within_caps http srv env req q sess cursor limit externalized body before finish s = (Done tt, s')
    /\ turn_ended cursor s0 s'.
Proof.
  intros H0 (s1 & Eb & H1 & s3 & Ef & H3). unfold within_caps.
  destruct (external_exceeded http externalized).
  - edestruct turn_refused_done as (s' & E & Hc). rewrite E. exists s'. split; [done|]. by eapply closed_ended.
  - rewrite (bind_done _ _ _ _ _ Eb). destruct (exceeded limit body); [|by exists s3].
    edestruct turn_refused_done as (s' & E & Hc). rewrite E. exists s'. split; [done|].
    eapply closed_ended; [|exact Hc]. by transitivity s.
Qed.

(** A response is sent as it is. *)
Lemma turn_sent cursor body (s0 s : state) :
  turn_ended cursor s0 s -> exists s', (reply (set_status 200);; apply_sticky http;; set_arrow_body http req body) s
    = (Done tt, s') /\ turn_ended cursor s0 s'.
Proof.
  intros H. step. edestruct (apply_sticky_done http) as (res & E & _). rewrite (bind_done _ _ _ _ _ E).
  rewrite set_arrow_body_done. eexists. split; [reflexivity|]. exact H.
Qed.

Lemma exchange_turn_ends q d sess st input_schema ctx cursor limit :
  ends same_book (turn_ended cursor)
    (exchange_turn array_length http srv env req q d sess st input_schema ctx cursor limit : M state unit).
Proof.
  unfold exchange_turn. cbv zeta. pose proof (turn_ended_after cursor) as HR.
  apply (ends_bind _ _ HR); [frame|intros coerced]. apply (ends_bind _ _ HR); [frame|intros oc].
  apply (ends_bind _ _ HR); [frame|intros [pointer externalized]].
  apply (ends_bind _ _ HR); [frame|intros wire]. apply (ends_bind _ _ HR); [frame|intros tail].
  apply (ends_bind _ _ HR); [frame|intros body]. intros s.
  edestruct within_caps_ends as (s' & E & He); [reflexivity| |rewrite E; exact He].
  eexists. split; [reflexivity|]. split; [apply turn_response_state_turn|]. apply turn_sent.
  intros rec Ht Hn Hc. split; [done|]. split; [done|]. eexists. split; [cbn; by rewrite Ht|]. split; [done|].
  unfold token_settled. cbn. by rewrite bool_decide_eq_true_2.
Qed.

(** A turn's body with the cursor in it says so in the record; a turn that failed
    has none. *)
Definition producer_wrote (cursor : bytes) (s s1 : state) (finished : bool) (failure : option exception) : Prop :=
  turn_only s s1 /\ (is_Some failure -> finished = true) /\
  (if finished then h_turn s1 = h_turn s
   else forall rec, h_turn s = Some rec -> exists rec', h_turn s1 = Some rec'
        /\ same_call rec rec' /\ ar_response_state_bytes _ rec' = blen cursor).

Lemma run_producer_turns_failure st sch ctx owner method input (s : state) finished failure externalized s1 :
  run_producer_turns array_length http srv env req st sch ctx owner method input s
  = (Done (finished, failure, externalized), s1) -> is_Some failure -> finished = true.
Proof.
  unfold run_producer_turns. intros ([oc|e] & s2 & _ & E)%bind_done_inv [x ->].
  - apply bind_done_inv in E as ([pointer ext] & s3 & _ & E). by apply bind_done_inv in E as (? & ? & _ & [= ]).
  - do 4 (apply bind_done_inv in E as (? & ? & _ & E)). by injection E.
Qed.

Lemma book_turn_of {A} (m : M state A) s r s1 : m s = (r, s1) -> always same_book m -> h_turn s1 = h_turn s.
Proof. intros E H. specialize (H s). rewrite E in H. apply H. Qed.

Lemma producer_body_wrote q d sess st ctx cursor (s : state) :
  match producer_body array_length http srv env req q d sess st ctx cursor s with
  | (Done (finished, failure, _), s1) => producer_wrote cursor s s1 finished failure
  | (Raised _, s1) => turn_only s s1
  end.
Proof.
  assert (always turn_only (producer_body array_length http srv env req q d sess st ctx cursor)) as Hall.
  { unfold producer_body. frame. }
  specialize (Hall s).
  destruct (producer_body _ _ _ _ _ _ _ _ _ _ _ _) as [[[[finished failure] externalized]|e] s1] eqn:E; [|done].
  cbn [snd] in Hall. split; [done|]. unfold producer_body in E.
  apply bind_done_inv in E as (ok & s2 & E2 & E). destruct (negb ok); [done|].
  apply bind_done_inv in E as ([[f x] ext] & s3 & E3 & E). apply bind_done_inv in E as (u & s4 & E4 & E).
  apply bind_done_inv in E as (u' & s5 & E5 & E). injection E as -> -> -> ->.
  split; [by eapply run_producer_turns_failure|].
  apply book_turn_of in E2; [|frame]. apply book_turn_of in E3; [|frame].
  apply book_turn_of in E5; [|frame]. destruct finished.
  - injection E4 as _ <-. congruence.
  - intros rec Hr. apply bind_done_inv in E4 as (empty & s6 & E6 & E4).
    apply bind_done_inv in E4 as (u6 & s7 & E7 & E4). injection E4 as _ <-.
    apply book_turn_of in E6; [|frame]. apply book_turn_of in E7; [|frame].
    eexists. split; [rewrite E5; cbn; rewrite E7, E6, E3, E2, Hr; reflexivity|done].
Qed.
Lemma build_body_done {A} (m : M state A) (s : state) :
  match m (with_world s (set_wire (h_world s) buffer_wire)) with
  | (Done a, s1) => exists body, build_body m s
      = (Done (a, body), with_world s1 (set_wire (h_world s1) (w_wire (h_world s))))
  | (Raised e, s1) => build_body m s = (Raised e, with_world s1 (set_wire (h_world s1) (w_wire (h_world s))))
  end.
Proof. unfold build_body. destruct (m _) as [[a|e] s1]; [by eexists|done]. Qed.

Lemma producer_turn_ends q d sess st ctx cursor limit :
  ends turn_only (turn_ended cursor)
    (producer_turn array_length http srv env req q d sess st ctx cursor limit : M state unit).
Proof.
  intros s. unfold producer_turn.
  pose proof (build_body_done (producer_body array_length http srv env req q d sess st ctx cursor) s) as Hb.
  pose proof (producer_body_wrote q d sess st ctx cursor (with_world s (set_wire (h_world s) buffer_wire))) as Hw.
  destruct (producer_body _ _ _ _ _ _ _ _ _ _ _ _) as [[[[finished failure] externalized]|e] s1]; cycle 1.
  { rewrite (bind_raised _ _ _ _ _ Hb). exact Hw. }
  destruct Hb as [body Hb]. rewrite (bind_done _ _ _ _ _ Hb). destruct Hw as (Ht & Hfail & Hrec).
  set (s2 := with_world s1 _). assert (turn_only s s2) as Hs2 by exact Ht. pose proof Ht as (Hst & Hl & _).
  cbn [with_world h_streams h_world set_wire w_access] in Hst, Hl.
  edestruct within_caps_ends as (s' & E & He); [exact Hs2| |rewrite E; exact He].
  eexists. split; [reflexivity|]. split; [done|]. destruct finished.
  - step. step. assert (forall s3 : state, turn_ended cursor s s3 -> exists s', (apply_sticky http;; set_arrow_body http req body) s3
      = (Done tt, s') /\ turn_ended cursor s s') as Hend.
    { intros s3 H3. edestruct (apply_sticky_done http) as (res & E & _). rewrite (bind_done _ _ _ _ _ E).
      rewrite set_arrow_body_done. eexists. split; [reflexivity|exact H3]. }
    assert (forall t, (forall rec, h_turn s = Some rec -> ar_response_state_bytes _ rec = -1 ->
              exists rec', t = Some rec' /\ same_call rec rec' /\ ar_response_state_bytes _ rec' = -1) ->
      forall w res p, w_access w = w_access (h_world s) ->
      turn_ended cursor s (Build_HttpState w (delete cursor (h_streams s1)) p res t)) as Hdel.
    { intros t Hnone w res p Hw rec Hr Hn _. destruct (Hnone rec Hr Hn) as (rec' & -> & Hc' & Hn').
      split; [done|]. split; [intros c Hc; cbn; by rewrite lookup_delete_ne, Hst|]. exists rec'. do 2 (split; [done|]).
      unfold token_settled. cbn. rewrite lookup_delete_eq. by rewrite bool_decide_eq_false_2. }
    cbn in Hrec. destruct failure as [e|].
    + step. apply Hend. apply Hdel; [|exact Hl]. intros rec Hr _. cbn. rewrite Hrec, Hr. by eexists.
    + step. apply Hend. apply Hdel; [|exact Hl]. intros rec Hr Hn. cbn. rewrite Hrec, Hr. by exists rec.
  - destruct failure as [e|]; [by discriminate Hfail|]. step. apply turn_sent.
    intros rec Hr Hn Hc. destruct (Hrec rec Hr) as (rec' & Hr' & Hcall & Hn'). split; [exact Hl|].
    split; [intros c _; cbn; by rewrite Hst|]. exists rec'. split; [exact Hr'|]. split; [done|].
    unfold token_settled. cbn. by rewrite Hst, bool_decide_eq_true_2.
Qed.
Lemma cancel_stream_done sess st ctx cursor limit (s : state) : exists s',
  cancel_stream http srv env req sess st ctx cursor limit s = (Done tt, s') /\ turn_ended cursor s s'.
Proof.
  unfold cancel_stream. step.
  destruct (run_on_cancel st ctx (h_world s)) as [r w] eqn:Ec.
  assert (r = Done tt /\ w_access w = w_access (h_world s)) as [-> Hl].
  { unfold run_on_cancel in Ec. destruct (on_cancel st ctx _) as [[? ?] ?]. by injection Ec as <- <-. }
  match goal with |- context [(on_world (run_on_cancel st ctx) ≫= _) ?s1] =>
    rewrite (bind_done (on_world (run_on_cancel st ctx)) _ s1 tt (with_world s1 w)) by (cbn; unfold on_world, zoom; cbn; by rewrite Ec) end.
  step. step. edestruct (apply_sticky_done http) as (res & E & _). rewrite (bind_done _ _ _ _ _ E). clear E.
  erewrite bind_done by (apply to_buffer_stream; constructor).
  assert (forall s' : state, h_streams s' = delete cursor (h_streams s) -> w_access (h_world s') = w_access (h_world s) ->
    (forall rec, h_turn s = Some rec -> ar_response_state_bytes _ rec = -1 -> exists rec', h_turn s' = Some rec'
       /\ same_call rec rec' /\ ar_response_state_bytes _ rec' = -1) -> turn_ended cursor s s') as Hend.
  { intros s' Hs Hl' Hrec rec Hr Hn _. destruct (Hrec rec Hr Hn) as (rec' & Hr' & Hc & Hn'). split; [done|].
    split; [intros c Hne; by rewrite Hs, lookup_delete_ne|]. exists rec'. do 2 (split; [done|]).
    unfold token_settled. rewrite Hs, lookup_delete_eq. by rewrite bool_decide_eq_false_2. }
  destruct (exceeded limit _).
  - step. step. edestruct (error_text_done (User := User) srv env req) as [body E]. rewrite (bind_done _ _ _ _ _ E).
    rewrite set_arrow_body_done. eexists. split; [reflexivity|]. apply Hend; [done|exact Hl|].
    intros rec Hr _. eexists. split; [cbn; by rewrite Hr|]. done.
  - rewrite set_arrow_body_done. eexists. split; [reflexivity|]. apply Hend; [done|exact Hl|].
    intros rec Hr Hn. eexists. split; [cbn; by rewrite Hr|]. done.
Qed.

Lemma run_turn_of_ends q d sess ctx cursor limit (s s' : state) :
  run_turn_of array_length http srv env req q d sess ctx cursor limit s = (Done tt, s') -> turn_ended cursor s s'.
Proof.
  unfold run_turn_of. destruct (hs_state sess) as [st|]; [|done]. destruct (is_cancel (dq_metadata d)).
  { edestruct cancel_stream_done as (s1 & E & H). rewrite E. by intros [= <-]. }
  assert (forall m : M state unit, ends turn_only (turn_ended cursor) m ->
    try_catch m (stream_error http srv env req q sess cursor) s = (Done tt, s') -> turn_ended cursor s s') as Htry.
  { intros m Hm E. unfold try_catch in E. specialize (Hm s). destruct (m s) as [[[]|e] s1]; [by injection E as <-|].
    destruct (stream_error_done q sess cursor e s s1 Hm) as (s2 & E2 & H2). rewrite E2 in E. by injection E as <-. }
  destruct (hs_is_exchange sess).
  - destruct (hs_input_schema sess) as [input_schema|]; [|done]. apply Htry.
    intros s1. pose proof (exchange_turn_ends q d sess st input_schema ctx cursor limit s1) as H.
    destruct (exchange_turn _ _ _ _ _ _ _ _ _ _ _ _ _ s1) as [[]]; [done|by apply book_turn].
  - apply Htry. apply producer_turn_ends.
Qed.

(** Filing the record of a turn that returned. *)
Lemma with_turn_filed rec body (s s' : state) :
  access_log_enabled srv = true -> with_turn srv rec body s = (Done tt, s') ->
  exists s1, body (with_record s (Some rec)) = (Done tt, s1) /\ h_streams s' = h_streams s1
    /\ w_app (h_world s') = w_app (h_world s1) /\ h_reply s' = h_reply s1
    /\ w_access (h_world s') = w_access (h_world s1) ++ [default rec (h_turn s1)].
Proof.
  intros Hlog. unfold with_turn. destruct (body _) as [[[]|e] s1] eqn:E; [|done].
  unfold on_world, zoom, emit_record. rewrite Hlog. cbn. intros [= <-]. by exists s1.
Qed.

(** ** Opening a stream *)

(** While a stream is opened under a cursor. *)
Definition opening (cursor : bytes) (s s' : state) : Prop :=
  w_access (h_world s') = w_access (h_world s) /\ others_kept cursor s s'
  /\ forall rec, h_turn s = Some rec -> exists rec', h_turn s' = Some rec' /\ same_call rec rec'.

#[export] Instance opening_preorder cursor : PreOrder (opening cursor).
Proof.
  split; [intros s; split_and!; [done..|]; intros rec ->; by exists rec|].
  intros s1 s2 s3 (? & H12 & R12) (? & H23 & R23). split_and!; [congruence| |].
  - intros c Hc. by rewrite (H23 c Hc), (H12 c Hc).
  - intros rec Hr. destruct (R12 rec Hr) as (rec2 & Hr2 & E2). destruct (R23 rec2 Hr2) as (rec3 & Hr3 & E3).
    exists rec3. split; [done|]. by transitivity rec2.
Qed.

Lemma turn_opening cursor s s' : turn_only s s' -> opening cursor s s'.
Proof. intros (Hs & Hl & Hr). split_and!; [done| |done]. intros c _. by rewrite Hs. Qed.

Lemma always_opening {A} cursor (m : M state A) : always turn_only m -> always (opening cursor) m.
Proof. intros H s. apply turn_opening, H. Qed.

Lemma register_opening cursor session : always (opening cursor) (register_stream cursor session : M state unit).
Proof. intros s. split_and!; [done| |]; [by intros c Hc; cbn; rewrite lookup_insert_ne|]. intros rec Hr. by exists rec. Qed.

Lemma hand_out_opening cursor session : always (opening cursor) (hand_out cursor session : M state unit).
Proof.
  unfold hand_out. apply always_bind; [typeclasses eauto|apply always_opening, turn_response_state_turn|].
  intros _. apply register_opening.
Qed.

(** Nothing, or the cursor: the stream is registered and the record says so. *)
Definition opened (cursor : bytes) (s s' : state) (failure : option exception) : Prop :=
  opening cursor s s' /\
  ((h_streams s' = h_streams s /\ h_turn s' = h_turn s)
   \/ (failure = None /\ is_Some (h_streams s' !! cursor)
       /\ forall rec, h_turn s = Some rec -> exists rec', h_turn s' = Some rec' /\ same_call rec rec'
            /\ ar_response_state_bytes _ rec' = blen cursor)).

Lemma same_opened cursor s s' failure : same_book s s' -> opened cursor s s' failure.
Proof. intros H. split; [by apply turn_opening, book_turn|]. destruct H as (? & ? & ?). by left. Qed.

Lemma opened_after cursor s1 s2 s3 failure : same_book s1 s2 -> opened cursor s2 s3 failure -> opened cursor s1 s3 failure.
Proof.
  intros H [Ho Hc]. split; [transitivity s2; [by apply turn_opening, book_turn|done]|].
  destruct H as (Hs & _ & Ht). rewrite Hs, Ht in Hc. exact Hc.
Qed.

Lemma opened_before cursor s1 s2 s3 failure : opened cursor s1 s2 failure -> same_book s2 s3 -> opened cursor s1 s3 failure.
Proof.
  intros [Ho Hc] H. split; [transitivity s2; [done|by apply turn_opening, book_turn]|].
  destruct H as (Hs & _ & Ht). by rewrite Hs, Ht.
Qed.

Lemma hand_out_opened cursor session (s : state) : exists s', hand_out cursor session s = (Done tt, s')
  /\ opened cursor s s' None.
Proof.
  eexists. split; [reflexivity|]. split; [exact (hand_out_opening cursor session s)|]. right. split; [done|].
  split; [cbn; rewrite lookup_insert_eq; by eexists|]. intros rec Hr. eexists. split; [cbn; by rewrite Hr|]. done.
Qed.

(** The result is the failure of the first turn. *)
Definition opens {X} (cursor : bytes) (m : M state (option exception * X)) : Prop := forall s,
  match m s with (Done (failure, _), s') => opened cursor s s' failure | (Raised _, s') => opening cursor s s' end.

Lemma opens_bind {A X} cursor (m : M state A) (f : A -> M state (option exception * X)) :
  always same_book m -> (forall a, opens cursor (f a)) -> opens cursor (m ≫= f).
Proof.
  intros Hm Hf s. unfold mbind, M_bind. specialize (Hm s). destruct (m s) as [[a|e] s1]; cbn [snd] in *;
    [|by apply turn_opening, book_turn].
  specialize (Hf a s1). destruct (f a s1) as [[[failure x]|e] s2]; [by eapply opened_after|].
  transitivity s1; [by apply turn_opening, book_turn|done].
Qed.

Lemma opens_same {X} cursor failure (x : X) : opens cursor (mret (failure, x)).
Proof. intros s. by apply same_opened. Qed.

Lemma opens_raise {X} cursor e : opens (X := X) cursor (raise e).
Proof. intros s. cbn. reflexivity. Qed.

(** The same for a step whose failure is known. *)
Definition gives {A} (cursor : bytes) (failure : option exception) (m : M state A) : Prop := forall s,
  match m s with (Done _, s') => opened cursor s s' failure | (Raised _, s') => opening cursor s s' end.

Lemma gives_bind {A B} cursor failure (m : M state A) (f : A -> M state B) :
  always same_book m -> (forall a, gives cursor failure (f a)) -> gives cursor failure (m ≫= f).
Proof.
  intros Hm Hf s. unfold mbind, M_bind. specialize (Hm s). destruct (m s) as [[a|e] s1]; cbn [snd] in *;
    [|by apply turn_opening, book_turn].
  specialize (Hf a s1). destruct (f a s1) as [[b|e] s2]; [by eapply opened_after|].
  transitivity s1; [by apply turn_opening, book_turn|done].
Qed.

Lemma gives_same {A} cursor failure (m : M state A) : always same_book m -> gives cursor failure m.
Proof.
  intros Hm s. specialize (Hm s). destruct (m s) as [[|] s']; cbn [snd] in Hm; [by apply same_opened|].
  by apply turn_opening, book_turn.
Qed.

Lemma gives_hand_out cursor session : gives cursor None (hand_out cursor session : M state unit).
Proof. intros s. destruct (hand_out_opened cursor session s) as (s1 & -> & Ho). exact Ho. Qed.

(** The token goes out last. *)
Lemma opens_last {A B X} cursor failure (m : M state A) (k : M state B) (x : X) :
  gives cursor failure m -> always same_book k -> opens cursor (m;; k;; mret (failure, x)).
Proof.
  intros Hm Hk s. unfold mbind, M_bind. specialize (Hm s). destruct (m s) as [[a|e] s1]; [|done].
  specialize (Hk s1). destruct (k s1) as [[b|e] s2]; cbn [snd mret M_ret] in *; [by eapply opened_before|].
  destruct Hm as [Hm _]. transitivity s1; [done|by apply turn_opening, book_turn].
Qed.

(** A first turn and what follows it. *)
Lemma opens_turn {X} cursor st sch ctx owner method input (f : bool * option exception * Z -> M state (option exception * X)) :
  (forall finished failure externalized, (is_Some failure -> finished = true) -> opens cursor (f (finished, failure, externalized))) ->
  opens cursor (run_producer_turns array_length http srv env req st sch ctx owner method input ≫= f).
Proof.
  intros Hf s. unfold mbind, M_bind.
  pose proof (run_producer_turns_book array_length http srv env req st sch ctx owner method input s) as Hbook.
  destruct (run_producer_turns _ _ _ _ _ _ _ _ _ _ _ s) as [[[[finished failure] externalized]|e] s1] eqn:E;
    cbn [snd] in Hbook; [|by apply turn_opening, book_turn].
  specialize (Hf finished failure externalized (run_producer_turns_failure _ _ _ _ _ _ _ _ _ _ _ E) s1).
  destruct (f _ s1) as [[[? ?]|] s2]; [by eapply opened_after|].
  transitivity s1; [by apply turn_opening, book_turn|done].
Qed.

Lemma init_body_opens q d ctx stream sch st exchange scope :
  opens (he_cursor env) (init_body array_length http srv env req q d ctx stream sch st exchange scope : M state _).
Proof.
  unfold init_body. cbv zeta. apply opens_bind; [frame|intros _].
  assert (always same_book (match st_header stream with
    | Some _ => mret [] | None => on_world (flush_logs sch) end : M state (list AnnotatedBatch))) as Hlogs by frame.
  destruct st as [st|].
  - apply opens_bind; [frame|intros ok]. destruct (negb ok); [apply opens_raise|].
    apply opens_bind; [exact Hlogs|intros logs]. apply opens_bind; [frame|intros _].
    apply opens_bind; [frame|intros tick]. apply opens_turn. intros finished failure externalized Hf.
    apply opens_last; [|frame]. destruct finished; [apply gives_same; frame|].
    destruct failure as [x|]; [by discriminate Hf|]. apply gives_bind; [frame|intros empty].
    apply gives_bind; [frame|intros _]. apply gives_hand_out.
  - apply opens_bind; [exact Hlogs|intros logs]. apply opens_bind; [frame|intros empty].
    apply opens_bind; [frame|intros _]. intros s.
    destruct (hand_out_opened (he_cursor env) (opened_session env q stream sch exchange scope) s) as (s1 & E & Ho).
    by rewrite (bind_done _ _ _ _ _ E).
Qed.

(** From a record without a token and a cursor that is not in use. *)
Definition settles (cursor : bytes) (s s' : state) : Prop :=
  forall rec, h_turn s = Some rec -> ar_response_state_bytes _ rec = -1 -> h_streams s !! cursor = None ->
  w_access (h_world s') = w_access (h_world s) /\ others_kept cursor s s'
  /\ exists rec', h_turn s' = Some rec' /\ same_call rec rec' /\ token_settled cursor s' rec'.

Lemma opening_closed cursor s s1 s' : opening cursor s s1 -> turn_closed cursor s1 s' -> settles cursor s s'.
Proof.
  intros (Hl & Ho & Hr) (Hl' & Hs & Hc) rec0 Ht _ _. split; [congruence|]. split.
  - intros c Hne. by rewrite Hs, lookup_delete_ne, (Ho c Hne).
  - destruct (Hr _ Ht) as (rec1 & Hr1 & E1). destruct (Hc _ Hr1) as (rec & Hr' & E & Hn).
    exists rec. split; [done|]. split; [by transitivity rec1|]. unfold token_settled.
    rewrite Hs, lookup_delete_eq. by rewrite bool_decide_eq_false_2.
Qed.

Lemma opened_settles cursor s s' : opened cursor s s' None -> settles cursor s s'.
Proof.
  intros [(Hl & Ho & _) [[Hs Ht]|(_ & Hin & Hr)]] rec Hrec Hn Hc; (split; [done|]; split; [done|]).
  - exists rec. rewrite Ht. split; [done|]. split; [done|]. unfold token_settled. by rewrite Hs, Hc, bool_decide_eq_false_2.
  - destruct (Hr rec Hrec) as (rec' & Hr' & Hcall & Hn'). exists rec'. do 2 (split; [done|]).
    unfold token_settled. by rewrite bool_decide_eq_true_2.
Qed.

Lemma settles_after cursor s s1 s2 : settles cursor s s1 -> same_book s1 s2 -> settles cursor s s2.
Proof.
  intros H (Hs & Hl & Ht) rec Hr Hn Hc. destruct (H rec Hr Hn Hc) as (Hl' & Ho & rec' & Hr' & Hcall & Htok).
  split; [congruence|]. split; [intros c Hne; by rewrite Hs, Ho|]. exists rec'. rewrite Ht. do 2 (split; [done|]).
  unfold token_settled in *. by rewrite Hs.
Qed.

Lemma init_refused_done q sch type message (s : state) : exists s',
  init_refused http srv env req q sch type message s = (Done tt, s') /\ turn_closed (he_cursor env) s s'.
Proof. apply turn_refused_done. Qed.

(** A first turn that failed hands out no token. *)
Lemma failed_first_turn cursor e (s s1 : state) : opened cursor s s1 (Some e) ->
  settles cursor s (turn_raised e s1).2.
Proof.
  intros [(Hl & Ho & _) [[Hs Ht]|([=] & _)]] rec Hr Hn Hc. split; [exact Hl|]. split; [exact Ho|].
  eexists. split; [cbn; rewrite Ht, Hr; reflexivity|]. split; [done|]. unfold token_settled. cbn.
  by rewrite Hs, Hc, bool_decide_eq_false_2.
Qed.

Lemma serve_opened_settles q d mi ctx stream scope (s s' : state) :
  serve_opened array_length http srv env req q d mi ctx stream scope s = (Done tt, s') -> settles (he_cursor env) s s'.
Proof.
  unfold serve_opened. cbv zeta. set (exchange := mi_is_exchange mi && _).
  destruct (st_output_schema stream) as [sch|]; [|done]. destruct (if exchange then _ else _) as [st|]; [|done].
  set (body := init_body array_length http srv env req q d ctx stream sch st exchange scope).
  pose proof (build_body_done body s) as Hb.
  pose proof (init_body_opens q d ctx stream sch st exchange scope (with_world s (set_wire (h_world s) buffer_wire))) as Ho.
  fold body in Ho. destruct (body _) as [[[failure externalized]|e] s1]; cycle 1.
  { unfold try_catch at 1. intros E. set (s2 := with_world s1 _) in Hb. assert (opening (he_cursor env) s s2) as H2 by exact Ho.
    erewrite bind_done in E by (unfold try_catch; rewrite (bind_raised _ _ _ _ _ Hb); reflexivity).
    revert E. cbv beta iota. step. edestruct raised_response_done as (s3 & E & Hs & Hl & Hr). rewrite E. intros [= <-].
    eapply opening_closed; [exact H2|]. split; [done|]. by split. }
  destruct Hb as [bs Hb]. set (s2 := with_world s1 _) in Hb.
  assert (opened (he_cursor env) s s2 failure) as H2 by exact Ho. clearbody s2. clear Ho. pose proof H2 as [Hop _].
  erewrite bind_done by (unfold try_catch; rewrite (bind_done _ _ _ _ _ Hb); reflexivity). cbv beta iota.
  destruct (external_exceeded http externalized).
  { edestruct init_refused_done as (s3 & E & Hc). rewrite E. intros [= <-]. by eapply opening_closed. }
  destruct (exceeded (rq_response_limit q) bs).
  { edestruct init_refused_done as (s3 & E & Hc). rewrite E. intros [= <-]. by eapply opening_closed. }
  step. set (s3 := with_reply s2 _).
  assert (forall s4 : state, settles (he_cursor env) s s4 -> (apply_sticky http;; set_arrow_body http req bs) s4 = (Done tt, s') ->
    settles (he_cursor env) s s') as Hend.
  { intros s4 H4 E. eapply settles_after; [exact H4|].
    pose proof (always_bind same_book (apply_sticky http) (fun _ => set_arrow_body http req bs) ltac:(frame) ltac:(frame) s4) as Hb4.
    by rewrite E in Hb4. }
  destruct failure as [e|]; step; apply Hend.
  - exact (failed_first_turn _ e s s2 H2).
  - apply opened_settles. exact H2.
Qed.

Lemma serve_init_settles q d mi request ctx scope (s s' : state) :
  access_log_enabled srv = true -> h_streams s !! he_cursor env = None ->
  serve_init array_length http srv env req q d mi request ctx scope s = (Done tt, s') ->
  others_kept (he_cursor env) s s' /\ exists rec, w_access (h_world s') = w_access (h_world s) ++ [rec]
    /\ ar_is_stream _ rec = true /\ ar_stream_id _ rec = he_stream_id env /\ token_settled (he_cursor env) s' rec.
Proof.
  intros Hlog Hc. unfold serve_init. cbv zeta. intros E. set (rec0 := access_record _ _ _ _ _ _ _ _ _) in E.
  apply with_turn_filed in E as (s1 & E & Hs & _ & _ & Ha); [|done].
  assert (settles (he_cursor env) (with_record s (Some rec0)) s1) as Hset.
  { unfold mbind at 1, M_bind at 1 in E. unfold try_catch, mbind at 1, M_bind at 1 in E.
    pose proof (on_world_book _ (run_handler_log (mi_stream_factory mi) request ctx) (with_record s (Some rec0))) as Hb.
    destruct (on_world _ _) as [[stream|e] s2]; cbn [snd mret M_ret] in Hb, E.
    - apply serve_opened_settles in E. intros rec Hr Hn Hn'. pose proof Hb as (Hs2 & Hl2 & Ht2).
      destruct (E rec) as (Hl & Ho & Hrec); [congruence|done|by rewrite Hs2|].
      split; [congruence|]. split; [|done]. intros c Hne. by rewrite (Ho c Hne), Hs2.
    - edestruct raised_response_done as (s3 & E3 & Hs3 & Hl3 & Hr3). rewrite E3 in E. injection E as <-.
      destruct Hb as (Hs2 & Hl2 & Ht2). intros rec Hr Hn Hn'. split; [congruence|].
      split; [intros c _; by rewrite Hs3, Hs2|]. destruct (Hr3 rec) as (rec' & Hr' & Hcall & Hn''); [congruence|].
      exists rec'. do 2 (split; [done|]). unfold token_settled. rewrite Hs3, Hs2, Hn'. by rewrite bool_decide_eq_false_2. }
  destruct (Hset rec0 eq_refl eq_refl Hc) as (Hl & Ho & rec & Hr & Hcall & Htok).
  split; [intros c Hne; rewrite Hs; by apply Ho|]. exists rec. rewrite Hr in Ha. cbn [default] in Ha.
  split; [rewrite Ha, Hl; done|]. destruct Hcall as (_ & _ & Hst & _ & _ & Hid). split; [by rewrite Hst|].
  split; [by rewrite Hid|]. unfold token_settled in *. by rewrite Hs.
Qed.

(** ** Which request continues a stream *)

(** What is left of the registry when the stream's lock is held. *)
Definition waited (s : state) : state := with_streams s (foldr delete (h_streams s) (he_waited env)).

Lemma waited_lookup (s : state) c : h_streams (waited s) !! c = if bool_decide (c ∈ he_waited env) then None else h_streams s !! c.
Proof.
  unfold waited. cbn. case_bool_decide; [by apply lookup_foldr_delete|by apply lookup_foldr_delete_not_elem_of].
Qed.

Definition live (cursor : bytes) (s : state) : option (HttpStreamSession app) :=
  if bool_decide (cursor = []) then None else h_streams (waited s) !! cursor.

Lemma live_session_done cursor (s : state) : exists s1, live_session env cursor s = (Done (live cursor s), s1)
  /\ (s1 = s \/ s1 = waited s) /\ (is_Some (live cursor s) -> s1 = waited s).
Proof.
  unfold live_session, live. step. case_bool_decide; [exists s; split; [done|]; split; [by left|by intros []]|].
  destruct (h_streams s !! cursor) as [sess|] eqn:Es.
  - step. step. fold (waited s). exists (waited s). split; [|by split; [right|]].
    rewrite waited_lookup, Es. by case_bool_decide.
  - exists s. rewrite waited_lookup, Es. split; [by case_bool_decide|]. split; [by left|].
    by case_bool_decide; intros [].
Qed.

Lemma min_limit_lower l r n : l = Some n \/ r = Some n -> exists m, min_limit l r = Some m /\ m <= n.
Proof. destruct l as [l|], r as [r|]; cbn; intros [|]; simplify_eq; eexists; (split; [reflexivity|lia]). Qed.

(** The budgets of a turn: each is at most every bound on it. *)
Definition budget_within (budget : option Z) (bounds : list (option Z)) : Prop :=
  forall n, Some n ∈ bounds -> exists m, budget = Some m /\ m <= n.

Lemma turn_limits_within (q : @Routed arrow User) sess limit preferred :
  turn_limits q sess = (limit, preferred) ->
  budget_within limit [rq_response_limit q; hs_response_limit_bytes sess]
  /\ budget_within preferred [rq_preferred q; hs_preferred_response_bytes sess; limit].
Proof.
  unfold turn_limits. intros [= <- <-]. unfold budget_within.
  assert (forall l r n, Some n ∈ [l; r] -> exists m, min_limit l r = Some m /\ m <= n) as Hmin.
  { intros l r n. rewrite !elem_of_cons. intros [<-|[<-|[]%not_elem_of_nil]]; apply min_limit_lower; auto. }
  split; [by intros n; apply Hmin|]. intros n. rewrite !elem_of_cons. intros Hn.
  set (p := min_limit (rq_preferred q) _). set (l := min_limit (rq_response_limit q) _) in *.
  destruct Hn as [Hn|[Hn|[Hn|[]%not_elem_of_nil]]].
  - destruct (Hmin (rq_preferred q) (hs_preferred_response_bytes sess) n) as (m & Hm & Hle); [set_solver|].
    destruct (Hmin p l m) as (m' & Hm' & Hle'); [subst p; set_solver|]. exists m'. split; [done|lia].
  - destruct (Hmin (rq_preferred q) (hs_preferred_response_bytes sess) n) as (m & Hm & Hle); [set_solver|].
    destruct (Hmin p l m) as (m' & Hm' & Hle'); [subst p; set_solver|]. exists m'. split; [done|lia].
  - apply Hmin. set_solver.
Qed.
(** What a continuation does: a turn of a live stream under its checks, or a
    refusal. *)
Definition continues (q : @Routed arrow User) (d : @Decoded arrow) (scope : bytes) (sess : HttpStreamSession app)
    (limit preferred : option Z) (rec : AccessRecord Caller) (s : state) : Prop :=
  let cursor := get_metadata_value (dq_metadata d) STATE_B64 [] in
  live cursor s = Some sess /\ hs_aad sess = scope
  /\ (call_state_cache (cfg_ http) = false ->
        call_token_resolves http (get_metadata_value (dq_metadata d) CALL_STATE_B64 [])
          (hs_method_name sess) cursor scope = true)
  /\ turn_limits q sess = (limit, preferred)
  /\ ar_stream_id _ rec = hs_stream_id sess /\ ar_response_state_bytes _ rec = -1
  /\ serve_continuation array_length http srv env req q d scope s
    = with_turn srv rec
        (run_turn_of array_length http srv env req q d sess
           (http_context srv env req (rq_caller q) limit preferred) cursor limit) (waited s).

Definition continuation_refused (q : @Routed arrow User) (d : @Decoded arrow) (scope : bytes) (s : state) : Prop :=
  exists s', serve_continuation array_length http srv env req q d scope s = (Done tt, s')
  /\ h_world s' = h_world s /\ arrow_reply 400 (h_reply s')
  /\ (h_streams s' = h_streams s \/ h_streams s' = h_streams (waited s)).

Lemma continuation_cases q d scope (s : state) :
  (exists sess limit preferred rec, continues q d scope sess limit preferred rec s)
  \/ continuation_refused q d scope s.
Proof.
  unfold continues, continuation_refused, serve_continuation. cbv zeta. set (cursor := get_metadata_value _ STATE_B64 []).
  destruct (live_session_done cursor s) as (s1 & E & Hs1 & Hlive). rewrite (bind_done _ _ _ _ _ E).
  assert (forall type message, exists s', HttpTurn.fail http srv env req 400 type message [] s1 = (Done tt, s')
      /\ h_world s' = h_world s /\ arrow_reply 400 (h_reply s')
      /\ (h_streams s' = h_streams s \/ h_streams s' = h_streams (waited s))) as Hfail.
  { intros type message. destruct (fail_done http srv env req 400 type message [] s1) as (res & Ef & Hr).
    rewrite Ef. eexists. split; [reflexivity|]. by destruct Hs1 as [-> | ->]; split_and!; auto. }
  destruct (live cursor s) as [sess|]; [|right; apply Hfail].
  rewrite (Hlive (mk_is_Some _ _ eq_refl)) in *.
  case_bool_decide as Haad; cbn [negb]; [|right; apply Hfail].
  destruct (turn_limits q sess) as [limit preferred] eqn:El.
  destruct (negb (call_state_cache (cfg_ http)) && _) eqn:Et; [right; apply Hfail|]. left.
  eexists sess, limit, preferred, _. split_and!; [done|done| |done| | |reflexivity]; [|reflexivity..].
  intros Hc. rewrite Hc in Et. cbn [negb andb] in Et. by apply negb_false_iff in Et.
Qed.

(** The stream's own lock is held: nothing else waits to end it. *)
Lemma live_registered cursor sess (s : state) : live cursor s = Some sess -> h_streams (waited s) !! cursor = Some sess.
Proof. unfold live. by case_bool_decide. Qed.

(** A request that passes the checks runs its turn. *)
Lemma continuation_admitted q d scope sess (s : state) :
  let cursor := get_metadata_value (dq_metadata d) STATE_B64 [] in
  live cursor s = Some sess -> hs_aad sess = scope ->
  (call_state_cache (cfg_ http) = false ->
     call_token_resolves http (get_metadata_value (dq_metadata d) CALL_STATE_B64 [])
       (hs_method_name sess) cursor scope = true) ->
  exists limit preferred rec, continues q d scope sess limit preferred rec s.
Proof.
  intros cursor Hl Ha Ht. unfold continues, serve_continuation. cbv zeta. fold cursor.
  destruct (live_session_done cursor s) as (s1 & E & Hs1 & Hlive). rewrite (bind_done _ _ _ _ _ E).
  rewrite Hl in *. rewrite (Hlive (mk_is_Some _ _ eq_refl)) in *.
  rewrite (bool_decide_eq_true_2 _ Ha). cbn [negb].
  destruct (turn_limits q sess) as [limit preferred] eqn:El.
  assert (negb (call_state_cache (cfg_ http)) && negb (call_token_resolves http
    (get_metadata_value (dq_metadata d) CALL_STATE_B64 []) (hs_method_name sess) cursor scope) = false) as ->.
  { destruct (call_state_cache (cfg_ http)); [done|]. by rewrite Ht. }
  eexists limit, preferred, _. split_and!; [done|done|done|done| | |reflexivity]; reflexivity.
Qed.

Lemma continuation_settles q d scope sess (s s' : state) :
  let cursor := get_metadata_value (dq_metadata d) STATE_B64 [] in
  access_log_enabled srv = true ->
  live cursor s = Some sess -> hs_aad sess = scope ->
  (call_state_cache (cfg_ http) = false ->
     call_token_resolves http (get_metadata_value (dq_metadata d) CALL_STATE_B64 [])
       (hs_method_name sess) cursor scope = true) ->
  serve_continuation array_length http srv env req q d scope s = (Done tt, s') ->
  exists rec, w_access (h_world s') = w_access (h_world s) ++ [rec]
    /\ ar_stream_id _ rec = hs_stream_id sess /\ others_kept cursor (waited s) s' /\ token_settled cursor s' rec.
Proof.
  intros cursor Hlog Hl Ha Ht E.
  destruct (continuation_admitted q d scope sess s Hl Ha Ht) as (limit & preferred & rec & H).
  destruct H as (_ & _ & _ & _ & Hid & Hn & Ec). rewrite Ec in E. fold cursor in E.
  apply with_turn_filed in E as (s1 & E & Hs & _ & _ & Hacc'); [|done]. apply run_turn_of_ends in E.
  destruct (E rec eq_refl Hn) as (Hacc & Ho & rec' & Hr & Hcall & Htok).
  { exists sess. by apply live_registered. }
  exists rec'. rewrite Hr in Hacc'. cbn [default] in Hacc'. split; [by rewrite Hacc', Hacc|].
  split; [destruct Hcall as (_ & _ & _ & _ & _ & Hi); by rewrite Hi|]. unfold token_settled in *. rewrite Hs.
  split; [|done]. intros c Hne. rewrite Hs. by apply Ho.
Qed.
End streams.

(** ** Properties *)

Section properties.
Context {arrow : Arrow} {afields : ArrowFields} {columns : ArrowColumns} {types : ArrowTypes}
  {streams : ArrowStreams} {build_ : ArrowBuild} {ib : IdentityArrow} {kvm : KeyValueMetadata}
  {buffers : BufferStreams} {ipc : IpcBytes} {J : JsonText} {D : Digests} {aead : Aead}
  {compressor : ZstdCompressor} {gzip : GzipCompressor} {User : Type}
  {alaws : ArrowLaws} {slaws : ArrowStreamsLaws} {total : ArrowTotal} {kvlaws : KeyValueMetadataLaws}
  {jtotal : JsonTextTotal}.

Abbreviation app := (HttpApp User).
Abbreviation state := (HttpState app).

(** C12: a request continues a stream only with the cursor of a registered one that
    was opened under the same identity and on the same protocol, and, where the
    call-state cache is off, with its call token; it then runs under budgets that
    are at most its own and the stream's.  Every other continuation is a bad
    request that runs no application code and ends no stream. *)
Theorem stream_continued_by_its_opener array_length (http : HttpServer app) (srv : Server Caller app) env req
    q d (s : state) :
  is_protocol_name (rt_protocol (rq_route q)) = true ->
  let scope := stream_aad (rq_aad q) (rt_protocol (rq_route q)) in
  let cursor := get_metadata_value (dq_metadata d) STATE_B64 [] in
  (exists sess limit preferred rec, live env cursor s = Some sess
     /\ (forall identity protocol, is_protocol_name protocol = true ->
           hs_aad sess = stream_aad identity protocol -> identity = rq_aad q /\ protocol = rt_protocol (rq_route q))
     /\ (call_state_cache (cfg_ http) = false ->
           call_token_resolves http (get_metadata_value (dq_metadata d) CALL_STATE_B64 [])
             (hs_method_name sess) cursor scope = true)
     /\ budget_within limit [rq_response_limit q; hs_response_limit_bytes sess]
     /\ budget_within preferred [rq_preferred q; hs_preferred_response_bytes sess; limit]
     /\ ar_stream_id _ rec = hs_stream_id sess /\ ar_response_state_bytes _ rec = -1
     /\ serve_continuation array_length http srv env req q d scope s
       = with_turn srv rec
           (run_turn_of array_length http srv env req q d sess
              (http_context srv env req (rq_caller q) limit preferred) cursor limit) (waited env s))
  \/ (exists s', serve_continuation array_length http srv env req q d scope s = (Done tt, s')
      /\ h_world s' = h_world s /\ arrow_reply 400 (h_reply s')
      /\ (h_streams s' = h_streams s \/ h_streams s' = h_streams (waited env s))).
Proof.
  intros Hname scope cursor.
  destruct (continuation_cases array_length http srv env req q d scope s)
    as [(sess & limit & preferred & rec & H)|H]; [left|right; exact H].
  destruct H as (Hl & Haad & Htoken & Hlim & Hid & Hn & E). apply turn_limits_within in Hlim as [Hb1 Hb2].
  exists sess, limit, preferred, rec. split; [exact Hl|]. split; [|by split_and!].
  intros identity protocol Hp Hs. rewrite Haad in Hs. by apply stream_aad_binds in Hs as [-> ->].
Qed.

(** C13: the records of streams and the registry agree.  On a server with an access
    log: a request that opens a stream, under a cursor that is not in use, and a
    request that continues a live stream of its scope, with its call token where
    the call-state cache is off, file exactly one record each when they return,
    under the stream's id; and the size of the response's state in that record is
    the length of the cursor when the stream is registered afterwards and absent
    otherwise: the records never say that a token went out for a stream that
    cannot be continued, nor is a stream kept whose record says there is none.
    The other streams are untouched.  (The statement is on the record; the token
    in the body is written by the same steps.) *)
Theorem state_token_iff_stream_live array_length (http : HttpServer app) (srv : Server Caller app) env req q d
    (s s' : state) :
  access_log_enabled srv = true ->
  (forall mi request ctx scope, h_streams s !! he_cursor env = None ->
     serve_init array_length http srv env req q d mi request ctx scope s = (Done tt, s') ->
     others_kept (he_cursor env) s s' /\ exists rec, w_access (h_world s') = w_access (h_world s) ++ [rec]
       /\ ar_is_stream _ rec = true /\ ar_stream_id _ rec = he_stream_id env /\ token_settled (he_cursor env) s' rec)
  /\ (forall scope sess, let cursor := get_metadata_value (dq_metadata d) STATE_B64 [] in
     live env cursor s = Some sess -> hs_aad sess = scope ->
     (call_state_cache (cfg_ http) = false ->
        call_token_resolves http (get_metadata_value (dq_metadata d) CALL_STATE_B64 [])
          (hs_method_name sess) cursor scope = true) ->
     serve_continuation array_length http srv env req q d scope s = (Done tt, s') ->
     others_kept cursor (waited env s) s' /\ exists rec,
       w_access (h_world s') = w_access (h_world s) ++ [rec]
       /\ ar_stream_id _ rec = hs_stream_id sess /\ token_settled cursor s' rec).
Proof.
  intros Hlog. split.
  - intros mi request ctx scope Hc. by apply serve_init_settles.
  - intros scope sess cursor Hl Ha Ht E.
    destruct (continuation_settles array_length http srv env req q d scope sess s s' Hlog Hl Ha Ht E)
      as (rec & Hacc & Hid & Ho & Htok).
    split; [done|]. by exists rec.
Qed.
End properties.

(** ** Witnesses *)

Import ToyArrow ToyStreams ToyTypes ToyBuild Json.ToyJson HttpToy.

Section witnesses.
#[local] Existing Instances Toy.digests Toy.digest_laws Toy.aead Toy.aead_laws.

Definition demo_route (suffix : bytes) : RoutedRequest :=
  http_route demo_http http_demo_server (demo_post (str "/vgi/demo.v1/copy/" ++ suffix)).

(** What the gates establish for a caller whose session is bound to [aad]. *)
Definition demo_routed (suffix aad : bytes) : Routed :=
  {| rq_caller := (anonymous, no_evidence); rq_aad := aad; rq_route := demo_route suffix;
     rq_protocol := routed_protocol http_demo_server (demo_route suffix);
     rq_response_limit := None; rq_preferred := None |}.

Definition demo_decoded (md : kv_list) : Decoded :=
  {| dq_batch := toy_data_batch [x07]; dq_metadata := Some md; dq_provenance := None |}.

Abbreviation serve_turn aad :=
  (serve_continuation (fun _ => 0) demo_http http_demo_server (demo_env (str "c2"))
     (demo_post (str "/vgi/demo.v1/copy/exchange")) (demo_routed (str "exchange") aad)
     (demo_decoded [(STATE_B64, str "c1")]) (stream_aad aad (str "demo.v1")) demo_opened).

Lemma seen_field {A B} (f : A -> B) o a b : o = Some a -> f <$> o = Some b -> f a = b.
Proof. by intros -> [= ]. Qed.

(** The anonymous caller that opened the stream continues it; a caller with
    another identity is refused. *)
Lemma stream_continued_by_its_opener_witness :
  (exists sess limit ctx rec, hs_method_name sess = str "copy"
     /\ serve_turn (session_aad [] [] false) = with_turn http_demo_server rec
          (run_turn_of (fun _ => 0) demo_http http_demo_server (demo_env (str "c2"))
             (demo_post (str "/vgi/demo.v1/copy/exchange"))
             (demo_routed (str "exchange") (session_aad [] [] false))
             (demo_decoded [(STATE_B64, str "c1")]) sess ctx (str "c1") limit)
          (waited (demo_env (str "c2")) demo_opened))
  /\ (exists s', serve_turn (session_aad [] (str "bob") true) = (Done tt, s')
        /\ h_world s' = h_world demo_opened /\ arrow_reply 400 (h_reply s')).
Proof.
  split.
  - destruct (stream_continued_by_its_opener (fun _ => 0) demo_http http_demo_server (demo_env (str "c2"))
      (demo_post (str "/vgi/demo.v1/copy/exchange")) (demo_routed (str "exchange") (session_aad [] [] false))
      (demo_decoded [(STATE_B64, str "c1")]) demo_opened)
      as [(sess & limit & preferred & rec & Hl & _ & _ & _ & _ & _ & _ & E)|(s' & E & Hw & _)]; [by vm_compute| |].
    + do 4 eexists. split; [|exact E]. apply (seen_field _ _ _ _ Hl). by vm_compute.
    + exfalso. apply (f_equal (fun r => length (w_access (h_world r.2)))) in E. cbn [snd] in E. rewrite Hw in E.
      vm_compute in E. discriminate E.
  - destruct (stream_continued_by_its_opener (fun _ => 0) demo_http http_demo_server (demo_env (str "c2"))
      (demo_post (str "/vgi/demo.v1/copy/exchange")) (demo_routed (str "exchange") (session_aad [] (str "bob") true))
      (demo_decoded [(STATE_B64, str "c1")]) demo_opened)
      as [(sess & limit & preferred & rec & Hl & Hb & _)|(s' & E & Hw & Hr & _)]; [by vm_compute| |exists s'; exact (conj E (conj Hw Hr))].
    exfalso. destruct (Hb (session_aad [] [] false) (str "demo.v1")) as [Hid _]; [by vm_compute| |by vm_compute in Hid].
    apply (seen_field _ _ _ _ Hl). by vm_compute.
Defined.

(** The stream is registered once it is opened and after a turn, and gone after a
    turn that failed; the records say so. *)
Lemma state_token_iff_stream_live_witness :
  map (ar_response_state_bytes _) (w_access (h_world demo_opened)) = [2]
  /\ (exists rec, w_access (h_world (serve_turn (session_aad [] [] false)).2) = w_access (h_world demo_opened) ++ [rec]
        /\ ar_stream_id _ rec = str "s1" /\ ar_response_state_bytes _ rec = 2).
Proof.
  split; [by vm_compute|].
  assert ((serve_turn (session_aad [] [] false)).1 = Done tt) as Hdone by (vm_compute; reflexivity).
  assert (length (w_access (h_world (serve_turn (session_aad [] [] false)).2)) = 2%nat) as Hn by (vm_compute; reflexivity).
  assert (bool_decide (is_Some (h_streams (serve_turn (session_aad [] [] false)).2 !! str "c1")) = true) as Hs
    by (vm_compute; reflexivity).
  destruct (serve_turn (session_aad [] [] false)) as [r s'] eqn:E. cbn [fst snd] in Hdone, Hn, Hs |- *. subst r.
  destruct (state_token_iff_stream_live (fun _ => 0) demo_http http_demo_server (demo_env (str "c2"))
    (demo_post (str "/vgi/demo.v1/copy/exchange")) (demo_routed (str "exchange") (session_aad [] [] false))
    (demo_decoded [(STATE_B64, str "c1")]) demo_opened s') as [_ H]; [by vm_compute|].
  assert (exists sess, live (demo_env (str "c2")) (str "c1") demo_opened = Some sess
    /\ hs_aad sess = stream_aad (session_aad [] [] false) (str "demo.v1") /\ hs_stream_id sess = str "s1"
    /\ hs_method_name sess = str "copy")
    as (sess & Hl & Haad & Hid0 & Hm) by (eexists; split_and!; by vm_compute).
  destruct (H _ sess Hl Haad) with (2 := E) as (_ & rec & Ha & Hid & Ht).
  { intros Hc. rewrite Hm. first [vm_compute in Hc; discriminate Hc|vm_compute; reflexivity]. }
  exists rec. split; [exact Ha|]. split; [by rewrite Hid|].
  assert (get_metadata_value (dq_metadata (demo_decoded [(STATE_B64, str "c1")])) STATE_B64 [] = str "c1") as Ec
    by (vm_compute; reflexivity).
  unfold token_settled in Ht. rewrite Ec, Hs in Ht. rewrite Ht. by vm_compute.
Defined.
End witnesses.
