(* ===== verification/HttpClient.v ===== *)
(** * The HTTP client: requests, response headers, response bodies (src/src/http_client.cpp)

    What the client puts into a request (metadata, path, headers, resume tokens), what
    it takes from the headers of a response (limits, capabilities) and how it decodes the
    Arrow streams of a body.  Sending a request, its retries and deadlines are in
    [HttpTransport]. *)

From S2P Require Import Prelude Memory Arrow Json Crypto Grants Errors IdentityInternal ProxyProtocol Shm ShmPointer Wire Calls.
From S2P Require Import ExternalUrl ClientExternal Server Dispatch Serving Client ClientCalls External.

(** ** Failures *)

Inductive HttpClientErrorKind :=
  | TRANSPORT | TLS | TIMEOUT | CANCELLED | HTTP_STATUS | AUTHENTICATION | PROTOCOL_ERROR | LIMIT | REMOTE.

#[export] Instance HttpClientErrorKind_eq_decision : EqDecision HttpClientErrorKind.
Proof. solve_decision. Defined.

Definition kMaxStructuredErrorBodyBytes : Z := 4096.
Definition kMaxStructuredErrorHeaderBytes : Z := 1024.
Definition kMaxSafeResponseBytes : Z := 9007199254740991.

Definition bounded_text (value : bytes) (limit : Z) : bytes := take (Z.to_nat limit) value.

Record HttpClientError := {
  he_kind : HttpClientErrorKind;
  he_message : bytes;
  he_http_status : Z;
  he_method : bytes;
  he_request_id : bytes;
  he_response_body : bytes;
  he_retry_after : bytes;
  he_auth_reason : bytes;
}.

(** The constructor that takes everything; the texts of the response are bounded. *)
Definition new_HttpClientError (kind : HttpClientErrorKind) (message : bytes) (http_status : Z)
    (method request_id response_body retry_after auth_reason : bytes) : HttpClientError :=
  {| he_kind := kind; he_message := message; he_http_status := http_status; he_method := method;
     he_request_id := request_id;
     he_response_body := bounded_text response_body kMaxStructuredErrorBodyBytes;
     he_retry_after := bounded_text retry_after kMaxStructuredErrorHeaderBytes;
     he_auth_reason := bounded_text auth_reason kMaxStructuredErrorHeaderBytes |}.

Definition client_error (kind : HttpClientErrorKind) (message : bytes) (http_status : Z) (method request_id : bytes)
    : HttpClientError := new_HttpClientError kind message http_status method request_id [] [] [].

(** The constructor from a message. *)
Definition protocol_failure (message : bytes) (http_status : Z) : HttpClientError :=
  client_error PROTOCOL_ERROR message http_status [] [].

(** [HttpAuthenticationError] with its challenge, [RpcRemoteError], and
    [HttpSessionLostError] of its own class. *)
Inductive http_failure :=
  | HttpFailure (e : HttpClientError)
  | HttpAuthenticationError (e : HttpClientError) (www_authenticate : bytes)
  | RpcRemoteError (rx : RpcException) (http_status : Z)
  | HttpSessionLostError (rx : RpcException) (http_status : Z).

Definition authentication_error (message : bytes) (http_status : Z)
    (method request_id response_body www_authenticate retry_after auth_reason : bytes) : http_failure :=
  HttpAuthenticationError
    (new_HttpClientError AUTHENTICATION message http_status method request_id response_body retry_after auth_reason)
    (bounded_text www_authenticate kMaxStructuredErrorHeaderBytes).

(** ** Texts *)



Definition safe_error_detail (value : bytes) (limit : Z) : bytes :=
  map (fun c => if (b2z c <? 32) || (b2z c =? 127) then " "%byte else c) (bounded_text value limit).

(** [std::getline] up to each comma. *)
Definition comma_items (s : bytes) : list bytes :=
  let pieces := split_on "," s in
  if bool_decide (last pieces = Some []) then removelast pieces else pieces.

Definition includes_encoding (raw wanted : bytes) : bool :=
  existsb (fun item => bool_decide (ascii_lower (trim_ascii item) = wanted)) (comma_items raw).

Definition includes_encoding_list (values : list bytes) (wanted : bytes) : bool :=
  existsb (fun value => bool_decide (ascii_lower (trim_ascii value) = wanted)) values.

Definition parse_list (raw : bytes) (lowercase : bool) : list bytes :=
  map (fun item => if lowercase then ascii_lower item else item)
    (filter (fun item : bytes => item <> []) (map trim_ascii (comma_items raw))).

(** ** Response headers

    [httplib::Response]: the values of a name, whose case does not matter, and all the
    fields in the order of the multimap. *)
Record HttpResponseHead := {
  rs_status : Z;
  rs_headers : bytes -> list bytes;
  rs_fields : list (bytes * bytes);
}.

Definition value_count (response : HttpResponseHead) (name : bytes) : Z := blen (rs_headers response name).
Definition header_value (response : HttpResponseHead) (name : bytes) : bytes :=
  default [] (head (rs_headers response name)).
Definition header_present (response : HttpResponseHead) (name : bytes) : bool :=
  bool_decide (rs_headers response name <> []).

Definition kAcceptMaxResponseBytesSupportHeader : bytes := str "VGI-Accept-Max-Response-Bytes-Support".

Definition positive_header_int (response : HttpResponseHead) (name : bytes) : option Z :=
  if negb (header_present response name) then None
  else
    let raw := header_value response name in
    match stoll raw with
    | None => None
    | Some (value, consumed) => if negb (consumed =? length raw)%nat || (value <? 0) then None else Some value
    end.

Definition strict_advertised_response_limit (response : HttpResponseHead) (method request_id : bytes)
    : HttpClientError + option Z :=
  let name := str "VGI-Max-Response-Bytes" in
  let count := value_count response name in
  if count =? 0 then inr None
  else
    let raw := header_value response name in
    let digits := (count =? 1) && bool_decide (raw <> []) && negb (bool_decide (head raw = Some "0"%byte))
                  && negb (existsb (Byte.eqb ",") raw) && forallb is_digit raw in
    let refused := inl (client_error PROTOCOL_ERROR
      (str "HTTP response header VGI-Max-Response-Bytes must be exactly one ASCII integer between 65536 and 9007199254740991")
      (rs_status response) method request_id) in
    match (if digits then stoll raw else Some (0, O)) with
    | None => refused
    | Some (parsed, consumed) =>
        if negb digits || negb (consumed =? length raw)%nat || (parsed <? Z.shiftl 64 10)
           || (kMaxSafeResponseBytes <? parsed) then refused
        else inr (Some parsed)
    end.

Record HttpServerCapabilities := {
  caps_sticky_enabled : bool;
  caps_sticky_default_ttl : option Z;
  caps_sticky_echo_headers : list bytes;
  caps_upload_url_support : bool;
  caps_max_request_bytes : option Z;
  caps_max_response_bytes : option Z;
  caps_max_externalized_response_bytes : option Z;
  caps_externalization_enabled : bool;
  caps_max_upload_bytes : option Z;
  caps_supported_encodings : list bytes;
  caps_accept_max_response_bytes_support : bool;
}.

Definition new_HttpServerCapabilities : HttpServerCapabilities :=
  {| caps_sticky_enabled := false; caps_sticky_default_ttl := None; caps_sticky_echo_headers := [];
     caps_upload_url_support := false; caps_max_request_bytes := None; caps_max_response_bytes := None;
     caps_max_externalized_response_bytes := None; caps_externalization_enabled := false;
     caps_max_upload_bytes := None; caps_supported_encodings := [str "zstd"];
     caps_accept_max_response_bytes_support := false |}.

(** A header that is absent, or not a number, leaves what was known; so does every header
    after a response limit that is refused. *)
Definition harvest_capabilities (response : HttpResponseHead) (caps : HttpServerCapabilities)
    (method request_id : bytes) : option HttpClientError * HttpServerCapabilities :=
  let flag name old :=
    if header_present response (str name) then bool_decide (ascii_lower (header_value response (str name)) = str "true")
    else old in
  let number name old :=
    match positive_header_int response (str name) with Some v => Some v | None => old end in
  let items name lowercase old :=
    if header_present response (str name) then parse_list (header_value response (str name)) lowercase else old in
  let before :=
    {| caps_sticky_enabled := flag "VGI-Sticky-Enabled"%string (caps_sticky_enabled caps);
       caps_sticky_default_ttl := number "VGI-Sticky-Default-TTL"%string (caps_sticky_default_ttl caps);
       caps_sticky_echo_headers := items "VGI-Sticky-Echo-Headers"%string false (caps_sticky_echo_headers caps);
       caps_upload_url_support := flag "VGI-Upload-URL-Support"%string (caps_upload_url_support caps);
       caps_max_request_bytes := number "VGI-Max-Request-Bytes"%string (caps_max_request_bytes caps);
       caps_max_response_bytes := caps_max_response_bytes caps;
       caps_max_externalized_response_bytes := caps_max_externalized_response_bytes caps;
       caps_externalization_enabled := caps_externalization_enabled caps;
       caps_max_upload_bytes := caps_max_upload_bytes caps;
       caps_supported_encodings := caps_supported_encodings caps;
       caps_accept_max_response_bytes_support :=
         (value_count response kAcceptMaxResponseBytesSupportHeader =? 1)
         && bool_decide (header_value response kAcceptMaxResponseBytesSupportHeader = str "true") |} in
  match (if header_present response (str "VGI-Max-Response-Bytes")
         then strict_advertised_response_limit response method request_id
         else inr (caps_max_response_bytes caps)) with
  | inl e => (Some e, before)
  | inr max_response =>
      (None,
       {| caps_sticky_enabled := caps_sticky_enabled before;
          caps_sticky_default_ttl := caps_sticky_default_ttl before;
          caps_sticky_echo_headers := caps_sticky_echo_headers before;
          caps_upload_url_support := caps_upload_url_support before;
          caps_max_request_bytes := caps_max_request_bytes before;
          caps_max_response_bytes := max_response;
          caps_max_externalized_response_bytes :=
            number "VGI-Max-Externalized-Response-Bytes"%string (caps_max_externalized_response_bytes caps);
          caps_externalization_enabled :=
            flag "VGI-Externalization-Enabled"%string (caps_externalization_enabled caps);
          caps_max_upload_bytes := number "VGI-Max-Upload-Bytes"%string (caps_max_upload_bytes caps);
          caps_supported_encodings := items "VGI-Supported-Encodings"%string true (caps_supported_encodings caps);
          caps_accept_max_response_bytes_support := caps_accept_max_response_bytes_support before |})
  end.

(** ** Request headers

    [std::map] of names to values. *)

Definition kReservedHeaders : list bytes :=
  [str "accept-encoding"; str "content-encoding"; str "content-length"; str "content-type"; str "host";
   str "transfer-encoding"; str "vgi-accept-max-response-bytes"; str "x-request-id"; str "x-vgi-accept-encoding"].

Definition kCredentialHeaders : list bytes := [str "authorization"; str "cookie"; str "proxy-authorization"].

Definition has_any (chars s : bytes) : bool := existsb (fun c => existsb (Byte.eqb c) chars) s.

Definition crlf : bytes := [x0d; x0a].

Definition validate_header (allow_insecure_credentials secure_transport : bool) (h : bytes * bytes) : res unit :=
  let '(name, value) := h in
  _ ← throw_if (bool_decide (name = []) || has_any (crlf ++ str ":") name || has_any crlf value)
        (InvalidArgument (str "HTTP client header contains invalid characters"));
  _ ← throw_if (bool_decide (ascii_lower name ∈ kReservedHeaders))
        (InvalidArgument (str "HTTP client header is transport-reserved: " ++ name));
  throw_if (negb secure_transport && negb allow_insecure_credentials
            && bool_decide (ascii_lower name ∈ kCredentialHeaders))
    (InvalidArgument (str "credentials over plain HTTP require allow_insecure_credentials=true")).

Fixpoint validate_headers (headers : list (bytes * bytes)) (allow_insecure_credentials secure_transport : bool) : res unit :=
  match headers with
  | [] => Ok tt
  | h :: headers' =>
      _ ← validate_header allow_insecure_credentials secure_transport h;
      validate_headers headers' allow_insecure_credentials secure_transport
  end.

Fixpoint echo_headers_fit (total_bytes : Z) (headers : list (bytes * bytes)) : res unit :=
  let too_large := InvalidArgument (str "sticky session echo-header state is too large") in
  match headers with
  | [] => Ok tt
  | (name, value) :: headers' =>
      _ ← throw_if (bool_decide (ascii_lower name ∈ kCredentialHeaders))
            (InvalidArgument (str "credential-bearing sticky echo headers are forbidden: " ++ name));
      _ ← throw_if ((1024 <? blen name) || (8192 <? blen value) || (64 * 1024 <? total_bytes)
                    || (64 * 1024 - total_bytes <? blen name)) too_large;
      let total_bytes := total_bytes + blen name in
      _ ← throw_if (64 * 1024 - total_bytes <? blen value) too_large;
      echo_headers_fit (total_bytes + blen value) headers'
  end.

Definition validate_sticky_echo_headers (headers : list (bytes * bytes))
    (allow_insecure_credentials secure_transport : bool) : res unit :=
  _ ← validate_headers headers allow_insecure_credentials secure_transport;
  _ ← throw_if (100 <? Z.of_nat (length headers)) (InvalidArgument (str "sticky session has too many echo headers"));
  echo_headers_fit 0 headers.

(** ** URLs *)

(** [find_first_of]. *)
Fixpoint find_any (chars s : bytes) : option nat :=
  match s with
  | [] => None
  | c :: s' => if existsb (Byte.eqb c) chars then Some O else option_map S (find_any chars s')
  end.

(** *** Iroh endpoints (iroh_client.cpp) *)

Inductive iroh_scheme := IROH | HTTPI.

Record IrohEndpoint := {
  ie_scheme : iroh_scheme;
  ie_endpoint_id : bytes;
  ie_endpoint_id_bytes : bytes;
  ie_base_path : bytes;
  ie_alpn : bytes;
}.

(** [IrohTransportError]. *)
Definition iroh_error {A} (what : string) : res A := Throw (RuntimeError (str what)).

Definition iroh_nibble (c : byte) : res Z :=
  let z := b2z c in
  if (48 <=? z) && (z <=? 57) then Ok (z - 48)
  else if (97 <=? z) && (z <=? 102) then Ok (z - 97 + 10)
  else iroh_error "Iroh endpoint ID must be exactly 64 lowercase hexadecimal characters".

Definition iroh_xdigit (c : byte) : bool :=
  let z := b2z c in ((48 <=? z) && (z <=? 57)) || ((65 <=? z) && (z <=? 70)) || ((97 <=? z) && (z <=? 102)).

(** The escapes of a path, from left to right. *)
Fixpoint check_escapes (path : bytes) : res unit :=
  match path with
  | [] => Ok tt
  | c :: path' =>
      if Byte.eqb c "%" then
        match path' with
        | h :: l :: rest =>
            _ ← (if negb (iroh_xdigit h) || negb (iroh_xdigit l)
                 then iroh_error "httpi:// base path contains an invalid percent escape" else Ok tt);
            high ← iroh_nibble h;
            low ← iroh_nibble l;
            let decoded := Z.land (Z.lor (Z.shiftl high 4) low) 255 in
            _ ← (if (decoded =? b2z ".") || (decoded =? b2z "/") || (decoded =? b2z "\") || (decoded <=? 32) || (decoded =? 127)
                 then iroh_error "httpi:// base path contains an encoded dot, separator, or control" else Ok tt);
            check_escapes rest
        | _ => iroh_error "httpi:// base path contains an invalid percent escape"
        end
      else check_escapes path'
  end.

Definition validate_path (path : bytes) : res unit :=
  _ ← (if (1 <? blen path) && bool_decide (last path = Some "/"%byte)
       then iroh_error "httpi:// base paths cannot have a trailing empty segment" else Ok tt);
  _ ← (if bool_decide (is_Some (find_text (str "//") path))
       then iroh_error "httpi:// base paths cannot contain empty segments" else Ok tt);
  _ ← (if existsb (fun segment => bool_decide (segment = str ".") || bool_decide (segment = str ".."))
            (match path with [] => [] | _ :: rest => split_on "/" rest end)
       then iroh_error "httpi:// base paths cannot contain dot segments" else Ok tt);
  check_escapes path.

(** [hex_nibble] of each pair; the text has an even number of characters. *)
Fixpoint endpoint_bytes (id : bytes) : res bytes :=
  match id with
  | h :: l :: rest =>
      high ← iroh_nibble h;
      low ← iroh_nibble l;
      bs ← endpoint_bytes rest;
      Ok (z2b (Z.lor (Z.shiftl high 4) low) :: bs)
  | _ => Ok []
  end.

Definition parse_iroh_endpoint (uri : bytes) : res IrohEndpoint :=
  _ ← (if existsb (fun c => (b2z c <=? 32) || (b2z c =? 127) || Byte.eqb c "\" || Byte.eqb c "?" || Byte.eqb c "#") uri
       then iroh_error "invalid VGI Iroh endpoint URI" else Ok tt);
  '(scheme, prefix) ← (if starts_with (str "iroh://") uri then Ok (IROH, 7%nat)
                       else if starts_with (str "httpi://") uri then Ok (HTTPI, 8%nat)
                       else iroh_error "VGI Iroh endpoint scheme must be iroh:// or httpi://");
  let rest := drop prefix uri in
  let slash := find_any (str "/") rest in
  let id := match slash with Some n => take n rest | None => rest end in
  _ ← (if negb (blen id =? 64) then iroh_error "Iroh endpoint ID must be exactly 64 lowercase hexadecimal characters"
       else Ok tt);
  bs ← endpoint_bytes id;
  let path := match slash with Some n => drop n rest | None => [] end in
  _ ← (if match scheme with IROH => negb (bool_decide (path = [])) | HTTPI => false end
       then iroh_error "iroh:// endpoints cannot contain a path" else Ok tt);
  _ ← validate_path path;
  Ok {| ie_scheme := scheme; ie_endpoint_id := id; ie_endpoint_id_bytes := bs;
        ie_base_path := if bool_decide (path = str "/") then [] else path;
        ie_alpn := match scheme with IROH => str "vgi-rpc/arrow-mux/1" | HTTPI => str "iroh-http/2" end |}.

(** *** Base URLs *)

Record ParsedBaseUrl := {
  pb_value : bytes;
  pb_secure : bool;
  pb_has_userinfo : bool;
  pb_iroh_endpoint : option IrohEndpoint;
}.

Definition parse_base_url (base_url : bytes) : res ParsedBaseUrl :=
  if starts_with (str "httpi://") base_url then
    endpoint ← parse_iroh_endpoint base_url;
    Ok {| pb_value := base_url; pb_secure := true; pb_has_userinfo := false; pb_iroh_endpoint := Some endpoint |}
  else
    let bad_scheme := InvalidArgument (str "HttpClient base_url must use http://, https://, or httpi://") in
    match find_text (str "://") base_url with
    | None => Throw bad_scheme
    | Some scheme =>
        let scheme_name := take scheme base_url in
        _ ← throw_if (negb (bool_decide (scheme_name = str "http")) && negb (bool_decide (scheme_name = str "https"))) bad_scheme;
        let prefix := take (scheme + 3) base_url in
        let rest := drop (scheme + 3) base_url in
        let delimiter := find_any (str "/?#") rest in
        let authority := match delimiter with Some n => take n rest | None => rest end in
        _ ← throw_if (bool_decide (authority = [])) (InvalidArgument (str "HttpClient base_url must contain a host"));
        let value rest :=
          {| pb_value := prefix ++ rest; pb_secure := bool_decide (scheme_name = str "https");
             pb_has_userinfo := existsb (Byte.eqb "@") authority; pb_iroh_endpoint := None |} in
        match delimiter with
        | None => Ok (value rest)
        | Some n =>
            _ ← throw_if (negb (bool_decide (rest !! n = Some "/"%byte)))
                  (InvalidArgument (str "HttpClient base_url must not contain query or fragment"));
            let rest := pop_back_while (Byte.eqb "/") rest in
            _ ← throw_if (existsb (Byte.eqb "/") rest)
                  (InvalidArgument (str "HttpClient base_url must not contain a path; use prefix"));
            Ok (value rest)
        end
    end.

(** ** Requests *)

Definition validate_method (method : bytes) : res unit :=
  throw_if (bool_decide (method = []) || has_any (str "/?#") method)
    (InvalidArgument (str "RPC method must be a non-empty path segment")).

(** [random_id] is [random_hex(16)]. *)
Definition logical_request_id (request_id : option bytes) (random_id : bytes) : res bytes :=
  match request_id with
  | None => Ok random_id
  | Some id =>
      _ ← throw_if (bool_decide (id = []) || (256 <? blen id) || has_any crlf id)
            (InvalidArgument (str "CallOptions request_id must be 1-256 characters without CR/LF"));
      Ok id
  end.

(** The constructor's prefix: a leading slash, and none behind. *)
Definition normalized_prefix (prefix : bytes) : bytes :=
  let prefix := match prefix with [] => [] | c :: _ => if Byte.eqb c "/" then prefix else "/"%byte :: prefix end in
  match prefix with [] => [] | c :: rest => c :: pop_back_while (Byte.eqb "/") rest end.

Definition path_prefix (prefix : bytes) : bytes := if bool_decide (prefix = str "/") then [] else prefix.

Definition path (prefix method suffix : bytes) : bytes := path_prefix prefix ++ str "/" ++ method ++ suffix.

Definition protocol_path (prefix protocol method suffix : bytes) : bytes :=
  path_prefix prefix ++ str "/" ++ protocol ++ str "/" ++ method ++ suffix.

Definition method_path (prefix protocol method suffix : bytes) : res bytes :=
  if Client.is_reserved_method method then Ok (path prefix method suffix)
  else if bool_decide (protocol = []) then
    Throw (InvalidArgument (str "HttpClient: no protocol configured for '" ++ method
      ++ str "'; set HttpClientBuilder::protocol()"))
  else Ok (protocol_path prefix protocol method suffix).

(** *** Resume tokens *)

Definition pack_resume_token (cursor call_state : bytes) : HttpClientError + bytes :=
  if 2 ^ 32 - 1 <? blen cursor then inl (protocol_failure (str "stream cursor is too large to export") 0)
  else
    let size := blen cursor in
    inr ([z2b size; z2b (Z.shiftr size 8); z2b (Z.shiftr size 16); z2b (Z.shiftr size 24)] ++ cursor ++ call_state).

Definition unpack_resume_token (token : bytes) : res (bytes * bytes) :=
  match token with
  | b0 :: b1 :: b2 :: b3 :: rest =>
      let cursor_size := Z.lor (Z.lor (Z.lor (b2z b0) (Z.shiftl (b2z b1) 8)) (Z.shiftl (b2z b2) 16)) (Z.shiftl (b2z b3) 24) in
      _ ← throw_if (blen token <? cursor_size + 4)
            (InvalidArgument (str "resume token cursor length exceeds the token size"));
      Ok (take (Z.to_nat cursor_size) rest, drop (Z.to_nat cursor_size) rest)
  | _ => Throw (InvalidArgument (str "resume token is too short"))
  end.

(** *** Metadata *)

Section metadata.
Context {kvm : KeyValueMetadata}.

(** One entry of the key is deleted. *)
Definition replace_one (md : kv_list) (key value : bytes) : kv_list :=
  let index := FindKey md key in
  Append (if 0 <=? index then delete (Z.to_nat index) md else md) key value.

Definition kSanitizedKeys : list bytes :=
  [METHOD; REQUEST_VERSION; PROTOCOL_VERSION; STATE_B64; REQUEST_ID; CALL_STATE_B64; STREAM_STATE; CANCEL; LOCATION;
   LOCATION_SHA256; LOCATION_SOURCE; LOCATION_FETCH_MS; SHM_OFFSET; SHM_LENGTH; SHM_SOURCE; SHM_SEGMENT_NAME;
   SHM_SEGMENT_SIZE; TRANSPORT_SHM].

Definition sanitized_metadata (original : metadata) : kv_list := foldl remove_metadata (copy_metadata original) kSanitizedKeys.

Definition http_request_metadata (original : metadata) (method protocol protocol_version request_id : bytes)
    : res kv_list :=
  _ ← throw_if (bool_decide (protocol = []) && negb (Client.is_reserved_method method))
        (InvalidArgument (str "HttpClient: no protocol configured for '" ++ method
          ++ str "': every application request must name the protocol it addresses (WIRE_PROTOCOL.md §3.1). Set HttpClientBuilder::protocol()."));
  let caller_version := match protocol_version with [] => get_metadata_value original PROTOCOL_VERSION [] | _ => [] end in
  let md := sanitized_metadata original in
  let md := match caller_version with [] => md | v => replace_one md PROTOCOL_VERSION v end in
  let md := replace_one md METHOD method in
  let md := replace_one md REQUEST_VERSION REQUEST_VERSION_VALUE in
  let md := replace_one md REQUEST_ID request_id in
  let md := if negb (Client.is_reserved_method method) then replace_one md PROTOCOL protocol else md in
  Ok (match protocol_version with [] => md | v => replace_one md PROTOCOL_VERSION v end).

Definition strip_one (md : kv_list) (key : bytes) : kv_list :=
  let index := FindKey md key in if 0 <=? index then delete (Z.to_nat index) md else md.

Definition strip_transport_metadata (md : metadata) : metadata :=
  match md with
  | None => None
  | Some md =>
      match strip_one (strip_one md STATE_B64) CALL_STATE_B64 with [] => None | copy => Some copy end
  end.
End metadata.

(** ** Responses *)

(** [BoundedHttpResponse]: a response whose body was received within the limits. *)
Record BoundedHttpResponse := {
  br_status : Z;
  br_rpc_error : bool;
  br_body : bytes;
}.

Inductive ResponseShape := UNARY_RESPONSE | EXCHANGE_INIT | EXCHANGE_TURN | STREAM_INIT | PRODUCER_TURN.

#[export] Instance ResponseShape_eq_decision : EqDecision ResponseShape.
Proof. solve_decision. Defined.

Section decode.
Context {arrow : Arrow} {afields : ArrowFields} {streams : ArrowStreams} {kvm : KeyValueMetadata}
  {buffers : BufferStreams} {J : JsonText} {S : Type}.

Record DecodedResponse := {
  dr_schema : option Schema;
  dr_header : option AnnotatedBatch;
  dr_data : list AnnotatedBatch;
  dr_control : list AnnotatedBatch;
}.

Definition new_DecodedResponse : DecodedResponse :=
  {| dr_schema := None; dr_header := None; dr_data := []; dr_control := [] |}.

(** The log handler, and the resolver of external pointers: [inl] is the text of its
    [ExternalHttpError]. *)
Context (on_log : option (AnnotatedBatch -> M S unit)) (external : option (AnnotatedBatch -> M S (bytes + AnnotatedBatch))).

(** A step that may fail. *)
Definition and_then {A B} (m : M S (http_failure + A)) (k : A -> M S (http_failure + B)) : M S (http_failure + B) :=
  r ← m;
  match r with inl e => mret (inl e) | inr a => k a end.

Definition fail_with {A} (e : http_failure) : M S (http_failure + A) := mret (inl e).

Definition failed {A} (response : BoundedHttpResponse) (message : bytes) : M S (http_failure + A) :=
  fail_with (HttpFailure (protocol_failure message (br_status response))).

Definition remote_error_of (batch : AnnotatedBatch) (status : Z) : http_failure :=
  let md := custom_metadata batch in
  let extra := extra_object md in
  let rx :=
    {| rx_exception_type := match jfind extra (str "exception_type") with Some (JString t) => t | _ => str "RpcError" end;
       rx_message := get_metadata_value md LOG_MESSAGE (str "remote RPC error");
       rx_status := decode_remote_status md extra;
       rx_server_id := get_metadata_value md SERVER_ID [];
       rx_request_id := get_metadata_value md REQUEST_ID [] |} in
  if bool_decide (rx_exception_type rx = str "SessionLostError") then HttpSessionLostError rx status
  else RpcRemoteError rx status.

Definition log_batch (batch : AnnotatedBatch) : M S unit :=
  match on_log with Some f => f batch | None => mret tt end.

Definition metadata_has (md : metadata) (key : bytes) : bool :=
  match md with Some md => 0 <=? FindKey md key | None => false end.

(** A pointer is replaced by what it points to. *)
Definition resolved_batch (response : BoundedHttpResponse) (what : bytes) (batch : AnnotatedBatch)
    : M S (http_failure + AnnotatedBatch) :=
  if metadata_has (custom_metadata batch) LOCATION then
    match external with
    | None => failed response (str "external-location " ++ what ++ str " received while resolution is disabled")
    | Some resolve =>
        r ← resolve batch;
        match r with
        | inl text => failed response (str "failed to resolve external-location " ++ what ++ str ": " ++ text)
        | inr batch => mret (inr batch)
        end
    end
  else mret (inr batch).

Fixpoint header_batches (response : BoundedHttpResponse) (batches header_data : list AnnotatedBatch)
    : M S (http_failure + list AnnotatedBatch) :=
  match batches with
  | [] => mret (inr header_data)
  | batch :: batches' =>
      and_then (resolved_batch response (str "stream header") batch) (fun batch =>
        let level := get_metadata_value (custom_metadata batch) LOG_LEVEL [] in
        if (num_rows (ab_batch batch) =? 0) && negb (bool_decide (level = [])) then
          if bool_decide (level = str "EXCEPTION") then fail_with (remote_error_of batch (br_status response))
          else log_batch batch;; header_batches response batches' header_data
        else header_batches response batches' (header_data ++ [batch]))
  end.

Definition process_header (response : BoundedHttpResponse) (batches : list AnnotatedBatch)
    : M S (http_failure + AnnotatedBatch) :=
  and_then (header_batches response batches []) (fun header_data =>
    match header_data with
    | [header] => mret (inr header)
    | _ => failed response (str "stream header response must contain exactly one data batch")
    end).

Definition cursor_shape (shape : ResponseShape) : bool :=
  match shape with EXCHANGE_INIT | STREAM_INIT | PRODUCER_TURN => true | _ => false end.

(** The loop over a response's batches: the data and the control batches so far, and
    whether there was data. *)
Fixpoint response_batches (response : BoundedHttpResponse) (shape : ResponseShape) (batches : list AnnotatedBatch)
    (data_ control : list AnnotatedBatch) (saw_data : bool)
    : M S (http_failure + (list AnnotatedBatch * list AnnotatedBatch)) :=
  match batches with
  | [] => mret (inr (data_, control))
  | batch :: batches' =>
      and_then (resolved_batch response (str "response") batch) (fun batch =>
        let md := custom_metadata batch in
        let zero_rows := num_rows (ab_batch batch) =? 0 in
        let has_cursor := metadata_has md STATE_B64 in
        if zero_rows && metadata_has md LOG_LEVEL && metadata_has md LOG_MESSAGE then
          if bool_decide (get_metadata_value md LOG_LEVEL [] = str "EXCEPTION") then
            fail_with (remote_error_of batch (br_status response))
          else log_batch batch;; response_batches response shape batches' data_ control saw_data
        else if metadata_has md LOCATION then failed response (str "nested external-location response is forbidden")
        else if metadata_has md SHM_OFFSET then
          failed response (str "shared-memory response batches are invalid over HTTP")
        else if metadata_has md STREAM_STATE then
          failed response (str "legacy stream-state control batch is unsupported")
        else if has_cursor && cursor_shape shape then
          if negb zero_rows then failed response (str "exchange init returned a non-empty state control batch")
          else response_batches response shape batches' data_ (control ++ [batch]) saw_data
        else if has_cursor && bool_decide (shape = UNARY_RESPONSE) then
          failed response (str "unexpected stream control metadata in unary response")
        else if has_cursor && zero_rows && saw_data && bool_decide (shape = EXCHANGE_TURN) then
          response_batches response shape batches' data_ (control ++ [batch]) saw_data
        else response_batches response shape batches' (data_ ++ [batch]) control true)
  end.

(** [read_stream]: one IPC stream of the body. *)
Definition read_body_stream (response : BoundedHttpResponse) (input : wire)
    : http_failure + (Schema * list AnnotatedBatch * wire) :=
  match read_ipc_stream input with
  | (Done (Some (s, batches)), input) => inr (s, batches, input)
  | (Done None, _) =>
      inl (HttpFailure (protocol_failure (str "HTTP RPC response contained no Arrow IPC stream") (br_status response)))
  | (Raised e, _) =>
      inl (HttpFailure (protocol_failure (str "invalid Arrow IPC response: " ++ ex_what e) (br_status response)))
  end.

Definition body_stream (response : BoundedHttpResponse) (input : wire)
    : M S (http_failure + (Schema * list AnnotatedBatch * wire)) := mret (read_body_stream response input).

(** What is left to check of a decoded body; a failing [Tell] throws. *)
Definition checked_response (response : BoundedHttpResponse) (input : wire) (decoded : DecodedResponse)
    : M S (http_failure + DecodedResponse) :=
  match buffer_tell (br_body response) input with
  | None => raise (EOther (str "cannot inspect HTTP RPC response position"))
  | Some consumed =>
      if negb (consumed =? blen (br_body response)) then
        failed response (str "HTTP RPC response contains an unexpected trailing IPC stream")
      else if br_rpc_error response then
        failed response (str "worker set X-VGI-RPC-Error without an exception batch")
      else if (br_status response <? 200) || (300 <=? br_status response) then
        failed response (str "HTTP RPC response returned Arrow data with status " ++ to_string (br_status response))
      else mret (inr decoded)
  end.

Definition decode_response (response : BoundedHttpResponse) (shape : ResponseShape) (has_header : bool)
    : M S (http_failure + DecodedResponse) :=
  let input := buffer_reader (br_body response) in
  and_then
    (if has_header then
       and_then (body_stream response input) (fun '(_, batches, input) =>
         and_then (process_header response batches) (fun header => mret (inr (Some header, input))))
     else mret (inr (None, input)))
    (fun '(header, input) =>
       and_then (body_stream response input) (fun '(s, batches, input) =>
         and_then (response_batches response shape batches [] [] false) (fun '(data_, control) =>
           checked_response response input
             {| dr_schema := Some s; dr_header := header; dr_data := data_; dr_control := control |}))).

(** The last cursor of the control batches, or nothing. *)
Definition control_cursor (control : list AnnotatedBatch) : bytes :=
  foldl (fun cursor batch => match get_metadata_value (custom_metadata batch) STATE_B64 [] with [] => cursor | v => v end)
    [] control.

(** Names and types of the fields, in order; not metadata, not nullability. *)
Fixpoint fields_match (actual expected : list Field) : bool :=
  match actual, expected with
  | [], [] => true
  | a :: actual', e :: expected' =>
      bool_decide (field_name a = field_name e) && type_equal (field_type a) (field_type e) && fields_match actual' expected'
  | _, _ => false
  end.

Definition schema_equals (actual expected : option Schema) : bool :=
  match actual, expected with Some a, Some e => fields_match (fields a) (fields e) | _, _ => false end.

Definition schema_mismatch (direction : bytes) (expected actual : option Schema) : bytes :=
  let text s := match s with Some s => Schema_ToString s | None => str "<null>" end in
  direction ++ str " schema mismatch: expected " ++ text expected ++ str ", got " ++ text actual.
End decode.

(** ** Resume tokens *)

Lemma cursor_size_bytes b0 b1 b2 b3 :
  Z.lor (Z.lor (Z.lor (b2z b0) (Z.shiftl (b2z b1) 8)) (Z.shiftl (b2z b2) 16)) (Z.shiftl (b2z b3) 24)
  = le_decode [b0; b1; b2; b3].
Proof.
  pose proof (b2z_range b0). pose proof (b2z_range b1). pose proof (b2z_range b2). pose proof (b2z_range b3).
  rewrite (lor_shiftl_add (b2z b0)) by lia. rewrite (lor_shiftl_add _ (b2z b2) 16) by lia.
  rewrite (lor_shiftl_add _ (b2z b3) 24) by lia. cbn [le_decode]. lia.
Qed.

Lemma packed_size z : [z2b z; z2b (Z.shiftr z 8); z2b (Z.shiftr z 16); z2b (Z.shiftr z 24)] = le_encode 4 z.
Proof. cbn [le_encode]. rewrite !Z.shiftr_div_pow2, !Z.div_div by lia. done. Qed.

Lemma unpack_app size rest : length size = 4%nat ->
  unpack_resume_token (size ++ rest) =
  if blen rest <? le_decode size then Throw (InvalidArgument (str "resume token cursor length exceeds the token size"))
  else Ok (take (Z.to_nat (le_decode size)) rest, drop (Z.to_nat (le_decode size)) rest).
Proof.
  intros Hl. destruct size as [|b0 [|b1 [|b2 [|b3 [|]]]]]; try done. cbn [app unpack_resume_token]. rewrite cursor_size_bytes.
  set (n := le_decode _). replace (blen (b0 :: b1 :: b2 :: b3 :: rest)) with (blen rest + 4) by (cbn [length]; lia).
  unfold throw_if. destruct (Z.ltb_spec (blen rest + 4) (n + 4)), (Z.ltb_spec (blen rest) n); try lia; done.
Qed.

(** The resume tokens of a stream.  A token exists exactly for a cursor of at most 2^32 - 1
    bytes, and gives back the cursor and the call state it was made of; and whatever
    token is accepted is the one and only token of what it gives (nothing in it is
    ignored), the others being those too short for their own length. *)
Theorem resume_token_roundtrip cursor call_state token :
  match pack_resume_token cursor call_state with
  | inr packed => blen cursor <= 2 ^ 32 - 1 /\ unpack_resume_token packed = Ok (cursor, call_state)
  | inl _ => 2 ^ 32 - 1 < blen cursor
  end /\
  match unpack_resume_token token with
  | Ok (cursor, call_state) => pack_resume_token cursor call_state = inr token
  | Throw _ => (length token < 4)%nat \/ blen token < le_decode (take 4 token) + 4
  end.
Proof.
  split.
  - unfold pack_resume_token. destruct (Z.ltb_spec (2 ^ 32 - 1) (blen cursor)); [done|]. split; [done|].
    rewrite packed_size, unpack_app by apply le_encode_length. rewrite le_decode_encode_u32 by (unfold in_u32; lia).
    rewrite length_app. destruct (Z.ltb_spec (Z.of_nat (length cursor + length call_state)) (blen cursor)); [lia|].
    by rewrite Nat2Z.id, take_app_length, drop_app_length.
  - destruct (Nat.lt_ge_cases (length token) 4) as [Hl|Hl].
    { destruct token as [|b0 [|b1 [|b2 [|b3 token]]]]; cbn [length] in Hl; try lia; by left. }
    assert (length (take 4 token) = 4%nat) as H4 by (rewrite length_take; lia).
    pose proof (unpack_app (take 4 token) (drop 4 token) H4) as E. rewrite take_drop in E. rewrite E, length_drop. pose proof (le_decode_range (take 4 token)) as Hr. rewrite H4 in Hr.
    set (n := le_decode _) in *. destruct (Z.ltb_spec (Z.of_nat (length token - 4)) n); [right; lia|].
    unfold pack_resume_token. rewrite length_take, length_drop.
    replace (Z.of_nat (Z.to_nat n `min` (length token - 4))) with n by lia.
    destruct (Z.ltb_spec (2 ^ 32 - 1) n); [lia|]. rewrite packed_size. unfold n. rewrite <- H4 at 1. rewrite le_encode_decode.
    by rewrite take_drop, take_drop.
Qed.
