(* ===== verification/HttpSticky.v ===== *)
(** * Sticky sessions of the HTTP client (src/src/http_client.cpp)

    The routing state a client keeps for a session (its token and the echoed headers):
    seeded by the caller, staged from each response and committed, given up.  The locks
    around it are not here. *)

From S2P Require Import Prelude Json Crypto Grants Errors IdentityInternal ProxyProtocol Wire ExternalUrl HttpClient.

(** [HttpStickySessionState]; the echoed headers are a [std::map]. *)
Record StickyState := { st_token : option bytes; st_echo : gmap bytes bytes; st_closed : bool }.

Section sticky.
Context (allow_insecure_credentials secure_transport : bool).

Definition echo_prefix : bytes := str "vgi-echo-".

(** The entries of a map, in the order of the names. *)
Fixpoint place_entry (e : bytes * bytes) (es : list (bytes * bytes)) : list (bytes * bytes) :=
  match es with [] => [e] | e' :: es' => if bytes_ltb e.1 e'.1 then e :: es else e' :: place_entry e es' end.

Definition sorted_entries (m : gmap bytes bytes) : list (bytes * bytes) := foldr place_entry [] (map_to_list m).

Definition sticky_failure (response : HttpResponseHead) (method request_id message : bytes) : HttpClientError :=
  client_error PROTOCOL_ERROR message (rs_status response) method request_id.

(** The echo headers of a response, in the order of its fields. *)
Fixpoint stage_echo (response : HttpResponseHead) (method request_id : bytes) (headers : list (bytes * bytes))
    (echo : gmap bytes bytes) : HttpClientError + gmap bytes bytes :=
  match headers with
  | [] => inr echo
  | (name, value) :: headers' =>
      if negb (starts_with echo_prefix (ascii_lower name)) then stage_echo response method request_id headers' echo
      else
        let replay_name := ascii_lower (drop (length echo_prefix) name) in
        if (1024 <? blen replay_name) || (8192 <? blen value) then
          inl (sticky_failure response method request_id (str "server returned an oversized sticky echo header"))
        else
          match validate_sticky_echo_headers [(replay_name, value)] allow_insecure_credentials secure_transport with
          | Throw e =>
              inl (sticky_failure response method request_id
                     (str "server returned an invalid sticky echo header: " ++ ex_what (exception_of e)))
          | Ok _ =>
              let kept := filter (fun kv : bytes * bytes => ascii_lower kv.1 <> ascii_lower replay_name) echo in
              stage_echo response method request_id headers' (<[replay_name := value]> kept)
          end
  end.

(** The size of the state to come: the limits in the order of the names. *)
Fixpoint echo_state_fits (echo_bytes : Z) (headers : list (bytes * bytes)) : bool :=
  match headers with
  | [] => true
  | (name, value) :: headers' =>
      if (1024 <? blen name) || (8192 <? blen value) || (64 * 1024 <? echo_bytes) || (64 * 1024 - echo_bytes <? blen name)
      then false
      else
        let echo_bytes := echo_bytes + blen name in
        if 64 * 1024 - echo_bytes <? blen value then false else echo_state_fits (echo_bytes + blen value) headers'
  end.

(** What a response says of the session, to be committed once its body has been decoded:
    the token and the echoed headers to come ([StickyUpdate]). *)
Definition stage_sticky_response (response : HttpResponseHead) (session : StickyState) (method request_id : bytes)
    : HttpClientError + option bytes * gmap bytes bytes :=
  let token := header_value response (str "VGI-Session") in
  if negb (bool_decide (token = [])) && ((8192 <? blen token) || has_any crlf token) then
    inl (sticky_failure response method request_id (str "server returned an invalid sticky-session token"))
  else
    let next_token := if bool_decide (token = []) then st_token session else Some token in
    match stage_echo response method request_id (rs_fields response) (st_echo session) with
    | inl e => inl e
    | inr next_echo =>
        if negb (echo_state_fits 0 (sorted_entries next_echo)) then
          inl (sticky_failure response method request_id (str "server returned too much sticky echo-header state"))
        else if 100 <? Z.of_nat (size next_echo) then
          inl (sticky_failure response method request_id (str "server returned too many sticky echo headers"))
        else if bool_decide (ascii_lower (trim_ascii (header_value response (str "VGI-Session-Close"))) = str "true") then
          inr (None, ∅)
        else inr (next_token, next_echo)
    end.

Definition commit_sticky_response (status : Z) (update : option bytes * gmap bytes bytes) (session : StickyState)
    : HttpClientError + StickyState :=
  if st_closed session then
    inl (protocol_failure (str "HTTP sticky-session view was closed before response commit") status)
  else inr {| st_token := update.1; st_echo := update.2; st_closed := false |}.

(** The constructor of a view. *)
Definition new_sticky_session (token : option bytes) (echo_headers : gmap bytes bytes) : res StickyState :=
  _ ← throw_if match token with
               | Some token => bool_decide (token = []) || (8192 <? blen token) || has_any crlf token
               | None => false
               end
        (InvalidArgument (str "initial sticky-session token must be 1-8192 characters without CR/LF"));
  _ ← validate_sticky_echo_headers (sorted_entries echo_headers) allow_insecure_credentials secure_transport;
  Ok {| st_token := token; st_echo := echo_headers; st_closed := false |}.

Definition given_up : StickyState := {| st_token := None; st_echo := ∅; st_closed := true |}.

Definition sticky_detach (session : StickyState) : option bytes * StickyState := (st_token session, given_up).

(** [close]: what is deleted at the server.  Within 50 ms the lock was had, or not. *)
Definition sticky_close (locked : bool) (session : StickyState) : option (bytes * gmap bytes bytes) * StickyState :=
  if st_closed session then (None, session)
  else if locked then (token ← st_token session; Some (token, st_echo session), given_up)
  else (None, {| st_token := st_token session; st_echo := st_echo session; st_closed := true |}).
End sticky.

(** ** What is kept *)

Section safe.
Context (allow_insecure_credentials secure_transport : bool).

(** A header that may be sent with every request of the session. *)
Definition replayable (h : bytes * bytes) : Prop :=
  h.1 <> [] /\ has_any (crlf ++ str ":") h.1 = false /\ has_any crlf h.2 = false /\
  (ascii_lower h.1 ∉ kReservedHeaders) /\ (ascii_lower h.1 ∉ kCredentialHeaders) /\ blen h.1 <= 1024 /\ blen h.2 <= 8192.

Definition header_bytes (h : bytes * bytes) : nat := length h.1 + length h.2.

(** The state a request takes its headers from. *)
Definition sticky_safe (session : StickyState) : Prop :=
  (forall token, st_token session = Some token -> token <> [] /\ blen token <= 8192 /\ has_any crlf token = false) /\
  Forall replayable (map_to_list (st_echo session)) /\
  (size (st_echo session) <= 100)%nat /\ Z.of_nat (sum_list_with header_bytes (map_to_list (st_echo session))) <= 65536.

Lemma place_entry_perm e es : place_entry e es ≡ₚ e :: es.
Proof.
  induction es as [|e' es IH]; cbn [place_entry]; [done|]. destruct (bytes_ltb _ _); [done|]. rewrite IH. apply Permutation_swap.
Qed.

Lemma sorted_entries_perm m : sorted_entries m ≡ₚ map_to_list m.
Proof.
  unfold sorted_entries. induction (map_to_list m) as [|e es IH]; cbn [foldr]; [done|]. by rewrite place_entry_perm, IH.
Qed.

Lemma sum_list_perm (l l' : list (bytes * bytes)) : l ≡ₚ l' -> sum_list_with header_bytes l = sum_list_with header_bytes l'.
Proof. induction 1; cbn; lia. Qed.

(** The two limits on the size of the echoed headers are one. *)
Lemma fits_sum total l :
  echo_state_fits total l = true -> 0 <= total ->
  Forall (fun h => blen h.1 <= 1024 /\ blen h.2 <= 8192) l /\
  (l <> [] -> total + Z.of_nat (sum_list_with header_bytes l) <= 65536).
Proof.
  revert total; induction l as [|[name value] l IH]; intros total; cbn [echo_state_fits]; [done|].
  destruct (Z.ltb_spec 1024 (blen name)), (Z.ltb_spec 8192 (blen value)), (Z.ltb_spec (64 * 1024) total),
    (Z.ltb_spec (64 * 1024 - total) (blen name)); try done. cbn [orb]. cbv zeta.
  destruct (Z.ltb_spec (64 * 1024 - (total + blen name)) (blen value)); [done|]. intros E Ht.
  destruct (IH _ E) as [Hall Hsum]; [lia|]. split; [by constructor|]. intros _. cbn [sum_list_with]. unfold header_bytes at 1.
  cbn [fst snd]. destruct l as [|h l]; [cbn; lia|]. specialize (Hsum ltac:(done)). lia.
Qed.

Lemma validated_fits total l u : echo_headers_fit total l = Ok u ->
  echo_state_fits total l = true /\ Forall (fun h => ascii_lower h.1 ∉ kCredentialHeaders) l.
Proof.
  revert total; induction l as [|[name value] l IH]; intros total; cbn [echo_headers_fit echo_state_fits]; [done|].
  intros E. inv_res. destruct (IH _ H2) as [Hf Hc]. rewrite H0, H1. split; [done|].
  constructor; [|done]. by apply bool_decide_eq_false in H.
Qed.

Lemma validated_headers l u :
  validate_headers l allow_insecure_credentials secure_transport = Ok u ->
  Forall (fun h => h.1 <> [] /\ has_any (crlf ++ str ":") h.1 = false /\ has_any crlf h.2 = false /\
    (ascii_lower h.1 ∉ kReservedHeaders)) l.
Proof.
  induction l as [|[name value] l IH]; cbn [validate_headers]; [constructor|]. unfold validate_header. intros E. inv_res.
  constructor; [|by apply IH]. cbn [fst snd].
  apply orb_false_iff in H as [[Hn Hc]%orb_false_iff Hv]. apply bool_decide_eq_false in H1, Hn. done.
Qed.

Lemma validated_echo l u :
  validate_sticky_echo_headers l allow_insecure_credentials secure_transport = Ok u ->
  Forall replayable l /\ (length l <= 100)%nat /\ Z.of_nat (sum_list_with header_bytes l) <= 65536.
Proof.
  unfold validate_sticky_echo_headers. intros E. inv_res. apply validated_headers in H.
  destruct (validated_fits _ _ _ H1) as [Hf Hc]. destruct (fits_sum _ _ Hf) as [Hs Hsum]; [done|].
  apply Z.ltb_ge in H0. split; [|split; [lia|]].
  - rewrite !Forall_forall in *. intros h Hh. destruct (H h Hh) as (? & ? & ? & ?), (Hs h Hh). repeat split; by eauto.
  - destruct l; [done|]. by apply Hsum.
Qed.

Lemma entries_all (m : gmap bytes bytes) :
  Forall replayable (map_to_list m) <-> forall k v, m !! k = Some v -> replayable (k, v).
Proof.
  rewrite Forall_forall. split.
  - intros H k v Hk. by apply H, elem_of_map_to_list.
  - intros H [k v] Hk%elem_of_map_to_list. by apply H.
Qed.

Lemma staged_echo response method request_id headers echo echo' :
  Forall replayable (map_to_list echo) ->
  stage_echo allow_insecure_credentials secure_transport response method request_id headers echo = inr echo' ->
  Forall replayable (map_to_list echo').
Proof.
  revert echo; induction headers as [|[name value] headers IH]; intros echo Hall; cbn [stage_echo]; [by intros [= <-]|].
  destruct (negb _); [by apply IH|]. destruct (_ || _); [done|].
  set (replay := ascii_lower _). destruct (validate_sticky_echo_headers _ _ _) as [u|e] eqn:Ev; [|done].
  apply IH. apply validated_echo in Ev as (Hv & _). apply Forall_inv in Hv.
  rewrite entries_all in *. intros k v [[<- <-]|[_ [Hk _]%map_lookup_filter_Some]]%lookup_insert_Some; [done|by apply Hall].
Qed.

(** What a view goes through: commits of what responses said, [detach], [close]. *)
Inductive sticky_step : StickyState -> StickyState -> Prop :=
  | StepResponse response method request_id update session session' :
      stage_sticky_response allow_insecure_credentials secure_transport response session method request_id = inr update ->
      commit_sticky_response (rs_status response) update session = inr session' ->
      sticky_step session session'
  | StepDetach session : sticky_step session (sticky_detach session).2
  | StepClose locked session : sticky_step session (sticky_close locked session).2.

(** Nothing happens to a view that was given up. *)
Lemma given_up_stays session : rtc sticky_step given_up session -> session = given_up.
Proof.
  intros H. remember given_up as g eqn:Eg. induction H as [|s1 s2 s3 Hstep _ IH]; [done|]. subst s1.
  assert (s2 = given_up) as -> by (inversion Hstep as [? ? ? ? ? ? _ Ec| |]; subst; [discriminate Ec|done|done]).
  by apply IH.
Qed.

Lemma given_up_safe : sticky_safe given_up.
Proof. split_and!; [done|constructor|by apply Nat.le_0_l|done]. Qed.

Lemma staged_safe response method request_id session update :
  sticky_safe session ->
  stage_sticky_response allow_insecure_credentials secure_transport response session method request_id = inr update ->
  sticky_safe {| st_token := update.1; st_echo := update.2; st_closed := false |}.
Proof.
  intros (Ht & Hall & _). unfold stage_sticky_response. cbv zeta. set (token := header_value _ _).
  destruct (_ && _) eqn:Etok; [done|]. destruct (stage_echo _ _ _ _ _ _ _) as [e|echo] eqn:Ee; [done|].
  destruct (echo_state_fits _ _) eqn:Ef; [|done]. cbn [negb]. destruct (Z.ltb_spec 100 (Z.of_nat (size echo))); [done|].
  destruct (bool_decide (ascii_lower _ = _)); intros [= <-]; cbn [fst snd]; [exact given_up_safe|].
  destruct (fits_sum _ _ Ef) as [_ Hsum]; [done|]. rewrite (sum_list_perm _ _ (sorted_entries_perm echo)) in Hsum.
  split_and!; cbn [st_token st_echo]; [|by eapply staged_echo|lia|].
  - intros t. destruct (bool_decide_reflect (token = [])); [by apply Ht|]. intros [= <-]. cbn [negb andb] in Etok.
    apply orb_false_iff in Etok as [Hl%Z.ltb_ge Hc]. done.
  - destruct (map_to_list echo) eqn:E; [done|]. apply Hsum. intros E'. pose proof (sorted_entries_perm echo) as Hp.
    rewrite E', E in Hp. by apply Permutation_nil_cons in Hp.
Qed.
End safe.

(** C10: the routing state of a sticky session stays safe to send.  From a seed that was
    accepted, whatever responses arrive (whatever a server puts into their headers), and
    however the view is detached or closed in between: the token is absent or 1 to 8192
    characters without CR or LF; at most 100 headers are echoed, of at most 64 KiB
    together, each with a name and a value that can be sent as one header line, none
    that the transport owns, none that carries credentials (not even where they are
    allowed on plain HTTP).  And a view that was given up stays empty. *)
Theorem sticky_state_safe allow_insecure_credentials secure_transport token echo_headers seed session :
  new_sticky_session allow_insecure_credentials secure_transport token echo_headers = Ok seed ->
  rtc (sticky_step allow_insecure_credentials secure_transport) seed session ->
  sticky_safe session /\
  (forall session', rtc (sticky_step allow_insecure_credentials secure_transport) given_up session' -> session' = given_up).
Proof.
  intros Es Hsteps. split.
  - assert (sticky_safe seed) as Hseed.
    { unfold new_sticky_session in Es. inv_res. subst seed. apply validated_echo in H0 as (Hall & Hn & Hsum).
      pose proof (sorted_entries_perm echo_headers) as Hp.
      split_and!; cbn [st_token st_echo].
      - intros t ->. apply orb_false_iff in H as [[Hne%bool_decide_eq_false Hl%Z.ltb_ge]%orb_false_iff Hc]. done.
      - by rewrite <- Hp.
      - rewrite <- length_map_to_list, <- Hp. done.
      - by rewrite <- (sum_list_perm _ _ Hp). }
    clear Es. induction Hsteps as [|s1 s2 s3 Hstep _ IH]; [done|]. apply IH. clear IH.
    destruct Hstep as [response method rid update s s' Estage Ecommit|s|locked s]; [|exact given_up_safe|].
    + unfold commit_sticky_response in Ecommit. destruct (st_closed s); [done|]. injection Ecommit as <-.
      by eapply staged_safe.
    + unfold sticky_close. destruct (st_closed s); [done|]. destruct locked; [exact given_up_safe|done].
  - intros session'. apply given_up_stays.
Qed.

(** ** Witnesses *)

Definition rotating : HttpResponseHead :=
  {| rs_status := 200;
     rs_headers := fun name => if bool_decide (name = str "VGI-Session") then [str "t2"] else [];
     rs_fields := [(str "VGI-Session", str "t2"); (str "VGI-Echo-Fly-Instance", str "i1"); (str "X-Other", str "o");
                   (str "vgi-echo-fly-instance", str "i2")] |}.

Definition with_field (name value : bytes) : HttpResponseHead :=
  {| rs_status := 200; rs_headers := fun _ => []; rs_fields := [(name, value)] |}.

Definition opened : StickyState := {| st_token := Some (str "t1"); st_echo := ∅; st_closed := false |}.

(** Whether staging gives this update. *)
Definition stages (response : HttpResponseHead) (update : option bytes * gmap bytes bytes) : bool :=
  match stage_sticky_response true true response opened (str "m") (str "r") with
  | inr update' => bool_decide (update' = update)
  | inl _ => false
  end.

Lemma stages_update response update :
  stages response update = true ->
  stage_sticky_response true true response opened (str "m") (str "r") = inr update.
Proof. unfold stages. destruct (stage_sticky_response _ _ _ _ _ _); [done|]. by intros ->%bool_decide_eq_true. Qed.

(** The last value of a name is kept, under its lower-case spelling; a server can plant
    neither a credential nor a transport header, and a closing response leaves nothing. *)
Example staging_examples :
  let stage := stage_sticky_response true true in
  stages rotating (Some (str "t2"), {[ str "fly-instance" := str "i2" ]}) = true
  /\ stages (with_field (str "X") (str "v")) (Some (str "t1"), ∅) = true
  /\ match stage (with_field (str "VGI-Echo-Cookie") (str "v")) opened (str "m") (str "r") with
     | inl e => he_message e = str "server returned an invalid sticky echo header: credential-bearing sticky echo headers are forbidden: cookie"
     | inr _ => False
     end
  /\ match stage (with_field (str "VGI-Echo-Host") (str "v")) opened (str "m") (str "r") with inl _ => True | inr _ => False end.
Proof.
  split; [vm_compute; reflexivity|]. split; [vm_compute; reflexivity|]. split; [vm_compute; reflexivity|vm_compute; exact I].
Qed.

Lemma sticky_state_safe_witness :
  exists seed session,
    new_sticky_session true true (Some (str "t1")) ∅ = Ok seed /\
    session = {| st_token := Some (str "t2"); st_echo := {[ str "fly-instance" := str "i2" ]}; st_closed := false |} /\
    sticky_safe session.
Proof.
  exists opened, {| st_token := Some (str "t2"); st_echo := {[ str "fly-instance" := str "i2" ]}; st_closed := false |}.
  assert (new_sticky_session true true (Some (str "t1")) ∅ = Ok opened) as Es by reflexivity.
  split; [exact Es|]. split; [reflexivity|].
  refine (proj1 (sticky_state_safe true true (Some (str "t1")) ∅ opened _ Es _)).
  apply rtc_once. refine (StepResponse true true rotating (str "m") (str "r") (Some (str "t2"), {[ str "fly-instance" := str "i2" ]}) _ _ _ _).
  - apply stages_update. vm_compute. reflexivity.
  - reflexivity.
Defined.
