(* ===== verification/HttpClientCalls.v ===== *)
(** * A unary call over HTTP, from the handler to the client

    What the client's decoder makes of the body the server writes for a unary call: the
    logs, the result, the error. *)

From S2P Require Import Prelude Memory Arrow Json Crypto Grants Errors Session PeerIdentity FloatText.
From S2P Require Import IdentityInternal ProxyProof ProxyProtocol Shm ShmPointer Wire TokenIdentity Calls RequestParams.
From S2P Require Import ExternalUrl ClientExternal External ProtocolHash Reflection Server HttpRoute HttpAuth HttpReply CallState.
From S2P Require Import Dispatch Demo Serving Requests Client ClientCalls.
From S2P Require Import IdentityServer HttpTurn HttpRpc HttpDemo HttpLaws HttpCalls HttpClient.

(** A reader over the bytes of a written stream reads that stream, and is then at their end. *)
Class BodyStreams {arrow : Arrow} {streams : ArrowStreams} {buffers : BufferStreams} {ipc : IpcBytes} := {
  body_input s batches : Forall (fits s) batches ->
    input (buffer_reader (ipc_bytes (stream_messages s batches))) = stream_messages s batches;
  body_end bs w : input w = [] -> buffer_tell bs w = Some (blen bs);
}.

(** ** Reading a body *)

Section decoding.
Context {arrow : Arrow} {afields : ArrowFields} {streams : ArrowStreams} {kvm : KeyValueMetadata}
  {buffers : BufferStreams} {ipc : IpcBytes} {J : JsonText} {kvlaws : KeyValueMetadataLaws} {jlaws : JsonTextLaws}
  {body : BodyStreams} {S : Type} (on_log : option (AnnotatedBatch -> M S unit))
  (external : option (AnnotatedBatch -> M S (bytes + AnnotatedBatch))).

Fixpoint hand_over (batches : list AnnotatedBatch) : M S unit :=
  match batches with [] => mret tt | batch :: batches' => log_batch on_log batch;; hand_over batches' end.

(** The log handler does not throw. *)
Definition batches_taken : Prop := forall batch s, exists s', log_batch on_log batch s = (Done tt, s').

Lemma has_key md key :
  metadata_has (Some md) key = match find_value md key with Some _ => true | None => false end.
Proof.
  unfold metadata_has, find_value. by destruct (Z.leb_spec 0 (FindKey md key)), (Z.ltb_spec (FindKey md key) 0); try lia.
Qed.

Lemma and_then_done {A B} (m : M S (http_failure + A)) (k : A -> M S (http_failure + B)) s r s' :
  m s = (Done r, s') -> and_then m k s = match r with inl e => (Done (inl e), s') | inr a => k a s' end.
Proof. intros E. unfold and_then. rewrite (bind_done _ _ _ _ _ E). by destruct r. Qed.

Lemma log_entry_keys sid rid m key :
  key ∉ [LOG_LEVEL; LOG_MESSAGE; LOG_EXTRA; SERVER_ID; REQUEST_ID] -> find_value (log_entry sid rid m) key = None.
Proof.
  intros Hk. rewrite find_value_assoc by apply log_entry_NoDup. apply assoc_none. intros Hin. apply Hk. revert Hin.
  unfold log_entry, id_md, append_if, log_md, Append. rewrite !elem_of_cons.
  destruct (json_is_empty _), (nonempty sid), (nonempty rid); cbn; rewrite ?elem_of_cons; tauto.
Qed.

(** The text of an error of the worker. *)
Definition failure_text (failure : http_failure) : option bytes :=
  match failure with RpcRemoteError rx _ | HttpSessionLostError rx _ => Some (rx_message rx) | _ => None end.

(** The logs of a response go to the handler, in order. *)
Lemma response_logs response shape logs sid rid empty after data_ control saw s :
  batches_taken -> num_rows empty = 0 -> Forall (fun m => msg_level m <> LEVEL_EXCEPTION) logs ->
  exists s', hand_over (map (with_metadata empty) (map (log_entry sid rid) logs)) s = (Done tt, s') /\
    response_batches on_log external response shape
      (map (with_metadata empty) (map (log_entry sid rid) logs) ++ after) data_ control saw s =
    response_batches on_log external response shape after data_ control saw s'.
Proof.
  intros Ht He Hall. revert s. induction Hall as [|m logs Hm _ IH]; intros s; [by exists s|].
  set (entry := with_metadata empty (log_entry sid rid m)).
  destruct (Ht entry s) as [s1 E1]. destruct (IH s1) as (s' & Eh & E). exists s'.
  cbn [map hand_over app]. fold entry. split; [by rewrite (bind_done _ _ _ _ _ E1)|].
  cbn [response_batches]. rewrite (and_then_done _ _ s (inr entry) s); cycle 1.
  { unfold resolved_batch, entry. cbn [custom_metadata with_metadata]. rewrite has_key, log_entry_keys; [done|by apply (bool_decide_unpack _)]. }
  change (custom_metadata entry) with (Some (log_entry sid rid m)). change (ab_batch entry) with empty. cbv zeta.
  destruct (log_entry_values sid rid m) as (El & Em & _).
  rewrite !has_key, !get_metadata_value_find, El, Em, He. cbn [Z.eqb andb from_option id].
  rewrite bool_decide_false by (destruct (msg_level m); [done|by vm_compute..]).
  by rewrite (bind_done _ _ _ _ _ E1).
Qed.

(** A message of the level of an exception is the failure of the call. *)
Lemma response_exception response shape m sid rid empty after data_ control saw s :
  num_rows empty = 0 -> msg_level m = LEVEL_EXCEPTION ->
  exists failure, response_batches on_log external response shape
      (with_metadata empty (log_entry sid rid m) :: after) data_ control saw s = (Done (inl failure), s)
    /\ failure_text failure = Some (msg_message m).
Proof.
  intros He Hm. destruct (log_entry_values sid rid m) as (El & Em & _).
  exists (remote_error_of (with_metadata empty (log_entry sid rid m)) (br_status response)). split.
  - cbn [response_batches]. set (entry := with_metadata empty (log_entry sid rid m)).
    rewrite (and_then_done _ _ s (inr entry) s); cycle 1.
    { unfold resolved_batch, entry. cbn [custom_metadata with_metadata]. rewrite has_key, log_entry_keys; [done|by apply (bool_decide_unpack _)]. }
    change (custom_metadata entry) with (Some (log_entry sid rid m)). change (ab_batch entry) with empty. cbv zeta.
    rewrite !has_key, get_metadata_value_find, El, Em, He, Hm. cbn [Z.eqb andb from_option id].
    by rewrite bool_decide_true by reflexivity.
  - unfold remote_error_of. cbn [custom_metadata with_metadata]. cbv zeta. rewrite get_metadata_value_find, Em.
    by destruct (bool_decide _).
Qed.

(** The logs of a response, up to the one the client takes for an exception. *)
Lemma response_heard response shape logs sid rid empty after data_ control saw s :
  batches_taken -> num_rows empty = 0 ->
  exists s', hand_over (map (with_metadata empty) (map (log_entry sid rid) (heard logs).1)) s = (Done tt, s') /\
    match (heard logs).2 with
    | None =>
        response_batches on_log external response shape
          (map (with_metadata empty) (map (log_entry sid rid) logs) ++ after) data_ control saw s =
        response_batches on_log external response shape after data_ control saw s'
    | Some m => exists failure, failure_text failure = Some (msg_message m) /\
        response_batches on_log external response shape
          (map (with_metadata empty) (map (log_entry sid rid) logs) ++ after) data_ control saw s = (Done (inl failure), s')
    end.
Proof.
  intros Ht He. destruct (heard_parts logs) as [Hall Hparts]. destruct (heard logs) as [before [m|]]; cbn [fst snd] in *.
  - destruct Hparts as [Hm [rest ->]].
    destruct (response_logs response shape before sid rid empty
      (map (with_metadata empty) (map (log_entry sid rid) (m :: rest)) ++ after) data_ control saw s Ht He Hall)
      as (s' & Eh & E).
    destruct (response_exception response shape m sid rid empty
      (map (with_metadata empty) (map (log_entry sid rid) rest) ++ after) data_ control saw s' He Hm) as (failure & Ef & Htext).
    exists s'. split; [done|]. exists failure. split; [done|]. by rewrite !map_app, <- app_assoc, E.
  - subst before. by apply response_logs.
Qed.

(** A batch that is data whatever the shape of the response. *)
Definition plain_data (ab : AnnotatedBatch) : Prop :=
  let has := metadata_has (custom_metadata ab) in
  has LOCATION = false /\ has SHM_OFFSET = false /\ has STREAM_STATE = false /\ has STATE_B64 = false /\
  (num_rows (ab_batch ab) = 0 -> has LOG_LEVEL && has LOG_MESSAGE = false).

Lemma response_data response shape ab after data_ control saw s :
  plain_data ab ->
  response_batches on_log external response shape (ab :: after) data_ control saw s =
  response_batches on_log external response shape after (data_ ++ [ab]) control true s.
Proof.
  intros (Hl & Ho & Hs & Hc & Hlog). cbn [response_batches]. rewrite (and_then_done _ _ s (inr ab) s); cycle 1.
  { unfold resolved_batch. by rewrite Hl. }
  cbv beta zeta. rewrite Hl, Ho, Hs, Hc. cbn [andb].
  destruct (Z.eqb_spec (num_rows (ab_batch ab)) 0) as [Hz|]; cbn [andb]; [by rewrite (Hlog Hz)|done].
Qed.

(** The failure an error becomes. *)
Definition remote_failure (rx : RpcException) (status : Z) : http_failure :=
  if bool_decide (rx_exception_type rx = str "SessionLostError") then HttpSessionLostError rx status
  else RpcRemoteError rx status.

Lemma error_md_no_key m x sid rid c k d key :
  key ∉ [LOG_LEVEL; LOG_MESSAGE; LOG_EXTRA; SERVER_ID; REQUEST_ID; ERROR_CODE; ERROR_KIND; ERROR_DETAILS] ->
  find_value (error_md m x sid rid c k d) key = None.
Proof.
  intros Hk. rewrite find_value_assoc by apply error_md_NoDup. apply assoc_none. intros Hin. apply Hk. revert Hin.
  unfold error_md. rewrite !elem_of_cons.
  destruct (nonempty sid), (nonempty rid), (nonempty k), d; cbn; rewrite ?elem_of_cons; tauto.
Qed.

Lemma response_error response shape scope type message sid rid kind extras b md after data_ control saw s :
  canonical_json (ee_details extras) -> num_rows b = 0 ->
  make_error_metadata scope type message sid rid kind extras = Ok md ->
  exists rx, remote_error scope type message sid rid kind extras rx /\
    response_batches on_log external response shape (with_metadata b md :: after) data_ control saw s =
      (Done (inl (remote_failure rx (br_status response))), s).
Proof.
  intros Hc Hb E. exists (remote_exception (with_metadata b md)).
  split; [exact (proj2 (error_read _ _ _ _ _ _ _ b md Hc Hb E))|].
  destruct (make_error_metadata_parts _ _ _ _ _ _ _ _ E) as (st & sm & sk & stb & txt & E1 & E2 & E3 & E4 & Ed & ->).
  destruct (error_extra_parses st sm sk stb type kind extras txt Hc Ed) as (Hp & Ht & Hf).
  pose proof (error_md_level sm txt sid rid (error_code_text type kind extras) sk (encode_error_details (ee_details extras))) as El.
  pose proof (error_md_message sm txt sid rid (error_code_text type kind extras) sk (encode_error_details (ee_details extras))) as Em.
  set (md := error_md _ _ _ _ _ _ _) in *. cbn [response_batches].
  rewrite (and_then_done _ _ s (inr (with_metadata b md)) s); cycle 1.
  { unfold resolved_batch. cbn [custom_metadata with_metadata]. unfold md. rewrite has_key, error_md_no_key; [done|by apply (bool_decide_unpack _)]. }
  cbn [custom_metadata ab_batch with_metadata]. cbv zeta. rewrite !has_key, get_metadata_value_find, Hb, El, Em. cbn [Z.eqb andb].
  unfold remote_error_of, remote_failure, remote_exception. cbn [custom_metadata with_metadata].
  assert (extra_object (Some md) = extra_of st sm sk stb type kind extras) as ->.
  { unfold extra_object. rewrite get_metadata_value_find. unfold md. rewrite error_md_extra. cbn [from_option id].
    destruct txt; [done|]. by rewrite Hp. }
  rewrite Hf, !get_metadata_value_find. by rewrite Em.
Qed.

(** One stream with no header before it. *)
Lemma decode_one response shape s batches st :
  br_body response = ipc_bytes (stream_messages s batches) -> Forall (fits s) batches ->
  forall r st', response_batches on_log external response shape batches [] [] false st = (Done r, st') ->
  decode_response on_log external response shape false st =
  match r with
  | inl e => (Done (inl e), st')
  | inr (data_, control) =>
      if br_rpc_error response || (br_status response <? 200) || (300 <=? br_status response)
      then (Done (inl (HttpFailure (protocol_failure
              (if br_rpc_error response then str "worker set X-VGI-RPC-Error without an exception batch"
               else str "HTTP RPC response returned Arrow data with status " ++ to_string (br_status response))
              (br_status response)))), st')
      else (Done (inr {| dr_schema := Some s; dr_header := None; dr_data := data_; dr_control := control |}), st')
  end.
Proof.
  intros Eb Hf r st' E. unfold decode_response. rewrite Eb.
  set (w := buffer_reader _). rewrite (and_then_done _ _ st (inr (None, w)) st) by done. cbv beta iota.
  set (w' := with_input w [] true).
  rewrite (and_then_done _ _ st (inr (s, batches, w')) st); cycle 1.
  { unfold body_stream, read_body_stream. rewrite (read_ipc_stream_spec s batches []); [done|].
    rewrite app_nil_r. by apply body_input. }
  cbv beta iota. rewrite (and_then_done _ _ _ _ _ E). destruct r as [e|[data_ control]]; [done|].
  cbv beta iota. unfold checked_response. rewrite Eb, body_end by done. rewrite Z.eqb_refl. cbn [negb].
  destruct (br_rpc_error response); [done|]. cbn [orb]. by destruct (_ || _).
Qed.
End decoding.

(** ** Properties *)

Section properties.
Context {arrow : Arrow} {afields : ArrowFields} {columns : ArrowColumns} {types : ArrowTypes}
  {streams : ArrowStreams} {build_ : ArrowBuild} {ib : IdentityArrow} {kvm : KeyValueMetadata}
  {buffers : BufferStreams} {ipc : IpcBytes} {J : JsonText} {D : Digests} {aead : Aead}
  {compressor : ZstdCompressor} {gzip : GzipCompressor} {User : Type}
  {alaws : ArrowLaws} {slaws : ArrowStreamsLaws} {total : ArrowTotal} {kvlaws : KeyValueMetadataLaws}
  {jlaws : JsonTextLaws} {jtotal : JsonTextTotal} {bstreams : BodyStreams}.

Abbreviation app := (HttpApp User).
Abbreviation state := (HttpState app).

Definition http_traceback (srv : Server Caller app) (owner : ProtocolIdentity) (mi : @MethodInfo arrow Caller app)
    (e : exception) : bytes := traceback_for srv owner (mi_name mi) (exception_type_of e) (ex_what e).

(** What the client gets for what the handler did. *)
Definition decoded_outcome (pf : Platform) (srv : Server Caller app) (owner : ProtocolIdentity)
    (mi : @MethodInfo arrow Caller app) (w : World Caller app) (r : outcome Result)
    (answer : http_failure + DecodedResponse) : Prop :=
  match r, answer with
  | Done res, inr decoded =>
      decoded = {| dr_schema := Some (mi_result_schema mi); dr_header := None; dr_data := [batch_ res]; dr_control := [] |}
  | Raised e, inl failure => exists rx, failure = remote_failure rx 200 /\
      remote_error (current_scope srv w) (exception_type_of e) (ex_what e) (server_id_ srv) (pf_request_id pf)
        (error_kind_of e) (error_extras_of e (http_traceback srv owner mi e)) rx
  | _, _ => False
  end.

(** A result that is not published and has none of the transport's metadata, an error
    with details that are JSON. *)
Definition decodable (srv : Server Caller app) (owner : ProtocolIdentity) (mi : @MethodInfo arrow Caller app)
    (r : outcome Result) : Prop :=
  match r with
  | Done res => external_ref_ res = None /\ plain_data (batch_ res)
  | Raised e => canonical_json (ee_details (error_extras_of e (http_traceback srv owner mi e)))
  end.

(** The response to a unary call as the client's transport hands it over: the body
    before its content encoding. *)
Definition unary_response (r : outcome Result) (body : bytes) : BoundedHttpResponse :=
  {| br_status := 200; br_rpc_error := bool_decide (is_Some (raised r)); br_body := body |}.

(** C9: a unary call over HTTP, from the handler to the client.  When the body of the
    response is not moved to a storage (the call failed, or there is no storage, or the
    body is under the threshold) and is within the response's limit, the response has
    status 200, the error mark exactly when the handler threw, and that body (before its
    content encoding), one stream with the logs and then the result or the error.  From it every client whose log handler does not throw gets,
    through that handler and in order, the batches of what the handler logged, and then
    exactly what the handler did: a response with the batch it returned as its only data,
    no header, no control batch and the method's result schema, or a failure with the
    type, message, kind, code, details and traceback of what it threw and the ids of the
    server and the request, of the class for a lost session when it is one.  A message
    logged at the level EXCEPTION cuts this short: the client takes it for a failure of
    the call, with its text, and hands over only the batches before it.
    This is stated for a request whose sink has no message yet, for results of the
    method's schema that are not published to a storage and carry none of the transport's
    metadata, and for errors whose details are JSON that its own text gives back. *)
Theorem http_unary_decoded (http : HttpServer app) (srv : Server Caller app) env req mi q request ctx
    (s : state) logs r a empty :
  sink_wf (w_sink (h_world s)) -> buffered_ (w_sink (h_world s)) = [] -> result_typed mi r ->
  mi_handler mi request ctx (w_app (h_world s)) = (logs, r, a) ->
  make_empty_batch (mi_result_schema mi) = Ok empty ->
  let owner := sp_binding (rq_protocol q) in
  let sink := w_sink (h_world s) in
  decodable srv owner mi r ->
  exists s' last, unary_answer (http_platform env req) srv mi owner (set_call_shm false (h_world s)).2 r last
  /\ let body := ipc_bytes (stream_messages (mi_result_schema mi)
          (map (with_metadata empty) (map (log_entry (ls_server_id sink) (ls_request_id sink)) logs) ++ [last])) in
    (sent_inline http body \/ is_Some (raised r) -> exceeded (rq_response_limit q) body = None ->
     serve_unary_http http srv env req mi q request ctx s = (Done tt, s') /\ w_app (h_world s') = a
     /\ exists res, reply_status res = 200 /\ h_reply s' = set_arrow_content (cfg_ http) req body
          (set_header_if (bool_decide (is_Some (raised r))) RPC_ERROR_HEADER (str "true") res))
    /\ forall (S : Type) on_log external (u : S), batches_taken on_log ->
       exists u' answer,
         hand_over on_log (map (with_metadata empty) (map (log_entry (ls_server_id sink) (ls_request_id sink)) (heard logs).1)) u
           = (Done tt, u')
         /\ decode_response on_log external (unary_response r body) UNARY_RESPONSE false u = (Done answer, u')
         /\ match (heard logs).2 with
            | None => decoded_outcome (http_platform env req) srv owner mi (h_world s) r answer
            | Some m => exists failure, answer = inl failure /\ failure_text failure = Some (msg_message m)
            end.
Proof.
  intros Hs Hb0 Ht Eh Ee owner sink Hd.
  destruct (unary_body_built srv env req mi owner request ctx empty s logs r a Hs Ht Eh Ee)
    as (s1 & last & E & Hlast & Ha & _ & _ & _ & Hfit).
  rewrite emit_all_entries, Hb0 in E, Hfit. cbn [Datatypes.app] in E, Hfit. fold sink in E, Hfit.
  set (batches := map _ _ ++ [last]) in *. set (body := ipc_bytes (stream_messages _ batches)) in E.
  destruct (apply_sticky_done http s1) as (res & Es & _).
  exists (with_reply s1 (set_arrow_content (cfg_ http) req body
    (set_header_if (bool_decide (is_Some (raised r))) RPC_ERROR_HEADER (str "true") (set_status 200 res)))), last.
  split; [exact Hlast|]. cbv zeta. fold batches body. split.
  { intros Hin Hx. pose proof (unary_sends http srv env req mi q request ctx s s1 _ _ body res E Es) as Hsend.
    rewrite !bool_decide_eq_true, Hx in Hsend. split; [apply Hsend; tauto|]. split; [done|]. by exists (set_status 200 res). }
  intros S on_log external u Htaken. pose proof (make_empty_batch_ok _ _ Ee) as [Hrows _].
  destruct (response_heard on_log external (unary_response r body) UNARY_RESPONSE logs (ls_server_id sink)
    (ls_request_id sink) empty [last] [] [] false u Htaken Hrows) as (u' & Eu & El).
  pose proof (decode_one on_log external (unary_response r body) UNARY_RESPONSE _ batches u eq_refl Hfit) as Hdec.
  exists u'. destruct (heard logs).2 as [m|].
  { destruct El as (failure & Htext & El). rewrite (Hdec _ _ El). eexists. split; [exact Eu|]. split; [reflexivity|].
    by exists failure. }
  unfold batches in Hdec. rewrite El in Hdec. clear El. destruct r as [result|e]; cbn [decodable] in Hd.
  - destruct Hd as [Hpub Hplain]. cbn [unary_answer] in Hlast. rewrite Hpub in Hlast.
    rewrite Hlast in Hdec by (by right). rewrite response_data in Hdec by done.
    rewrite (Hdec _ _ eq_refl). by eexists.
  - destruct Hlast as (b & md & -> & Hb & Em). unfold make_exception_metadata in Em.
    destruct (response_error on_log external (unary_response (Raised e) body) UNARY_RESPONSE _ _ _ _ _ _ _ b md [] [] [] false u'
      Hd Hb Em) as (rx & Hrx & Er).
    rewrite (Hdec _ _ Er). eexists. split; [exact Eu|]. split; [reflexivity|]. by exists rx.
Qed.
End properties.

(** ** Witnesses *)

Import ToyArrow ToyStreams ToyTypes ToyBuild Json.ToyJson HttpToy.

(** Bytes that keep every message of a stream: the bits of a number that codes them. *)
Module BodyToy.

Definition coded : Type := bool + (bool * bytes * option (list (bytes * bytes)) + unit).

Definition code_message (m : message) : coded :=
  match m with
  | MsgSchema s => inl s
  | MsgBatch b md => inr (inl (toy_dictionary b, toy_data b, md))
  | _ => inr (inr tt)
  end.

Definition decode_message (c : coded) : message :=
  match c with
  | inl s => MsgSchema s
  | inr (inl (d, bs, md)) => MsgBatch {| toy_dictionary := d; toy_data := bs |} md
  | inr (inr _) => MsgEos
  end.

Fixpoint pos_bytes (p : positive) : bytes :=
  match p with xH => [] | xO p => x00 :: pos_bytes p | xI p => x01 :: pos_bytes p end.

Fixpoint bytes_pos (bs : bytes) : positive :=
  match bs with [] => xH | x00 :: bs => xO (bytes_pos bs) | _ :: bs => xI (bytes_pos bs) end.

Lemma pos_bytes_pos p : bytes_pos (pos_bytes p) = p.
Proof. by induction p as [p IH|p IH|]; cbn; rewrite ?IH. Qed.

#[export] Instance body_ipc : IpcBytes := fun ms => pos_bytes (encode (map code_message ms)).

#[export] Instance body_buffers : BufferStreams := {|
  buffer_reader bs := toy_wire (default [] (map decode_message <$> decode (bytes_pos bs)));
  buffer_tell bs _ := Some (blen bs); schema_equal_metadata s t := Bool.eqb s t;
|}.

#[export] Instance body_streams : BodyStreams.
Proof.
  split; [|done]. intros s batches _. unfold buffer_reader, body_buffers, ipc_bytes, body_ipc.
  rewrite pos_bytes_pos, decode_encode. cbn [fmap option_fmap option_map from_option id].
  unfold toy_wire. cbn [input]. rewrite map_map. unfold stream_messages. cbn [map decode_message code_message].
  f_equal. rewrite map_app, map_map. f_equal. apply map_ext. intros [[d bs] md]. reflexivity.
Qed.
End BodyToy.
Import BodyToy.

Section witnesses.
#[local] Existing Instances Toy.digests Toy.digest_laws Toy.aead Toy.aead_laws.

Definition keep_batch (batch : AnnotatedBatch) : M (list AnnotatedBatch) unit := modify (fun seen => seen ++ [batch]).

Definition unlimited_route : Routed :=
  {| rq_caller := rq_caller echo_routed; rq_aad := rq_aad echo_routed; rq_route := rq_route echo_routed;
     rq_protocol := rq_protocol echo_routed; rq_response_limit := None; rq_preferred := None |}.

Definition echo_context : CallContext Caller :=
  http_context http_demo_server (demo_env []) echo_head (anonymous, no_evidence) None None.

(** The demo server's [echo]: a client that keeps what it is handed gets one log and the
    batch. *)
Lemma http_unary_decoded_witness : exists mi s' body,
  find_http_method unlimited_route = Some mi
  /\ serve_unary_http demo_http http_demo_server (demo_env []) echo_head mi unlimited_route echo_request echo_context
       demo_start = (Done tt, s')
  /\ exists seen,
       decode_response (Some keep_batch) None (unary_response (Done (Result_value (toy_data_batch [x07]))) body)
         UNARY_RESPONSE false [] =
       (Done (inr {| dr_schema := Some toy_schema; dr_header := None; dr_data := [batch_ (Result_value (toy_data_batch [x07]))];
                     dr_control := [] |}), seen)
       /\ length seen = 1%nat.
Proof.
  destruct (find_http_method unlimited_route) as [mi|] eqn:Em; [|vm_compute in Em; discriminate Em].
  assert (exists a empty, mi_handler mi echo_request echo_context (w_app (h_world demo_start))
      = ([a_message (str "echoing")], Done (Result_value (toy_data_batch [x07])), a)
    /\ make_empty_batch (mi_result_schema mi) = Ok empty /\ mi_result_schema mi = toy_schema) as (a & empty & Eh & Ee & Esch).
  { vm_compute in Em. injection Em as <-. do 2 eexists. split_and!; vm_compute; reflexivity. }
  assert (result_typed mi (Done (Result_value (toy_data_batch [x07])))) as Ht by (intros _; rewrite Esch; reflexivity).
  destruct (http_unary_decoded demo_http http_demo_server (demo_env []) echo_head mi unlimited_route echo_request
    echo_context demo_start _ _ a empty (new_sink_wf _ _) eq_refl Ht Eh Ee) as (s' & last & _ & Hserve & Hdec);
    [by repeat split|].
  set (body := ipc_bytes _) in Hserve, Hdec.
  destruct Hserve as (E & _); [by left; left|reflexivity|].
  destruct (Hdec _ (Some keep_batch) None []) as (seen & answer & Eseen & Edec & Hout); [intros b l; by eexists|].
  cbn [heard a_message msg_level fst snd] in Eseen, Hout.
  exists mi, s', body. split; [done|]. split; [exact E|]. exists seen.
  destruct answer as [failure|decoded]; cbn [decoded_outcome] in Hout; [destruct Hout|]. rewrite Esch in Hout. subst decoded.
  split; [exact Edec|]. cbn in Eseen. by injection Eseen as <-.
Defined.
End witnesses.
