(* ===== verification/HttpTransport.v ===== *)
(** * Requests of the HTTP client (src/src/http_client.cpp)

    From a request body to the bounded response it is answered with: the limits a client
    is configured with, the headers of a request, a request and its answer, the retries,
    the discovery of the server's capabilities, [post].  [httplib::Client], the provider of
    HTTP over Iroh, the clock, the stop token and zstd are parameters.  Locks are not
    modelled (a client is used by one call at a time), nor SOCKS proxies and TLS options. *)

From S2P Require Import Prelude Json Crypto Grants Errors IdentityInternal ProxyProtocol Wire ExternalUrl ClientExternal.
From S2P Require Import HttpClient HttpSticky.

Declare Scope http_scope.
Delimit Scope http_scope with http.
Notation "x <~ m ; k" := (and_then m (fun x => k))
  (at level 20, m at level 100, k at level 200, right associativity) : http_scope.
Notation "' x <~ m ; k" := (and_then m (fun x : _ => k))
  (at level 20, x pattern, m at level 100, k at level 200, only parsing) : http_scope.
#[local] Open Scope http_scope.

(** ** The world of a client *)

Inductive TransportErrorKind := ErrorTimeout | ErrorConnectionTimeout | ErrorRead | ErrorWrite | ErrorSsl | ErrorOther.

Record WireRequest := {
  wr_method : bytes;
  wr_path : bytes;
  wr_headers : list (bytes * bytes);
  wr_body : bytes;
  (** [set_max_timeout]; 0 is none. *)
  wr_max_timeout : Z;
}.

(** What [Client::send] does: the head it gives to the response handler when one
    arrives, the pieces it gives to the content receiver, and its error. *)
Record WireAnswer := {
  wa_head : option HttpResponseHead;
  wa_chunks : list bytes;
  wa_error : option (TransportErrorKind * bytes);
}.

Inductive IrohErrorCategory :=
  | IROH_INVALID_INPUT | IROH_UNSUPPORTED | IROH_UNAVAILABLE | IROH_TIMEOUT | IROH_PROTOCOL | IROH_CONNECTION_RESET
  | IROH_CANCELLED | IROH_AUTHENTICATION | IROH_RESOURCE_EXHAUSTED | IROH_INTERNAL.

Record IrohHttpResponse := {
  ir_status : Z;
  ir_headers : list (bytes * bytes);
  ir_body : bytes;
  ir_remote_endpoint_id : bytes;
}.

Class HttpWire := {
  hnet : Type;
  (** [steady_clock::now], in nanoseconds. *)
  steady_now : hnet -> Z * hnet;
  stop_requested : hnet -> bool * hnet;
  client_send : WireRequest -> hnet -> WireAnswer * hnet;
  iroh_send : IrohEndpoint -> WireRequest -> hnet -> (IrohErrorCategory * bytes + IrohHttpResponse) * hnet;
  (** How often [wait_for_retry] sleeps before an attempt; the backoff is computed in doubles
      with a random jitter. *)
  retry_pauses : nat -> hnet -> nat * hnet;
  (** [random_hex(16)]. *)
  random_id : hnet -> bytes * hnet;
}.

(** A compressor of a body at a level: [None] or a text is an error.  A step takes the
    unread input and returns what it wrote, how much it read and what remains to be
    flushed. *)
Class ZstdEncoder := {
  ZSTD_CCtx : Type;
  ZSTD_createCCtx : option ZSTD_CCtx;
  ZSTD_configure : ZSTD_CCtx -> Z -> bytes + ZSTD_CCtx;
  ZSTD_pledge : ZSTD_CCtx -> Z -> bytes + ZSTD_CCtx;
  ZSTD_compressStream2 : ZSTD_CCtx -> bytes -> bytes + (bytes * nat * Z * ZSTD_CCtx);
  (** [ZSTD_getErrorName] of what [Zstd]'s operations fail with. *)
  ZSTD_window_error : bytes;
  ZSTD_stream_error : bytes;
}.

(** A step reads no more than it was given. *)
Class ZstdEncoderLaws `{ZstdEncoder} := {
  compress_reads ctx unread out n remaining ctx' :
    ZSTD_compressStream2 ctx unread = inr (out, n, remaining, ctx') -> (n <= length unread)%nat;
}.

(** ** Configuration *)

Record RetryPolicy := {
  max_attempts : nat;
  initial_backoff : Z;
  max_backoff : Z;
  (** Whether the multiplier is finite and positive, and the jitter between 0 and 1. *)
  multiplier_ok : bool;
  jitter_ok : bool;
  retryable_status_codes : list Z;
}.

Record HttpClientConfig := {
  hc_prefix : bytes;
  hc_protocol : bytes;
  hc_protocol_version : bytes;
  hc_max_request_bytes : Z;
  hc_max_response_bytes : Z;
  hc_max_encoded_response_bytes : Z;
  hc_max_decoded_response_bytes : Z;
  hc_accepted_max_response_bytes : Z;
  hc_allow_insecure_credentials : bool;
  (** A [std::map]. *)
  hc_headers : list (bytes * bytes);
  hc_compression_level : option Z;
  hc_retry_policy : RetryPolicy;
}.

Definition validate_retry_policy (policy : RetryPolicy) : res unit :=
  _ ← throw_if ((max_attempts policy =? 0)%nat || (initial_backoff policy <? 0) || (max_backoff policy <? 0)
                || negb (multiplier_ok policy) || negb (jitter_ok policy))
        (InvalidArgument (str "invalid HTTP retry policy"));
  throw_if (existsb (fun status => (status <? 100) || (599 <? status)) (retryable_status_codes policy))
    (InvalidArgument (str "HTTP retry status codes must be between 100 and 599")).

(** What a client keeps of its configuration: the limits it works with. *)
Record ClientLimits := {
  lim_encoded : Z;
  lim_decoded : Z;
  lim_advertised : Z;
}.

(** The constructor of the client's state, as far as the limits and headers go. *)
Definition client_limits (config : HttpClientConfig) (url : ParsedBaseUrl) : res ClientLimits :=
  _ ← throw_if ((hc_max_request_bytes config <=? 0) || (hc_max_response_bytes config <? 0)
                || (hc_max_encoded_response_bytes config <? 0) || (hc_max_decoded_response_bytes config <? 0))
        (InvalidArgument (str "HTTP client request and response caps must not be negative"));
  _ ← throw_if ((hc_max_response_bytes config =? 0) && (hc_max_encoded_response_bytes config =? 0))
        (InvalidArgument (str "HTTP client encoded response cap must not be unbounded"));
  _ ← validate_retry_policy (hc_retry_policy config);
  _ ← throw_if ((hc_accepted_max_response_bytes config <? Z.shiftl 64 10)
                || (kMaxSafeResponseBytes <? hc_accepted_max_response_bytes config))
        (InvalidArgument (str "accepted_max_response_bytes must be between 65536 and 9007199254740991"));
  _ ← throw_if ((0 <? hc_max_decoded_response_bytes config)
                && ((hc_max_decoded_response_bytes config <? Z.shiftl 64 10)
                    || (kMaxSafeResponseBytes <? hc_max_decoded_response_bytes config)))
        (InvalidArgument (str "max_decoded_response_bytes must be zero or between 65536 and 9007199254740991"));
  let encoded :=
    if 0 <? hc_max_encoded_response_bytes config then hc_max_encoded_response_bytes config
    else Z.max (hc_max_response_bytes config) (hc_accepted_max_response_bytes config) in
  let decoded :=
    if 0 <? hc_max_decoded_response_bytes config then hc_max_decoded_response_bytes config
    else hc_accepted_max_response_bytes config in
  let decoded := Z.min decoded (hc_accepted_max_response_bytes config) in
  _ ← throw_if (encoded <? Z.shiftl 64 10)
        (InvalidArgument (str "max_encoded_response_bytes must resolve to at least 65536 so the effective identity response budget is protocol-advertisable"));
  _ ← validate_headers (hc_headers config) (hc_allow_insecure_credentials config) (pb_secure url);
  _ ← throw_if (pb_has_userinfo url && negb (pb_secure url) && negb (hc_allow_insecure_credentials config))
        (InvalidArgument (str "credentials over plain HTTP require allow_insecure_credentials=true"));
  Ok {| lim_encoded := encoded; lim_decoded := decoded; lim_advertised := Z.min encoded decoded |}.

(** [CallOptions]; the stop token is part of the world. *)
Record CallOptions := {
  co_headers : list (bytes * bytes);
  co_deadline : option Z;
  co_request_id : option bytes;
  co_idempotent : bool;
}.

Definition new_CallOptions : CallOptions :=
  {| co_headers := []; co_deadline := None; co_request_id := None; co_idempotent := false |}.

(** ** Headers

    [httplib::Headers]: a multimap whose names compare without case. *)

Definition erase_header (headers : list (bytes * bytes)) (name : bytes) : list (bytes * bytes) :=
  filter (fun h : bytes * bytes => ascii_lower h.1 <> ascii_lower name) headers.

Definition emplace_header (headers : list (bytes * bytes)) (name value : bytes) : list (bytes * bytes) :=
  headers ++ [(name, value)].

Definition merge_headers (destination source : list (bytes * bytes)) : list (bytes * bytes) :=
  foldl (fun headers h => emplace_header (erase_header headers h.1) h.1 h.2) destination source.

(** The fields in the order of the multimap. *)
Fixpoint place_field (h : bytes * bytes) (fields : list (bytes * bytes)) : list (bytes * bytes) :=
  match fields with
  | [] => [h]
  | h' :: fields' => if bytes_ltb (ascii_lower h.1) (ascii_lower h'.1) then h :: fields else h' :: place_field h fields'
  end.

Definition response_head (status : Z) (headers : list (bytes * bytes)) : HttpResponseHead :=
  let fields := foldl (fun fields h => place_field h fields) [] headers in
  {| rs_status := status;
     rs_headers := fun name =>
       map snd (filter (fun h : bytes * bytes => ascii_lower h.1 = ascii_lower name) fields);
     rs_fields := fields |}.

(** ** zstd *)

Section zstd.
Context {zstd : Zstd} {encoder : ZstdEncoder}.

(** [None] is a loop that goes on past its fuel: every round that goes on reads or writes a
    byte, so the fuel is enough. *)
Fixpoint encode_loop (fuel : nat) (max_encoded_bytes : Z) (ctx : ZSTD_CCtx) (unread encoded : bytes)
    : option (HttpClientError + bytes) :=
  match fuel with
  | O => None
  | S fuel' =>
      match ZSTD_compressStream2 ctx unread with
      | inl error => Some (inl (protocol_failure (str "cannot compress HTTP RPC request: " ++ error) 0))
      | inr (out, n, remaining, ctx') =>
          if (max_encoded_bytes <? blen out) || (max_encoded_bytes - blen out <? blen encoded) then
            Some (inl (protocol_failure (str "encoded HTTP RPC request exceeds max_request_bytes ("
              ++ to_string max_encoded_bytes ++ str ")") 0))
          else
            let encoded := encoded ++ out in
            if bool_decide (out = []) && (n =? 0)%nat && negb (remaining =? 0) then
              Some (inl (protocol_failure (str "zstd request encoder made no progress") 0))
            else if negb (remaining =? 0) then encode_loop fuel' max_encoded_bytes ctx' (drop n unread) encoded
            else Some (inr encoded)
      end
  end.

Definition encode_zstd (body : bytes) (level max_encoded_bytes : Z) : option (HttpClientError + bytes) :=
  match ZSTD_createCCtx with
  | None => Some (inl (protocol_failure (str "cannot allocate zstd request encoder") 0))
  | Some ctx =>
      match ZSTD_configure ctx level with
      | inl error => Some (inl (protocol_failure (str "cannot configure zstd request encoder: " ++ error) 0))
      | inr ctx =>
          match ZSTD_pledge ctx (blen body) with
          | inl error => Some (inl (protocol_failure (str "cannot size zstd request input: " ++ error) 0))
          | inr ctx => encode_loop (S (length body + Z.to_nat max_encoded_bytes)) max_encoded_bytes ctx body []
          end
      end
  end.

Fixpoint decode_loop (fuel : nat) (max_decoded_bytes http_status : Z) (ctx : ZSTD_DCtx) (unread decoded : bytes)
    : option (HttpClientError + bytes) :=
  match fuel with
  | O => None
  | S fuel' =>
      match ZSTD_decompressStream ctx unread with
      | None =>
          Some (inl (protocol_failure (str "invalid zstd HTTP RPC response: " ++ ZSTD_stream_error) http_status))
      | Some (out, n, remaining, ctx') =>
          if (max_decoded_bytes <? blen out) || (max_decoded_bytes - blen out <? blen decoded) then
            Some (inl (protocol_failure (str "decoded HTTP RPC response exceeds max_decoded_response_bytes ("
              ++ to_string max_decoded_bytes ++ str ")") http_status))
          else
            let decoded := decoded ++ out in
            let unread := drop n unread in
            if bool_decide (out = []) && (n =? 0)%nat && negb (remaining =? 0) then
              Some (inl (protocol_failure (str "truncated zstd HTTP RPC response") http_status))
            else if bool_decide (unread <> []) || negb (remaining =? 0) then
              decode_loop fuel' max_decoded_bytes http_status ctx' unread decoded
            else Some (inr decoded)
      end
  end.

Definition decode_zstd (encoded : bytes) (max_decoded_bytes http_status : Z) : option (HttpClientError + bytes) :=
  match ZSTD_createDCtx with
  | None => Some (inl (protocol_failure (str "cannot allocate zstd response decoder") http_status))
  | Some ctx =>
      match ZSTD_setWindowLogMax ctx (zstd_window_log_for_limit max_decoded_bytes) with
      | None =>
          Some (inl (protocol_failure (str "cannot bound zstd response window: " ++ ZSTD_window_error) http_status))
      | Some ctx =>
          decode_loop (S (length encoded + Z.to_nat max_decoded_bytes)) max_decoded_bytes http_status ctx encoded []
      end
  end.
End zstd.

(** ** One request *)

Definition SUPPORT : bytes := kAcceptMaxResponseBytesSupportHeader.
Definition ARROW : bytes := str "application/vnd.apache.arrow.stream".

(** A response as [send_once] gives it: with what it needs to be judged by. *)
Record PostResponse := {
  pr_response : BoundedHttpResponse;
  pr_content_type : bytes;
  pr_www_authenticate : bytes;
  pr_retry_after : bytes;
  pr_auth_reason : bytes;
  pr_sticky_update : option (option bytes * gmap bytes bytes);
}.

Record HttpClientState `{HttpWire} := {
  hs_net : hnet;
  (** The requests made, and the status each was answered with; -1 is none. *)
  hs_sent : list (WireRequest * Z);
  hs_server_max_request_bytes : option Z;
  hs_send_compressed : bool;
  hs_capabilities_fetched : bool;
  hs_capabilities : HttpServerCapabilities;
  (** The session of the view a call is made through. *)
  hs_session : option StickyState;
}.

Section transport.
Context {wire : HttpWire} {zstd : Zstd} {encoder : ZstdEncoder}.
Context (config : HttpClientConfig) (url : ParsedBaseUrl) (limits : ClientLimits).

(** The credential callback: [inl] is the text of what it throws. *)
Context (auth_callback : option (bytes -> bytes -> bytes -> hnet -> (bytes + list (bytes * bytes)) * hnet)).

Abbreviation state := (HttpClientState).
Abbreviation H A := (M HttpClientState (http_failure + A)).

Definition net_op {A} (f : hnet -> A * hnet) : M state A := fun s =>
  let '(a, n) := f (hs_net s) in
  (Done a, Build_HttpClientState _ n (hs_sent s) (hs_server_max_request_bytes s) (hs_send_compressed s)
     (hs_capabilities_fetched s) (hs_capabilities s) (hs_session s)).

(** A request leaves, and is answered. *)
Definition exchange_op {A} (request : WireRequest) (status : A -> Z) (f : hnet -> A * hnet) : M state A := fun s =>
  let '(a, n) := f (hs_net s) in
  (Done a, Build_HttpClientState _ n (hs_sent s ++ [(request, status a)]) (hs_server_max_request_bytes s) (hs_send_compressed s)
     (hs_capabilities_fetched s) (hs_capabilities s) (hs_session s)).

Definition fail_kind {A} (kind : HttpClientErrorKind) (message : bytes) (status : Z) (method request_id : bytes) : H A :=
  fail_with (HttpFailure (client_error kind message status method request_id)).

Definition lift_zstd {A} (r : option (HttpClientError + A)) : H A :=
  match r with
  | Some (inr a) => mret (inr a)
  | Some (inl e) => fail_with (HttpFailure e)
  | None => raise (EOther [])
  end.

Definition ok {A} (m : M state A) : H A := a ← m; mret (inr a).

Definition deadline_expired (options : CallOptions) : M state bool :=
  match co_deadline options with
  | None => mret false
  | Some deadline => now ← net_op steady_now; mret (deadline <=? now)
  end.

Definition check_call_active (options : CallOptions) (method request_id : bytes) : H unit :=
  stopped ← net_op stop_requested;
  if (stopped : bool) then fail_kind CANCELLED (str "HTTP RPC call was cancelled") 0 method request_id
  else
    expired ← deadline_expired options;
    if (expired : bool) then fail_kind TIMEOUT (str "HTTP RPC call deadline exceeded") 0 method request_id else mret (inr tt).

Definition is_retryable_transport_error (kind : HttpClientErrorKind) : bool :=
  match kind with TRANSPORT | TIMEOUT => true | _ => false end.

Definition classify_transport_error (error : TransportErrorKind) (options : CallOptions) : M state HttpClientErrorKind :=
  stopped ← net_op stop_requested;
  if (stopped : bool) then mret CANCELLED
  else
    at_deadline ← match co_deadline options with
                  | None => mret false
                  | Some deadline => now ← net_op steady_now; mret (deadline <=? now + 2 * 1000000)
                  end;
    mret match error with
         | ErrorTimeout | ErrorConnectionTimeout => TIMEOUT
         | ErrorRead | ErrorWrite => if (at_deadline : bool) then TIMEOUT else if pb_secure url then TLS else TRANSPORT
         | ErrorSsl => if (at_deadline : bool) then TIMEOUT else TLS
         | ErrorOther => if (at_deadline : bool) then TIMEOUT else TRANSPORT
         end.

Definition contains_status (status : Z) : bool :=
  existsb (Z.eqb status) (retryable_status_codes (hc_retry_policy config)).

Fixpoint pause_checks (pauses : nat) (options : CallOptions) (method request_id : bytes) : H unit :=
  match pauses with
  | O => mret (inr tt)
  | S pauses' => _ <~ check_call_active options method request_id; pause_checks pauses' options method request_id
  end.

Definition wait_for_retry (attempt : nat) (options : CallOptions) (method request_id : bytes) : H unit :=
  pauses ← net_op (retry_pauses attempt);
  pause_checks pauses options method request_id.

Definition effective_decoded_response_limit : M state Z :=
  s ← (get : M state state);
  mret match caps_max_response_bytes (hs_capabilities s) with
       | Some limit => Z.min (lim_advertised limits) limit
       | None => lim_advertised limits
       end.

(** The milliseconds that are left, truncated. *)
Definition remaining_ms (options : CallOptions) : M state (option Z) :=
  match co_deadline options with
  | None => mret None
  | Some deadline => now ← net_op steady_now; mret (Some (Z.quot (deadline - now) 1000000))
  end.

(** *** HTTP over Iroh *)

Definition iroh_error_kind (category : IrohErrorCategory) : HttpClientErrorKind :=
  match category with
  | IROH_TIMEOUT => TIMEOUT
  | IROH_CANCELLED => CANCELLED
  | IROH_AUTHENTICATION => AUTHENTICATION
  | IROH_RESOURCE_EXHAUSTED => LIMIT
  | IROH_INVALID_INPUT | IROH_PROTOCOL => PROTOCOL_ERROR
  | _ => TRANSPORT
  end.

(** The headers of the provider's response, which count against 64 KiB. *)
Fixpoint check_iroh_headers (header_bytes status : Z) (method request_id : bytes) (headers : list (bytes * bytes))
    : option HttpClientError :=
  match headers with
  | [] => None
  | (name, value) :: headers' =>
      if bool_decide (name = []) || has_any (crlf ++ [x00]) name || has_any (crlf ++ [x00]) value then
        Some (client_error PROTOCOL_ERROR (str "HTTP-over-Iroh returned invalid headers") status method request_id)
      else if (64 * 1024 - header_bytes <? blen name) || (64 * 1024 - header_bytes - blen name <? blen value) then
        Some (client_error LIMIT (str "HTTP-over-Iroh response headers exceed 65536 bytes") status method request_id)
      else check_iroh_headers (header_bytes + (blen name + blen value)) status method request_id headers'
  end.

Definition send_iroh_request (endpoint : IrohEndpoint) (request : WireRequest) (options : CallOptions)
    (rpc_method request_id : bytes) : H (HttpResponseHead * bytes) :=
  answer ← exchange_op request (fun a => match a with inr native => ir_status native | inl _ => -1 end)
             (iroh_send endpoint request);
  match answer with
  | inl (category, what) =>
      expired ← deadline_expired options;
      if (expired : bool) then fail_kind TIMEOUT what 0 rpc_method request_id
      else
        stopped ← net_op stop_requested;
        fail_kind (if (stopped : bool) then CANCELLED else iroh_error_kind category) what 0 rpc_method request_id
  | inr native =>
      _ <~ check_call_active options rpc_method request_id;
      if negb (bool_decide (ir_remote_endpoint_id native = ie_endpoint_id endpoint)) then
        fail_kind AUTHENTICATION
          (str "HTTP-over-Iroh authenticated peer identity did not match the requested EndpointId") 0 rpc_method request_id
      else if (ir_status native <? 100) || (599 <? ir_status native) then
        fail_kind PROTOCOL_ERROR (str "HTTP-over-Iroh returned an invalid status code") 0 rpc_method request_id
      else if lim_encoded limits <? blen (ir_body native) then
        fail_kind LIMIT (str "HTTP-over-Iroh response exceeds max_encoded_response_bytes ("
          ++ to_string (lim_encoded limits) ++ str ")") 0 rpc_method request_id
      else
        match check_iroh_headers 0 (ir_status native) rpc_method request_id (ir_headers native) with
        | Some e => fail_with (HttpFailure e)
        | None => mret (inr (response_head (ir_status native) (ir_headers native), ir_body native))
        end
  end.

(** *** HTTP *)

Definition no_head : HttpResponseHead := {| rs_status := -1; rs_headers := fun _ => []; rs_fields := [] |}.

Definition content_encoding (response : HttpResponseHead) : bytes :=
  let encoding := header_value response (str "Content-Encoding") in
  let encoding := match encoding with [] => header_value response (str "X-VGI-Content-Encoding") | _ => encoding end in
  ascii_lower (trim_ascii encoding).

Definition is_identity (encoding : bytes) : bool :=
  bool_decide (encoding = []) || bool_decide (encoding = str "identity").

Definition supports_limits (response : HttpResponseHead) : bool :=
  (value_count response SUPPORT =? 1) && bool_decide (header_value response SUPPORT = str "true").

Definition unsupported_limits (response : HttpResponseHead) (method request_id : bytes) : HttpClientError :=
  client_error PROTOCOL_ERROR (str "HTTP RPC response does not advertise exactly one " ++ SUPPORT ++ str ": true")
    (rs_status response) method request_id.

(** The response handler: how many bytes of the body are received, and whether that is the
    limit on decoded bodies. *)
Definition handle_head (response : HttpResponseHead) (method request_id : bytes) : H (Z * bool) :=
  if negb (supports_limits response) then fail_with (HttpFailure (unsupported_limits response method request_id))
  else
    decoded_limit ← effective_decoded_response_limit;
    match strict_advertised_response_limit response method request_id with
    | inl e => fail_with (HttpFailure e)
    | inr current =>
        let decoded_limit := match current with Some current => Z.min decoded_limit current | None => decoded_limit end in
        if is_identity (content_encoding response) then
          let receive_limit := Z.min (lim_encoded limits) decoded_limit in
          mret (inr (receive_limit, receive_limit <? lim_encoded limits))
        else mret (inr (lim_encoded limits, false))
    end.

Definition send_http_request (request : WireRequest) (options : CallOptions) (method request_id : bytes)
    : H (HttpResponseHead * bytes) :=
  answer ← exchange_op request (fun a => rs_status (default no_head (wa_head a))) (client_send request);
  '(receive_limit, decoded_limit_applied) <~
    match wa_head answer with
    | Some head => handle_head head method request_id
    | None => mret (inr (lim_encoded limits, false))
    end;
  match receive_body receive_limit (wa_chunks answer) [] with
  | None =>
      fail_kind LIMIT
        (if decoded_limit_applied : bool
         then str "identity HTTP RPC response exceeds max_decoded_response_bytes (" ++ to_string receive_limit ++ str ")"
         else str "encoded HTTP RPC response exceeds max_encoded_response_bytes (" ++ to_string (lim_encoded limits) ++ str ")")
        0 method request_id
  | Some body =>
      match wa_error answer with
      | Some (error, text) =>
          kind ← classify_transport_error error options;
          fail_kind kind (str "HTTP RPC transport failed: " ++ text) 0 method request_id
      | None => mret (inr (default no_head (wa_head answer), body))
      end
  end.

(** *** A POST *)

Definition with_harvested (s : HttpClientState) (caps : HttpServerCapabilities) : HttpClientState :=
  Build_HttpClientState _ (hs_net s) (hs_sent s) (hs_server_max_request_bytes s) (hs_send_compressed s)
    (hs_capabilities_fetched s) caps (hs_session s).
Definition with_request_cap (s : HttpClientState) (cap : option Z) : HttpClientState :=
  Build_HttpClientState _ (hs_net s) (hs_sent s) cap (hs_send_compressed s) (hs_capabilities_fetched s)
    (hs_capabilities s) (hs_session s).
Definition with_compressed (s : HttpClientState) (b : bool) : HttpClientState :=
  Build_HttpClientState _ (hs_net s) (hs_sent s) (hs_server_max_request_bytes s) b (hs_capabilities_fetched s)
    (hs_capabilities s) (hs_session s).
Definition with_fetched (s : HttpClientState) : HttpClientState :=
  Build_HttpClientState _ (hs_net s) (hs_sent s) (hs_server_max_request_bytes s) (hs_send_compressed s) true
    (hs_capabilities s) (hs_session s).
Definition with_session (s : HttpClientState) (session : option StickyState) : HttpClientState :=
  Build_HttpClientState _ (hs_net s) (hs_sent s) (hs_server_max_request_bytes s) (hs_send_compressed s)
    (hs_capabilities_fetched s) (hs_capabilities s) session.

Definition session_headers (session : option StickyState) (headers : list (bytes * bytes)) : list (bytes * bytes) :=
  match session with
  | None => headers
  | Some session =>
      let headers := merge_headers headers (sorted_entries (st_echo session)) in
      let headers := emplace_header (erase_header headers (str "VGI-Session-Accept")) (str "VGI-Session-Accept") (str "true") in
      let headers := erase_header headers (str "VGI-Session") in
      match st_token session with Some token => emplace_header headers (str "VGI-Session") token | None => headers end
  end.

(** What the client, the credential callback, the call and the session ask for. *)
Definition caller_headers (auth_headers : list (bytes * bytes)) (options : CallOptions) (session : option StickyState)
    : list (bytes * bytes) :=
  session_headers session (merge_headers (merge_headers (merge_headers [] (hc_headers config)) auth_headers) (co_headers options)).

Definition post_headers (auth_headers : list (bytes * bytes)) (options : CallOptions) (session : option StickyState)
    (request_id : bytes) : list (bytes * bytes) :=
  caller_headers auth_headers options session
  ++ [(str "Accept-Encoding", str "zstd, identity"); (str "X-VGI-Accept-Encoding", str "zstd, identity");
      (str "VGI-Accept-Max-Response-Bytes", to_string (lim_advertised limits)); (str "X-Request-ID", request_id)].

(** [harvest_capabilities], and the server's cap on requests. *)
Definition harvest (response : HttpResponseHead) (method request_id : bytes) : H unit := fun s =>
  let '(error, caps) := harvest_capabilities response (hs_capabilities s) method request_id in
  let s := with_harvested s caps in
  match error with
  | Some e => (Done (inl (HttpFailure e)), s)
  | None =>
      (Done (inr tt), match caps_max_request_bytes caps with Some cap => with_request_cap s (Some cap) | None => s end)
  end.

Definition staged (response : HttpResponseHead) (method request_id : bytes) : H (option (option bytes * gmap bytes bytes)) :=
  s ← get;
  match hs_session s with
  | None => mret (inr None)
  | Some session =>
      match stage_sticky_response (hc_allow_insecure_credentials config) (pb_secure url) response session method request_id with
      | inl e => fail_with (HttpFailure e)
      | inr update => mret (inr (Some update))
      end
  end.

(** The body without its content encoding, within the limit. *)
Definition decoded_body (response : HttpResponseHead) (body method request_id : bytes) : H bytes :=
  let encoding := content_encoding response in
  decoded_limit ← effective_decoded_response_limit;
  if is_identity encoding then
    if decoded_limit <? blen body then
      fail_kind LIMIT (str "decoded HTTP RPC response exceeds max_decoded_response_bytes (" ++ to_string decoded_limit ++ str ")")
        (rs_status response) method request_id
    else mret (inr body)
  else if bool_decide (encoding = kZstd) then lift_zstd (decode_zstd body decoded_limit (rs_status response))
  else
    fail_kind PROTOCOL_ERROR (str "unsupported HTTP response Content-Encoding: " ++ encoding) (rs_status response) method request_id.

(** What is taken from an answer. *)
Definition receive_response (response : HttpResponseHead) (body method request_id : bytes) : H PostResponse :=
  if negb (supports_limits response) then fail_with (HttpFailure (unsupported_limits response method request_id))
  else
    update <~ staged response method request_id;
    _ <~ harvest response method request_id;
    _ <~ ok (if header_present response (str "VGI-Supported-Encodings")
                && negb (includes_encoding (header_value response (str "VGI-Supported-Encodings")) kZstd)
             then modify (fun s => with_compressed s false) else mret tt);
    body <~ decoded_body response body method request_id;
    mret (inr {| pr_response := {| br_status := rs_status response;
                                   br_rpc_error := bool_decide (header_value response (str "X-VGI-RPC-Error") = str "true");
                                   br_body := body |};
                 pr_content_type := header_value response (str "Content-Type");
                 pr_www_authenticate := header_value response (str "WWW-Authenticate");
                 pr_retry_after := header_value response (str "Retry-After");
                 pr_auth_reason := header_value response (str "VGI-Auth-Reason");
                 pr_sticky_update := update |}).

Definition send_once (method request_path body request_id : bytes) (options : CallOptions)
    (auth_headers : list (bytes * bytes)) (request_cap : Z) (compress : bool) : H PostResponse :=
  _ <~ check_call_active options method request_id;
  s <~ ok get;
  let headers := post_headers auth_headers options (hs_session s) request_id in
  payload <~ (if compress then lift_zstd (encode_zstd body (default 0 (hc_compression_level config)) request_cap)
              else mret (inr body));
  let headers := if compress then emplace_header headers (str "Content-Encoding") kZstd else headers in
  remaining <~ ok (remaining_ms options);
  _ <~ (match remaining with
        | Some remaining => if remaining <=? 0 then check_call_active options method request_id else mret (inr tt)
        | None => mret (inr tt)
        end);
  _ <~ check_call_active options method request_id;
  let headers := emplace_header headers (str "Content-Type") ARROW in
  let request := fun timeout =>
    {| wr_method := str "POST"; wr_path := request_path; wr_headers := headers; wr_body := payload;
       wr_max_timeout := timeout |} in
  '(response, body) <~
    match pb_iroh_endpoint url with
    | Some endpoint => send_iroh_request endpoint (request 0) options method request_id
    | None =>
        send_http_request (request (match remaining with Some remaining => Z.max 1 remaining | None => 0 end))
          options method request_id
    end;
  receive_response response body method request_id.

(** The attempts: [attempt] of [attempt + left]. *)
Fixpoint send_attempts (left attempt : nat) (method request_path body request_id : bytes) (options : CallOptions)
    (auth_headers : list (bytes * bytes)) (request_cap : Z) (compress : bool) : H PostResponse :=
  match left with
  | O => fail_kind TRANSPORT (str "HTTP RPC request exhausted retries") 0 method request_id
  | S left' =>
      let again := send_attempts left' (S attempt) method request_path body request_id options auth_headers request_cap compress in
      _ <~ (if (0 <? attempt)%nat then wait_for_retry attempt options method request_id else mret (inr tt));
      r ← send_once method request_path body request_id options auth_headers request_cap compress;
      match r with
      | inr response =>
          if negb (br_status (pr_response response) =? 415) && (0 <? left')%nat
             && contains_status (br_status (pr_response response))
          then again else mret (inr response)
      | inl (HttpFailure e) =>
          if (left' =? 0)%nat || negb (is_retryable_transport_error (he_kind e)) then mret (inl (HttpFailure e))
          else
            expired ← deadline_expired options;
            if (expired : bool) then mret (inl (HttpFailure e)) else again
      | inl e => mret (inl e)
      end
  end.

(** ** The server's capabilities *)

Definition credentials (method request_path request_id : bytes) : H (list (bytes * bytes)) :=
  match auth_callback with
  | None => mret (inr [])
  | Some callback =>
      r ← net_op (callback method request_path request_id);
      let failed_with what :=
        fail_kind AUTHENTICATION (str "HTTP credential callback failed: " ++ what) 0 method request_id in
      match r with
      | inl what => failed_with what
      | inr headers =>
          match validate_headers headers (hc_allow_insecure_credentials config) (pb_secure url) with
          | Throw e => failed_with (ex_what (exception_of e))
          | Ok _ => mret (inr headers)
          end
      end
  end.

Definition options_allowed (options : CallOptions) : H unit :=
  ok (lift (validate_headers (co_headers options) (hc_allow_insecure_credentials config) (pb_secure url))).

Definition session_open (method request_id : bytes) : H unit :=
  s ← get;
  match hs_session s with
  | Some session =>
      if st_closed session then
        fail_kind PROTOCOL_ERROR (str "HTTP sticky-session view is closed") 0 method request_id
      else mret (inr tt)
  | None => mret (inr tt)
  end.

Definition OPTIONS : bytes := str "OPTIONS".
Definition health_path : bytes := path (normalized_prefix (hc_prefix config)) (str "health") [].

(** Whether a failed attempt is followed by another. *)
Definition may_retry (left : nat) (options : CallOptions) : M state bool :=
  if (left =? 0)%nat then mret false
  else
    stopped ← net_op stop_requested;
    if (stopped : bool) then mret false else expired ← deadline_expired options; mret (negb expired).

(** One OPTIONS request: [None] is an attempt to be repeated. *)
Definition options_once (left : nat) (request : WireRequest) (options : CallOptions) (request_id : bytes)
    : H (option (HttpResponseHead * bytes)) :=
  match pb_iroh_endpoint url with
  | Some endpoint =>
      r ← send_iroh_request endpoint request options OPTIONS request_id;
      match r with
      | inr answer => mret (inr (Some answer))
      | inl (HttpFailure e) =>
          if is_retryable_transport_error (he_kind e) then
            again ← may_retry left options;
            mret (if again : bool then inr None else inl (HttpFailure e))
          else mret (inl (HttpFailure e))
      | inl e => mret (inl e)
      end
  | None =>
      answer ← exchange_op request (fun a => rs_status (default no_head (wa_head a))) (client_send request);
      match receive_body (lim_encoded limits) (wa_chunks answer) [] with
      | None =>
          fail_kind LIMIT (str "HTTP capability response exceeds max_encoded_response_bytes ("
            ++ to_string (lim_encoded limits) ++ str ")") 0 OPTIONS request_id
      | Some body =>
          match wa_error answer with
          | None => mret (inr (Some (default no_head (wa_head answer), body)))
          | Some (error, text) =>
              again ← may_retry left options;
              if (again : bool) then mret (inr None)
              else
                kind ← classify_transport_error error options;
                fail_kind kind (str "HTTP capability discovery failed: " ++ text) 0 OPTIONS request_id
          end
      end
  end.

Definition commit (response : HttpResponseHead) (update : option (option bytes * gmap bytes bytes)) (request_id : bytes)
    : H unit :=
  match update with
  | None => mret (inr tt)
  | Some (token, echo) =>
      s ← get;
      match hs_session s with
      | None => mret (inr tt)
      | Some session =>
          if st_closed session then
            fail_kind PROTOCOL_ERROR (str "HTTP sticky-session view was closed before response commit")
              (rs_status response) OPTIONS request_id
          else ok (modify (fun s => with_session s (Some {| st_token := token; st_echo := echo; st_closed := st_closed session |})))
      end
  end.

(** What is taken from the answer to OPTIONS; [false] is an attempt to be repeated. *)
Definition take_capabilities (left : nat) (response : HttpResponseHead) (body request_id : bytes) : H bool :=
  update <~ staged response OPTIONS request_id;
  let status := rs_status response in
  let value name := header_value response (str name) in
  if (status =? 401) || (status =? 403) then
    fail_with (authentication_error (str "HTTP capability authentication failed") status OPTIONS request_id body
      (value "WWW-Authenticate"%string) (value "Retry-After"%string) (value "VGI-Auth-Reason"%string))
  else if (status <? 200) || (300 <=? status) then
    if (0 <? left)%nat && contains_status status then mret (inr false)
    else
      fail_with (HttpFailure (new_HttpClientError HTTP_STATUS
        (str "HTTP capability discovery returned status " ++ to_string status) status OPTIONS request_id body
        (value "Retry-After"%string) (value "VGI-Auth-Reason"%string)))
  else
    _ <~ commit response update request_id;
    _ <~ ok (modify (fun s => with_harvested s new_HttpServerCapabilities));
    _ <~ harvest response OPTIONS request_id;
    _ <~ ok (modify (fun s =>
           if negb (includes_encoding_list (caps_supported_encodings (hs_capabilities s)) kZstd)
           then with_compressed s false else s));
    _ <~ ok (modify with_fetched);
    mret (inr true).

Fixpoint discover (left attempt : nat) (auth_headers : list (bytes * bytes)) (options : CallOptions) (request_id : bytes)
    : H HttpServerCapabilities :=
  match left with
  | O => fail_kind TRANSPORT (str "HTTP capability discovery exhausted retries") 0 OPTIONS request_id
  | S left' =>
      let again := discover left' (S attempt) auth_headers options request_id in
      _ <~ (if (0 <? attempt)%nat then wait_for_retry attempt options OPTIONS request_id else mret (inr tt));
      _ <~ check_call_active options OPTIONS request_id;
      s <~ ok get;
      let headers := caller_headers auth_headers options (hs_session s)
        ++ [(str "Accept-Encoding", str "identity");
            (str "VGI-Accept-Max-Response-Bytes", to_string (lim_advertised limits)); (str "X-Request-ID", request_id)] in
      remaining <~ ok (remaining_ms options);
      _ <~ check_call_active options OPTIONS request_id;
      let timeout := match pb_iroh_endpoint url, remaining with None, Some remaining => Z.max 1 remaining | _, _ => 0 end in
      answer <~ options_once left'
        {| wr_method := OPTIONS; wr_path := health_path; wr_headers := headers; wr_body := []; wr_max_timeout := timeout |}
        options request_id;
      match answer with
      | None => again
      | Some (response, body) =>
          taken <~ take_capabilities left' response body request_id;
          if (taken : bool) then s <~ ok get; mret (inr (hs_capabilities s)) else again
      end
  end.

Definition capabilities (request_id : bytes) (options : CallOptions) : H HttpServerCapabilities :=
  _ <~ check_call_active options OPTIONS request_id;
  auth_headers <~ credentials OPTIONS health_path request_id;
  _ <~ options_allowed options;
  _ <~ session_open OPTIONS request_id;
  s <~ ok get;
  if hs_capabilities_fetched s then mret (inr (hs_capabilities s))
  else discover (max_attempts (hc_retry_policy config)) 0 auth_headers options request_id.

(** ** Posting a request *)

(** The upload of a body that is too large, where external storage is configured: the body
    that stands for it. *)
Context (externalize_request : option (bytes -> CallOptions -> H bytes)).

Definition is_arrow (content_type : bytes) : bool := starts_with ARROW content_type.

(** Which responses are read as Arrow streams. *)
Definition judge_response (method request_id : bytes) (response : PostResponse) : http_failure + PostResponse :=
  let status := br_status (pr_response response) in
  let body := br_body (pr_response response) in
  if (status =? 401) || (status =? 403) then
    inl (authentication_error (str "HTTP RPC authentication failed with status " ++ to_string status) status method
           request_id body (pr_www_authenticate response) (pr_retry_after response) (pr_auth_reason response))
  else if (status <? 200) || (300 <=? status) then
    if (status =? 413) && bool_decide (is_Some externalize_request) then inr response
    else if is_arrow (pr_content_type response) then inr response
    else
      let detail := safe_error_detail body 512 in
      inl (HttpFailure (new_HttpClientError HTTP_STATUS
        (str "HTTP RPC request failed with status " ++ to_string status
         ++ match detail with [] => [] | _ => str ": " ++ detail end)
        status method request_id body (pr_retry_after response) (pr_auth_reason response)))
  else if negb (is_arrow (pr_content_type response)) then
    inl (HttpFailure (new_HttpClientError PROTOCOL_ERROR
      (str "HTTP RPC response has unsupported Content-Type: "
       ++ match pr_content_type response with [] => str "<missing>" | content_type => content_type end)
      status method request_id body [] []))
  else inr response.

Definition request_limit : M state Z :=
  s ← get;
  mret match hs_server_max_request_bytes s with
       | Some limit => if limit <? hc_max_request_bytes config then limit else hc_max_request_bytes config
       | None => hc_max_request_bytes config
       end.

Definition post_inline (method request_path body request_id : bytes) (options : CallOptions) (retryable : bool)
    : H PostResponse :=
  _ <~ check_call_active options method request_id;
  caps <~ capabilities request_id options;
  if negb (caps_accept_max_response_bytes_support caps) then
    fail_kind PROTOCOL_ERROR (str "server does not advertise " ++ SUPPORT ++ str ": true") 0 method request_id
  else
    auth_headers <~ credentials method request_path request_id;
    _ <~ options_allowed options;
    _ <~ session_open method request_id;
    _ <~ check_call_active options method request_id;
    request_cap <~ ok request_limit;
    if request_cap <? blen body then
      fail_kind LIMIT (str "HTTP RPC request exceeds max_request_bytes (" ++ to_string (blen body) ++ str " > "
        ++ to_string request_cap ++ str ")") 0 method request_id
    else
      let attempts := if retryable && co_idempotent options then max_attempts (hc_retry_policy config) else 1%nat in
      let send := send_attempts attempts 0 method request_path body request_id options auth_headers request_cap in
      s <~ ok get;
      let compressed_attempt := hs_send_compressed s in
      response <~ send compressed_attempt;
      response <~ (if (br_status (pr_response response) =? 415) && compressed_attempt then
                     _ <~ ok (modify (fun s => with_compressed s false));
                     send false
                   else mret (inr response));
      mret (judge_response method request_id response).

Definition post (method request_path body request_id : bytes) (options : CallOptions) (retryable : bool)
    : H PostResponse :=
  _ <~ capabilities request_id options;
  s <~ ok get;
  let caps := hs_capabilities s in
  let inline_cap := match caps_max_request_bytes caps with
                    | Some cap => Z.min (hc_max_request_bytes config) cap
                    | None => hc_max_request_bytes config
                    end in
  '(request_body, externalized) <~
    match externalize_request with
    | Some externalize =>
        if (inline_cap <? blen body) && caps_upload_url_support caps then
          body <~ externalize body options; mret (inr (body, true))
        else mret (inr (body, false))
    | None => mret (inr (body, false))
    end;
  response <~ post_inline method request_path request_body request_id options retryable;
  response <~
    match externalize_request with
    | Some externalize =>
        if (br_status (pr_response response) =? 413) && negb externalized then
          s <~ ok get;
          if caps_upload_url_support (hs_capabilities s) then
            request_body <~ externalize body options;
            post_inline method request_path request_body request_id options retryable
          else mret (inr response)
        else mret (inr response)
    | None => mret (inr response)
    end;
  if (br_status (pr_response response) =? 413) && negb (is_arrow (pr_content_type response)) then
    let detail := safe_error_detail (br_body (pr_response response)) 512 in
    fail_with (HttpFailure (new_HttpClientError HTTP_STATUS
      (str "HTTP RPC request failed with status 413" ++ match detail with [] => [] | _ => str ": " ++ detail end)
      413 method request_id (br_body (pr_response response)) (pr_retry_after response) (pr_auth_reason response)))
  else mret (inr response).
End transport.
