(* ===== verification/HttpPost.v ===== *)
(** * What the HTTP client sends

    How often a request may reach the server's application, what a call accepts as a
    response, and that the compressors' loops end. *)

From S2P Require Import Prelude Json Crypto Grants Errors IdentityInternal ProxyProtocol Wire ExternalUrl ClientExternal.
From S2P Require Import Shm ShmPointer Calls ProtocolHash Reflection Server Dispatch Admission HttpClient HttpSticky HttpTransport.

#[local] Open Scope http_scope.

Create HintDb quiet discriminated.

(** ** Successes *)

Lemma and_then_inr {S A B} (m : M S (http_failure + A)) (k : A -> M S (http_failure + B)) s b s' :
  and_then m k s = (Done (inr b), s') -> exists a s1, m s = (Done (inr a), s1) /\ k a s1 = (Done (inr b), s').
Proof.
  unfold and_then. intros ([e|a] & s1 & Em & Ek)%bind_done_inv; [by cbn in Ek|]. by exists a, s1.
Qed.

Lemma ok_inr {wire : HttpWire} {A} (m : M HttpClientState A) s a s' : ok m s = (Done (inr a), s') -> m s = (Done a, s').
Proof. unfold ok. by intros (x & s1 & Em & [= <- <-])%bind_done_inv. Qed.

(** Takes a successful computation apart. *)
Ltac inv_ok :=
  repeat match goal with
  | E : and_then _ _ _ = (Done (inr _), _) |- _ => apply and_then_inr in E as (? & ? & ? & E)
  | E : ok _ _ = (Done (inr _), _) |- _ => apply ok_inr in E
  | E : (_ ≫= _) _ = (Done _, _) |- _ => apply bind_done_inv in E as (? & ? & ? & E)
  | E : mret _ _ = (Done _, _) |- _ => injection E as E; subst
  | E : fail_kind _ _ _ _ _ _ = (Done (inr _), _) |- _ => discriminate E
  | E : fail_with _ _ = (Done (inr _), _) |- _ => discriminate E
  | E : inr _ = inr _ |- _ => injection E as E; subst
  | E : (if ?c then _ else _) _ = (Done (inr _), _) |- _ => let Ec := fresh "Ec" in destruct c eqn:Ec
  end.

Section posting.
Context {wire : HttpWire} {zstd : Zstd} {encoder : ZstdEncoder}.
Context (config : HttpClientConfig) (url : ParsedBaseUrl) (limits : ClientLimits).
Context (auth_callback : option (bytes -> bytes -> bytes -> hnet -> (bytes + list (bytes * bytes)) * hnet)).

Abbreviation state := (HttpClientState).
Abbreviation H A := (M HttpClientState (http_failure + A)).
Abbreviation entry := (WireRequest * Z)%type.

(** ** Requests made *)

(** The requests added satisfy [P]. *)
Definition grows (P : entry -> Prop) (s s' : state) : Prop := exists l, hs_sent s' = hs_sent s ++ l /\ Forall P l.

#[export] Instance grows_preorder P : PreOrder (grows P).
Proof.
  split.
  - intros s. exists []. by rewrite app_nil_r.
  - intros s1 s2 s3 (l1 & E1 & H1) (l2 & E2 & H2). exists (l1 ++ l2). rewrite E2, E1, app_assoc. split; [done|].
    by apply Forall_app.
Qed.

Lemma grows_same P (s s' : state) : hs_sent s' = hs_sent s -> grows P s s'.
Proof. intros E. exists []. by rewrite app_nil_r. Qed.

Lemma net_op_quiet {A} P (f : hnet -> A * hnet) : always (grows P) (net_op f).
Proof. intros s. apply grows_same. unfold net_op. by destruct (f (hs_net s)). Qed.

Lemma modify_quiet P (f : state -> state) : (forall s, hs_sent (f s) = hs_sent s) -> always (grows P) (modify f).
Proof. intros Hf. apply always_modify. intros s. by apply grows_same. Qed.

Lemma always_and_then {A B} (R : state -> state -> Prop) `{!PreOrder R} (m : H A) (k : A -> H B) :
  always R m -> (forall a, always R (k a)) -> always R (and_then m k).
Proof. intros Hm Hk. unfold and_then. apply always_bind; [done|done|]. intros [e|a]; [by apply always_ret|done]. Qed.

Lemma always_ok {A} (R : state -> state -> Prop) `{!PreOrder R} (m : M state A) : always R m -> always R (ok m).
Proof. intros Hm. unfold ok. apply always_bind; [done|done|]. intros a. by apply always_ret. Qed.

Ltac quiet_step :=
  match goal with
  | |- forall _, _ => intros ?
  | |- always _ (and_then _ _) => apply always_and_then; [typeclasses eauto| |]
  | |- always _ (ok _) => apply always_ok; [typeclasses eauto|]
  | |- always _ (mbind _ _) => apply always_bind; [typeclasses eauto| |]
  | |- always _ (fail_kind _ _ _ _ _) => apply always_ret; typeclasses eauto
  | |- always _ (fail_with _) => apply always_ret; typeclasses eauto
  | |- always _ (net_op _) => apply net_op_quiet
  | |- always _ (modify _) => apply modify_quiet; intros ?; repeat case_match; reflexivity
  | |- always _ (let _ := _ in _) => cbv zeta
  | |- always _ (match ?x with _ => _ end) => destruct x
  | |- always _ _ => solve [eauto 3 with frame quiet typeclass_instances]
  end.
Ltac quiet := repeat quiet_step.

Lemma deadline_expired_quiet P options : always (grows P) (deadline_expired options).
Proof. unfold deadline_expired. quiet. Qed.
#[local] Hint Resolve deadline_expired_quiet : quiet.

Lemma check_quiet P options method request_id : always (grows P) (check_call_active options method request_id).
Proof. unfold check_call_active. quiet. Qed.
#[local] Hint Resolve check_quiet : quiet.

Lemma pause_quiet P pauses options method request_id : always (grows P) (pause_checks pauses options method request_id).
Proof. induction pauses; cbn [pause_checks]; quiet. Qed.
#[local] Hint Resolve pause_quiet : quiet.

Lemma wait_quiet P attempt options method request_id : always (grows P) (wait_for_retry attempt options method request_id).
Proof. unfold wait_for_retry. quiet. Qed.

Lemma classify_quiet P error options : always (grows P) (classify_transport_error url error options).
Proof. unfold classify_transport_error. quiet. Qed.

Lemma limit_quiet P : always (grows P) (effective_decoded_response_limit limits).
Proof. unfold effective_decoded_response_limit. quiet. Qed.

Lemma remaining_quiet P options : always (grows P) (remaining_ms options).
Proof. unfold remaining_ms. quiet. Qed.

Lemma lift_zstd_quiet {A} P (r : option (HttpClientError + A)) : always (grows P) (lift_zstd r).
Proof. unfold lift_zstd. quiet. Qed.
#[local] Hint Resolve wait_quiet classify_quiet limit_quiet remaining_quiet lift_zstd_quiet : quiet.

Lemma staged_quiet P response method request_id : always (grows P) (staged config url response method request_id).
Proof. unfold staged. quiet. Qed.

Lemma harvest_quiet P response method request_id : always (grows P) (harvest response method request_id).
Proof.
  intros s. unfold harvest. destruct (harvest_capabilities _ _ _ _) as [[e|] caps]; apply grows_same; [done|].
  by destruct (caps_max_request_bytes caps).
Qed.

Lemma decoded_body_quiet P response body method request_id :
  always (grows P) (decoded_body limits response body method request_id).
Proof. unfold decoded_body. quiet. Qed.
#[local] Hint Resolve staged_quiet harvest_quiet decoded_body_quiet : quiet.

Lemma receive_quiet P response body method request_id :
  always (grows P) (receive_response config url limits response body method request_id).
Proof. unfold receive_response. quiet. Qed.

Lemma handle_head_quiet P response method request_id : always (grows P) (handle_head limits response method request_id).
Proof. unfold handle_head. quiet. Qed.

Lemma credentials_quiet P method request_path request_id :
  always (grows P) (credentials config url auth_callback method request_path request_id).
Proof. unfold credentials. quiet. Qed.

Lemma allowed_quiet P options : always (grows P) (options_allowed config url options).
Proof. unfold options_allowed. quiet. Qed.

Lemma session_open_quiet P method request_id : always (grows P) (session_open method request_id).
Proof. unfold session_open. quiet. Qed.

Lemma request_limit_quiet P : always (grows P) (request_limit config).
Proof. unfold request_limit. quiet. Qed.
#[local] Hint Resolve receive_quiet handle_head_quiet credentials_quiet allowed_quiet session_open_quiet request_limit_quiet : quiet.

(** *** Discovery sends OPTIONS *)

Lemma exchange_grows {A} (P : entry -> Prop) request status (f : hnet -> A * hnet) :
  (forall st, P (request, st)) -> always (grows P) (exchange_op request status f).
Proof.
  intros HP s. unfold exchange_op. destruct (f (hs_net s)) as [a n]. cbn [snd]. eexists. split; [done|]. by repeat constructor.
Qed.

Lemma iroh_grows (P : entry -> Prop) endpoint request options method request_id :
  (forall st, P (request, st)) -> always (grows P) (send_iroh_request limits endpoint request options method request_id).
Proof.
  intros HP. unfold send_iroh_request. apply always_bind; [typeclasses eauto|by apply exchange_grows|]. quiet.
Qed.

Definition discovering (e : entry) : Prop := wr_method e.1 = OPTIONS.

Lemma may_retry_quiet P left options : always (grows P) (may_retry left options).
Proof. unfold may_retry. quiet. Qed.

Lemma commit_quiet P response update request_id : always (grows P) (commit response update request_id).
Proof. unfold commit. quiet. Qed.
#[local] Hint Resolve may_retry_quiet commit_quiet : quiet.

Lemma options_once_grows left request options request_id :
  wr_method request = OPTIONS -> always (grows discovering) (options_once url limits left request options request_id).
Proof.
  intros Hm. unfold options_once. destruct (pb_iroh_endpoint url).
  - apply always_bind; [typeclasses eauto|by apply iroh_grows|]. quiet.
  - apply always_bind; [typeclasses eauto|by apply exchange_grows|]. quiet.
Qed.

Lemma take_quiet P left response body request_id :
  always (grows P) (take_capabilities config url left response body request_id).
Proof. unfold take_capabilities. quiet. Qed.
#[local] Hint Resolve take_quiet : quiet.

Lemma discover_grows left attempt auth_headers options request_id :
  always (grows discovering) (discover config url limits left attempt auth_headers options request_id).
Proof.
  revert attempt; induction left as [|left IH]; intros attempt; cbn [discover]; [quiet|]. cbv zeta.
  quiet; [|by apply IH..]. by apply options_once_grows.
Qed.

Lemma capabilities_grows request_id options :
  always (grows discovering) (capabilities config url limits auth_callback request_id options).
Proof. unfold capabilities. quiet. apply discover_grows. Qed.

(** ** One POST *)

Section request.
Context (method request_path request_id : bytes).

Definition posted (e : entry) : Prop := wr_method e.1 = str "POST" /\ wr_path e.1 = request_path.

#[export] Instance posted_decision e : Decision (posted e).
Proof. unfold posted. apply _. Defined.

Definition posts (l : list entry) : list entry := filter posted l.

(** Refused before it was dispatched: for its encoding, or for its size. *)
Definition turned_away (e : entry) : Prop := e.2 = 415 \/ e.2 = 413.

(** The request carries its id. *)
Definition identified (e : entry) : Prop := (str "X-Request-ID", request_id) ∈ wr_headers e.1.

(** Posts of which the last at most was not turned away; where there is a response, it
    answers the last. *)
Definition dispatched (answered : option Z) (ps : list entry) : Prop :=
  exists pre rest, ps = pre ++ rest /\ Forall turned_away pre /\ Forall identified ps /\
    match answered with
    | Some status => exists request, rest = [(request, status)]
    | None => (length rest <= 1)%nat
    end.

Lemma dispatched_none : dispatched None [].
Proof. exists [], []. split_and!; [done|constructor|constructor|cbn; lia]. Qed.

Lemma dispatched_unanswered answered ps : dispatched answered ps -> dispatched None ps.
Proof.
  intros (pre & rest & -> & Hp & Hi & Hr). exists pre, rest. split_and!; try done.
  destruct answered; [destruct Hr as [request ->]; cbn; lia|done].
Qed.

(** A response that turned the request away allows another. *)
Lemma dispatched_again status answered ps ps' :
  dispatched (Some status) ps -> status = 415 \/ status = 413 -> dispatched answered ps' -> dispatched answered (ps ++ ps').
Proof.
  intros (pre & rest & -> & Hp & Hi & request & ->) Hs (pre' & rest' & -> & Hp' & Hi' & Hr').
  exists ((pre ++ [(request, status)]) ++ pre'), rest'. rewrite !app_assoc. split_and!; [done| | |done].
  - repeat (apply Forall_app; split); try done. constructor; [|done]. unfold turned_away. cbn. destruct Hs as [->| ->]; tauto.
  - rewrite <- app_assoc. by apply Forall_app.
Qed.

Definition status_of {A} (f : A -> Z) (r : outcome (http_failure + A)) : option Z :=
  match r with Done (inr a) => Some (f a) | _ => None end.

(** Whatever [m] does, its posts satisfy [Q] for what it gives. *)
Definition sends {A} (Q : outcome (http_failure + A) -> list entry -> Prop) (m : H A) : Prop :=
  forall s, exists l, hs_sent (m s).2 = hs_sent s ++ l /\ Q (m s).1 (posts l).

Lemma posts_none l : Forall (fun e => ~ posted e) l -> posts l = [].
Proof.
  induction 1 as [|e l He _ IH]; [done|]. unfold posts. rewrite filter_cons_False by done. exact IH.
Qed.

(** Steps that post nothing. *)
Lemma sends_after {A B} (m : H A) (k : A -> H B) (Q : outcome (http_failure + B) -> list entry -> Prop) :
  always (grows (fun e => ~ posted e)) m -> (forall a, sends Q (k a)) ->
  (forall e, Q (Done (inl e)) []) -> (forall e, Q (Raised e) []) -> sends Q (and_then m k).
Proof.
  intros Hm Hk Hi Hr s. destruct (Hm s) as (l & E & Hl). apply posts_none in Hl. unfold and_then, mbind, M_bind.
  destruct (m s) as [[[e|a]|e] s1]; cbn [fst snd] in *.
  - exists l. split; [exact E|]. rewrite Hl. apply Hi.
  - destruct (Hk a s1) as (l' & E' & HQ). exists (l ++ l'). rewrite E', E, app_assoc. split; [done|].
    unfold posts in *. rewrite filter_app, Hl. exact HQ.
  - exists l. split; [exact E|]. rewrite Hl. apply Hr.
Qed.

(** Steps one after the other. *)
Lemma sends_and_then {A B} (m : H A) (k : A -> H B) Q (Q' : outcome (http_failure + B) -> list entry -> Prop) :
  sends Q m -> (forall a ps, Q (Done (inr a)) ps -> sends (fun r ps' => Q' r (ps ++ ps')) (k a)) ->
  (forall e ps, Q (Done (inl e)) ps -> Q' (Done (inl e)) ps) -> (forall e ps, Q (Raised e) ps -> Q' (Raised e) ps) ->
  sends Q' (and_then m k).
Proof.
  intros Hm Hk Hi Hr s. destruct (Hm s) as (l & E & HQ). unfold and_then, mbind, M_bind.
  destruct (m s) as [[[e|a]|e] s1]; cbn [fst snd] in *;
    [exists l; split; [exact E|by apply Hi]| |exists l; split; [exact E|by apply Hr]].
  destruct (Hk a _ HQ s1) as (l' & E' & HQ'). exists (l ++ l'). rewrite E', E, app_assoc. split; [done|].
  unfold posts. rewrite filter_app. exact HQ'.
Qed.

Lemma sends_mret {A} (Q : outcome (http_failure + A) -> list entry -> Prop) r : Q (Done r) [] -> sends Q (mret r).
Proof. intros HQ s. exists []. by rewrite app_nil_r. Qed.

Lemma sends_weaker {A} (Q Q' : outcome (http_failure + A) -> list entry -> Prop) m :
  sends Q m -> (forall r ps, Q r ps -> Q' r ps) -> sends Q' m.
Proof. intros Hm HQ s. destruct (Hm s) as (l & E & H). exists l. eauto. Qed.

Lemma sends_exchange {A B} request (status : A -> Z) (f : hnet -> A * hnet) (k : A -> H B) (g : B -> Z) :
  (forall st, posted (request, st)) -> (forall st, identified (request, st)) ->
  (forall a, always (grows (fun e => ~ posted e)) (k a)) ->
  (forall a s b s', k a s = (Done (inr b), s') -> g b = status a) ->
  sends (fun r ps => dispatched (status_of g r) ps) (exchange_op request status f ≫= k).
Proof.
  intros Hp Hi Hk Hg s. unfold mbind, M_bind, exchange_op. destruct (f (hs_net s)) as [a n]. cbv beta iota.
  set (s1 := Build_HttpClientState _ _ _ _ _ _ _ _). destruct (Hk a s1) as (l & E & Hl). apply posts_none in Hl.
  exists ((request, status a) :: l). rewrite E. unfold s1. cbn [hs_sent]. rewrite <- app_assoc. split; [done|].
  unfold posts in *. rewrite filter_cons_True, Hl by done. exists [], [(request, status a)]. split_and!; [done|done| |].
  - by repeat constructor.
  - fold s1. unfold status_of. destruct (k a s1) as [[[e|b]|e] s2] eqn:Ek; cbn [fst]; try (cbn; lia).
    exists request. by rewrite (Hg a s1 b s2).
Qed.

(** *** What comes with a success *)

Lemma send_iroh_sends endpoint request options rpc_method rid :
  (forall st, posted (request, st)) -> (forall st, identified (request, st)) ->
  sends (fun r ps => dispatched (status_of (fun a => rs_status a.1) r) ps)
    (send_iroh_request limits endpoint request options rpc_method rid).
Proof.
  intros Hp Hi. unfold send_iroh_request. apply sends_exchange; [done|done|by quiet|].
  intros [[category what]|native] s b s' E; inv_ok.
  destruct (check_iroh_headers _ _ _ _ _); inv_ok. done.
Qed.

Lemma send_http_sends request options rpc_method rid :
  (forall st, posted (request, st)) -> (forall st, identified (request, st)) ->
  sends (fun r ps => dispatched (status_of (fun a => rs_status a.1) r) ps)
    (send_http_request url limits request options rpc_method rid).
Proof.
  intros Hp Hi. unfold send_http_request. apply sends_exchange; [done|done|by quiet|].
  intros answer s b s' E. inv_ok.
  destruct x as [receive_limit applied]. destruct (receive_body _ _ _); [|inv_ok].
  destruct (wa_error answer) as [[error text]|]; inv_ok. done.
Qed.

(** A response keeps its status, and its body is within the limit. *)
Lemma receive_inr response body rpc_method rid s p s' :
  receive_response config url limits response body rpc_method rid s = (Done (inr p), s') ->
  br_status (pr_response p) = rs_status response.
Proof. unfold receive_response. intros E. inv_ok. done. Qed.

Lemma post_identified auth_headers options session body timeout more :
  identified ({| wr_method := str "POST"; wr_path := request_path;
                 wr_headers := post_headers config limits auth_headers options session request_id ++ more;
                 wr_body := body; wr_max_timeout := timeout |}, 0).
Proof.
  unfold identified, post_headers. cbn [fst wr_headers]. rewrite !elem_of_app. left. right.
  rewrite !elem_of_cons. tauto.
Qed.

Abbreviation answered r := (status_of (fun p => br_status (pr_response p)) r).

(** What a call posts. *)
Abbreviation posting := (sends (fun r ps => dispatched (answered r) ps)).

(** Steps before a request, and steps after a response. *)
Lemma posting_after {A} (m : H A) (k : A -> H PostResponse) :
  always (grows (fun e => ~ posted e)) m -> (forall a, posting (k a)) -> posting (and_then m k).
Proof. intros Hm Hk. apply sends_after; [done|done|intros e; apply dispatched_none..]. Qed.

Lemma posting_fail kind message status rpc_method rid : posting (fail_kind kind message status rpc_method rid).
Proof. apply sends_mret, dispatched_none. Qed.

Lemma send_once_posts body options auth_headers request_cap compress :
  posting (send_once config url limits method request_path body request_id options auth_headers request_cap compress).
Proof.
  unfold send_once. apply posting_after; [quiet|]. intros _. apply posting_after; [quiet|]. intros s. cbv zeta.
  apply posting_after; [quiet|]. intros payload. apply posting_after; [quiet|]. intros remaining.
  apply posting_after; [quiet|]. intros _. apply posting_after; [quiet|]. intros _.
  set (headers := emplace_header _ _ _).
  assert (forall timeout st, identified ({| wr_method := str "POST"; wr_path := request_path; wr_headers := headers;
      wr_body := payload; wr_max_timeout := timeout |}, st)) as Hid.
  { intros timeout st. unfold headers, emplace_header. destruct compress; rewrite <- ?app_assoc; apply (post_identified _ _ _ payload timeout). }
  eapply (sends_and_then _ _ (fun r ps => dispatched (status_of (fun a => rs_status a.1) r) ps)).
  - destruct (pb_iroh_endpoint url); [apply send_iroh_sends|apply send_http_sends]; try done; by intros.
  - intros [response body'] ps Hps. cbn [status_of fst] in Hps. intros s'.
    destruct (receive_quiet (fun e => ~ posted e) response body' method request_id s') as (l & E & Hl).
    exists l. split; [done|]. apply posts_none in Hl. rewrite Hl, app_nil_r.
    destruct (receive_response _ _ _ _ _ _ _ s') as [[[e|p]|e] s''] eqn:Er; cbn [fst status_of] in *;
      [by eapply dispatched_unanswered| |by eapply dispatched_unanswered].
    by rewrite (receive_inr _ _ _ _ _ _ _ Er).
  - intros e ps H. by eapply dispatched_unanswered.
  - intros e ps H. by eapply dispatched_unanswered.
Qed.

(** A single attempt is one request. *)
Lemma single_attempt body options auth_headers request_cap compress s :
  send_attempts config url limits 1 0 method request_path body request_id options auth_headers request_cap compress s =
  send_once config url limits method request_path body request_id options auth_headers request_cap compress s.
Proof.
  cbn [send_attempts]. unfold and_then at 1. rewrite (bind_done _ _ s (inr tt) s) by done.
  unfold mbind, M_bind. destruct (send_once _ _ _ _ _ _ _ _ _ _ _ s) as [[[[]|p]|e] s']; try done.
  cbn [Nat.ltb Nat.leb]. rewrite andb_false_r. done.
Qed.

(** *** A call *)

Context (externalize_request : option (bytes -> CallOptions -> H bytes)).

Lemma judged_same response p : judge_response externalize_request method request_id response = inr p -> p = response.
Proof. unfold judge_response. repeat case_match; by intros [= <-]. Qed.

Lemma capabilities_unposted options :
  always (grows (fun e => ~ posted e)) (capabilities config url limits auth_callback request_id options).
Proof.
  intros s. destruct (capabilities_grows request_id options s) as (l & E & Hl). exists l. split; [done|].
  eapply Forall_impl; [exact Hl|]. intros [request st] Ho [Hp _]. unfold discovering in Ho. cbn [fst] in *.
  rewrite Ho in Hp. by vm_compute in Hp.
Qed.

Lemma post_inline_posts body options retryable :
  retryable && co_idempotent options = false ->
  posting (post_inline config url limits auth_callback externalize_request method request_path body request_id options retryable).
Proof.
  intros Honce. unfold post_inline. rewrite Honce. apply posting_after; [quiet|]. intros _.
  apply posting_after; [apply capabilities_unposted|]. intros caps.
  destruct (negb (caps_accept_max_response_bytes_support caps)); [apply posting_fail|].
  apply posting_after; [quiet|]. intros auth_headers. do 3 (apply posting_after; [quiet|]; intros _).
  apply posting_after; [quiet|]. intros request_cap. destruct (request_cap <? blen body); [apply posting_fail|]. cbv zeta.
  apply posting_after; [quiet|]. intros s.
  assert (forall compress, posting (send_attempts config url limits 1 0 method request_path body request_id options
      auth_headers request_cap compress)) as Hsend.
  { intros compress s'. rewrite single_attempt. apply send_once_posts. }
  assert (forall p ps, dispatched (Some (br_status (pr_response p))) ps ->
      sends (fun r ps' => dispatched (answered r) (ps ++ ps')) (mret (judge_response externalize_request method request_id p))) as Hjudge.
  { intros p ps Hps. apply sends_mret. rewrite app_nil_r.
    destruct (judge_response _ _ _ p) as [e|p'] eqn:Ej; [by eapply dispatched_unanswered|].
    by rewrite (judged_same _ _ Ej). }
  eapply sends_and_then; [apply Hsend| |done|done]. intros p ps Hps.
  destruct ((br_status (pr_response p) =? 415) && hs_send_compressed s) eqn:E415.
  - apply andb_true_iff in E415 as [E415%Z.eqb_eq _].
    eapply (sends_and_then _ _ (fun r ps' => dispatched (answered r) (ps ++ ps'))).
    + eapply sends_after; [quiet| | |]; cbn [status_of]; try (intros; rewrite app_nil_r; exact (dispatched_unanswered _ _ Hps)).
      intros _. eapply sends_weaker; [apply Hsend|]. intros r ps' Hr. eapply dispatched_again; [exact Hps|by left|exact Hr].
    + intros p' ps' Hps'. eapply sends_weaker; [by apply (Hjudge p' (ps ++ ps'))|]. intros r ps''. by rewrite app_assoc.
    + done.
    + done.
  - eapply (sends_and_then _ _ (fun r ps' => dispatched (answered r) (ps ++ ps'))); [|..|done|done].
    + apply sends_mret. by rewrite app_nil_r.
    + intros p' ps' Hps'. eapply sends_weaker; [by apply (Hjudge p' (ps ++ ps'))|]. intros r ps''. by rewrite app_assoc.
Qed.

(** The upload of a body makes no request to the call's own path. *)
Definition uploads_elsewhere : Prop :=
  forall externalize, externalize_request = Some externalize ->
  forall body options, always (grows (fun e => ~ posted e)) (externalize body options).

(** After a response that refused the body for its size, the call is made once more at most. *)
Lemma repost_posts body options retryable externalized response ps :
  retryable && co_idempotent options = false -> uploads_elsewhere ->
  dispatched (Some (br_status (pr_response response))) ps ->
  sends (fun r ps' => dispatched (answered r) (ps ++ ps'))
    (match externalize_request with
     | Some externalize =>
         if (br_status (pr_response response) =? 413) && negb externalized then
           s <~ ok get;
           if caps_upload_url_support (hs_capabilities s) then
             request_body <~ externalize body options;
             post_inline config url limits auth_callback externalize_request method request_path request_body request_id options retryable
           else mret (inr response)
         else mret (inr response)
     | None => mret (inr response)
     end).
Proof.
  intros Honce Hup Hps. pose proof (dispatched_unanswered _ _ Hps) as Hnone.
  assert (sends (fun r ps' => dispatched (answered r) (ps ++ ps')) (mret (inr response) : H PostResponse)) as Hret
    by (apply sends_mret; by rewrite app_nil_r).
  destruct externalize_request as [externalize|] eqn:Ex; [|exact Hret]. rewrite <- Ex.
  destruct ((br_status (pr_response response) =? 413) && negb externalized) eqn:E413; [|exact Hret]. apply andb_true_iff in E413 as [E413%Z.eqb_eq _].
  apply sends_after; [quiet| |intros e; by rewrite app_nil_r..]. intros s. destruct (caps_upload_url_support _); [|exact Hret].
  apply sends_after; [by apply Hup| |intros e; by rewrite app_nil_r..]. intros request_body.
  eapply sends_weaker; [by apply post_inline_posts|]. intros r ps' Hr.
  eapply dispatched_again; [exact Hps|by right|exact Hr].
Qed.

Lemma post_posts body options retryable :
  retryable && co_idempotent options = false -> uploads_elsewhere ->
  posting (post config url limits auth_callback externalize_request method request_path body request_id options retryable).
Proof.
  intros Honce Hup. unfold post. apply posting_after; [apply capabilities_unposted|]. intros _.
  apply posting_after; [quiet|]. intros s. cbv zeta. apply posting_after.
  { destruct externalize_request as [externalize|] eqn:Ex; [|quiet]. destruct (_ && caps_upload_url_support _); [|quiet].
    apply always_and_then; [typeclasses eauto|by apply Hup|]. quiet. }
  intros [request_body externalized]. eapply sends_and_then; [exact (post_inline_posts request_body options retryable Honce)| |done|done]. intros response ps Hps.
  eapply sends_and_then; [exact (repost_posts body options retryable externalized response ps Honce Hup Hps)| |done|done]. intros p ps' Hps'. cbn [status_of] in Hps'.
  destruct (_ && negb (is_arrow _)); apply sends_mret; rewrite app_nil_r; [by eapply dispatched_unanswered|exact Hps'].
Qed.
End request.
End posting.

(** C6: a call is dispatched at most once.  Whatever the network, the server, the clock and the
    credential callback do, [post] for a call that may not be replayed (its operation is
    not idempotent, or it is an exchange turn) makes no second request to its path unless
    the server has turned the first away before dispatch, for its encoding (415) or its
    size (413); so at most one of the requests it makes may have run the operation, also
    when it fails or is cancelled.  Every such request carries the call's id, and a
    response that is returned is the answer to the last of them.  (All else it sends are
    the OPTIONS requests of discovery and the upload of a body.) *)
Theorem post_dispatched_once {wire : HttpWire} {zstd : Zstd} {encoder : ZstdEncoder} config url limits auth_callback
    externalize_request method request_path body request_id options retryable (s : HttpClientState) :
  retryable && co_idempotent options = false -> uploads_elsewhere request_path externalize_request ->
  let '(r, s') := post config url limits auth_callback externalize_request method request_path body request_id options retryable s in
  exists l, hs_sent s' = hs_sent s ++ l /\
    exists pre rest, posts request_path l = pre ++ rest /\
      Forall turned_away pre /\ Forall (identified request_id) (pre ++ rest) /\
      match r with
      | Done (inr response) => exists request, rest = [(request, br_status (pr_response response))]
      | _ => (length rest <= 1)%nat
      end.
Proof.
  intros Honce Hup.
  destruct (post_posts config url limits auth_callback method request_path request_id externalize_request body options retryable
    Honce Hup s) as (l & E & pre & rest & Ep & Hp & Hi & Hr).
  destruct (post _ _ _ _ _ _ _ _ _ _ _ s) as [r s']. cbn [fst snd] in *. exists l. split; [done|].
  exists pre, rest. rewrite Ep in Hi. split_and!; try done. by destruct r as [[e|p]|e].
Qed.

(** ** What a call accepts *)

Section zstd_loops.
Context {zstd : Zstd} {encoder : ZstdEncoder}.

(** The decoder of responses is the decoder of external payloads, but for its errors. *)
Lemma decode_loop_external fuel cap status ctx unread decoded :
  match decode_loop fuel cap status ctx unread decoded, zstd_loop fuel cap ctx unread decoded with
  | None, None | Some (inl _), Some (Throw _) => True
  | Some (inr a), Some (Ok b) => a = b
  | _, _ => False
  end.
Proof.
  revert ctx unread decoded; induction fuel as [|fuel IH]; intros ctx unread decoded; cbn [decode_loop zstd_loop]; [done|].
  destruct (ZSTD_decompressStream ctx unread) as [[[[out n] remaining] ctx']|]; [|done].
  destruct (_ || _); [done|]. cbv zeta. destruct (_ && _); [done|]. destruct (_ || _); [apply IH|done].
Qed.

Lemma decode_zstd_bounded body cap status decoded :
  decode_zstd body cap status = Some (inr decoded) -> blen decoded <= cap.
Proof.
  unfold decode_zstd. destruct ZSTD_createDCtx as [ctx|]; [|done]. destruct (ZSTD_setWindowLogMax _ _) as [ctx'|]; [|done].
  intros E. pose proof (decode_loop_external (S (length body + Z.to_nat cap)) cap status ctx' body []) as H.
  rewrite E in H. destruct (zstd_loop _ _ _ _ _) as [[b|]|] eqn:Ez; try done. subst b. by apply zstd_loop_bounded in Ez.
Qed.

Lemma decode_zstd_returns `{!ZstdLaws} body cap status : 0 <= cap -> decode_zstd body cap status <> None.
Proof.
  intros Hcap. unfold decode_zstd. destruct ZSTD_createDCtx as [ctx|]; [|done].
  destruct (ZSTD_setWindowLogMax _ _) as [ctx'|]; [|done].
  pose proof (decode_loop_external (S (length body + Z.to_nat cap)) cap status ctx' body []) as Hx.
  pose proof (zstd_loop_returns (S (length body + Z.to_nat cap)) cap ctx' body []) as Hr.
  destruct (decode_loop _ _ _ _ _ _); [done|]. destruct (zstd_loop _ _ _ _ _); [done|]. intros _.
  apply Hr; [done| |done]. rewrite Z.sub_0_r. lia.
Qed.

Lemma encode_loop_ends `{!ZstdEncoderLaws} fuel cap ctx unread encoded :
  blen encoded <= cap -> (length unread + Z.to_nat (cap - blen encoded) < fuel)%nat ->
  exists r, encode_loop fuel cap ctx unread encoded = Some r /\ forall bs, r = inr bs -> blen bs <= cap.
Proof.
  revert ctx unread encoded; induction fuel as [|fuel IH]; intros ctx unread encoded He Hf; [lia|]. cbn [encode_loop].
  destruct (ZSTD_compressStream2 ctx unread) as [text|[[[out n] remaining] ctx']] eqn:E; [by eexists|].
  pose proof (compress_reads _ _ _ _ _ _ E) as Hn. destruct (_ || _) eqn:Ec; [by eexists|]. bool_to_prop. cbv zeta.
  destruct (bool_decide (out = []) && (n =? 0)%nat && negb (remaining =? 0)) eqn:Es; [by eexists|].
  destruct (negb (remaining =? 0)) eqn:Er.
  - apply IH; rewrite length_app; [lia|]. rewrite length_drop. rewrite andb_true_r in Es.
    apply andb_false_iff in Es as [Es%bool_decide_eq_false|Es%Nat.eqb_neq]; [|lia]. destruct out; [done|]. cbn [length] in *. lia.
  - eexists. split; [done|]. intros bs [= <-]. rewrite length_app. lia.
Qed.

Lemma encode_zstd_ends `{!ZstdEncoderLaws} body level cap : 0 <= cap ->
  exists r, encode_zstd body level cap = Some r /\ forall bs, r = inr bs -> blen bs <= cap.
Proof.
  intros Hcap. unfold encode_zstd. destruct ZSTD_createCCtx as [ctx|]; [|by eexists].
  destruct (ZSTD_configure _ _); [by eexists|]. destruct (ZSTD_pledge _ _); [by eexists|].
  apply encode_loop_ends; [done|]. cbn [length]. lia.
Qed.
End zstd_loops.

Section accepting.
Context {wire : HttpWire} {zstd : Zstd} {encoder : ZstdEncoder}.
Context (config : HttpClientConfig) (url : ParsedBaseUrl) (limits : ClientLimits).
Context (auth_callback : option (bytes -> bytes -> bytes -> hnet -> (bytes + list (bytes * bytes)) * hnet)).
Context (externalize_request : option (bytes -> CallOptions -> M HttpClientState (http_failure + bytes))).

(** Small enough to be decoded. *)
Definition within_limit (response : PostResponse) : Prop := blen (br_body (pr_response response)) <= lim_advertised limits.

(** What [m] gives satisfies [P]. *)
Definition gives {A} (P : A -> Prop) (m : M HttpClientState (http_failure + A)) : Prop :=
  forall s a s', m s = (Done (inr a), s') -> P a.

Lemma gives_and_then {A B} (m : M HttpClientState (http_failure + A)) (k : A -> M HttpClientState (http_failure + B)) P :
  (forall a, gives P (k a)) -> gives P (and_then m k).
Proof. intros Hk s b s' (a & s1 & _ & E)%and_then_inr. by eapply Hk. Qed.

Lemma gives_ret {A} (P : A -> Prop) r : (forall a, r = inr a -> P a) -> gives P (mret r).
Proof. intros HP s a s' [= -> <-]. by apply HP. Qed.

Lemma effective_limit s x s' : effective_decoded_response_limit limits s = (Done x, s') -> x <= lim_advertised limits.
Proof. unfold effective_decoded_response_limit. intros E. inv_ok. destruct (caps_max_response_bytes _); lia. Qed.

Lemma decoded_body_limit response body method request_id :
  gives (fun body => blen body <= lim_advertised limits) (decoded_body limits response body method request_id).
Proof.
  intros s body' s' E. unfold decoded_body in E. inv_ok; apply effective_limit in H.
  - apply Z.ltb_ge in Ec0. lia.
  - destruct (decode_zstd body x (rs_status response)) as [[e|b]|] eqn:Ed; cbn [lift_zstd] in E; try discriminate E.
    injection E as -> ->. apply decode_zstd_bounded in Ed. lia.
Qed.

Lemma receive_limit response body method request_id :
  gives within_limit (receive_response config url limits response body method request_id).
Proof.
  unfold receive_response. destruct (negb _); [intros s a s' E; discriminate E|].
  do 3 (apply gives_and_then; intros ?). intros s p s' E. apply and_then_inr in E as (body' & s1 & Eb & E).
  injection E as <- <-. exact (decoded_body_limit _ _ _ _ _ _ _ Eb).
Qed.

Lemma send_once_limit method request_path body request_id options auth_headers cap compress :
  gives within_limit (send_once config url limits method request_path body request_id options auth_headers cap compress).
Proof.
  unfold send_once. do 6 (apply gives_and_then; intros ?). apply gives_and_then. intros [response body']. apply receive_limit.
Qed.

Lemma send_attempts_limit left attempt method request_path body request_id options auth_headers cap compress :
  gives within_limit (send_attempts config url limits left attempt method request_path body request_id options auth_headers cap compress).
Proof.
  revert attempt; induction left as [|left IH]; intros attempt; cbn [send_attempts]; [intros s a s' E; discriminate E|].
  apply gives_and_then. intros _ s p s' (r & s1 & Er & E)%bind_done_inv. destruct r as [[e| | |]|response]; try discriminate E.
  - destruct (_ || _); [discriminate E|]. apply bind_done_inv in E as (expired & s2 & _ & E). destruct expired; [discriminate E|].
    by eapply IH.
  - destruct (_ && _); [by eapply IH|]. injection E as <- <-. by eapply send_once_limit.
Qed.

Lemma post_inline_limit method request_path body request_id options retryable :
  gives within_limit
    (post_inline config url limits auth_callback externalize_request method request_path body request_id options retryable).
Proof.
  unfold post_inline. do 2 (apply gives_and_then; intros ?). destruct (negb _); [intros s p s' E; discriminate E|].
  do 5 (apply gives_and_then; intros ?). destruct (_ <? _); [intros s p s' E; discriminate E|]. cbv zeta.
  apply gives_and_then. intros s0 s p s' E. apply and_then_inr in E as (p1 & s1 & E1 & E).
  apply and_then_inr in E as (p2 & s2 & E2 & E). injection E as E <-. rewrite (judged_same _ _ _ _ _ E).
  destruct ((_ =? 415) && _); [apply and_then_inr in E2 as (u & s3 & _ & E2); by eapply send_attempts_limit|].
  injection E2 as <- <-. by eapply send_attempts_limit.
Qed.

Lemma post_limit method request_path body request_id options retryable :
  gives within_limit
    (post config url limits auth_callback externalize_request method request_path body request_id options retryable).
Proof.
  unfold post. do 2 (apply gives_and_then; intros ?). cbv zeta. apply gives_and_then. intros [request_body externalized] s p s' E.
  apply and_then_inr in E as (p1 & s1 & E1 & E). apply and_then_inr in E as (p2 & s2 & E2 & E).
  assert (within_limit p2) as H2.
  { pose proof (post_inline_limit _ _ _ _ _ _ _ _ _ E1) as H1.
    destruct externalize_request as [externalize|] eqn:Ex; [|by injection E2 as <- <-]. rewrite <- Ex in E2.
    destruct ((_ =? 413) && negb externalized); [|by injection E2 as <- <-]. apply and_then_inr in E2 as (s3 & s4 & _ & E2).
    destruct (caps_upload_url_support _); [|by injection E2 as <- <-]. apply and_then_inr in E2 as (b & s5 & _ & E2).
    exact (post_inline_limit _ _ _ _ _ _ _ _ _ E2). }
  destruct ((_ =? 413) && negb (is_arrow _)); [discriminate E|]. by injection E as <- <-.
Qed.
End accepting.

Lemma client_limits_range config url limits : client_limits config url = Ok limits ->
  65536 <= lim_advertised limits <= 9007199254740991 /\
  lim_advertised limits <= hc_accepted_max_response_bytes config.
Proof.
  unfold client_limits. cbv zeta. intros E. inv_res. subst limits. cbn [lim_advertised lim_encoded lim_decoded].
  bool_to_prop. unfold kMaxSafeResponseBytes in *. change (Z.shiftl 64 10) with 65536 in *.
  destruct (Z.ltb_spec 0 (hc_max_encoded_response_bytes config)), (Z.ltb_spec 0 (hc_max_decoded_response_bytes config));
    cbn [andb] in *; bool_to_prop; lia.
Qed.

(** C11: what a call accepts is within what it offered.  A client that was accepted
    advertises a limit between 64 KiB and 2^53 - 1 bytes, no more than it agreed to receive,
    whatever its other limits are; and a response that [post] returns, through whatever
    retries, compressed or not, has a body of at most that many bytes. *)
Theorem responses_within_limit {wire : HttpWire} {zstd : Zstd} {encoder : ZstdEncoder} config url limits auth_callback
    externalize_request method request_path body request_id options retryable (s s' : HttpClientState) response :
  client_limits config url = Ok limits ->
  post config url limits auth_callback externalize_request method request_path body request_id options retryable s
    = (Done (inr response), s') ->
  65536 <= lim_advertised limits <= 9007199254740991 /\
  lim_advertised limits <= hc_accepted_max_response_bytes config /\
  blen (br_body (pr_response response)) <= lim_advertised limits.
Proof.
  intros Hl Ep. destruct (client_limits_range _ _ _ Hl) as [Hr Hacc]. split; [exact Hr|]. split; [exact Hacc|].
  exact (post_limit config url limits auth_callback externalize_request _ _ _ _ _ _ _ _ _ Ep).
Qed.

(** The compressors' loops end.  Whatever body is compressed for a request or a
    response decompressed (a forged one that never stops growing included), the loop ends
    with a text or an error, and a text is within the limit, as long as a step of the
    codec reads no more than it was given and, with input left, reads or writes or
    wants more. *)
Theorem zstd_bodies_end {zstd : Zstd} {encoder : ZstdEncoder} {zlaws : ZstdLaws} {elaws : ZstdEncoderLaws}
    body level limit status : 0 <= limit ->
  match encode_zstd body level limit with
  | Some (inr encoded) => blen encoded <= limit
  | Some (inl _) => True
  | None => False
  end /\
  match decode_zstd body limit status with
  | Some (inr decoded) => blen decoded <= limit
  | Some (inl _) => True
  | None => False
  end.
Proof.
  intros Hl. split.
  - destruct (encode_zstd_ends body level limit Hl) as (r & -> & Hr). destruct r as [e|encoded]; [done|by apply Hr].
  - pose proof (decode_zstd_returns body limit status Hl) as Hd.
    destruct (decode_zstd body limit status) as [[e|decoded]|] eqn:E; [done|by eapply decode_zstd_bounded|done].
Qed.

(** ** Witnesses *)

(** A network that answers from a list, for a clock that stands still. *)
Module ToyWire.
Import ToyNetwork.

#[export] Instance wire : HttpWire := {|
  hnet := list WireAnswer; steady_now n := (0, n); stop_requested n := (false, n);
  client_send _ answers :=
    match answers with
    | [] => ({| wa_head := None; wa_chunks := []; wa_error := Some (ErrorRead, str "Failed to read connection") |}, [])
    | answer :: answers' => (answer, answers')
    end;
  iroh_send _ _ answers := (inl (IROH_UNAVAILABLE, str "no route"), answers);
  retry_pauses _ n := (1%nat, n); random_id n := (str "random", n);
|}.

#[export] Instance encoder : ZstdEncoder := {|
  ZSTD_CCtx := unit; ZSTD_createCCtx := Some tt; ZSTD_configure _ _ := inr tt; ZSTD_pledge _ _ := inr tt;
  ZSTD_compressStream2 _ unread := inr (unread, length unread, 0, tt);
  ZSTD_window_error := str "window"; ZSTD_stream_error := str "stream";
|}.

#[export] Instance encoder_laws : ZstdEncoderLaws.
Proof. split. intros [] u o n r [] [= <- <- <-]. done. Qed.

Definition answer (status : Z) (headers : list (bytes * bytes)) (body : bytes) : WireAnswer :=
  {| wa_head := Some (response_head status ((SUPPORT, str "true") :: headers)); wa_chunks := [body]; wa_error := None |}.

Definition arrow_type : bytes * bytes := (str "content-type", ARROW).

Definition toy_config : HttpClientConfig :=
  {| hc_prefix := str "vgi/"; hc_protocol := str "demo.v1"; hc_protocol_version := []; hc_max_request_bytes := 1000;
     hc_max_response_bytes := 100000; hc_max_encoded_response_bytes := 0; hc_max_decoded_response_bytes := 0;
     hc_accepted_max_response_bytes := 65536; hc_allow_insecure_credentials := false; hc_headers := [(str "X-Team", str "a")];
     hc_compression_level := Some 3;
     hc_retry_policy := {| max_attempts := 3; initial_backoff := 100; max_backoff := 1000; multiplier_ok := true;
                           jitter_ok := true; retryable_status_codes := [503] |} |}.

Definition toy_url : ParsedBaseUrl :=
  {| pb_value := str "https://h"; pb_secure := true; pb_has_userinfo := false; pb_iroh_endpoint := None |}.

Definition toy_limits : ClientLimits := {| lim_encoded := 100000; lim_decoded := 65536; lim_advertised := 65536 |}.

Definition client (answers : list WireAnswer) : HttpClientState :=
  Build_HttpClientState _ answers [] None true false new_HttpServerCapabilities None.

Definition demo_post (options : CallOptions) (retryable : bool) (answers : list WireAnswer)
    : outcome (http_failure + PostResponse) * HttpClientState :=
  post toy_config toy_url toy_limits None None (str "echo") (str "/vgi/demo.v1/echo") (str "body") (str "id") options
    retryable (client answers).

(** The statuses of the requests made, and what came back. *)
Definition demo_log (r : outcome (http_failure + PostResponse) * HttpClientState)
    : list (bytes * Z) * option (option (HttpClientErrorKind * bytes) * bytes) :=
  (map (fun e => (wr_method e.1, e.2)) (hs_sent r.2),
   match r.1 with
   | Done (inr p) => Some (None, br_body (pr_response p))
   | Done (inl (HttpFailure e)) => Some (Some (he_kind e, he_message e), [])
   | _ => None
   end).
End ToyWire.
Import ToyInet ToyNetwork ToyWire.

Definition idempotent : CallOptions :=
  {| co_headers := []; co_deadline := None; co_request_id := None; co_idempotent := true |}.

(** A compressed body that is refused is sent once more as it is; a lost answer is an
    error of a call that may not be replayed, and a retry of one that may. *)
Example post_examples :
  let lost := {| wa_head := None; wa_chunks := []; wa_error := Some (ErrorOther, str "lost") |} in
  demo_log (demo_post new_CallOptions true [answer 200 [] []; answer 415 [] []; answer 200 [arrow_type] (str "ok")])
    = ([(str "OPTIONS", 200); (str "POST", 415); (str "POST", 200)], Some (None, str "ok"))
  /\ demo_log (demo_post new_CallOptions true [answer 200 [] []; lost; answer 200 [arrow_type] (str "ok")])
    = ([(str "OPTIONS", 200); (str "POST", -1)], Some (Some (TRANSPORT, str "HTTP RPC transport failed: lost"), []))
  /\ demo_log (demo_post idempotent true [answer 200 [] []; lost; answer 503 [] []; answer 200 [arrow_type] (str "ok")])
    = ([(str "OPTIONS", 200); (str "POST", -1); (str "POST", 503); (str "POST", 200)], Some (None, str "ok"))
  /\ demo_log (demo_post idempotent false [answer 200 [] []; lost; answer 200 [arrow_type] (str "ok")])
    = ([(str "OPTIONS", 200); (str "POST", -1)], Some (Some (TRANSPORT, str "HTTP RPC transport failed: lost"), [])).
Proof. vm_compute. split; [reflexivity|]. split; [reflexivity|]. split; reflexivity. Qed.

Lemma post_dispatched_once_witness :
  let '(r, s') := demo_post new_CallOptions true [answer 200 [] []; answer 415 [] []; answer 200 [arrow_type] (str "ok")] in
  exists l, hs_sent s' = [] ++ l /\ length l = 3%nat /\
    exists pre rest, posts (str "/vgi/demo.v1/echo") l = pre ++ rest /\ Forall turned_away pre /\ length rest = 1%nat.
Proof.
  pose proof (post_dispatched_once toy_config toy_url toy_limits None None (str "echo") (str "/vgi/demo.v1/echo") (str "body")
    (str "id") new_CallOptions true (client [answer 200 [] []; answer 415 [] []; answer 200 [arrow_type] (str "ok")])
    eq_refl ltac:(intros externalize [=])) as H.
  unfold demo_post in *. destruct (post _ _ _ _ _ _ _ _ _ _ _ _) as [r s'] eqn:E.
  destruct H as (l & El & pre & rest & Ep & Hpre & _ & Hr).
  exists l. split; [exact El|]. split.
  { assert (length (hs_sent s') = 3%nat) as Hn by (apply (f_equal (fun x => length (hs_sent x.2))) in E; vm_compute in E; exact (eq_sym E)).
    rewrite El in Hn. exact Hn. }
  exists pre, rest. split; [exact Ep|]. split; [exact Hpre|].
  apply (f_equal (fun x => match x.1 with Done (inr _) => true | _ => false end)) in E. vm_compute in E.
  cbn [fst] in E. destruct r as [[e|p]|e]; try discriminate E. destruct Hr as [request ->]. reflexivity.
Defined.

Definition retried : list WireAnswer := [answer 200 [] []; answer 415 [] []; answer 200 [arrow_type] (str "ok")].

Lemma responses_within_limit_witness :
  match demo_post new_CallOptions true retried with
  | (Done (inr response), _) => br_body (pr_response response) = str "ok" /\ blen (br_body (pr_response response)) <= 65536
  | _ => False
  end.
Proof.
  assert (match demo_post new_CallOptions true retried with
          | (Done (inr response), _) => bool_decide (br_body (pr_response response) = str "ok")
          | _ => false
          end = true) as Hb by (vm_compute; reflexivity).
  assert (client_limits toy_config toy_url = Ok toy_limits) as Hl by (vm_compute; reflexivity).
  pose proof (fun s' response => responses_within_limit toy_config toy_url toy_limits None None (str "echo")
    (str "/vgi/demo.v1/echo") (str "body") (str "id") new_CallOptions true (client retried) s' response Hl) as H.
  unfold demo_post in *. destruct (post _ _ _ _ _ _ _ _ _ _ _ _) as [[[e|response]|e] s'];
    [discriminate Hb| |discriminate Hb].
  split; [exact (proj1 (bool_decide_eq_true _) Hb)|]. exact (proj2 (proj2 (H s' response eq_refl))).
Defined.

Lemma zstd_bodies_end_witness :
  match encode_zstd (str "body") 3 1000 with Some (inr encoded) => encoded = str "body" /\ blen encoded <= 1000 | _ => False end.
Proof.
  pose proof (proj1 (zstd_bodies_end (str "body") 3 1000 200 ltac:(lia))) as H.
  destruct (encode_zstd (str "body") 3 1000) as [[e|encoded]|] eqn:E; [vm_compute in E; discriminate E| |destruct H].
  split; [vm_compute in E; by injection E as <-|exact H].
Defined.
