(* ===== verification/HttpSessions.v ===== *)
(** * Calls, exchanges and streams of the HTTP client (src/src/http_client.cpp)

    Over [post] and [decode_response]: the encoding of a request, the decoding of a
    response with the commit of a sticky session, [HttpClient::call] and the calls to
    reflection, [HttpExchangeSession] and [HttpStreamSession].  A session is an object
    beside the client's state, so its operations run on the pair of them.  The checks for
    moved-from objects and null batches are left out. *)

From S2P Require Import Prelude Memory Arrow Json Crypto Grants Errors IdentityInternal ProxyProtocol Shm ShmPointer Wire Calls.
From S2P Require Import ExternalUrl ClientExternal External ProtocolHash Reflection Server Dispatch Serving Admission.
From S2P Require Import Client ClientDescription HttpClient HttpSticky HttpTransport HttpPost.

#[local] Open Scope http_scope.

Inductive HttpStreamKind := PRODUCER | EXCHANGE.

#[export] Instance HttpStreamKind_eq_decision : EqDecision HttpStreamKind.
Proof. solve_decision. Defined.

(** [ReflectionNotSupportedError] is an [RpcRemoteError] of its own class. *)
Inductive reflection_failure :=
  | CallFailed (e : http_failure)
  | HttpReflectionNotSupported (rx : RpcException) (http_status : Z).

Section client.
Context {arrow : Arrow} {afields : ArrowFields} {streams : ArrowStreams} {kvm : KeyValueMetadata}
  {buffers : BufferStreams} {ipc : IpcBytes} {J : JsonText} {http : HttpWire} {zstd : Zstd} {encoder : ZstdEncoder}.
Context (config : HttpClientConfig) (url : ParsedBaseUrl) (limits : ClientLimits).
Context (auth_callback : option (bytes -> bytes -> bytes -> hnet -> (bytes + list (bytes * bytes)) * hnet)).
Context (externalize_request : option (bytes -> CallOptions -> M HttpClientState (http_failure + bytes))).
Context (external_max_upload_bytes : Z).
Context (on_log : option (AnnotatedBatch -> M HttpClientState unit))
  (external : option (AnnotatedBatch -> M HttpClientState (bytes + AnnotatedBatch))).

Abbreviation state := (HttpClientState).
Abbreviation H A := (M HttpClientState (http_failure + A)).

(** ** Requests and responses *)

Definition request_serialization_cap : M state Z :=
  s ← get;
  let limit := hc_max_request_bytes config in
  let limit := match externalize_request with Some _ => Z.max limit external_max_upload_bytes | None => limit end in
  mret match caps_max_upload_bytes (hs_capabilities s) with Some cap => Z.min limit cap | None => limit end.

(** Written once to be counted, and once more into the body. *)
Definition encode_ipc (batch : RecordBatch) (md : kv_list) (max_request_bytes : Z) : H bytes :=
  let write := to_buffer (write_ipc_stream (schema batch) [with_metadata batch md]) in
  counted ← write;
  if max_request_bytes <? blen counted then
    fail_with (HttpFailure (protocol_failure (str "HTTP RPC request exceeds max_request_bytes (" ++ to_string (blen counted)
      ++ str " > " ++ to_string max_request_bytes ++ str ")") 0))
  else output ← write; mret (inr output).

Definition encode_request (batch : RecordBatch) (md : kv_list) : H bytes :=
  cap ← request_serialization_cap;
  encode_ipc batch md cap.

(** What a response says of the sticky session is kept once it is known to be whole. *)
Definition commit_response (response : PostResponse) : H unit :=
  s ← get;
  match hs_session s, pr_sticky_update response with
  | Some session, Some update =>
      match commit_sticky_response (br_status (pr_response response)) update session with
      | inl e => fail_with (HttpFailure e)
      | inr session => ok (modify (fun s => with_session s (Some session)))
      end
  | _, _ => mret (inr tt)
  end.

Definition decode (response : PostResponse) (shape : ResponseShape) (has_header : bool) : H DecodedResponse :=
  s ← get;
  if match hs_session s with Some session => st_closed session | None => false end then
    fail_kind PROTOCOL_ERROR (str "HTTP sticky-session view was closed before response commit")
      (br_status (pr_response response)) [] []
  else
    r ← decode_response on_log external (pr_response response) shape has_header;
    match r with
    | inr decoded => _ <~ commit_response response; mret (inr decoded)
    | inl (RpcRemoteError _ _ as e) | inl (HttpSessionLostError _ _ as e) =>
        _ <~ commit_response response; mret (inl e)
    | inl e => mret (inl e)
    end.

Definition request_id_of (options : CallOptions) : M state bytes :=
  random ← (match co_request_id options with None => net_op random_id | Some _ => mret [] end);
  lift (logical_request_id (co_request_id options) random).

Definition prefix : bytes := normalized_prefix (hc_prefix config).

Definition stripped (batch : AnnotatedBatch) : AnnotatedBatch :=
  {| ab_batch := ab_batch batch; custom_metadata := strip_transport_metadata (custom_metadata batch) |}.

Definition client_failure {S A} (message : bytes) : M S (http_failure + A) :=
  fail_with (HttpFailure (protocol_failure message 0)).

(** ** Calls *)

(** The request that opens a call or a stream. *)
Definition open_request (method : bytes) (request : AnnotatedBatch) (protocol protocol_version request_id : bytes)
    (request_path : res bytes) (options : CallOptions) : H PostResponse :=
  md <~ ok (lift (http_request_metadata (custom_metadata request) method protocol protocol_version request_id));
  request_path <~ ok (lift request_path);
  body <~ encode_request (ab_batch request) md;
  post config url limits auth_callback externalize_request method request_path body request_id options true.

Definition one_batch (decoded : DecodedResponse) (what : bytes) : H AnnotatedBatch :=
  match dr_data decoded with
  | [batch] => mret (inr (stripped batch))
  | _ => client_failure (what ++ str " must contain exactly one data batch")
  end.

Definition call (method : bytes) (request : AnnotatedBatch) (expected_output_schema : option Schema) (options : CallOptions)
    : H AnnotatedBatch :=
  _ <~ ok (lift (validate_method method));
  request_id <~ ok (request_id_of options);
  response <~ open_request method request (hc_protocol config) (hc_protocol_version config) request_id
                (method_path prefix (hc_protocol config) method []) options;
  decoded <~ decode response UNARY_RESPONSE false;
  if bool_decide (is_Some expected_output_schema) && negb (schema_equals (dr_schema decoded) expected_output_schema) then
    client_failure (schema_mismatch (str "RPC response") expected_output_schema (dr_schema decoded))
  else one_batch decoded (str "unary RPC response").

(** No protocol version: reflection is exempt from the gate. *)
Definition call_reflection (method : bytes) (request : AnnotatedBatch) (options : CallOptions) : H AnnotatedBatch :=
  _ <~ ok (lift (validate_method method));
  request_id <~ ok (request_id_of options);
  response <~ open_request method request kReflectionProtocolName [] request_id
                (Ok (protocol_path prefix kReflectionProtocolName method [])) options;
  decoded <~ decode response UNARY_RESPONSE false;
  one_batch decoded (str "reflection response").

(** ** Exchange sessions *)

(** A session object and the client. *)
Definition on_state {X A} (m : M state A) : M (X * state) A := zoom snd (fun p s => (p.1, s)) m.

Definition on_session {X} (f : X -> X) : M (X * state) unit := modify (fun p => (f p.1, p.2)).

Record HttpExchangeSession := {
  es_method : bytes;
  es_input_schema : option Schema;
  es_output_schema : option Schema;
  es_cursor : bytes;
  es_call_state : bytes;
  es_is_active : bool;
}.

(** The last value of the key that is not empty. *)
Definition last_value (key : bytes) (control : list AnnotatedBatch) (value : bytes) : bytes :=
  foldl (fun value batch => match get_metadata_value (custom_metadata batch) key [] with [] => value | v => v end) value control.

Definition adopt {A} (actual declared : option A) : option A := match actual with Some s => Some s | None => declared end.

Definition open_exchange (method : bytes) (request : AnnotatedBatch) (input_schema output_schema : option Schema)
    (options : CallOptions) : H HttpExchangeSession :=
  _ <~ ok (lift (validate_method method));
  _ <~ ok (lift (throw_if (negb (bool_decide (is_Some input_schema)) || negb (bool_decide (is_Some output_schema)))
                   (InvalidArgument (str "exchange input and output schemas must not be null"))));
  request_id <~ ok (request_id_of options);
  response <~ open_request method request (hc_protocol config) (hc_protocol_version config) request_id
                (method_path prefix (hc_protocol config) method (str "/init")) options;
  decoded <~ decode response EXCHANGE_INIT false;
  match dr_data decoded with
  | _ :: _ => client_failure (str "exchange init unexpectedly returned application data")
  | [] =>
      let cursor := last_value STATE_B64 (dr_control decoded) [] in
      let call_state := last_value CALL_STATE_B64 (dr_control decoded) [] in
      if bool_decide (cursor = []) || bool_decide (call_state = []) then
        client_failure (str "exchange init response must contain cursor and call-state tokens")
      else
        mret (inr {| es_method := method; es_input_schema := input_schema;
                     es_output_schema := adopt (dr_schema decoded) output_schema;
                     es_cursor := cursor; es_call_state := call_state; es_is_active := true |})
  end.

Definition set_es_active (x : HttpExchangeSession) (active : bool) : HttpExchangeSession :=
  {| es_method := es_method x; es_input_schema := es_input_schema x; es_output_schema := es_output_schema x;
     es_cursor := es_cursor x; es_call_state := es_call_state x; es_is_active := active |}.

Definition renew (cursor : bytes) (x : HttpExchangeSession) : HttpExchangeSession :=
  {| es_method := es_method x; es_input_schema := es_input_schema x; es_output_schema := es_output_schema x;
     es_cursor := cursor; es_call_state := es_call_state x; es_is_active := true |}.

(** What every request of a stream carries after [md]. *)
Definition continuation (md : kv_list) (cursor call_state request_id : bytes) : kv_list :=
  let md := replace_one md REQUEST_ID request_id in
  let md := replace_one md STATE_B64 cursor in
  match call_state with [] => md | _ => replace_one md CALL_STATE_B64 call_state end.

(** A request of a stream. *)
Definition post_turn (method body request_id : bytes) (options : CallOptions) (retryable : bool) : H PostResponse :=
  request_path <~ ok (lift (method_path prefix (hc_protocol config) method (str "/exchange")));
  post config url limits auth_callback externalize_request method request_path body request_id options retryable.

(** A turn from the request to the output and the cursor it gives. *)
Definition exchange_turn (method : bytes) (output_schema : option Schema) (body request_id : bytes) (options : CallOptions)
    : H (AnnotatedBatch * bytes) :=
  response <~ post_turn method body request_id options false;
  decoded <~ decode response EXCHANGE_TURN false;
  if negb (schema_equals (dr_schema decoded) output_schema) then
    client_failure (schema_mismatch (str "exchange response") output_schema (dr_schema decoded))
  else
    match dr_data decoded with
    | [output] =>
        if negb (schema_equals (Some (schema (ab_batch output))) output_schema) then
          client_failure (schema_mismatch (str "exchange output") output_schema (Some (schema (ab_batch output))))
        else
          let cursor := get_metadata_value (custom_metadata output) STATE_B64 [] in
          let cursor := match cursor with [] => control_cursor (dr_control decoded) | _ => cursor end in
          if bool_decide (cursor = []) then
            client_failure (str "exchange response did not contain a continuation token")
          else mret (inr (output, cursor))
    | _ => client_failure (str "exchange response must contain exactly one data batch")
    end.

Definition exchange (input : AnnotatedBatch) (options : CallOptions)
    : M (HttpExchangeSession * state) (http_failure + AnnotatedBatch) :=
  p ← get;
  let x := p.1 in
  if negb (es_is_active x) then client_failure (str "exchange session is closed")
  else if negb (schema_equals (Some (schema (ab_batch input))) (es_input_schema x)) then
    raise (EInvalidArgument (schema_mismatch (str "exchange input") (es_input_schema x) (Some (schema (ab_batch input)))))
  else
    request_id ← on_state (request_id_of options);
    let md := continuation (sanitized_metadata (custom_metadata input)) (es_cursor x) (es_call_state x) request_id in
    body <~ on_state (encode_request (ab_batch input) md);
    on_session (fun x => set_es_active x false);;
    '(output, cursor) <~ on_state (exchange_turn (es_method x) (es_output_schema x) body request_id options);
    on_session (renew cursor);;
    mret (inr (stripped output)).

Definition close_exchange : M (HttpExchangeSession * state) unit := on_session (fun x => set_es_active x false).

(** The request that cancels a stream, whose failures are dropped. *)
Definition cancel_request (method cursor call_state : bytes) : M state unit :=
  try_catch
    (request_id ← net_op random_id;
     let md := replace_one (continuation [] cursor call_state request_id) CANCEL (str "1") in
     empty ← lift (make_empty_batch empty_schema);
     body ← encode_request empty md;
     match body with
     | inl _ => mret tt
     | inr body => r ← post_turn method body request_id new_CallOptions false; mret tt
     end)
    (fun _ => mret tt).

Definition cancel_exchange : M (HttpExchangeSession * state) unit :=
  p ← get;
  let x := p.1 in
  if negb (es_is_active x) then mret tt
  else
    on_session (fun x => set_es_active x false);;
    on_state (cancel_request (es_method x) (es_cursor x) (es_call_state x)).

(** ** Stream sessions *)

Record HttpStreamSession := {
  ss_method : bytes;
  ss_kind : HttpStreamKind;
  ss_input_schema : option Schema;
  ss_output_schema : option Schema;
  ss_header : option AnnotatedBatch;
  ss_pending : list AnnotatedBatch;
  ss_cursor : bytes;
  ss_call_state : bytes;
  ss_is_finished : bool;
  ss_is_closed : bool;
}.

Definition set_ss_pending (x : HttpStreamSession) (pending : list AnnotatedBatch) : HttpStreamSession :=
  {| ss_method := ss_method x; ss_kind := ss_kind x; ss_input_schema := ss_input_schema x;
     ss_output_schema := ss_output_schema x; ss_header := ss_header x; ss_pending := pending; ss_cursor := ss_cursor x;
     ss_call_state := ss_call_state x; ss_is_finished := ss_is_finished x; ss_is_closed := ss_is_closed x |}.
Definition set_ss_tokens (x : HttpStreamSession) (cursor call_state : bytes) : HttpStreamSession :=
  {| ss_method := ss_method x; ss_kind := ss_kind x; ss_input_schema := ss_input_schema x;
     ss_output_schema := ss_output_schema x; ss_header := ss_header x; ss_pending := ss_pending x; ss_cursor := cursor;
     ss_call_state := call_state; ss_is_finished := ss_is_finished x; ss_is_closed := ss_is_closed x |}.
Definition set_ss_flags (x : HttpStreamSession) (finished closed : bool) : HttpStreamSession :=
  {| ss_method := ss_method x; ss_kind := ss_kind x; ss_input_schema := ss_input_schema x;
     ss_output_schema := ss_output_schema x; ss_header := ss_header x; ss_pending := ss_pending x; ss_cursor := ss_cursor x;
     ss_call_state := ss_call_state x; ss_is_finished := finished; ss_is_closed := closed |}.
Definition set_ss_schemas (x : HttpStreamSession) (input_schema output_schema : option Schema) : HttpStreamSession :=
  {| ss_method := ss_method x; ss_kind := ss_kind x; ss_input_schema := input_schema;
     ss_output_schema := output_schema; ss_header := ss_header x; ss_pending := ss_pending x; ss_cursor := ss_cursor x;
     ss_call_state := ss_call_state x; ss_is_finished := ss_is_finished x; ss_is_closed := ss_is_closed x |}.

Definition update_controls (control : list AnnotatedBatch) (x : HttpStreamSession) : HttpStreamSession :=
  let cursor := last_value STATE_B64 control [] in
  let call_state := last_value CALL_STATE_B64 control (ss_call_state x) in
  set_ss_flags (set_ss_tokens x cursor call_state) (bool_decide (cursor = []) || ss_is_finished x) (ss_is_closed x).

(** A first response makes a session; the schema it has replaces the declared one. *)
Definition make_http_stream_impl (method : bytes) (kind : HttpStreamKind) (input_schema output_schema : option Schema)
    (decoded : DecodedResponse) : H HttpStreamSession :=
  if bool_decide (kind = PRODUCER) && (1 <? length (dr_data decoded))%nat then
    fail_kind PROTOCOL_ERROR (str "producer init response contains multiple data batches") 0 method []
  else
    mret (inr (update_controls (dr_control decoded)
      {| ss_method := method; ss_kind := kind; ss_input_schema := input_schema;
         ss_output_schema := adopt (dr_schema decoded) output_schema; ss_header := stripped <$> dr_header decoded;
         ss_pending := map stripped (dr_data decoded); ss_cursor := []; ss_call_state := [];
         ss_is_finished := false; ss_is_closed := false |})).

Definition open_stream (method : bytes) (request : AnnotatedBatch) (kind : HttpStreamKind)
    (input_schema output_schema : option Schema) (has_header : bool) (options : CallOptions) : H HttpStreamSession :=
  _ <~ ok (lift (validate_method method));
  request_id <~ ok (request_id_of options);
  response <~ open_request method request (hc_protocol config) (hc_protocol_version config) request_id
                (method_path prefix (hc_protocol config) method (str "/init")) options;
  decoded <~ decode response STREAM_INIT has_header;
  make_http_stream_impl method kind input_schema output_schema decoded.

Definition open_producer (method : bytes) (request : AnnotatedBatch) (output_schema : option Schema) (has_header : bool)
    (options : CallOptions) : H HttpStreamSession :=
  open_stream method request PRODUCER (Some empty_schema) output_schema has_header options.

Definition open_stream_exchange (method : bytes) (request : AnnotatedBatch) (input_schema output_schema : option Schema)
    (has_header : bool) (options : CallOptions) : H HttpStreamSession :=
  x <~ open_stream method request EXCHANGE input_schema output_schema has_header options;
  if bool_decide (ss_cursor x = []) then
    client_failure (str "exchange init response did not contain a continuation token")
  else mret (inr (set_ss_flags x false (ss_is_closed x))).

(** The cursor and the call state of a resume token. *)
Definition resume_tokens (resume_token : bytes) : res (bytes * bytes) :=
  tokens ← unpack_resume_token resume_token;
  _ ← throw_if (bool_decide (tokens.1 = [])) (InvalidArgument (str "resume token contains an empty cursor"));
  Ok tokens.

Definition resume_stream (method resume_token : bytes) (output_schema : option Schema) : res HttpStreamSession :=
  _ ← validate_method method;
  _ ← throw_if (negb (bool_decide (is_Some output_schema)))
        (InvalidArgument (str "producer output schema must not be null"));
  tokens ← resume_tokens resume_token;
  Ok {| ss_method := method; ss_kind := PRODUCER; ss_input_schema := Some empty_schema; ss_output_schema := output_schema;
        ss_header := None; ss_pending := []; ss_cursor := tokens.1; ss_call_state := tokens.2;
        ss_is_finished := false; ss_is_closed := false |}.

Definition finished (x : HttpStreamSession) : bool := ss_is_finished x || ss_is_closed x.

Abbreviation T A := (M (HttpStreamSession * state) (http_failure + A)).

(** The schema of the first response that has one, or the same one again. *)
Definition settle_schema (what : bytes) (actual : option Schema) : T unit :=
  p ← get;
  let x := p.1 in
  match ss_output_schema x with
  | None => on_session (fun x => set_ss_schemas x (ss_input_schema x) actual);; mret (inr tt)
  | Some _ =>
      if negb (schema_equals actual (ss_output_schema x)) then
        client_failure (schema_mismatch what (ss_output_schema x) actual)
      else mret (inr tt)
  end.

(** The caller's metadata for a turn, under the framework's. *)
Definition turn_request (turn_metadata : metadata) (x : HttpStreamSession) (request_id : bytes) : kv_list :=
  let md := continuation [] (ss_cursor x) (ss_call_state x) request_id in
  match turn_metadata with
  | None => md
  | Some _ => foldl (fun md kv => replace_one md kv.1 kv.2) md (sanitized_metadata turn_metadata)
  end.

(** What the server answers a producer's turn with. *)
Definition producer_turn (x : HttpStreamSession) (turn_metadata : metadata) (options : CallOptions)
    : H (DecodedResponse * bytes) :=
  request_id <~ ok (request_id_of options);
  empty <~ ok (lift (make_empty_batch empty_schema));
  body <~ encode_request empty (turn_request turn_metadata x request_id);
  response <~ post_turn (ss_method x) body request_id options true;
  decoded <~ decode response PRODUCER_TURN false;
  mret (inr (decoded, request_id)).

(** One round of [tick] that asks the server. *)
Definition fetch_turn (turn_metadata : metadata) (options : CallOptions) : T unit :=
  p ← get;
  '(decoded, request_id) <~ on_state (producer_turn p.1 turn_metadata options);
  _ <~ settle_schema (str "producer response") (dr_schema decoded);
  if (1 <? length (dr_data decoded))%nat then
    fail_with (HttpFailure (client_error PROTOCOL_ERROR (str "producer response contains multiple data batches") 0
      (ss_method p.1) request_id))
  else
    on_session (fun x => update_controls (dr_control decoded)
                           (set_ss_pending x (ss_pending x ++ map stripped (dr_data decoded))));;
    mret (inr tt).

(** The loop of [tick]: it goes on as long as responses have a cursor and no data. *)
Fixpoint tick_loop (rounds : nat) (turn_metadata : metadata) (options : CallOptions) : T (option AnnotatedBatch) :=
  match rounds with
  | O => raise (EOther [])
  | S rounds' =>
      p ← get;
      let x := p.1 in
      match ss_pending x with
      | value :: pending => on_session (fun x => set_ss_pending x pending);; mret (inr (Some value))
      | [] =>
          if ss_is_finished x || bool_decide (ss_cursor x = []) then
            on_session (fun x => set_ss_flags x true (ss_is_closed x));; mret (inr None)
          else
            _ <~ fetch_turn turn_metadata options;
            tick_loop rounds' turn_metadata options
      end
  end.

Definition tick (rounds : nat) (turn_metadata : metadata) (options : CallOptions) : T (option AnnotatedBatch) :=
  p ← get;
  if ss_is_closed p.1 then client_failure (str "stream session is closed")
  else if negb (bool_decide (ss_kind p.1 = PRODUCER)) then
    raise (ELogicError (str "tick is only valid for producer streams"))
  else tick_loop rounds turn_metadata options.

Definition next_with_token (rounds : nat) (options : CallOptions) : T (option (AnnotatedBatch * bytes)) :=
  let too_many := str "next_with_token requires at most one application batch per response" in
  p ← get;
  if (1 <? length (ss_pending p.1))%nat then client_failure too_many
  else
    value <~ tick rounds None options;
    match value with
    | None => mret (inr None)
    | Some value =>
        p ← get;
        if (0 <? length (ss_pending p.1))%nat then client_failure too_many
        else
          match ss_cursor p.1 with
          | [] => mret (inr (Some (value, [])))
          | cursor =>
              match pack_resume_token cursor (ss_call_state p.1) with
              | inl e => fail_with (HttpFailure e)
              | inr token => mret (inr (Some (value, token)))
              end
          end
    end.

(** The session is closed before its request is encoded, and open again after a whole
    response. *)
Definition exchange_stream (input : AnnotatedBatch) (options : CallOptions) : T (option AnnotatedBatch) :=
  p ← get;
  let x := p.1 in
  let actual := Some (schema (ab_batch input)) in
  if finished x then client_failure (str "exchange stream session is closed")
  else if negb (bool_decide (ss_kind x = EXCHANGE)) then
    raise (ELogicError (str "exchange is only valid for exchange streams"))
  else if bool_decide (is_Some (ss_input_schema x)) && negb (schema_equals actual (ss_input_schema x)) then
    raise (EInvalidArgument (schema_mismatch (str "exchange input") (ss_input_schema x) actual))
  else
    on_session (fun x => set_ss_schemas x (match ss_input_schema x with None => actual | s => s end) (ss_output_schema x));;
    request_id ← on_state (request_id_of options);
    let md := continuation (sanitized_metadata (custom_metadata input)) (ss_cursor x) (ss_call_state x) request_id in
    on_session (fun x => set_ss_flags x (ss_is_finished x) true);;
    body <~ on_state (encode_request (ab_batch input) md);
    response <~ on_state (post_turn (ss_method x) body request_id options false);
    decoded <~ on_state (decode response EXCHANGE_TURN false);
    _ <~ settle_schema (str "exchange response") (dr_schema decoded);
    match dr_data decoded with
    | [] => on_session (fun x => set_ss_flags x true (ss_is_closed x));; mret (inr None)
    | [output] =>
        let cursor := get_metadata_value (custom_metadata output) STATE_B64 [] in
        let cursor := match cursor with [] => control_cursor (dr_control decoded) | _ => cursor end in
        on_session (fun x => set_ss_flags (set_ss_tokens x cursor (ss_call_state x)) (bool_decide (cursor = [])) false);;
        mret (inr (Some (stripped output)))
    | _ => client_failure (str "exchange response must contain at most one data batch")
    end.

Definition seek_to_token (resume_token : bytes) : T unit :=
  p ← get;
  if ss_is_closed p.1 then client_failure (str "stream session is closed")
  else if negb (bool_decide (ss_kind p.1 = PRODUCER)) then
    raise (ELogicError (str "seek_to_token is only valid for producer streams"))
  else
    tokens ← lift (resume_tokens resume_token);
    on_session (fun x => set_ss_flags (set_ss_tokens (set_ss_pending x []) tokens.1 tokens.2) false (ss_is_closed x));;
    mret (inr tt).

Definition close_stream : M (HttpStreamSession * state) unit :=
  on_session (fun x => set_ss_pending (set_ss_flags x (ss_is_finished x) true) []).

Definition cancel_stream : M (HttpStreamSession * state) unit :=
  p ← get;
  let x := p.1 in
  (if ss_is_closed x || ss_is_finished x || bool_decide (ss_cursor x = []) then mret tt
   else on_state (cancel_request (ss_method x) (ss_cursor x) (ss_call_state x)));;
  close_stream.

(** ** Reflection *)

Context {build_ : ArrowBuild} {views : ArrowViews}.

Abbreviation R A := (M HttpClientState (reflection_failure + A)).

(** A route that is not there, and a protocol that is not hosted, are the absence of reflection. *)
Definition listing_failure (e : http_failure) : reflection_failure :=
  match e with
  | RpcRemoteError rx status | HttpSessionLostError rx status =>
      if reflection_not_hosted (rs_error_kind (rx_status rx)) (rs_error_code (rx_status rx)) (rx_exception_type rx)
      then HttpReflectionNotSupported rx status else CallFailed e
  | HttpFailure error | HttpAuthenticationError error _ =>
      if negb (bool_decide (he_kind error = HTTP_STATUS)) || negb (he_http_status error =? 404) then CallFailed e
      else
        HttpReflectionNotSupported
          {| rx_exception_type := str "HttpError"; rx_message := he_message error;
             rx_status := {| rs_error_code := []; rs_error_kind := []; rs_error_details := JArray []; rs_traceback := [] |};
             rx_server_id := []; rx_request_id := he_request_id error |}
          (he_http_status error)
  end.

Definition protocol_listing (options : CallOptions) : R ProtocolListing :=
  empty ← lift (make_empty_batch empty_schema);
  r ← call_reflection (str "list_protocols") (data empty) options;
  match r with
  | inl e => mret (inl (listing_failure e))
  | inr response => listing ← lift (decode_protocol_list response); mret (inr listing)
  end.

Definition list_protocols (options : CallOptions) : R (list HostedProtocol) :=
  r ← protocol_listing options;
  mret match r with inl e => inl e | inr listing => inr (pl_protocols listing) end.

Definition describe_named (name : bytes) (listing : ProtocolListing) (options : CallOptions) : R ServiceDescription :=
  params ← lift (describe_params name);
  r ← call_reflection (str "describe") (data params) options;
  match r with
  | inl e => mret (inl (CallFailed e))
  | inr response => sd ← lift (decode_service_description response (Some listing)); mret (inr sd)
  end.

Definition describe_protocol (name : bytes) (options : CallOptions) : R ServiceDescription :=
  r ← protocol_listing options;
  match r with inl e => mret (inl e) | inr listing => describe_named name listing options end.

Definition describe (options : CallOptions) : R ServiceDescription :=
  r ← protocol_listing options;
  match r with
  | inl e => mret (inl e)
  | inr listing =>
      match application listing with
      | None =>
          mret (inl (CallFailed (HttpFailure (protocol_failure
            (str "server " ++ pl_server_id listing ++ str " hosts no application protocol") 0))))
      | Some p => describe_named (hp_name p) listing options
      end
  end.
End client.
