(* ===== verification/HttpSessionLaws.v ===== *)
(** * Exchanges and streams over HTTP

    A cursor is sent to the server's application once, and a producer's batches are all
    delivered, in order. *)

From S2P Require Import Prelude Memory Arrow Json Crypto Grants Errors IdentityInternal ProxyProtocol Shm ShmPointer Wire Calls.
From S2P Require Import ExternalUrl ClientExternal External ProtocolHash Reflection Server Dispatch Serving Admission.
From S2P Require Import Client ClientDescription HttpClient HttpSticky HttpTransport HttpPost HttpSessions.

#[local] Open Scope http_scope.

Section sessions.
Context {arrow : Arrow} {afields : ArrowFields} {streams : ArrowStreams} {kvm : KeyValueMetadata}
  {buffers : BufferStreams} {ipc : IpcBytes} {J : JsonText} {http : HttpWire} {zstd : Zstd} {encoder : ZstdEncoder}.
Context (config : HttpClientConfig) (url : ParsedBaseUrl) (limits : ClientLimits).
Context (auth_callback : option (bytes -> bytes -> bytes -> hnet -> (bytes + list (bytes * bytes)) * hnet)).
Context (externalize_request : option (bytes -> CallOptions -> M HttpClientState (http_failure + bytes))).
Context (external_max_upload_bytes : Z).
Context (on_log : option (AnnotatedBatch -> M HttpClientState unit))
  (external : option (AnnotatedBatch -> M HttpClientState (bytes + AnnotatedBatch))).

Abbreviation state := (HttpClientState).
Abbreviation H A := (M HttpClientState (http_failure + A)).
Abbreviation entry := (WireRequest * Z)%type.

(** ** What a response may do *)

(** The log handler and the resolver of pointers make no request that [P] speaks of. *)
Definition handlers_within (P : entry -> Prop) : Prop :=
  (forall f, on_log = Some f -> forall batch, always (grows P) (f batch)) /\
  (forall f, external = Some f -> forall batch, always (grows P) (f batch)).

Ltac calm_step :=
  match goal with
  | |- forall _, _ => intros ?
  | |- always _ (and_then _ _) => apply always_and_then; [typeclasses eauto| |]
  | |- always _ (ok _) => apply always_ok; [typeclasses eauto|]
  | |- always _ (mbind _ _) => apply always_bind; [typeclasses eauto| |]
  | |- always _ (fail_kind _ _ _ _ _) => apply always_ret; typeclasses eauto
  | |- always _ (fail_with _) => apply always_ret; typeclasses eauto
  | |- always _ (failed _ _) => apply always_ret; typeclasses eauto
  | |- always _ (client_failure _) => apply always_ret; typeclasses eauto
  | |- always _ (net_op _) => apply net_op_quiet
  | |- always _ (modify _) => apply modify_quiet; intros ?; repeat case_match; reflexivity
  | |- always _ (let _ := _ in _) => cbv zeta
  | |- always _ (match ?x with _ => _ end) => destruct x
  | |- always _ _ => solve [eauto 3 with frame quiet typeclass_instances]
  end.
Ltac calm := repeat calm_step.

Section within.
Context (P : entry -> Prop) (HP : handlers_within P).

Lemma log_calm batch : always (grows P) (log_batch on_log batch).
Proof. unfold log_batch. destruct on_log as [f|] eqn:E; [by apply HP|calm]. Qed.

Lemma resolved_calm response what batch : always (grows P) (resolved_batch external response what batch).
Proof.
  unfold resolved_batch. destruct (metadata_has _ _); [|calm]. destruct external as [f|] eqn:E; [|calm].
  apply always_bind; [typeclasses eauto|by apply HP|]. calm.
Qed.
#[local] Hint Resolve log_calm resolved_calm : quiet.

Lemma header_calm response batches header_data : always (grows P) (header_batches on_log external response batches header_data).
Proof. revert header_data; induction batches as [|batch batches IH]; intros header_data; cbn [header_batches]; calm. Qed.
#[local] Hint Resolve header_calm : quiet.

Lemma response_calm response shape batches data_ control saw :
  always (grows P) (response_batches on_log external response shape batches data_ control saw).
Proof.
  revert data_ control saw; induction batches as [|batch batches IH]; intros data_ control saw; cbn [response_batches]; calm.
Qed.
#[local] Hint Resolve response_calm : quiet.

Lemma decode_response_calm response shape has_header :
  always (grows P) (decode_response on_log external response shape has_header).
Proof. unfold decode_response, process_header, checked_response, body_stream. calm. Qed.
#[local] Hint Resolve decode_response_calm : quiet.

Lemma commit_calm response : always (grows P) (commit_response response).
Proof. unfold commit_response. calm. Qed.
#[local] Hint Resolve commit_calm : quiet.

Lemma decode_calm response shape has_header : always (grows P) (decode on_log external response shape has_header).
Proof. unfold decode. calm. Qed.
End within.

Lemma to_buffer_calm P (w : M wire unit) : always (grows P) (to_buffer (St := state) w).
Proof. intros s. unfold to_buffer. destruct (w buffer_wire) as [[|] w']; by apply grows_same. Qed.

Lemma encode_calm P batch md :
  always (grows P) (encode_request config externalize_request external_max_upload_bytes batch md).
Proof. unfold encode_request, encode_ipc, request_serialization_cap. calm; apply to_buffer_calm. Qed.

Lemma request_id_calm P options : always (grows P) (request_id_of options).
Proof. unfold request_id_of. calm. Qed.

(** A response that is decoded has a status of success. *)
Lemma decoded_status response shape has_header s decoded s' :
  decode on_log external response shape has_header s = (Done (inr decoded), s') ->
  200 <= br_status (pr_response response) < 300.
Proof.
  unfold decode. intros E. inv_ok. destruct x1 as [[]|d]; inv_ok; try discriminate E.
  unfold decode_response in H0. apply and_then_inr in H0 as ([header input] & s1 & _ & H0).
  apply and_then_inr in H0 as ([[sch batches] input'] & s2 & _ & H0).
  apply and_then_inr in H0 as ([data_ control] & s3 & _ & H0). unfold checked_response in H0.
  destruct (buffer_tell _ _) as [consumed|]; [|discriminate H0]. repeat (destruct (_ : bool) eqn:? in H0; [discriminate H0|]).
  bool_to_prop. lia.
Qed.

(** ** Turns of an exchange *)

Section turns.
Context (request_path : bytes).
Context (Hhandlers : handlers_within (fun e => ~ posted request_path e))
  (Hup : uploads_elsewhere request_path externalize_request).

#[export] Instance turned_away_decision e : Decision (turned_away e).
Proof. unfold turned_away. apply _. Defined.

(** How many requests may have run the operation. *)
Definition ran (ps : list entry) : nat := length (filter (fun e => ~ turned_away e) ps).

Lemma ran_app ps ps' : ran (ps ++ ps') = (ran ps + ran ps')%nat.
Proof. unfold ran. by rewrite filter_app, length_app. Qed.

Lemma ran_away ps : Forall turned_away ps -> ran ps = O.
Proof. induction 1 as [|e ps He _ IH]; [done|]. unfold ran in *. rewrite filter_cons_False; [done|]. intros Hn. by apply Hn. Qed.

Lemma dispatched_ran rid answered ps : dispatched rid answered ps ->
  (ran ps <= 1)%nat /\ forall status, answered = Some status -> 200 <= status < 300 -> ran ps = 1%nat.
Proof.
  intros (pre & rest & -> & Hp & _ & Hr). rewrite ran_app, ran_away by done. cbn [plus].
  assert (ran rest <= length rest)%nat as Hle by apply length_filter. destruct answered as [status|]; [|split; [lia|done]].
  destruct Hr as [request ->]. split; [done|]. intros st [= <-] Hst. unfold ran. rewrite filter_cons_True; [done|].
  unfold turned_away. cbn. lia.
Qed.

(** A step that posts. *)
Definition turn_ran {A} (r : outcome (http_failure + A)) (ps : list entry) : Prop :=
  (ran ps <= 1)%nat /\ match r with Done (inr _) => ran ps = 1%nat | _ => True end.

Lemma post_turn_sends method body rid options :
  method_path (prefix config) (hc_protocol config) method (str "/exchange") = Ok request_path ->
  sends request_path (fun r ps => dispatched rid (status_of (fun p => br_status (pr_response p)) r) ps)
    (post_turn config url limits auth_callback externalize_request method body rid options false).
Proof.
  intros Epath s.
  assert (post_turn config url limits auth_callback externalize_request method body rid options false s
    = post config url limits auth_callback externalize_request method request_path body rid options false s) as ->
    by (unfold post_turn; by rewrite Epath).
  by apply post_posts.
Qed.

(** What follows a response posts nothing, and succeeds only on a success. *)
Lemma after_response {A} rid response (k : H A) ps :
  dispatched rid (Some (br_status (pr_response response))) ps -> always (grows (fun e => ~ posted request_path e)) k ->
  (forall s a s', k s = (Done (inr a), s') -> 200 <= br_status (pr_response response) < 300) ->
  sends request_path (fun r ps' => turn_ran r (ps ++ ps')) k.
Proof.
  intros Hps Hk Hst s. destruct (Hk s) as (l & E & Hl). exists l. split; [exact E|]. apply posts_none in Hl.
  rewrite Hl, app_nil_r. destruct (dispatched_ran _ _ _ Hps) as [Hle Hone]. split; [exact Hle|].
  destruct (k s) as [[[e|a]|e] s'] eqn:Ek; cbn [fst]; try done. eapply Hone; [done|]. by eapply Hst.
Qed.

Lemma exchange_turn_sends method output_schema body rid options :
  method_path (prefix config) (hc_protocol config) method (str "/exchange") = Ok request_path ->
  sends request_path turn_ran
    (exchange_turn config url limits auth_callback externalize_request on_log external method output_schema body rid options).
Proof.
  intros Epath. unfold exchange_turn. eapply sends_and_then; [by eapply (post_turn_sends method body rid)| | |].
  - intros response ps Hps. eapply after_response; [exact Hps| |].
    + apply always_and_then; [typeclasses eauto|by apply decode_calm|]. calm.
    + intros s a s' (d & s1 & E & _)%and_then_inr. by eapply decoded_status.
  - intros e ps Hps. split; [exact (proj1 (dispatched_ran _ _ _ Hps))|done].
  - intros e ps Hps. split; [exact (proj1 (dispatched_ran _ _ _ Hps))|done].
Qed.

(** At most one request that may have run the operation. *)
Definition runs_once {A} (m : M state A) : Prop :=
  forall s, exists l, hs_sent (m s).2 = hs_sent s ++ l /\ (ran (posts request_path l) <= 1)%nat.

Lemma runs_once_quiet {A} (m : M state A) : always (grows (fun e => ~ posted request_path e)) m -> runs_once m.
Proof. intros Hm s. destruct (Hm s) as (l & E & Hl). exists l. split; [exact E|]. apply posts_none in Hl. rewrite Hl. cbn. lia. Qed.

Lemma runs_once_after {A B} (m : M state A) (k : A -> M state B) :
  always (grows (fun e => ~ posted request_path e)) m -> (forall a, runs_once (k a)) -> runs_once (m ≫= k).
Proof.
  intros Hm Hk s. destruct (Hm s) as (l & E & Hl). apply posts_none in Hl. unfold mbind, M_bind.
  destruct (m s) as [[a|e] s1]; cbn [snd] in E; [|exists l; rewrite Hl; split; [exact E|cbn; lia]].
  destruct (Hk a s1) as (l' & E' & Hr). exists (l ++ l'). rewrite E', E, app_assoc. split; [done|].
  unfold posts in *. by rewrite filter_app, Hl.
Qed.

Lemma post_runs_once {B} method body rid options (k : http_failure + PostResponse -> M state B) :
  method_path (prefix config) (hc_protocol config) method (str "/exchange") = Ok request_path ->
  (forall r, always (grows (fun e => ~ posted request_path e)) (k r)) ->
  runs_once (post_turn config url limits auth_callback externalize_request method body rid options false ≫= k).
Proof.
  intros Epath Hk s. destruct (post_turn_sends method body rid options Epath s) as (l & E & Hd).
  apply dispatched_ran in Hd as [Hd _]. unfold mbind, M_bind.
  destruct (post_turn _ _ _ _ _ _ _ _ _ _ s) as [[r|e] s1]; cbn [snd] in E; [|by exists l].
  destruct (Hk r s1) as (l' & E' & Hl). apply posts_none in Hl. exists (l ++ l'). rewrite E', E, app_assoc.
  split; [done|]. unfold posts in *. by rewrite filter_app, Hl, app_nil_r.
Qed.

Lemma cancel_request_ran method cursor call_state :
  method_path (prefix config) (hc_protocol config) method (str "/exchange") = Ok request_path ->
  runs_once (cancel_request config url limits auth_callback externalize_request external_max_upload_bytes method cursor call_state).
Proof.
  intros Epath. unfold cancel_request. set (m := mbind _ _).
  assert (runs_once m) as Hm.
  { unfold m. apply runs_once_after; [calm|]. intros rid. cbv zeta. apply runs_once_after; [calm|]. intros empty.
    apply runs_once_after; [apply encode_calm|]. intros [e|body]; [by apply runs_once_quiet; calm|].
    apply post_runs_once; [done|]. calm. }
  intros s. destruct (Hm s) as (l & E & Hr). exists l. split; [|done]. rewrite <- E. unfold try_catch.
  by destruct (m s) as [[]].
Qed.

(** *** A session *)

Abbreviation step_ m := (m config url limits auth_callback externalize_request external_max_upload_bytes).

(** What a step of a session does to it: nothing, a turn that was answered, or one whose
    end is not known. *)
Definition spent (x x' : HttpExchangeSession) (ps : list entry) (answered : bool) : Prop :=
  es_method x' = es_method x /\ (es_cursor x <> [] -> es_cursor x' <> []) /\
  if answered then es_is_active x = true /\ es_is_active x' = true /\ ran ps = 1%nat
  else (x' = x /\ ps = []) \/ (es_is_active x = true /\ es_is_active x' = false /\ (ran ps <= 1)%nat).

Definition is_answered {A} (r : outcome (http_failure + A)) : bool := match r with Done (inr _) => true | _ => false end.

Lemma spent_same x s : exists l, hs_sent s = hs_sent s ++ l /\ spent x x (posts request_path l) false.
Proof. exists []. rewrite app_nil_r. split; [done|]. split; [done|]. split; [done|]. by left. Qed.

Lemma spent_after x x' (s s1 s' : state) b :
  grows (fun e => ~ posted request_path e) s s1 ->
  (exists l, hs_sent s' = hs_sent s1 ++ l /\ spent x x' (posts request_path l) b) ->
  exists l, hs_sent s' = hs_sent s ++ l /\ spent x x' (posts request_path l) b.
Proof.
  intros (l1 & E1 & Hl1) (l & E & Hs). apply posts_none in Hl1. exists (l1 ++ l). rewrite E, E1, app_assoc. split; [done|].
  unfold posts in *. by rewrite filter_app, Hl1.
Qed.

(** The turn itself, once the cursor is retired. *)
Lemma turn_spent x s body rid options :
  method_path (prefix config) (hc_protocol config) (es_method x) (str "/exchange") = Ok request_path ->
  es_is_active x = true ->
  let '(r, (x', s')) :=
    and_then (on_state (exchange_turn config url limits auth_callback externalize_request on_log external (es_method x)
                (es_output_schema x) body rid options))
      (fun '(output, cursor) => on_session (renew cursor);; mret (inr (stripped output))) (set_es_active x false, s) in
  exists l, hs_sent s' = hs_sent s ++ l /\ spent x x' (posts request_path l) (is_answered r).
Proof.
  intros Epath Ea. pose proof (exchange_turn_sends (es_method x) (es_output_schema x) body rid options Epath s) as (l & E & Hle & Hone).
  set (m := exchange_turn _ _ _ _ _ _ _ _ _ _ _ _) in *.
  unfold and_then, mbind, M_bind, on_state, zoom. cbn [fst snd].
  destruct (m s) as [[[e|[output cursor]]|e] s1] eqn:Em; cbn [fst snd] in *; exists l; (split; [exact E|]);
    (split; [done|]); [split; [done|]; by right| |split; [done|]; by right].
  split; [|done]. intros _. cbn. unfold m, exchange_turn in Em.
  apply and_then_inr in Em as (response & s2 & _ & Em). apply and_then_inr in Em as (decoded & s3 & _ & Em).
  destruct (negb _) in Em; [discriminate Em|]. destruct (dr_data decoded) as [|output' [|]]; try discriminate Em.
  destruct (negb _) in Em; [discriminate Em|]. cbv zeta in Em. destruct (bool_decide _) eqn:Hc in Em; [discriminate Em|].
  apply bool_decide_eq_false in Hc. injection Em as _ <- _. exact Hc.
Qed.

Lemma exchange_spent x s input options :
  method_path (prefix config) (hc_protocol config) (es_method x) (str "/exchange") = Ok request_path ->
  let '(r, (x', s')) := step_ exchange on_log external input options (x, s) in
  exists l, hs_sent s' = hs_sent s ++ l /\ spent x x' (posts request_path l) (is_answered r).
Proof.
  intros Epath. unfold exchange. rewrite (bind_done _ _ (x, s) (x, s) (x, s)) by done. cbn [fst].
  destruct (negb (es_is_active x)) eqn:Ea; [apply spent_same|]. apply negb_false_iff in Ea.
  destruct (negb (schema_equals _ _)); [apply spent_same|].
  pose proof (request_id_calm (fun e => ~ posted request_path e) options s) as H1.
  unfold mbind at 1, M_bind at 1, on_state at 1, zoom. cbn [snd fst].
  destruct (request_id_of options s) as [[rid|e] s1]; cbn [snd] in H1;
    [|apply (spent_after _ _ _ _ _ _ H1), spent_same].
  cbv zeta. set (md := continuation _ _ _ _).
  pose proof (encode_calm (fun e => ~ posted request_path e) (ab_batch input) md s1) as H2.
  unfold and_then at 1, mbind at 1, M_bind at 1, on_state at 1, zoom. cbn [snd fst].
  destruct (encode_request _ _ _ _ md s1) as [[[e|body]|e] s2]; cbn [snd] in H2;
    [apply (spent_after _ _ _ _ _ _ H1), (spent_after _ _ _ _ _ _ H2), spent_same| |apply (spent_after _ _ _ _ _ _ H1), (spent_after _ _ _ _ _ _ H2), spent_same].
  rewrite (bind_done _ _ (x, s2) tt (set_es_active x false, s2)) by done.
  pose proof (turn_spent x s2 body rid options Epath Ea) as Ht.
  destruct (and_then _ _ (set_es_active x false, s2)) as [r [x' s']].
  exact (spent_after _ _ _ _ _ _ H1 (spent_after _ _ _ _ _ _ H2 Ht)).
Qed.

(** What a caller does with a session; the exceptions it gets do not stop it. *)
Inductive session_op :=
  | Exchange (input : AnnotatedBatch) (options : CallOptions)
  | Cancel
  | Close.

(** How many turns were answered. *)
Fixpoint run_session (ops : list session_op) (p : HttpExchangeSession * state) : nat * (HttpExchangeSession * state) :=
  match ops with
  | [] => (O, p)
  | Exchange input options :: ops' =>
      let '(r, p') := step_ exchange on_log external input options p in
      let '(n, p'') := run_session ops' p' in
      ((if is_answered r then 1 else 0) + n, p'')%nat
  | Cancel :: ops' => run_session ops' (step_ cancel_exchange p).2
  | Close :: ops' => run_session ops' (close_exchange p).2
  end.
Lemma retired_stays ops x s : es_is_active x = false -> run_session ops (x, s) = (O, (x, s)).
Proof.
  intros Ea. induction ops as [|[input options| |] ops IH]; cbn [run_session]; [done|..].
  - assert (step_ exchange on_log external input options (x, s)
      = (Done (inl (HttpFailure (protocol_failure (str "exchange session is closed") 0))), (x, s))) as ->
      by (unfold exchange; rewrite (bind_done _ _ (x, s) (x, s) (x, s)) by done; cbn [fst]; by rewrite Ea).
    by rewrite IH.
  - assert (step_ cancel_exchange (x, s) = (Done tt, (x, s))) as ->
      by (unfold cancel_exchange; rewrite (bind_done _ _ (x, s) (x, s) (x, s)) by done; cbn [fst]; by rewrite Ea).
    exact IH.
  - unfold close_exchange, on_session, modify. cbn [fst snd]. destruct x. cbn in Ea. subst. exact IH.
Qed.

Lemma cancel_spent x s :
  method_path (prefix config) (hc_protocol config) (es_method x) (str "/exchange") = Ok request_path ->
  es_is_active x = true ->
  exists s', (step_ cancel_exchange (x, s)).2 = (set_es_active x false, s') /\
    exists l, hs_sent s' = hs_sent s ++ l /\ (ran (posts request_path l) <= 1)%nat.
Proof.
  intros Epath Ea. unfold cancel_exchange. rewrite (bind_done _ _ (x, s) (x, s) (x, s)) by done. cbn [fst]. rewrite Ea.
  cbn [negb]. rewrite (bind_done _ _ (x, s) tt (set_es_active x false, s)) by done. unfold on_state, zoom. cbn [fst snd].
  pose proof (cancel_request_ran (es_method x) (es_cursor x) (es_call_state x) Epath s) as Hc.
  destruct (cancel_request _ _ _ _ _ _ _ _ _ s) as [r s']. by exists s'.
Qed.

(** What is known of a run of [n] answered turns. *)
Definition run_sent (n : nat) (x' : HttpExchangeSession) (s s' : state) : Prop :=
  exists l, hs_sent s' = hs_sent s ++ l /\ es_cursor x' <> [] /\
    (n <= ran (posts request_path l) <= S n)%nat /\ (es_is_active x' = true -> ran (posts request_path l) = n).

Lemma run_sent_none x s : es_cursor x <> [] -> run_sent O x s s.
Proof.
  intros Hc. exists []. rewrite app_nil_r. change (ran (posts request_path [])) with O. split_and!; first [done|lia].
Qed.

(** A step, and what follows it. *)
Lemma run_sent_step ops x s x' s' l b :
  es_cursor x <> [] -> spent x x' (posts request_path l) b -> hs_sent s' = hs_sent s ++ l ->
  (let '(n, (x2, s2)) := run_session ops (x', s') in run_sent n x2 s' s2) ->
  let '(n, (x2, s2)) := run_session ops (x', s') in run_sent ((if b : bool then 1 else 0) + n) x2 s s2.
Proof.
  intros Hc (_ & Hcur & Hb) E IH. destruct (es_is_active x') eqn:Ea'.
  - destruct (run_session ops (x', s')) as [n [x2 s2]]. destruct IH as (l' & E' & Hc2 & Hn & Hact).
    exists (l ++ l'). rewrite E', E, app_assoc. unfold posts in *. rewrite filter_app, ran_app.
    destruct b; [destruct Hb as (_ & _ & ->)|destruct Hb as [[_ ->]|(_ & [=] & _)]; change (ran []) with O];
      (split; [done|]; split; [done|]; split; [lia|]); intros Ha; rewrite (Hact Ha); lia.
  - rewrite retired_stays by done. exists l. rewrite Ea'. destruct b; [by destruct Hb as (_ & [=] & _)|].
    split; [done|]. split; [by apply Hcur|]. split; [|done]. destruct Hb as [[_ ->]|(_ & _ & Hr)]; [cbn; lia|lia].
Qed.

Lemma session_spent ops x s :
  method_path (prefix config) (hc_protocol config) (es_method x) (str "/exchange") = Ok request_path -> es_cursor x <> [] ->
  let '(n, (x', s')) := run_session ops (x, s) in run_sent n x' s s'.
Proof.
  intros Epath Hc. revert x s Epath Hc; induction ops as [|op ops IH]; intros x s Epath Hc; [by apply run_sent_none|].
  assert (forall x' s' l b, spent x x' (posts request_path l) b -> hs_sent s' = hs_sent s ++ l ->
    let '(n, (x2, s2)) := run_session ops (x', s') in run_sent ((if b : bool then 1 else 0) + n) x2 s s2) as Hstep.
  { intros x' s' l b Hs E. apply (run_sent_step ops x s x' s' l b Hc Hs E). destruct Hs as (Hm & Hcur & _).
    apply IH; [by rewrite Hm|by apply Hcur]. }
  destruct op as [input options| |]; cbn [run_session].
  - pose proof (exchange_spent x s input options Epath) as Hx. destruct (exchange _ _ _ _ _ _ _ _ _ _ (x, s)) as [r [x' s']].
    destruct Hx as (l & E & Hs). specialize (Hstep x' s' l (is_answered r) Hs E). by destruct (run_session ops _) as [n [x2 s2]].
  - destruct (es_is_active x) eqn:Ea; cycle 1.
    { pose proof (retired_stays (Cancel :: ops) x s Ea) as Hr. cbn [run_session] in Hr. rewrite Hr. by apply run_sent_none. }
    destruct (cancel_spent x s Epath Ea) as (s' & -> & l & E & Hr).
    apply (Hstep (set_es_active x false) s' l false); [split; [done|]; split; [done|]; by right|exact E].
  - pose proof (retired_stays ops (set_es_active x false) s eq_refl) as Hr. unfold close_exchange, on_session, modify.
    cbn [fst snd]. rewrite Hr. by apply run_sent_none.
Qed.
End turns.

(** C7: a turn of an exchange is executed at most once.  Whatever a caller does with an
    exchange session (turns, cancelling, closing, in any order, going on after
    exceptions), and whatever the network, the server and the clock do: of all the
    requests made to the stream's path, those that the server did not turn away before
    dispatch are, as long as the session is active, exactly as many as the turns that
    were answered, and at most one more when it is not.  So no cursor is ever sent to the
    application twice, also when a reply is lost, a response is malformed or the call is
    cancelled: a session that does not know what became of a turn sends nothing more; and
    it always has a cursor. *)
Theorem exchange_turns_run_once (ops : list session_op) (x : HttpExchangeSession) (s : state) request_path :
  method_path (prefix config) (hc_protocol config) (es_method x) (str "/exchange") = Ok request_path ->
  handlers_within (fun e => ~ posted request_path e) -> uploads_elsewhere request_path externalize_request ->
  es_cursor x <> [] ->
  let '(n, (x', s')) := run_session ops (x, s) in
  exists l, hs_sent s' = hs_sent s ++ l /\ es_cursor x' <> [] /\
    (n <= ran (posts request_path l) <= S n)%nat /\ (es_is_active x' = true -> ran (posts request_path l) = n).
Proof. intros Epath Hh Hup Hc. exact (session_spent request_path Hh Hup ops x s Epath Hc). Qed.

(** ** A producer's batches *)

Abbreviation turn_ := (producer_turn config url limits auth_callback externalize_request external_max_upload_bytes on_log external).
Abbreviation tick_ := (tick config url limits auth_callback externalize_request external_max_upload_bytes on_log external).
Abbreviation loop_ := (tick_loop config url limits auth_callback externalize_request external_max_upload_bytes on_log external).

Section producer.
Context (turn_metadata : metadata) (options : CallOptions).

(** What the server answers a session with, turn after turn, until there is no cursor. *)
Inductive answers_of : HttpStreamSession -> state -> list DecodedResponse -> state -> Prop :=
  | answers_end x s : ss_cursor x = [] -> answers_of x s [] s
  | answers_turn x s d rid s1 ds s2 :
      ss_cursor x <> [] ->
      turn_ x turn_metadata options s = (Done (inr (d, rid)), s1) ->
      schema_equals (dr_schema d) (ss_output_schema x) = true -> (length (dr_data d) <= 1)%nat ->
      answers_of (update_controls (dr_control d) x) s1 ds s2 ->
      answers_of x s (d :: ds) s2.

(** Only the method, the tokens and the schema matter. *)
Definition same_stream (x y : HttpStreamSession) : Prop :=
  ss_method x = ss_method y /\ ss_cursor x = ss_cursor y /\ ss_call_state x = ss_call_state y /\
  ss_output_schema x = ss_output_schema y.

Lemma answers_same x y s ds s2 : same_stream x y -> answers_of x s ds s2 -> answers_of y s ds s2.
Proof.
  intros Hxy Ha. revert y Hxy. induction Ha as [x s Hc|x s d rid s1 ds s2 Hc Et Hs Hl _ IH]; intros y (Hm & Hcur & Hst & Ho).
  - apply answers_end. congruence.
  - apply (answers_turn y s d rid s1); [congruence| |congruence|done|].
    + rewrite <- Et. unfold producer_turn, turn_request. by rewrite Hm, Hcur, Hst.
    + apply IH. unfold same_stream, update_controls. cbn. by rewrite Hm, Hst, Ho.
Qed.

(** A producer at work. *)
Definition producing (x : HttpStreamSession) : Prop :=
  ss_kind x = PRODUCER /\ ss_is_closed x = false /\ is_Some (ss_output_schema x) /\
  (ss_is_finished x = true -> ss_cursor x = []).

(** What is still to be delivered. *)
Definition outstanding (x : HttpStreamSession) (ds : list DecodedResponse) : list AnnotatedBatch :=
  ss_pending x ++ concat (map (fun d => map stripped (dr_data d)) ds).

Lemma fetch_turn_spec x s d rid s1 :
  is_Some (ss_output_schema x) -> turn_ x turn_metadata options s = (Done (inr (d, rid)), s1) ->
  schema_equals (dr_schema d) (ss_output_schema x) = true -> (length (dr_data d) <= 1)%nat ->
  fetch_turn config url limits auth_callback externalize_request external_max_upload_bytes on_log external
    turn_metadata options (x, s)
  = (Done (inr tt), (update_controls (dr_control d) (set_ss_pending x (ss_pending x ++ map stripped (dr_data d))), s1)).
Proof.
  intros [o Ho] Et Hs Hl. unfold fetch_turn. rewrite (bind_done _ _ (x, s) (x, s) (x, s)) by done. cbn [fst].
  unfold and_then at 1. rewrite (bind_done _ _ (x, s) (inr (d, rid)) (x, s1)); cycle 1.
  { unfold on_state, zoom. cbn [fst snd]. by rewrite Et. }
  cbv beta iota. unfold and_then. rewrite (bind_done _ _ (x, s1) (inr tt) (x, s1)); cycle 1.
  { unfold settle_schema. rewrite (bind_done _ _ (x, s1) (x, s1) (x, s1)) by done. cbn [fst]. rewrite Ho in *. by rewrite Hs. }
  cbv beta iota. destruct (Nat.ltb_spec 1 (length (dr_data d))); [lia|done].
Qed.

Lemma loop_spec rounds x s ds s2 :
  producing x -> answers_of x s ds s2 -> (length ds < rounds)%nat ->
  match outstanding x ds with
  | [] => exists x', loop_ rounds turn_metadata options (x, s) = (Done (inr None), (x', s2)) /\
      producing x' /\ ss_pending x' = [] /\ ss_is_finished x' = true /\ answers_of x' s2 [] s2
  | value :: rest => exists x' s' ds', loop_ rounds turn_metadata options (x, s) = (Done (inr (Some value)), (x', s')) /\
      producing x' /\ answers_of x' s' ds' s2 /\ outstanding x' ds' = rest /\ (length ds' <= length ds)%nat
  end.
Proof.
  revert x s ds; induction rounds as [|rounds IH]; intros x s ds Hp Ha Hr; [lia|]. cbn [tick_loop].
  rewrite (bind_done _ _ (x, s) (x, s) (x, s)) by done. cbn [fst].
  destruct (ss_pending x) as [|value pending] eqn:Ep; cycle 1.
  { unfold outstanding. rewrite Ep. cbn [app]. exists (set_ss_pending x pending), s, ds. split_and!; [done|done| |done|done].
    eapply answers_same; [|exact Ha]. by repeat split. }
  destruct Ha as [x s Hc|x s d rid s1 ds s2 Hc Et Hs Hl Ha].
  - unfold outstanding. rewrite Ep. cbn [app map concat]. exists (set_ss_flags x true (ss_is_closed x)).
    rewrite (bool_decide_true (ss_cursor x = [])), orb_true_r by done. destruct Hp as (Hk & Hcl & Ho & Hf).
    split_and!; try done. by apply answers_end.
  - destruct Hp as (Hk & Hcl & Ho & Hf). destruct (ss_is_finished x) eqn:Ef; [by destruct (Hc (Hf eq_refl))|].
    rewrite bool_decide_false by done. cbn [orb].
    pose proof (fetch_turn_spec x s d rid s1 Ho Et Hs Hl) as Efetch.
    set (x1 := update_controls _ _) in Efetch. unfold and_then. rewrite (bind_done _ _ _ _ _ Efetch). cbv beta iota.
    assert (producing x1) as Hp1.
    { split_and!; try done. unfold x1, update_controls. cbn. rewrite Ef, orb_false_r. by intros ?%bool_decide_eq_true. }
    assert (outstanding x (d :: ds) = outstanding x1 ds) as ->.
    { unfold outstanding, x1. cbn. rewrite Ep. done. }
    cbn [length] in Hr. specialize (IH x1 s1 ds Hp1). destruct (outstanding x1 ds) as [|value rest].
    + apply IH; [|lia]. eapply answers_same; [|exact Ha]. by repeat split.
    + destruct IH as (x' & s' & ds' & El & Hp' & Ha' & Hout & Hle);
        [eapply answers_same; [|exact Ha]; by repeat split|lia|].
      exists x', s', ds'. split_and!; try done. cbn [length]. lia.
Qed.

(** [n] ticks, one after the other. *)
Fixpoint ticks (rounds n : nat) : M (HttpStreamSession * state) (list (http_failure + option AnnotatedBatch)) :=
  match n with
  | O => mret []
  | S n' => r ← tick_ rounds turn_metadata options; rs ← ticks rounds n'; mret (r :: rs)
  end.

Lemma tick_producing rounds x s : producing x ->
  tick_ rounds turn_metadata options (x, s) = loop_ rounds turn_metadata options (x, s).
Proof.
  intros (Hk & Hc & _). unfold tick. rewrite (bind_done _ _ (x, s) (x, s) (x, s)) by done. cbn [fst]. rewrite Hc, Hk.
  rewrite (bool_decide_true (PRODUCER = PRODUCER)) by done. done.
Qed.

Lemma ticks_after_end rounds k x s :
  producing x -> answers_of x s [] s -> ss_pending x = [] -> (0 < rounds)%nat ->
  exists x', ticks rounds k (x, s) = (Done (replicate k (inr None)), (x', s)) /\ (k <> O -> ss_is_finished x' = true).
Proof.
  revert x; induction k as [|k IH]; intros x Hp Ha Hq Hr; cbn [ticks]; [by exists x|].
  pose proof (loop_spec rounds x s [] s Hp Ha Hr) as Hl. unfold outstanding in Hl. rewrite Hq in Hl. cbn [app map concat] in Hl.
  destruct Hl as (x1 & El & Hp1 & Hq1 & Hf1 & Ha1). rewrite (bind_done _ _ _ (inr None) (x1, s)) by (by rewrite tick_producing).
  destruct (IH x1 Hp1 Ha1 Hq1 Hr) as (x' & Ek & Hf). exists x'. rewrite (bind_done _ _ _ _ _ Ek). split; [done|]. intros _.
  destruct k; [|by apply Hf]. cbn in Ek. by injection Ek as <-.
Qed.

Lemma ticks_deliver rounds k out x s ds s2 :
  producing x -> answers_of x s ds s2 -> (length ds < rounds)%nat -> outstanding x ds = out ->
  exists x', ticks rounds (length out + S k) (x, s) = (Done (map (fun b => inr (Some b)) out ++ replicate (S k) (inr None)), (x', s2))
    /\ ss_is_finished x' = true.
Proof.
  revert x s ds; induction out as [|value out IH]; intros x s ds Hp Ha Hr Hout;
    pose proof (loop_spec rounds x s ds s2 Hp Ha Hr) as Hl; rewrite Hout in Hl; cbn [length plus ticks map app replicate].
  - destruct Hl as (x1 & El & Hp1 & Hq1 & Hf1 & Ha1). rewrite (bind_done _ _ _ (inr None) (x1, s2)) by (by rewrite tick_producing).
    destruct (ticks_after_end rounds k x1 s2 Hp1 Ha1 Hq1 ltac:(lia)) as (x' & Ek & Hf). exists x'.
    rewrite (bind_done _ _ _ _ _ Ek). split; [done|]. destruct k; [|by apply Hf]. cbn in Ek. by injection Ek as <-.
  - destruct Hl as (x1 & s1 & ds1 & El & Hp1 & Ha1 & Hout1 & Hle).
    rewrite (bind_done _ _ _ (inr (Some value)) (x1, s1)) by (by rewrite tick_producing).
    destruct (IH x1 s1 ds1 Hp1 Ha1 ltac:(lia) Hout1) as (x' & Ek & Hf). exists x'.
    rewrite (bind_done _ _ _ _ _ Ek). by split.
Qed.

(** The answers, as far as [n] turns go. *)
Fixpoint answers_upto (n : nat) (x : HttpStreamSession) (s : state) : option (list DecodedResponse * state) :=
  if bool_decide (ss_cursor x = []) then Some ([], s)
  else
    match n with
    | O => None
    | S n' =>
        match turn_ x turn_metadata options s with
        | (Done (inr (d, _)), s1) =>
            if schema_equals (dr_schema d) (ss_output_schema x) && (length (dr_data d) <=? 1)%nat then
              '(ds, s2) ← answers_upto n' (update_controls (dr_control d) x) s1; Some (d :: ds, s2)
            else None
        | _ => None
        end
    end.

Lemma answers_upto_of n x s ds s2 : answers_upto n x s = Some (ds, s2) -> answers_of x s ds s2 /\ (length ds <= n)%nat.
Proof.
  revert x s ds; induction n as [|n IH]; intros x s ds; cbn [answers_upto]; case_bool_decide as Hc; try done;
    try (intros [= <- <-]; split; [by apply answers_end|cbn; lia]).
  destruct (turn_ x turn_metadata options s) as [[[e|[d rid]]|e] s1] eqn:Et; try done.
  destruct (_ && _) eqn:Eb; [|done]. apply andb_true_iff in Eb as [Hs Hl%Nat.leb_le].
  intros ([ds' s3] & Eu & [= <- <-])%bind_Some. destruct (IH _ _ _ Eu) as [Ha Hn]. split; [|cbn; lia].
  by apply (answers_turn x s d rid s1).
Qed.

(** C8: a producer's batches, all of them and in order.  If the server answers the turns of
    a producer, one after the other, with responses of the stream's schema and at most
    one batch each until one has no cursor, then calling [tick] again and again gives
    first what is pending, then the batches of the responses, in order and without the
    transport's metadata, each exactly once, however many responses have none; then
    nothing, as often as it is called, and the stream is finished.  [tick] always
    returns, with one round for each response and one more; and no request is made other
    than those turns. *)
Theorem producer_delivered (rounds k : nat) (x : HttpStreamSession) (s s2 : state) (ds : list DecodedResponse) :
  ss_kind x = PRODUCER -> ss_is_closed x = false -> is_Some (ss_output_schema x) ->
  (ss_is_finished x = true -> ss_cursor x = []) ->
  answers_of x s ds s2 -> (length ds < rounds)%nat ->
  let batches := ss_pending x ++ concat (map (fun d => map stripped (dr_data d)) ds) in
  exists x',
    ticks rounds (length batches + S k) (x, s)
      = (Done (map (fun b => inr (Some b)) batches ++ replicate (S k) (inr None)), (x', s2))
    /\ ss_is_finished x' = true.
Proof. intros Hk Hc Ho Hf Ha Hr batches. by eapply ticks_deliver. Qed.
End producer.
End sessions.

(** ** Witnesses *)

Import ToyArrow ToyStreams ToyTypes ToyBuild Json.ToyJson ToyInet ToyWire.

(** Bodies that stand for streams: one batch and a cursor, no batch and a cursor, one batch
    and the end. *)
Module ToySessions.

Definition toy_control (cursor : bytes) : message := MsgBatch (toy_data_batch []) (Some [(STATE_B64, cursor)]).

Definition toy_messages (body : bytes) : list message :=
  if bool_decide (body = str "turn") then
    [MsgSchema toy_schema; MsgBatch (toy_data_batch [x07]) (Some [(STATE_B64, str "c2"); (str "k", str "v")]); MsgEos]
  else if bool_decide (body = str "page") then
    [MsgSchema toy_schema; MsgBatch (toy_data_batch [x01]) None; toy_control (str "c2"); MsgEos]
  else if bool_decide (body = str "wait") then [MsgSchema toy_schema; toy_control (str "c3"); MsgEos]
  else if bool_decide (body = str "last") then [MsgSchema toy_schema; MsgBatch (toy_data_batch [x02]) None; MsgEos]
  else [].

#[export] Instance session_buffers : BufferStreams :=
  {| buffer_reader body := toy_wire (toy_messages body); buffer_tell body _ := Some (blen body);
     schema_equal_metadata s t := Bool.eqb s t |}.

#[export] Existing Instances ToyNetwork.zstd ToyNetwork.zstd_laws.

#[export] Instance session_ipc : IpcBytes := fun _ => str "request".

Definition lost : WireAnswer :=
  {| wa_head := None; wa_chunks := []; wa_error := Some (ErrorOther, str "lost") |}.

Definition ok_answer (body : string) : WireAnswer := answer 200 [arrow_type] (str body).

Definition toy_exchange : HttpExchangeSession :=
  {| es_method := str "copy"; es_input_schema := Some toy_schema; es_output_schema := Some toy_schema;
     es_cursor := str "c1"; es_call_state := str "call"; es_is_active := true |}.

Definition toy_turn : session_op := Exchange (data (toy_data_batch [x05])) new_CallOptions.

Definition toy_run (ops : list session_op) (answers : list WireAnswer) : nat * (HttpExchangeSession * HttpClientState) :=
  run_session toy_config toy_url toy_limits None None 0 None None ops (toy_exchange, client answers).

Definition toy_producer : HttpStreamSession :=
  {| ss_method := str "count"; ss_kind := PRODUCER; ss_input_schema := Some toy_schema; ss_output_schema := Some toy_schema;
     ss_header := None; ss_pending := [data (toy_data_batch [x00])]; ss_cursor := str "c1"; ss_call_state := str "call";
     ss_is_finished := false; ss_is_closed := false |}.

Definition toy_pages : HttpClientState :=
  client [answer 200 [] []; ok_answer "page"; ok_answer "wait"; ok_answer "last"].

Definition toy_ticks (n : nat) :=
  ticks toy_config toy_url toy_limits None None 0 None None None new_CallOptions 4 n (toy_producer, toy_pages).

(** The data of the batches that were given. *)
Definition given (r : outcome (list (http_failure + option AnnotatedBatch)) * (HttpStreamSession * HttpClientState))
    : option (list (option bytes)) :=
  match r.1 with
  | Done rs => Some (map (fun r => match r with inr (Some b) => Some (toy_data (ab_batch b)) | _ => None end) rs)
  | Raised _ => None
  end.
End ToySessions.
Import ToySessions.

(** A turn is answered, the answer to the next is lost: nothing more is sent, not even to
    cancel.  A producer gives what it has, a batch, the one after an empty page, and then
    nothing. *)
Example session_examples :
  let '(n, (x, s)) := toy_run [toy_turn; toy_turn; toy_turn; Cancel] [answer 200 [] []; ok_answer "turn"; lost; ok_answer "turn"] in
  (n, es_is_active x, es_cursor x, map snd (hs_sent s)) = (1%nat, false, str "c2", [200; 200; -1])
  /\ given (toy_ticks 5) = Some [Some [x00]; Some [x01]; Some [x02]; None; None].
Proof. vm_compute. split; reflexivity. Qed.

Lemma exchange_turns_run_once_witness :
  let '(n, (x', s')) := toy_run [toy_turn; toy_turn; Cancel] [answer 200 [] []; ok_answer "turn"; lost] in
  n = 1%nat /\ es_is_active x' = false /\
  exists l, hs_sent s' = l /\ (1 <= ran (posts (str "/vgi/demo.v1/copy/exchange") l) <= 2)%nat.
Proof.
  assert (let '(n, (x', s')) := toy_run [toy_turn; toy_turn; Cancel] [answer 200 [] []; ok_answer "turn"; lost] in
    (n =? 1)%nat && negb (es_is_active x') = true) as Hb by (vm_compute; reflexivity).
  pose proof (exchange_turns_run_once toy_config toy_url toy_limits None None 0 None None [toy_turn; toy_turn; Cancel]
    toy_exchange (client [answer 200 [] []; ok_answer "turn"; lost]) (str "/vgi/demo.v1/copy/exchange") eq_refl
    ltac:(split; intros f [=]) ltac:(intros f [=]) ltac:(discriminate)) as H.
  unfold toy_run in *. destruct (run_session _ _ _ _ _ _ _ _ _ _) as [n [x' s']].
  apply andb_true_iff in Hb as [Hn%Nat.eqb_eq Ha%negb_true_iff]. subst n. split; [reflexivity|]. split; [exact Ha|].
  destruct H as (l & E & _ & Hr & _). exists l. split; [exact E|exact Hr].
Defined.

Lemma producer_delivered_witness : exists ds s2 x',
  answers_upto toy_config toy_url toy_limits None None 0 None None None new_CallOptions 3 toy_producer toy_pages = Some (ds, s2)
  /\ length ds = 3%nat /\
  let batches := ss_pending toy_producer ++ concat (map (fun d => map stripped (dr_data d)) ds) in
  ticks toy_config toy_url toy_limits None None 0 None None None new_CallOptions 4 (length batches + 2) (toy_producer, toy_pages)
    = (Done (map (fun b => inr (Some b)) batches ++ replicate 2 (inr None)), (x', s2))
  /\ ss_is_finished x' = true.
Proof.
  pose proof (answers_upto_of toy_config toy_url toy_limits None None 0 None None None new_CallOptions 3 toy_producer toy_pages)
    as Hof.
  assert (match answers_upto toy_config toy_url toy_limits None None 0 None None None new_CallOptions 3 toy_producer toy_pages
          with Some (ds, _) => (length ds =? 3)%nat | None => false end = true) as Hb by (vm_compute; reflexivity).
  destruct (answers_upto _ _ _ _ _ _ _ _ _ _ _ _ _) as [[ds s2]|]; [|discriminate Hb].
  destruct (Hof ds s2 eq_refl) as [Ha Hl].
  destruct (producer_delivered toy_config toy_url toy_limits None None 0 None None None new_CallOptions 4 1 toy_producer
    toy_pages s2 ds eq_refl eq_refl ltac:(eexists; reflexivity) ltac:(discriminate) Ha ltac:(lia)) as (x' & Et & Hf).
  exists ds, s2, x'. split; [reflexivity|]. split; [apply Nat.eqb_eq, Hb|]. split; [exact Et|exact Hf].
Defined.
